(* ===== verification/_CoqProject ===== *)
-Q . S2P
Prelude.v
RustStr.v
Utf8.v
ByteOrder.v
ErrorCode.v
ManagedPath.v
Memory.v
Cpu.v
ProtocolError.v
Frame.v
Payload.v
Message.v
Session.v
WorkloadSession.v
Sha256.v
BuilderManifest.v
AccountDatabase.v
BuilderMessage.v
BuilderSession.v
Validator.v
ValidatorSession.v
NoPanic.v
InitError.v
GuestErrors.v
Pump.v
StreamPump.v
Incremental.v
InitControl.v
InitEvents.v
StoreCodec.v
HexText.v
OciError.v
OciJson.v
OciConfig.v
OciLayout.v
OciVerified.v
HostError.v
HostFiles.v
UserResolve.v
Agree.v
ValidatorAccount.v
ImageProcess.v
Parameters.v
GuestConfig.v
GuestContract.v
Profile.v
Elf.v
ProfileText.v
ProfileFiles.v
ProfileSample.v
Launch.v
LaunchSample.v
Guard.v
ManifestTree.v
ManifestChunks.v
ManifestReturns.v
ManifestWalk.v
HostManifest.v
ManifestStream.v
ManifestSample.v
HostBuild.v
HostBuildSample.v
ControlChannel.v
StoreIdentity.v
StoreRecords.v
StoreFs.v
FsFacts.v
Store.v
ImageRun.v
StoreFrame.v
StoreVerify.v
StoreGc.v
StorePublish.v
StoreBegin.v
StoreRecover.v
StoreRoots.v
FsRemove.v
StoreSample.v
StoreRuns.v
