(* ===== verification/Prelude.v ===== *)
(** * Verification of pocket_vm

    pocket_vm runs OCI images in User-mode Linux.  A host runtime starts guests and talks
    to their init programs over a framed control protocol; image builds are published in
    a content-addressed store on disk.  This library models, as executable definitions,
    the crates pocket-core and pocket-protocol, the whole of pocket-store, the decoders,
    buffers, stream pumps and boot contract of pocket-init, the boot parameters and the
    manifest walks of the other two guests, the layout verifier of pocket-oci, the engine
    of pocket-guard, and of pocket-runtime the profiles, the launch plans, the control
    channel, the protocols of a build and the resolution of an image's process, and proves
    what makes them correct.

    ** How the parts interact

    - A guest sends frames (Frame) whose payloads are messages (Payload, Message,
      BuilderMessage, Validator); a session (WorkloadSession, BuilderSession,
      ValidatorSession) accepts each message or refuses it.  The host reads them through
      ControlChannel, the guest through InitControl; inside the guest, supervisor events
      (InitEvents) and the bytes of the streams (Pump, StreamPump) go over pipes.
    - In a build the builder guest walks the file system it made and streams what it found
      (ManifestTree); the host checks the stream and keeps it (HostManifest, HostBuild);
      the validator guest walks the finished image again, and the host accepts only the
      same digest and totals.
    - A build ends in a generation: Store stages it, publishes it, and hands out a lease.
      Aliases and retained overlays root generations, [garbage_collect] removes the
      others, [recover] cleans up after interrupted operations.
    - An image is imported from a directory in the OCI layout, every blob of which is
      authenticated (OciLayout, OciJson); its configuration is kept with the generation
      and read back for a run (ImageRun).
    - An image's configuration (OciConfig) and the options of a run give the process that
      START describes (ImageProcess); its user is resolved against the account database
      of the build, in the builder guest and again on the host (UserResolve).
    - A profile is a sealed bundle with a kernel, initramfs and host tools; the host
      verifies it before every use (Profile, Elf, ProfileText, ProfileFiles), and builds
      the command line of each guest from it (Launch).  The guest reads its own command
      line back (Parameters, GuestConfig) and checks START and the generation's marker
      against it (GuestContract).
    - Every guest runs under the guard, which ends it when the host goes away and returns
      when no process of it is left (Guard).

    ** Files

    Shared: Prelude (results with a third outcome [Panic], byte strings, machine-width
    integers, loops), RustStr, Utf8 and ByteOrder (what the sources use of [str], UTF-8,
    sorting and binary search), Sha256 and HexText (the hash and the hex crate as
    interfaces with laws), HostFiles (answers of [std::fs]).

    pocket-core/src: ErrorCode (error.rs), ManagedPath (path.rs), Memory (memory.rs),
    Cpu (cpu.rs).

    pocket-protocol/src: ProtocolError (error.rs), Frame (frame.rs), Payload and Message
    (message.rs), Session and WorkloadSession (state.rs), BuilderManifest,
    AccountDatabase and BuilderMessage (builder.rs), BuilderSession (builder_state.rs),
    Validator (validator.rs), ValidatorSession (validator_state.rs); NoPanic collects
    what holds of all of them.

    pocket-init/src: InitError (error.rs), Pump (pump.rs), StreamPump (the pumps of
    linux.rs), Incremental (decoders that are fed in pieces, as an interface), its
    instances InitControl (control.rs) and InitEvents (internal.rs), GuestContract
    (contract.rs and capability.rs, with the builder's marker.rs).

    pocket-builder-init/src and pocket-validator-init/src: GuestErrors (error.rs of
    both), UserResolve (user.rs, with the host's resolver of image.rs), ValidatorAccount
    (the validator's account.rs), ManifestTree (manifest.rs of both), with its theorems in
    ManifestChunks, ManifestReturns, ManifestWalk (the two walks, compared with the
    relations of Agree) and ManifestStream (the walk and the host); ManifestSample walks a
    small file system.  GuestConfig models config.rs of all three guests, over
    Parameters (settings that are given once).

    pocket-guard/src: Guard (lib.rs).

    pocket-oci/src: OciError (error.rs), and of layout.rs: OciJson (strict JSON and
    base64), OciConfig (the configuration document), OciLayout (the verifier) with its
    theorems in OciVerified.

    pocket-runtime/src: HostError (error.rs), ImageProcess and ImageRun (image.rs),
    ControlChannel (protocol.rs), and of manifest.rs: Profile (the manifest and its
    validation), Elf (static executables), ProfileText (kernel configuration and
    certificates), ProfileFiles (the bundle on disk); ProfileSample evaluates a bundle.
    Launch (launch.rs and the plans of builder.rs) with LaunchSample, HostManifest and
    HostBuild (the protocols of builder.rs) with HostBuildSample.

    pocket-store/src: StoreCodec (codec.rs, error.rs), StoreIdentity (identity.rs),
    StoreRecords (the records of store.rs), StoreFs (fs.rs over a model of the file
    system), Store (the operations of store.rs).  FsFacts, StoreFrame: what each
    operation leaves alone and what a successful one has done.  FsRemove: the removal of
    trees.  StoreVerify, StoreGc, StorePublish, StoreBegin, StoreRecover, StoreRoots: one
    group of theorems each.  StoreSample evaluates a store from its initialisation to a
    collection and applies the theorems there; StoreRuns evaluates crashes and
    interleavings whose outcome the comments of store.rs describe otherwise.

    ** State and effects

    A Rust type is a Module with its data as [t] and one definition per method.  A
    fallible function returns [result E A]; a [&mut self] method returns the new object
    too.  Streams, transports and sinks are lists of what they will do: deliver some
    bytes, be interrupted, time out, fail.  The store runs in a state monad [StoreFs.io]
    over a [world]: a tree of inodes, the advisory locks held by all processes, the
    identity of the process, and a script that decides of every system call whether it
    works, fails with an error, or is the last one of the process, with writes cut short
    at any byte.  A theorem for every world therefore covers every crash.  Files outside
    the store, and the kernel under the guard, answer every call anew: a history gives
    the answers, so a theorem for every history covers files and processes that change.

    ** What the theorems show

    - Sessions: which transcripts each session accepts, that completion binds the counts
      and digests to the bytes received, that sequence numbers have no gaps, and that no
      input makes a decoder or a session panic.
    - Codecs: frames, messages, events and store records decode exactly from their one
      encoding; streams give the same frames however they are cut; a timeout of the
      control channel loses nothing.
    - Images: what the layout verifier returns is authentic however the directory changes
      while it is read, within the limits on documents and unpacked layers; a run starts the
      process of the image that was imported; host and builder resolve users alike; a
      process is resolved as Docker's rules say, and with a plain hostname, a guest path
      as working directory and within the sizes of START it can be started.
    - Profiles: a bundle loads exactly when its manifest is consistent and every file is
      the one it names; its revision commits to the manifest and the files; a second
      verification finds them unchanged.
    - Boots: the command lines that the host builds are those the guests accept, with the
      values of the profile; a guest's generation marker is the one the builder wrote;
      the validator rebuilds the account database that the builder announced.
    - Builds: every message of a finished walk is accepted by the session, in the order
      that the host's structural check asks for, and that check accepts exactly a marker
      and a rootfs; a finished protocol leaves on the host the bytes whose digests the
      result names, and the announcement it checked is the one the connection delivered; the validator's walk over another mount of the same file system has
      the same digest, whatever the order of listings, the pieces of reads and the inodes.
    - Guard: a result is the direct child's, no child is left unless the result says so,
      every child that was ever seen has been signalled, no round of the loop waits past
      the deadline of a shutdown or begins to wait after it without SIGKILL, which is sent
      for no other reason than the deadline, no time to give, or a second signal, and the guard returns once the kernel has no child.
    - Streams: the pump buffer is a bounded queue; an announced input is delivered
      exactly or never ended.
    - Store: a generation identifier exists and commits to its inputs and outputs, unless
      two of the strings that were hashed for it have the same digest ([Sha256.collides],
      which names the two strings; no theorem has the bare existence of a collision as an
      alternative); verification accepts exactly the valid generations; publication is
      atomic under every fault and crash; what is leased or rooted survives every
      collection, and a collection reports exactly what it removed; setting an alias is
      atomic and protects its target; recovery loses nothing; removal of a tree
      terminates.
    - pocket-core: exact grammars and ranges of sizes, CPU requests, paths and codes.

    ** Interfaces

    Code outside the repository is a class with the documented behaviour as laws: minicbor
    ([Payload.Cbor]), SHA-256 ([Sha256.Sha2]), the hex crate ([HexText.Hex]), serde_json's
    tokens and the derived deserialisers ([OciJson.SerdeJson], [OciLayout.Documents],
    [ProfileFiles.ProfileJson]), flate2 and zstd ([OciLayout.Decoders]), texts of the
    standard library that only appear in error messages ([Store.StdText]).  Each has an
    instance for the witnesses.

    ** Fuel and bounds

    Loops that are not structural carry fuel computed from their input: the length of the
    data for decoders and hashing, the depth limit of nested indexes, the depth of the tree
    for removals (shown to be enough in FsRemove), the negotiated depth for the manifest
    walks (ManifestReturns), the bytes of the connection for the loop over chunks
    (HostBuild), the numbers of attempts that the sources themselves bound.  The loops of
    the guard take fuel for the calls that are made until the kernel has no child; with that
    much they are shown to return. Unsigned integers are [N] with their width checked where
    the code checks or could overflow.  The workspace is built with [panic = abort], so
    [Panic] ends a process without running destructors; the kernel still releases its locks.

    ** Not modelled

    The operations of the store are sequential: another process acts between two operations,
    not inside one (StoreRuns splits one to show an interleaving).  A crash is the end of
    the process; what a power failure does to unsynced data is not modelled.  A walked file
    system does not change during the walk: the guest mounted it and runs nothing else. 
    Permission checks of the kernel are left to the script.  Not modelled at all: guest
    set-up and the event loops (pocket-init, pocket-builder-init and pocket-validator-init
    are mostly system calls), spawning and terminal handling, the steps of a build around
    its protocols (sizing, formatting, publication), sealing a profile, copy-on-write
    images, archives, the skopeo driver and the command line. *)

From Stdlib Require Export Strings.Byte.
From stdpp Require Export base list strings gmap numbers option sorting.
#[export] Set Default Goal Selector "!".

(** [lia] with the division and modulo facts it does not add itself. *)
Ltac lia_mod := zify; Z.to_euclidean_division_equations; lia.

(** ** Results

    [Result<T, E>] with a third outcome: [Panic] is what the program does when
    it indexes a slice out of range or overflows an unchecked machine integer.
    Nothing catches it, so it propagates through [?] like an error does. *)
Inductive result (E A : Type) : Type :=
| Ok (a : A)
| Err (e : E)
| Panic.
Arguments Ok {E A} a.
Arguments Err {E A} e.
Arguments Panic {E A}.

#[export] Instance result_ret E : MRet (result E) := λ A a, Ok a.
#[export] Instance result_bind E : MBind (result E) := λ A B f r,
  match r with Ok a => f a | Err e => Err e | Panic => Panic end.
#[export] Instance result_fmap E : FMap (result E) := λ A B f r,
  match r with Ok a => Ok (f a) | Err e => Err e | Panic => Panic end.

(** [Result::map_err], also the conversion [From] applies at [?]. *)
Definition map_err {E F A} (f : E → F) (r : result E A) : result F A :=
  match r with Ok a => Ok a | Err e => Err (f e) | Panic => Panic end.

(** [Option::ok_or]. *)
Definition ok_or {E A} (o : option A) (e : E) : result E A :=
  match o with Some a => Ok a | None => Err e end.

(** [Option::is_none_or]. *)
Definition is_none_or {A} (P : A → Prop) (o : option A) : Prop :=
  match o with Some a => P a | None => True end.
#[export] Instance is_none_or_dec {A} (P : A → Prop) `{!∀ a, Decision (P a)} o : Decision (is_none_or P o).
Proof. destruct o; apply _. Defined.
(** [Option::is_some_and]. *)
Definition is_some_and {A} (P : A → Prop) (o : option A) : Prop :=
  match o with Some a => P a | None => False end.
#[export] Instance is_some_and_dec {A} (P : A → Prop) `{!∀ a, Decision (P a)} o : Decision (is_some_and P o).
Proof. destruct o; apply _. Defined.

Definition is_ok {E A} (r : result E A) : Prop := ∃ a, r = Ok a.

(** A [for] loop whose body threads a state and may return early with [?]. *)
Fixpoint fold_result {E S A} (f : S → A → result E S) (s : S) (l : list A) : result E S :=
  match l with
  | [] => Ok s
  | a :: l => s' ← f s a; fold_result f s' l
  end.

(** A [for] loop that only checks. *)
Fixpoint each {E A} (f : A → result E ()) (l : list A) : result E () :=
  match l with
  | [] => Ok ()
  | a :: l => _ ← f a; each f l
  end.

(** [collect::<Result<Vec<_>, _>>()] of a mapped iterator. *)
Fixpoint map_result {E A B} (f : A → result E B) (l : list A) : result E (list B) :=
  match l with
  | [] => Ok []
  | a :: l => b ← f a; bs ← map_result f l; Ok (b :: bs)
  end.

(** A [?] in a method that takes [&mut self]: an early return leaves the object as
    it is at that point. *)
Definition try_with {S E A B} (self : S) (r : result E A) (k : A → S * result E B) : S * result E B :=
  match r with Ok a => k a | Err e => (self, Err e) | Panic => (self, Panic) end.

Create HintDb rust discriminated.
Create Rewrite HintDb rust_ok.
Create Rewrite HintDb len.

Section result_lemmas.
Context {E : Type}.

Lemma bind_ok {A B} (r : result E A) (f : A → result E B) b :
  r ≫= f = Ok b ↔ ∃ a, r = Ok a ∧ f a = Ok b.
Proof. destruct r; naive_solver. Qed.

Lemma bind_unit_ok {B} (r : result E ()) (f : () → result E B) b :
  r ≫= f = Ok b ↔ r = Ok () ∧ f () = Ok b.
Proof. destruct r as [[]| |]; naive_solver. Qed.

Lemma fmap_ok {A B} (f : A → B) (r : result E A) b :
  f <$> r = Ok b ↔ ∃ a, r = Ok a ∧ b = f a.
Proof. destruct r; naive_solver. Qed.

Lemma guard_ok {A} (P : Prop) `{Decision P} (e : E) (k : result E A) a :
  (if decide P then Err e else k) = Ok a ↔ ¬ P ∧ k = Ok a.
Proof. case_decide; naive_solver. Qed.

Lemma guard_not_ok {A} (P : Prop) `{Decision P} (e : E) (k : result E A) a :
  (if decide P then k else Err e) = Ok a ↔ P ∧ k = Ok a.
Proof. case_decide; naive_solver. Qed.

Lemma ok_inj {A} (a b : A) : @Ok E A a = Ok b ↔ a = b.
Proof. naive_solver. Qed.

Lemma err_ok {A} (e : E) (b : A) : Err e = Ok b ↔ False.
Proof. naive_solver. Qed.

Lemma panic_ok {A} (b : A) : @Panic E A = Ok b ↔ False.
Proof. naive_solver. Qed.

Lemma unit_ok (u : ()) : @Ok E () u = Ok () ↔ True.
Proof. by destruct u. Qed.

Lemma map_err_ok {F A} (f : E → F) (r : result E A) a :
  map_err f r = Ok a ↔ r = Ok a.
Proof. destruct r; naive_solver. Qed.

Lemma ok_or_ok {A} (o : option A) (e : E) a : ok_or o e = Ok a ↔ o = Some a.
Proof. destruct o; naive_solver. Qed.

Lemma each_ok {A} (f : A → result E ()) l :
  each f l = Ok () ↔ Forall (λ a, f a = Ok ()) l.
Proof.
  induction l as [|a l IH]; simpl; [by rewrite Forall_nil|].
  by rewrite bind_unit_ok, IH, Forall_cons.
Qed.

Lemma map_result_ok {A B} (f : A → result E B) l bs :
  map_result f l = Ok bs ↔ Forall2 (λ a b, f a = Ok b) l bs.
Proof.
  revert bs; induction l as [|a l IH]; intros bs; simpl.
  { split; [intros [= <-]; constructor|by inversion 1]. }
  rewrite bind_ok. split.
  - intros (b & Hb & (bs' & Hbs & [= <-])%bind_ok). constructor; [done|by apply IH].
  - inversion 1 as [|? b ? bs' Hb Hl]; subst. exists b. split; [done|].
    apply bind_ok. exists bs'. split; [by apply IH|done].
Qed.

Lemma fold_result_app {S A} (f : S → A → result E S) s l1 l2 :
  fold_result f s (l1 ++ l2) = (s' ← fold_result f s l1; fold_result f s' l2).
Proof.
  revert s; induction l1 as [|a l1 IH]; intros s; simpl; [done|].
  by destruct (f s a); simpl.
Qed.

Lemma fold_result_ext {S A} (f g : S → A → result E S) s l :
  (∀ s a, f s a = g s a) → fold_result f s l = fold_result g s l.
Proof.
  intros Hfg. revert s; induction l as [|a l IH]; intros s; simpl; [done|].
  rewrite Hfg. by destruct (g s a); simpl.
Qed.

Lemma bind_assoc {A B C} (r : result E A) (f : A → result E B) (g : B → result E C) :
  (r ≫= f) ≫= g = r ≫= (λ a, f a ≫= g).
Proof. by destruct r. Qed.
End result_lemmas.

#[export] Hint Rewrite @bind_unit_ok @fmap_ok @ok_inj @err_ok @panic_ok
  @map_err_ok @ok_or_ok @each_ok @map_result_ok : rust_ok.

(** The sum of a measure over a list. *)
Definition sum_of {A} (f : A → N) (l : list A) : N := foldr (λ a n, f a + n)%N 0%N l.

Lemma not_or_and (P Q : Prop) : ¬ (P ∨ Q) ↔ ¬ P ∧ ¬ Q.
Proof. tauto. Qed.

(** Reduces the monad's operations and nothing else. *)
Ltac rsimpl := cbn [mbind mret fmap result_bind result_ret result_fmap map_err ok_or].

(** [ok_inv] turns every hypothesis [computation = Ok _] into the facts that
    made each [?] and each guard of the computation succeed. *)
Ltac ok_inv_step :=
  match goal with
  | H : mbind _ _ = Ok _ |- _ =>
      first [apply bind_unit_ok in H; destruct H as [? H]
            |let x := fresh "r" in apply bind_ok in H; destruct H as (x & ? & H)]
  | H : fmap _ _ = Ok _ |- _ =>
      let x := fresh "r" in apply fmap_ok in H; destruct H as (x & H & ?)
  | H : map_err _ _ = Ok _ |- _ => apply map_err_ok in H
  | H : ok_or _ _ = Ok _ |- _ => apply ok_or_ok in H
  | H : (if decide _ then Err _ else _) = Ok _ |- _ => apply guard_ok in H; destruct H as [? H]
  | H : (if decide _ then _ else Err _) = Ok _ |- _ => apply guard_not_ok in H; destruct H as [? H]
  | H : Ok _ = Ok _ |- _ => apply ok_inj in H
  | H : Err _ = Ok _ |- _ => discriminate H
  | H : Panic = Ok _ |- _ => discriminate H
  | H : ¬ (_ ∨ _) |- _ => apply not_or_and in H; destruct H
  | H : ¬ (¬ _) |- _ => apply dec_stable in H
  end.
Ltac ok_inv := repeat (ok_inv_step; simplify_eq).

(** ** Bytes and fixed-width unsigned integers

    [u8], [u16], [u32], [u64] and [usize] (64-bit) are [N]; a value that fits
    its type is below the type's bound.  Byte strings, [str] and paths are all
    [list byte]; [bs] writes a literal. *)
Abbreviation bytes := (list byte).
Definition bs (s : string) : bytes := String.list_byte_of_string s.

#[export] Instance byte_eq_decision : EqDecision byte := byte_eq_dec.
#[export] Program Instance byte_countable : Countable byte :=
  inj_countable Byte.to_N Byte.of_N _.
Next Obligation. intros b. apply Byte.of_to_N. Qed.

Abbreviation code b := (Byte.to_N b).

Lemma code_bound b : (code b < 256)%N.
Proof. pose proof (Byte.to_N_bounded b). lia. Qed.

#[export] Instance code_inj : Inj (=) (=) Byte.to_N.
Proof. intros a b H%(f_equal Byte.of_N). rewrite !Byte.of_to_N in H. congruence. Qed.

Definition u8_bound : N := 2^8.
Definition u16_bound : N := 2^16.
Definition u32_bound : N := 2^32.
Definition u64_bound : N := 2^64.
Definition usize_max : N := 2^64 - 1.
Definition isize_max : N := 2^63 - 1.

(** [Vec::len], [str::len]. *)
Definition len {A} (l : list A) : N := N.of_nat (length l).

(** [u64::checked_add], [checked_mul], [saturating_add], [saturating_mul] ([usize] has
    the same width). *)
Definition checked_add (a b : N) : option N :=
  if decide (a + b < u64_bound)%N then Some (a + b)%N else None.
Definition checked_mul (a b : N) : option N :=
  if decide (a * b < u64_bound)%N then Some (a * b)%N else None.
Definition saturating_add (a b : N) : N := N.min (a + b) (u64_bound - 1).
Definition saturating_mul (a b : N) : N := N.min (a * b) (u64_bound - 1).

(** [a + b] on [usize] without a check. *)
Definition usize_add {E} (a b : N) : result E N :=
  if decide (a + b < u64_bound)%N then Ok (a + b)%N else Panic.

(** [a - b] on [usize] without a check. *)
Definition usize_sub {E} (a b : N) : result E N :=
  if decide (b ≤ a)%N then Ok (a - b)%N else Panic.

(** [l[i]] and [l[from..to]]: out of range is a panic. *)
Definition index {E A} (l : list A) (i : N) : result E A :=
  match l !! N.to_nat i with Some a => Ok a | None => Panic end.
Definition slice_range {E A} (l : list A) (from to : N) : result E (list A) :=
  if decide (from ≤ to ≤ len l)%N then Ok (take (N.to_nat (to - from)) (drop (N.to_nat from) l)) else Panic.

(** [is_multiple_of]: for a zero divisor only zero is a multiple. *)
Definition is_multiple_of (a b : N) : Prop := (a mod b)%N = 0%N.
Definition is_power_of_two (a : N) : Prop := a = (2 ^ N.log2 a)%N.

#[export] Instance is_multiple_of_dec a b : Decision (is_multiple_of a b).
Proof. unfold is_multiple_of. apply _. Defined.
#[export] Instance is_power_of_two_dec a : Decision (is_power_of_two a).
Proof. unfold is_power_of_two. apply _. Defined.

Lemma is_multiple_of_divide a b : b ≠ 0%N → is_multiple_of a b ↔ (b | a)%N.
Proof. intros. unfold is_multiple_of. apply N.Lcm0.mod_divide. Qed.

Lemma checked_add_Some a b c : checked_add a b = Some c ↔ c = (a + b)%N ∧ (c < u64_bound)%N.
Proof. unfold checked_add. case_decide; naive_solver. Qed.

Lemma checked_add_fits a b : (a + b < u64_bound)%N → checked_add a b = Some (a + b)%N.
Proof. intros. by apply checked_add_Some. Qed.

Lemma checked_add2_Some a b c d :
  (checked_add a b ≫= λ v, checked_add v c) = Some d ↔ d = (a + b + c)%N ∧ (d < u64_bound)%N.
Proof.
  rewrite bind_Some. setoid_rewrite checked_add_Some. split; [naive_solver|].
  intros [-> ?]. exists (a + b)%N. split_and!; [done|lia|done|done].
Qed.

Lemma checked_add2_fits a b c :
  (a + b + c < u64_bound)%N → (checked_add a b ≫= λ v, checked_add v c) = Some (a + b + c)%N.
Proof. intros. by apply checked_add2_Some. Qed.

Lemma checked_mul_Some a b c : checked_mul a b = Some c ↔ c = (a * b)%N ∧ (c < u64_bound)%N.
Proof. unfold checked_mul. case_decide; naive_solver. Qed.

Lemma len_app {A} (l k : list A) : len (l ++ k) = (len l + len k)%N.
Proof. unfold len. rewrite length_app. lia. Qed.
Lemma len_cons {A} (a : A) l : len (a :: l) = (1 + len l)%N.
Proof. unfold len. simpl length. lia. Qed.
Lemma len_nil {A} : len (@nil A) = 0%N.
Proof. done. Qed.
Lemma len_zero {A} (l : list A) : len l = 0%N ↔ l = [].
Proof. unfold len. destruct l; naive_solver. Qed.
#[export] Hint Rewrite @len_app @len_cons @len_nil : len.

(** A loop that checks each element and adds up a measure with [checked_add]. *)
Lemma fold_checked_sum {E A} (check : A → result E ()) (f : A → N) (e : E) acc l n :
  (acc < u64_bound)%N →
  fold_result (λ acc a, check a;; ok_or (checked_add acc (f a)) e) acc l = Ok n ↔
  Forall (λ a, check a = Ok ()) l ∧ n = (acc + sum_of f l)%N ∧ (n < u64_bound)%N.
Proof.
  revert acc; induction l as [|a l IH]; intros acc Hacc; simpl.
  { rewrite ok_inj, Forall_nil. naive_solver lia. }
  rewrite bind_ok, Forall_cons. setoid_rewrite bind_unit_ok. setoid_rewrite ok_or_ok.
  setoid_rewrite checked_add_Some. split.
  - intros (acc' & (Hc & -> & Hb) & H). apply IH in H as (? & -> & ?); [|done]. naive_solver lia.
  - intros ((? & ?) & -> & ?). exists (acc + f a)%N. split_and!; [done|done|lia|].
    apply IH; [lia|]. split_and!; [done|lia|lia].
Qed.

Lemma sum_of_snoc {A} (f : A → N) l a : sum_of f (l ++ [a]) = (sum_of f l + f a)%N.
Proof. induction l; simpl; lia. Qed.

Lemma sum_of_le {A} (f : A → N) l b : Forall (λ a, f a ≤ b)%N l → (sum_of f l ≤ len l * b)%N.
Proof. induction 1; simpl; [done|]. rewrite len_cons. lia. Qed.

(** ** Big-endian encodings: [uN::to_be_bytes] and [uN::from_be_bytes] *)
Definition byte_of_N (n : N) : byte := default x00 (Byte.of_N (n mod 256)).

Fixpoint to_be (w : nat) (n : N) : bytes :=
  match w with
  | O => []
  | S w => to_be w (n / 256) ++ [byte_of_N n]
  end.

Definition from_be (l : bytes) : N := foldl (λ acc b, acc * 256 + code b)%N 0%N l.

Lemma code_byte_of_N n : code (byte_of_N n) = (n mod 256)%N.
Proof.
  unfold byte_of_N. destruct (Byte.of_N (n mod 256)) as [b|] eqn:Hb; simpl.
  - by apply Byte.to_of_N.
  - apply Byte.of_N_None_iff in Hb. pose proof (N.mod_upper_bound n 256). lia.
Qed.

Lemma length_to_be w n : length (to_be w n) = w.
Proof. revert n; induction w; intros; simpl; [done|]. rewrite length_app, IHw. simpl. lia. Qed.

Lemma len_to_be w n : len (to_be w n) = N.of_nat w.
Proof. unfold len. by rewrite length_to_be. Qed.
#[export] Hint Rewrite len_to_be : len.

Lemma from_be_snoc l b : from_be (l ++ [b]) = (from_be l * 256 + code b)%N.
Proof. unfold from_be. by rewrite foldl_app. Qed.

Lemma pow256_succ w : (256 ^ N.of_nat (S w) = 256 * 256 ^ N.of_nat w)%N.
Proof. by rewrite Nat2N.inj_succ, N.pow_succ_r'. Qed.

Lemma from_be_bound l : (from_be l < 256 ^ len l)%N.
Proof.
  induction l as [|b l IH] using rev_ind; [done|].
  rewrite from_be_snoc, len_app. pose proof (code_bound b).
  replace (len l + len [b])%N with (N.succ (len l)) by (unfold len; simpl; lia).
  rewrite N.pow_succ_r'. lia.
Qed.

Lemma from_to_be w n : (n < 256 ^ N.of_nat w)%N → from_be (to_be w n) = n.
Proof.
  revert n; induction w as [|w IH]; intros n; [simpl; unfold from_be; simpl; lia|].
  rewrite pow256_succ; intros Hn. simpl. rewrite from_be_snoc, code_byte_of_N, IH.
  - pose proof (N.div_mod n 256). lia.
  - apply N.Div0.div_lt_upper_bound. lia.
Qed.

Lemma byte_of_N_mod a b : byte_of_N (a * 256 + code b) = b.
Proof.
  apply (inj Byte.to_N). rewrite code_byte_of_N, N.add_comm, N.Div0.mod_add.
  apply N.mod_small, code_bound.
Qed.

Lemma to_from_be l : to_be (length l) (from_be l) = l.
Proof.
  induction l as [|b l IH] using rev_ind; [done|].
  rewrite length_app, Nat.add_comm; simpl. rewrite from_be_snoc, byte_of_N_mod. f_equal.
  etrans; [|exact IH]. f_equal. pose proof (code_bound b).
  rewrite N.div_add_l by lia. rewrite (N.div_small (code b)) by lia. lia.
Qed.

Lemma to_be_inj w n m :
  (n < 256 ^ N.of_nat w)%N → (m < 256 ^ N.of_nat w)%N → to_be w n = to_be w m → n = m.
Proof. intros Hn Hm Heq. rewrite <- (from_to_be w n), <- (from_to_be w m) by done. by rewrite Heq. Qed.

(** ** Lower-case hexadecimal: the [hex_lower] of builder.rs, builder_state.rs
    and validator.rs *)
Definition HEX : bytes := bs "0123456789abcdef".
Definition hex_digit (n : N) : byte := nth (N.to_nat n) HEX x00.
Definition hex_lower (l : bytes) : bytes :=
  l ≫= λ b, [hex_digit (N.shiftr (code b) 4); hex_digit (N.land (code b) 15)].

Lemma length_hex_lower l : length (hex_lower l) = 2 * length l.
Proof.
  induction l as [|b l IH]; [done|]. unfold hex_lower in *.
  rewrite bind_cons, length_app, IH. simpl. lia.
Qed.

(** Every byte, for finite case analyses by computation. *)
Definition all_bytes : list byte := (λ n, byte_of_N (N.of_nat n)) <$> seq 0 256.

Lemma elem_of_all_bytes b : b ∈ all_bytes.
Proof.
  apply list_elem_of_fmap. exists (N.to_nat (code b)). pose proof (code_bound b). split.
  - apply (inj Byte.to_N). rewrite code_byte_of_N, N2Nat.id. symmetry. by apply N.mod_small.
  - apply elem_of_seq. lia.
Qed.

Lemma byte_forall (P : byte → Prop) `{!∀ b, Decision (P b)} :
  bool_decide (Forall P all_bytes) = true → ∀ b, P b.
Proof.
  intros Hall%bool_decide_eq_true b. rewrite Forall_forall in Hall.
  apply Hall, elem_of_all_bytes.
Qed.

(** Proves a decidable statement about every byte by computing it on each. *)
Ltac by_bytes :=
  match goal with |- ∀ b, @?P b => refine (byte_forall P _); vm_compute; reflexivity end.

Definition unhex_digit (d : byte) : N :=
  if decide (code d < 58)%N then code d - 48 else code d - 87.

Lemma unhex_byte : ∀ b, code b =
  (unhex_digit (hex_digit (N.shiftr (code b) 4)) * 16 +
   unhex_digit (hex_digit (N.land (code b) 15)))%N.
Proof. by_bytes. Qed.

Lemma hex_byte_inj a b :
  hex_digit (N.shiftr (code a) 4) = hex_digit (N.shiftr (code b) 4) →
  hex_digit (N.land (code a) 15) = hex_digit (N.land (code b) 15) → a = b.
Proof. intros H1 H2. apply (inj Byte.to_N). by rewrite (unhex_byte a), (unhex_byte b), H1, H2. Qed.

#[export] Instance hex_lower_inj : Inj (=) (=) hex_lower.
Proof.
  intros l; induction l as [|a l IH]; intros [|b k] H; try done.
  unfold hex_lower in *; simpl in H. injection H as H1 H2 H3.
  f_equal; [by apply hex_byte_inj|by apply IH].
Qed.
