(* ===== verification/RustStr.v ===== *)
(** * The parts of Rust's standard library on text that the program uses

    [str] operations ([split], [split_once], [strip_prefix], [lines], [parse],
    [to_string], [to_ascii_lowercase], [chars], [is_char_boundary]), the byte
    order of strings with [sort]/[sort_by]/[dedup], and the two [Path] operations
    [is_absolute] and [join].  A [str] is its UTF-8 bytes. *)

From S2P Require Import Prelude.

(** ** Byte classes *)
Definition is_ascii_digit (b : byte) : Prop := (48 ≤ code b ≤ 57)%N.
Definition is_ascii_alphanumeric (b : byte) : Prop :=
  (48 ≤ code b ≤ 57)%N ∨ (65 ≤ code b ≤ 90)%N ∨ (97 ≤ code b ≤ 122)%N.
Definition is_lower_hex (b : byte) : Prop := is_ascii_digit b ∨ (97 ≤ code b ≤ 102)%N.
Definition to_ascii_lowercase (s : bytes) : bytes :=
  (λ b, if decide (65 ≤ code b ≤ 90)%N then byte_of_N (code b + 32) else b) <$> s.
Definition to_ascii_uppercase (s : bytes) : bytes :=
  (λ b, if decide (97 ≤ code b ≤ 122)%N then byte_of_N (code b - 32) else b) <$> s.

#[export] Instance is_ascii_digit_dec b : Decision (is_ascii_digit b).
Proof. unfold is_ascii_digit. apply _. Defined.
#[export] Instance is_ascii_alphanumeric_dec b : Decision (is_ascii_alphanumeric b).
Proof. unfold is_ascii_alphanumeric. apply _. Defined.
#[export] Instance is_lower_hex_dec b : Decision (is_lower_hex b).
Proof. unfold is_lower_hex. apply _. Defined.

(** ** Prefixes and splitting *)
Fixpoint strip_prefix (p s : bytes) : option bytes :=
  match p, s with
  | [], _ => Some s
  | _ :: _, [] => None
  | a :: p, b :: s => if decide (a = b) then strip_prefix p s else None
  end.

Definition starts_with (c : byte) (s : bytes) : Prop := head s = Some c.
#[export] Instance starts_with_dec c s : Decision (starts_with c s).
Proof. unfold starts_with. apply _. Defined.

Fixpoint split (c : byte) (s : bytes) : list bytes :=
  match s with
  | [] => [[]]
  | b :: s =>
      if decide (b = c) then [] :: split c s
      else match split c s with
           | [] => [[b]]
           | h :: t => (b :: h) :: t
           end
  end.

Fixpoint split_once (c : byte) (s : bytes) : option (bytes * bytes) :=
  match s with
  | [] => None
  | b :: s =>
      if decide (b = c) then Some ([], s)
      else match split_once c s with
           | Some (k, v) => Some (b :: k, v)
           | None => None
           end
  end.

(** The inverse of [split]: pieces joined by a separator. *)
Fixpoint join (c : byte) (ps : list bytes) : bytes :=
  match ps with
  | [] => []
  | [p] => p
  | p :: ps => p ++ c :: join c ps
  end.

Lemma strip_prefix_Some p s r : strip_prefix p s = Some r ↔ s = p ++ r.
Proof.
  revert s; induction p as [|a p IH]; intros s; simpl; [naive_solver|].
  destruct s as [|b s]; [naive_solver|]. case_decide; [subst; rewrite IH|]; naive_solver.
Qed.

Lemma split_not_nil c s : split c s ≠ [].
Proof. destruct s as [|b s]; simpl; [done|]. case_decide; [done|]. by destruct (split c s). Qed.

Lemma split_pieces c s : Forall (λ p, c ∉ p) (split c s).
Proof.
  induction s as [|b s IH]; simpl; [repeat constructor; set_solver|].
  case_decide; [constructor; [set_solver|done]|].
  destruct (split c s); inversion IH; subst; constructor; set_solver.
Qed.

Lemma join_cons c p ps : ps ≠ [] → join c (p :: ps) = p ++ c :: join c ps.
Proof. by destruct ps. Qed.

Lemma join_split c s : join c (split c s) = s.
Proof.
  induction s as [|b s IH]; simpl; [done|]. pose proof (split_not_nil c s).
  case_decide; subst.
  - rewrite join_cons by done. simpl. by rewrite IH.
  - destruct (split c s) as [|h t]; [done|]. rewrite <- IH. by destruct t.
Qed.

Lemma split_app_sep c p s : c ∉ p → split c (p ++ c :: s) = p :: split c s.
Proof.
  induction p as [|b p IH]; intros Hp; simpl; [by rewrite decide_True|].
  rewrite decide_False by set_solver. rewrite IH by set_solver. done.
Qed.

Lemma split_no_sep c p : c ∉ p → split c p = [p].
Proof.
  induction p as [|b p IH]; intros Hp; simpl; [done|].
  rewrite decide_False by set_solver. by rewrite IH by set_solver.
Qed.

Lemma split_join c ps : ps ≠ [] → Forall (λ p, c ∉ p) ps → split c (join c ps) = ps.
Proof.
  induction ps as [|p ps IH]; intros Hne Hall; [done|].
  apply Forall_cons in Hall as [Hp Hps]. destruct ps as [|q ps].
  - by apply split_no_sep.
  - rewrite join_cons, split_app_sep by done. f_equal. by apply IH.
Qed.

Lemma split_app c s t : split c (s ++ c :: t) = split c s ++ split c t.
Proof.
  induction s as [|b s IH]; simpl; [by rewrite decide_True|].
  rewrite IH. case_decide; [done|]. pose proof (split_not_nil c s). by destruct (split c s).
Qed.

Lemma join_app c ps qs : ps ≠ [] → qs ≠ [] → join c (ps ++ qs) = join c ps ++ c :: join c qs.
Proof.
  intros Hp Hq. induction ps as [|p ps IH]; [done|]. destruct ps as [|p' ps].
  - simpl app. by apply join_cons.
  - change ((p :: p' :: ps) ++ qs) with (p :: ((p' :: ps) ++ qs)).
    rewrite !join_cons by done. rewrite IH by done. by rewrite <- (assoc_L (++)).
Qed.

Lemma split_once_Some c s k v : split_once c s = Some (k, v) ↔ s = k ++ c :: v ∧ c ∉ k.
Proof.
  revert k; induction s as [|b s IH]; intros k; simpl.
  { split; [done|]. intros [H _]. by destruct k. }
  case_decide; subst.
  - split.
    + intros [= <- <-]. split; [done|set_solver].
    + intros [H Hk]. destruct k as [|b' k]; [naive_solver|].
      simplify_eq/=. set_solver.
  - destruct (split_once c s) as [[k' v']|] eqn:Hs.
    + split.
      * intros [= <- <-]. destruct (proj1 (IH k') eq_refl) as [-> ?]. set_solver.
      * intros [H1 Hk]. destruct k as [|b' k]; simplify_eq/=.
        assert (Some (k', v') = Some (k, v)) as [= -> ->]; [|done].
        apply IH. set_solver.
    + split; [done|]. intros [H1 Hk]. destruct k as [|b' k]; simplify_eq/=.
      assert (None = Some (k, v)); [|done]. apply IH. set_solver.
Qed.

Lemma split_once_None c s : split_once c s = None ↔ c ∉ s.
Proof.
  induction s as [|b s IH]; simpl; [set_solver|].
  case_decide; [set_solver|]. destruct (split_once c s) as [[k v]|] eqn:Hs.
  - split; [done|]. apply split_once_Some in Hs as [-> _]. set_solver.
  - destruct IH as [IH _]. set_solver.
Qed.

Lemma join_snoc c ps p : ps ≠ [] → join c (ps ++ [p]) = join c ps ++ c :: p.
Proof. intros. by apply join_app. Qed.

(** [str::lines]: pieces ended by a line feed, each without the line feed and
    without a carriage return just before it; text after the last line feed is a
    line when it is not empty. *)
Definition strip_cr (l : bytes) : bytes :=
  match last l with Some x0d => removelast l | _ => l end.
Definition lines (s : bytes) : list bytes :=
  let pieces := split x0a s in
  (strip_cr <$> removelast pieces) ++
  match last pieces with Some [] | None => [] | Some l => [l] end.

(** ** Decimal numbers: [to_string] and [parse::<uN>()] *)
Definition digit (n : N) : byte := byte_of_N (48 + n mod 10).
Definition digit_value (b : byte) : N := code b - 48.

(** [fuel] bounds the number of digits; [to_decimal] gives one more than the
    number of bits, which is always enough ([dec_value_to_decimal]). *)
Fixpoint decimal_digits (fuel : nat) (n : N) : bytes :=
  match fuel with
  | O => []
  | S fuel => (if decide (n < 10)%N then [] else decimal_digits fuel (n / 10)) ++ [digit n]
  end.
Definition to_decimal (n : N) : bytes := decimal_digits (S (N.to_nat (N.size n))) n.

Definition dec_value (l : bytes) : N := foldl (λ acc d, acc * 10 + digit_value d)%N 0%N l.

(** [from_str_radix(10)] on the digits: every step is checked against the bound
    of the type. *)
Fixpoint parse_digits (bound acc : N) (s : bytes) : option N :=
  match s with
  | [] => Some acc
  | b :: s =>
      if decide (is_ascii_digit b) then
        if decide (acc * 10 < bound)%N then
          if decide (acc * 10 + digit_value b < bound)%N
          then parse_digits bound (acc * 10 + digit_value b) s else None
        else None
      else None
  end.
Definition parse_uint (bound : N) (s : bytes) : option N :=
  match s with
  | [] => None
  | x2b :: [] => None
  | x2b :: s => parse_digits bound 0 s
  | s => parse_digits bound 0 s
  end.

Lemma digit_is_digit n : is_ascii_digit (digit n).
Proof.
  unfold is_ascii_digit, digit. rewrite code_byte_of_N.
  pose proof (N.mod_upper_bound n 10 ltac:(done)). rewrite (N.mod_small (48 + n mod 10)); lia_mod.
Qed.

Lemma digit_value_digit n : digit_value (digit n) = (n mod 10)%N.
Proof.
  unfold digit_value, digit. rewrite code_byte_of_N.
  pose proof (N.mod_upper_bound n 10 ltac:(done)). rewrite (N.mod_small (48 + n mod 10)); lia_mod.
Qed.

Lemma dec_value_snoc l d : dec_value (l ++ [d]) = (dec_value l * 10 + digit_value d)%N.
Proof. unfold dec_value. by rewrite foldl_app. Qed.

Lemma decimal_digits_spec fuel n :
  (n < 2 ^ N.of_nat fuel)%N → 0 < fuel →
  dec_value (decimal_digits fuel n) = n ∧ Forall is_ascii_digit (decimal_digits fuel n).
Proof.
  revert n; induction fuel as [|fuel IH]; intros n Hn Hf; [lia|]. simpl.
  rewrite dec_value_snoc, digit_value_digit, Forall_app, Forall_singleton.
  case_decide as Hlt.
  - split; [|split; [constructor|apply digit_is_digit]]. rewrite N.mod_small by done. done.
  - rewrite Nat2N.inj_succ, N.pow_succ_r' in Hn.
    destruct fuel as [|fuel]; [simpl in Hn; lia|].
    destruct (IH (n / 10)%N) as [-> ?]; [|lia|].
    { apply N.Div0.div_lt_upper_bound. lia. }
    split; [|split; [done|apply digit_is_digit]].
    pose proof (N.div_mod n 10). lia.
Qed.

Lemma to_decimal_spec n :
  dec_value (to_decimal n) = n ∧ Forall is_ascii_digit (to_decimal n).
Proof.
  apply decimal_digits_spec; [|lia].
  rewrite Nat2N.inj_succ, N2Nat.id, N.pow_succ_r'. pose proof (N.size_gt n). lia.
Qed.

Lemma dec_value_to_decimal n : dec_value (to_decimal n) = n.
Proof. apply to_decimal_spec. Qed.
Lemma to_decimal_digits n : Forall is_ascii_digit (to_decimal n).
Proof. apply to_decimal_spec. Qed.
Lemma to_decimal_not_nil n : to_decimal n ≠ [].
Proof. unfold to_decimal. simpl. intros [_ ?]%app_eq_nil. done. Qed.

Lemma foldl_dec_mono l acc : (acc ≤ foldl (λ acc d, acc * 10 + digit_value d) acc l)%N.
Proof.
  revert acc; induction l as [|d l IH]; intros acc; simpl; [lia|].
  specialize (IH (acc * 10 + digit_value d)%N). lia.
Qed.

Lemma parse_digits_Some bound acc s v :
  parse_digits bound acc s = Some v ↔
  Forall is_ascii_digit s ∧ v = foldl (λ acc d, acc * 10 + digit_value d)%N acc s ∧
  (s = [] ∨ (v < bound)%N).
Proof.
  revert acc; induction s as [|b s IH]; intros acc; simpl.
  { split; [intros [= ->]; naive_solver|intros (_ & -> & _); done]. }
  rewrite Forall_cons. pose proof (foldl_dec_mono s (acc * 10 + digit_value b)).
  repeat case_decide; [rewrite IH| | |]; [|naive_solver lia..].
  split; [|naive_solver]. intros (? & -> & [->|?]); naive_solver.
Qed.

Lemma parse_uint_digits bound s v :
  s ≠ [] → Forall is_ascii_digit s →
  parse_uint bound s = Some v ↔ v = dec_value s ∧ (v < bound)%N.
Proof.
  intros Hne Hall. destruct s as [|b s]; [done|].
  assert (parse_uint bound (b :: s) = parse_digits bound 0 (b :: s)) as ->.
  { apply Forall_cons in Hall as [Hb _]. unfold is_ascii_digit in Hb.
    destruct b; try reflexivity. vm_compute in Hb. naive_solver. }
  rewrite parse_digits_Some. unfold dec_value. naive_solver.
Qed.

Lemma parse_uint_to_decimal bound n :
  (n < bound)%N → parse_uint bound (to_decimal n) = Some n.
Proof.
  intros Hn. apply parse_uint_digits;
    [apply to_decimal_not_nil|apply to_decimal_digits|by rewrite dec_value_to_decimal].
Qed.
