(* ===== verification/Utf8.v ===== *)
(** * UTF-8 as Rust's [str] has it

    [decode_utf8] accepts exactly the byte strings that [str::from_utf8] and
    [Path::to_str] accept (no overlong form, no surrogate, nothing above U+10FFFF)
    and lists their [chars].  Cutting a string at a character boundary is shown to
    keep it valid. *)

From S2P Require Import Prelude.

Definition is_continuation (b : byte) : Prop := (128 ≤ code b ≤ 191)%N.

Definition utf8_2 (b0 b1 : byte) : Prop := (194 ≤ code b0 ≤ 223)%N ∧ is_continuation b1.

Definition utf8_3 (b0 b1 b2 : byte) : Prop :=
  is_continuation b2 ∧
  ((code b0 = 224 ∧ 160 ≤ code b1 ≤ 191)%N ∨
   ((225 ≤ code b0 ≤ 236 ∨ 238 ≤ code b0 ≤ 239)%N ∧ is_continuation b1) ∨
   (code b0 = 237 ∧ 128 ≤ code b1 ≤ 159)%N).

Definition utf8_4 (b0 b1 b2 b3 : byte) : Prop :=
  is_continuation b2 ∧ is_continuation b3 ∧
  ((code b0 = 240 ∧ 144 ≤ code b1 ≤ 191)%N ∨
   ((241 ≤ code b0 ≤ 243)%N ∧ is_continuation b1) ∨
   (code b0 = 244 ∧ 128 ≤ code b1 ≤ 143)%N).

#[export] Instance is_continuation_dec b : Decision (is_continuation b).
Proof. unfold is_continuation. apply _. Defined.
#[export] Instance utf8_2_dec b0 b1 : Decision (utf8_2 b0 b1).
Proof. unfold utf8_2. apply _. Defined.
#[export] Instance utf8_3_dec b0 b1 b2 : Decision (utf8_3 b0 b1 b2).
Proof. unfold utf8_3. apply _. Defined.
#[export] Instance utf8_4_dec b0 b1 b2 b3 : Decision (utf8_4 b0 b1 b2 b3).
Proof. unfold utf8_4. apply _. Defined.

(** The scalar value of a sequence: the lead byte's payload bits followed by six
    bits of each continuation byte. *)
Definition scalar (mask : N) (lead : byte) (conts : bytes) : N :=
  foldl (λ acc b, acc * 64 + N.land (code b) 63)%N (N.land (code lead) mask) conts.

Fixpoint decode_utf8 (s : bytes) : option (list N) :=
  match s with
  | [] => Some []
  | b0 :: s1 =>
    if decide (code b0 < 128)%N then cons (code b0) <$> decode_utf8 s1 else
    match s1 with
    | [] => None
    | b1 :: s2 =>
      if decide (utf8_2 b0 b1) then cons (scalar 31 b0 [b1]) <$> decode_utf8 s2 else
      match s2 with
      | [] => None
      | b2 :: s3 =>
        if decide (utf8_3 b0 b1 b2) then cons (scalar 15 b0 [b1; b2]) <$> decode_utf8 s3 else
        match s3 with
        | [] => None
        | b3 :: s4 =>
          if decide (utf8_4 b0 b1 b2 b3)
          then cons (scalar 7 b0 [b1; b2; b3]) <$> decode_utf8 s4 else None
        end
      end
    end
  end.

Definition valid_utf8 (s : bytes) : Prop := is_Some (decode_utf8 s).
#[export] Instance valid_utf8_dec s : Decision (valid_utf8 s).
Proof. unfold valid_utf8. apply _. Defined.

(** [str::chars] (of a valid string). *)
Definition chars (s : bytes) : list N := default [] (decode_utf8 s).

(** [char::is_whitespace]: the Unicode [White_Space] property. *)
Definition is_whitespace (c : N) : Prop :=
  (9 ≤ c ≤ 13 ∨ c = 32 ∨ c = 133 ∨ c = 160 ∨ c = 5760 ∨ 8192 ≤ c ≤ 8202 ∨
   c = 8232 ∨ c = 8233 ∨ c = 8239 ∨ c = 8287 ∨ c = 12288)%N.
#[export] Instance is_whitespace_dec c : Decision (is_whitespace c).
Proof. unfold is_whitespace. apply _. Defined.

(** [char::is_control]: the general category Cc. *)
Definition is_char_control (c : N) : Prop := (c < 32 ∨ 127 ≤ c < 160)%N.
#[export] Instance is_char_control_dec c : Decision (is_char_control c).
Proof. unfold is_char_control. apply _. Defined.

(** [str::is_char_boundary]. *)
Definition is_char_boundary (s : bytes) (i : nat) : Prop :=
  i = 0 ∨ match s !! i with None => i = length s | Some b => ¬ is_continuation b end.
#[export] Instance is_char_boundary_dec s i : Decision (is_char_boundary s i).
Proof. unfold is_char_boundary. destruct (s !! i); apply _. Defined.

(** One encoded character. *)
Inductive utf8_char : bytes → N → Prop :=
| utf8_char_1 b0 : (code b0 < 128)%N → utf8_char [b0] (code b0)
| utf8_char_2 b0 b1 : utf8_2 b0 b1 → utf8_char [b0; b1] (scalar 31 b0 [b1])
| utf8_char_3 b0 b1 b2 : utf8_3 b0 b1 b2 → utf8_char [b0; b1; b2] (scalar 15 b0 [b1; b2])
| utf8_char_4 b0 b1 b2 b3 :
    utf8_4 b0 b1 b2 b3 → utf8_char [b0; b1; b2; b3] (scalar 7 b0 [b1; b2; b3]).

Ltac utf8_arith := unfold utf8_2, utf8_3, utf8_4, is_continuation in *; lia.

Lemma decode_utf8_char c n s :
  utf8_char c n → decode_utf8 (c ++ s) = cons n <$> decode_utf8 s.
Proof.
  destruct 1 as [b0 H|b0 b1 H|b0 b1 b2 H|b0 b1 b2 b3 H]; simpl.
  - by rewrite decide_True.
  - rewrite decide_False by utf8_arith. by rewrite decide_True.
  - do 2 rewrite decide_False by utf8_arith. by rewrite decide_True.
  - do 3 rewrite decide_False by utf8_arith. by rewrite decide_True.
Qed.

Lemma decode_utf8_cons_inv b s ns :
  decode_utf8 (b :: s) = Some ns →
  ∃ c n s' ns', b :: s = c ++ s' ∧ utf8_char c n ∧ ns = n :: ns' ∧ decode_utf8 s' = Some ns'.
Proof.
  simpl. intros H.
  case_decide; [apply fmap_Some in H as (ns' & ? & ->);
    exists [b], (code b), s, ns'; split_and!; by try constructor|].
  destruct s as [|b1 s]; [done|].
  case_decide; [apply fmap_Some in H as (ns' & ? & ->);
    exists [b; b1], (scalar 31 b [b1]), s, ns'; split_and!; by try constructor|].
  destruct s as [|b2 s]; [done|].
  case_decide; [apply fmap_Some in H as (ns' & ? & ->);
    exists [b; b1; b2], (scalar 15 b [b1; b2]), s, ns'; split_and!; by try constructor|].
  destruct s as [|b3 s]; [done|].
  case_decide; [apply fmap_Some in H as (ns' & ? & ->);
    exists [b; b1; b2; b3], (scalar 7 b [b1; b2; b3]), s, ns'; split_and!; by try constructor|done].
Qed.

Lemma utf8_char_length c n : utf8_char c n → 1 ≤ length c ≤ 4.
Proof. destruct 1; simpl; lia. Qed.

(** Induction over the characters of a valid string. *)
Lemma utf8_ind (P : bytes → Prop) :
  P [] → (∀ c n s, utf8_char c n → valid_utf8 s → P s → P (c ++ s)) →
  ∀ s, valid_utf8 s → P s.
Proof.
  intros Hnil Hstep s [ns Hs]. remember (length s) as k eqn:Hk.
  revert s ns Hs Hk; induction (lt_wf k) as [k _ IH]; intros s ns Hs ->.
  destruct s as [|b s]; [done|].
  apply decode_utf8_cons_inv in Hs as (c & n & s' & ns' & Heq & Hc & -> & Hs').
  rewrite Heq in *. apply (Hstep c n); [done|by eexists|]. eapply (IH (length s')); [|done..].
  apply utf8_char_length in Hc. rewrite length_app. lia.
Qed.

Lemma valid_utf8_app_char c n s : utf8_char c n → valid_utf8 s → valid_utf8 (c ++ s).
Proof. intros Hc [ns Hs]. exists (n :: ns). by rewrite (decode_utf8_char _ _ _ Hc), Hs. Qed.

Lemma decode_utf8_app s t : valid_utf8 s →
  decode_utf8 (s ++ t) = (ms ← decode_utf8 s; ns ← decode_utf8 t; Some (ms ++ ns)).
Proof.
  intros Hs. pattern s. revert s Hs. apply utf8_ind.
  - simpl. by destruct (decode_utf8 t).
  - intros c n s Hc [ms Hs] IH. rewrite <- (assoc_L (++)), (decode_utf8_char _ _ _ Hc), IH.
    rewrite (decode_utf8_char _ _ _ Hc), Hs. simpl. by destruct (decode_utf8 t).
Qed.

Lemma utf8_char_tail c n i b : utf8_char c n → 0 < i → c !! i = Some b → is_continuation b.
Proof.
  intros Hc Hi Hb. destruct i as [|i]; [lia|].
  destruct Hc; simpl in Hb; destruct i as [|[|[|i]]]; simplify_eq/=; utf8_arith.
Qed.

(** Truncating at a boundary keeps the string valid. *)
Lemma valid_utf8_take s : valid_utf8 s →
  ∀ i, is_char_boundary s i → valid_utf8 (take i s).
Proof.
  revert s. apply (utf8_ind (λ s, ∀ i, is_char_boundary s i → valid_utf8 (take i s))).
  { intros i _. rewrite take_nil. by eexists. }
  intros c n s Hc Hs IH i Hb. destruct (decide (i = 0)) as [->|Hi]; [by eexists|].
  destruct Hb as [|Hb]; [done|]. destruct (decide (i < length c)) as [Hlt|Hge].
  - destruct (lookup_lt_is_Some_2 c i Hlt) as [b Hcb].
    rewrite lookup_app_l, Hcb in Hb by done. destruct Hb. eapply utf8_char_tail; [done| |done]. lia.
  - rewrite take_app_ge by lia. eapply valid_utf8_app_char; [done|]. apply IH.
    right. rewrite lookup_app_r in Hb by lia. destruct (s !! _); [done|].
    rewrite length_app in Hb. lia.
Qed.

(** A boundary is never more than three bytes below. *)
Lemma char_boundary_near s : valid_utf8 s →
  ∀ i, i ≤ length s → ∃ j, j ≤ i ∧ i - j ≤ 3 ∧ is_char_boundary s j.
Proof.
  revert s. apply (utf8_ind (λ s, ∀ i, i ≤ length s → ∃ j, j ≤ i ∧ i - j ≤ 3 ∧ is_char_boundary s j)).
  { intros i ?. exists 0. simpl in *. repeat split; [lia..|]. by left. }
  intros c n s Hc Hs IH i Hi. rewrite length_app in Hi.
  pose proof (utf8_char_length _ _ Hc). destruct (decide (i < length c)) as [Hlt|Hge].
  - exists 0. repeat split; [lia..|by left].
  - destruct (IH (i - length c)) as (j & ? & ? & Hj); [lia|].
    exists (length c + j). repeat split; [lia..|]. right.
    rewrite lookup_app_r by lia. replace (length c + j - length c) with j by lia.
    destruct Hj as [->|Hj].
    + destruct s as [|b s]; simpl; [rewrite length_app; simpl; lia|].
      destruct Hs as [ns Hs]. apply decode_utf8_cons_inv in Hs as (c' & n' & s' & ? & Heq & Hc' & _).
      destruct Hc'; simplify_eq/=; utf8_arith.
    + rewrite length_app. destruct (s !! j); [done|lia].
Qed.

Lemma decode_utf8_ascii s : Forall (λ b, code b < 128)%N s → decode_utf8 s = Some (Byte.to_N <$> s).
Proof. induction 1 as [|b s Hb Hs IH]; simpl; [done|]. by rewrite decide_True, IH. Qed.
