(* ===== verification/ByteOrder.v ===== *)
(** * The order of byte strings, sorting and the loops that check it

    [Ord] on [str] and [[u8]] is lexicographic on bytes.  [sort_by] is a stable
    sort by a key, [dedup] drops repeated neighbours; [each_sorted] and
    [each_unique] are the two loops with which the program checks lists for strict
    order and for duplicates. *)

From S2P Require Import Prelude.

Fixpoint bytes_compare (a b : bytes) : comparison :=
  match a, b with
  | [], [] => Eq
  | [], _ :: _ => Lt
  | _ :: _, [] => Gt
  | x :: a, y :: b =>
      match N.compare (code x) (code y) with
      | Eq => bytes_compare a b
      | c => c
      end
  end.

Definition bytes_lt (a b : bytes) : Prop := bytes_compare a b = Lt.
Definition bytes_le (a b : bytes) : Prop := bytes_compare a b ≠ Gt.

#[export] Instance bytes_lt_dec a b : Decision (bytes_lt a b).
Proof. unfold bytes_lt. apply _. Defined.
#[export] Instance bytes_le_dec a b : Decision (bytes_le a b).
Proof. unfold bytes_le. apply _. Defined.

Lemma bytes_compare_eq a b : bytes_compare a b = Eq ↔ a = b.
Proof.
  revert b; induction a as [|x a IH]; intros [|y b]; simpl; try done.
  destruct (N.compare_spec (code x) (code y)) as [H|H|H].
  - apply (inj Byte.to_N) in H as ->. rewrite IH. naive_solver.
  - split; [done|]. intros [= -> ->]. lia.
  - split; [done|]. intros [= -> ->]. lia.
Qed.

Lemma bytes_compare_antisym a b : bytes_compare b a = CompOpp (bytes_compare a b).
Proof.
  revert b; induction a as [|x a IH]; intros [|y b]; simpl; try done.
  rewrite (N.compare_antisym (code x) (code y)). destruct (N.compare (code x) (code y)); [apply IH|done..].
Qed.

#[export] Instance bytes_lt_trans : Transitive bytes_lt.
Proof.
  unfold bytes_lt. intros a; induction a as [|x a IH]; intros [|y b] [|z c]; simpl; try done.
  destruct (N.compare_spec (code x) (code y)) as [->|H|H]; try done.
  - destruct (N.compare (code y) (code z)); try done. apply IH.
  - intros _. destruct (N.compare_spec (code y) (code z)) as [<-|H'|H']; try done.
    + by rewrite (proj2 (N.compare_lt_iff _ _) H).
    + by rewrite (proj2 (N.compare_lt_iff (code x) (code z))) by lia.
Qed.

#[export] Instance bytes_lt_irreflexive : Irreflexive bytes_lt.
Proof. intros a H. unfold complement, bytes_lt in *. by rewrite (proj2 (bytes_compare_eq a a)) in H. Qed.

Lemma bytes_le_lt_eq a b : bytes_le a b ↔ bytes_lt a b ∨ a = b.
Proof.
  unfold bytes_le, bytes_lt. rewrite <- bytes_compare_eq. by destruct (bytes_compare a b); naive_solver.
Qed.

Lemma bytes_lt_not_le a b : bytes_lt a b ↔ ¬ bytes_le b a.
Proof.
  unfold bytes_le, bytes_lt. rewrite (bytes_compare_antisym a b).
  by destruct (bytes_compare a b); naive_solver.
Qed.

#[export] Instance bytes_le_preorder : PreOrder bytes_le.
Proof.
  split.
  - intros a. apply bytes_le_lt_eq. by right.
  - intros a b c. rewrite !bytes_le_lt_eq. intros [?|<-] [?|<-]; auto. left. by etrans.
Qed.
#[export] Instance bytes_le_antisymm : AntiSymm (=) bytes_le.
Proof. intros a b Hab%bytes_le_lt_eq Hba. destruct Hab as [Hlt|?]; [|done]. by apply bytes_lt_not_le in Hlt. Qed.
#[export] Instance bytes_le_total : Total bytes_le.
Proof.
  intros a b. destruct (decide (bytes_le a b)) as [|H]; [by left|right].
  apply bytes_le_lt_eq. left. by apply bytes_lt_not_le.
Qed.

Lemma StronglySorted_lt_NoDup l : StronglySorted bytes_lt l → NoDup l.
Proof.
  induction 1 as [|a l Hs IH Hall]; constructor; [|done].
  intros Hin. rewrite Forall_forall in Hall. by apply (irreflexivity bytes_lt a), Hall.
Qed.

Lemma StronglySorted_lt_le l : StronglySorted bytes_lt l → StronglySorted bytes_le l.
Proof.
  induction 1 as [|a l Hs IH Hall]; constructor; [done|].
  eapply Forall_impl; [done|]. intros b ?. apply bytes_le_lt_eq. by left.
Qed.

(** ** Sorting *)
Section sort.
Context {A : Type} (key : A → bytes).

(** [sort_by(|left, right| left.key.cmp(&right.key))]: insertion from the right,
    before the first element that is not smaller, which keeps elements with equal
    keys in their order. *)
Fixpoint insert_by (a : A) (l : list A) : list A :=
  match l with
  | [] => [a]
  | b :: l' => if decide (bytes_le (key a) (key b)) then a :: l else b :: insert_by a l'
  end.
Definition sort_by (l : list A) : list A := foldr insert_by [] l.

Definition sorted_by (l : list A) : Prop := StronglySorted bytes_le (key <$> l).
Definition strictly_sorted_by (l : list A) : Prop := StronglySorted bytes_lt (key <$> l).

Lemma insert_by_perm a l : insert_by a l ≡ₚ a :: l.
Proof.
  induction l as [|b l IH]; simpl; [done|]. case_decide; [done|]. rewrite IH. constructor.
Qed.

Lemma sort_by_perm l : sort_by l ≡ₚ l.
Proof. induction l as [|a l IH]; simpl; [done|]. by rewrite insert_by_perm, IH. Qed.

Lemma insert_by_sorted a l : sorted_by l → sorted_by (insert_by a l).
Proof.
  unfold sorted_by. induction l as [|b l IH]; intros Hs; simpl; [by repeat constructor|].
  inversion Hs as [|? ? Hs' Hall]; subst. case_decide as Hle.
  - constructor; [done|]. constructor; [done|]. eapply Forall_impl; [done|].
    intros x Hx. by etrans.
  - simpl. constructor; [by apply IH|]. rewrite insert_by_perm. simpl. constructor; [|done].
    destruct (total bytes_le (key a) (key b)); done.
Qed.

Lemma sort_by_sorted l : sorted_by (sort_by l).
Proof. induction l as [|a l IH]; simpl; [constructor|]. by apply insert_by_sorted. Qed.

Lemma strictly_sorted_NoDup l : strictly_sorted_by l → NoDup (key <$> l).
Proof. apply StronglySorted_lt_NoDup. Qed.

Lemma strictly_sorted_lookup l i j a b :
  strictly_sorted_by l → l !! i = Some a → l !! j = Some b → i < j → bytes_lt (key a) (key b).
Proof.
  unfold strictly_sorted_by. revert i j. induction l as [|c l IH]; intros i j Hs Hi Hj Hlt; [done|].
  inversion Hs as [|? ? Hs' Hall]; subst. destruct j as [|j]; [lia|]. destruct i as [|i]; simpl in *.
  - simplify_eq. rewrite Forall_fmap, Forall_forall in Hall. by apply Hall, (list_elem_of_lookup_2 _ j).
  - apply (IH i j); [done..|lia].
Qed.

(** A strictly sorted list is determined by its elements. *)
Lemma strictly_sorted_unique l k :
  strictly_sorted_by l → sorted_by k → l ≡ₚ k → l = k.
Proof.
  unfold strictly_sorted_by, sorted_by. revert k.
  induction l as [|a l IH]; intros k Hl Hk Hp; [by apply Permutation_nil_l in Hp|].
  destruct k as [|b k]; [by apply Permutation_nil_r in Hp|]. simpl in *.
  inversion Hl as [|? ? Hl' Hal]; inversion Hk as [|? ? Hk' Hbk]; subst.
  assert (a = b) as <-.
  { assert (a ∈ b :: k) as Ha by (rewrite <- Hp; left).
    assert (b ∈ a :: l) as Hb by (rewrite Hp; left).
    apply elem_of_cons in Ha as [->|Ha]; [done|]. apply elem_of_cons in Hb as [->|Hb]; [done|].
    rewrite Forall_fmap, Forall_forall in Hal, Hbk. specialize (Hal _ Hb). specialize (Hbk _ Ha).
    simpl in *. by apply bytes_lt_not_le in Hal. }
  f_equal. apply IH; [done..|]. by apply Permutation_cons_inv in Hp.
Qed.

Lemma strictly_sorted_weaken l : strictly_sorted_by l → sorted_by l.
Proof. apply StronglySorted_lt_le. Qed.
End sort.

(** [Vec::sort] on strings and [Vec::dedup]. *)
Definition sort (l : list bytes) : list bytes := sort_by id l.
Fixpoint dedup {A} `{EqDecision A} (l : list A) : list A :=
  match l with
  | a :: ((b :: _) as l') => if decide (a = b) then dedup l' else a :: dedup l'
  | l => l
  end.

Lemma dedup_cons {A} `{EqDecision A} (a b : A) l : dedup (a :: b :: l) = if decide (a = b) then dedup (b :: l) else a :: dedup (b :: l).
Proof. done. Qed.

Lemma elem_of_dedup {A} `{EqDecision A} (a : A) l : a ∈ dedup l ↔ a ∈ l.
Proof.
  induction l as [|b [|c l] IH]; [done..|]. rewrite dedup_cons, (elem_of_cons (c :: l)), <- IH.
  case_decide; [|by rewrite elem_of_cons]. subst. rewrite IH, elem_of_cons. naive_solver.
Qed.

Lemma dedup_sorted l : StronglySorted bytes_le l → StronglySorted bytes_lt (dedup l).
Proof.
  induction l as [|a [|b l] IH]; intros Hs; [constructor|by repeat constructor|].
  inversion Hs as [|? ? Hs' Hall]; subst. rewrite dedup_cons. case_decide as Hab; [by apply IH|].
  constructor; [by apply IH|]. apply Forall_forall. intros x Hx. rewrite elem_of_dedup in Hx.
  inversion Hs' as [|? ? _ Hbl]; subst. apply Forall_cons in Hall as [Hle _].
  apply bytes_le_lt_eq in Hle as [Hlt|?]; [|done].
  apply elem_of_cons in Hx as [->|Hx]; [done|]. rewrite Forall_forall in Hbl.
  apply Hbl, bytes_le_lt_eq in Hx as [?|<-]; [by etrans|done].
Qed.

Lemma sort_dedup_sorted l : StronglySorted bytes_lt (dedup (sort l)).
Proof.
  apply dedup_sorted. pose proof (sort_by_sorted id l) as Hs. unfold sorted_by in Hs.
  by rewrite list_fmap_id in Hs.
Qed.

(** The strictly sorted list of given members is unique. *)
Lemma sort_dedup_unique l k :
  StronglySorted bytes_lt k → (∀ a, a ∈ l ↔ a ∈ k) → dedup (sort l) = k.
Proof.
  intros Hk Heq. pose proof (sort_dedup_sorted l) as Hl.
  apply (strictly_sorted_unique id); unfold strictly_sorted_by, sorted_by; rewrite ?list_fmap_id;
    [done|by apply StronglySorted_lt_le|].
  apply NoDup_Permutation; [by apply StronglySorted_lt_NoDup..|].
  intros a. rewrite elem_of_dedup. unfold sort. rewrite (sort_by_perm id). apply Heq.
Qed.

Lemma elem_of_sort_dedup a l : a ∈ dedup (sort l) ↔ a ∈ l.
Proof. rewrite elem_of_dedup. unfold sort. by rewrite (sort_by_perm id). Qed.

(** ** Sorting numbers: [sort_unstable] then [dedup] *)
Definition sort_numbers (l : list N) : list N := merge_sort N.le l.

Lemma dedup_numbers_sorted l : StronglySorted N.le l → StronglySorted N.lt (dedup l).
Proof.
  induction l as [|a [|b l] IH]; intros Hs; [constructor|by repeat constructor|].
  inversion Hs as [|? ? Hs' Hall]; subst. rewrite dedup_cons. case_decide as Hab; [by apply IH|].
  constructor; [by apply IH|]. apply Forall_forall. intros x Hx. rewrite elem_of_dedup in Hx.
  inversion Hs' as [|? ? _ Hbl]; subst. apply Forall_cons in Hall as [Hle _].
  apply elem_of_cons in Hx as [->|Hx]; [lia|]. rewrite Forall_forall in Hbl. specialize (Hbl _ Hx). lia.
Qed.

Lemma sort_dedup_numbers_sorted l : StronglySorted N.lt (dedup (sort_numbers l)).
Proof. apply dedup_numbers_sorted, StronglySorted_merge_sort; apply _. Qed.

Lemma elem_of_sort_dedup_numbers a l : a ∈ dedup (sort_numbers l) ↔ a ∈ l.
Proof. rewrite elem_of_dedup. unfold sort_numbers. by rewrite merge_sort_Permutation. Qed.

Lemma StronglySorted_numbers_NoDup l : StronglySorted N.lt l → NoDup l.
Proof.
  induction 1 as [|a l Hs IH Hall]; constructor; [|done].
  intros Hin. rewrite Forall_forall in Hall. specialize (Hall _ Hin). lia.
Qed.

(** The strictly increasing list of given members is unique. *)
Lemma sort_dedup_numbers_unique l k :
  StronglySorted N.lt k → (∀ a, a ∈ l ↔ a ∈ k) → dedup (sort_numbers l) = k.
Proof.
  intros Hk Heq. pose proof (sort_dedup_numbers_sorted l) as Hl.
  assert (∀ k, StronglySorted N.lt k → StronglySorted N.le k) as Hweak.
  { induction 1 as [|a k' ? ? Hall]; constructor; [done|]. eapply Forall_impl; [done|]. simpl. lia. }
  apply (StronglySorted_unique N.le); [by apply Hweak..|].
  apply NoDup_Permutation; [by apply StronglySorted_numbers_NoDup..|].
  intros a. by rewrite elem_of_sort_dedup_numbers.
Qed.

(** ** [slice::binary_search_by]

    The loop of the standard library: [base] is the first index of the part of
    [size] elements still searched.  Every round at least halves [size], so its value
    is fuel enough.  The program uses the index of a match only, so the insertion
    point that the search gives without one is left out. *)
Section binary_search.
Context {A : Type} (cmp : A → comparison).

Fixpoint search_rounds (fuel : nat) (l : list A) (base size : nat) : nat :=
  match fuel with
  | O => base
  | S fuel =>
      if decide (1 < size) then
        let half := size / 2 in
        let mid := base + half in
        let base := match cmp <$> l !! mid with Some Gt => base | _ => mid end in
        search_rounds fuel l base (size - half)
      else base
  end.

Definition binary_search_by (l : list A) : option nat :=
  match l with
  | [] => None
  | _ =>
      let base := search_rounds (length l) l 0 (length l) in
      match cmp <$> l !! base with Some Eq => Some base | _ => None end
  end.

(** A match stays within the part that is searched. *)
Lemma search_rounds_finds l i fuel base size :
  (∀ j a, l !! j = Some a → j < i → cmp a = Lt) → (∀ j a, l !! j = Some a → i < j → cmp a = Gt) →
  (∀ a, l !! i = Some a → cmp a = Eq) →
  base + size ≤ length l → base ≤ i < base + size → size ≤ fuel →
  search_rounds fuel l base size = i.
Proof.
  intros Hbelow Habove Hat. revert base size. induction fuel as [|fuel IH]; intros base size Hl Hi Hf; [lia|].
  cbn [search_rounds]. case_decide as Hs; [|lia].
  assert (0 < size / 2 < size) as Hhalf by (split; [apply Nat.div_str_pos|apply Nat.div_lt]; lia).
  pose proof (Nat.Div0.mul_div_le size 2).
  destruct (lookup_lt_is_Some_2 l (base + size / 2)) as [a Ha]; [lia|]. rewrite Ha. cbn [fmap option_fmap option_map].
  destruct (Nat.lt_trichotomy (base + size / 2) i) as [Hlt|[Heq|Hgt]].
  - rewrite (Hbelow _ _ Ha Hlt). apply IH; lia.
  - rewrite <- Heq in Hat. rewrite (Hat _ Ha). apply IH; lia.
  - rewrite (Habove _ _ Ha Hgt). apply IH; lia.
Qed.
End binary_search.

(** On a list that is strictly sorted by the key compared, the search finds the
    element with the key, if there is one. *)
Lemma binary_search_by_key {A} (key : A → bytes) k l i :
  strictly_sorted_by key l →
  binary_search_by (λ a, bytes_compare (key a) k) l = Some i ↔ ∃ a, l !! i = Some a ∧ key a = k.
Proof.
  intros Hs. unfold binary_search_by. split.
  - destruct l as [|b l]; [done|]. set (base := search_rounds _ _ _ _ _).
    destruct ((b :: l) !! base) as [a|] eqn:Ha; simpl; [|done].
    destruct (bytes_compare (key a) k) eqn:Hc; [|done..]. intros [= <-].
    exists a. by rewrite <- bytes_compare_eq.
  - intros (a & Ha & <-). pose proof (lookup_lt_Some _ _ _ Ha) as Hlt.
    destruct l as [|b l]; [done|]. remember (b :: l) as m eqn:Hm. clear Hm b l. rename m into l.
    rewrite (search_rounds_finds _ _ i); try lia.
    + rewrite Ha. simpl. by rewrite (proj2 (bytes_compare_eq _ _)).
    + intros j c Hc Hj. by apply (strictly_sorted_lookup key l j i).
    + intros j c Hc Hj. rewrite bytes_compare_antisym.
      assert (bytes_lt (key a) (key c)) as ->; [|done]. by apply (strictly_sorted_lookup key l i j).
    + intros c Hc. simplify_eq. by apply bytes_compare_eq.
Qed.

(** ** Checking loops *)

(** [previous.is_some_and(|p| p >= key)] *)
Definition not_above (previous : option bytes) (k : bytes) : Prop :=
  match previous with Some p => bytes_le k p | None => False end.
#[export] Instance not_above_dec previous k : Decision (not_above previous k).
Proof. destruct previous; apply _. Defined.

(** [for a in l { check(a)?; if previous.is_some_and(|p| p >= a.key) { return e }
    previous = Some(a.key) }] *)
Definition each_sorted {E A} (check : A → result E ()) (key : A → bytes) (e : E) (l : list A)
    : result E () :=
  _ ← fold_result (λ previous a,
        check a;;
        if decide (not_above previous (key a))
        then Err e else Ok (Some (key a))) None l;
  Ok ().

(** [for a in l { check(a)?; if !seen.insert(a.key) { return e } }] *)
Definition each_unique {E A K} `{Countable K} (check : A → result E ()) (key : A → K) (e : E)
    (l : list A) : result E () :=
  _ ← fold_result (λ seen a,
        check a;; if decide (key a ∈ seen) then Err e else Ok ({[key a]} ∪ seen))
        (∅ : gset K) l;
  Ok ().

Section loops.
Context {E A : Type}.

(** The keys a loop has still to see, after the last one it saw. *)
Definition sorted_after (previous : option bytes) (keys : list bytes) : Prop :=
  StronglySorted bytes_lt (option_list previous ++ keys).

Lemma sorted_after_cons previous k keys :
  sorted_after previous (k :: keys) ↔ ¬ not_above previous k ∧ sorted_after (Some k) keys.
Proof.
  unfold sorted_after. destruct previous as [p|]; simpl; [|tauto].
  rewrite <- bytes_lt_not_le. split.
  - intros [Hs Hall]%StronglySorted_inv. apply Forall_cons in Hall as [? _]. done.
  - intros [Hlt Hs]. constructor; [done|]. constructor; [done|].
    apply StronglySorted_inv in Hs as [_ Hall]. eapply Forall_impl; [done|]. intros x ?. by etrans.
Qed.

Lemma sorted_after_nil previous : sorted_after previous [].
Proof. destruct previous; by repeat constructor. Qed.

Lemma each_sorted_Ok (check : A → result E ()) key e l :
  each_sorted check key e l = Ok () ↔
  Forall (λ a, check a = Ok ()) l ∧ strictly_sorted_by key l.
Proof.
  unfold each_sorted, strictly_sorted_by.
  assert (∀ prev : option bytes,
    is_ok (fold_result (λ previous a,
        check a;;
        if decide (not_above previous (key a))
        then Err e else Ok (Some (key a))) prev l) ↔
    Forall (λ a, check a = Ok ()) l ∧ sorted_after prev (key <$> l)) as Hgen.
  { unfold is_ok. induction l as [|a l IH]; intros prev; simpl.
    { pose proof (sorted_after_nil prev). naive_solver. }
    setoid_rewrite bind_ok. setoid_rewrite bind_unit_ok. setoid_rewrite guard_ok.
    rewrite Forall_cons, sorted_after_cons. specialize (IH (Some (key a))). naive_solver. }
  rewrite bind_ok. specialize (Hgen None). unfold is_ok, sorted_after in Hgen. simpl in Hgen. naive_solver.
Qed.

Lemma each_unique_Ok {K} `{Countable K} (check : A → result E ()) (key : A → K) e l :
  each_unique check key e l = Ok () ↔ Forall (λ a, check a = Ok ()) l ∧ NoDup (key <$> l).
Proof.
  unfold each_unique.
  assert (∀ seen : gset K,
    is_ok (fold_result (λ seen a,
        check a;; if decide (key a ∈ seen) then Err e else Ok ({[key a]} ∪ seen)) seen l) ↔
    Forall (λ a, check a = Ok ()) l ∧ NoDup (key <$> l) ∧ Forall (λ a, key a ∉ seen) l) as Hgen.
  { unfold is_ok. induction l as [|a l IH]; intros seen; simpl.
    { split; [intros _|by eexists]. split_and!; constructor. }
    setoid_rewrite bind_ok. setoid_rewrite bind_unit_ok. setoid_rewrite guard_ok.
    rewrite !Forall_cons, NoDup_cons. split.
    - intros (s & s' & (Hc & Hp & [= <-]) & Hok).
      destruct (proj1 (IH ({[key a]} ∪ seen))) as (Hl & Hnd & Hall); [by eexists|].
      rewrite Forall_forall in Hall. split_and!; [done..| |done|done|].
      + intros (b & Hb & Hin)%list_elem_of_fmap. specialize (Hall b Hin). set_solver.
      + apply Forall_forall. intros b Hin. specialize (Hall b Hin). set_solver.
    - intros ((Hc & Hl) & (Hni & Hnd) & (Hna & Hall)).
      destruct (proj2 (IH ({[key a]} ∪ seen))) as [s Hs].
      { split_and!; [done..|]. rewrite Forall_forall in *. intros b Hin.
        apply not_elem_of_union. split; [|by apply Hall].
        rewrite not_elem_of_singleton. intros Heq. apply Hni, list_elem_of_fmap. by exists b. }
      by exists s, ({[key a]} ∪ seen). }
  rewrite bind_ok. specialize (Hgen ∅). unfold is_ok in Hgen.
  assert (Forall (λ a, key a ∉ (∅ : gset K)) l) by (apply Forall_forall; set_solver). naive_solver.
Qed.
End loops.
