(* ===== verification/ErrorCode.v ===== *)
(** * Stable error codes: crates/pocket-core/src/error.rs

    The codes a peer sends in an ERROR message: the enum with its [repr(u16)]
    values, [ALL], [as_str] and [from_u16], and the trait [CodedError] as a class
    that every error type of the program implements. *)

From S2P Require Import Prelude.

Module ErrorCode.

Inductive t : Set :=
| PathNotAbsolute
| PathNotUtf8
| PathContainsWhitespace
| PathContainsReservedCharacter
| PathNotNormalized
| PathTooBroad
| PathTooLong
| InvalidCpuProfile
| InvalidCpuRequest
| CpuExceedsProfileMaximum
| CpuUnavailable
| CpuCountMismatch
| InvalidMemory
| MemoryOverflow
| InvalidMemoryPolicy
| MemoryBelowMinimum
| MemoryAboveMaximum
| MemoryNotAligned
| ProtocolIo
| ProtocolUnexpectedEof
| ProtocolTrailingData
| ProtocolBadMagic
| ProtocolUnsupportedVersion
| ProtocolUnknownKind
| ProtocolUnsupportedFlags
| ProtocolPayloadTooLarge
| ProtocolSequenceMismatch
| ProtocolCborMalformed
| ProtocolCborNonCanonical
| ProtocolMessageLimitExceeded
| ProtocolInvalidMessage
| ProtocolInvalidStateTransition
| BuilderBootContract
| BuilderUnsupported
| BuilderMount
| BuilderInputMismatch
| BuilderTargetDirty
| BuilderToolMismatch
| BuilderToolFailed
| BuilderMarker
| BuilderManifest
| BuilderSync
| BuilderUnmount
| BuilderProtocol
| ValidatorBootContract
| ValidatorMount
| ValidatorFilesystem
| ValidatorManifest
| ValidatorMarker
| ValidatorAccount
| ValidatorProtocol
| ValidatorUnmount.

#[export] Instance eq_dec : EqDecision t.
Proof. solve_decision. Defined.

(** [code as u16]: the discriminants of the enum. *)
Definition as_u16 (c : t) : N :=
  match c with
  | PathNotAbsolute => 0x0101
  | PathNotUtf8 => 0x0102
  | PathContainsWhitespace => 0x0103
  | PathContainsReservedCharacter => 0x0104
  | PathNotNormalized => 0x0105
  | PathTooBroad => 0x0106
  | PathTooLong => 0x0107
  | InvalidCpuProfile => 0x0201
  | InvalidCpuRequest => 0x0202
  | CpuExceedsProfileMaximum => 0x0203
  | CpuUnavailable => 0x0204
  | CpuCountMismatch => 0x0205
  | InvalidMemory => 0x0301
  | MemoryOverflow => 0x0302
  | InvalidMemoryPolicy => 0x0303
  | MemoryBelowMinimum => 0x0304
  | MemoryAboveMaximum => 0x0305
  | MemoryNotAligned => 0x0306
  | ProtocolIo => 0x1001
  | ProtocolUnexpectedEof => 0x1002
  | ProtocolTrailingData => 0x1003
  | ProtocolBadMagic => 0x1004
  | ProtocolUnsupportedVersion => 0x1005
  | ProtocolUnknownKind => 0x1006
  | ProtocolUnsupportedFlags => 0x1007
  | ProtocolPayloadTooLarge => 0x1008
  | ProtocolSequenceMismatch => 0x1009
  | ProtocolCborMalformed => 0x100a
  | ProtocolCborNonCanonical => 0x100b
  | ProtocolMessageLimitExceeded => 0x100c
  | ProtocolInvalidMessage => 0x100d
  | ProtocolInvalidStateTransition => 0x100e
  | BuilderBootContract => 0x2001
  | BuilderUnsupported => 0x2002
  | BuilderMount => 0x2003
  | BuilderInputMismatch => 0x2004
  | BuilderTargetDirty => 0x2005
  | BuilderToolMismatch => 0x2006
  | BuilderToolFailed => 0x2007
  | BuilderMarker => 0x2008
  | BuilderManifest => 0x2009
  | BuilderSync => 0x200a
  | BuilderUnmount => 0x200b
  | BuilderProtocol => 0x200c
  | ValidatorBootContract => 0x2101
  | ValidatorMount => 0x2102
  | ValidatorFilesystem => 0x2103
  | ValidatorManifest => 0x2104
  | ValidatorMarker => 0x2105
  | ValidatorAccount => 0x2106
  | ValidatorProtocol => 0x2107
  | ValidatorUnmount => 0x2108
  end.

Definition ALL : list t :=
  [PathNotAbsolute;
   PathNotUtf8;
   PathContainsWhitespace;
   PathContainsReservedCharacter;
   PathNotNormalized;
   PathTooBroad;
   PathTooLong;
   InvalidCpuProfile;
   InvalidCpuRequest;
   CpuExceedsProfileMaximum;
   CpuUnavailable;
   CpuCountMismatch;
   InvalidMemory;
   MemoryOverflow;
   InvalidMemoryPolicy;
   MemoryBelowMinimum;
   MemoryAboveMaximum;
   MemoryNotAligned;
   ProtocolIo;
   ProtocolUnexpectedEof;
   ProtocolTrailingData;
   ProtocolBadMagic;
   ProtocolUnsupportedVersion;
   ProtocolUnknownKind;
   ProtocolUnsupportedFlags;
   ProtocolPayloadTooLarge;
   ProtocolSequenceMismatch;
   ProtocolCborMalformed;
   ProtocolCborNonCanonical;
   ProtocolMessageLimitExceeded;
   ProtocolInvalidMessage;
   ProtocolInvalidStateTransition;
   BuilderBootContract;
   BuilderUnsupported;
   BuilderMount;
   BuilderInputMismatch;
   BuilderTargetDirty;
   BuilderToolMismatch;
   BuilderToolFailed;
   BuilderMarker;
   BuilderManifest;
   BuilderSync;
   BuilderUnmount;
   BuilderProtocol;
   ValidatorBootContract;
   ValidatorMount;
   ValidatorFilesystem;
   ValidatorManifest;
   ValidatorMarker;
   ValidatorAccount;
   ValidatorProtocol;
   ValidatorUnmount].

Definition as_str (c : t) : bytes :=
  match c with
  | PathNotAbsolute => bs "E_PATH_NOT_ABSOLUTE"
  | PathNotUtf8 => bs "E_PATH_NOT_UTF8"
  | PathContainsWhitespace => bs "E_PATH_CONTAINS_WHITESPACE"
  | PathContainsReservedCharacter => bs "E_PATH_CONTAINS_RESERVED_CHARACTER"
  | PathNotNormalized => bs "E_PATH_NOT_NORMALIZED"
  | PathTooBroad => bs "E_PATH_TOO_BROAD"
  | PathTooLong => bs "E_PATH_TOO_LONG"
  | InvalidCpuProfile => bs "E_CPU_PROFILE_INVALID"
  | InvalidCpuRequest => bs "E_CPU_REQUEST_INVALID"
  | CpuExceedsProfileMaximum => bs "E_CPU_PROFILE_MAXIMUM"
  | CpuUnavailable => bs "E_CPU_UNAVAILABLE"
  | CpuCountMismatch => bs "E_CPU_COUNT_MISMATCH"
  | InvalidMemory => bs "E_MEMORY_INVALID"
  | MemoryOverflow => bs "E_MEMORY_OVERFLOW"
  | InvalidMemoryPolicy => bs "E_MEMORY_POLICY_INVALID"
  | MemoryBelowMinimum => bs "E_MEMORY_BELOW_MINIMUM"
  | MemoryAboveMaximum => bs "E_MEMORY_ABOVE_MAXIMUM"
  | MemoryNotAligned => bs "E_MEMORY_NOT_ALIGNED"
  | ProtocolIo => bs "E_PROTOCOL_IO"
  | ProtocolUnexpectedEof => bs "E_PROTOCOL_UNEXPECTED_EOF"
  | ProtocolTrailingData => bs "E_PROTOCOL_TRAILING_DATA"
  | ProtocolBadMagic => bs "E_PROTOCOL_BAD_MAGIC"
  | ProtocolUnsupportedVersion => bs "E_PROTOCOL_VERSION"
  | ProtocolUnknownKind => bs "E_PROTOCOL_KIND"
  | ProtocolUnsupportedFlags => bs "E_PROTOCOL_FLAGS"
  | ProtocolPayloadTooLarge => bs "E_PROTOCOL_PAYLOAD_TOO_LARGE"
  | ProtocolSequenceMismatch => bs "E_PROTOCOL_SEQUENCE"
  | ProtocolCborMalformed => bs "E_PROTOCOL_CBOR_MALFORMED"
  | ProtocolCborNonCanonical => bs "E_PROTOCOL_CBOR_NON_CANONICAL"
  | ProtocolMessageLimitExceeded => bs "E_PROTOCOL_MESSAGE_LIMIT"
  | ProtocolInvalidMessage => bs "E_PROTOCOL_MESSAGE_INVALID"
  | ProtocolInvalidStateTransition => bs "E_PROTOCOL_STATE"
  | BuilderBootContract => bs "E_BUILDER_BOOT_CONTRACT"
  | BuilderUnsupported => bs "E_BUILDER_UNSUPPORTED"
  | BuilderMount => bs "E_BUILDER_MOUNT"
  | BuilderInputMismatch => bs "E_BUILDER_INPUT_MISMATCH"
  | BuilderTargetDirty => bs "E_BUILDER_TARGET_DIRTY"
  | BuilderToolMismatch => bs "E_BUILDER_TOOL_MISMATCH"
  | BuilderToolFailed => bs "E_BUILDER_TOOL_FAILED"
  | BuilderMarker => bs "E_BUILDER_MARKER"
  | BuilderManifest => bs "E_BUILDER_MANIFEST"
  | BuilderSync => bs "E_BUILDER_SYNC"
  | BuilderUnmount => bs "E_BUILDER_UNMOUNT"
  | BuilderProtocol => bs "E_BUILDER_PROTOCOL"
  | ValidatorBootContract => bs "E_VALIDATOR_BOOT_CONTRACT"
  | ValidatorMount => bs "E_VALIDATOR_MOUNT"
  | ValidatorFilesystem => bs "E_VALIDATOR_FILESYSTEM"
  | ValidatorManifest => bs "E_VALIDATOR_MANIFEST"
  | ValidatorMarker => bs "E_VALIDATOR_MARKER"
  | ValidatorAccount => bs "E_VALIDATOR_ACCOUNT"
  | ValidatorProtocol => bs "E_VALIDATOR_PROTOCOL"
  | ValidatorUnmount => bs "E_VALIDATOR_UNMOUNT"
  end.

Inductive UnknownErrorCode : Set := unknown_error_code (value : N).

Definition from_u16 (value : N) : result UnknownErrorCode t :=
  match value with
  | 0x0101 => Ok PathNotAbsolute
  | 0x0102 => Ok PathNotUtf8
  | 0x0103 => Ok PathContainsWhitespace
  | 0x0104 => Ok PathContainsReservedCharacter
  | 0x0105 => Ok PathNotNormalized
  | 0x0106 => Ok PathTooBroad
  | 0x0107 => Ok PathTooLong
  | 0x0201 => Ok InvalidCpuProfile
  | 0x0202 => Ok InvalidCpuRequest
  | 0x0203 => Ok CpuExceedsProfileMaximum
  | 0x0204 => Ok CpuUnavailable
  | 0x0205 => Ok CpuCountMismatch
  | 0x0301 => Ok InvalidMemory
  | 0x0302 => Ok MemoryOverflow
  | 0x0303 => Ok InvalidMemoryPolicy
  | 0x0304 => Ok MemoryBelowMinimum
  | 0x0305 => Ok MemoryAboveMaximum
  | 0x0306 => Ok MemoryNotAligned
  | 0x1001 => Ok ProtocolIo
  | 0x1002 => Ok ProtocolUnexpectedEof
  | 0x1003 => Ok ProtocolTrailingData
  | 0x1004 => Ok ProtocolBadMagic
  | 0x1005 => Ok ProtocolUnsupportedVersion
  | 0x1006 => Ok ProtocolUnknownKind
  | 0x1007 => Ok ProtocolUnsupportedFlags
  | 0x1008 => Ok ProtocolPayloadTooLarge
  | 0x1009 => Ok ProtocolSequenceMismatch
  | 0x100a => Ok ProtocolCborMalformed
  | 0x100b => Ok ProtocolCborNonCanonical
  | 0x100c => Ok ProtocolMessageLimitExceeded
  | 0x100d => Ok ProtocolInvalidMessage
  | 0x100e => Ok ProtocolInvalidStateTransition
  | 0x2001 => Ok BuilderBootContract
  | 0x2002 => Ok BuilderUnsupported
  | 0x2003 => Ok BuilderMount
  | 0x2004 => Ok BuilderInputMismatch
  | 0x2005 => Ok BuilderTargetDirty
  | 0x2006 => Ok BuilderToolMismatch
  | 0x2007 => Ok BuilderToolFailed
  | 0x2008 => Ok BuilderMarker
  | 0x2009 => Ok BuilderManifest
  | 0x200a => Ok BuilderSync
  | 0x200b => Ok BuilderUnmount
  | 0x200c => Ok BuilderProtocol
  | 0x2101 => Ok ValidatorBootContract
  | 0x2102 => Ok ValidatorMount
  | 0x2103 => Ok ValidatorFilesystem
  | 0x2104 => Ok ValidatorManifest
  | 0x2105 => Ok ValidatorMarker
  | 0x2106 => Ok ValidatorAccount
  | 0x2107 => Ok ValidatorProtocol
  | 0x2108 => Ok ValidatorUnmount
  | _ => Err (unknown_error_code value)
  end%N.

End ErrorCode.

(** The trait [CodedError]. *)
Class CodedError (E : Type) := error_code : E → ErrorCode.t.

Section theorems.
Import ErrorCode.

Lemma from_as_u16 c : from_u16 (as_u16 c) = Ok c.
Proof. by destruct c. Qed.

Lemma from_u16_Ok v c : from_u16 v = Ok c → v = as_u16 c.
Proof. unfold from_u16. repeat case_match; intros [= <-]; done. Qed.

Lemma elem_of_ALL c : c ∈ ALL.
Proof. apply (bool_decide_unpack _). by destruct c; vm_compute. Qed.

(** The numeric table is a bijection.  [from_u16] inverts the [repr(u16)]
    values and accepts nothing else; [ALL] lists every code once in increasing
    numeric order; and the external spellings are pairwise distinct. *)
Theorem error_code_table :
  (∀ v c, from_u16 v = Ok c ↔ v = as_u16 c) ∧
  (∀ v, (∀ c, v ≠ as_u16 c) → from_u16 v = Err (unknown_error_code v)) ∧
  (∀ c, c ∈ ALL) ∧
  StronglySorted N.lt (as_u16 <$> ALL) ∧
  (∀ c d, as_str c = as_str d → c = d).
Proof.
  split_and!.
  - intros v c. split; [apply from_u16_Ok|intros ->; apply from_as_u16].
  - intros v Hv. destruct (from_u16 v) as [c|[w]|] eqn:Hf.
    + by apply from_u16_Ok, Hv in Hf.
    + unfold from_u16 in Hf. repeat case_match; congruence.
    + unfold from_u16 in Hf. repeat case_match; congruence.
  - apply elem_of_ALL.
  - apply (bool_decide_unpack _). vm_compute. done.
  - intros c d H. assert (NoDup (as_str <$> ALL)) as Hnd.
    { apply (bool_decide_unpack _). vm_compute. done. }
    destruct (list_elem_of_lookup_1 _ _ (elem_of_ALL c)) as [i Hi].
    destruct (list_elem_of_lookup_1 _ _ (elem_of_ALL d)) as [j Hj].
    assert (i = j) as ->; [|congruence].
    eapply NoDup_lookup; [exact Hnd|..]; rewrite list_lookup_fmap, ?Hi, ?Hj; simpl; by f_equal.
Qed.
End theorems.
