(* ===== verification/ManagedPath.v ===== *)
(** * Managed UML paths: crates/pocket-core/src/path.rs

    The constructor that every path put on a UML command line goes through, and
    [join_component].  A path is its bytes, as in an [OsStr]. *)

From S2P Require Import Prelude RustStr Utf8 ErrorCode.

(** ** [Path] of the standard library on Unix *)
Definition is_absolute (path : bytes) : Prop := head path = Some x2f.
#[export] Instance is_absolute_dec path : Decision (is_absolute path).
Proof. unfold is_absolute. apply _. Defined.

Definition to_str (path : bytes) : option bytes :=
  if decide (valid_utf8 path) then Some path else None.

(** [Path::join]: an absolute argument replaces the path, otherwise a separator is
    added unless the path is empty or already ends with one. *)
Definition path_join (path component : bytes) : bytes :=
  if decide (is_absolute component) then component
  else match last path with
       | None | Some x2f => path ++ component
       | Some _ => path ++ x2f :: component
       end.

(** [Path::components] of an absolute path, without the root; "." disappears. *)
Definition components (path : bytes) : list bytes :=
  filter (λ s, s ≠ [] ∧ s ≠ bs ".") (split x2f path).

Module ManagedUmlPath.

Definition MAX_MANAGED_UML_PATH_BYTES : N := 3840.
Definition MAX_UNIX_SOCKET_PATH_BYTES : N := 107.
Definition RUN_DIRECTORY_SOCKET_OVERHEAD_BYTES : N := len (bs "/run-") + 32 + len (bs "/uml").
Definition MAX_RUNTIME_ROOT_PATH_BYTES : N :=
  MAX_UNIX_SOCKET_PATH_BYTES - RUN_DIRECTORY_SOCKET_OVERHEAD_BYTES.
Definition MIN_MANAGED_UML_PATH_COMPONENTS : N := 3.

Inductive ManagedUmlPathError : Set :=
| NotAbsolute
| NotUtf8
| ContainsWhitespace
| ContainsReservedCharacter (character : N)
| NotNormalized
| TooBroad (components minimum : N)
| TooLong (actual maximum : N).

#[export] Instance coded : CodedError ManagedUmlPathError := λ e,
  match e with
  | NotAbsolute => ErrorCode.PathNotAbsolute
  | NotUtf8 => ErrorCode.PathNotUtf8
  | ContainsWhitespace => ErrorCode.PathContainsWhitespace
  | ContainsReservedCharacter _ => ErrorCode.PathContainsReservedCharacter
  | NotNormalized => ErrorCode.PathNotNormalized
  | TooBroad _ _ => ErrorCode.PathTooBroad
  | TooLong _ _ => ErrorCode.PathTooLong
  end.

Record t : Set := ManagedUmlPath { path_buf : bytes }.

(** [matches!(character, ',' | ':' | '\0')] *)
Definition is_reserved (c : N) : Prop := c = 44%N ∨ c = 58%N ∨ c = 0%N.
#[export] Instance is_reserved_dec c : Decision (is_reserved c).
Proof. unfold is_reserved. apply _. Defined.

(** [segment.is_empty() || matches!(segment, "." | "..")] *)
Definition bad_segment (segment : bytes) : Prop :=
  segment = [] ∨ segment = bs "." ∨ segment = bs "..".
#[export] Instance bad_segment_dec s : Decision (bad_segment s).
Proof. unfold bad_segment. apply _. Defined.

Definition new (path : bytes) : result ManagedUmlPathError t :=
  if decide (¬ is_absolute path) then Err NotAbsolute else
  match to_str path with
  | None => Err NotUtf8
  | Some text =>
    if decide (MAX_MANAGED_UML_PATH_BYTES < len text)%N
    then Err (TooLong (len text) MAX_MANAGED_UML_PATH_BYTES) else
    if decide (Exists is_whitespace (chars text)) then Err ContainsWhitespace else
    match list_find is_reserved (chars text) with
    | Some (_, character) => Err (ContainsReservedCharacter character)
    | None =>
      match strip_prefix (bs "/") text with
      | None => Err NotAbsolute
      | Some relative =>
        if decide (relative = []) then Err (TooBroad 0 MIN_MANAGED_UML_PATH_COMPONENTS) else
        let segments := split x2f relative in
        if decide (Exists bad_segment segments) then Err NotNormalized else
        if decide (len segments < MIN_MANAGED_UML_PATH_COMPONENTS)%N
        then Err (TooBroad (len segments) MIN_MANAGED_UML_PATH_COMPONENTS) else
        Ok (ManagedUmlPath path)
      end
    end
  end.

Definition join_component (self : t) (component : bytes) : result ManagedUmlPathError t :=
  if decide (component = [] ∨ x2f ∈ component ∨ component = bs "." ∨ component = bs "..")
  then Err NotNormalized else
  new (path_join (path_buf self) component).

(** ** What the constructor promises *)

(** A component that names an entry of its parent and nothing else. *)
Definition normal_segment (s : bytes) : Prop := ¬ bad_segment s ∧ x2f ∉ s.
(** Text that the UML command-line grammars take literally. *)
Definition plain_text (s : bytes) : Prop :=
  ∃ cs, decode_utf8 s = Some cs ∧ Forall (λ c, ¬ is_whitespace c ∧ ¬ is_reserved c) cs.

Record managed (segments : list bytes) (p : t) : Prop := {
  managed_path : path_buf p = x2f :: join x2f segments;
  managed_depth : 3 ≤ length segments;
  managed_segments : Forall normal_segment segments;
  managed_plain : plain_text (path_buf p);
  managed_len : (len (path_buf p) ≤ MAX_MANAGED_UML_PATH_BYTES)%N;
}.

Lemma plain_text_iff text :
  (valid_utf8 text ∧ ¬ Exists is_whitespace (chars text) ∧
   list_find is_reserved (chars text) = None) ↔ plain_text text.
Proof.
  unfold plain_text, valid_utf8, chars. destruct (decode_utf8 text) as [cs|] eqn:Hd; simpl.
  - rewrite list_find_None, <- Forall_Exists_neg. setoid_rewrite Forall_and. naive_solver.
  - split; [intros [[? [=]] _]|naive_solver].
Qed.

Lemma normal_segments_split relative :
  ¬ Exists bad_segment (split x2f relative) → Forall normal_segment (split x2f relative).
Proof.
  rewrite <- Forall_Exists_neg. intros H. apply Forall_and. split; [done|apply split_pieces].
Qed.

Lemma segments_unique segs segs' :
  segs ≠ [] → segs' ≠ [] → Forall normal_segment segs → Forall normal_segment segs' →
  join x2f segs = join x2f segs' → segs = segs'.
Proof.
  intros Hn Hn' [_ H]%Forall_and [_ H']%Forall_and Heq.
  rewrite <- (split_join x2f segs), <- (split_join x2f segs') by done. by rewrite Heq.
Qed.

Lemma new_Ok path q : new path = Ok q ↔ path_buf q = path ∧ ∃ segments, managed segments q.
Proof.
  unfold new, to_str. split.
  - intros H. ok_inv. destruct (decide (valid_utf8 path)) as [Hv|]; [|done]. ok_inv.
    case_match eqn:Hf; [by case_match|]. case_match eqn:Hr; [|done]. ok_inv.
    apply strip_prefix_Some in Hr as ->. simpl in *. split; [done|]. eexists (split x2f _). constructor; simpl.
    + by rewrite join_split.
    + unfold len, MIN_MANAGED_UML_PATH_COMPONENTS in *. lia.
    + by apply normal_segments_split.
    + by apply plain_text_iff.
    + lia.
  - intros [<- (segs & [Hp Hd Hs (Hv & Hw & Hr)%plain_text_iff Hl])].
    assert (segs ≠ []) by (by intros ->; simpl in Hd; lia).
    assert (split x2f (join x2f segs) = segs) as Hsplit.
    { apply split_join; [done|]. by apply Forall_and in Hs as [_ ?]. }
    assert (join x2f segs ≠ []) as Hne.
    { intros Hnil. rewrite Hnil in Hsplit. subst segs. simpl in Hd. lia. }
    rewrite decide_False by (by rewrite Hp; intros []).
    rewrite decide_True by done. rewrite decide_False by lia. rewrite decide_False by done.
    rewrite Hr, Hp. simpl. rewrite decide_False by done. rewrite Hsplit.
    rewrite decide_False; [|by rewrite <- Forall_Exists_neg; apply Forall_and in Hs as [? _]].
    rewrite decide_False by (unfold len, MIN_MANAGED_UML_PATH_COMPONENTS; lia).
    destruct q; simpl in *. by rewrite <- Hp.
Qed.

Lemma last_join segs :
  segs ≠ [] → Forall normal_segment segs → ∃ b, last (join x2f segs) = Some b ∧ b ≠ x2f.
Proof.
  destruct segs as [|s segs _] using rev_ind; [done|]. intros _ [_ Hs]%Forall_app.
  apply Forall_singleton in Hs as [Hbad Hsep].
  assert (∃ b, last s = Some b ∧ b ≠ x2f) as (b & Hb & ?).
  { destruct (last s) as [b|] eqn:Hl.
    - exists b. split; [done|]. intros ->. by apply last_Some_elem_of in Hl.
    - apply last_None in Hl as ->. destruct Hbad. by left. }
  exists b. split; [|done]. destruct segs as [|s' segs]; [done|].
  rewrite join_snoc, last_app by done. by rewrite last_cons, Hb.
Qed.

Lemma path_join_managed segs p c :
  managed segs p → normal_segment c →
  path_join (path_buf p) c = x2f :: join x2f (segs ++ [c]).
Proof.
  intros [Hp Hd Hs _ _] [Hbad Hsep]. unfold path_join, is_absolute.
  rewrite decide_False.
  2: { destruct c; [done|]. simpl. intros [= ->]. set_solver. }
  assert (segs ≠ []) by (by intros ->; simpl in Hd; lia).
  destruct (last_join segs) as (b & Hb & ?); [done..|].
  rewrite Hp, last_cons, Hb, join_snoc by done. by destruct b.
Qed.

(** [ManagedUmlPath::new] accepts exactly the absolute, lexically normal paths
    of at least three components and at most 3840 bytes whose text is UTF-8
    without white space, [,], [:] or NUL, and it returns the path unchanged. *)
Theorem new_accepts_exactly_managed path q :
  new path = Ok q ↔ path_buf q = path ∧ ∃ segments, managed segments q.
Proof. apply new_Ok. Qed.

(** [join_component] adds exactly one component: from a managed path it
    succeeds exactly when the extended path is managed, so the result can neither
    leave the parent directory nor name the parent itself. *)
Theorem join_component_extends segments p component q :
  managed segments p →
  join_component p component = Ok q ↔ managed (segments ++ [component]) q.
Proof.
  intros Hm. unfold join_component. rewrite guard_ok, new_Ok. split.
  - intros (Hc & Hq & segs' & Hm'). assert (normal_segment component) as Hn.
    { unfold normal_segment, bad_segment. tauto. }
    rewrite (path_join_managed segments) in Hq by done.
    assert (segs' = segments ++ [component]) as <-; [|done].
    destruct Hm as [_ Hd Hs _ _], Hm' as [Hp' Hd' Hs' _ _]. apply segments_unique.
    + by intros ->; simpl in Hd'; lia.
    + by destruct segments.
    + done.
    + by apply Forall_app; split; [|apply Forall_singleton].
    + congruence.
  - intros Hm'. assert (normal_segment component) as Hn.
    { destruct Hm' as [_ _ Hs _ _]. apply Forall_app in Hs as [_ Hs]. by rewrite Forall_singleton in Hs. }
    rewrite (path_join_managed segments) by done.
    split_and!; [|by apply managed_path|by eexists].
    destruct Hn as [Hb Hs]. unfold bad_segment in Hb. tauto.
Qed.

#[local] Instance normal_segment_dec s : Decision (normal_segment s).
Proof. unfold normal_segment. apply _. Defined.

Lemma join_component_extends_witness :
  let root := ManagedUmlPath (bs "/srv/pocket/store") in
  managed [bs "srv"; bs "pocket"; bs "store"] root ∧
  (join_component root (bs "leases") = Ok (ManagedUmlPath (bs "/srv/pocket/store/leases")) ↔
   managed ([bs "srv"; bs "pocket"; bs "store"] ++ [bs "leases"])
     (ManagedUmlPath (bs "/srv/pocket/store/leases"))).
Proof.
  assert (managed [bs "srv"; bs "pocket"; bs "store"] (ManagedUmlPath (bs "/srv/pocket/store"))) as Hm.
  { constructor.
    - reflexivity.
    - simpl; lia.
    - apply (bool_decide_unpack _). vm_compute. exact I.
    - eexists. split; [reflexivity|]. apply (bool_decide_unpack _). vm_compute. exact I.
    - vm_compute. discriminate. }
  split; [exact Hm|]. apply (join_component_extends _ _ _ _ Hm).
Defined.

End ManagedUmlPath.
