(* ===== verification/Memory.v ===== *)
(** * Memory quantities: crates/pocket-core/src/memory.rs

    Parsing of sizes with binary suffixes, per-profile policies, and the [mem=]
    value put on the UML command line. *)

From S2P Require Import Prelude RustStr Utf8 ErrorCode.

Module Memory.

Definition KIB : N := 1024.
Definition MIB : N := 1024 * KIB.
Definition GIB : N := 1024 * MIB.
Definition TIB : N := 1024 * GIB.

Inductive MemoryParseError : Set :=
| Empty
| Whitespace
| InvalidNumber
| InvalidSuffix (suffix : bytes)
| Zero
| Overflow.

#[export] Instance parse_coded : CodedError MemoryParseError := λ e,
  match e with
  | Overflow => ErrorCode.MemoryOverflow
  | Empty | Whitespace | InvalidNumber | InvalidSuffix _ | Zero => ErrorCode.InvalidMemory
  end.

(** [ParsedMemory(u64)] *)
Record ParsedMemory : Set := parsed_memory { parsed_bytes : N }.

Definition from_bytes (bytes : N) : result MemoryParseError ParsedMemory :=
  if decide (bytes = 0)%N then Err Zero else Ok (parsed_memory bytes).

(** [input.bytes().take_while(u8::is_ascii_digit)] *)
Fixpoint take_digits (s : bytes) : bytes :=
  match s with
  | b :: s => if decide (is_ascii_digit b) then b :: take_digits s else []
  | [] => []
  end.

(** The [match] on the lower-cased suffix. *)
Definition suffix_multiplier (suffix : bytes) : option N :=
  let s := to_ascii_lowercase suffix in
  if decide (s = [] ∨ s = bs "b") then Some 1%N
  else if decide (s = bs "k" ∨ s = bs "kb" ∨ s = bs "kib") then Some KIB
  else if decide (s = bs "m" ∨ s = bs "mb" ∨ s = bs "mib") then Some MIB
  else if decide (s = bs "g" ∨ s = bs "gb" ∨ s = bs "gib") then Some GIB
  else if decide (s = bs "t" ∨ s = bs "tb" ∨ s = bs "tib") then Some TIB
  else None.

Definition from_str (input : bytes) : result MemoryParseError ParsedMemory :=
  if decide (input = []) then Err Empty else
  if decide (Exists is_whitespace (chars input)) then Err Whitespace else
  let digits_len := length (take_digits input) in
  if decide (digits_len = 0) then Err InvalidNumber else
  let digits := take digits_len input in
  let suffix := drop digits_len input in
  value ← ok_or (parse_uint u64_bound digits) Overflow;
  if decide (value = 0)%N then Err Zero else
  multiplier ← ok_or (suffix_multiplier suffix) (InvalidSuffix suffix);
  bytes ← ok_or (checked_mul value multiplier) Overflow;
  from_bytes bytes.

(** [impl Display for ParsedMemory]: [write!(formatter, "{}B", self.0)] *)
Definition to_string (m : ParsedMemory) : bytes := to_decimal (parsed_bytes m) ++ bs "B".

Inductive MemoryValidationError : Set :=
| InvalidPolicy (minimum maximum alignment : N)
| BelowMinimum (actual minimum : N)
| AboveMaximum (actual maximum : N)
| NotAligned (actual alignment : N).

#[export] Instance validation_coded : CodedError MemoryValidationError := λ e,
  match e with
  | InvalidPolicy _ _ _ => ErrorCode.InvalidMemoryPolicy
  | BelowMinimum _ _ => ErrorCode.MemoryBelowMinimum
  | AboveMaximum _ _ => ErrorCode.MemoryAboveMaximum
  | NotAligned _ _ => ErrorCode.MemoryNotAligned
  end.

Record MemoryPolicy : Set := memory_policy { minimum : N; maximum : N; alignment : N }.

Definition policy_new (minimum maximum alignment : N) : result MemoryValidationError MemoryPolicy :=
  if decide (minimum = 0 ∨ maximum < minimum ∨ alignment = 0 ∨ ¬ is_power_of_two alignment ∨
             ¬ is_multiple_of minimum alignment ∨ ¬ is_multiple_of maximum alignment)%N
  then Err (InvalidPolicy minimum maximum alignment)
  else Ok (memory_policy minimum maximum alignment).

(** [ValidatedMemory(ParsedMemory)] *)
Record ValidatedMemory : Set := validated_memory { validated : ParsedMemory }.

Definition validate (self : MemoryPolicy) (memory : ParsedMemory)
    : result MemoryValidationError ValidatedMemory :=
  let bytes := parsed_bytes memory in
  if decide (bytes < minimum self)%N then Err (BelowMinimum bytes (minimum self)) else
  if decide (maximum self < bytes)%N then Err (AboveMaximum bytes (maximum self)) else
  if decide (¬ is_multiple_of bytes (alignment self)) then Err (NotAligned bytes (alignment self)) else
  Ok (validated_memory memory).

Inductive MemoryInputError : Set :=
| Parse (e : MemoryParseError)
| Validation (e : MemoryValidationError).

#[export] Instance input_coded : CodedError MemoryInputError := λ e,
  match e with Parse e => error_code e | Validation e => error_code e end.

Definition parse_and_validate (self : MemoryPolicy) (input : bytes)
    : result MemoryInputError ValidatedMemory :=
  parsed ← map_err Parse (from_str input);
  map_err Validation (validate self parsed).

(** The [for] over [(GIB, "G"), (MIB, "M"), (KIB, "K")]. *)
Definition uml_value (self : ValidatedMemory) : bytes :=
  let bytes := parsed_bytes (validated self) in
  if decide (is_multiple_of bytes GIB) then to_decimal (bytes / GIB) ++ bs "G" else
  if decide (is_multiple_of bytes MIB) then to_decimal (bytes / MIB) ++ bs "M" else
  if decide (is_multiple_of bytes KIB) then to_decimal (bytes / KIB) ++ bs "K" else
  to_decimal bytes.

(** ** Parsing *)
Definition is_letter (b : byte) : Prop := (65 ≤ code b ≤ 90 ∨ 97 ≤ code b ≤ 122)%N.
#[export] Instance is_letter_dec b : Decision (is_letter b).
Proof. unfold is_letter. apply _. Defined.

Lemma take_digits_app s :
  s = take_digits s ++ drop (length (take_digits s)) s ∧
  take (length (take_digits s)) s = take_digits s ∧ Forall is_ascii_digit (take_digits s).
Proof.
  induction s as [|b s (IH1 & IH2 & IH3)]; simpl; [done|].
  case_decide; simpl; [|done]. split_and!; [by f_equal|by f_equal|by constructor].
Qed.

Lemma take_digits_prefix d s :
  Forall is_ascii_digit d → Forall is_letter s → take_digits (d ++ s) = d.
Proof.
  induction 1 as [|b d Hb Hd IH]; intros Hs; simpl.
  - destruct Hs as [|b s Hb Hs]; simpl; [done|].
    rewrite decide_False; [done|]. unfold is_letter, is_ascii_digit in *. lia.
  - by rewrite decide_True, IH.
Qed.

Lemma lowercase_letters s : Forall is_letter (to_ascii_lowercase s) → Forall is_letter s.
Proof.
  assert (∀ b, is_letter (if decide (65 ≤ code b ≤ 90)%N then byte_of_N (code b + 32) else b) →
               is_letter b) as Hb.
  { by_bytes. }
  unfold to_ascii_lowercase. rewrite Forall_fmap. intros Hs.
  eapply Forall_impl; [exact Hs|]. intros b. apply Hb.
Qed.

Lemma suffix_multiplier_Some s k :
  suffix_multiplier s = Some k → Forall is_letter s ∧ (0 < k)%N.
Proof.
  unfold suffix_multiplier. intros H. split; [|by repeat case_decide; simplify_eq].
  apply lowercase_letters. repeat case_decide; simplify_eq; destruct_or!;
    match goal with H : to_ascii_lowercase _ = _ |- _ => rewrite H end;
    apply (bool_decide_unpack _); vm_compute; exact I.
Qed.

Lemma no_whitespace_in d s :
  Forall is_ascii_digit d → Forall is_letter s → ¬ Exists is_whitespace (chars (d ++ s)).
Proof.
  intros Hd Hs. assert (Forall (λ b, is_ascii_digit b ∨ is_letter b) (d ++ s)) as Hall.
  { apply Forall_app; split; eapply Forall_impl; naive_solver. }
  unfold chars. rewrite decode_utf8_ascii; simpl.
  - rewrite <- Forall_Exists_neg, Forall_fmap. eapply Forall_impl; [done|].
    unfold is_ascii_digit, is_letter, is_whitespace; simpl; lia.
  - eapply Forall_impl; [done|]. unfold is_ascii_digit, is_letter; simpl; lia.
Qed.

Lemma from_str_Ok input m :
  from_str input = Ok m ↔
  ∃ digits suffix multiplier,
    input = digits ++ suffix ∧ digits ≠ [] ∧ Forall is_ascii_digit digits ∧
    suffix_multiplier suffix = Some multiplier ∧
    parsed_bytes m = (dec_value digits * multiplier)%N ∧
    (0 < parsed_bytes m < u64_bound)%N.
Proof.
  unfold from_str, from_bytes. destruct (take_digits_app input) as (Hin & Htake & Hdig). split.
  - intros H. ok_inv. exists (take_digits input), (drop (length (take_digits input)) input), r0.
    match goal with H : parse_uint _ _ = _ |- _ => rename H into Hp end.
    rewrite Htake in Hp.
    apply parse_uint_digits in Hp as [-> ?]; [|by destruct (take_digits input)|done].
    match goal with H : checked_mul _ _ = _ |- _ => apply checked_mul_Some in H as [-> ?] end.
    split_and!; simpl; [done|by destruct (take_digits input)|done|done|done|lia|done].
  - intros (d & s & k & -> & Hne & Hd & Hk & Hm & Hb).
    destruct (suffix_multiplier_Some _ _ Hk) as [Hs Hk0].
    rewrite decide_False by (by destruct d). rewrite decide_False by (by apply no_whitespace_in).
    rewrite take_digits_prefix by done. rewrite decide_False by (by destruct d).
    rewrite take_app_length, drop_app_length, Hk.
    assert (parse_uint u64_bound d = Some (dec_value d)) as ->.
    { apply parse_uint_digits; [done..|]. split; [done|]. nia. }
    simpl. rewrite decide_False by nia.
    assert (checked_mul (dec_value d) k = Some (parsed_bytes m)) as ->.
    { apply checked_mul_Some. lia. }
    simpl. rewrite decide_False by lia. by destruct m.
Qed.

(** A size parses to the value of its digits times its suffix exactly when
    that product is neither zero nor beyond 64 bits: an overflow is refused, never
    wrapped, and nothing but digits followed by a known suffix is accepted. *)
Theorem from_str_exact input m :
  from_str input = Ok m ↔
  ∃ digits suffix multiplier,
    input = digits ++ suffix ∧ digits ≠ [] ∧ Forall is_ascii_digit digits ∧
    suffix_multiplier suffix = Some multiplier ∧
    parsed_bytes m = (dec_value digits * multiplier)%N ∧
    (0 < parsed_bytes m < u64_bound)%N.
Proof. apply from_str_Ok. Qed.

Lemma from_str_decimal n suffix k m :
  suffix_multiplier suffix = Some k → parsed_bytes m = (n * k)%N →
  (0 < parsed_bytes m < u64_bound)%N → from_str (to_decimal n ++ suffix) = Ok m.
Proof.
  intros Hk Hm Hb. apply from_str_Ok. exists (to_decimal n), suffix, k.
  rewrite dec_value_to_decimal. split_and!;
    [done|apply to_decimal_not_nil|apply to_decimal_digits|done|done|lia|lia].
Qed.

(** Printing is invertible.  Both the [Display] form of a size and the [mem=]
    value rendered with the largest exact unit parse back to the same size. *)
Theorem printed_memory_parses_back m :
  (0 < parsed_bytes m < u64_bound)%N →
  from_str (to_string m) = Ok m ∧ from_str (uml_value (validated_memory m)) = Ok m.
Proof.
  intros Hb. split.
  - apply (from_str_decimal _ _ 1); [done|lia|done].
  - unfold uml_value, is_multiple_of; simpl.
    repeat case_decide; (eapply from_str_decimal || (rewrite <- (app_nil_r (to_decimal _));
      apply (from_str_decimal _ _ 1))); try done; try lia.
    all: rewrite N.mul_comm; apply N.Div0.div_exact; done.
Qed.

Lemma printed_memory_parses_back_witness :
  (0 < 3 * 1048576 < u64_bound)%N ∧
  from_str (to_string (parsed_memory (3 * 1048576))) = Ok (parsed_memory (3 * 1048576)) ∧
  from_str (uml_value (validated_memory (parsed_memory (3 * 1048576)))) = Ok (parsed_memory (3 * 1048576)).
Proof.
  split; [by vm_compute|]. apply (printed_memory_parses_back (parsed_memory (3 * 1048576))). by vm_compute.
Defined.

(** A policy built by [MemoryPolicy::new] admits a size exactly when it lies in
    the closed range and is aligned; both ends of the range are admissible. *)
Theorem policy_admits_exactly min max align p :
  policy_new min max align = Ok p →
  (∀ m v, validate p m = Ok v ↔
     validated v = m ∧ (min ≤ parsed_bytes m ≤ max)%N ∧ (align | parsed_bytes m)%N) ∧
  (∃ v, validate p (parsed_memory min) = Ok v) ∧ (∃ v, validate p (parsed_memory max) = Ok v).
Proof.
  unfold policy_new. intros H. ok_inv.
  assert (align ≠ 0%N) by tauto.
  assert ((align | min)%N ∧ (align | max)%N) as [? ?].
  { rewrite <- !is_multiple_of_divide by done. split; apply dec_stable; tauto. }
  assert (Hiff : ∀ m v, validate (memory_policy min max align) m = Ok v ↔
     validated v = m ∧ (min ≤ parsed_bytes m ≤ max)%N ∧ (align | parsed_bytes m)%N).
  { intros m v. unfold validate; simpl. rewrite !guard_ok, ok_inj, <- is_multiple_of_divide by done.
    destruct v as [v]; simpl. split.
    - intros (? & ? & Hm & [= <-]). split_and!; [done|lia|lia|by apply dec_stable].
    - intros (-> & ? & ?). split_and!; [lia|lia|tauto|done]. }
  split; [exact Hiff|]. split; eexists (validated_memory _); apply Hiff; simpl;
    (split_and!; [done|lia|lia|done]).
Qed.

Lemma policy_admits_exactly_witness :
  policy_new (64 * MIB) (16 * GIB) 4096 = Ok (memory_policy (64 * MIB) (16 * GIB) 4096) ∧
  ∃ v, validate (memory_policy (64 * MIB) (16 * GIB) 4096) (parsed_memory (64 * MIB)) = Ok v.
Proof.
  assert (policy_new (64 * MIB) (16 * GIB) 4096 = Ok (memory_policy (64 * MIB) (16 * GIB) 4096)) as H
    by (vm_compute; reflexivity).
  split; [exact H|]. destruct (policy_admits_exactly _ _ _ _ H) as (_ & Hmin & _). exact Hmin.
Defined.

End Memory.
