(* ===== verification/Cpu.v ===== *)
(** * CPU contracts: crates/pocket-core/src/cpu.rs

    A profile's CPU facts, the admission of a request against them, and the check
    of the online count that the guest reports. *)

From S2P Require Import Prelude RustStr ErrorCode.

Module Cpu.

Definition MAX_COMPILED_CPUS : N := 64.

Inductive CpuValidationError : Set :=
| InvalidProfile (reason : string)
| InvalidRequest (value : bytes)
| ExceedsProfileMaximum (requested maximum : N)
| OnlineCountMismatch (requested online : N).

#[export] Instance cpu_coded : CodedError CpuValidationError := λ e,
  match e with
  | InvalidProfile _ => ErrorCode.InvalidCpuProfile
  | InvalidRequest _ => ErrorCode.InvalidCpuRequest
  | ExceedsProfileMaximum _ _ => ErrorCode.CpuExceedsProfileMaximum
  | OnlineCountMismatch _ _ => ErrorCode.CpuCountMismatch
  end.

Record CpuProfile : Set := cpu_profile {
  smp_enabled : bool;
  product_max_cpus : N;
  compiled_nr_cpus : option N;
  effective_max_cpus : N;
}.

Definition profile_new (smp_enabled : bool) (product_max_cpus : N) (compiled_nr_cpus : option N)
    : result CpuValidationError CpuProfile :=
  if decide (product_max_cpus = 0 ∨ MAX_COMPILED_CPUS < product_max_cpus)%N
  then Err (InvalidProfile "product maximum must be in 1..=64") else
  effective_max_cpus ←
    (if smp_enabled then
       match compiled_nr_cpus with
       | None => Err (InvalidProfile "SMP profile requires a compiled CPU maximum")
       | Some compiled =>
           if decide (¬ (2 ≤ compiled ≤ MAX_COMPILED_CPUS)%N)
           then Err (InvalidProfile "SMP compiled maximum must be in 2..=64")
           else Ok (N.min product_max_cpus compiled)
       end
     else if decide (is_Some compiled_nr_cpus)
     then Err (InvalidProfile "UP profile must not claim a compiled SMP maximum")
     else if decide (product_max_cpus ≠ 1%N)
     then Err (InvalidProfile "UP product and effective maxima must be one")
     else Ok 1%N);
  Ok (cpu_profile smp_enabled product_max_cpus compiled_nr_cpus effective_max_cpus).

Record ValidatedCpuRequest : Set := validated_cpu_request {
  requested : N;
  request_smp_enabled : bool;
}.

Definition validate_request (self : CpuProfile) (requested : N)
    : result CpuValidationError ValidatedCpuRequest :=
  if decide (requested = 0)%N then Err (InvalidRequest (to_decimal requested)) else
  if decide (effective_max_cpus self < requested)%N
  then Err (ExceedsProfileMaximum requested (effective_max_cpus self)) else
  Ok (validated_cpu_request requested (smp_enabled self)).

Definition parse_request (self : CpuProfile) (requested : bytes)
    : result CpuValidationError ValidatedCpuRequest :=
  if decide (requested = [] ∨ ¬ Forall is_ascii_digit requested)
  then Err (InvalidRequest requested) else
  parsed ← ok_or (parse_uint u16_bound requested) (InvalidRequest requested);
  validate_request self parsed.

Definition kernel_ncpus (self : ValidatedCpuRequest) : option N :=
  if request_smp_enabled self then Some (requested self) else None.

Definition verify_online (self : ValidatedCpuRequest) (online : N) : result CpuValidationError () :=
  if decide (online ≠ requested self)
  then Err (OnlineCountMismatch (requested self) online) else Ok ().

Lemma profile_new_bounds smp product compiled p :
  profile_new smp product compiled = Ok p →
  smp_enabled p = smp ∧ (1 ≤ effective_max_cpus p ≤ product)%N ∧ (product ≤ MAX_COMPILED_CPUS)%N ∧
  (smp = false → effective_max_cpus p = 1%N) ∧
  (smp = true → ∃ c, compiled = Some c ∧ effective_max_cpus p = N.min product c).
Proof.
  unfold profile_new. intros H. ok_inv. destruct smp; [destruct compiled|]; ok_inv; simpl;
    (split_and!; [done|lia|lia|lia|naive_solver|naive_solver]).
Qed.

(** CPU admission never clamps.  Against a profile that [CpuProfile::new]
    accepted, a request string is admitted exactly when it is a decimal number
    between one and the effective maximum, the admitted count is that number, the
    kernel is told it exactly when the profile is SMP, and the guest's online count
    is accepted only when it equals it. *)
Theorem cpu_request_exact smp product compiled p text r :
  profile_new smp product compiled = Ok p →
  (parse_request p text = Ok r ↔
     text ≠ [] ∧ Forall is_ascii_digit text ∧
     (1 ≤ dec_value text ≤ effective_max_cpus p)%N ∧
     r = validated_cpu_request (dec_value text) smp) ∧
  (parse_request p text = Ok r →
     kernel_ncpus r = (if smp then Some (dec_value text) else None) ∧
     ∀ online, verify_online r online = Ok () ↔ online = dec_value text).
Proof.
  intros Hp. apply profile_new_bounds in Hp as (Hsmp & ? & ? & _ & _).
  assert (parse_request p text = Ok r ↔
     text ≠ [] ∧ Forall is_ascii_digit text ∧
     (1 ≤ dec_value text ≤ effective_max_cpus p)%N ∧
     r = validated_cpu_request (dec_value text) smp) as Hiff.
  { unfold parse_request, validate_request. rewrite guard_ok, bind_ok, Hsmp.
    setoid_rewrite guard_ok. setoid_rewrite guard_ok. setoid_rewrite ok_inj. split.
    - intros (Hd & n & Hn%ok_or_ok & ? & ? & <-).
      assert (text ≠ []) by tauto.
      assert (Forall is_ascii_digit text) by (apply dec_stable; tauto).
      apply parse_uint_digits in Hn as [-> ?]; [|done..]. split_and!; [done|done|lia|lia|done].
    - intros (Hne & Hd & Hr & ->). split; [tauto|]. exists (dec_value text).
      split_and!; [|lia|lia|done]. apply ok_or_ok, parse_uint_digits; [done|done|].
      unfold MAX_COMPILED_CPUS, u16_bound in *. split; [done|]. lia. }
  split; [exact Hiff|]. rewrite Hiff. intros (_ & _ & _ & ->). unfold kernel_ncpus, verify_online; simpl.
  split; [done|]. intros online. case_decide; naive_solver.
Qed.

Lemma cpu_request_exact_witness :
  profile_new true 8 (Some 64%N) = Ok (cpu_profile true 8 (Some 64%N) 8) ∧
  (parse_request (cpu_profile true 8 (Some 64%N) 8) (bs "4") = Ok (validated_cpu_request 4 true)).
Proof.
  assert (profile_new true 8 (Some 64%N) = Ok (cpu_profile true 8 (Some 64%N) 8)) as H by reflexivity.
  split; [exact H|].
  apply (proj1 (cpu_request_exact _ _ _ _ (bs "4") (validated_cpu_request 4 true) H)).
  split; [discriminate|]. split; [apply (bool_decide_unpack _); vm_compute; exact I|].
  split; [split; vm_compute; discriminate|reflexivity].
Defined.

End Cpu.
