(* ===== verification/ProtocolError.v ===== *)
(** * Protocol errors: crates/pocket-protocol/src/error.rs *)

From S2P Require Import Prelude ErrorCode.

(** [std::io::ErrorKind], as far as the program looks at it, and [std::io::Error]. *)
Inductive ErrorKind : Set :=
| Interrupted | WouldBlock | TimedOut | BrokenPipe | NotFound | AlreadyExists | OtherKind.
#[export] Instance error_kind_eq_dec : EqDecision ErrorKind.
Proof. solve_decision. Defined.

Record io_error : Set := io_error_of { io_kind : ErrorKind; raw_os_error : option Z }.

Inductive FrameSection : Set := Header | Payload.

Inductive ProtocolError : Set :=
| Io (error : io_error)
| UnexpectedEof (section : FrameSection) (expected received : N)
| TrailingData (remaining : N)
| BadMagic (actual : bytes)
| UnsupportedVersion (actual_major actual_minor expected_major expected_minor : N)
| UnknownKind (kind : N)
| UnsupportedFlags (flags : N)
| PayloadTooLarge (actual maximum : N)
| SequenceMismatch (expected actual : N)
| SequenceExhausted
| CborMalformed (diagnostic : bytes)
| CborNonCanonical
| MessageLimitExceeded (field : string) (actual maximum : N)
| InvalidMessage (field reason : string)
| InvalidStateTransition (state direction : string) (kind : N)
| MessageKindMismatch (expected actual : N).

#[export] Instance protocol_coded : CodedError ProtocolError := λ e,
  match e with
  | Io _ => ErrorCode.ProtocolIo
  | UnexpectedEof _ _ _ => ErrorCode.ProtocolUnexpectedEof
  | TrailingData _ => ErrorCode.ProtocolTrailingData
  | BadMagic _ => ErrorCode.ProtocolBadMagic
  | UnsupportedVersion _ _ _ _ => ErrorCode.ProtocolUnsupportedVersion
  | UnknownKind _ => ErrorCode.ProtocolUnknownKind
  | UnsupportedFlags _ => ErrorCode.ProtocolUnsupportedFlags
  | PayloadTooLarge _ _ => ErrorCode.ProtocolPayloadTooLarge
  | SequenceMismatch _ _ | SequenceExhausted => ErrorCode.ProtocolSequenceMismatch
  | CborMalformed _ => ErrorCode.ProtocolCborMalformed
  | CborNonCanonical => ErrorCode.ProtocolCborNonCanonical
  | MessageLimitExceeded _ _ _ => ErrorCode.ProtocolMessageLimitExceeded
  | InvalidMessage _ _ | MessageKindMismatch _ _ => ErrorCode.ProtocolInvalidMessage
  | InvalidStateTransition _ _ _ => ErrorCode.ProtocolInvalidStateTransition
  end.

(** [pub(crate) fn invalid] of message.rs, and the private copy of
    builder_state.rs. *)
Definition invalid {A} (field reason : string) : result ProtocolError A :=
  Err (InvalidMessage field reason).

Lemma invalid_guard_ok {A} (P : Prop) `{Decision P} f r (k : result ProtocolError A) a :
  (if decide P then invalid f r else k) = Ok a ↔ ¬ P ∧ k = Ok a.
Proof. apply guard_ok. Qed.
#[export] Hint Rewrite @invalid_guard_ok : rust_ok.
