(* ===== verification/Frame.v ===== *)
(** * Framing: crates/pocket-protocol/src/frame.rs

    The 24-byte header, the one-shot [encode_frame]/[decode_frame_exact], and the
    stateful [FrameReader]/[FrameWriter] over any transport. *)

From S2P Require Import Prelude ErrorCode ProtocolError.

Definition MAGIC : bytes := bs "PKVM".
Definition HEADER_LEN : N := 24.
Definition PROTOCOL_MAJOR : N := 1.
Definition PROTOCOL_MINOR : N := 8.
Definition MAX_CONTROL_PAYLOAD : N := 256 * 1024.

Module MessageKind.
Inductive t : Set :=
| Hello | Start | Ready | Exit | Error | Signal | Resize | Shutdown
| BuildHello | BuildStart | ManifestBegin | ManifestChunk | ManifestEnd
| BuildDone | BuildError | AccountDb
| ValidateHello | ValidateStart | ValidateDone | ValidateError.

#[export] Instance eq_dec : EqDecision t.
Proof. solve_decision. Defined.

(** [kind as u16] *)
Definition as_u16 (kind : t) : N :=
  match kind with
  | Hello => 1 | Start => 2 | Ready => 3 | Exit => 4 | Error => 5 | Signal => 6
  | Resize => 7 | Shutdown => 8
  | BuildHello => 32 | BuildStart => 33 | ManifestBegin => 34 | ManifestChunk => 35
  | ManifestEnd => 36 | BuildDone => 37 | BuildError => 38 | AccountDb => 39
  | ValidateHello => 48 | ValidateStart => 49 | ValidateDone => 50 | ValidateError => 51
  end.

Definition from_u16 (value : N) : result ProtocolError t :=
  match value with
  | 1 => Ok Hello | 2 => Ok Start | 3 => Ok Ready | 4 => Ok Exit
  | 5 => Ok Error | 6 => Ok Signal | 7 => Ok Resize | 8 => Ok Shutdown
  | 32 => Ok BuildHello | 33 => Ok BuildStart | 34 => Ok ManifestBegin
  | 35 => Ok ManifestChunk | 36 => Ok ManifestEnd | 37 => Ok BuildDone
  | 38 => Ok BuildError | 39 => Ok AccountDb
  | 48 => Ok ValidateHello | 49 => Ok ValidateStart | 50 => Ok ValidateDone
  | 51 => Ok ValidateError
  | kind => Err (UnknownKind kind)
  end%N.

Lemma kind_from_as_u16 k : from_u16 (as_u16 k) = Ok k.
Proof. by destruct k. Qed.
Lemma kind_from_u16_Ok v k : from_u16 v = Ok k → v = as_u16 k.
Proof. unfold from_u16. repeat case_match; intros [= <-]; done. Qed.
Lemma as_u16_bound k : (as_u16 k < u16_bound)%N.
Proof. by destruct k. Qed.
Lemma from_u16_no_panic v : from_u16 v ≠ Panic.
Proof. unfold from_u16. by repeat case_match. Qed.
End MessageKind.

Record FrameHeader : Set := frame_header {
  kind : MessageKind.t;
  flags : N;
  payload_len : N;
  sequence : N;
}.

Definition ensure_payload_cap (actual maximum : N) : result ProtocolError () :=
  if decide (maximum < actual)%N then Err (PayloadTooLarge actual maximum) else Ok ().

Definition ensure_sequence (actual expected : N) : result ProtocolError () :=
  if decide (actual ≠ expected) then Err (SequenceMismatch expected actual) else Ok ().

Definition header_new (kind : MessageKind.t) (payload_len sequence : N)
    : result ProtocolError FrameHeader :=
  ensure_payload_cap payload_len MAX_CONTROL_PAYLOAD;;
  payload_len ← ok_or (if decide (payload_len < u32_bound)%N then Some payload_len else None)
                      (PayloadTooLarge payload_len MAX_CONTROL_PAYLOAD);
  Ok (frame_header kind 0 payload_len sequence).

Definition to_bytes (self : FrameHeader) : bytes :=
  MAGIC ++ to_be 2 PROTOCOL_MAJOR ++ to_be 2 PROTOCOL_MINOR ++
  to_be 2 (MessageKind.as_u16 (kind self)) ++ to_be 2 (flags self) ++
  to_be 4 (payload_len self) ++ to_be 8 (sequence self).

(** [bytes[from..from + n]] *)
Definition slice (from n : nat) (l : bytes) : bytes := take n (drop from l).

Definition from_bytes (bytes : bytes) : result ProtocolError FrameHeader :=
  if decide (len bytes < HEADER_LEN)%N
  then Err (UnexpectedEof Header HEADER_LEN (len bytes)) else
  if decide (HEADER_LEN < len bytes)%N
  then Err (TrailingData (len bytes - HEADER_LEN)) else
  let actual_magic := slice 0 4 bytes in
  if decide (actual_magic ≠ MAGIC) then Err (BadMagic actual_magic) else
  let major := from_be (slice 4 2 bytes) in
  let minor := from_be (slice 6 2 bytes) in
  if decide (major ≠ PROTOCOL_MAJOR ∨ minor ≠ PROTOCOL_MINOR)
  then Err (UnsupportedVersion major minor PROTOCOL_MAJOR PROTOCOL_MINOR) else
  kind ← MessageKind.from_u16 (from_be (slice 8 2 bytes));
  let flags := from_be (slice 10 2 bytes) in
  if decide (flags ≠ 0%N) then Err (UnsupportedFlags flags) else
  let payload_len := from_be (slice 12 4 bytes) in
  ensure_payload_cap payload_len MAX_CONTROL_PAYLOAD;;
  let sequence := from_be (slice 16 8 bytes) in
  Ok (frame_header kind flags payload_len sequence).

Record RawFrame : Set := raw_frame { header : FrameHeader; payload : bytes }.

Definition encode_frame (kind : MessageKind.t) (sequence : N) (payload : bytes)
    : result ProtocolError bytes :=
  header ← header_new kind (len payload) sequence;
  _ ← ok_or (checked_add HEADER_LEN (len payload))
            (PayloadTooLarge (len payload) MAX_CONTROL_PAYLOAD);
  Ok (to_bytes header ++ payload).

Definition decode_frame_exact (input : bytes) (expected_sequence : N)
    : result ProtocolError RawFrame :=
  if decide (len input < HEADER_LEN)%N
  then Err (UnexpectedEof Header HEADER_LEN (len input)) else
  header ← from_bytes (take (N.to_nat HEADER_LEN) input);
  ensure_payload_cap (payload_len header) MAX_CONTROL_PAYLOAD;;
  ensure_sequence (sequence header) expected_sequence;;
  expected_total ← ok_or (checked_add HEADER_LEN (payload_len header))
                         (PayloadTooLarge (payload_len header) MAX_CONTROL_PAYLOAD);
  if decide (len input < expected_total)%N
  then Err (UnexpectedEof Payload (payload_len header) (len input - HEADER_LEN)) else
  if decide (expected_total < len input)%N
  then Err (TrailingData (len input - expected_total)) else
  Ok (raw_frame header (drop (N.to_nat HEADER_LEN) input)).

(** ** Transports

    A [Read] is the sequence of what its successive [read] calls give: bytes that
    arrive together, an interruption, a failure.  A call with a buffer shorter
    than the bytes that arrived leaves the rest for the next call; at the end of
    the sequence every call gives zero bytes. *)
Inductive read_event : Set :=
| Data (arrived : bytes)
| Failure (error : io_error).

Abbreviation reader := (list read_event).

Definition read (r : reader) (n : nat) : reader * result io_error bytes :=
  match r with
  | [] => ([], Ok [])
  | Data arrived :: r' =>
      if decide (length arrived ≤ n) then (r', Ok arrived)
      else (Data (drop n arrived) :: r', Ok (take n arrived))
  | Failure e :: r' => (r', Err e)
  end.

(** The loop of [read_exact_classified]: [received] bytes are in the buffer and
    [need] are missing.  The recursion follows the events, because a [read] that
    does not fill the buffer uses its event up; [read_loop_step] below restates it
    as the loop over [read] that the source has. *)
Fixpoint read_loop (r : reader) (section : FrameSection) (expected : N)
    (need : nat) (received : bytes) {struct r} : reader * result ProtocolError bytes :=
  if decide (need = 0) then (r, Ok received) else
  match r with
  | [] => ([], Err (UnexpectedEof section expected (len received)))
  | Data [] :: r' => (r', Err (UnexpectedEof section expected (len received)))
  | Data arrived :: r' =>
      if decide (length arrived ≤ need)
      then read_loop r' section expected (need - length arrived) (received ++ arrived)
      else (Data (drop need arrived) :: r', Ok (received ++ take need arrived))
  | Failure e :: r' =>
      if decide (io_kind e = Interrupted)
      then read_loop r' section expected need received
      else (r', Err (Io e))
  end.

Definition read_exact_classified (r : reader) (n : N) (section : FrameSection)
    : reader * result ProtocolError bytes :=
  read_loop r section n (N.to_nat n) [].

(** [trait Write]: what [write_all] and [flush] do to the transport. *)
Class Write (W : Type) := {
  write_all : W → bytes → W * result io_error ();
  flush_inner : W → W * result io_error ();
}.

(** A transport that keeps what it was given: the documented contract of
    [write_all] on success. *)
Class WriteLaws (W : Type) `{Write W} := {
  written : W → bytes;
  written_write_all w b w' : write_all w b = (w', Ok ()) → written w' = written w ++ b;
}.

(** [impl Write for Vec<u8>]: always succeeds. *)
#[export] Instance vec_write : Write bytes := {|
  write_all w b := (w ++ b, Ok ());
  flush_inner w := (w, Ok ());
|}.
#[export, refine] Instance vec_write_laws : WriteLaws bytes := {| written w := w |}.
Proof. intros w b w' [= <-]. done. Defined.

(** ** [FrameReader] *)
Record FrameReader : Set := frame_reader {
  reader_inner : reader;
  expected_sequence : N;
  reader_maximum_payload : N;
}.

Definition reader_new (inner : reader) : FrameReader := frame_reader inner 0 MAX_CONTROL_PAYLOAD.

Definition reader_with_limits (inner : reader) (expected_sequence maximum_payload : N)
    : result ProtocolError FrameReader :=
  if decide (MAX_CONTROL_PAYLOAD < maximum_payload)%N
  then Err (PayloadTooLarge maximum_payload MAX_CONTROL_PAYLOAD)
  else Ok (frame_reader inner expected_sequence maximum_payload).

Definition read_frame (self : FrameReader) : FrameReader * result ProtocolError RawFrame :=
  let '(inner, header_bytes) := read_exact_classified (reader_inner self) HEADER_LEN Header in
  let self1 := frame_reader inner (expected_sequence self) (reader_maximum_payload self) in
  let checked :=
    header_bytes ← header_bytes;
    header ← from_bytes header_bytes;
    ensure_payload_cap (payload_len header) (reader_maximum_payload self);;
    ensure_sequence (sequence header) (expected_sequence self);;
    next_sequence ← ok_or (checked_add (expected_sequence self) 1) SequenceExhausted;
    Ok (header, next_sequence) in
  match checked with
  | Err e => (self1, Err e)
  | Panic => (self1, Panic)
  | Ok (header, next_sequence) =>
      let '(inner, payload) := read_exact_classified inner (payload_len header) Payload in
      match payload with
      | Err e => (frame_reader inner (expected_sequence self) (reader_maximum_payload self), Err e)
      | Panic => (frame_reader inner (expected_sequence self) (reader_maximum_payload self), Panic)
      | Ok payload =>
          (frame_reader inner next_sequence (reader_maximum_payload self),
           Ok (raw_frame header payload))
      end
  end.

(** ** [FrameWriter] *)
Record FrameWriter (W : Type) := frame_writer {
  writer_inner : W;
  next_sequence : N;
  writer_maximum_payload : N;
}.
Arguments frame_writer {W} _ _ _.
Arguments writer_inner {W} _.
Arguments next_sequence {W} _.
Arguments writer_maximum_payload {W} _.

Section writer.
Context {W : Type} `{Write W}.

Definition writer_new (inner : W) : FrameWriter W := frame_writer inner 0 MAX_CONTROL_PAYLOAD.

Definition writer_with_limits (inner : W) (next_sequence maximum_payload : N)
    : result ProtocolError (FrameWriter W) :=
  if decide (MAX_CONTROL_PAYLOAD < maximum_payload)%N
  then Err (PayloadTooLarge maximum_payload MAX_CONTROL_PAYLOAD)
  else Ok (frame_writer inner next_sequence maximum_payload).

Definition write_frame (self : FrameWriter W) (kind : MessageKind.t) (payload : bytes)
    : FrameWriter W * result ProtocolError N :=
  let checked :=
    ensure_payload_cap (len payload) (writer_maximum_payload self);;
    let sequence := next_sequence self in
    next ← ok_or (checked_add sequence 1) SequenceExhausted;
    header ← header_new kind (len payload) sequence;
    Ok (header, next) in
  match checked with
  | Err e => (self, Err e)
  | Panic => (self, Panic)
  | Ok (header, next) =>
      let '(w, r) := write_all (writer_inner self) (to_bytes header) in
      let self1 := frame_writer w (next_sequence self) (writer_maximum_payload self) in
      match map_err Io r with
      | Err e => (self1, Err e)
      | Panic => (self1, Panic)
      | Ok _ =>
          let '(w, r) := write_all w payload in
          match map_err Io r with
          | Err e => (frame_writer w (next_sequence self) (writer_maximum_payload self), Err e)
          | Panic => (frame_writer w (next_sequence self) (writer_maximum_payload self), Panic)
          | Ok _ => (frame_writer w next (writer_maximum_payload self), Ok (next_sequence self))
          end
      end
  end.

Definition writer_flush (self : FrameWriter W) : FrameWriter W * result ProtocolError () :=
  let '(w, r) := flush_inner (writer_inner self) in
  (frame_writer w (next_sequence self) (writer_maximum_payload self), map_err Io r).
End writer.

(** ** The header *)
Record wf_header (h : FrameHeader) : Prop := {
  wf_flags : flags h = 0%N;
  wf_payload_len : (payload_len h ≤ MAX_CONTROL_PAYLOAD)%N;
  wf_sequence : (sequence h < u64_bound)%N;
}.

Lemma length_to_bytes h : length (to_bytes h) = 24.
Proof. reflexivity. Qed.

Lemma len_to_bytes h : len (to_bytes h) = HEADER_LEN.
Proof. reflexivity. Qed.

Lemma ensure_payload_cap_Ok a m : ensure_payload_cap a m = Ok () ↔ (a ≤ m)%N.
Proof. unfold ensure_payload_cap. rewrite guard_ok. naive_solver lia. Qed.

Lemma ensure_sequence_Ok a e : ensure_sequence a e = Ok () ↔ a = e.
Proof. unfold ensure_sequence. rewrite guard_ok. naive_solver (apply dec_stable; tauto). Qed.

Lemma header_new_Ok k n q h :
  header_new k n q = Ok h ↔ (n ≤ MAX_CONTROL_PAYLOAD)%N ∧ h = frame_header k 0 n q.
Proof.
  unfold header_new. rewrite bind_unit_ok, ensure_payload_cap_Ok, bind_ok. split.
  - intros (? & m & Hm%ok_or_ok & [= <-]). case_decide; naive_solver.
  - intros [? ->]. split; [done|]. exists n. split; [|done]. apply ok_or_ok.
    rewrite decide_True; [done|]. unfold MAX_CONTROL_PAYLOAD, u32_bound in *. lia.
Qed.

Lemma from_to_bytes h : wf_header h → from_bytes (to_bytes h) = Ok h.
Proof.
  intros [Hf Hp Hs]. unfold from_bytes. rewrite !len_to_bytes.
  rewrite !decide_False by lia.
  change (slice 0 4 (to_bytes h)) with MAGIC. rewrite decide_False by naive_solver.
  change (slice 4 2 (to_bytes h)) with (to_be 2 PROTOCOL_MAJOR).
  change (slice 6 2 (to_bytes h)) with (to_be 2 PROTOCOL_MINOR).
  change (slice 8 2 (to_bytes h)) with (to_be 2 (MessageKind.as_u16 (kind h))).
  change (slice 10 2 (to_bytes h)) with (to_be 2 (flags h)).
  change (slice 12 4 (to_bytes h)) with (to_be 4 (payload_len h)).
  change (slice 16 8 (to_bytes h)) with (to_be 8 (sequence h)).
  rewrite (from_to_be 2 PROTOCOL_MAJOR), (from_to_be 2 PROTOCOL_MINOR) by done.
  rewrite (from_to_be 2 (MessageKind.as_u16 _)) by apply MessageKind.as_u16_bound.
  rewrite Hf, (from_to_be 2 0), (from_to_be 8) by done.
  rewrite (from_to_be 4) by (unfold MAX_CONTROL_PAYLOAD in *; simpl; lia).
  rewrite decide_False by naive_solver. rewrite MessageKind.kind_from_as_u16. simpl.
  rewrite (proj2 (ensure_payload_cap_Ok _ _)) by done.
  destruct h; simpl in *. by subst.
Qed.

Lemma slices_of_header b : length b = 24 →
  b = slice 0 4 b ++ slice 4 2 b ++ slice 6 2 b ++ slice 8 2 b ++ slice 10 2 b ++
      slice 12 4 b ++ slice 16 8 b.
Proof.
  intros H. do 24 (destruct b as [|? b]; [discriminate H|]). destruct b; [reflexivity|discriminate H].
Qed.

Lemma to_be_slice from n b : from + n ≤ length b → to_be n (from_be (slice from n b)) = slice from n b.
Proof.
  intros H. rewrite <- (to_from_be (slice from n b)) at 2. f_equal.
  unfold slice. rewrite length_take, length_drop. lia.
Qed.

Lemma from_be_slice_bound from n b :
  from + n ≤ length b → (from_be (slice from n b) < 256 ^ N.of_nat n)%N.
Proof.
  intros H. pose proof (from_be_bound (slice from n b)) as Hb.
  assert (len (slice from n b) = N.of_nat n) as Hl; [|by rewrite Hl in Hb].
  unfold len, slice. rewrite length_take, length_drop. lia.
Qed.

Lemma from_bytes_Ok b h : from_bytes b = Ok h ↔ b = to_bytes h ∧ wf_header h.
Proof.
  split; [|by intros [-> ?]; apply from_to_bytes].
  unfold from_bytes. intros H. ok_inv.
  rename select (ensure_payload_cap _ _ = _) into Hcap. apply ensure_payload_cap_Ok in Hcap.
  rename select (MessageKind.from_u16 _ = _) into Hk. apply MessageKind.kind_from_u16_Ok in Hk.
  rename select (_ = MAGIC) into Hmagic. rename select (_ = PROTOCOL_MAJOR) into Hmaj.
  rename select (_ = PROTOCOL_MINOR) into Hmin.
  assert (length b = 24) as Hl by (unfold len, HEADER_LEN in *; lia).
  split; [|split; simpl; [done|done|by apply from_be_slice_bound; lia]].
  unfold to_bytes; simpl kind; simpl flags; simpl payload_len; simpl sequence.
  rewrite <- Hk, <- Hmagic, <- Hmaj, <- Hmin. rewrite !to_be_slice by lia. by apply slices_of_header.
Qed.

(** The header codec is exact in both directions: a byte string is accepted if
    and only if it is the encoding of a header with no flags, a payload within the
    control cap and a 64-bit sequence, and then that header is returned. *)
Theorem header_codec_exact b h : from_bytes b = Ok h ↔ b = to_bytes h ∧ wf_header h.
Proof. apply from_bytes_Ok. Qed.

(** ** One complete frame *)
Lemma encode_frame_Ok k q p out :
  encode_frame k q p = Ok out ↔
  (len p ≤ MAX_CONTROL_PAYLOAD)%N ∧ out = to_bytes (frame_header k 0 (len p) q) ++ p.
Proof.
  unfold encode_frame. split.
  - intros H. ok_inv. rename select (header_new _ _ _ = _) into Hh.
    apply header_new_Ok in Hh as [? ->]. done.
  - intros [? ->]. rewrite (proj2 (header_new_Ok _ _ _ _)) by done. simpl.
    unfold checked_add. rewrite decide_True; [done|].
    unfold MAX_CONTROL_PAYLOAD, HEADER_LEN, u64_bound in *. lia.
Qed.

Lemma frame_header_wf k (p : bytes) q :
  (len p ≤ MAX_CONTROL_PAYLOAD)%N → (q < u64_bound)%N → wf_header (frame_header k 0 (len p) q).
Proof. by constructor. Qed.
#[local] Hint Resolve frame_header_wf : core.

(** The header of an encoded frame is recovered from any input that starts with
    it. *)
Lemma decode_header_of_frame h rest :
  wf_header h → from_bytes (take (N.to_nat HEADER_LEN) (to_bytes h ++ rest)) = Ok h.
Proof. intros. rewrite take_app_length' by done. by apply from_to_bytes. Qed.

Lemma header_total h :
  wf_header h → checked_add HEADER_LEN (payload_len h) = Some (HEADER_LEN + payload_len h)%N.
Proof.
  intros [_ ? _]. apply checked_add_Some. unfold MAX_CONTROL_PAYLOAD, HEADER_LEN, u64_bound in *. lia.
Qed.

Lemma decode_frame_of_header h rest q :
  wf_header h → sequence h = q →
  decode_frame_exact (to_bytes h ++ rest) q =
    if decide (len rest < payload_len h)%N then Err (UnexpectedEof Payload (payload_len h) (len rest))
    else if decide (payload_len h < len rest)%N then Err (TrailingData (len rest - payload_len h))
    else Ok (raw_frame h rest).
Proof.
  intros Hwf <-. unfold decode_frame_exact. rewrite !len_app, !len_to_bytes.
  rewrite decide_False by lia. rewrite decode_header_of_frame by done. rsimpl.
  rewrite (proj2 (ensure_payload_cap_Ok _ _)) by apply Hwf. rsimpl.
  rewrite (proj2 (ensure_sequence_Ok _ _)) by done. rsimpl.
  rewrite header_total by done. rsimpl. rewrite drop_app_length' by done.
  replace (HEADER_LEN + len rest - HEADER_LEN)%N with (len rest) by lia.
  replace (HEADER_LEN + len rest - (HEADER_LEN + payload_len h))%N
    with (len rest - payload_len h)%N by lia.
  repeat case_decide; try done; exfalso; lia.
Qed.

Lemma decode_frame_exact_Ok input q f :
  decode_frame_exact input q = Ok f ↔
  (q < u64_bound)%N ∧ encode_frame (kind (header f)) q (payload f) = Ok input ∧
  header f = frame_header (kind (header f)) 0 (len (payload f)) q.
Proof.
  split.
  - unfold decode_frame_exact. intros H. ok_inv.
    rename select (from_bytes _ = _) into Hh. apply from_bytes_Ok in Hh as [Hin Hwf].
    rename select (ensure_sequence _ _ = _) into Hq. apply ensure_sequence_Ok in Hq as <-.
    rename select (checked_add _ _ = _) into Ht. rewrite header_total in Ht by done.
    simplify_eq. simpl.
    assert (len (drop (N.to_nat HEADER_LEN) input) = payload_len r) as Hlen.
    { unfold len in *. rewrite length_drop. unfold HEADER_LEN in *. lia. }
    assert (r = frame_header (kind r) 0 (payload_len r) (sequence r)) as Hr.
    { destruct Hwf as [Hf _ _]. destruct r; simpl in *. by rewrite Hf. }
    rewrite Hlen. split_and!; [apply Hwf| |done].
    apply encode_frame_Ok. rewrite Hlen. split; [apply Hwf|]. rewrite <- Hr, <- Hin.
    by rewrite take_drop.
  - intros (Hq & [Hp ->]%encode_frame_Ok & Hh). rewrite decode_frame_of_header by auto. simpl.
    rewrite !decide_False by lia. rewrite <- Hh. by destruct f.
Qed.

(** C34: [decode_frame_exact] accepts exactly what [encode_frame] produces for the
    expected sequence: nothing is ignored, reordered or normalised, so two accepted
    inputs with the same content are the same bytes. *)
Theorem frame_codec_exact input q f :
  decode_frame_exact input q = Ok f ↔
  (q < u64_bound)%N ∧ encode_frame (kind (header f)) q (payload f) = Ok input ∧
  header f = frame_header (kind (header f)) 0 (len (payload f)) q.
Proof. apply decode_frame_exact_Ok. Qed.

(** C40: [decode_frame_exact] never takes a frame that is cut or followed by other bytes
    for a frame: every proper prefix of what [encode_frame] produces is an unexpected end of file in the section where it was
    cut, with the number of bytes that section did receive, and every extension is
    trailing data of exactly the extra length. *)
Theorem frame_boundaries_classified k q p out extra n :
  (q < u64_bound)%N → encode_frame k q p = Ok out →
  (n < length out → decode_frame_exact (take n out) q =
     Err (if decide (N.of_nat n < HEADER_LEN)%N
          then UnexpectedEof Header HEADER_LEN (N.of_nat n)
          else UnexpectedEof Payload (len p) (N.of_nat n - HEADER_LEN))) ∧
  (extra ≠ [] → decode_frame_exact (out ++ extra) q = Err (TrailingData (len extra))).
Proof.
  intros Hq [Hp ->]%encode_frame_Ok. rewrite length_app, length_to_bytes. split.
  - intros Hn. case_decide as Hc.
    + unfold decode_frame_exact. rewrite decide_True.
      * do 2 f_equal. unfold len. rewrite length_take, length_app, length_to_bytes. lia.
      * unfold len. rewrite length_take. unfold HEADER_LEN in *. lia.
    + rewrite take_app_ge by (rewrite length_to_bytes; unfold HEADER_LEN in *; lia).
      rewrite length_to_bytes, decode_frame_of_header by auto. simpl.
      assert (len (take (n - 24) p) = (N.of_nat n - HEADER_LEN)%N) as ->.
      { unfold len. rewrite length_take. unfold HEADER_LEN in *. lia. }
      rewrite decide_True; [done|]. unfold len, HEADER_LEN in *. lia.
  - intros Hne. rewrite <- (assoc_L (++)), decode_frame_of_header by auto. simpl.
    rewrite len_app. assert (len extra ≠ 0%N) by (by rewrite len_zero).
    rewrite decide_False by lia. rewrite decide_True by lia. do 2 f_equal. lia.
Qed.

Lemma frame_boundaries_classified_witness :
  ∃ out, encode_frame MessageKind.Signal 7 (bs "abc") = Ok out ∧
    decode_frame_exact (take 25 out) 7 = Err (UnexpectedEof Payload 3 1) ∧
    decode_frame_exact (out ++ bs "x") 7 = Err (TrailingData 1).
Proof.
  eexists. split; [reflexivity|].
  destruct (frame_boundaries_classified MessageKind.Signal 7 (bs "abc") _ (bs "x") 25
              ltac:(reflexivity) ltac:(reflexivity)) as [H1 H2].
  split; [apply H1; vm_compute; lia|apply H2; discriminate].
Defined.

(** ** Streams *)

(** The loop as the source has it, over [read]. *)
Lemma read_loop_step r section expected need received :
  read_loop r section expected need received =
  if decide (need = 0) then (r, Ok received) else
  let '(r', outcome) := read r need in
  match outcome with
  | Ok [] => (r', Err (UnexpectedEof section expected (len received)))
  | Ok count => read_loop r' section expected (need - length count) (received ++ count)
  | Err e =>
      if decide (io_kind e = Interrupted)
      then read_loop r' section expected need received
      else (r', Err (Io e))
  | Panic => (r', Panic)
  end.
Proof.
  destruct r as [|[arrived|e] r]; simpl; (case_decide as Hz; [done|]); [done| |done].
  destruct arrived as [|b arrived]; [by rewrite decide_True by (simpl; lia)|].
  case_decide as Hle; [done|]. destruct need as [|need]; [done|]. simpl in *.
  rewrite length_take, Nat.min_l by lia. by rewrite Nat.sub_diag.
Qed.

(** The bytes a transport carries, and a transport that delivers them all, in any
    number of pieces and with any number of interruptions. *)
Definition content (r : reader) : bytes :=
  r ≫= λ e, match e with Data arrived => arrived | Failure _ => [] end.
Definition clean (r : reader) : Prop :=
  Forall (λ e, match e with Data arrived => arrived ≠ [] | Failure e => io_kind e = Interrupted end) r.

Lemma read_loop_clean r section expected need received :
  clean r → need ≤ length (content r) →
  ∃ r', read_loop r section expected need received = (r', Ok (received ++ take need (content r))) ∧
        clean r' ∧ content r' = drop need (content r).
Proof.
  intros Hc. revert need received. induction Hc as [|e r He Hr IH]; intros need received Hn.
  { simpl in Hn. assert (need = 0) as -> by lia. exists []. simpl. rewrite app_nil_r. split_and!; [done|constructor|done]. }
  simpl read_loop. case_decide as Hz.
  { subst need. eexists. rewrite take_0, app_nil_r. split_and!; [done|by constructor|done]. }
  destruct e as [arrived|e]; [|by rewrite decide_True by done; apply IH].
  change (content (Data arrived :: r)) with (arrived ++ content r) in *. rewrite length_app in Hn.
  destruct arrived as [|b arrived]; [done|]. case_decide as Hle.
  - destruct (IH (need - length (b :: arrived)) (received ++ b :: arrived)) as (r' & -> & ? & Hr'); [lia|].
    exists r'. rewrite take_app_ge, drop_app_ge by done. by rewrite (assoc_L (++)).
  - eexists. rewrite take_app_le, drop_app_le by lia. split; [done|]. split; [|done].
    constructor; [|done]. intros Hnil%(f_equal length). rewrite length_drop in Hnil. simpl in *. lia.
Qed.

Lemma read_exact_clean r n section a rest :
  clean r → content r = a ++ rest → len a = n →
  ∃ r', read_exact_classified r n section = (r', Ok a) ∧ clean r' ∧ content r' = rest.
Proof.
  intros Hc Heq <-. unfold read_exact_classified, len. rewrite Nat2N.id.
  destruct (read_loop_clean r section (N.of_nat (length a)) (length a) []) as (r' & -> & ? & Hr').
  - done.
  - rewrite Heq, length_app. lia.
  - exists r'. rewrite Heq, take_app_length in *. rewrite drop_app_length in Hr'. done.
Qed.

Lemma read_frame_of_encoded R h p rest :
  clean (reader_inner R) → content (reader_inner R) = to_bytes h ++ p ++ rest →
  wf_header h → payload_len h = len p → (len p ≤ reader_maximum_payload R)%N →
  sequence h = expected_sequence R → (expected_sequence R + 1 < u64_bound)%N →
  ∃ R', read_frame R = (R', Ok (raw_frame h p)) ∧
    clean (reader_inner R') ∧ content (reader_inner R') = rest ∧
    expected_sequence R' = (expected_sequence R + 1)%N ∧
    reader_maximum_payload R' = reader_maximum_payload R.
Proof.
  intros Hc Heq Hwf Hlen Hmax Hseq Hnext. unfold read_frame.
  destruct (read_exact_clean (reader_inner R) HEADER_LEN Header (to_bytes h) (p ++ rest))
    as (r1 & -> & Hc1 & Hr1); [done..|]. rsimpl.
  rewrite from_to_bytes by done. rsimpl.
  rewrite (proj2 (ensure_payload_cap_Ok _ _)) by lia. rsimpl.
  rewrite (proj2 (ensure_sequence_Ok _ _)) by done. rsimpl.
  rewrite (proj2 (checked_add_Some _ _ _)) by done. rsimpl.
  destruct (read_exact_clean r1 (payload_len h) Payload p rest) as (r2 & -> & ? & ?); [done..|].
  by eexists.
Qed.

(** Reading and writing several frames in a row. *)
Fixpoint read_frames (R : FrameReader) (n : nat) : FrameReader * result ProtocolError (list RawFrame) :=
  match n with
  | O => (R, Ok [])
  | S n => match read_frame R with
           | (R', Ok f) => let '(R'', fs) := read_frames R' n in (R'', cons f <$> fs)
           | (R', Err e) => (R', Err e)
           | (R', Panic) => (R', Panic)
           end
  end.

Fixpoint write_frames {W} `{Write W} (w : FrameWriter W) (ms : list (MessageKind.t * bytes))
    : FrameWriter W * result ProtocolError () :=
  match ms with
  | [] => (w, Ok ())
  | (k, p) :: ms => match write_frame w k p with
                    | (w', Ok _) => write_frames w' ms
                    | (w', Err e) => (w', Err e)
                    | (w', Panic) => (w', Panic)
                    end
  end.

(** The frames of a message list whose first sequence is [q]. *)
Fixpoint numbered (q : N) (ms : list (MessageKind.t * bytes)) : list RawFrame :=
  match ms with
  | [] => []
  | (k, p) :: ms => raw_frame (frame_header k 0 (len p) q) p :: numbered (q + 1) ms
  end.

Section stream.
Context {W : Type} `{WriteLaws W}.

Lemma write_frame_Ok (w w' : FrameWriter W) k p q :
  write_frame w k p = (w', Ok q) →
  q = next_sequence w ∧ next_sequence w' = (q + 1)%N ∧ (q + 1 < u64_bound)%N ∧
  writer_maximum_payload w' = writer_maximum_payload w ∧
  (len p ≤ MAX_CONTROL_PAYLOAD)%N ∧ (len p ≤ writer_maximum_payload w)%N ∧
  written (writer_inner w') =
    written (writer_inner w) ++ to_bytes (frame_header k 0 (len p) q) ++ p.
Proof.
  unfold write_frame. intros Heq. case_match eqn:Hk; [|done..]. case_match; subst. ok_inv.
  rename select (ensure_payload_cap _ _ = _) into Hcap. apply ensure_payload_cap_Ok in Hcap.
  rename select (header_new _ _ _ = _) into Hh. apply header_new_Ok in Hh as [? ->].
  rename select (checked_add _ _ = _) into Hadd. apply checked_add_Some in Hadd as [-> ?].
  destruct (write_all (writer_inner w) _) as [w1 r1] eqn:Hwa1.
  destruct r1 as [[]| |]; [|done..]. simpl in Heq.
  destruct (write_all w1 p) as [w2 r2] eqn:Hwa2. destruct r2 as [[]| |]; [|done..].
  simpl in Heq. simplify_eq. simpl. apply written_write_all in Hwa1, Hwa2.
  rewrite Hwa2, Hwa1, <- (assoc_L (++)). done.
Qed.

Lemma stream_round_trip_from ms (w w' : FrameWriter W) R rest :
  write_frames w ms = (w', Ok ()) →
  writer_maximum_payload w = MAX_CONTROL_PAYLOAD →
  reader_maximum_payload R = MAX_CONTROL_PAYLOAD →
  expected_sequence R = next_sequence w →
  clean (reader_inner R) →
  written (writer_inner w) ++ content (reader_inner R) = written (writer_inner w') ++ rest →
  ∃ R', read_frames R (length ms) = (R', Ok (numbered (next_sequence w) ms)) ∧
    content (reader_inner R') = rest ∧ expected_sequence R' = next_sequence w'.
Proof.
  revert w R. induction ms as [|[k p] ms IH]; intros w R Hw Hmw HmR Hq Hc Heq; simpl in Hw.
  { simplify_eq. by eexists. }
  destruct (write_frame w k p) as [w1 [q| |]] eqn:Hw1; [|done..].
  apply write_frame_Ok in Hw1 as (-> & Hn1 & ? & Hm1 & ? & ? & Hwr).
  assert (∃ tail, written (writer_inner w') = written (writer_inner w1) ++ tail) as [tail Htail].
  { clear -Hw. revert w1 Hw. induction ms as [|[k' p'] ms IH]; intros w1 Hw; simpl in Hw.
    - simplify_eq. exists []. by rewrite app_nil_r.
    - destruct (write_frame w1 k' p') as [w2 [q2| |]] eqn:Hw2; [|done..].
      apply write_frame_Ok in Hw2 as (_ & _ & _ & _ & _ & _ & Hwr).
      destruct (IH _ Hw) as [tail ->]. rewrite Hwr. eexists. by rewrite <- (assoc_L (++)). }
  rewrite Htail, Hwr, <- !(assoc_L (++)) in Heq. apply (inj (app _)) in Heq.
  destruct (read_frame_of_encoded R (frame_header k 0 (len p) (next_sequence w)) p (tail ++ rest))
    as (R1 & HR1 & ? & HcR1 & HqR1 & ?); [done|done|by constructor; simpl; lia|done|lia|done|lia|].
  simpl. rewrite HR1.
  destruct (IH w1 R1) as (R' & -> & ? & ?); [done|congruence|congruence|congruence|done| |].
  { rewrite HcR1, Htail. by rewrite <- (assoc_L (++)). }
  exists R'. rewrite Hn1. done.
Qed.
End stream.

(** Frames written by a [FrameWriter] are read back by a [FrameReader] one for
    one, in order, with the sequences 0, 1, 2, ..., over any transport that delivers
    the bytes, however it splits or interrupts them; the bytes after the last frame
    stay unread and both ends agree on the next sequence. *)
Theorem stream_round_trip {W} `{WriteLaws W} (w0 : W) ms w' r rest :
  write_frames (writer_new w0) ms = (w', Ok ()) → clean r →
  written w0 ++ content r = written (writer_inner w') ++ rest →
  ∃ R', read_frames (reader_new r) (length ms) = (R', Ok (numbered 0 ms)) ∧
    content (reader_inner R') = rest ∧ expected_sequence R' = next_sequence w'.
Proof. intros. by eapply (stream_round_trip_from ms (writer_new w0) w' (reader_new r)). Qed.

(** Two frames written to a vector, delivered in three pieces with an
    interruption, and one byte of a third frame behind them. *)
Lemma stream_round_trip_witness :
  let ms := [(MessageKind.Hello, bs "hi"); (MessageKind.Signal, [])] in
  let r := [Data (take 10 (to_bytes (frame_header MessageKind.Hello 0 2 0)));
            Failure (io_error_of Interrupted (Some 4%Z));
            Data (drop 10 (to_bytes (frame_header MessageKind.Hello 0 2 0)) ++ bs "h");
            Data (bs "i" ++ to_bytes (frame_header MessageKind.Signal 0 0 1) ++ bs "P")] in
  let w' := (write_frames (writer_new ([] : bytes)) ms).1 in
  write_frames (writer_new ([] : bytes)) ms = (w', Ok ()) ∧
  ∃ R', read_frames (reader_new r) 2 = (R', Ok (numbered 0 ms)) ∧
        content (reader_inner R') = bs "P" ∧ expected_sequence R' = next_sequence w'.
Proof.
  intros ms r w'. split; [vm_compute; reflexivity|].
  apply (stream_round_trip ([] : bytes) ms w' r (bs "P")).
  - vm_compute. reflexivity.
  - repeat constructor; discriminate.
  - vm_compute. reflexivity.
Defined.

Lemma read_loop_no_panic r section expected need received :
  (read_loop r section expected need received).2 ≠ Panic.
Proof.
  revert need received. induction r as [|[[|b a]|e] r IH]; intros need received; simpl;
    case_decide; try done; by case_decide.
Qed.

Lemma read_loop_length r section expected need received r' b :
  read_loop r section expected need received = (r', Ok b) → length b = length received + need.
Proof.
  revert need received. induction r as [|[[|c a]|e] r IH]; intros need received; simpl;
    (case_decide; [intros; simplify_eq; lia|]); try done; [|by case_decide; [intros ?%IH|]].
  case_decide; [intros Hb%IH; rewrite length_app in Hb; simpl in *; lia|].
  intros; simplify_eq. rewrite length_app, length_take. simpl in *. lia.
Qed.

Lemma from_bytes_no_panic b : from_bytes b ≠ Panic.
Proof.
  unfold from_bytes, ensure_payload_cap. repeat (case_decide; [done|]).
  pose proof (MessageKind.from_u16_no_panic (from_be (slice 8 2 b))).
  destruct (MessageKind.from_u16 _); simpl; [by repeat case_decide|done..].
Qed.

(** [read_frame] is exact on every transport, also one that fails: a frame is
    returned only with the expected sequence, the announced payload length and a
    payload within the reader's limit, and then the expected sequence moves by one;
    on any error it stays where it was; the limit never changes and nothing
    panics. *)
Theorem read_frame_exact R R' res :
  read_frame R = (R', res) →
  reader_maximum_payload R' = reader_maximum_payload R ∧ res ≠ Panic ∧
  match res with
  | Ok f => expected_sequence R' = (expected_sequence R + 1)%N ∧
            (expected_sequence R' < u64_bound)%N ∧
            sequence (header f) = expected_sequence R ∧
            payload_len (header f) = len (payload f) ∧
            (len (payload f) ≤ reader_maximum_payload R)%N
  | _ => expected_sequence R' = expected_sequence R
  end.
Proof.
  unfold read_frame, read_exact_classified. intros H.
  destruct (read_loop (reader_inner R) _ _ _ _) as [r1 hb] eqn:Hr1.
  pose proof (read_loop_no_panic (reader_inner R) Header HEADER_LEN (N.to_nat HEADER_LEN) []) as Hnp.
  rewrite Hr1 in Hnp; simpl in Hnp. destruct hb as [hb|e|]; [|simpl in H; by simplify_eq|done].
  simpl in H. pose proof (from_bytes_no_panic hb) as Hnp'.
  destruct (from_bytes hb) as [h|e|]; [|simpl in H; by simplify_eq|done]. simpl in H.
  destruct (ensure_payload_cap _ _) as [[]| |] eqn:Hcap; simpl in H;
    [|by simplify_eq|by unfold ensure_payload_cap in Hcap; case_decide].
  apply ensure_payload_cap_Ok in Hcap.
  destruct (ensure_sequence _ _) as [[]| |] eqn:Hseq; simpl in H;
    [|by simplify_eq|by unfold ensure_sequence in Hseq; case_decide].
  apply ensure_sequence_Ok in Hseq.
  destruct (checked_add _ _) as [next|] eqn:Hadd; simpl in H; [|by simplify_eq].
  apply checked_add_Some in Hadd as [-> Hb].
  destruct (read_loop r1 _ _ _ _) as [r2 p] eqn:Hr2.
  pose proof (read_loop_no_panic r1 Payload (payload_len h) (N.to_nat (payload_len h)) []) as Hnp2.
  rewrite Hr2 in Hnp2; simpl in Hnp2. destruct p as [p|e|]; simplify_eq; [|done..].
  apply read_loop_length in Hr2. simpl in *. unfold len. split_and!; try done; lia.
Qed.

Lemma read_frame_exact_witness :
  ∃ R' res, read_frame (reader_new [Data (bs "PKV")]) = (R', res) ∧ res ≠ Panic ∧
            expected_sequence R' = 0%N.
Proof.
  eexists _, _. split; [reflexivity|].
  pose proof (read_frame_exact (reader_new [Data (bs "PKV")]) _ _ ltac:(reflexivity)) as (_ & H1 & H2).
  split; [exact H1|exact H2].
Defined.

(** The writer's sequence moves only when a whole frame was written: it grows
    by one exactly when [write_frame] returns the sequence it used, stays put on
    every error, and a frame refused by a check (size or exhausted sequence) puts
    nothing on the transport. *)
Theorem write_frame_sequence {W} `{WriteLaws W} (w w' : FrameWriter W) k p res :
  write_frame w k p = (w', res) →
  match res with
  | Ok q => q = next_sequence w ∧ next_sequence w' = (q + 1)%N ∧ (q + 1 < u64_bound)%N ∧
            written (writer_inner w') =
              written (writer_inner w) ++ to_bytes (frame_header k 0 (len p) q) ++ p
  | Err (Io _) | Panic => next_sequence w' = next_sequence w
  | Err _ => w' = w
  end.
Proof.
  intros Heq. destruct res as [q|e|].
  - apply write_frame_Ok in Heq. naive_solver.
  - unfold write_frame in Heq. case_match eqn:Hk; [| |done].
    + case_match; subst. destruct (write_all (writer_inner w) _) as [w1 [[]|e1|]];
        [|simpl in Heq; by simplify_eq|done]. simpl in Heq.
      destruct (write_all w1 p) as [w2 [[]|e2|]]; simpl in Heq; by simplify_eq.
    + simplify_eq. by destruct e.
  - unfold write_frame in Heq. case_match eqn:Hk; [|by simplify_eq..].
    case_match; subst. destruct (write_all (writer_inner w) _) as [w1 [[]|e1|]];
      simpl in Heq; [|by simplify_eq..].
    destruct (write_all w1 p) as [w2 [[]|e2|]]; simpl in Heq; by simplify_eq.
Qed.

Lemma write_frame_sequence_witness :
  ∃ w', write_frame (frame_writer ([] : bytes) (u64_bound - 1) MAX_CONTROL_PAYLOAD) MessageKind.Exit (bs "x")
          = (w', Err SequenceExhausted) ∧
        w' = frame_writer [] (u64_bound - 1) MAX_CONTROL_PAYLOAD.
Proof.
  eexists. split; [reflexivity|].
  exact (write_frame_sequence (frame_writer ([] : bytes) (u64_bound - 1) MAX_CONTROL_PAYLOAD) _
           MessageKind.Exit (bs "x") (Err SequenceExhausted) ltac:(reflexivity)).
Defined.
