(* ===== verification/Payload.v ===== *)
(** * Field validators and payload codec: crates/pocket-protocol/src/message.rs

    The checks every message uses, [ValidateMessage] as a class, and
    [encode_payload]/[decode_payload].  The CBOR codec of each message type is
    generated by the minicbor derive macros, which are not part of the repository:
    it is the class [Cbor], an argument of every definition that uses it, and
    [CborLaws] is its documented behaviour. *)

From S2P Require Import Prelude RustStr ErrorCode ManagedPath ProtocolError Frame.

Definition MAX_ID_LENGTH : N := 128.
Definition MAX_FEATURE_COUNT : N := 64.
Definition MAX_ARG_COUNT : N := 256.
Definition MAX_ARG_LENGTH : N := 4096.
Definition MAX_ENV_COUNT : N := 256.
Definition MAX_ENV_LENGTH : N := 8192.
Definition MAX_PATH_LENGTH : N := 4096.
Definition MAX_SUPPLEMENTARY_GIDS : N := 64.
Definition MAX_RLIMIT_COUNT : N := 32.
Definition MAX_VOLUME_COUNT : N := 32.
Definition MAX_DIAGNOSTIC_LENGTH : N := 8192.
Definition MAX_SHUTDOWN_GRACE_MS : N := 600000.
Definition MAX_STDIN_BYTES : N := 16 * 1024 * 1024.
Definition MAX_EXTRA_CONSOLES : N := 8.

(** ** Field checks *)
Definition validate_count (field : string) (actual maximum : N) : result ProtocolError () :=
  if decide (maximum < actual)%N then Err (MessageLimitExceeded field actual maximum) else Ok ().

Definition validate_text (field : string) (value : bytes) (maximum : N) (empty_allowed : bool)
    : result ProtocolError () :=
  validate_count field (len value) maximum;;
  if decide (empty_allowed = false ∧ value = []) then invalid field "must not be empty" else
  if decide (x00 ∈ value) then invalid field "contains NUL" else
  Ok ().

(** [byte.is_ascii_alphanumeric() || matches!(byte, b'.' | b'_' | b'-')] *)
Definition is_token_byte (b : byte) : Prop :=
  is_ascii_alphanumeric b ∨ b = x2e ∨ b = x5f ∨ b = x2d.
#[export] Instance is_token_byte_dec b : Decision (is_token_byte b).
Proof. unfold is_token_byte. apply _. Defined.

Definition validate_token (field : string) (value : bytes) (maximum : N) : result ProtocolError () :=
  validate_text field value maximum false;;
  if decide (¬ Forall is_token_byte value) then invalid field "contains a non-token character" else
  Ok ().

Definition validate_sha256 (field : string) (value : bytes) : result ProtocolError () :=
  if decide (len value ≠ 64%N ∨ ¬ Forall is_lower_hex value)
  then invalid field "must be 64 lowercase hexadecimal characters" else Ok ().

Definition validate_environment (entry : bytes) : result ProtocolError () :=
  match split_once x3d entry with
  | None => invalid "env" "entry must contain '='"
  | Some (key, _) =>
      if decide (key = []) then invalid "env" "key must not be empty" else
      if decide (Exists (λ b, b = x3d ∨ b = x00) key) then invalid "env" "invalid key" else
      Ok ()
  end.

(** [segment.is_empty() || matches!(segment, "." | "..")], as in path.rs. *)
Definition validate_guest_path (field : string) (value : bytes) (root_allowed : bool)
    : result ProtocolError () :=
  validate_text field value MAX_PATH_LENGTH false;;
  if decide (¬ is_absolute value) then invalid field "must be absolute" else
  match strip_prefix (bs "/") value with
  | None => invalid field "must be absolute"
  | Some relative =>
      if decide (relative = []) then
        if root_allowed then Ok () else invalid field "filesystem root is not allowed here"
      else
      if decide (Exists ManagedUmlPath.bad_segment (split x2f relative))
      then invalid field "must use normalized lexical form" else
      Ok ()
  end.

Definition validate_signal (field : string) (signal : N) : result ProtocolError () :=
  if decide (¬ (1 ≤ signal ≤ 64)%N) then invalid field "must be in 1..=64" else Ok ().

(** ** Guest paths the runtime owns *)
Definition RESERVED_GUEST_PATHS : list bytes :=
  [bs "/dev"; bs "/etc/hostname"; bs "/etc/hosts"; bs "/etc/resolv.conf"; bs "/proc"; bs "/run"; bs "/sys"].

(** [outer.strip_prefix(inner).is_some_and(|rest| rest.starts_with('/'))] *)
Definition is_below (outer inner : bytes) : Prop :=
  match strip_prefix inner outer with Some rest => starts_with x2f rest | None => False end.
#[export] Instance is_below_dec outer inner : Decision (is_below outer inner).
Proof. unfold is_below. destruct (strip_prefix inner outer); apply _. Defined.

Definition reserved_guest_path_conflict (destination : bytes) : option bytes :=
  snd <$> list_find (λ reserved,
            destination = reserved ∨ is_below destination reserved ∨ is_below reserved destination)
          RESERVED_GUEST_PATHS.

(** ** [trait ValidateMessage] *)
Class ValidateMessage (T : Type) := validate : T → result ProtocolError ().

(** ** The CBOR codec of a message type (minicbor's derived [Encode] and
    [Decode]): [to_vec] with its error as text, and [decode] from the start of a
    buffer with the decoder's position after it. *)
Class Cbor (T : Type) := {
  cbor_to_vec : T → result bytes bytes;
  cbor_decode : bytes → result bytes (T * N);
}.

(** What minicbor documents: decoding what was encoded gives the value back and
    consumes it all; the position never passes the end of the buffer; neither
    panics. *)
Class CborLaws (T : Type) `{Cbor T} := {
  cbor_round_trip m p : cbor_to_vec m = Ok p → cbor_decode p = Ok (m, len p);
  cbor_position p m n : cbor_decode p = Ok (m, n) → (n ≤ len p)%N;
  cbor_to_vec_no_panic m : cbor_to_vec m ≠ Panic;
  cbor_decode_no_panic p : cbor_decode p ≠ Panic;
}.

Definition encode_payload {T} `{Cbor T} `{ValidateMessage T} (message : T)
    : result ProtocolError bytes :=
  validate message;;
  payload ← map_err CborMalformed (cbor_to_vec message);
  validate_count "payload" (len payload) MAX_CONTROL_PAYLOAD;;
  Ok payload.

Definition decode_payload {T} `{Cbor T} `{ValidateMessage T} (payload : bytes)
    : result ProtocolError T :=
  validate_count "payload" (len payload) MAX_CONTROL_PAYLOAD;;
  '(message, position) ← map_err CborMalformed (cbor_decode payload);
  if decide (position ≠ len payload) then Err (TrailingData (len payload - position)) else
  validate message;;
  canonical ← map_err CborMalformed (cbor_to_vec message);
  if decide (canonical ≠ payload) then Err CborNonCanonical else
  Ok message.

(** ** What the field checks accept *)
Definition text_ok (value : bytes) (maximum : N) (empty_allowed : bool) : Prop :=
  (len value ≤ maximum)%N ∧ (empty_allowed = false → value ≠ []) ∧ x00 ∉ value.
Definition token_ok (value : bytes) (maximum : N) : Prop :=
  (len value ≤ maximum)%N ∧ value ≠ [] ∧ Forall is_token_byte value.
Definition sha256_ok (value : bytes) : Prop := len value = 64%N ∧ Forall is_lower_hex value.
Definition environment_ok (entry : bytes) : Prop :=
  ∃ key value, entry = key ++ x3d :: value ∧ key ≠ [] ∧ (x3d ∉ key) ∧ x00 ∉ key.

(** An absolute path given by its components; no component is the root itself. *)
Definition path_of (segments : list bytes) : bytes := x2f :: join x2f segments.
Definition guest_path_ok (value : bytes) (root_allowed : bool) : Prop :=
  ∃ segments, value = path_of segments ∧ Forall ManagedUmlPath.normal_segment segments ∧
    (root_allowed = false → segments ≠ []) ∧ (len value ≤ MAX_PATH_LENGTH)%N ∧ x00 ∉ value.

Lemma validate_count_Ok f a m : validate_count f a m = Ok () ↔ (a ≤ m)%N.
Proof. unfold validate_count. rewrite guard_ok. naive_solver lia. Qed.

Lemma validate_text_Ok f v m e : validate_text f v m e = Ok () ↔ text_ok v m e.
Proof.
  unfold validate_text, text_ok, invalid.
  rewrite bind_unit_ok, validate_count_Ok, !guard_ok. destruct e; naive_solver.
Qed.

Lemma token_byte_nul : ¬ is_token_byte x00.
Proof. unfold is_token_byte, is_ascii_alphanumeric. simpl. naive_solver lia. Qed.

Lemma validate_token_Ok f v m : validate_token f v m = Ok () ↔ token_ok v m.
Proof.
  unfold validate_token, token_ok, invalid.
  rewrite bind_unit_ok, validate_text_Ok, guard_ok. unfold text_ok. split.
  - intros ((? & ? & ?) & ?%dec_stable & _). naive_solver.
  - intros (? & ? & Ht). split_and!; try done; [|tauto].
    intros Hin. rewrite Forall_forall in Ht. by apply token_byte_nul, Ht.
Qed.

Lemma validate_sha256_Ok f v : validate_sha256 f v = Ok () ↔ sha256_ok v.
Proof.
  unfold validate_sha256, sha256_ok, invalid. rewrite guard_ok. split.
  - intros [[?%dec_stable ?%dec_stable]%not_or_and _]. done.
  - intros [? ?]. split; [tauto|done].
Qed.

Lemma validate_signal_Ok f s : validate_signal f s = Ok () ↔ (1 ≤ s ≤ 64)%N.
Proof.
  unfold validate_signal, invalid. rewrite guard_ok. split; [|by intros; split; [tauto|]].
  by intros [?%dec_stable _].
Qed.

Lemma validate_environment_Ok e : validate_environment e = Ok () ↔ environment_ok e.
Proof.
  unfold validate_environment, environment_ok, invalid.
  destruct (split_once x3d e) as [[k v]|] eqn:Hs.
  - apply split_once_Some in Hs as [-> Hk]. rewrite !guard_ok, <- Forall_Exists_neg, Forall_forall. split.
    + intros (? & Hall & _). exists k, v. split_and!; [done..|]. intros Hin. naive_solver.
    + intros (k' & v' & Heq & Hne & Hk' & H0).
      assert (Some (k, v) = Some (k', v')) as [= <- <-].
      { rewrite <- (proj2 (split_once_Some x3d (k ++ x3d :: v) k v)) by done.
        by apply split_once_Some. }
      split_and!; [done| |done]. naive_solver.
  - apply split_once_None in Hs. split; [done|]. intros (k & v & -> & _). set_solver.
Qed.

Lemma normal_no_sep segments :
  Forall ManagedUmlPath.normal_segment segments → Forall (λ s, x2f ∉ s) segments.
Proof. intros H. by apply Forall_and in H as [_ ?]. Qed.

Lemma split_normal segments :
  segments ≠ [] → Forall ManagedUmlPath.normal_segment segments → split x2f (join x2f segments) = segments.
Proof. intros. apply split_join; [done|]. by apply normal_no_sep. Qed.

Lemma join_normal_nil segments :
  Forall ManagedUmlPath.normal_segment segments → join x2f segments = [] ↔ segments = [].
Proof.
  intros Hn. split; [|by intros ->]. intros Hj. destruct segments as [|s segs]; [done|].
  apply Forall_cons in Hn as [[Hb _] _]. destruct Hb. left.
  destruct segs; [done|]. by destruct s.
Qed.

Lemma validate_guest_path_Ok f v r : validate_guest_path f v r = Ok () ↔ guest_path_ok v r.
Proof.
  unfold validate_guest_path, guest_path_ok, invalid. rewrite bind_unit_ok, validate_text_Ok, guard_ok.
  unfold text_ok, path_of. split.
  - intros ((? & _ & ?) & _ & Hv). destruct (strip_prefix _ _) as [rel|] eqn:Hr; [|done].
    apply strip_prefix_Some in Hr as ->. case_decide as Hrel.
    + exists []. subst rel. destruct r; [|done]. split_and!; done.
    + apply guard_ok in Hv as [Hb _]. exists (split x2f rel).
      rewrite join_split. split_and!; try done; [by apply ManagedUmlPath.normal_segments_split|].
      intros _. apply split_not_nil.
  - intros (segs & -> & Hn & Hr & ? & ?). split_and!; try done.
    { intros Ha. by apply Ha. }
    simpl. case_decide as Hj.
    + apply join_normal_nil in Hj as ->; [|done]. destruct r; [done|]. by destruct Hr.
    + rewrite guard_ok, split_normal; [|by intros ->|done]. split; [|done].
      rewrite <- Forall_Exists_neg. by apply Forall_and in Hn as [? _].
Qed.

#[export] Hint Rewrite validate_count_Ok validate_text_Ok validate_token_Ok validate_sha256_Ok
  validate_signal_Ok validate_environment_Ok validate_guest_path_Ok : rust_ok.

(** ** Reserved guest paths *)
Lemma is_below_Some outer inner : is_below outer inner ↔ ∃ rest, outer = inner ++ x2f :: rest.
Proof.
  unfold is_below, starts_with. destruct (strip_prefix inner outer) as [r|] eqn:Hs.
  - apply strip_prefix_Some in Hs as ->. split.
    + destruct r as [|b r]; [done|]. intros [= ->]. by eexists.
    + intros [rest Heq]. apply (inj (app inner)) in Heq as ->. done.
  - split; [done|]. intros [rest ->].
    by rewrite (proj2 (strip_prefix_Some inner (inner ++ x2f :: rest) (x2f :: rest)) eq_refl) in Hs.
Qed.

Lemma path_below a b :
  a ≠ [] → b ≠ [] → Forall ManagedUmlPath.normal_segment a → Forall ManagedUmlPath.normal_segment b →
  path_of a = path_of b ∨ is_below (path_of a) (path_of b) ↔ b `prefix_of` a.
Proof.
  intros Ha Hb Hna Hnb. rewrite is_below_Some. unfold path_of. split.
  - intros [[= Heq]|[rest Heq]].
    + rewrite <- (split_normal a), <- (split_normal b) by done. by rewrite Heq.
    + simpl in Heq. injection Heq as Heq. exists (split x2f rest).
      rewrite <- (split_normal a), Heq, split_app, split_normal by done. done.
  - intros [c ->]. destruct c as [|s c]; [left; by rewrite app_nil_r|]. right.
    exists (join x2f (s :: c)). by rewrite join_app.
Qed.

(** The reserved paths by components. *)
Definition reserved_components : list (list bytes) :=
  [[bs "dev"]; [bs "etc"; bs "hostname"]; [bs "etc"; bs "hosts"]; [bs "etc"; bs "resolv.conf"];
   [bs "proc"]; [bs "run"]; [bs "sys"]].

Lemma reserved_components_paths : RESERVED_GUEST_PATHS = path_of <$> reserved_components.
Proof. reflexivity. Qed.

Lemma reserved_components_normal r :
  r ∈ reserved_components → r ≠ [] ∧ Forall ManagedUmlPath.normal_segment r.
Proof.
  revert r. apply Forall_forall. unfold ManagedUmlPath.normal_segment.
  apply (bool_decide_unpack _). vm_compute. exact I.
Qed.

Lemma reserved_conflict_None segments :
  segments ≠ [] → Forall ManagedUmlPath.normal_segment segments →
  reserved_guest_path_conflict (path_of segments) = None ↔
  ∀ r, r ∈ reserved_components → ¬ r `prefix_of` segments ∧ ¬ segments `prefix_of` r.
Proof.
  intros Hne Hn. unfold reserved_guest_path_conflict.
  rewrite fmap_None, list_find_None, reserved_components_paths, Forall_fmap, Forall_forall.
  assert (∀ r, r ∈ reserved_components →
    (¬ (path_of segments = path_of r ∨ is_below (path_of segments) (path_of r) ∨
        is_below (path_of r) (path_of segments))) ↔
    ¬ r `prefix_of` segments ∧ ¬ segments `prefix_of` r) as Hiff.
  { intros r Hr. destruct (reserved_components_normal r Hr).
    rewrite <- (path_below segments r), <- (path_below r segments) by done.
    assert (path_of r = path_of segments ↔ path_of segments = path_of r) by (split; congruence). tauto. }
  split; intros H r Hr; apply Hiff; auto; by apply H.
Qed.

(** A shared directory is refused exactly when it and a path the runtime owns
    are one above the other.  For a destination with components [segments] (not the
    root), [reserved_guest_path_conflict] finds nothing if and only if no reserved
    path is equal to it, above it or below it component-wise; a sibling whose name
    merely starts alike does not conflict. *)
Theorem reserved_conflict_component_wise segments :
  segments ≠ [] → Forall ManagedUmlPath.normal_segment segments →
  (reserved_guest_path_conflict (path_of segments) = None ↔
   ∀ r, r ∈ reserved_components → ¬ r `prefix_of` segments ∧ ¬ segments `prefix_of` r) ∧
  (∀ found, reserved_guest_path_conflict (path_of segments) = Some found →
     ∃ r, found = path_of r ∧ r ∈ reserved_components ∧
          (r `prefix_of` segments ∨ segments `prefix_of` r)).
Proof.
  intros Hne Hn. split; [by apply reserved_conflict_None|]. intros found Hf.
  unfold reserved_guest_path_conflict in Hf.
  apply fmap_Some in Hf as ([i r] & (Hi & Hr & _)%list_find_Some & ->).
  rewrite reserved_components_paths, list_lookup_fmap in Hi.
  apply fmap_Some in Hi as (c & Hc%list_elem_of_lookup_2 & ->). exists c.
  destruct (reserved_components_normal c Hc).
  rewrite <- (path_below segments c), <- (path_below c segments) by done. simpl in *. tauto.
Qed.

Lemma reserved_conflict_component_wise_witness :
  reserved_guest_path_conflict (path_of [bs "etc"; bs "hosts-extra"]) = None ↔
  ∀ r, r ∈ reserved_components →
    ¬ r `prefix_of` [bs "etc"; bs "hosts-extra"] ∧ ¬ [bs "etc"; bs "hosts-extra"] `prefix_of` r.
Proof.
  apply (reserved_conflict_component_wise [bs "etc"; bs "hosts-extra"]).
  - discriminate.
  - unfold ManagedUmlPath.normal_segment. apply (bool_decide_unpack _). vm_compute. exact I.
Defined.

(** ** Payloads *)
Section payload.
Context {T : Type} `{!Cbor T} `{!ValidateMessage T}.

Lemma encode_payload_Ok (m : T) p :
  encode_payload m = Ok p ↔
  validate m = Ok () ∧ cbor_to_vec m = Ok p ∧ (len p ≤ MAX_CONTROL_PAYLOAD)%N.
Proof.
  unfold encode_payload. rewrite bind_unit_ok, bind_ok. setoid_rewrite bind_unit_ok.
  setoid_rewrite validate_count_Ok. setoid_rewrite map_err_ok. naive_solver.
Qed.

Lemma decode_payload_Ok p (m : T) :
  decode_payload p = Ok m ↔
  (len p ≤ MAX_CONTROL_PAYLOAD)%N ∧ cbor_decode p = Ok (m, len p) ∧ validate m = Ok () ∧
  cbor_to_vec m = Ok p.
Proof.
  unfold decode_payload. rewrite bind_unit_ok, validate_count_Ok. split.
  - intros [Hl H]. ok_inv. case_match; subst. ok_inv. naive_solver.
  - intros (? & Hd & Hv & He). split; [done|]. rewrite Hd. rsimpl.
    rewrite decide_False by tauto. rewrite Hv. rsimpl. rewrite He. rsimpl.
    by rewrite decide_False by tauto.
Qed.

Lemma decode_encode_payload p (m : T) : decode_payload p = Ok m → encode_payload m = Ok p.
Proof. rewrite decode_payload_Ok, encode_payload_Ok. naive_solver. Qed.

Lemma encode_decode_payload `{!CborLaws T} p (m : T) :
  encode_payload m = Ok p → decode_payload p = Ok m.
Proof.
  rewrite decode_payload_Ok, encode_payload_Ok. intros (? & Hc & ?).
  split_and!; try done. by apply cbor_round_trip.
Qed.

Lemma payload_codec `{!CborLaws T} p (m : T) : decode_payload p = Ok m ↔ encode_payload m = Ok p.
Proof. split; [apply decode_encode_payload|apply encode_decode_payload]. Qed.

(** The same for a payload wrapped in a constructor. *)
Lemma fmap_codec_exact {U} `{!CborLaws T} (C : T → U) m p :
  C <$> decode_payload p = Ok m ↔ ∃ m', m = C m' ∧ encode_payload m' = Ok p.
Proof. rewrite fmap_ok. setoid_rewrite payload_codec. naive_solver. Qed.

Lemma decode_payload_validated p (m : T) : decode_payload p = Ok m → validate m = Ok ().
Proof. rewrite decode_payload_Ok. naive_solver. Qed.
End payload.

(** ** Codecs for evaluation: no value has an encoding, or just one has *)
Module SampleCodecs.
Definition no_codec (T : Type) : Cbor T :=
  {| cbor_to_vec _ := Err (bs "unsupported"); cbor_decode _ := Err (bs "unsupported") |}.

Lemma no_codec_laws (T : Type) : @CborLaws T (no_codec T).
Proof. by split. Qed.

Definition one_codec {T : Type} `{EqDecision T} (m0 : T) (p0 : bytes) : Cbor T := {|
  cbor_to_vec m := if decide (m = m0) then Ok p0 else Err (bs "unsupported");
  cbor_decode p := if decide (p0 `prefix_of` p) then Ok (m0, len p0) else Err (bs "unsupported");
|}.

Lemma one_codec_laws {T : Type} `{EqDecision T} (m0 : T) p0 : @CborLaws T (one_codec m0 p0).
Proof.
  split; simpl.
  - intros m p Hm. case_decide; simplify_eq. by rewrite decide_True.
  - intros p m n Hm. case_decide as Hp; simplify_eq. destruct Hp as [r ->]. rewrite len_app. lia.
  - intros m. by case_decide.
  - intros p. by case_decide.
Qed.
End SampleCodecs.
