(* ===== verification/Message.v ===== *)
(** * Workload messages: crates/pocket-protocol/src/message.rs

    Every message of the workload protocol with its validation, the sum of them and
    its dispatch over frame kinds. *)

From S2P Require Import Prelude RustStr ByteOrder ErrorCode ManagedPath ProtocolError Frame.
From S2P Require Import Payload.

Module Platform.
Record t : Set := platform { os : bytes; architecture : bytes; variant : option bytes }.
#[global] Instance eq_dec : EqDecision t.
Proof. solve_decision. Defined.

Definition validate (self : t) (field : string) : result ProtocolError () :=
  validate_token field (os self) 32;;
  validate_token field (architecture self) 32;;
  match variant self with
  | Some variant => validate_token field variant 32
  | None => Ok ()
  end.
End Platform.

Module ResourceLimit.
Record t : Set := resource_limit { resource : N; soft : N; hard : N }.
End ResourceLimit.

Module VolumeSpec.
Record t : Set := volume_spec { source : bytes; destination : bytes; read_only : bool }.
End VolumeSpec.

Module Hello.
Record t : Set := hello {
  guest_contract_id : bytes;
  init_build_id : bytes;
  kernel_build_id : bytes;
  host_elf_machine : N;
  guest_uts_machine : bytes;
  guest_page_size : N;
  cpu_state_hwcap_policy : bytes;
  features : list bytes;
  online_cpus : N;
  accepted_physmem_bytes : N;
  guest_capability_policy : bytes;
}.

#[global] Instance validate : ValidateMessage t := λ self,
  validate_sha256 "guest_contract_id" (guest_contract_id self);;
  validate_sha256 "init_build_id" (init_build_id self);;
  validate_sha256 "kernel_build_id" (kernel_build_id self);;
  if decide (¬ (host_elf_machine self = 62%N ∨ host_elf_machine self = 183%N))
  then invalid "host_elf_machine" "unsupported ELF machine" else
  if decide (¬ (guest_uts_machine self = bs "x86_64" ∨ guest_uts_machine self = bs "aarch64"))
  then invalid "guest_uts_machine" "unsupported guest machine" else
  if decide (¬ (4096 ≤ guest_page_size self ≤ 65536)%N ∨ ¬ is_power_of_two (guest_page_size self))
  then invalid "guest_page_size" "unsupported page size" else
  validate_token "cpu_state_hwcap_policy" (cpu_state_hwcap_policy self) MAX_ID_LENGTH;;
  validate_token "guest_capability_policy" (guest_capability_policy self) MAX_ID_LENGTH;;
  validate_count "features" (len (features self)) MAX_FEATURE_COUNT;;
  each_unique (λ feature, validate_token "features" feature 64) id
    (InvalidMessage "features" "duplicate feature") (features self);;
  if decide (¬ (1 ≤ online_cpus self ≤ 64)%N)
  then invalid "online_cpus" "must be in 1..=64" else
  if decide (accepted_physmem_bytes self = 0%N ∨
             ¬ is_multiple_of (accepted_physmem_bytes self) (guest_page_size self))
  then invalid "accepted_physmem_bytes" "must be nonzero and aligned to the guest page size" else
  Ok ().
End Hello.

Module Start.
Record t : Set := start {
  profile_id : bytes;
  profile_revision : bytes;
  generation_id : bytes;
  descriptor_platform : option Platform.t;
  config_platform : Platform.t;
  effective_platform : Platform.t;
  selector_policy : bytes;
  root_layout : bytes;
  filesystem_contract : bytes;
  argv : list bytes;
  env : list bytes;
  cwd : bytes;
  uid : N;
  gid : N;
  supplementary_gids : list N;
  umask : N;
  rlimits : list ResourceLimit.t;
  hostname : bytes;
  root_read_only : bool;
  volumes : list VolumeSpec.t;
  terminal : bool;
  network_mode : N;
  stop_signal : N;
  derivation_key : bytes;
  account_db_sha256 : bytes;
  stdin_bytes : N;
  privileged : bool;
  stdin_streaming : bool;
  terminal_rows : N;
  terminal_columns : N;
  extra_consoles : N;
}.

Definition validate_platform_agreement (start : t) : result ProtocolError () :=
  let config := config_platform start in
  let effective := effective_platform start in
  if decide (Platform.os config ≠ Platform.os effective ∨
             Platform.architecture config ≠ Platform.architecture effective)
  then invalid "platform" "OS or architecture fields disagree" else
  match descriptor_platform start with
  | Some descriptor =>
      if decide (Platform.os descriptor ≠ Platform.os config ∨
                 Platform.architecture descriptor ≠ Platform.architecture config)
      then invalid "platform" "OS or architecture fields disagree" else
      match Platform.variant descriptor, Platform.variant config with
      | Some descriptor_variant, Some config_variant =>
          if decide (descriptor_variant ≠ config_variant)
          then invalid "platform" "explicit variants disagree" else Ok ()
      | _, _ => Ok ()
      end
  | None => Ok ()
  end;;
  let selected_variant :=
    match descriptor_platform start ≫= Platform.variant with
    | Some v => Some v
    | None => Platform.variant config
    end in
  if decide (selected_variant ≠ Platform.variant effective)
  then invalid "effective_platform" "variant does not match raw fields" else
  Ok ().

(** The loop over [argv.iter().enumerate()]. *)
Definition argument_total (argv : list bytes) : result ProtocolError N :=
  fold_result (λ argument_bytes '(index, argument),
    validate_text "argv" argument MAX_ARG_LENGTH (bool_decide (index ≠ 0));;
    ok_or (checked_add argument_bytes (len argument))
          (MessageLimitExceeded "argv_total" usize_max MAX_CONTROL_PAYLOAD))
    0%N (imap pair argv).

(** The loop over [env]. *)
Definition environment_total (env : list bytes) : result ProtocolError N :=
  fold_result (λ environment_bytes entry,
    validate_text "env" entry MAX_ENV_LENGTH false;;
    validate_environment entry;;
    ok_or (checked_add environment_bytes (len entry))
          (MessageLimitExceeded "env_total" usize_max MAX_CONTROL_PAYLOAD))
    0%N env.

Definition check_limit (limit : ResourceLimit.t) : result ProtocolError () :=
  if decide (15 < ResourceLimit.resource limit)%N
  then invalid "rlimits" "resource number is unsupported" else
  if decide (ResourceLimit.hard limit < ResourceLimit.soft limit)%N
  then invalid "rlimits" "soft limit exceeds hard limit" else
  Ok ().

Definition check_volume (volume : VolumeSpec.t) : result ProtocolError () :=
  validate_guest_path "volume.source" (VolumeSpec.source volume) false;;
  validate_guest_path "volume.destination" (VolumeSpec.destination volume) false;;
  if decide (is_Some (reserved_guest_path_conflict (VolumeSpec.destination volume)))
  then invalid "volume.destination" "collides with a path the runtime mounts or generates" else
  Ok ().

(** [byte.is_ascii_alphanumeric() || matches!(byte, b'.' | b'-')] *)
Definition is_hostname_byte (b : byte) : Prop := is_ascii_alphanumeric b ∨ b = x2e ∨ b = x2d.
#[global] Instance is_hostname_byte_dec b : Decision (is_hostname_byte b).
Proof. unfold is_hostname_byte. apply _. Defined.

Definition check_terminal_size (self : t) : result ProtocolError () :=
  if terminal self then
    if decide (terminal_rows self = 0%N ∨ terminal_columns self = 0%N)
    then invalid "terminal_size" "rows and columns must be nonzero" else Ok ()
  else
    if decide (terminal_rows self ≠ 0%N ∨ terminal_columns self ≠ 0%N)
    then invalid "terminal_size" "a size is meaningful only for a terminal session" else Ok ().

Definition check_streaming (self : t) : result ProtocolError () :=
  if stdin_streaming self then
    if decide (terminal self = false)
    then invalid "stdin_streaming" "streamed input is defined only for a terminal session" else
    if decide (stdin_bytes self ≠ 0%N)
    then invalid "stdin_streaming" "streamed input declares no length, so stdin_bytes must be zero" else
    Ok ()
  else Ok ().

#[global] Instance validate : ValidateMessage t := λ self,
  validate_token "profile_id" (profile_id self) MAX_ID_LENGTH;;
  validate_sha256 "profile_revision" (profile_revision self);;
  validate_sha256 "generation_id" (generation_id self);;
  validate_sha256 "derivation_key" (derivation_key self);;
  validate_sha256 "account_db_sha256" (account_db_sha256 self);;
  match descriptor_platform self with
  | Some descriptor => Platform.validate descriptor "descriptor_platform"
  | None => Ok ()
  end;;
  Platform.validate (config_platform self) "config_platform";;
  Platform.validate (effective_platform self) "effective_platform";;
  validate_platform_agreement self;;
  validate_token "selector_policy" (selector_policy self) MAX_ID_LENGTH;;
  validate_token "root_layout" (root_layout self) MAX_ID_LENGTH;;
  validate_token "filesystem_contract" (filesystem_contract self) MAX_ID_LENGTH;;
  validate_count "argv" (len (argv self)) MAX_ARG_COUNT;;
  if decide (argv self = []) then invalid "argv" "final argv must not be empty" else
  argument_bytes ← argument_total (argv self);
  validate_count "argv_total" argument_bytes (MAX_CONTROL_PAYLOAD / 2);;
  validate_count "env" (len (env self)) MAX_ENV_COUNT;;
  environment_bytes ← environment_total (env self);
  validate_count "env_total" environment_bytes (MAX_CONTROL_PAYLOAD / 2);;
  validate_guest_path "cwd" (cwd self) true;;
  validate_count "supplementary_gids" (len (supplementary_gids self)) MAX_SUPPLEMENTARY_GIDS;;
  if decide (511 < umask self)%N then invalid "umask" "must fit Unix permission bits" else
  validate_count "rlimits" (len (rlimits self)) MAX_RLIMIT_COUNT;;
  each_unique check_limit ResourceLimit.resource
    (InvalidMessage "rlimits" "duplicate resource limit") (rlimits self);;
  validate_text "hostname" (hostname self) 64 false;;
  if decide (¬ Forall is_hostname_byte (hostname self))
  then invalid "hostname" "contains unsupported character" else
  validate_count "volumes" (len (volumes self)) MAX_VOLUME_COUNT;;
  each_unique check_volume VolumeSpec.destination
    (InvalidMessage "volumes" "duplicate destination") (volumes self);;
  if decide (1 < network_mode self)%N then invalid "network_mode" "must be none(0) or slirp(1)" else
  if decide (MAX_STDIN_BYTES < stdin_bytes self)%N
  then invalid "stdin_bytes" "exceeds the synchronous input cap" else
  check_terminal_size self;;
  if decide (MAX_EXTRA_CONSOLES < extra_consoles self)%N
  then invalid "extra_consoles" "exceeds the serial lines the guest kernel provides" else
  check_streaming self;;
  validate_signal "stop_signal" (stop_signal self).
End Start.

Module Ready.
Record t : Set := ready { guest_pid : N; effective_uid : N; effective_gid : N; cwd : bytes }.
#[global] Instance validate : ValidateMessage t := λ self,
  if decide (guest_pid self = 0%N) then invalid "guest_pid" "must be nonzero" else
  validate_guest_path "cwd" (cwd self) true.
End Ready.

Module Exit.
Record t : Set := exit {
  code : option N;
  signal : option N;
  elapsed_ns : N;
  filesystem_clean : bool;
}.
#[global] Instance validate : ValidateMessage t := λ self,
  match code self, signal self with
  | Some _, None => Ok ()
  | None, Some signal => validate_signal "signal" signal
  | _, _ => invalid "exit_status" "exactly one of code or signal is required"
  end.
End Exit.

Module ErrorMessage.
Record t : Set := error_message {
  stage : bytes;
  stable_code : N;
  errno : option Z;
  diagnostic : bytes;
}.

Definition new (stage : bytes) (stable_code : ErrorCode.t) (errno : option Z) (diagnostic : bytes) : t :=
  error_message stage (ErrorCode.as_u16 stable_code) errno diagnostic.

Definition code (self : t) : result ProtocolError ErrorCode.t :=
  map_err (λ _, InvalidMessage "stable_code" "unknown stable error code")
          (ErrorCode.from_u16 (stable_code self)).

#[global] Instance validate : ValidateMessage t := λ self,
  validate_token "stage" (stage self) 64;;
  _ ← code self;
  match errno self with
  | Some errno =>
      if decide (¬ (1 ≤ errno ≤ 4095)%Z) then invalid "errno" "must be a positive Linux errno" else Ok ()
  | None => Ok ()
  end;;
  validate_text "diagnostic" (diagnostic self) MAX_DIAGNOSTIC_LENGTH true.
End ErrorMessage.

Module Signal.
Record t : Set := signal_message { signal : N }.
#[global] Instance validate : ValidateMessage t := λ self, validate_signal "signal" (signal self).
End Signal.

Module Resize.
Record t : Set := resize { rows : N; columns : N }.
#[global] Instance validate : ValidateMessage t := λ self,
  if decide (rows self = 0%N ∨ columns self = 0%N)
  then invalid "terminal_size" "rows and columns must be nonzero" else
  if decide (16384 < rows self ∨ 16384 < columns self)%N
  then invalid "terminal_size" "rows or columns exceed hard cap" else
  Ok ().
End Resize.

Module Shutdown.
Record t : Set := shutdown { grace_ms : N }.
#[global] Instance validate : ValidateMessage t := λ self,
  if decide (grace_ms self = 0 ∨ MAX_SHUTDOWN_GRACE_MS < grace_ms self)%N
  then invalid "grace_ms" "must be in 1..=600000 milliseconds" else Ok ().
End Shutdown.

Module WorkloadMessage.
Inductive t : Set :=
  | Hello (message : Hello.t)
  | Start (message : Start.t)
  | Ready (message : Ready.t)
  | Exit (message : Exit.t)
  | Error (message : ErrorMessage.t)
  | Signal (message : Signal.t)
  | Resize (message : Resize.t)
  | Shutdown (message : Shutdown.t).

Definition kind (self : t) : MessageKind.t :=
  match self with
  | Hello _ => MessageKind.Hello
  | Start _ => MessageKind.Start
  | Ready _ => MessageKind.Ready
  | Exit _ => MessageKind.Exit
  | Error _ => MessageKind.Error
  | Signal _ => MessageKind.Signal
  | Resize _ => MessageKind.Resize
  | Shutdown _ => MessageKind.Shutdown
  end.

(** The codecs of the eight payload types. *)
Class Codecs := {
  hello_cbor :: Cbor Hello.t;
  start_cbor :: Cbor Start.t;
  ready_cbor :: Cbor Ready.t;
  exit_cbor :: Cbor Exit.t;
  error_cbor :: Cbor ErrorMessage.t;
  signal_cbor :: Cbor Signal.t;
  resize_cbor :: Cbor Resize.t;
  shutdown_cbor :: Cbor Shutdown.t;
}.

Class CodecsLaws `{Codecs} := {
  hello_laws :: CborLaws Hello.t;
  start_laws :: CborLaws Start.t;
  ready_laws :: CborLaws Ready.t;
  exit_laws :: CborLaws Exit.t;
  error_laws :: CborLaws ErrorMessage.t;
  signal_laws :: CborLaws Signal.t;
  resize_laws :: CborLaws Resize.t;
  shutdown_laws :: CborLaws Shutdown.t;
}.

Section codec.
Context `{Codecs}.

Definition encode_payload (self : t) : result ProtocolError bytes :=
  match self with
  | Hello message => Payload.encode_payload message
  | Start message => Payload.encode_payload message
  | Ready message => Payload.encode_payload message
  | Exit message => Payload.encode_payload message
  | Error message => Payload.encode_payload message
  | Signal message => Payload.encode_payload message
  | Resize message => Payload.encode_payload message
  | Shutdown message => Payload.encode_payload message
  end.

Definition decode_workload_message (frame : RawFrame) : result ProtocolError t :=
  let payload := payload frame in
  match Frame.kind (header frame) with
  | MessageKind.Hello => Hello <$> decode_payload payload
  | MessageKind.Start => Start <$> decode_payload payload
  | MessageKind.Ready => Ready <$> decode_payload payload
  | MessageKind.Exit => Exit <$> decode_payload payload
  | MessageKind.Error => Error <$> decode_payload payload
  | MessageKind.Signal => Signal <$> decode_payload payload
  | MessageKind.Resize => Resize <$> decode_payload payload
  | MessageKind.Shutdown => Shutdown <$> decode_payload payload
  | MessageKind.BuildHello | MessageKind.BuildStart | MessageKind.ManifestBegin
  | MessageKind.ManifestChunk | MessageKind.ManifestEnd | MessageKind.BuildDone
  | MessageKind.BuildError | MessageKind.AccountDb | MessageKind.ValidateHello
  | MessageKind.ValidateStart | MessageKind.ValidateDone | MessageKind.ValidateError =>
      invalid "kind" "non-workload message in workload protocol"
  end.
End codec.
End WorkloadMessage.

(** ** What the validators accept *)
Definition platform_ok (p : Platform.t) : Prop :=
  token_ok (Platform.os p) 32 ∧ token_ok (Platform.architecture p) 32 ∧
  from_option (λ v, token_ok v 32) True (Platform.variant p).

Lemma platform_validate_Ok p f : Platform.validate p f = Ok () ↔ platform_ok p.
Proof.
  unfold Platform.validate, platform_ok. autorewrite with rust_ok.
  destruct (Platform.variant p); simpl; autorewrite with rust_ok; tauto.
Qed.
#[export] Hint Rewrite platform_validate_Ok : rust_ok.

(** The platform a run gets: the configuration's, with the variant the image's
    descriptor declares when it declares one. *)
Definition selected_platform (descriptor : option Platform.t) (config : Platform.t) : Platform.t :=
  Platform.platform (Platform.os config) (Platform.architecture config)
    (match descriptor ≫= Platform.variant with Some v => Some v | None => Platform.variant config end).

(** A descriptor agrees with a configuration that says the same OS and
    architecture, and no other variant. *)
Definition descriptor_agrees (descriptor config : Platform.t) : Prop :=
  Platform.os descriptor = Platform.os config ∧
  Platform.architecture descriptor = Platform.architecture config ∧
  ∀ v w, Platform.variant descriptor = Some v → Platform.variant config = Some w → v = w.

Lemma platform_agreement_Ok s :
  Start.validate_platform_agreement s = Ok () ↔
  Start.effective_platform s = selected_platform (Start.descriptor_platform s) (Start.config_platform s) ∧
  ∀ d, Start.descriptor_platform s = Some d → descriptor_agrees d (Start.config_platform s).
Proof.
  unfold Start.validate_platform_agreement, selected_platform, descriptor_agrees.
  destruct (Start.effective_platform s) as [eo ea ev], (Start.config_platform s) as [co ca cv]; simpl.
  autorewrite with rust_ok.
  destruct (Start.descriptor_platform s) as [[d_os d_arch dv]|]; simpl; autorewrite with rust_ok.
  - destruct dv as [dv|], cv as [cv|]; autorewrite with rust_ok;
      split; intros H; destruct_and?; ok_inv; naive_solver.
  - split; intros H; destruct_and?; ok_inv; naive_solver.
Qed.
#[export] Hint Rewrite platform_agreement_Ok : rust_ok.

Lemma imap_pair_Forall {A} (P : nat → A → Prop) l :
  Forall (λ '(i, a), P i a) (imap pair l) ↔ ∀ i a, l !! i = Some a → P i a.
Proof.
  rewrite Forall_lookup. setoid_rewrite list_lookup_imap. split.
  - intros H i a Hi. apply (H i (i, a)). by rewrite Hi.
  - intros H i [j a] (b & Hb & [= <- <-])%fmap_Some. by apply H.
Qed.

Lemma sum_of_imap_pair (l : list bytes) : sum_of (λ ia, len ia.2) (imap pair l) = sum_of len l.
Proof.
  assert (∀ f : nat → nat, sum_of (λ ia, len ia.2) (imap (λ i a, (f i, a)) l) = sum_of len l) as H.
  { induction l as [|a l IH]; intros f; simpl; [done|]. f_equal. apply (IH (f ∘ S)). }
  apply (H id).
Qed.

(** The byte totals cannot overflow, because the counts and lengths are capped. *)
Lemma capped_sum_bound (l : list bytes) k m :
  Forall (λ a, len a ≤ m)%N l → (len l ≤ k)%N → (k * m < u64_bound)%N → (sum_of len l < u64_bound)%N.
Proof. intros ?%sum_of_le ? ?. nia. Qed.

(** Only the first argument must not be empty. *)
Definition argv_ok (argv : list bytes) : Prop :=
  (len argv ≤ MAX_ARG_COUNT)%N ∧ argv ≠ [] ∧ head argv ≠ Some [] ∧
  Forall (λ a, text_ok a MAX_ARG_LENGTH true) argv ∧
  (sum_of len argv ≤ MAX_CONTROL_PAYLOAD / 2)%N.

Lemma argument_total_Ok argv n :
  (len argv ≤ MAX_ARG_COUNT)%N →
  Start.argument_total argv = Ok n ↔
  n = sum_of len argv ∧ head argv ≠ Some [] ∧ Forall (λ a, text_ok a MAX_ARG_LENGTH true) argv.
Proof.
  intros Hl. unfold Start.argument_total.
  rewrite (fold_result_ext _ (λ acc ia,
      validate_text "argv" ia.2 MAX_ARG_LENGTH (bool_decide (ia.1 ≠ 0));;
      ok_or (checked_add acc (len ia.2))
        (MessageLimitExceeded "argv_total" usize_max MAX_CONTROL_PAYLOAD))) by (by intros ? []).
  rewrite fold_checked_sum, sum_of_imap_pair by done.
  assert (Forall (λ ia, validate_text "argv" ia.2 MAX_ARG_LENGTH (bool_decide (ia.1 ≠ 0)) = Ok ())
            (imap pair argv) ↔
          head argv ≠ Some [] ∧ Forall (λ a, text_ok a MAX_ARG_LENGTH true) argv) as ->.
  { setoid_rewrite validate_text_Ok. unfold text_ok. rewrite !Forall_lookup.
    setoid_rewrite list_lookup_imap. split.
    - intros H. split.
      + destruct argv as [|a argv]; [done|]. intros [= ->]. destruct (H 0 (0, [])) as (_ & Hne & _); [done|]. by apply Hne.
      + intros i a Hi. destruct (H i (i, a)) as (? & _ & ?); [by rewrite Hi|done].
    - intros [Hh H] i [j a] (b & Hb & [= <- <-])%fmap_Some. destruct (H _ _ Hb) as (? & _ & ?).
      split_and!; [done| |done]. simpl. intros Hz%bool_decide_eq_false%dec_stable ->.
      subst. by destruct argv; simplify_eq/=. }
  split; [naive_solver|]. intros (-> & ? & Ht). split_and!; try done.
  apply (capped_sum_bound _ MAX_ARG_COUNT MAX_ARG_LENGTH); [|done|done]. eapply Forall_impl; [exact Ht|]. by intros ? [? _].
Qed.

Definition env_ok (env : list bytes) : Prop :=
  (len env ≤ MAX_ENV_COUNT)%N ∧
  Forall (λ e, text_ok e MAX_ENV_LENGTH false ∧ environment_ok e) env ∧
  (sum_of len env ≤ MAX_CONTROL_PAYLOAD / 2)%N.

Lemma environment_total_Ok env n :
  (len env ≤ MAX_ENV_COUNT)%N →
  Start.environment_total env = Ok n ↔
  n = sum_of len env ∧ Forall (λ e, text_ok e MAX_ENV_LENGTH false ∧ environment_ok e) env.
Proof.
  intros Hl. unfold Start.environment_total.
  rewrite (fold_result_ext _ (λ acc entry,
      (validate_text "env" entry MAX_ENV_LENGTH false;; validate_environment entry);;
      ok_or (checked_add acc (len entry))
        (MessageLimitExceeded "env_total" usize_max MAX_CONTROL_PAYLOAD)))
    by (intros; by rewrite bind_assoc).
  rewrite fold_checked_sum by done. setoid_rewrite bind_unit_ok.
  setoid_rewrite validate_text_Ok. setoid_rewrite validate_environment_Ok.
  split; [naive_solver|]. intros (-> & Ht). split_and!; try done.
  apply (capped_sum_bound _ MAX_ENV_COUNT MAX_ENV_LENGTH); [|done|done]. eapply Forall_impl; [exact Ht|]. by intros ? [[? _] _].
Qed.

Definition rlimits_ok (rlimits : list ResourceLimit.t) : Prop :=
  (len rlimits ≤ MAX_RLIMIT_COUNT)%N ∧ NoDup (ResourceLimit.resource <$> rlimits) ∧
  Forall (λ l, ResourceLimit.resource l ≤ 15 ∧ ResourceLimit.soft l ≤ ResourceLimit.hard l)%N rlimits.

(** A shared directory's destination is a path of its own: not the root, and not
    above, below or equal to one the runtime mounts. *)
Definition destination_ok (destination : bytes) : Prop :=
  guest_path_ok destination false ∧ reserved_guest_path_conflict destination = None.

Definition volumes_ok (volumes : list VolumeSpec.t) : Prop :=
  (len volumes ≤ MAX_VOLUME_COUNT)%N ∧ NoDup (VolumeSpec.destination <$> volumes) ∧
  Forall (λ v, guest_path_ok (VolumeSpec.source v) false ∧ destination_ok (VolumeSpec.destination v)) volumes.

(** A terminal has a size, nothing else has; only a terminal streams its input,
    and then declares no length. *)
Definition terminal_ok (s : Start.t) : Prop :=
  (Start.terminal s = true → Start.terminal_rows s ≠ 0 ∧ Start.terminal_columns s ≠ 0)%N ∧
  (Start.terminal s = false → Start.terminal_rows s = 0 ∧ Start.terminal_columns s = 0)%N ∧
  (Start.stdin_streaming s = true → Start.terminal s = true ∧ Start.stdin_bytes s = 0%N).

Record start_ok (s : Start.t) : Prop := {
  ok_profile_id : token_ok (Start.profile_id s) MAX_ID_LENGTH;
  ok_digests : Forall sha256_ok [Start.profile_revision s; Start.generation_id s;
                                 Start.derivation_key s; Start.account_db_sha256 s];
  ok_descriptor : ∀ d, Start.descriptor_platform s = Some d →
    platform_ok d ∧ descriptor_agrees d (Start.config_platform s);
  ok_config : platform_ok (Start.config_platform s);
  ok_effective : Start.effective_platform s =
    selected_platform (Start.descriptor_platform s) (Start.config_platform s);
  ok_contracts : Forall (λ v, token_ok v MAX_ID_LENGTH)
    [Start.selector_policy s; Start.root_layout s; Start.filesystem_contract s];
  ok_argv : argv_ok (Start.argv s);
  ok_env : env_ok (Start.env s);
  ok_cwd : guest_path_ok (Start.cwd s) true;
  ok_gids : (len (Start.supplementary_gids s) ≤ MAX_SUPPLEMENTARY_GIDS)%N;
  ok_umask : (Start.umask s < 8^3)%N;
  ok_rlimits : rlimits_ok (Start.rlimits s);
  ok_hostname : text_ok (Start.hostname s) 64 false ∧ Forall Start.is_hostname_byte (Start.hostname s);
  ok_volumes : volumes_ok (Start.volumes s);
  ok_network : (Start.network_mode s ≤ 1)%N;
  ok_stdin : (Start.stdin_bytes s ≤ MAX_STDIN_BYTES)%N;
  ok_terminal : terminal_ok s;
  ok_consoles : (Start.extra_consoles s ≤ MAX_EXTRA_CONSOLES)%N;
  ok_signal : (1 ≤ Start.stop_signal s ≤ 64)%N;
}.

Lemma check_limit_Ok l :
  Start.check_limit l = Ok () ↔
  (ResourceLimit.resource l ≤ 15 ∧ ResourceLimit.soft l ≤ ResourceLimit.hard l)%N.
Proof. unfold Start.check_limit. autorewrite with rust_ok. rewrite !N.nlt_ge. naive_solver. Qed.

Lemma check_volume_Ok v :
  Start.check_volume v = Ok () ↔
  guest_path_ok (VolumeSpec.source v) false ∧ destination_ok (VolumeSpec.destination v).
Proof.
  unfold Start.check_volume, destination_ok. autorewrite with rust_ok.
  rewrite <- eq_None_not_Some. naive_solver.
Qed.

#[export] Hint Rewrite check_limit_Ok check_volume_Ok : rust_ok.

Lemma rlimits_checks l e :
  (len l ≤ MAX_RLIMIT_COUNT)%N ∧ each_unique Start.check_limit ResourceLimit.resource e l = Ok () ↔
  rlimits_ok l.
Proof. rewrite each_unique_Ok. unfold rlimits_ok. setoid_rewrite check_limit_Ok. tauto. Qed.

Lemma volumes_checks l e :
  (len l ≤ MAX_VOLUME_COUNT)%N ∧ each_unique Start.check_volume VolumeSpec.destination e l = Ok () ↔
  volumes_ok l.
Proof. rewrite each_unique_Ok. unfold volumes_ok. setoid_rewrite check_volume_Ok. tauto. Qed.

Lemma argv_checks s k :
  (len (Start.argv s) ≤ MAX_ARG_COUNT)%N ∧
  Start.argv s ≠ [] ∧ (argument_bytes ← Start.argument_total (Start.argv s);
    validate_count "argv_total" argument_bytes (MAX_CONTROL_PAYLOAD / 2);; k) = Ok () ↔
  argv_ok (Start.argv s) ∧ k = Ok ().
Proof.
  rewrite bind_ok. unfold argv_ok. split.
  - intros (? & ? & n & (-> & ? & ?)%argument_total_Ok & Hk); [|done].
    autorewrite with rust_ok in Hk. tauto.
  - intros [(? & ? & ? & ? & ?) ?]. split_and!; [done..|]. eexists.
    rewrite argument_total_Ok by done. split; [done|]. by autorewrite with rust_ok.
Qed.

Lemma env_checks s k :
  (len (Start.env s) ≤ MAX_ENV_COUNT)%N ∧
  (environment_bytes ← Start.environment_total (Start.env s);
    validate_count "env_total" environment_bytes (MAX_CONTROL_PAYLOAD / 2);; k) = Ok () ↔
  env_ok (Start.env s) ∧ k = Ok ().
Proof.
  rewrite bind_ok. unfold env_ok. split.
  - intros (? & n & (-> & ?)%environment_total_Ok & Hk); [|done].
    autorewrite with rust_ok in Hk. tauto.
  - intros [(? & ? & ?) ?]. split_and!; [done..|]. eexists.
    rewrite environment_total_Ok by done. split; [done|]. by autorewrite with rust_ok.
Qed.

Lemma terminal_checks s :
  Start.check_terminal_size s = Ok () ∧ Start.check_streaming s = Ok () ↔ terminal_ok s.
Proof.
  unfold Start.check_terminal_size, Start.check_streaming, terminal_ok.
  destruct (Start.terminal s), (Start.stdin_streaming s); autorewrite with rust_ok;
    split; intros; destruct_and?; ok_inv; naive_solver lia.
Qed.

Lemma descriptor_checks s :
  match Start.descriptor_platform s with
  | Some descriptor => Platform.validate descriptor "descriptor_platform"
  | None => Ok ()
  end = Ok () ↔ ∀ d, Start.descriptor_platform s = Some d → platform_ok d.
Proof.
  destruct (Start.descriptor_platform s); autorewrite with rust_ok; naive_solver.
Qed.

Lemma selected_platform_ok d c :
  (∀ d', d = Some d' → platform_ok d') → platform_ok c → platform_ok (selected_platform d c).
Proof.
  unfold platform_ok, selected_platform. intros Hd (? & ? & ?). simpl. split_and!; [done..|].
  destruct d as [[? ? [v|]]|]; simpl; [|done..]. by destruct (Hd _ eq_refl) as (_ & _ & ?).
Qed.

Lemma start_validate_Ok s : validate s = Ok () ↔ start_ok s.
Proof.
  unfold validate, Start.validate. autorewrite with rust_ok.
  rewrite argv_checks. autorewrite with rust_ok. rewrite env_checks. autorewrite with rust_ok.
  rewrite descriptor_checks, !N.nlt_ge. split.
  - intros (? & ? & ? & ? & ? & Hd & ? & _ & [? Ha] & ? & ? & ? & ? & ? & ? & ? & ? & ? & ? & ? &
      ?%dec_stable & ? & ? & ? & ? & ? & ? & ? & ?).
    constructor; rewrite ?Forall_cons, ?Forall_nil; try done.
    + intros d Hs. split; [by apply Hd|by apply Ha].
    + by apply (N.lt_succ_r _ 511).
    + by eapply rlimits_checks.
    + by eapply volumes_checks.
    + by apply terminal_checks.
  - intros [? Hs Hd ? He Hc ? ? ? ? Hu Hr [? ?] Hv ? ? Ht ? ?].
    apply Forall_cons in Hs as [? [? [? [? _]%Forall_cons]%Forall_cons]%Forall_cons].
    apply Forall_cons in Hc as [? [? [? _]%Forall_cons]%Forall_cons].
    apply (N.lt_succ_r _ 511) in Hu. apply terminal_checks in Ht as [? ?].
    apply (rlimits_checks _ (InvalidMessage "rlimits" "duplicate resource limit")) in Hr as [? ?].
    apply (volumes_checks _ (InvalidMessage "volumes" "duplicate destination")) in Hv as [? ?].
    split_and!; try done; try lia.
    + intros d Hs. by apply Hd.
    + rewrite He. apply selected_platform_ok; [|done]. intros d Hs. by apply Hd.
    + intros d Hs. by apply Hd.
    + by intros [].
Qed.

(** [Start::validate] accepts exactly the well-formed run requests.  The
    effective platform is determined by the other two; the argument and environment
    totals are the plain sums, so the overflow error of the loops never occurs; no
    shared directory collides with a path the runtime owns, and only a terminal
    has a size or streams its input. *)
Theorem start_validate_exact s : validate s = Ok () ↔ start_ok s.
Proof. apply start_validate_Ok. Qed.

Record hello_ok (h : Hello.t) : Prop := {
  ok_builds : Forall sha256_ok [Hello.guest_contract_id h; Hello.init_build_id h; Hello.kernel_build_id h];
  ok_elf : Hello.host_elf_machine h ∈ [62; 183]%N;
  ok_uts : Hello.guest_uts_machine h ∈ [bs "x86_64"; bs "aarch64"];
  ok_page : ∃ k, (12 ≤ k ≤ 16)%N ∧ Hello.guest_page_size h = (2 ^ k)%N;
  ok_policies : Forall (λ v, token_ok v MAX_ID_LENGTH)
    [Hello.cpu_state_hwcap_policy h; Hello.guest_capability_policy h];
  ok_features : (len (Hello.features h) ≤ MAX_FEATURE_COUNT)%N ∧ NoDup (Hello.features h) ∧
    Forall (λ f, token_ok f 64) (Hello.features h);
  ok_cpus : (1 ≤ Hello.online_cpus h ≤ 64)%N;
  ok_memory : (0 < Hello.accepted_physmem_bytes h)%N ∧
    (Hello.guest_page_size h | Hello.accepted_physmem_bytes h)%N;
}.

(** The page sizes the protocol admits are 4 KiB to 64 KiB. *)
Lemma page_size_checks n :
  (4096 ≤ n ≤ 65536)%N ∧ is_power_of_two n ↔ ∃ k, (12 ≤ k ≤ 16)%N ∧ n = (2 ^ k)%N.
Proof.
  unfold is_power_of_two. split.
  - intros [[Hl Hu] Hp]. exists (N.log2 n). split; [|done]. split.
    + apply (N.log2_le_mono (2^12)) in Hl. by rewrite N.log2_pow2 in Hl by lia.
    + apply (N.log2_le_mono _ (2^16)) in Hu. by rewrite N.log2_pow2 in Hu by lia.
  - intros (k & [Hl Hu] & ->). rewrite N.log2_pow2 by lia. split; [|done]. split.
    + by apply (N.pow_le_mono_r 2 12 k).
    + by apply (N.pow_le_mono_r 2 k 16).
Qed.

(** [Hello::validate] accepts exactly the well-formed guest announcements: the
    page size is a power of two from 4 KiB to 64 KiB, the memory a positive multiple
    of it, the features are distinct tokens and every digest is one. *)
Theorem hello_validate_exact h : validate h = Ok () ↔ hello_ok h.
Proof.
  unfold validate, Hello.validate. autorewrite with rust_ok.
  rewrite each_unique_Ok, list_fmap_id. setoid_rewrite validate_token_Ok. split.
  - intros (? & ? & ? & ?%dec_stable & ?%dec_stable &
      [?%dec_stable ?%dec_stable]%not_or_and & ? & ? & ? & [? ?] &
      ?%dec_stable & [? Hm]%not_or_and & _). apply dec_stable in Hm.
    assert (∃ k, (12 ≤ k ≤ 16)%N ∧ Hello.guest_page_size h = (2 ^ k)%N) by by apply page_size_checks.
    constructor; rewrite ?Forall_cons, ?Forall_nil; try done; [set_solver..|].
    split; [lia|]. apply is_multiple_of_divide; [lia|done].
  - intros [Hs ? ? [? ?]%page_size_checks Hp (? & ? & ?) ? [? Hd]].
    apply Forall_cons in Hs as [? [? [? _]%Forall_cons]%Forall_cons].
    apply Forall_cons in Hp as [? [? _]%Forall_cons].
    rewrite <- is_multiple_of_divide in Hd by lia.
    split_and!; try done; try tauto; try lia.
    + intros Hn. apply Hn. set_solver.
    + intros Hn. apply Hn. set_solver.
    + intros [?|Hn]; [lia|]. by apply Hn.
Qed.

(** ** Encoding and decoding the messages *)
#[export] Existing Instances WorkloadMessage.hello_cbor WorkloadMessage.start_cbor
  WorkloadMessage.ready_cbor WorkloadMessage.exit_cbor WorkloadMessage.error_cbor
  WorkloadMessage.signal_cbor WorkloadMessage.resize_cbor WorkloadMessage.shutdown_cbor
  WorkloadMessage.hello_laws WorkloadMessage.start_laws WorkloadMessage.ready_laws
  WorkloadMessage.exit_laws WorkloadMessage.error_laws WorkloadMessage.signal_laws
  WorkloadMessage.resize_laws WorkloadMessage.shutdown_laws.

Lemma workload_codec `{!WorkloadMessage.Codecs} `{!WorkloadMessage.CodecsLaws} m f :
  WorkloadMessage.decode_workload_message f = Ok m ↔
  kind (header f) = WorkloadMessage.kind m ∧ WorkloadMessage.encode_payload m = Ok (payload f).
Proof.
  unfold WorkloadMessage.decode_workload_message, invalid.
  destruct (kind (header f)); rewrite ?fmap_codec_exact, ?err_ok; split;
    first [intros (m' & -> & ?); by split | destruct m; intros [? ?]; first [done | by eexists] | done].
Qed.

(** ** A concrete codec

    [Signal] in CBOR as the derive macro lays it out: a map of one entry, key 0,
    and an unsigned integer.  The decoder also reads the longer forms of a small
    integer, as CBOR allows; the other messages are left without an encoding. *)
Module SampleCodec.
Import SampleCodecs.

Definition uint_to_vec (n : N) : result bytes bytes :=
  if decide (n < 24)%N then Ok [byte_of_N n] else
  if decide (n < 256)%N then Ok [x18; byte_of_N n] else
  if decide (n < u16_bound)%N then Ok (x19 :: to_be 2 n) else Err (bs "out of range").

Definition uint_decode (b : bytes) : option (N * N) :=
  match b with
  | x18 :: v :: _ => Some (code v, 2%N)
  | x19 :: v :: w :: _ => Some (from_be [v; w], 3%N)
  | v :: _ => if decide (code v < 24)%N then Some (code v, 1%N) else None
  | [] => None
  end.

#[export] Instance signal_codec : Cbor Signal.t := {|
  cbor_to_vec m := (λ b, xa1 :: x00 :: b) <$> uint_to_vec (Signal.signal m);
  cbor_decode b :=
    match b with
    | xa1 :: x00 :: b =>
        match uint_decode b with
        | Some (n, used) => Ok (Signal.signal_message n, 2 + used)%N
        | None => Err (bs "integer expected")
        end
    | _ => Err (bs "map of one entry expected")
    end;
|}.

#[export] Instance codecs : WorkloadMessage.Codecs := {|
  WorkloadMessage.hello_cbor := no_codec _;
  WorkloadMessage.start_cbor := no_codec _;
  WorkloadMessage.ready_cbor := no_codec _;
  WorkloadMessage.exit_cbor := no_codec _;
  WorkloadMessage.error_cbor := no_codec _;
  WorkloadMessage.signal_cbor := signal_codec;
  WorkloadMessage.resize_cbor := no_codec _;
  WorkloadMessage.shutdown_cbor := no_codec _;
|}.

Lemma small_uint_decode n : (n < 24)%N → uint_decode [byte_of_N n] = Some (n, 1%N).
Proof.
  intros Hn. assert (code (byte_of_N n) = n) as Hc by (rewrite code_byte_of_N; by apply N.mod_small; lia).
  revert Hc. generalize (byte_of_N n). intros b <-. revert b Hn.
  by_bytes.
Qed.

Lemma uint_round_trip n b : uint_to_vec n = Ok b → uint_decode b = Some (n, len b).
Proof.
  unfold uint_to_vec. intros H. case_decide as Hs; [injection H as <-; by apply small_uint_decode|].
  case_decide; [|case_decide; [|done]]; injection H as <-.
  - simpl. rewrite code_byte_of_N, N.mod_small by done. done.
  - change (to_be 2 n) with ([byte_of_N (n / 256); byte_of_N n]). simpl.
    change [byte_of_N (n / 256); byte_of_N n] with (to_be 2 n). by rewrite from_to_be.
Qed.

Lemma uint_decode_length b n used : uint_decode b = Some (n, used) → (used ≤ len b)%N.
Proof.
  unfold uint_decode. intros H. repeat case_match; simplify_eq; autorewrite with len; lia.
Qed.

#[export] Instance signal_codec_laws : CborLaws Signal.t.
Proof.
  split; simpl.
  - intros [n] p (b & Hb & ->)%fmap_ok. simpl. rewrite (uint_round_trip _ _ Hb).
    by rewrite !len_cons, N.add_assoc.
  - intros p m n H. repeat case_match; simplify_eq.
    rename select (uint_decode _ = _) into Hu. apply uint_decode_length in Hu. rewrite !len_cons. lia.
  - intros [n]. simpl. unfold uint_to_vec. by repeat case_decide.
  - intros p H. by repeat case_match.
Qed.

#[export] Instance codecs_laws : WorkloadMessage.CodecsLaws.
Proof. split; first [apply no_codec_laws | apply signal_codec_laws]. Qed.
Lemma workload_codec_sample :
  let frame k p := raw_frame (frame_header k 0 (len p) 0) p in
  WorkloadMessage.decode_workload_message (frame MessageKind.Signal [xa1; x00; x0f]) =
    Ok (WorkloadMessage.Signal (Signal.signal_message 15)) ∧
  WorkloadMessage.decode_workload_message (frame MessageKind.Signal [xa1; x00; x18; x0f]) =
    Err CborNonCanonical ∧
  WorkloadMessage.decode_workload_message (frame MessageKind.Signal [xa1; x00; x0f; x00]) =
    Err (TrailingData 1).
Proof.
  split; [|split; by vm_compute].
  apply (@workload_codec SampleCodec.codecs SampleCodec.codecs_laws). by vm_compute.
Defined.
End SampleCodec.
