(* ===== verification/Session.v ===== *)
(** * Protocol sessions: what the three session types promise

    [Direction] of crates/pocket-protocol/src/state.rs and the interface the
    workload, builder and validator sessions share: [new], [next_sequence] and
    [accept].  The theorems here are proved from the laws alone; each session
    discharges them in its own file. *)

From S2P Require Import Prelude ProtocolError Frame.

Module Direction.
Inductive t : Set := HostToGuest | GuestToHost.
#[global] Instance eq_dec : EqDecision t.
Proof. solve_decision. Defined.

Definition as_str (self : t) : string :=
  match self with
  | HostToGuest => "host-to-guest"
  | GuestToHost => "guest-to-host"
  end.
End Direction.

(** [accept] takes [&mut self]: it returns the session as it leaves it, also when
    it fails. *)
Class Session (S M : Type) := {
  session_new : S;
  session_next_sequence : S → Direction.t → N;
  session_accept : S → Direction.t → M → N → S * result ProtocolError ();
}.

Class SessionLaws (S M : Type) `{Session S M} := {
  new_sequence d : session_next_sequence session_new d = 0%N;
  accept_failed s d m n s' r :
    session_accept s d m n = (s', r) → r ≠ Ok () → s' = s;
  accept_wrong_sequence s d m n :
    n ≠ session_next_sequence s d →
    session_accept s d m n = (s, Err (SequenceMismatch (session_next_sequence s d) n));
  accept_next s d m n s' :
    session_accept s d m n = (s', Ok ()) →
    (n + 1 < u64_bound)%N ∧ session_next_sequence s' d = (n + 1)%N ∧
    ∀ d', d' ≠ d → session_next_sequence s' d' = session_next_sequence s d';
}.

Section session.
Context {S M : Type} `{!Session S M}.

(** One attempt to hand a message to the session: direction, message, frame
    sequence. *)
Abbreviation attempt := (Direction.t * M * N)%type.

(** Hands over each message in turn, going on after a refusal, and keeps the
    accepted ones. *)
Fixpoint drive (s : S) (attempts : list attempt) : S * list attempt :=
  match attempts with
  | [] => (s, [])
  | (d, m, n) :: attempts =>
      match session_accept s d m n with
      | (s', Ok ()) => let '(s'', accepted) := drive s' attempts in (s'', (d, m, n) :: accepted)
      | (s', _) => drive s' attempts
      end
  end.

(** Hands over messages that are all accepted. *)
Fixpoint accept_all (s : S) (attempts : list attempt) : option S :=
  match attempts with
  | [] => Some s
  | (d, m, n) :: attempts =>
      match session_accept s d m n with
      | (s', Ok ()) => accept_all s' attempts
      | _ => None
      end
  end.

(** Numbers messages from [h] (host to guest) and [g] (guest to host). *)
Fixpoint number (h g : N) (l : list (Direction.t * M)) : list attempt :=
  match l with
  | [] => []
  | (Direction.HostToGuest, m) :: l => (Direction.HostToGuest, m, h) :: number (h + 1) g l
  | (Direction.GuestToHost, m) :: l => (Direction.GuestToHost, m, g) :: number h (g + 1) l
  end.

(** The sequence numbers of one direction. *)
Definition sequences (d : Direction.t) (l : list attempt) : list N :=
  snd <$> filter (λ a, a.1.1 = d) l.

(** [n], [n + 1], ..., [k] numbers. *)
Definition count_from (n : N) (k : nat) : list N := (λ i, n + N.of_nat i)%N <$> seq 0 k.

Lemma count_from_S n k : count_from n (Datatypes.S k) = n :: count_from (n + 1) k.
Proof.
  unfold count_from. simpl. rewrite N.add_0_r. f_equal. rewrite <- fmap_S_seq, <- list_fmap_compose.
  apply list_fmap_ext. intros _ i _. simpl. lia.
Qed.

Context `{!SessionLaws S M}.

Lemma accept_sequence s d m n s' :
  session_accept s d m n = (s', Ok ()) → n = session_next_sequence s d.
Proof.
  intros H. destruct (decide (n = session_next_sequence s d)) as [|Hn]; [done|].
  rewrite (accept_wrong_sequence s d m n Hn) in H. congruence.
Qed.

Lemma accept_all_cons s d m n l s' :
  accept_all s ((d, m, n) :: l) = Some s' ↔
  ∃ s1, session_accept s d m n = (s1, Ok ()) ∧ accept_all s1 l = Some s'.
Proof. simpl. destruct (session_accept s d m n) as [s1 [[]| |]]; naive_solver. Qed.

(** Accepted messages carry the numbers [number] gives them. *)
Lemma accept_all_numbered s l s' :
  accept_all s l = Some s' →
  l = number (session_next_sequence s Direction.HostToGuest)
             (session_next_sequence s Direction.GuestToHost) (fst <$> l).
Proof.
  revert s; induction l as [|[[d m] n] l IH]; intros s; [done|].
  rewrite accept_all_cons. intros (s1 & Ha & Hl). apply IH in Hl.
  pose proof (accept_sequence _ _ _ _ _ Ha) as ->.
  apply accept_next in Ha as (_ & Hs & Ho).
  destruct d; simpl; f_equal; rewrite Hl at 1; rewrite Hs, Ho by done; done.
Qed.

Lemma drive_sequences s attempts s' accepted d :
  drive s attempts = (s', accepted) →
  sequences d accepted = count_from (session_next_sequence s d) (length (sequences d accepted)) ∧
  session_next_sequence s' d = (session_next_sequence s d + len (sequences d accepted))%N.
Proof.
  revert s accepted; induction attempts as [|[[d' m] n] attempts IH]; intros s accepted; simpl.
  { intros [= <- <-]. split; [done|]. unfold len. simpl. lia. }
  destruct (session_accept s d' m n) as [s1 r] eqn:Ha.
  assert (r = Ok () ∨ r ≠ Ok ()) as [->|Hr] by (destruct r as [[]| |]; auto).
  - destruct (drive s1 attempts) as [s2 acc] eqn:Hd. intros [= <- <-].
    destruct (IH _ _ Hd) as [IH1 IH2]. pose proof (accept_sequence _ _ _ _ _ Ha) as Hn.
    apply accept_next in Ha as (_ & Hsame & Hother).
    unfold sequences in *. rewrite filter_cons; simpl. case_decide as Hdd; subst.
    + rewrite fmap_cons, len_cons. simpl length. rewrite count_from_S. simpl.
      rewrite Hsame in IH1, IH2. split; [by f_equal|lia].
    + by rewrite Hother in IH1, IH2 by congruence.
  - assert (s1 = s) as -> by by eapply accept_failed.
    intros Hd. apply IH. by destruct r as [[]| |].
Qed.
Lemma drive_accept_all s attempts s' accepted :
  drive s attempts = (s', accepted) → accept_all s accepted = Some s'.
Proof.
  revert s accepted; induction attempts as [|[[d m] n] attempts IH]; intros s accepted; simpl.
  { by intros [= <- <-]. }
  destruct (session_accept s d m n) as [s1 r] eqn:Ha.
  assert (r = Ok () ∨ r ≠ Ok ()) as [->|Hr] by (destruct r as [[]| |]; auto).
  - destruct (drive s1 attempts) as [s2 acc] eqn:Hd. intros [= <- <-]. simpl. rewrite Ha. by apply IH.
  - assert (s1 = s) as -> by by eapply accept_failed. destruct r as [[]| |]; [done|apply IH..].
Qed.

Lemma drive_in_sequence attempts s accepted :
  drive session_new attempts = (s, accepted) →
  accept_all session_new accepted = Some s ∧
  ∀ d, sequences d accepted = count_from 0 (length (sequences d accepted)).
Proof.
  intros Hd. split; [by eapply drive_accept_all|]. intros d.
  destruct (drive_sequences _ _ _ _ d Hd) as [Hs _]. by rewrite new_sequence in Hs.
Qed.

(** What every accepted message preserves holds of a session however it was
    driven: a refused message changes nothing. *)
Lemma drive_invariant (P : S → Prop) s attempts :
  P s → (∀ s d m n s', P s → session_accept s d m n = (s', Ok ()) → P s') → P (drive s attempts).1.
Proof.
  intros Hs Hstep. revert s Hs; induction attempts as [|[[d m] n] attempts IH]; intros s Hs; [done|]. simpl.
  destruct (session_accept s d m n) as [s1 r] eqn:Ha.
  assert (r = Ok () ∨ r ≠ Ok ()) as [->|Hr] by (destruct r as [[]| |]; auto).
  - assert (P s1) as Hs1 by by eapply Hstep. specialize (IH s1 Hs1). by destruct (drive s1 attempts).
  - assert (s1 = s) as -> by by eapply accept_failed. destruct r as [[]| |]; [done|by apply IH..].
Qed.
End session.
