(* ===== verification/WorkloadSession.v ===== *)
(** * The workload session: crates/pocket-protocol/src/state.rs

    [WorkloadSession::accept] is refined by a step relation on lifecycle states;
    the traces of that relation are the workload protocol's language. *)

From S2P Require Import Prelude ProtocolError Frame Session.

Module WorkloadState.
Inductive t : Set :=
  | AwaitHello | AwaitStart | AwaitReady | Running | ShuttingDown | Exited | Failed.
#[global] Instance eq_dec : EqDecision t.
Proof. solve_decision. Defined.

Definition as_str (self : t) : string :=
  match self with
  | AwaitHello => "await-hello"
  | AwaitStart => "await-start"
  | AwaitReady => "await-ready"
  | Running => "running"
  | ShuttingDown => "shutting-down"
  | Exited => "exited"
  | Failed => "failed"
  end.

Definition is_terminal (self : t) : bool :=
  match self with Exited | Failed => true | _ => false end.
End WorkloadState.

Module WorkloadSession.
Record t : Set := workload_session {
  state : WorkloadState.t;
  next_host_sequence : N;
  next_guest_sequence : N;
}.

Definition new : t := workload_session WorkloadState.AwaitHello 0 0.

Definition next_sequence (self : t) (direction : Direction.t) : N :=
  match direction with
  | Direction.HostToGuest => next_host_sequence self
  | Direction.GuestToHost => next_guest_sequence self
  end.

(** The [match] of [accept] over state, direction and kind. *)
Definition transition (state : WorkloadState.t) (direction : Direction.t) (kind : MessageKind.t)
    : result ProtocolError WorkloadState.t :=
  match state, direction, kind with
  | WorkloadState.AwaitHello, Direction.GuestToHost, MessageKind.Hello => Ok WorkloadState.AwaitStart
  | WorkloadState.AwaitStart, Direction.HostToGuest, MessageKind.Start => Ok WorkloadState.AwaitReady
  | WorkloadState.AwaitReady, Direction.GuestToHost, MessageKind.Ready => Ok WorkloadState.Running
  | (WorkloadState.AwaitHello | WorkloadState.AwaitStart | WorkloadState.AwaitReady),
    Direction.GuestToHost, MessageKind.Error => Ok WorkloadState.Failed
  | WorkloadState.Running, Direction.HostToGuest, (MessageKind.Signal | MessageKind.Resize) =>
      Ok WorkloadState.Running
  | WorkloadState.Running, Direction.HostToGuest, MessageKind.Shutdown => Ok WorkloadState.ShuttingDown
  | (WorkloadState.Running | WorkloadState.ShuttingDown), Direction.GuestToHost, MessageKind.Exit =>
      Ok WorkloadState.Exited
  | (WorkloadState.Running | WorkloadState.ShuttingDown), Direction.GuestToHost, MessageKind.Error =>
      Ok WorkloadState.Failed
  | _, _, _ =>
      Err (InvalidStateTransition (WorkloadState.as_str state) (Direction.as_str direction)
             (MessageKind.as_u16 kind))
  end.

Definition accept (self : t) (direction : Direction.t) (kind : MessageKind.t) (sequence : N)
    : t * result ProtocolError () :=
  let expected := next_sequence self direction in
  if decide (sequence ≠ expected) then (self, Err (SequenceMismatch expected sequence)) else
  match transition (state self) direction kind with
  | Err e => (self, Err e)
  | Panic => (self, Panic)
  | Ok next_state =>
      match checked_add sequence 1 with
      | None => (self, Err SequenceExhausted)
      | Some next =>
          (match direction with
           | Direction.HostToGuest => workload_session next_state next (next_guest_sequence self)
           | Direction.GuestToHost => workload_session next_state (next_host_sequence self) next
           end, Ok ())
      end
  end.

#[global] Instance session : Session t MessageKind.t :=
  {| session_new := new; session_next_sequence := next_sequence; session_accept := accept |}.

Lemma workload_accept_Ok s d k n s' :
  accept s d k n = (s', Ok ()) ↔
  n = next_sequence s d ∧ (n + 1 < u64_bound)%N ∧ transition (state s) d k = Ok (state s') ∧
  next_sequence s' d = (n + 1)%N ∧ (∀ d', d' ≠ d → next_sequence s' d' = next_sequence s d').
Proof.
  unfold accept. destruct (decide _) as [|Hn%dec_stable]; [naive_solver|]. split.
  - destruct (transition (state s) d k) eqn:Ht; [|done..]. destruct (checked_add n 1) eqn:Hc; [|done].
    apply checked_add_Some in Hc as [-> Hb]. intros [= <-].
    split_and!; [done|done|by destruct d|by destruct d|]. by destruct d; intros [].
  - intros (_ & Hb & -> & Hs & Ho). rewrite (proj2 (checked_add_Some n 1 (n + 1)%N)) by done.
    do 2 f_equal. destruct s' as [st h g]. simpl.
    pose proof (Ho Direction.HostToGuest). pose proof (Ho Direction.GuestToHost).
    destruct d; simpl in *; f_equal; naive_solver.
Qed.

#[global] Instance session_laws : SessionLaws t MessageKind.t.
Proof.
  split; simpl.
  - by intros [].
  - intros s d k n s' r H Hr. unfold accept in H. destruct (decide _); [by simplify_eq|].
    destruct (transition _ _ _); [|by simplify_eq..].
    destruct (checked_add n 1); by simplify_eq.
  - intros s d k n Hn. unfold accept. by rewrite decide_True.
  - intros s d k n s' H%workload_accept_Ok. tauto.
Qed.

(** ** The lifecycle *)
Inductive step : WorkloadState.t → Direction.t * MessageKind.t → WorkloadState.t → Prop :=
  | step_hello : step WorkloadState.AwaitHello (Direction.GuestToHost, MessageKind.Hello) WorkloadState.AwaitStart
  | step_start : step WorkloadState.AwaitStart (Direction.HostToGuest, MessageKind.Start) WorkloadState.AwaitReady
  | step_ready : step WorkloadState.AwaitReady (Direction.GuestToHost, MessageKind.Ready) WorkloadState.Running
  | step_control k : k ∈ [MessageKind.Signal; MessageKind.Resize] →
      step WorkloadState.Running (Direction.HostToGuest, k) WorkloadState.Running
  | step_shutdown : step WorkloadState.Running (Direction.HostToGuest, MessageKind.Shutdown) WorkloadState.ShuttingDown
  | step_exit st : st ∈ [WorkloadState.Running; WorkloadState.ShuttingDown] →
      step st (Direction.GuestToHost, MessageKind.Exit) WorkloadState.Exited
  | step_error st : WorkloadState.is_terminal st = false →
      step st (Direction.GuestToHost, MessageKind.Error) WorkloadState.Failed.

Lemma transition_step st d k st' : transition st d k = Ok st' ↔ step st (d, k) st'.
Proof.
  split.
  - destruct st, d, k; try done; intros [= <-]; constructor; set_solver.
  - inversion 1; subst; try done.
    + rename select (_ ∈ _) into Hk. by repeat (apply elem_of_cons in Hk as [->|Hk]; [done|]); set_solver.
    + rename select (_ ∈ _) into Hk. by repeat (apply elem_of_cons in Hk as [->|Hk]; [done|]); set_solver.
    + by destruct st.
Qed.

Abbreviation event := (Direction.t * MessageKind.t)%type.

Inductive steps : WorkloadState.t → list event → WorkloadState.t → Prop :=
  | steps_nil st : steps st [] st
  | steps_cons st e st1 l st2 : step st e st1 → steps st1 l st2 → steps st (e :: l) st2.

Lemma accept_all_steps s l s' :
  accept_all s l = Some s' → steps (state s) (fst <$> l) (state s').
Proof.
  revert s; induction l as [|[[d k] n] l IH]; intros s; [intros [= <-]; constructor|].
  rewrite accept_all_cons. intros (s1 & (_ & _ & Ht & _)%workload_accept_Ok & Hl).
  econstructor; [by apply transition_step|by apply IH].
Qed.

Lemma steps_accept_all st l st' h g :
  steps st l st' → (h + len l < u64_bound)%N → (g + len l < u64_bound)%N →
  ∃ s', accept_all (workload_session st h g) (number h g l) = Some s' ∧ state s' = st'.
Proof.
  intros Hs. revert h g. induction Hs as [st|st [d k] st1 l st2 Hst _ IH]; intros h g Hh Hg; [by eexists|].
  apply transition_step in Hst. rewrite len_cons in Hh, Hg.
  destruct d; [destruct (IH (h + 1) g)%N as (s' & Ha & ?)|destruct (IH h (g + 1))%N as (s' & Ha & ?)];
    try lia; exists s'; (split; [|done]); apply accept_all_cons; eexists; (split; [|exact Ha]);
    apply workload_accept_Ok; split_and!; simpl; try done; try lia; by intros [].
Qed.

(** A host message to a running workload. *)
Definition is_control (e : event) : Prop :=
  e = (Direction.HostToGuest, MessageKind.Signal) ∨ e = (Direction.HostToGuest, MessageKind.Resize).

(** Everything a session can see before its last message, by what it has reached. *)
Definition handshake : list event :=
  [(Direction.GuestToHost, MessageKind.Hello); (Direction.HostToGuest, MessageKind.Start);
   (Direction.GuestToHost, MessageKind.Ready)].

Definition running (l : list event) : Prop :=
  ∃ controls, Forall is_control controls ∧
    (l = handshake ++ controls ∨
     l = handshake ++ controls ++ [(Direction.HostToGuest, MessageKind.Shutdown)]).

Definition unfinished (l : list event) : Prop := l ∈ [[]; take 1 handshake; take 2 handshake] ∨ running l.

Lemma steps_snoc st l e st' : steps st (l ++ [e]) st' ↔ ∃ st1, steps st l st1 ∧ step st1 e st'.
Proof.
  split.
  - revert st; induction l as [|e' l IH]; intros st; simpl; inversion_clear 1 as [|? ? st1 ? ? Hs Hl].
    + inversion Hl; subst. exists st. split; [constructor|done].
    + destruct (IH _ Hl) as (st2 & ? & ?). exists st2. split; [by econstructor|done].
  - intros (st1 & Hl & Hs). induction Hl; simpl; repeat econstructor; eauto.
Qed.

(** What has been seen in each state. *)
Definition seen (st : WorkloadState.t) (l : list event) : Prop :=
  match st with
  | WorkloadState.AwaitHello => l = []
  | WorkloadState.AwaitStart => l = take 1 handshake
  | WorkloadState.AwaitReady => l = take 2 handshake
  | WorkloadState.Running => ∃ controls, Forall is_control controls ∧ l = handshake ++ controls
  | WorkloadState.ShuttingDown => ∃ controls, Forall is_control controls ∧
      l = handshake ++ controls ++ [(Direction.HostToGuest, MessageKind.Shutdown)]
  | WorkloadState.Exited => ∃ l', running l' ∧ l = l' ++ [(Direction.GuestToHost, MessageKind.Exit)]
  | WorkloadState.Failed => ∃ l', unfinished l' ∧ l = l' ++ [(Direction.GuestToHost, MessageKind.Error)]
  end.

Lemma steps_seen l st : steps WorkloadState.AwaitHello l st → seen st l.
Proof.
  revert st; induction l as [|e l IH] using rev_ind; intros st; [by inversion_clear 1|].
  rewrite steps_snoc. intros (st1 & Hl%IH & Hs). clear IH.
  inversion Hs; subst; cbn [seen] in *; subst; try done.
  - by exists [].
  - destruct Hl as (c & Hc & ->). exists (c ++ [(Direction.HostToGuest, k)]).
    rewrite <- app_assoc. split; [|done]. apply Forall_app. split; [done|]. constructor; [|done].
    unfold is_control. set_solver.
  - destruct Hl as (c & Hc & ->). exists c. by rewrite <- app_assoc.
  - exists l. split; [|done]. unfold running.
    rename select (_ ∈ _) into Hin. apply list_elem_of_In in Hin. simpl in Hin.
    destruct Hin as [<-|[<-|[]]]; simpl in Hl; naive_solver.
  - exists l. split; [|done]. unfold unfinished, running. destruct st1; simpl in Hl; try done; subst;
      [left; set_solver..|right; naive_solver|right; naive_solver].
Qed.

Lemma controls_steps c : Forall is_control c → steps WorkloadState.Running c WorkloadState.Running.
Proof.
  induction 1 as [|e c [-> | ->] _ IH]; [constructor|..]; (econstructor; [constructor; set_solver|done]).
Qed.

Lemma steps_app st l1 st1 l2 st2 : steps st l1 st1 → steps st1 l2 st2 → steps st (l1 ++ l2) st2.
Proof. induction 1; simpl; [done|]. intros. econstructor; eauto. Qed.

Lemma handshake_steps : steps WorkloadState.AwaitHello handshake WorkloadState.Running.
Proof. repeat econstructor. Qed.

Lemma shutdown_steps :
  steps WorkloadState.Running [(Direction.HostToGuest, MessageKind.Shutdown)] WorkloadState.ShuttingDown.
Proof. econstructor; [apply step_shutdown|constructor]. Qed.

Lemma running_steps l :
  running l → ∃ st, steps WorkloadState.AwaitHello l st ∧ st ∈ [WorkloadState.Running; WorkloadState.ShuttingDown].
Proof.
  intros (c & Hc%controls_steps & Hl). pose proof (steps_app _ _ _ _ _ handshake_steps Hc) as Hr.
  destruct Hl as [-> | ->]; [exists WorkloadState.Running|exists WorkloadState.ShuttingDown];
    (split; [|set_solver +]); [done|].
  rewrite app_assoc. eapply steps_app; [done|apply shutdown_steps].
Qed.

Lemma unfinished_steps l :
  unfinished l → ∃ st, steps WorkloadState.AwaitHello l st ∧ WorkloadState.is_terminal st = false.
Proof.
  intros [Hl|(st & ? & Hst)%running_steps].
  - apply list_elem_of_In in Hl as [<-|[<-|[<-|[]]]]; eexists; (split; [by repeat econstructor|done]).
  - exists st. split; [done|]. apply list_elem_of_In in Hst as [<-|[<-|[]]]; done.
Qed.

Lemma seen_steps l st : seen st l → steps WorkloadState.AwaitHello l st.
Proof.
  destruct st; cbn [seen]; try (intros ->; by repeat econstructor).
  - intros (c & Hc%controls_steps & ->). eapply steps_app; [apply handshake_steps|done].
  - intros (c & Hc%controls_steps & ->). eapply steps_app; [apply handshake_steps|].
    eapply steps_app; [done|apply shutdown_steps].
  - intros (l' & (st & ? & ?)%running_steps & ->). apply steps_snoc. exists st. split; [done|by constructor].
  - intros (l' & (st & ? & ?)%unfinished_steps & ->). apply steps_snoc. exists st. split; [done|by constructor].
Qed.

(** C28: the lifecycle [WorkloadSession] enforces.  A session that accepted a
    sequence of messages is in the state that sequence determines: exited means
    hello, start, ready, any number of signals and resizes, at most one shutdown
    after which the host sends nothing more, and one exit; failed means one error
    in place of what was due.  Conversely every such sequence, numbered from zero
    in each direction, is accepted. *)
Theorem workload_lifecycle :
  (∀ l s, accept_all new l = Some s → l = number 0 0 (fst <$> l) ∧ seen (state s) (fst <$> l)) ∧
  (∀ l st, (len l < u64_bound)%N → seen st l →
     ∃ s, accept_all new (number 0 0 l) = Some s ∧ state s = st).
Proof.
  split.
  - intros l s Ha. split; [exact (accept_all_numbered new l s Ha)|].
    by apply steps_seen, (accept_all_steps new).
  - intros l st Hl Hs%seen_steps. by apply (steps_accept_all _ _ _ 0 0 Hs).
Qed.

Lemma workload_lifecycle_witness :
  ∃ s, accept_all new (number 0 0 (handshake ++ [(Direction.HostToGuest, MessageKind.Resize)] ++
         [(Direction.HostToGuest, MessageKind.Shutdown)] ++ [(Direction.GuestToHost, MessageKind.Exit)]))
       = Some s ∧ state s = WorkloadState.Exited.
Proof.
  apply workload_lifecycle; [by vm_compute|].
  exists (handshake ++ [(Direction.HostToGuest, MessageKind.Resize)] ++
          [(Direction.HostToGuest, MessageKind.Shutdown)]). split; [|done].
  exists [(Direction.HostToGuest, MessageKind.Resize)]. split; [|by right].
  constructor; [by right|constructor].
Defined.

(** [accept] refines the lifecycle's steps.  It succeeds exactly when the
    sequence number is the direction's next one, the counter can advance and the
    message is a step of the lifecycle; otherwise it leaves the session as it was
    and says why.  A terminal session accepts nothing more. *)
Theorem workload_accept_refines s d k n :
  (∀ s', accept s d k n = (s', Ok ()) ↔
     n = next_sequence s d ∧ (n + 1 < u64_bound)%N ∧ step (state s) (d, k) (state s') ∧
     next_sequence s' d = (n + 1)%N ∧ (∀ d', d' ≠ d → next_sequence s' d' = next_sequence s d')) ∧
  ((accept s d k n).2 ≠ Ok () → (accept s d k n).1 = s ∧
     ((n ≠ next_sequence s d ∧
       (accept s d k n).2 = Err (SequenceMismatch (next_sequence s d) n)) ∨
      (n = next_sequence s d ∧ (¬ ∃ st', step (state s) (d, k) st') ∧
       (accept s d k n).2 = Err (InvalidStateTransition (WorkloadState.as_str (state s))
          (Direction.as_str d) (MessageKind.as_u16 k))) ∨
      (n = next_sequence s d ∧ (u64_bound ≤ n + 1)%N ∧ (accept s d k n).2 = Err SequenceExhausted))) ∧
  (WorkloadState.is_terminal (state s) = true → (accept s d k n).2 ≠ Ok ()).
Proof.
  split_and!.
  - intros s'. by rewrite workload_accept_Ok, transition_step.
  - unfold accept. destruct (decide _) as [Hn|Hn%dec_stable]; [by auto|].
    destruct (transition (state s) d k) as [st'|e|] eqn:Ht.
    + unfold checked_add. case_decide; [by destruct d|]. simpl. intros _. split; [done|].
      right; right. split_and!; [done|lia|done].
    + intros _. split; [done|]. right; left. split_and!; [done| |].
      * intros [st' Hst%transition_step]. congruence.
      * simpl. f_equal. clear Hn. destruct (state s), d, k; simplify_eq/=; done.
    + by destruct (state s), d, k.
  - intros Hterm H. destruct (accept s d k n) as [s' r] eqn:Ha. simpl in H. subst r.
    apply workload_accept_Ok in Ha as (_ & _ & Ht & _). by destruct (state s), d, k.
Qed.
End WorkloadSession.
