(* ===== verification/Sha256.v ===== *)
(** * SHA-256: the [sha2] crate as an interface

    [sha2] is a dependency that is not part of the repository.  The code uses
    [Sha256::new], [update], [finalize] and [Sha256::digest]; they are the class
    [Sha2], and [Sha2Laws] states what the crate documents: hashing in pieces is
    hashing the concatenation, and the digest has 32 bytes. *)

From S2P Require Import Prelude RustStr Payload.

Class Sha2 := {
  hasher : Type;
  hasher_new : hasher;
  hasher_update : hasher → bytes → hasher;
  hasher_finalize : hasher → bytes;
  sha256_digest : bytes → bytes;
}.

Class Sha2Laws `{Sha2} := {
  sha256_pieces pieces :
    hasher_finalize (foldl hasher_update hasher_new pieces) = sha256_digest (concat pieces);
  sha256_length b : length (sha256_digest b) = 32;
}.

(** [hex_lower(&Sha256::digest(bytes))] *)
Definition sha256_hex `{Sha2} (b : bytes) : bytes := hex_lower (sha256_digest b).

(** These two byte strings are different and have the same digest. *)
Definition collides `{Sha2} (a b : bytes) : Prop := a ≠ b ∧ sha256_digest a = sha256_digest b.

Lemma same_digest `{Sha2} a b : sha256_digest a = sha256_digest b → a = b ∨ collides a b.
Proof. intros Hd. destruct (decide (a = b)); [by left|by right]. Qed.

Lemma hex_digit_lower : ∀ b, is_lower_hex (hex_digit (N.shiftr (code b) 4)) ∧
                             is_lower_hex (hex_digit (N.land (code b) 15)).
Proof. by_bytes. Qed.

Lemma hex_lower_digits l : Forall is_lower_hex (hex_lower l).
Proof.
  induction l as [|b l IH]; [constructor|]. unfold hex_lower in *. simpl.
  destruct (hex_digit_lower b). by rewrite !Forall_cons.
Qed.

(** The text of a digest passes [validate_sha256]. *)
Lemma sha256_hex_ok `{Sha2Laws} b : sha256_ok (sha256_hex b).
Proof.
  split; [|apply hex_lower_digits]. unfold sha256_hex, len.
  by rewrite length_hex_lower, sha256_length.
Qed.

(** ** A concrete hash for evaluation: the first 32 bytes, padded with zeros *)
Module SampleHash.
#[export] Instance sample_sha2 : Sha2 := {|
  hasher := bytes;
  hasher_new := [];
  hasher_update h b := h ++ b;
  hasher_finalize h := take 32 (h ++ replicate 32 x00);
  sha256_digest b := take 32 (b ++ replicate 32 x00);
|}.

#[export] Instance sample_sha2_laws : Sha2Laws.
Proof.
  split.
  - intros pieces. cbn [hasher_finalize hasher_update hasher_new sha256_digest sample_sha2]. do 2 f_equal. assert (∀ acc, foldl app acc pieces = acc ++ concat pieces) as ->; [|done].
    induction pieces as [|p pieces IH]; intros acc; simpl; [by rewrite app_nil_r|].
    by rewrite IH, app_assoc.
  - intros b. cbn [sha256_digest sample_sha2]. rewrite length_take, length_app, length_replicate. lia.
Qed.
End SampleHash.
