(* ===== verification/BuilderManifest.v ===== *)
(** * Manifest entries and chunks: crates/pocket-protocol/src/builder.rs

    The limits of a build's file manifest, one entry of it, the framing of entries
    in chunks, and the messages that carry the stream. *)

From S2P Require Import Prelude RustStr ByteOrder ManagedPath ProtocolError Frame Payload.

Definition MAX_MANIFEST_CHUNK_BYTES : N := 192 * 1024.
Definition MAX_MANIFEST_ENTRY_BYTES : N := 128 * 1024.
Definition MAX_MANIFEST_PATH_BYTES : N := 4096.
Definition MAX_MANIFEST_XATTRS : N := 128.
Definition MAX_MANIFEST_XATTR_BYTES : N := 64 * 1024.
Definition MAX_MANIFEST_ENTRIES : N := 1000000.
Definition MAX_MANIFEST_BYTES : N := 16 * 1024 * 1024 * 1024.
Definition MAX_MANIFEST_DIRECTORY_ENTRIES : N := 131072.
Definition MAX_MANIFEST_DIRECTORY_NAME_BYTES : N := 64 * 1024 * 1024.
Definition MAX_MANIFEST_HARDLINK_GROUPS : N := 131072.
Definition MAX_MANIFEST_HARDLINK_PATH_BYTES : N := 64 * 1024 * 1024.
Definition MAX_MANIFEST_DEPTH : N := 256.

Module ManifestLimits.
Record t : Set := manifest_limits {
  max_path_bytes : N;
  max_xattrs_per_entry : N;
  max_xattr_bytes_per_entry : N;
  max_entry_bytes : N;
  max_chunk_bytes : N;
  max_entries : N;
  max_total_bytes : N;
  max_directory_entries : N;
  max_directory_name_bytes : N;
  max_hardlink_groups : N;
  max_hardlink_path_bytes : N;
  max_depth : N;
}.

Definition default : t := {|
  max_path_bytes := MAX_MANIFEST_PATH_BYTES;
  max_xattrs_per_entry := MAX_MANIFEST_XATTRS;
  max_xattr_bytes_per_entry := MAX_MANIFEST_XATTR_BYTES;
  max_entry_bytes := MAX_MANIFEST_ENTRY_BYTES;
  max_chunk_bytes := MAX_MANIFEST_CHUNK_BYTES;
  max_entries := MAX_MANIFEST_ENTRIES;
  max_total_bytes := MAX_MANIFEST_BYTES;
  max_directory_entries := MAX_MANIFEST_DIRECTORY_ENTRIES;
  max_directory_name_bytes := MAX_MANIFEST_DIRECTORY_NAME_BYTES;
  max_hardlink_groups := MAX_MANIFEST_HARDLINK_GROUPS;
  max_hardlink_path_bytes := MAX_MANIFEST_HARDLINK_PATH_BYTES;
  max_depth := MAX_MANIFEST_DEPTH;
|}.

#[global] Instance validate : ValidateMessage t := λ self,
  if decide (max_path_bytes self = 0%N ∨ (MAX_MANIFEST_PATH_BYTES < max_path_bytes self)%N)
  then invalid "manifest_limits.max_path_bytes" "outside supported range" else
  if decide (MAX_MANIFEST_XATTRS < max_xattrs_per_entry self)%N
  then invalid "manifest_limits.max_xattrs_per_entry" "exceeds hard cap" else
  if decide (MAX_MANIFEST_XATTR_BYTES < max_xattr_bytes_per_entry self)%N
  then invalid "manifest_limits.max_xattr_bytes_per_entry" "exceeds hard cap" else
  let max_entry := max_entry_bytes self in
  let max_chunk := max_chunk_bytes self in
  if decide (max_entry = 0%N ∨ (MAX_MANIFEST_ENTRY_BYTES < max_entry)%N)
  then invalid "manifest_limits.max_entry_bytes" "outside supported range" else
  if decide (¬ (4 ≤ max_chunk ≤ MAX_MANIFEST_CHUNK_BYTES)%N)
  then invalid "manifest_limits.max_chunk_bytes" "outside supported range" else
  if decide (is_none_or (λ value, max_chunk < value)%N (checked_add max_entry 4))
  then invalid "manifest_limits.max_entry_bytes" "one length-prefixed entry must fit in a chunk" else
  if decide (max_entries self = 0%N ∨ (MAX_MANIFEST_ENTRIES < max_entries self)%N)
  then invalid "manifest_limits.max_entries" "outside supported range" else
  if decide (max_total_bytes self = 0%N ∨ (MAX_MANIFEST_BYTES < max_total_bytes self)%N)
  then invalid "manifest_limits.max_total_bytes" "outside supported range" else
  if decide (max_directory_entries self = 0%N ∨ (MAX_MANIFEST_DIRECTORY_ENTRIES < max_directory_entries self)%N)
  then invalid "manifest_limits.max_directory_entries" "outside supported range" else
  if decide (max_directory_name_bytes self = 0%N ∨
             (MAX_MANIFEST_DIRECTORY_NAME_BYTES < max_directory_name_bytes self)%N)
  then invalid "manifest_limits.max_directory_name_bytes" "outside supported range" else
  if decide (max_hardlink_groups self = 0%N ∨ (MAX_MANIFEST_HARDLINK_GROUPS < max_hardlink_groups self)%N)
  then invalid "manifest_limits.max_hardlink_groups" "outside supported range" else
  if decide (max_hardlink_path_bytes self = 0%N ∨
             (MAX_MANIFEST_HARDLINK_PATH_BYTES < max_hardlink_path_bytes self)%N)
  then invalid "manifest_limits.max_hardlink_path_bytes" "outside supported range" else
  if decide (max_depth self = 0%N ∨ (MAX_MANIFEST_DEPTH < max_depth self)%N)
  then invalid "manifest_limits.max_depth" "outside supported range" else
  Ok ().
End ManifestLimits.

(** ** Length-prefixed entries *)

(** [u32::from_be_bytes([b[p], b[p + 1], b[p + 2], b[p + 3]])] *)
Definition read_u32 (b : bytes) (position : N) : result ProtocolError N :=
  b0 ← index b position;
  p1 ← usize_add position 1; b1 ← index b p1;
  p2 ← usize_add position 2; b2 ← index b p2;
  p3 ← usize_add position 3; b3 ← index b p3;
  Ok (from_be [b0; b1; b2; b3]).

(** The [while] loop.  Each round moves the position by at least five, so as many
    rounds as there are bytes are enough; running out would be [Panic], which
    [count_entries_Ok] excludes. *)
Fixpoint count_loop (fuel : nat) (b : bytes) (maximum_entry position count : N) : result ProtocolError N :=
  match fuel with
  | O => Panic
  | S fuel =>
      if decide (position < len b)%N then
        let remaining := (len b - position)%N in
        if decide (remaining < 4)%N then invalid "bytes" "truncated manifest-entry length" else
        length ← read_u32 b position;
        if decide (length = 0 ∨ maximum_entry < length)%N
        then invalid "bytes" "manifest entry length is zero or oversized" else
        position ← ok_or (checked_add position 4 ≫= λ value, checked_add value length)
                         (PayloadTooLarge (len b) MAX_CONTROL_PAYLOAD);
        if decide (len b < position)%N then invalid "bytes" "manifest entry straddles chunks" else
        count ← ok_or (checked_add count 1) (MessageLimitExceeded "entry_count" usize_max usize_max);
        count_loop fuel b maximum_entry position count
      else Ok count
  end.

Definition count_length_prefixed_entries (b : bytes) (maximum_entry : N) : result ProtocolError N :=
  count_loop (S (length b)) b maximum_entry 0 0.

(** ** One entry *)
Module ManifestXattr.
Record t : Set := manifest_xattr { name : bytes; value : bytes }.
End ManifestXattr.

Module ManifestEntry.
Record t : Set := manifest_entry {
  path : bytes;
  kind : N;
  mode : N;
  uid : N;
  gid : N;
  size : N;
  rdev : N;
  mtime_seconds : Z;
  mtime_nanoseconds : N;
  symlink_target : option bytes;
  content_sha256 : option bytes;
  hardlink_target : option bytes;
  xattrs : list ManifestXattr.t;
}.

(** The loop over [xattrs]: the last name seen and the bytes so far. *)
Definition check_xattr (seen : option bytes * N) (xattr : ManifestXattr.t)
    : result ProtocolError (option bytes * N) :=
  let '(previous, total) := seen in
  let name := ManifestXattr.name xattr in
  if decide (name = [] ∨ x00 ∈ name) then invalid "manifest_entry.xattrs" "invalid xattr name" else
  if decide (not_above previous name)
  then invalid "manifest_entry.xattrs" "xattrs are not strictly sorted" else
  total ← ok_or (checked_add total (len name) ≫= λ value, checked_add value (len (ManifestXattr.value xattr)))
                (MessageLimitExceeded "manifest_entry.xattr_bytes" usize_max MAX_MANIFEST_XATTR_BYTES);
  Ok (Some name, total).

(** [value.split(|byte| *byte == b'/').any(..)] *)
Abbreviation bad_path p := (Exists ManagedUmlPath.bad_segment (split x2f p)).

#[global] Instance validate : ValidateMessage t := λ self,
  if decide ((MAX_MANIFEST_PATH_BYTES < len (path self))%N ∨ x00 ∈ path self)
  then invalid "manifest_entry.path" "invalid or oversized path" else
  if decide (head (path self) = Some x2f ∨ (path self ≠ [] ∧ bad_path (path self)))
  then invalid "manifest_entry.path" "path is not normalized and relative" else
  if decide (¬ (1 ≤ kind self ≤ 7)%N)
  then invalid "manifest_entry.kind" "unknown filesystem entry kind" else
  if decide (4095 < mode self)%N
  then invalid "manifest_entry.mode" "mode exceeds permission and set-ID bits" else
  if decide (1000000000 ≤ mtime_nanoseconds self)%N
  then invalid "manifest_entry.mtime_nanoseconds" "outside valid range" else
  if decide (is_some_and (λ value, x00 ∈ value ∨ (MAX_MANIFEST_PATH_BYTES < len value)%N) (symlink_target self))
  then invalid "manifest_entry.symlink_target" "invalid or oversized target" else
  if decide (is_some_and (λ value, len value ≠ 32%N) (content_sha256 self))
  then invalid "manifest_entry.content_sha256" "digest must be 32 bytes" else
  if decide (is_some_and (λ value, value = [] ∨ (MAX_MANIFEST_PATH_BYTES < len value)%N ∨ x00 ∈ value ∨
                                   head value = Some x2f ∨ bad_path value) (hardlink_target self))
  then invalid "manifest_entry.hardlink_target" "invalid hardlink path" else
  let regular := kind self = 1%N in
  if decide (¬ regular ∧ (is_Some (content_sha256 self) ∨ is_Some (hardlink_target self)))
  then invalid "manifest_entry.content" "only regular files carry content or hardlink evidence" else
  if decide (regular ∧ (is_Some (content_sha256 self) ↔ is_Some (hardlink_target self)))
  then invalid "manifest_entry.content" "regular file needs exactly one content digest or hardlink target" else
  if decide (¬ (kind self = 3%N ↔ is_Some (symlink_target self)))
  then invalid "manifest_entry.symlink_target" "symlink target presence does not match entry kind" else
  if decide (¬ (kind self = 4%N ∨ kind self = 5%N) ∧ rdev self ≠ 0%N)
  then invalid "manifest_entry.rdev" "only character and block devices carry rdev" else
  validate_count "manifest_entry.xattrs" (len (xattrs self)) MAX_MANIFEST_XATTRS;;
  '(_, total) ← fold_result check_xattr (None, 0%N) (xattrs self);
  validate_count "manifest_entry.xattr_bytes" total MAX_MANIFEST_XATTR_BYTES.
End ManifestEntry.

(** ** The stream's messages *)
Module ManifestBegin.
Record t : Set := manifest_begin { schema : bytes; stream_id : bytes }.
#[global] Instance validate : ValidateMessage t := λ self,
  validate_token "schema" (schema self) MAX_ID_LENGTH;;
  validate_sha256 "stream_id" (stream_id self).
End ManifestBegin.

Module ManifestChunk.
Record t : Set := manifest_chunk {
  stream_id : bytes;
  sequence : N;
  first_entry : N;
  entry_count : N;
  bytes : Prelude.bytes;
}.
#[global] Instance validate : ValidateMessage t := λ self,
  validate_sha256 "stream_id" (stream_id self);;
  if decide (entry_count self = 0%N) then invalid "entry_count" "chunk must contain at least one entry" else
  validate_count "bytes" (len (bytes self)) MAX_MANIFEST_CHUNK_BYTES;;
  if decide (bytes self = []) then invalid "bytes" "chunk bytes must not be empty" else
  decoded ← count_length_prefixed_entries (bytes self) MAX_MANIFEST_ENTRY_BYTES;
  if decide (decoded ≠ entry_count self)
  then invalid "entry_count" "does not match length-prefixed entry bytes" else
  Ok ().
End ManifestChunk.

Module ManifestEnd.
Record t : Set := manifest_end { stream_id : bytes; entry_count : N; byte_count : N; sha256 : bytes }.
#[global] Instance validate : ValidateMessage t := λ self,
  validate_sha256 "stream_id" (stream_id self);;
  validate_sha256 "sha256" (sha256 self).
End ManifestEnd.

(** ** The framing of entries *)

(** Entries one after another, each behind its length in four bytes. *)
Definition framed (entries : list bytes) : bytes :=
  concat ((λ e, to_be 4 (len e) ++ e) <$> entries).

Definition entry_fits (maximum : N) (e : bytes) : Prop := (0 < len e ≤ maximum)%N.

Lemma framed_cons e es : framed (e :: es) = to_be 4 (len e) ++ e ++ framed es.
Proof. unfold framed. rewrite fmap_cons. cbn [concat]. by rewrite <- app_assoc. Qed.

Lemma framed_inv w r es max :
  (max < u32_bound)%N → length w = 4 → Forall (entry_fits max) es → w ++ r = framed es →
  ∃ e es', es = e :: es' ∧ from_be w = len e ∧ r = e ++ framed es'.
Proof.
  intros Hmax Hw Hf Heq. destruct es as [|e es']; [by destruct w|].
  apply Forall_cons in Hf as [[_ He] _]. rewrite framed_cons in Heq.
  apply app_inj_1 in Heq as [-> ->]; [|by rewrite length_to_be].
  exists e, es'. split_and!; [done| |done]. apply from_to_be. unfold u32_bound in *. change (256 ^ N.of_nat 4)%N with (2^32)%N. lia.
Qed.

Lemma framed_short r es : length r < 4 → r = framed es → r = [].
Proof.
  intros Hl ->. destruct es as [|e es]; [done|]. rewrite framed_cons, length_app, length_to_be in Hl. lia.
Qed.

Lemma index_app {E} (pre w r : bytes) k b :
  w !! N.to_nat k = Some b → @index E _ (pre ++ w ++ r) (len pre + k) = Ok b.
Proof.
  intros Hk. unfold index, len.
  replace (N.to_nat (N.of_nat (length pre) + k)) with (length pre + N.to_nat k) by lia.
  rewrite lookup_app_r by lia. rewrite Nat.add_comm, Nat.add_sub.
  by rewrite (lookup_app_l_Some _ _ _ _ Hk).
Qed.

Lemma read_u32_app pre w r :
  length w = 4 → (len (pre ++ w ++ r) < u64_bound)%N → read_u32 (pre ++ w ++ r) (len pre) = Ok (from_be w).
Proof.
  intros Hw Hb. destruct w as [|b0 [|b1 [|b2 [|b3 [|]]]]]; try done.
  assert (len pre + 3 < u64_bound)%N.
  { rewrite !len_app in Hb. change (len [b0; b1; b2; b3]) with 4%N in Hb. lia. }
  unfold read_u32, usize_add. rewrite !decide_True by lia. rsimpl.
  rewrite <- (N.add_0_r (len pre)) at 1. rewrite (index_app pre _ r 0 b0) by done. rsimpl.
  rewrite (index_app pre _ r 1 b1) by done. rsimpl. rewrite (index_app pre _ r 2 b2) by done. rsimpl.
  by rewrite (index_app pre _ r 3 b3) by done.
Qed.

Lemma split_at_len (r : bytes) n : (n ≤ len r)%N → ∃ e r', r = e ++ r' ∧ len e = n.
Proof.
  intros Hn. exists (take (N.to_nat n) r), (drop (N.to_nat n) r). rewrite take_drop.
  split; [done|]. unfold len in *. rewrite length_take. lia.
Qed.

(** A round that reads a whole entry. *)
Lemma count_round fuel pre w e r max count :
  length w = 4 → from_be w = len e → entry_fits max e → (count ≤ len pre)%N →
  (len (pre ++ w ++ e ++ r) < u64_bound)%N →
  count_loop (S fuel) (pre ++ w ++ e ++ r) max (len pre) count =
  count_loop fuel ((pre ++ w ++ e) ++ r) max (len (pre ++ w ++ e)) (count + 1).
Proof.
  intros Hw He [? ?] Hc Hb. assert (len w = 4%N) as Hlw by (unfold len; lia).
  simpl count_loop at 1. rewrite read_u32_app by done. rewrite !len_app in *. rsimpl.
  rewrite decide_True, decide_False, decide_False by lia.
  rewrite checked_add2_fits by lia. rsimpl.
  rewrite decide_False by lia. rewrite checked_add_fits by lia. rsimpl.
  rewrite <- !app_assoc. f_equal. rewrite He, Hlw. lia.
Qed.

(** A round that stops: the length is cut off, not admitted, or more than is left. *)
Definition no_entry (max : N) (rest : bytes) : Prop :=
  rest ≠ [] ∧
  (length rest < 4 ∨ ∃ w r, rest = w ++ r ∧ length w = 4 ∧
     (from_be w = 0 ∨ max < from_be w ∨ len r < from_be w)%N).

Lemma count_round_stops fuel pre rest max count :
  (len (pre ++ rest) < u64_bound)%N → no_entry max rest →
  ∃ e, count_loop (S fuel) (pre ++ rest) max (len pre) count = Err e.
Proof.
  intros Hb [Hne Hrest]. rewrite <- len_zero in Hne. simpl count_loop.
  rewrite len_app. rewrite decide_True by lia.
  destruct Hrest as [Hs|(w & r & -> & Hw & Hbad)].
  { rewrite decide_True by (unfold len; lia). by eexists. }
  rewrite read_u32_app by done. rewrite !len_app in *. assert (len w = 4%N) as Hlw by (unfold len; lia).
  rewrite decide_False by lia. rsimpl. case_decide; [by eexists|].
  destruct (checked_add (len pre) 4 ≫= _) as [p|] eqn:Hp; rsimpl; [|by eexists].
  apply checked_add2_Some in Hp as [-> _]. rewrite decide_True by lia. by eexists.
Qed.

Lemma no_entry_not_framed max rest es :
  (max < u32_bound)%N → no_entry max rest → Forall (entry_fits max) es → rest ≠ framed es.
Proof.
  intros Hmax [Hne [Hs|(w & r & -> & Hw & Hbad)]] Hes Hr.
  { apply Hne. by eapply framed_short. }
  destruct (framed_inv w r es max) as (e & es' & -> & He & ->); [done..|].
  apply Forall_cons in Hes as [[? ?] _]. rewrite len_app in Hbad. lia.
Qed.

(** What is left begins with an entry or with none. *)
Lemma next_entry max rest :
  rest ≠ [] → no_entry max rest ∨
  ∃ w e r, rest = w ++ e ++ r ∧ length w = 4 ∧ from_be w = len e ∧ entry_fits max e.
Proof.
  intros Hne. destruct (decide (length rest < 4)) as [|Hl]; [left; split; auto|].
  destruct (split_at_len rest 4) as (w & r & -> & Hw); [unfold len; lia|].
  assert (length w = 4) by (unfold len in Hw; lia).
  destruct (decide (from_be w = 0 ∨ max < from_be w ∨ len r < from_be w)%N) as [|Hok].
  { left. split; [done|]. right. eauto. }
  right. destruct (split_at_len r (from_be w)) as (e & r' & -> & He); [lia|].
  exists w, e, r'. unfold entry_fits. split_and!; [done|done|done|lia|lia].
Qed.

Lemma count_loop_spec fuel pre rest max count :
  (max < u32_bound)%N → (len (pre ++ rest) < u64_bound)%N → (count ≤ len pre)%N → length rest < fuel →
  count_loop fuel (pre ++ rest) max (len pre) count ≠ Panic ∧
  ∀ n, count_loop fuel (pre ++ rest) max (len pre) count = Ok n ↔
       ∃ es, rest = framed es ∧ Forall (entry_fits max) es ∧ n = (count + len es)%N.
Proof.
  intros Hmax. revert pre rest count. induction fuel as [|fuel IH]; intros pre rest count Hb Hc Hf; [lia|].
  destruct (decide (rest = [])) as [->|Hne].
  { simpl. rewrite app_nil_r, decide_False by lia. split; [done|]. intros n. rewrite ok_inj. split.
    - intros <-. exists []. split_and!; [done|constructor|]. rewrite len_nil. lia.
    - intros ([|e es] & Hr & _ & ->); [rewrite len_nil; lia|done]. }
  destruct (next_entry max rest Hne) as [Hno|(w & e & r & -> & Hw & He & Hfit)].
  { destruct (count_round_stops fuel pre rest max count) as [err ->]; [done..|]. split; [done|].
    intros n. split; [done|]. intros (es & ? & ? & _). by edestruct no_entry_not_framed. }
  rewrite count_round by done.
  destruct (IH (pre ++ w ++ e) r (count + 1)%N) as [IHp IHn].
  { by rewrite <- !app_assoc. } { rewrite !len_app. unfold entry_fits in Hfit. lia. }
  { rewrite !length_app in Hf. lia. }
  split; [done|]. intros n. rewrite IHn. split.
  - intros (es & -> & Hes & ->). exists (e :: es). rewrite framed_cons, len_cons, <- He, <- Hw, to_from_be.
    split_and!; [done|by constructor|lia].
  - intros (es & Hr & Hes & ->). destruct (framed_inv w (e ++ r) es max) as (e' & es' & -> & He' & Hr'); [done..|].
    apply app_inj_1 in Hr' as [-> ->]; [|unfold len in *; lia].
    exists es'. apply Forall_cons in Hes as [_ ?]. rewrite len_cons. split_and!; [done|done|lia].
Qed.

Lemma count_entries_Ok b max :
  (max < u32_bound)%N → (len b < u64_bound)%N →
  count_length_prefixed_entries b max ≠ Panic ∧
  ∀ n, count_length_prefixed_entries b max = Ok n ↔
       ∃ es, b = framed es ∧ Forall (entry_fits max) es ∧ n = len es.
Proof. intros Hmax Hb. apply (count_loop_spec _ [] b max 0); (done || simpl; lia). Qed.

Lemma framed_inj max es es' :
  (max < u32_bound)%N → Forall (entry_fits max) es → Forall (entry_fits max) es' →
  framed es = framed es' → es = es'.
Proof.
  intros Hmax. revert es'; induction es as [|e es IH]; intros es' Hes Hes' Heq.
  - destruct es' as [|e es']; [done|]. by rewrite framed_cons in Heq.
  - apply Forall_cons in Hes as [[_ He] Hes]. rewrite framed_cons in Heq.
    destruct (framed_inv _ _ _ _ Hmax (length_to_be 4 (len e)) Hes' Heq) as (e1 & es1 & -> & Hl & Hr).
    rewrite from_to_be in Hl by (unfold u32_bound in *; change (256 ^ N.of_nat 4)%N with (2^32)%N; lia).
    apply app_inj_1 in Hr as [-> Hr]; [|unfold len in Hl; lia].
    apply Forall_cons in Hes' as [_ Hes']. f_equal. by apply IH.
Qed.

(** How a chunk is split into entries.  The count loop ends on every input
    without a panic; it succeeds exactly on the concatenation of entries behind
    their lengths, with no entry empty, oversized or cut off, and returns how many
    there are.  The entries are unique. *)
Theorem count_entries_exact b max :
  (max < u32_bound)%N → (len b < u64_bound)%N →
  count_length_prefixed_entries b max ≠ Panic ∧
  (∀ n, count_length_prefixed_entries b max = Ok n ↔
        ∃ es, b = framed es ∧ Forall (entry_fits max) es ∧ n = len es) ∧
  (∀ es es', b = framed es → b = framed es' →
     Forall (entry_fits max) es → Forall (entry_fits max) es' → es = es').
Proof.
  intros Hmax Hb. destruct (count_entries_Ok b max) as [Hp Hn]; [done..|].
  split_and!; [done..|]. intros es es' -> Heq ? ?. by apply (framed_inj max).
Qed.

Lemma count_entries_exact_witness :
  count_length_prefixed_entries [x00; x00; x00; x02; x61; x62; x00; x00; x00; x01; x63] MAX_MANIFEST_ENTRY_BYTES
    = Ok 2%N.
Proof.
  apply (count_entries_exact [x00; x00; x00; x02; x61; x62; x00; x00; x00; x01; x63] MAX_MANIFEST_ENTRY_BYTES);
    [by vm_compute..|].
  exists [[x61; x62]; [x63]]. split_and!; [by vm_compute| |done].
  unfold entry_fits. apply (bool_decide_unpack _). vm_compute. exact I.
Defined.

(** ** What an entry may say *)

(** A path relative to the root of the tree, by its components; no components is
    the root itself. *)
Definition relative_path (p : bytes) (segments : list bytes) : Prop :=
  p = join x2f segments ∧ Forall ManagedUmlPath.normal_segment segments ∧
  (len p ≤ MAX_MANIFEST_PATH_BYTES)%N ∧ x00 ∉ p.

Lemma join_normal_head segments :
  Forall ManagedUmlPath.normal_segment segments → head (join x2f segments) ≠ Some x2f.
Proof.
  intros Hn. destruct segments as [|s segs]; [done|]. apply Forall_cons in Hn as [[Hb Hs] _].
  unfold ManagedUmlPath.bad_segment in Hb. destruct s as [|b s]; [tauto|].
  destruct segs; simpl; intros [= ->]; set_solver.
Qed.

Lemma relative_path_iff p :
  (¬ (MAX_MANIFEST_PATH_BYTES < len p)%N ∧ x00 ∉ p) ∧
  ¬ (head p = Some x2f ∨ (p ≠ [] ∧ Exists ManagedUmlPath.bad_segment (split x2f p))) ↔
  ∃ segments, relative_path p segments.
Proof.
  unfold relative_path. split.
  - intros [[? ?] [_ Hb]%not_or_and]. destruct (decide (p = [])) as [->|Hp].
    { exists []. by repeat constructor. }
    exists (split x2f p). rewrite join_split. split_and!; [done| |lia|done].
    apply ManagedUmlPath.normal_segments_split. tauto.
  - intros (segs & -> & Hn & ? & ?). split_and!; [lia|done|]. intros [Hh|[Hne Hb]].
    + by eapply join_normal_head.
    + rewrite split_normal in Hb by (done || by intros ->).
      apply Forall_and in Hn as [Hn _]. by apply Forall_Exists_neg in Hn.
Qed.

Lemma relative_path_nonempty_iff p :
  ¬ (p = [] ∨ (MAX_MANIFEST_PATH_BYTES < len p)%N ∨ x00 ∈ p ∨ head p = Some x2f ∨
     Exists ManagedUmlPath.bad_segment (split x2f p)) ↔
  ∃ segments, segments ≠ [] ∧ relative_path p segments.
Proof.
  split.
  - intros Hn. destruct (proj1 (relative_path_iff p)) as [segs Hs]; [tauto|].
    exists segs. split; [|done]. destruct Hs as [-> _]. intros ->. tauto.
  - intros (segs & Hne & Hs). pose proof (proj2 (relative_path_iff p) (ex_intro _ segs Hs)).
    destruct Hs as (-> & Hs & _). pose proof (join_normal_nil segs Hs). tauto.
Qed.

Definition xattrs_ok (xattrs : list ManifestXattr.t) : Prop :=
  (len xattrs ≤ MAX_MANIFEST_XATTRS)%N ∧
  Forall (λ x, ManifestXattr.name x ≠ [] ∧ x00 ∉ ManifestXattr.name x) xattrs ∧
  strictly_sorted_by ManifestXattr.name xattrs ∧
  (sum_of (λ x, len (ManifestXattr.name x) + len (ManifestXattr.value x))%N xattrs
     ≤ MAX_MANIFEST_XATTR_BYTES)%N.

(** The evidence each kind of file carries: a regular file its digest, or the path
    it is another link of; a symbolic link its target; the others nothing. *)
Inductive evidence_ok (e : ManifestEntry.t) : Prop :=
  | evidence_content digest :
      ManifestEntry.kind e = 1%N → ManifestEntry.content_sha256 e = Some digest → len digest = 32%N →
      ManifestEntry.hardlink_target e = None → ManifestEntry.symlink_target e = None → evidence_ok e
  | evidence_hardlink target segments :
      ManifestEntry.kind e = 1%N → ManifestEntry.hardlink_target e = Some target →
      segments ≠ [] → relative_path target segments →
      ManifestEntry.content_sha256 e = None → ManifestEntry.symlink_target e = None → evidence_ok e
  | evidence_symlink target :
      ManifestEntry.kind e = 3%N → ManifestEntry.symlink_target e = Some target →
      (len target ≤ MAX_MANIFEST_PATH_BYTES)%N → x00 ∉ target →
      ManifestEntry.content_sha256 e = None → ManifestEntry.hardlink_target e = None → evidence_ok e
  | evidence_none :
      ManifestEntry.kind e ∈ [2; 4; 5; 6; 7]%N → ManifestEntry.symlink_target e = None →
      ManifestEntry.content_sha256 e = None → ManifestEntry.hardlink_target e = None → evidence_ok e.

Record manifest_entry_ok (e : ManifestEntry.t) : Prop := {
  entry_path : ∃ segments, relative_path (ManifestEntry.path e) segments;
  entry_mode : (ManifestEntry.mode e < 8^4)%N;
  entry_mtime : (ManifestEntry.mtime_nanoseconds e < 10^9)%N;
  entry_evidence : evidence_ok e;
  entry_rdev : ManifestEntry.rdev e ≠ 0%N → ManifestEntry.kind e ∈ [4; 5]%N;
  entry_xattrs : xattrs_ok (ManifestEntry.xattrs e);
}.

Abbreviation xattr_bytes := (sum_of (λ x, len (ManifestXattr.name x) + len (ManifestXattr.value x))%N).

Lemma check_xattr_Ok previous total x r :
  ManifestEntry.check_xattr (previous, total) x = Ok r ↔
  (ManifestXattr.name x ≠ [] ∧ x00 ∉ ManifestXattr.name x) ∧ ¬ not_above previous (ManifestXattr.name x) ∧
  r = (Some (ManifestXattr.name x), total + len (ManifestXattr.name x) + len (ManifestXattr.value x))%N ∧
  (r.2 < u64_bound)%N.
Proof.
  simpl. rewrite !invalid_guard_ok, not_or_and, bind_ok.
  setoid_rewrite ok_or_ok. setoid_rewrite checked_add2_Some. naive_solver.
Qed.

Lemma xattr_fold_Ok l previous total n :
  (total < u64_bound)%N →
  (∃ last, fold_result ManifestEntry.check_xattr (previous, total) l = Ok (last, n)) ↔
  Forall (λ x, ManifestXattr.name x ≠ [] ∧ x00 ∉ ManifestXattr.name x) l ∧
  sorted_after previous (ManifestXattr.name <$> l) ∧ n = (total + xattr_bytes l)%N ∧ (n < u64_bound)%N.
Proof.
  revert previous total; induction l as [|x l IH]; intros previous total Ht; simpl.
  { pose proof (sorted_after_nil previous). setoid_rewrite ok_inj. rewrite Forall_nil.
    split; [naive_solver lia|]. intros (_ & _ & -> & _). exists previous. by rewrite N.add_0_r. }
  setoid_rewrite bind_ok. setoid_rewrite check_xattr_Ok. rewrite Forall_cons, sorted_after_cons. split.
  - intros (last & r & ((? & ?) & ? & -> & Hb) & Hf). simpl in Hb.
    destruct (proj1 (IH (Some (ManifestXattr.name x)) _ Hb)) as (? & ? & -> & ?); [by eexists|]. split_and!; try done; lia.
  - intros (((? & ?) & ?) & (? & ?) & -> & Hn).
    destruct (proj2 (IH (Some (ManifestXattr.name x))
      (total + len (ManifestXattr.name x) + len (ManifestXattr.value x))%N ltac:(lia))) as [last Hl].
    { split_and!; [done|done|lia|lia]. }
    exists last. eexists. split; [|exact Hl]. simpl. split_and!; try done; try tauto; lia.
Qed.

Lemma xattr_checks l :
  (len l ≤ MAX_MANIFEST_XATTRS)%N ∧
  (∃ r, fold_result ManifestEntry.check_xattr (None, 0%N) l = Ok r ∧ (r.2 ≤ MAX_MANIFEST_XATTR_BYTES)%N) ↔
  xattrs_ok l.
Proof.
  unfold xattrs_ok, strictly_sorted_by.
  pose proof (λ n, xattr_fold_Ok l None 0 n eq_refl) as Hx. split.
  - intros (? & [last n] & Hf & ?). destruct (proj1 (Hx n)) as (? & ? & -> & ?); [by eexists|]. done.
  - intros (? & ? & ? & Hb). split; [done|]. destruct (proj2 (Hx (xattr_bytes l))) as [last Hl].
    { split_and!; [done..|]. unfold MAX_MANIFEST_XATTR_BYTES, u64_bound in *. lia. }
    by eexists.
Qed.

(** The presence checks of the source and the evidence by kind. *)
Lemma evidence_checks e :
  (1 ≤ ManifestEntry.kind e ≤ 7)%N ∧
  ¬ is_some_and (λ v, x00 ∈ v ∨ (MAX_MANIFEST_PATH_BYTES < len v)%N) (ManifestEntry.symlink_target e) ∧
  ¬ is_some_and (λ v, len v ≠ 32%N) (ManifestEntry.content_sha256 e) ∧
  ¬ is_some_and (λ v, v = [] ∨ (MAX_MANIFEST_PATH_BYTES < len v)%N ∨ x00 ∈ v ∨ head v = Some x2f ∨
                      Exists ManagedUmlPath.bad_segment (split x2f v)) (ManifestEntry.hardlink_target e) ∧
  ¬ (ManifestEntry.kind e ≠ 1%N ∧
     (is_Some (ManifestEntry.content_sha256 e) ∨ is_Some (ManifestEntry.hardlink_target e))) ∧
  ¬ (ManifestEntry.kind e = 1%N ∧
     (is_Some (ManifestEntry.content_sha256 e) ↔ is_Some (ManifestEntry.hardlink_target e))) ∧
  (ManifestEntry.kind e = 3%N ↔ is_Some (ManifestEntry.symlink_target e)) ↔
  evidence_ok e.
Proof.
  split.
  - intros (Hk & Hs & Hc & Hh & Hother & Hreg & Hlink).
    destruct (ManifestEntry.symlink_target e) as [s|] eqn:Es,
      (ManifestEntry.content_sha256 e) as [c|] eqn:Ec, (ManifestEntry.hardlink_target e) as [h|] eqn:Eh;
      rewrite ?is_Some_alt in *; simpl in *;
      destruct (decide (ManifestEntry.kind e = 1%N)) as [K|K]; rewrite ?K in *; try tauto; try (exfalso; lia || tauto).
    + apply not_or_and in Hs as [? ?]. apply (evidence_symlink e s); first [done | tauto | lia].
    + apply dec_stable in Hc. by apply (evidence_content e c).
    + apply relative_path_nonempty_iff in Hh as (segs & ? & ?).
      by apply (evidence_hardlink e h segs).
    + apply evidence_none; [|done..]. assert (ManifestEntry.kind e ≠ 3%N) by (intros H; by apply Hlink in H).
      rewrite !elem_of_cons. lia.
  - intros [c Hk Hc Hl Hh Hs|h segs Hk Hh Hne Hr Hc Hs|s Hk Hs Hl Hn Hc Hh|Hk Hs Hc Hh];
      rewrite Hc, Hh, Hs, ?is_Some_alt; simpl.
    + rewrite Hk. split_and!; first [done | tauto | lia | intuition lia].
    + rewrite Hk. pose proof (proj2 (relative_path_nonempty_iff h) (ex_intro _ segs (conj Hne Hr))).
      split_and!; first [done | tauto | lia | intuition lia].
    + rewrite Hk. split_and!; first [done | tauto | lia | intuition lia].
    + rewrite !elem_of_cons, elem_of_nil in Hk. split_and!; first [done | tauto | lia | intuition lia].
Qed.

Lemma manifest_entry_validate_Ok (e : ManifestEntry.t) : validate e = Ok () ↔ manifest_entry_ok e.
Proof.
  unfold validate, ManifestEntry.validate. rewrite !invalid_guard_ok.
  rewrite bind_unit_ok, validate_count_Ok, bind_ok. split.
  - intros (Hp & Hp' & Hk%dec_stable & Hm & Ht & Hs & Hc & Hh & Ho & Hr & Hl%dec_stable & Hd & Hx).
    constructor.
    + apply relative_path_iff. split; [|done]. tauto.
    + apply (N.lt_succ_r _ 4095). by apply N.nlt_ge.
    + by apply N.nle_gt.
    + apply evidence_checks. tauto.
    + intros Hne. rewrite !elem_of_cons. destruct (decide (ManifestEntry.kind e = 4%N ∨ ManifestEntry.kind e = 5%N)); tauto.
    + apply xattr_checks. destruct Hx as [? ([last n] & Hf & Hx)]. split; [done|].
      exists (last, n). split; [done|]. by eapply validate_count_Ok.
  - intros [Hp Hm Ht (? & ? & ? & ? & ? & ? & ?)%evidence_checks Hd [? ([last n] & Hf & ?)]%xattr_checks].
    apply relative_path_iff in Hp as [[? ?] ?].
    rewrite !elem_of_cons, elem_of_nil in Hd.
    split_and!; try tauto.
    + apply N.nlt_ge. by apply (N.lt_succ_r _ 4095).
    + by apply N.nle_gt.
    + exists (last, n). split; [done|]. by apply validate_count_Ok.
Qed.

(** [ManifestEntry::validate] accepts exactly the entries whose fields fit
    their kind: a normalized relative path, permission bits, and for a regular file
    either the digest of its content or the path it is a hard link to, for a
    symbolic link a target, for a device a number; extended attributes are strictly
    sorted by name and within the limits. *)
Theorem manifest_entry_exact (e : ManifestEntry.t) : validate e = Ok () ↔ manifest_entry_ok e.
Proof. apply manifest_entry_validate_Ok. Qed.
