(* ===== verification/AccountDatabase.v ===== *)
(** * Account records: crates/pocket-protocol/src/builder.rs

    The canonical account database derived from an image's passwd and group files,
    and the message that carries it with its digest. *)

From S2P Require Import Prelude RustStr ByteOrder ProtocolError Frame Payload Sha256.

Definition MAX_ACCOUNT_DB_BYTES : N := 192 * 1024.
Definition MAX_ACCOUNT_USERS : N := 8192.
Definition MAX_ACCOUNT_GROUPS : N := 8192.
Definition MAX_ACCOUNT_NAME_BYTES : N := 256.
Definition MAX_ACCOUNT_GROUP_MEMBERS : N := 4096.
Definition MAX_ACCOUNT_MEMBERSHIPS : N := 65536.
Definition ACCOUNT_DB_SCHEMA : bytes := bs "pocket-accounts-v1".
Definition MAX_ACCOUNT_LINE_BYTES : N := 64 * 1024.

(** [byte <= b' ' || matches!(byte, b':' | b',' | 0x7f)] *)
Definition forbidden_name_byte (b : byte) : Prop :=
  (code b ≤ 32)%N ∨ b = x3a ∨ b = x2c ∨ b = x7f.
#[export] Instance forbidden_name_byte_dec b : Decision (forbidden_name_byte b).
Proof. unfold forbidden_name_byte. apply _. Defined.

Definition validate_account_name (field : string) (value : bytes) : result ProtocolError () :=
  validate_text field value MAX_ACCOUNT_NAME_BYTES false;;
  if decide (Exists forbidden_name_byte value)
  then invalid field "contains a forbidden account-name byte" else Ok ().

Module AccountUser.
Record t : Set := account_user { name : bytes; uid : N; gid : N }.
End AccountUser.

Module AccountGroup.
Record t : Set := account_group { name : bytes; gid : N; members : list bytes }.
End AccountGroup.

Module AccountDatabase.
Record t : Set := account_database {
  schema : bytes;
  users : list AccountUser.t;
  groups : list AccountGroup.t;
}.

(** One round of the loop over [groups]: the last name seen and the memberships so
    far. *)
Definition check_group (seen : option bytes * N) (group : AccountGroup.t)
    : result ProtocolError (option bytes * N) :=
  let '(previous_group, memberships) := seen in
  validate_account_name "account_db.groups.name" (AccountGroup.name group);;
  if decide (not_above previous_group (AccountGroup.name group))
  then invalid "account_db.groups" "group names are not unique and sorted" else
  validate_count "account_db.groups.members" (len (AccountGroup.members group)) MAX_ACCOUNT_GROUP_MEMBERS;;
  memberships ← ok_or (checked_add memberships (len (AccountGroup.members group)))
                      (MessageLimitExceeded "account_db.memberships" usize_max MAX_ACCOUNT_MEMBERSHIPS);
  if decide (MAX_ACCOUNT_MEMBERSHIPS < memberships)%N
  then invalid "account_db.memberships" "exceeds hard cap" else
  each_sorted (validate_account_name "account_db.groups.members") id
    (InvalidMessage "account_db.groups.members" "member names are not unique and sorted")
    (AccountGroup.members group);;
  Ok (Some (AccountGroup.name group), memberships).

#[global] Instance validate : ValidateMessage t := λ self,
  if decide (schema self ≠ ACCOUNT_DB_SCHEMA)
  then invalid "account_db.schema" "unsupported account database schema" else
  validate_count "account_db.users" (len (users self)) MAX_ACCOUNT_USERS;;
  validate_count "account_db.groups" (len (groups self)) MAX_ACCOUNT_GROUPS;;
  each_sorted (λ user, validate_account_name "account_db.users.name" (AccountUser.name user))
    AccountUser.name (InvalidMessage "account_db.users" "user names are not unique and sorted")
    (users self);;
  _ ← fold_result check_group (None, 0%N) (groups self);
  Ok ().
End AccountDatabase.

(** ** From passwd and group files *)
Definition account_lines (b : bytes) : result ProtocolError (list bytes) :=
  if decide (Exists (λ line, MAX_ACCOUNT_LINE_BYTES < len line)%N (lines b))
  then invalid "account_file" "line exceeds hard cap" else
  Ok (filter (λ line, line ≠ [] ∧ ¬ starts_with x23 line) (lines b)).

Definition parse_account_id (value : bytes) (field : string) : result ProtocolError N :=
  if decide (value = [] ∨ ¬ Forall is_ascii_digit value)
  then invalid field "is not an unsigned decimal ID" else
  ok_or (parse_uint u32_bound value) (InvalidMessage field "does not fit u32").

(** The body of the loop over the passwd lines. *)
Definition parse_user (line : bytes) : result ProtocolError AccountUser.t :=
  let fields := split x3a line in
  if decide (len fields ≠ 7%N) then invalid "passwd" "entry does not have seven fields" else
  name ← index fields 0;
  validate_account_name "passwd.name" name;;
  uid ← index fields 2; uid ← parse_account_id uid "passwd uid";
  gid ← index fields 3; gid ← parse_account_id gid "passwd gid";
  Ok (AccountUser.account_user name uid gid).

(** The body of the loop over the group lines. *)
Definition parse_group (line : bytes) : result ProtocolError AccountGroup.t :=
  let fields := split x3a line in
  if decide (len fields ≠ 4%N) then invalid "group" "entry does not have four fields" else
  name ← index fields 0;
  validate_account_name "group.name" name;;
  list ← index fields 3;
  members ← map_result (λ member, validate_account_name "group.members" member;; Ok member)
              (filter (λ member, member ≠ []) (split x2c list));
  gid ← index fields 2; gid ← parse_account_id gid "group gid";
  Ok (AccountGroup.account_group name gid (dedup (sort members))).

Definition account_database_from_files (passwd group : bytes) : result ProtocolError AccountDatabase.t :=
  passwd_lines ← account_lines passwd;
  users ← map_result parse_user passwd_lines;
  group_lines ← account_lines group;
  groups ← map_result parse_group group_lines;
  let database := AccountDatabase.account_database ACCOUNT_DB_SCHEMA
    (sort_by AccountUser.name users) (sort_by AccountGroup.name groups) in
  validate database;;
  Ok database.

(** ** The database as a message *)
Module AccountDb.
Record t : Set := account_db { schema : bytes; byte_count : N; sha256 : bytes; canonical_bytes : bytes }.

Section codec.
Context `{!Sha2} `{!Cbor AccountDatabase.t}.

#[global] Instance validate : ValidateMessage t := λ self,
  if decide (schema self ≠ ACCOUNT_DB_SCHEMA)
  then invalid "account_db.schema" "unsupported account database schema" else
  validate_count "account_db.canonical_bytes" (len (canonical_bytes self)) MAX_ACCOUNT_DB_BYTES;;
  if decide (byte_count self ≠ len (canonical_bytes self))
  then invalid "account_db.byte_count" "does not match canonical bytes" else
  validate_sha256 "account_db.sha256" (sha256 self);;
  if decide (sha256 self ≠ sha256_hex (canonical_bytes self))
  then invalid "account_db.sha256" "does not match canonical bytes" else
  database ← decode_payload (T:=AccountDatabase.t) (canonical_bytes self);
  Payload.validate database.

Definition from_database (database : AccountDatabase.t) : result ProtocolError t :=
  Payload.validate database;;
  canonical_bytes ← encode_payload database;
  validate_count "account_db.canonical_bytes" (len canonical_bytes) MAX_ACCOUNT_DB_BYTES;;
  if decide (u32_bound ≤ len canonical_bytes)%N
  then Err (MessageLimitExceeded "account_db.canonical_bytes" (len canonical_bytes) MAX_ACCOUNT_DB_BYTES) else
  Ok (account_db ACCOUNT_DB_SCHEMA (len canonical_bytes) (sha256_hex canonical_bytes) canonical_bytes).

Definition from_canonical_bytes (bytes : bytes) : result ProtocolError t :=
  validate_count "account_db.canonical_bytes" (len bytes) MAX_ACCOUNT_DB_BYTES;;
  database ← decode_payload (T:=AccountDatabase.t) bytes;
  account_db ← from_database database;
  if decide (canonical_bytes account_db ≠ bytes)
  then invalid "account_db.canonical_bytes" "bytes do not match deterministic account encoding" else
  Ok account_db.

Definition decode_database (self : t) : result ProtocolError AccountDatabase.t :=
  validate self;;
  decode_payload (canonical_bytes self).
End codec.
End AccountDb.

(** ** What a canonical database is *)
Definition account_name_ok (n : bytes) : Prop :=
  text_ok n MAX_ACCOUNT_NAME_BYTES false ∧ Forall (λ b, ¬ forbidden_name_byte b) n.

Definition account_group_ok (g : AccountGroup.t) : Prop :=
  account_name_ok (AccountGroup.name g) ∧
  (len (AccountGroup.members g) ≤ MAX_ACCOUNT_GROUP_MEMBERS)%N ∧
  Forall account_name_ok (AccountGroup.members g) ∧ strictly_sorted_by id (AccountGroup.members g).

Abbreviation memberships := (sum_of (λ g, len (AccountGroup.members g))).

Record account_database_ok (db : AccountDatabase.t) : Prop := {
  ok_schema : AccountDatabase.schema db = ACCOUNT_DB_SCHEMA;
  ok_user_count : (len (AccountDatabase.users db) ≤ MAX_ACCOUNT_USERS)%N;
  ok_group_count : (len (AccountDatabase.groups db) ≤ MAX_ACCOUNT_GROUPS)%N;
  ok_users : Forall (λ u, account_name_ok (AccountUser.name u)) (AccountDatabase.users db);
  ok_users_sorted : strictly_sorted_by AccountUser.name (AccountDatabase.users db);
  ok_groups : Forall account_group_ok (AccountDatabase.groups db);
  ok_groups_sorted : strictly_sorted_by AccountGroup.name (AccountDatabase.groups db);
  ok_memberships : (memberships (AccountDatabase.groups db) ≤ MAX_ACCOUNT_MEMBERSHIPS)%N;
}.

Lemma validate_account_name_Ok f n : validate_account_name f n = Ok () ↔ account_name_ok n.
Proof.
  unfold validate_account_name, account_name_ok. autorewrite with rust_ok.
  rewrite <- Forall_Exists_neg. tauto.
Qed.
#[export] Hint Rewrite validate_account_name_Ok : rust_ok.

Lemma check_group_Ok previous m g r :
  (m ≤ MAX_ACCOUNT_MEMBERSHIPS)%N →
  AccountDatabase.check_group (previous, m) g = Ok r ↔
  account_group_ok g ∧ ¬ not_above previous (AccountGroup.name g) ∧
  r = (Some (AccountGroup.name g), m + len (AccountGroup.members g))%N ∧
  (r.2 ≤ MAX_ACCOUNT_MEMBERSHIPS)%N.
Proof.
  intros Hm. unfold AccountDatabase.check_group, account_group_ok. autorewrite with rust_ok.
  rewrite bind_ok. setoid_rewrite ok_or_ok. setoid_rewrite checked_add_Some.
  setoid_rewrite invalid_guard_ok. setoid_rewrite bind_unit_ok. setoid_rewrite each_sorted_Ok.
  setoid_rewrite validate_account_name_Ok. setoid_rewrite ok_inj. setoid_rewrite N.nlt_ge. split.
  - intros (? & ? & ? & n & [-> ?] & ? & (? & ?) & <-). tauto.
  - intros ((? & ? & ? & ?) & ? & -> & ?). simpl in *. split_and!; [done..|]. eexists.
    split_and!; [done| |done..]. unfold MAX_ACCOUNT_MEMBERSHIPS, u64_bound in *. lia.
Qed.

Lemma group_fold_Ok l previous m :
  (m ≤ MAX_ACCOUNT_MEMBERSHIPS)%N →
  is_ok (fold_result AccountDatabase.check_group (previous, m) l) ↔
  Forall account_group_ok l ∧ sorted_after previous (AccountGroup.name <$> l) ∧
  (m + memberships l ≤ MAX_ACCOUNT_MEMBERSHIPS)%N.
Proof.
  unfold is_ok. revert previous m; induction l as [|g l IH]; intros previous m Hm; simpl.
  { pose proof (sorted_after_nil previous). rewrite Forall_nil, N.add_0_r. naive_solver. }
  setoid_rewrite bind_ok. setoid_rewrite check_group_Ok; [|done]. rewrite Forall_cons, sorted_after_cons. split.
  - intros (r & ? & (? & ? & -> & Hb) & Hf). simpl in Hb.
    destruct (proj1 (IH (Some (AccountGroup.name g)) _ Hb)) as (? & ? & ?); [by eexists|].
    split_and!; try done. lia.
  - intros ((? & ?) & (? & ?) & Hb).
    destruct (proj2 (IH (Some (AccountGroup.name g)) (m + len (AccountGroup.members g))%N ltac:(lia))) as [r Hr].
    { split_and!; [done..|lia]. }
    exists r. eexists. split; [|exact Hr]. simpl. split_and!; try done. lia.
Qed.

Lemma account_database_validate_Ok (db : AccountDatabase.t) : validate db = Ok () ↔ account_database_ok db.
Proof.
  unfold validate, AccountDatabase.validate. autorewrite with rust_ok.
  rewrite each_sorted_Ok. setoid_rewrite validate_account_name_Ok.
  rewrite bind_ok. pose proof (group_fold_Ok (AccountDatabase.groups db) None 0) as Hg.
  unfold is_ok in Hg. split.
  - intros (?%dec_stable & ? & ? & [? ?] & r & Hr & _).
    destruct (proj1 (Hg ltac:(done))) as (? & ? & ?); [by eexists|]. by constructor.
  - intros [? ? ? ? ? ? ? ?]. split_and!; [tauto|done..|]. destruct (proj2 (Hg ltac:(done))) as [r Hr]; [done|].
    by exists r.
Qed.

(** ** The database of two files *)
Lemma map_result_perm {E A B} (f : A → result E B) l l' bs :
  l ≡ₚ l' → map_result f l = Ok bs → ∃ bs', map_result f l' = Ok bs' ∧ bs ≡ₚ bs'.
Proof.
  intros Hp. revert bs. induction Hp as [|a l l' _ IH|a b l|l l1 l2 _ IH1 _ IH2]; intros bs Hm.
  - by eexists.
  - simpl in *. ok_inv. destruct (IH _ ltac:(eassumption)) as (bs' & Hb & ?).
    rename select (f a = Ok _) into Ha. rewrite Ha. rsimpl. rewrite Hb. rsimpl.
    eexists. split; [done|]. by constructor.
  - simpl in *. ok_inv. rename select (f a = Ok _) into Ha. rename select (f b = Ok _) into Hb.
    rename select (map_result f l = Ok _) into Hl.
    rewrite Ha. rsimpl. rewrite Hb. rsimpl. rewrite Hl. rsimpl. eexists. split; [done|]. constructor.
  - destruct (IH1 _ Hm) as (bs1 & Hm1 & ?). destruct (IH2 _ Hm1) as (bs2 & ? & ?).
    exists bs2. split; [done|]. by etrans.
Qed.

Lemma from_files_Ok p g db :
  account_database_from_files p g = Ok db ↔
  ∃ pl us gl gs, account_lines p = Ok pl ∧ map_result parse_user pl = Ok us ∧
    account_lines g = Ok gl ∧ map_result parse_group gl = Ok gs ∧
    db = AccountDatabase.account_database ACCOUNT_DB_SCHEMA
           (sort_by AccountUser.name us) (sort_by AccountGroup.name gs) ∧ account_database_ok db.
Proof.
  unfold account_database_from_files. setoid_rewrite bind_ok. setoid_rewrite bind_ok.
  setoid_rewrite bind_ok. setoid_rewrite bind_ok. setoid_rewrite bind_unit_ok.
  setoid_rewrite account_database_validate_Ok. setoid_rewrite ok_inj. split.
  - intros (pl & ? & us & ? & gl & ? & gs & ? & ? & <-). by exists pl, us, gl, gs.
  - intros (pl & us & gl & gs & ? & ? & ? & ? & -> & ?). by exists pl; split; [|exists us; split; [|exists gl; split; [|exists gs]]].
Qed.

(** A decimal number that fits an ID. *)
Definition id_text (s : bytes) (n : N) : Prop :=
  s ≠ [] ∧ Forall is_ascii_digit s ∧ dec_value s = n ∧ (n < u32_bound)%N.

Lemma parse_account_id_Ok s f n : parse_account_id s f = Ok n ↔ id_text s n.
Proof.
  unfold parse_account_id, id_text. autorewrite with rust_ok. split.
  - intros [[? ?%dec_stable]%not_or_and Hp]. rewrite parse_uint_digits in Hp by done. naive_solver.
  - intros (? & ? & <- & ?). split; [tauto|]. by rewrite parse_uint_digits by done.
Qed.

(** A passwd line and the record it gives. *)
Definition user_line (line : bytes) (u : AccountUser.t) : Prop :=
  ∃ password uid gid gecos home shell,
    let fields := [AccountUser.name u; password; uid; gid; gecos; home; shell] in
    line = join x3a fields ∧ Forall (λ f, x3a ∉ f) fields ∧ account_name_ok (AccountUser.name u) ∧
    id_text uid (AccountUser.uid u) ∧ id_text gid (AccountUser.gid u).

(** A group line and the record it gives: its members are the names of the last
    field, each once and in order. *)
Definition group_line (line : bytes) (g : AccountGroup.t) : Prop :=
  ∃ password gid list,
    let fields := [AccountGroup.name g; password; gid; list] in
    line = join x3a fields ∧ Forall (λ f, x3a ∉ f) fields ∧ account_name_ok (AccountGroup.name g) ∧
    id_text gid (AccountGroup.gid g) ∧
    Forall account_name_ok (AccountGroup.members g) ∧ strictly_sorted_by id (AccountGroup.members g) ∧
    ∀ m, m ∈ AccountGroup.members g ↔ m ∈ split x2c list ∧ m ≠ [].

Lemma split_fields line fields :
  fields ≠ [] → split x3a line = fields ↔ line = join x3a fields ∧ Forall (λ f, x3a ∉ f) fields.
Proof.
  intros Hne. split.
  - intros <-. split; [by rewrite join_split|apply split_pieces].
  - intros [-> ?]. by apply split_join.
Qed.

Lemma parse_user_Ok line u : parse_user line = Ok u ↔ user_line line u.
Proof.
  unfold parse_user, user_line. split.
  - intros H. apply guard_ok in H as [Hl%dec_stable H].
    destruct (split x3a line) as [|f0 [|f1 [|f2 [|f3 [|f4 [|f5 [|f6 [|]]]]]]]] eqn:Hs;
      try (unfold len in Hl; simpl in Hl; lia).
    apply split_fields in Hs as [-> Hs]; [|done]. cbn [index] in H. unfold index in H. simpl in H.
    autorewrite with rust_ok in H. destruct H as [Hn H]. ok_inv.
    rename select (parse_account_id f2 _ = _) into Hu. rename select (parse_account_id f3 _ = _) into Hg.
    apply parse_account_id_Ok in Hu, Hg. by exists f1, f2, f3, f4, f5, f6.
  - intros (f1 & f2 & f3 & f4 & f5 & f6 & Hl & Hs & Hn & Hu & Hg).
    rewrite (proj2 (split_fields line [AccountUser.name u; f1; f2; f3; f4; f5; f6] (λ H, ltac:(discriminate H))) (conj Hl Hs)).
    rewrite decide_False by (by intros Hne; apply Hne).
    unfold index. simpl. rewrite (proj2 (validate_account_name_Ok _ _) Hn). rsimpl.
    rewrite (proj2 (parse_account_id_Ok _ _ _) Hu). rsimpl. rewrite (proj2 (parse_account_id_Ok _ _ _) Hg). rsimpl.
    by destruct u.
Qed.

Lemma member_checks f l ms :
  map_result (λ member, validate_account_name f member;; Ok member) l = Ok ms ↔
  ms = l ∧ Forall account_name_ok l.
Proof.
  rewrite map_result_ok. revert ms; induction l as [|m l IH]; intros ms.
  { split; [by intros ->%Forall2_nil_inv_l|intros [-> _]; constructor]. }
  rewrite Forall_cons. split.
  - intros (m' & ms' & Hm & (-> & ?)%IH & ->)%Forall2_cons_inv_l. autorewrite with rust_ok in Hm. naive_solver.
  - intros [-> [? ?]]. constructor; [by autorewrite with rust_ok|]. by apply IH.
Qed.

Lemma parse_group_Ok line g : parse_group line = Ok g ↔ group_line line g.
Proof.
  unfold parse_group, group_line. split.
  - intros H. apply guard_ok in H as [Hl%dec_stable H].
    destruct (split x3a line) as [|f0 [|f1 [|f2 [|f3 [|]]]]] eqn:Hs;
      try (unfold len in Hl; simpl in Hl; lia).
    apply split_fields in Hs as [-> Hs]; [|done]. unfold index in H. simpl in H.
    autorewrite with rust_ok in H. destruct H as [Hn H]. ok_inv.
    rename select (parse_account_id f2 _ = _) into Hg. apply parse_account_id_Ok in Hg.
    rename select (map_result _ _ = _) into Hm. apply member_checks in Hm as [-> Hm].
    exists f1, f2, f3. simpl. split_and!; try done.
    + rewrite Forall_forall in *. intros m Hin. apply Hm. by apply elem_of_sort_dedup.
    + unfold strictly_sorted_by. rewrite list_fmap_id. apply sort_dedup_sorted.
    + intros m. rewrite elem_of_sort_dedup, list_elem_of_filter. tauto.
  - intros (f1 & f2 & f3 & Hl & Hs & Hn & Hg & Hm & Hsorted & Hin).
    rewrite (proj2 (split_fields line [AccountGroup.name g; f1; f2; f3] (λ H, ltac:(discriminate H))) (conj Hl Hs)).
    rewrite decide_False by (by intros Hne; apply Hne).
    unfold index. simpl. rewrite (proj2 (validate_account_name_Ok _ _) Hn). rsimpl.
    unfold strictly_sorted_by in Hsorted. rewrite list_fmap_id in Hsorted.
    assert (∀ m, m ∈ filter (λ m, m ≠ []) (split x2c f3) ↔ m ∈ AccountGroup.members g) as Hf
      by (intros m; rewrite list_elem_of_filter, Hin; tauto).
    assert (Forall account_name_ok (filter (λ m, m ≠ []) (split x2c f3))) as Hok.
    { rewrite Forall_forall in *. intros m Hmem. by apply Hm, Hf. }
    rewrite (proj2 (member_checks _ _ _) (conj eq_refl Hok)). rsimpl. rewrite (proj2 (parse_account_id_Ok _ _ _) Hg). rsimpl.
    rewrite (sort_dedup_unique _ (AccountGroup.members g)) by done. by destruct g.
Qed.

Lemma elem_of_map_result {E A B} (f : A → result E B) l bs b :
  map_result f l = Ok bs → b ∈ bs ↔ ∃ a, a ∈ l ∧ f a = Ok b.
Proof.
  intros Hm%map_result_ok. split.
  - intros Hb. apply list_elem_of_lookup_1 in Hb as [i Hi].
    destruct (Forall2_lookup_r _ _ _ _ _ Hm Hi) as (a & Ha & ?). exists a. split; [|done].
    by eapply list_elem_of_lookup_2.
  - intros (a & Ha & Hf). apply list_elem_of_lookup_1 in Ha as [i Hi].
    destruct (Forall2_lookup_l _ _ _ _ _ Hm Hi) as (b' & Hb & Hf'). assert (b' = b) as -> by congruence.
    by eapply list_elem_of_lookup_2.
Qed.

(** What [account_database_from_files] derives.  When it succeeds the result
    is canonical, its users are exactly the records of the passwd file's lines and
    its groups exactly those of the group file's, each group's members being the
    non-empty names of its list, once each and sorted; comments and blank lines
    count for nothing. *)
Theorem account_database_contents p g db :
  account_database_from_files p g = Ok db →
  account_database_ok db ∧
  ∃ pl gl, account_lines p = Ok pl ∧ account_lines g = Ok gl ∧
    (∀ u, u ∈ AccountDatabase.users db ↔ ∃ line, line ∈ pl ∧ user_line line u) ∧
    (∀ r, r ∈ AccountDatabase.groups db ↔ ∃ line, line ∈ gl ∧ group_line line r) ∧
    len (AccountDatabase.users db) = len pl ∧ len (AccountDatabase.groups db) = len gl.
Proof.
  intros (pl & us & gl & gs & Hp & Hu & Hg & Hr & -> & Hok)%from_files_Ok. split; [done|].
  exists pl, gl. split_and!; [done..| | | |]; simpl.
  - intros u. rewrite sort_by_perm, (elem_of_map_result _ _ _ _ Hu). by setoid_rewrite parse_user_Ok.
  - intros r. rewrite sort_by_perm, (elem_of_map_result _ _ _ _ Hr). by setoid_rewrite parse_group_Ok.
  - unfold len. rewrite sort_by_perm. apply map_result_ok, Forall2_length in Hu. by rewrite Hu.
  - unfold len. rewrite sort_by_perm. apply map_result_ok, Forall2_length in Hr. by rewrite Hr.
Qed.

Definition sample_passwd : bytes :=
  bs "# accounts" ++ [x0a] ++ bs "root:x:0:0:root:/root:/bin/sh" ++ [x0a] ++ bs "app:x:1000:1000::/app:/bin/false" ++ [x0a].
Definition sample_group : bytes := bs "wheel:x:10:root,,app,root" ++ [x0a].
Definition sample_database : AccountDatabase.t :=
  AccountDatabase.account_database ACCOUNT_DB_SCHEMA
    [AccountUser.account_user (bs "app") 1000 1000; AccountUser.account_user (bs "root") 0 0]
    [AccountGroup.account_group (bs "wheel") 10 [bs "app"; bs "root"]].

Lemma account_database_contents_witness :
  account_database_from_files sample_passwd sample_group = Ok sample_database ∧
  account_database_ok sample_database.
Proof.
  split; [by vm_compute|]. apply (account_database_contents sample_passwd sample_group sample_database).
  by vm_compute.
Defined.

Lemma sorted_database_unique {A} (key : A → bytes) l l' :
  strictly_sorted_by key (sort_by key l) → l ≡ₚ l' → sort_by key l = sort_by key l'.
Proof.
  intros Hs Hp. apply (strictly_sorted_unique key); [done|apply sort_by_sorted|]. by rewrite !sort_by_perm.
Qed.

Lemma database_order p p' g g' pl pl' gl gl' db :
  account_lines p = Ok pl → account_lines p' = Ok pl' → pl ≡ₚ pl' →
  account_lines g = Ok gl → account_lines g' = Ok gl' → gl ≡ₚ gl' →
  account_database_from_files p g = Ok db → account_database_from_files p' g' = Ok db.
Proof.
  intros Hp Hp' Hpp Hg Hg' Hgg.
  rewrite !from_files_Ok. intros (pl1 & us & gl1 & gs & Hp1 & Hu & Hg1 & Hr & -> & Hok).
  assert (pl1 = pl) as -> by congruence. assert (gl1 = gl) as -> by congruence.
  destruct (map_result_perm _ _ _ _ Hpp Hu) as (us' & ? & ?).
  destruct (map_result_perm _ _ _ _ Hgg Hr) as (gs' & ? & ?).
  exists pl', us', gl', gs'. split_and!; try done.
  rewrite (sorted_database_unique _ us us'), (sorted_database_unique _ gs gs'); [done|apply Hok|done|apply Hok|done].
Qed.

(** The derivation does not depend on the order of the lines.  Two pairs of
    files with the same records, whatever their order and whatever comments and
    blank lines are between them, give the same database or are both refused. *)
Theorem account_database_order_independent p p' g g' pl pl' gl gl' db :
  account_lines p = Ok pl → account_lines p' = Ok pl' → pl ≡ₚ pl' →
  account_lines g = Ok gl → account_lines g' = Ok gl' → gl ≡ₚ gl' →
  account_database_from_files p g = Ok db ↔ account_database_from_files p' g' = Ok db.
Proof.
  intros. split; [by eapply database_order|eapply database_order; try done; by symmetry].
Qed.

Definition reordered_passwd : bytes :=
  bs "app:x:1000:1000::/app:/bin/false" ++ [x0a; x0a] ++ bs "root:x:0:0:root:/root:/bin/sh".

Lemma account_database_order_independent_witness :
  account_database_from_files reordered_passwd sample_group = Ok sample_database.
Proof.
  pose (root := bs "root:x:0:0:root:/root:/bin/sh"). pose (app := bs "app:x:1000:1000::/app:/bin/false").
  pose (wheel := bs "wheel:x:10:root,,app,root").
  apply (account_database_order_independent sample_passwd reordered_passwd sample_group sample_group
           [root; app] [app; root] [wheel] [wheel] sample_database);
    [by vm_compute|by vm_compute|constructor|by vm_compute|by vm_compute|reflexivity|by vm_compute].
Defined.

(** ** The message *)
Section account_db.
Context `{!Sha2} `{!Sha2Laws} `{!Cbor AccountDatabase.t} `{!CborLaws AccountDatabase.t}.

Lemma from_database_Ok db a :
  AccountDb.from_database db = Ok a ↔
  ∃ b, encode_payload db = Ok b ∧ (len b ≤ MAX_ACCOUNT_DB_BYTES)%N ∧
       a = AccountDb.account_db ACCOUNT_DB_SCHEMA (len b) (sha256_hex b) b.
Proof.
  unfold AccountDb.from_database. split.
  - intros Ha. ok_inv. rename select (encode_payload db = _) into He.
    rename select (validate_count _ _ _ = _) into Hc. apply validate_count_Ok in Hc. by eexists.
  - intros (b & Hb & Hl & ->). pose proof Hb as Hv. apply encode_payload_Ok in Hv as [-> _]. rsimpl.
    rewrite Hb. rsimpl. rewrite (proj2 (validate_count_Ok _ _ _) Hl). rsimpl.
    rewrite decide_False; [done|]. unfold MAX_ACCOUNT_DB_BYTES, u32_bound in *. lia.
Qed.

Lemma account_db_validate_Ok (a : AccountDb.t) :
  validate a = Ok () ↔ ∃ db, AccountDb.from_database db = Ok a.
Proof.
  unfold validate at 1, AccountDb.validate. setoid_rewrite from_database_Ok.
  autorewrite with rust_ok. rewrite bind_ok. setoid_rewrite payload_codec. split.
  - intros (Hs%dec_stable & ? & Hc%dec_stable & _ & Hh%dec_stable & db & He & _).
    exists db, (AccountDb.canonical_bytes a). split_and!; [done..|].
    destruct a; simpl in *; congruence.
  - intros (db & b & He & ? & ->). simpl. split_and!; [tauto|done|tauto|apply sha256_hex_ok|tauto|].
    exists db. split; [done|]. by apply encode_payload_Ok in He as [? _].
Qed.
End account_db.

(** C39: an account message is accepted exactly when it is [from_database] of some
    database; decoding it gives that database back, and its bytes alone rebuild the
    whole message, schema, length and digest included. *)
Theorem account_db_exact `{!Sha2} `{!Sha2Laws} `{!Cbor AccountDatabase.t} `{!CborLaws AccountDatabase.t}
    (a : AccountDb.t) :
  (validate a = Ok () ↔ ∃ db, AccountDb.from_database db = Ok a) ∧
  (∀ db, AccountDb.from_database db = Ok a ↔ AccountDb.decode_database a = Ok db) ∧
  (∀ b, AccountDb.from_canonical_bytes b = Ok a ↔ validate a = Ok () ∧ AccountDb.canonical_bytes a = b).
Proof.
  assert (∀ db, AccountDb.from_database db = Ok a →
    encode_payload db = Ok (AccountDb.canonical_bytes a) ∧
    (len (AccountDb.canonical_bytes a) ≤ MAX_ACCOUNT_DB_BYTES)%N) as Hbytes.
  { intros db (b & ? & ? & ->)%from_database_Ok. done. }
  split_and!; [apply account_db_validate_Ok|intros db|intros b].
  - unfold AccountDb.decode_database. rewrite bind_unit_ok, payload_codec.
    change (AccountDb.validate a) with (validate a). rewrite account_db_validate_Ok. split.
    + intros Ha. split; [by exists db|]. by apply Hbytes.
    + intros [[db' Ha] He]. pose proof (Hbytes _ Ha) as [He' _].
      apply payload_codec in He, He'. by assert (db = db') as -> by congruence.
  - unfold AccountDb.from_canonical_bytes. rewrite account_db_validate_Ok. split.
    + unfold invalid. intros Ha. ok_inv. split; [by eexists|done].
    + intros [[db Ha] <-]. destruct (Hbytes _ Ha) as [He Hl].
      rewrite (proj2 (validate_count_Ok _ _ _) Hl), (proj2 (payload_codec _ _) He). rsimpl.
      rewrite Ha. rsimpl. by rewrite decide_False by tauto.
Qed.

(** A codec that knows one database. *)
Module SampleAccountCodec.
Definition sample_bytes : bytes := [xa3; x00; x60].

#[export] Instance database_eq_dec : EqDecision AccountDatabase.t.
Proof.
  assert (EqDecision AccountUser.t) by solve_decision. assert (EqDecision AccountGroup.t) by solve_decision.
  solve_decision.
Defined.

#[export] Instance sample_codec : Cbor AccountDatabase.t :=
  SampleCodecs.one_codec sample_database sample_bytes.
#[export] Instance sample_codec_laws : CborLaws AccountDatabase.t.
Proof. apply SampleCodecs.one_codec_laws. Qed.

#[local] Existing Instances SampleHash.sample_sha2 SampleHash.sample_sha2_laws.

Lemma account_db_exact_witness :
  AccountDb.decode_database (AccountDb.account_db ACCOUNT_DB_SCHEMA 3 (sha256_hex sample_bytes) sample_bytes)
  = Ok sample_database.
Proof. apply account_db_exact. by vm_compute. Defined.
End SampleAccountCodec.
