(* ===== verification/BuilderMessage.v ===== *)
(** * Builder messages: crates/pocket-protocol/src/builder.rs

    The messages of the builder protocol other than the manifest stream and the
    account database, the sum of all of them, and error messages cut to size. *)

From S2P Require Import Prelude RustStr Utf8 ByteOrder ErrorCode ProtocolError Frame Payload.
From S2P Require Import Message Sha256 BuilderManifest AccountDatabase.

Definition MAX_BUILDER_TOOLS : N := 16.
Definition MAX_BUILDER_LAYERS : N := 512.
Definition MAX_MEDIA_TYPE_LENGTH : N := 256.
Definition MAX_ORIGINAL_USER_LENGTH : N := 1024.
Definition MAX_LAYER_COMPRESSED_BYTES : N := 128 * 1024 * 1024 * 1024.
Definition MAX_LAYER_UNCOMPRESSED_BYTES : N := 64 * 1024 * 1024 * 1024.
Definition MAX_TOTAL_UNCOMPRESSED_BYTES : N := 256 * 1024 * 1024 * 1024.
Definition SOURCE_DATE_EPOCH_MIN : N := 946684800.
Definition SOURCE_DATE_EPOCH_MAX : N := 4102444800.

(** ** Field checks *)
Definition validate_oci_digest (field : string) (value : bytes) : result ProtocolError () :=
  match strip_prefix (bs "sha256:") value with
  | None => invalid field "digest must use sha256"
  | Some hex => validate_sha256 field hex
  end.

Definition validate_media_type (field : string) (value : bytes) : result ProtocolError () :=
  validate_text field value MAX_MEDIA_TYPE_LENGTH false;;
  if decide (¬ Forall (λ b, 33 ≤ code b ≤ 126)%N value)
  then invalid field "media type contains whitespace or non-ASCII bytes" else Ok ().

Definition validate_builder_memory (field : string) (bytes : N) : result ProtocolError () :=
  let MINIMUM := (64 * 1024 * 1024)%N in
  let MAXIMUM := (1024 * 1024 * 1024 * 1024)%N in
  if decide (¬ (MINIMUM ≤ bytes ≤ MAXIMUM)%N ∨ ¬ is_multiple_of bytes 4096)
  then invalid field "builder memory must be 64 MiB..=1 TiB and 4096-byte aligned" else Ok ().

Definition validate_platforms (descriptor : option Platform.t) (config effective : Platform.t)
    : result ProtocolError () :=
  if decide (Platform.os config ≠ Platform.os effective ∨
             Platform.architecture config ≠ Platform.architecture effective)
  then invalid "platform" "config and effective OS/architecture disagree" else
  match descriptor with
  | Some descriptor =>
      if decide (Platform.os descriptor ≠ Platform.os config ∨
                 Platform.architecture descriptor ≠ Platform.architecture config)
      then invalid "platform" "descriptor and config OS/architecture disagree" else
      match Platform.variant descriptor, Platform.variant config with
      | Some left', Some right' =>
          if decide (left' ≠ right') then invalid "platform" "explicit variants disagree" else Ok ()
      | _, _ => Ok ()
      end
  | None => Ok ()
  end;;
  let variant :=
    match descriptor ≫= Platform.variant with Some v => Some v | None => Platform.variant config end in
  if decide (variant ≠ Platform.variant effective)
  then invalid "effective_platform" "variant does not match raw platform fields" else
  Ok ().

Module ToolIdentity.
Record t : Set := tool_identity { role : bytes; sha256 : bytes; version : bytes }.
#[global] Instance eq_dec : EqDecision t.
Proof. solve_decision. Defined.

Definition validate (self : t) : result ProtocolError () :=
  validate_token "tool.role" (role self) 64;;
  validate_sha256 "tool.sha256" (sha256 self);;
  validate_text "tool.version" (version self) 256 false.
End ToolIdentity.

Definition validate_tools (tools : list ToolIdentity.t) (field : string) : result ProtocolError () :=
  validate_count field (len tools) MAX_BUILDER_TOOLS;;
  if decide (tools = []) then invalid field "at least one tool identity is required" else
  each_sorted ToolIdentity.validate ToolIdentity.role
    (InvalidMessage field "tool roles are not strictly sorted") tools.

(** ** The handshake *)
Module BuilderHello.
Record t : Set := builder_hello {
  guest_contract_id : bytes;
  init_build_id : bytes;
  kernel_build_id : bytes;
  host_elf_machine : N;
  guest_uts_machine : bytes;
  guest_page_size : N;
  cpu_state_hwcap_policy : bytes;
  online_cpus : N;
  builder_tools : list ToolIdentity.t;
  features : list bytes;
  accepted_physmem_bytes : N;
}.

#[global] Instance validate : ValidateMessage t := λ self,
  validate_sha256 "guest_contract_id" (guest_contract_id self);;
  validate_sha256 "init_build_id" (init_build_id self);;
  validate_sha256 "kernel_build_id" (kernel_build_id self);;
  if decide (¬ (host_elf_machine self = 62%N ∨ host_elf_machine self = 183%N))
  then invalid "host_elf_machine" "unsupported ELF machine" else
  if decide (¬ (guest_uts_machine self = bs "x86_64" ∨ guest_uts_machine self = bs "aarch64"))
  then invalid "guest_uts_machine" "unsupported guest machine" else
  if decide (¬ (4096 ≤ guest_page_size self ≤ 65536)%N ∨ ¬ is_power_of_two (guest_page_size self))
  then invalid "guest_page_size" "unsupported page size" else
  validate_token "cpu_state_hwcap_policy" (cpu_state_hwcap_policy self) MAX_ID_LENGTH;;
  if decide (online_cpus self ≠ 1%N)
  then invalid "online_cpus" "builder must have exactly one online CPU" else
  validate_builder_memory "accepted_physmem_bytes" (accepted_physmem_bytes self);;
  if decide (¬ is_multiple_of (accepted_physmem_bytes self) (guest_page_size self))
  then invalid "accepted_physmem_bytes" "must be aligned to the reported guest page size" else
  validate_tools (builder_tools self) "builder_tools";;
  validate_count "features" (len (features self)) 32;;
  each_unique (λ feature, validate_token "features" feature 64) id
    (InvalidMessage "features" "duplicate feature") (features self).
End BuilderHello.

Module OciDescriptor.
Record t : Set := oci_descriptor { digest : bytes; size : N; media_type : bytes }.

Definition validate (self : t) (field : string) (maximum_size : N) : result ProtocolError () :=
  validate_oci_digest field (digest self);;
  if decide (size self = 0 ∨ maximum_size < size self)%N
  then invalid field "descriptor size is zero or exceeds its hard cap" else
  validate_media_type field (media_type self).
End OciDescriptor.

Module BuilderLayerDescriptor.
Record t : Set := builder_layer_descriptor {
  descriptor : OciDescriptor.t;
  diff_id : bytes;
  uncompressed_size : N;
}.

Definition validate (self : t) : result ProtocolError () :=
  OciDescriptor.validate (descriptor self) "layers.descriptor" MAX_LAYER_COMPRESSED_BYTES;;
  validate_oci_digest "layers.diff_id" (diff_id self);;
  if decide (MAX_LAYER_UNCOMPRESSED_BYTES < uncompressed_size self)%N
  then invalid "layers.uncompressed_size" "exceeds hard cap" else
  if decide (saturating_mul (OciDescriptor.size (descriptor self)) 1024 < uncompressed_size self)%N
  then invalid "layers.uncompressed_size" "exceeds the fixed decompression-ratio cap" else
  Ok ().
End BuilderLayerDescriptor.

Module BuilderStart.
Record t : Set := builder_start {
  profile_id : bytes;
  profile_revision : bytes;
  derivation_key : bytes;
  selected_manifest : OciDescriptor.t;
  config : OciDescriptor.t;
  layers : list BuilderLayerDescriptor.t;
  descriptor_platform : option Platform.t;
  config_platform : Platform.t;
  effective_platform : Platform.t;
  selector_policy : bytes;
  root_layout : bytes;
  filesystem_contract : bytes;
  manifest_schema : bytes;
  manifest_limits : ManifestLimits.t;
  expected_tools : list ToolIdentity.t;
  input_reference : bytes;
  original_user : bytes;
  expected_physmem_bytes : N;
  source_date_epoch : N;
}.

(** The loop over [layers]. *)
Definition layer_total (layers : list BuilderLayerDescriptor.t) : result ProtocolError N :=
  fold_result (λ total_uncompressed layer,
    BuilderLayerDescriptor.validate layer;;
    ok_or (checked_add total_uncompressed (BuilderLayerDescriptor.uncompressed_size layer))
          (MessageLimitExceeded "layers.uncompressed_total" usize_max usize_max)) 0%N layers.

#[global] Instance validate : ValidateMessage t := λ self,
  validate_token "profile_id" (profile_id self) MAX_ID_LENGTH;;
  validate_sha256 "profile_revision" (profile_revision self);;
  validate_sha256 "derivation_key" (derivation_key self);;
  OciDescriptor.validate (selected_manifest self) "selected_manifest" (4 * 1024 * 1024);;
  OciDescriptor.validate (config self) "config" (16 * 1024 * 1024);;
  validate_count "layers" (len (layers self)) MAX_BUILDER_LAYERS;;
  total_uncompressed ← layer_total (layers self);
  if decide (MAX_TOTAL_UNCOMPRESSED_BYTES < total_uncompressed)%N
  then invalid "layers.uncompressed_total" "exceeds hard cap" else
  match descriptor_platform self with
  | Some platform => Platform.validate platform "descriptor_platform"
  | None => Ok ()
  end;;
  Platform.validate (config_platform self) "config_platform";;
  Platform.validate (effective_platform self) "effective_platform";;
  validate_platforms (descriptor_platform self) (config_platform self) (effective_platform self);;
  validate_token "selector_policy" (selector_policy self) MAX_ID_LENGTH;;
  validate_token "root_layout" (root_layout self) MAX_ID_LENGTH;;
  validate_token "filesystem_contract" (filesystem_contract self) MAX_ID_LENGTH;;
  validate_token "manifest_schema" (manifest_schema self) MAX_ID_LENGTH;;
  ManifestLimits.validate (manifest_limits self);;
  validate_tools (expected_tools self) "expected_tools";;
  validate_token "input_reference" (input_reference self) 128;;
  if decide (input_reference self ≠ bs "root")
  then invalid "input_reference" "only the canonical root reference is supported" else
  validate_text "original_user" (original_user self) MAX_ORIGINAL_USER_LENGTH true;;
  validate_builder_memory "expected_physmem_bytes" (expected_physmem_bytes self);;
  if decide (¬ (SOURCE_DATE_EPOCH_MIN ≤ source_date_epoch self ≤ SOURCE_DATE_EPOCH_MAX)%N)
  then invalid "source_date_epoch" "must be a pinned Unix timestamp from 2000-01-01 through 2100-01-01" else
  Ok ().
End BuilderStart.

Module GenerationMarker.
Record t : Set := generation_marker {
  schema : bytes;
  derivation_key : bytes;
  profile_id : bytes;
  profile_revision : bytes;
  descriptor_platform : option Platform.t;
  config_platform : Platform.t;
  effective_platform : Platform.t;
  selector_policy : bytes;
  root_layout : bytes;
  filesystem_contract : bytes;
  account_db_sha256 : bytes;
}.

Definition from_start (start : BuilderStart.t) (account_db_sha256 : bytes) : t := {|
  schema := bs "pocket-generation-v3";
  derivation_key := BuilderStart.derivation_key start;
  profile_id := BuilderStart.profile_id start;
  profile_revision := BuilderStart.profile_revision start;
  descriptor_platform := BuilderStart.descriptor_platform start;
  config_platform := BuilderStart.config_platform start;
  effective_platform := BuilderStart.effective_platform start;
  selector_policy := BuilderStart.selector_policy start;
  root_layout := BuilderStart.root_layout start;
  filesystem_contract := BuilderStart.filesystem_contract start;
  account_db_sha256 := account_db_sha256;
|}.

#[global] Instance validate : ValidateMessage t := λ self,
  if decide (schema self ≠ bs "pocket-generation-v3")
  then invalid "schema" "unsupported generation-marker schema" else
  validate_sha256 "derivation_key" (derivation_key self);;
  validate_token "profile_id" (profile_id self) MAX_ID_LENGTH;;
  validate_sha256 "profile_revision" (profile_revision self);;
  match descriptor_platform self with
  | Some platform => Platform.validate platform "descriptor_platform"
  | None => Ok ()
  end;;
  Platform.validate (config_platform self) "config_platform";;
  Platform.validate (effective_platform self) "effective_platform";;
  validate_platforms (descriptor_platform self) (config_platform self) (effective_platform self);;
  validate_token "selector_policy" (selector_policy self) MAX_ID_LENGTH;;
  validate_token "root_layout" (root_layout self) MAX_ID_LENGTH;;
  validate_token "filesystem_contract" (filesystem_contract self) MAX_ID_LENGTH;;
  validate_sha256 "account_db_sha256" (account_db_sha256 self).
End GenerationMarker.

(** ** The result *)
Module UserResolution.
Record t : Set := user_resolution { kind : N; uid : N; gid : N; supplementary_gids : list N }.

Definition KIND_UNRESOLVED : N := 3.
Definition unresolved : t := user_resolution KIND_UNRESOLVED 0 0 [].

Definition validate (self : t) : result ProtocolError () :=
  if decide (KIND_UNRESOLVED < kind self)%N
  then invalid "user_resolution.kind" "unknown resolution kind" else
  if decide (kind self = KIND_UNRESOLVED ∧
             (uid self ≠ 0%N ∨ gid self ≠ 0%N ∨ supplementary_gids self ≠ []))
  then invalid "user_resolution" "unresolved user must not carry numeric resolution evidence" else
  validate_count "user_resolution.supplementary_gids" (len (supplementary_gids self)) 64;;
  each_unique (λ _, Ok ()) id
    (InvalidMessage "user_resolution.supplementary_gids" "duplicate group ID") (supplementary_gids self).
End UserResolution.

Module FilesystemStatus.
Record t : Set := filesystem_status {
  target_synced : bool;
  target_unmounted : bool;
  input_unmounted : bool;
}.
End FilesystemStatus.

Module BuilderDone.
Record t : Set := builder_done {
  status : N;
  manifest_sha256 : bytes;
  entry_count : N;
  byte_count : N;
  generation_marker_sha256 : bytes;
  original_user : bytes;
  user_resolution : UserResolution.t;
  observed_tools : list ToolIdentity.t;
  filesystem_status : FilesystemStatus.t;
  account_db_sha256 : bytes;
}.

#[global] Instance validate : ValidateMessage t := λ self,
  if decide (status self ≠ 0%N) then invalid "status" "BUILD_DONE status must be zero" else
  validate_sha256 "manifest_sha256" (manifest_sha256 self);;
  validate_sha256 "generation_marker_sha256" (generation_marker_sha256 self);;
  validate_sha256 "account_db_sha256" (account_db_sha256 self);;
  validate_text "original_user" (original_user self) MAX_ORIGINAL_USER_LENGTH true;;
  UserResolution.validate (user_resolution self);;
  validate_tools (observed_tools self) "observed_tools";;
  if decide (FilesystemStatus.target_synced (filesystem_status self) = false ∨
             FilesystemStatus.target_unmounted (filesystem_status self) = false ∨
             FilesystemStatus.input_unmounted (filesystem_status self) = false)
  then invalid "filesystem_status" "successful build must be synced and fully unmounted" else
  Ok ().
End BuilderDone.

(** ** The messages together *)
Module BuilderMessage.
Inductive t : Set :=
  | Hello (message : BuilderHello.t)
  | Start (message : BuilderStart.t)
  | ManifestBegin (message : ManifestBegin.t)
  | ManifestChunk (message : ManifestChunk.t)
  | ManifestEnd (message : ManifestEnd.t)
  | AccountDb (message : AccountDb.t)
  | Done (message : BuilderDone.t)
  | Error (message : ErrorMessage.t).

Definition kind (self : t) : MessageKind.t :=
  match self with
  | Hello _ => MessageKind.BuildHello
  | Start _ => MessageKind.BuildStart
  | ManifestBegin _ => MessageKind.ManifestBegin
  | ManifestChunk _ => MessageKind.ManifestChunk
  | ManifestEnd _ => MessageKind.ManifestEnd
  | AccountDb _ => MessageKind.AccountDb
  | Done _ => MessageKind.BuildDone
  | Error _ => MessageKind.BuildError
  end.

(** The codecs of the payload types, and of the two types inside them that are
    encoded on their own. *)
Class Codecs := {
  hello_cbor :: Cbor BuilderHello.t;
  start_cbor :: Cbor BuilderStart.t;
  begin_cbor :: Cbor ManifestBegin.t;
  chunk_cbor :: Cbor ManifestChunk.t;
  end_cbor :: Cbor ManifestEnd.t;
  account_cbor :: Cbor AccountDb.t;
  done_cbor :: Cbor BuilderDone.t;
  build_error_cbor :: Cbor ErrorMessage.t;
  database_cbor :: Cbor AccountDatabase.t;
  entry_cbor :: Cbor ManifestEntry.t;
}.

Class CodecsLaws `{Codecs} := {
  hello_laws :: CborLaws BuilderHello.t;
  start_laws :: CborLaws BuilderStart.t;
  begin_laws :: CborLaws ManifestBegin.t;
  chunk_laws :: CborLaws ManifestChunk.t;
  end_laws :: CborLaws ManifestEnd.t;
  account_laws :: CborLaws AccountDb.t;
  done_laws :: CborLaws BuilderDone.t;
  build_error_laws :: CborLaws ErrorMessage.t;
  database_laws :: CborLaws AccountDatabase.t;
  entry_laws :: CborLaws ManifestEntry.t;
}.

Section codec.
Context `{!Sha2} `{!Codecs}.

Definition encode_payload (self : t) : result ProtocolError bytes :=
  match self with
  | Hello message => Payload.encode_payload message
  | Start message => Payload.encode_payload message
  | ManifestBegin message => Payload.encode_payload message
  | ManifestChunk message => Payload.encode_payload message
  | ManifestEnd message => Payload.encode_payload message
  | AccountDb message => Payload.encode_payload message
  | Done message => Payload.encode_payload message
  | Error message => Payload.encode_payload message
  end.

Definition validate (self : t) : result ProtocolError () :=
  match self with
  | Hello message => Payload.validate message
  | Start message => Payload.validate message
  | ManifestBegin message => Payload.validate message
  | ManifestChunk message => Payload.validate message
  | ManifestEnd message => Payload.validate message
  | AccountDb message => Payload.validate message
  | Done message => Payload.validate message
  | Error message => Payload.validate message
  end.

Definition decode_builder_message (frame : RawFrame) : result ProtocolError t :=
  let payload := payload frame in
  match Frame.kind (header frame) with
  | MessageKind.BuildHello => Hello <$> decode_payload payload
  | MessageKind.BuildStart => Start <$> decode_payload payload
  | MessageKind.ManifestBegin => ManifestBegin <$> decode_payload payload
  | MessageKind.ManifestChunk => ManifestChunk <$> decode_payload payload
  | MessageKind.ManifestEnd => ManifestEnd <$> decode_payload payload
  | MessageKind.AccountDb => AccountDb <$> decode_payload payload
  | MessageKind.BuildDone => Done <$> decode_payload payload
  | MessageKind.BuildError => Error <$> decode_payload payload
  | MessageKind.Hello | MessageKind.Start | MessageKind.Ready | MessageKind.Exit
  | MessageKind.Error | MessageKind.Shutdown | MessageKind.Signal | MessageKind.Resize
  | MessageKind.ValidateHello | MessageKind.ValidateStart | MessageKind.ValidateDone
  | MessageKind.ValidateError => invalid "kind" "non-builder message in builder protocol"
  end.
End codec.
End BuilderMessage.

#[export] Existing Instances BuilderMessage.hello_cbor BuilderMessage.start_cbor
  BuilderMessage.begin_cbor BuilderMessage.chunk_cbor BuilderMessage.end_cbor
  BuilderMessage.account_cbor BuilderMessage.done_cbor BuilderMessage.build_error_cbor
  BuilderMessage.database_cbor BuilderMessage.entry_cbor
  BuilderMessage.hello_laws BuilderMessage.start_laws BuilderMessage.begin_laws
  BuilderMessage.chunk_laws BuilderMessage.end_laws BuilderMessage.account_laws
  BuilderMessage.done_laws BuilderMessage.build_error_laws
  BuilderMessage.database_laws BuilderMessage.entry_laws.

(** ** Error messages cut to size *)

(** [while !diagnostic.is_char_boundary(boundary) { boundary -= 1; }] *)
Fixpoint boundary_below (s : bytes) (boundary : nat) : nat :=
  if decide (is_char_boundary s boundary) then boundary else
  match boundary with O => O | S boundary => boundary_below s boundary end.

(** The truncation [builder_error_message] and [validator_error_message] do. *)
Definition truncate_diagnostic (diagnostic : bytes) : bytes :=
  if decide (MAX_DIAGNOSTIC_LENGTH < len diagnostic)%N
  then take (boundary_below diagnostic (N.to_nat MAX_DIAGNOSTIC_LENGTH)) diagnostic
  else diagnostic.

Definition builder_error_message (stage : bytes) (code : ErrorCode.t) (errno : option Z)
    (diagnostic : bytes) : ErrorMessage.t :=
  ErrorMessage.new stage code errno (truncate_diagnostic diagnostic).

(** ** What the validators accept *)
Definition limits_ok (l : ManifestLimits.t) : Prop :=
  (1 ≤ ManifestLimits.max_path_bytes l ≤ MAX_MANIFEST_PATH_BYTES)%N ∧
  (ManifestLimits.max_xattrs_per_entry l ≤ MAX_MANIFEST_XATTRS)%N ∧
  (ManifestLimits.max_xattr_bytes_per_entry l ≤ MAX_MANIFEST_XATTR_BYTES)%N ∧
  (1 ≤ ManifestLimits.max_entry_bytes l ≤ MAX_MANIFEST_ENTRY_BYTES)%N ∧
  (ManifestLimits.max_entry_bytes l + 4 ≤ ManifestLimits.max_chunk_bytes l ≤ MAX_MANIFEST_CHUNK_BYTES)%N ∧
  (1 ≤ ManifestLimits.max_entries l ≤ MAX_MANIFEST_ENTRIES)%N ∧
  (1 ≤ ManifestLimits.max_total_bytes l ≤ MAX_MANIFEST_BYTES)%N ∧
  (1 ≤ ManifestLimits.max_directory_entries l ≤ MAX_MANIFEST_DIRECTORY_ENTRIES)%N ∧
  (1 ≤ ManifestLimits.max_directory_name_bytes l ≤ MAX_MANIFEST_DIRECTORY_NAME_BYTES)%N ∧
  (1 ≤ ManifestLimits.max_hardlink_groups l ≤ MAX_MANIFEST_HARDLINK_GROUPS)%N ∧
  (1 ≤ ManifestLimits.max_hardlink_path_bytes l ≤ MAX_MANIFEST_HARDLINK_PATH_BYTES)%N ∧
  (1 ≤ ManifestLimits.max_depth l ≤ MAX_MANIFEST_DEPTH)%N.

Lemma range_check (a b : N) : ¬ (a = 0 ∨ b < a)%N ↔ (1 ≤ a ≤ b)%N.
Proof. lia. Qed.

Lemma entry_in_chunk e c :
  (e ≤ MAX_MANIFEST_ENTRY_BYTES)%N → ¬ is_none_or (λ v, c < v)%N (checked_add e 4) ↔ (e + 4 ≤ c)%N.
Proof.
  intros He. rewrite checked_add_fits by (unfold MAX_MANIFEST_ENTRY_BYTES, u64_bound in *; lia).
  simpl. apply N.nlt_ge.
Qed.

Lemma limits_validate_Ok l : ManifestLimits.validate l = Ok () ↔ limits_ok l.
Proof.
  unfold ManifestLimits.validate, limits_ok. cbv zeta. rewrite !invalid_guard_ok, !range_check, !N.nlt_ge. split.
  - intros (? & ? & ? & ? & ?%dec_stable & He & ? & ? & ? & ? & ? & ? & ? & _).
    rewrite entry_in_chunk in He by lia. split_and!; lia.
  - intros (? & ? & ? & ? & ? & ? & ? & ? & ? & ? & ? & ?).
    rewrite entry_in_chunk by lia. split_and!; try done; lia.
Qed.
#[export] Hint Rewrite limits_validate_Ok : rust_ok.

Definition oci_digest_ok (d : bytes) : Prop := ∃ hex, d = bs "sha256:" ++ hex ∧ sha256_ok hex.

Lemma validate_oci_digest_Ok f d : validate_oci_digest f d = Ok () ↔ oci_digest_ok d.
Proof.
  unfold validate_oci_digest, oci_digest_ok. destruct (strip_prefix _ d) as [hex|] eqn:Hs.
  - apply strip_prefix_Some in Hs as ->. rewrite validate_sha256_Ok. split; [by eexists|].
    intros (hex' & Heq & ?). by apply (inj (app (bs "sha256:"))) in Heq as ->.
  - split; [done|]. intros (hex & -> & _).
    by rewrite (proj2 (strip_prefix_Some (bs "sha256:") (bs "sha256:" ++ hex) hex) eq_refl) in Hs.
Qed.
#[export] Hint Rewrite validate_oci_digest_Ok : rust_ok.

Definition media_type_ok (v : bytes) : Prop :=
  (len v ≤ MAX_MEDIA_TYPE_LENGTH)%N ∧ v ≠ [] ∧ Forall (λ b, 33 ≤ code b ≤ 126)%N v.

Lemma validate_media_type_Ok f v : validate_media_type f v = Ok () ↔ media_type_ok v.
Proof.
  unfold validate_media_type, media_type_ok. autorewrite with rust_ok. unfold text_ok. split.
  - intros ((? & ? & ?) & ?%dec_stable & _). auto.
  - intros (? & ? & Hv). split_and!; try done; [|tauto]. intros Hin. rewrite Forall_forall in Hv.
    apply Hv in Hin. simpl in Hin. lia.
Qed.
#[export] Hint Rewrite validate_media_type_Ok : rust_ok.

Definition builder_memory_ok (n : N) : Prop := (2^26 ≤ n ≤ 2^40)%N ∧ (4096 | n)%N.

Lemma validate_builder_memory_Ok f n : validate_builder_memory f n = Ok () ↔ builder_memory_ok n.
Proof.
  unfold validate_builder_memory, builder_memory_ok. cbv zeta. rewrite invalid_guard_ok, <- is_multiple_of_divide by done.
  change (64 * 1024 * 1024)%N with (2^26)%N. change (1024 * 1024 * 1024 * 1024)%N with (2^40)%N. split.
  - by intros [[?%dec_stable ?%dec_stable]%not_or_and _].
  - intros [? ?]. tauto.
Qed.
#[export] Hint Rewrite validate_builder_memory_Ok : rust_ok.

Lemma validate_platforms_Ok d c e :
  validate_platforms d c e = Ok () ↔
  e = selected_platform d c ∧ ∀ d', d = Some d' → descriptor_agrees d' c.
Proof.
  unfold validate_platforms, selected_platform, descriptor_agrees.
  destruct e as [eo ea ev], c as [co ca cv]; simpl. autorewrite with rust_ok.
  destruct d as [[d_os d_arch dv]|]; simpl; autorewrite with rust_ok.
  - destruct dv as [dv|], cv as [cv|]; autorewrite with rust_ok;
      split; intros H; destruct_and?; ok_inv; naive_solver.
  - split; intros H; destruct_and?; ok_inv; naive_solver.
Qed.
#[export] Hint Rewrite validate_platforms_Ok : rust_ok.

Definition tool_ok (t : ToolIdentity.t) : Prop :=
  token_ok (ToolIdentity.role t) 64 ∧ sha256_ok (ToolIdentity.sha256 t) ∧
  text_ok (ToolIdentity.version t) 256 false.

Lemma tool_validate_Ok t : ToolIdentity.validate t = Ok () ↔ tool_ok t.
Proof. unfold ToolIdentity.validate, tool_ok. by autorewrite with rust_ok. Qed.

Definition tools_ok (tools : list ToolIdentity.t) : Prop :=
  (len tools ≤ MAX_BUILDER_TOOLS)%N ∧ tools ≠ [] ∧ Forall tool_ok tools ∧
  strictly_sorted_by ToolIdentity.role tools.

Lemma validate_tools_Ok tools f : validate_tools tools f = Ok () ↔ tools_ok tools.
Proof.
  unfold validate_tools, tools_ok. autorewrite with rust_ok. rewrite each_sorted_Ok.
  setoid_rewrite tool_validate_Ok. tauto.
Qed.
#[export] Hint Rewrite validate_tools_Ok : rust_ok.

Definition oci_descriptor_ok (d : OciDescriptor.t) (maximum : N) : Prop :=
  oci_digest_ok (OciDescriptor.digest d) ∧ (1 ≤ OciDescriptor.size d ≤ maximum)%N ∧
  media_type_ok (OciDescriptor.media_type d).

Lemma oci_descriptor_validate_Ok d f m : OciDescriptor.validate d f m = Ok () ↔ oci_descriptor_ok d m.
Proof. unfold OciDescriptor.validate, oci_descriptor_ok. autorewrite with rust_ok. by rewrite range_check. Qed.
#[export] Hint Rewrite oci_descriptor_validate_Ok : rust_ok.

(** A layer may not unpack to more than 1024 times its size. *)
Definition layer_ok (l : BuilderLayerDescriptor.t) : Prop :=
  oci_descriptor_ok (BuilderLayerDescriptor.descriptor l) MAX_LAYER_COMPRESSED_BYTES ∧
  oci_digest_ok (BuilderLayerDescriptor.diff_id l) ∧
  (BuilderLayerDescriptor.uncompressed_size l ≤ MAX_LAYER_UNCOMPRESSED_BYTES)%N ∧
  (BuilderLayerDescriptor.uncompressed_size l ≤
   1024 * OciDescriptor.size (BuilderLayerDescriptor.descriptor l))%N.

Lemma layer_validate_Ok l : BuilderLayerDescriptor.validate l = Ok () ↔ layer_ok l.
Proof.
  unfold BuilderLayerDescriptor.validate, layer_ok. autorewrite with rust_ok. rewrite !N.nlt_ge.
  unfold saturating_mul, oci_descriptor_ok, MAX_LAYER_COMPRESSED_BYTES, MAX_LAYER_UNCOMPRESSED_BYTES, u64_bound.
  split; intros H; destruct_and!; split_and!; try done; lia.
Qed.

Lemma layer_total_Ok ls n :
  (len ls ≤ MAX_BUILDER_LAYERS)%N →
  BuilderStart.layer_total ls = Ok n ↔
  n = sum_of BuilderLayerDescriptor.uncompressed_size ls ∧ Forall layer_ok ls.
Proof.
  intros Hl. unfold BuilderStart.layer_total. rewrite fold_checked_sum by done.
  setoid_rewrite layer_validate_Ok. split; [naive_solver|]. intros (-> & Ht). split_and!; try done.
  assert (Forall (λ l, BuilderLayerDescriptor.uncompressed_size l ≤ MAX_LAYER_UNCOMPRESSED_BYTES)%N ls) as Hu.
  { eapply Forall_impl; [exact Ht|]. by intros ? (_ & _ & ? & _). }
  apply sum_of_le in Hu. unfold MAX_LAYER_UNCOMPRESSED_BYTES, MAX_BUILDER_LAYERS, u64_bound in *. nia.
Qed.

Record builder_start_ok (s : BuilderStart.t) : Prop := {
  bs_profile : token_ok (BuilderStart.profile_id s) MAX_ID_LENGTH;
  bs_digests : Forall sha256_ok [BuilderStart.profile_revision s; BuilderStart.derivation_key s];
  bs_manifest : oci_descriptor_ok (BuilderStart.selected_manifest s) (4 * 1024 * 1024);
  bs_config : oci_descriptor_ok (BuilderStart.config s) (16 * 1024 * 1024);
  bs_layers : (len (BuilderStart.layers s) ≤ MAX_BUILDER_LAYERS)%N ∧ Forall layer_ok (BuilderStart.layers s) ∧
    (sum_of BuilderLayerDescriptor.uncompressed_size (BuilderStart.layers s) ≤ MAX_TOTAL_UNCOMPRESSED_BYTES)%N;
  bs_descriptor : ∀ d, BuilderStart.descriptor_platform s = Some d →
    platform_ok d ∧ descriptor_agrees d (BuilderStart.config_platform s);
  bs_config_platform : platform_ok (BuilderStart.config_platform s);
  bs_effective : BuilderStart.effective_platform s =
    selected_platform (BuilderStart.descriptor_platform s) (BuilderStart.config_platform s);
  bs_contracts : Forall (λ v, token_ok v MAX_ID_LENGTH)
    [BuilderStart.selector_policy s; BuilderStart.root_layout s; BuilderStart.filesystem_contract s;
     BuilderStart.manifest_schema s];
  bs_limits : limits_ok (BuilderStart.manifest_limits s);
  bs_tools : tools_ok (BuilderStart.expected_tools s);
  bs_reference : BuilderStart.input_reference s = bs "root";
  bs_user : text_ok (BuilderStart.original_user s) MAX_ORIGINAL_USER_LENGTH true;
  bs_memory : builder_memory_ok (BuilderStart.expected_physmem_bytes s);
  bs_epoch : (SOURCE_DATE_EPOCH_MIN ≤ BuilderStart.source_date_epoch s ≤ SOURCE_DATE_EPOCH_MAX)%N;
}.

Lemma layers_checks ls k :
  (len ls ≤ MAX_BUILDER_LAYERS)%N ∧
  (total ← BuilderStart.layer_total ls;
   if decide (MAX_TOTAL_UNCOMPRESSED_BYTES < total)%N
   then invalid "layers.uncompressed_total" "exceeds hard cap" else k) = Ok () ↔
  ((len ls ≤ MAX_BUILDER_LAYERS)%N ∧ Forall layer_ok ls ∧
   (sum_of BuilderLayerDescriptor.uncompressed_size ls ≤ MAX_TOTAL_UNCOMPRESSED_BYTES)%N) ∧ k = Ok ().
Proof.
  rewrite bind_ok. split.
  - intros (Hl & n & Hn & Hk). apply layer_total_Ok in Hn as (-> & ?); [|done].
    rewrite invalid_guard_ok, N.nlt_ge in Hk. tauto.
  - intros ((Hl & ? & ?) & ?). split; [done|]. eexists. rewrite layer_total_Ok by done. split; [done|].
    by rewrite invalid_guard_ok, N.nlt_ge.
Qed.

Lemma platform_option_checks (d : option Platform.t) f :
  match d with Some p => Platform.validate p f | None => Ok () end = Ok () ↔
  ∀ d', d = Some d' → platform_ok d'.
Proof. destruct d; autorewrite with rust_ok; naive_solver. Qed.

Lemma root_is_token : token_ok (bs "root") 128.
Proof. split_and!; [done|done|]. apply (bool_decide_unpack _). vm_compute. exact I. Qed.

Lemma builder_start_validate_Ok (s : BuilderStart.t) : validate s = Ok () ↔ builder_start_ok s.
Proof.
  unfold validate, BuilderStart.validate. autorewrite with rust_ok. rewrite layers_checks.
  autorewrite with rust_ok. rewrite platform_option_checks. split.
  - intros (? & ? & ? & ? & ? & ? & Hd & ? & _ & [? Ha] & ? & ? & ? & ? & ? & ? & _ & ?%dec_stable & ? & ? & ?%dec_stable & _).
    constructor; rewrite ?Forall_cons, ?Forall_nil; try done.
    intros d Hs. split; [by apply Hd|by apply Ha].
  - intros [? Hs ? ? ? Hd ? He Hc ? ? Hr ? ? ?].
    apply Forall_cons in Hs as [? [? _]%Forall_cons].
    apply Forall_cons in Hc as [? [? [? [? _]%Forall_cons]%Forall_cons]%Forall_cons].
    pose proof root_is_token. rewrite Hr.
    split_and!; try done; try tauto.
    + intros d Hs. by apply Hd.
    + rewrite He. apply selected_platform_ok; [|done]. intros d Hs. by apply Hd.
    + intros d Hs. by apply Hd.
Qed.

(** [BuilderStart::validate] accepts exactly the well-formed build requests.
    Layers are within the size, count, total and unpacking-ratio limits, and their
    total is the plain sum, so the loop's overflow error never occurs; the manifest
    limits leave room for one length-prefixed entry in a chunk; the effective
    platform is determined by the descriptor and the configuration. *)
Theorem builder_start_exact (s : BuilderStart.t) : validate s = Ok () ↔ builder_start_ok s.
Proof. apply builder_start_validate_Ok. Qed.

Lemma marker_validate_Ok (m : GenerationMarker.t) :
  validate m = Ok () ↔
  GenerationMarker.schema m = bs "pocket-generation-v3" ∧ sha256_ok (GenerationMarker.derivation_key m) ∧
  token_ok (GenerationMarker.profile_id m) MAX_ID_LENGTH ∧ sha256_ok (GenerationMarker.profile_revision m) ∧
  (∀ d, GenerationMarker.descriptor_platform m = Some d → platform_ok d) ∧
  platform_ok (GenerationMarker.config_platform m) ∧ platform_ok (GenerationMarker.effective_platform m) ∧
  (GenerationMarker.effective_platform m =
     selected_platform (GenerationMarker.descriptor_platform m) (GenerationMarker.config_platform m) ∧
   ∀ d, GenerationMarker.descriptor_platform m = Some d →
        descriptor_agrees d (GenerationMarker.config_platform m)) ∧
  token_ok (GenerationMarker.selector_policy m) MAX_ID_LENGTH ∧
  token_ok (GenerationMarker.root_layout m) MAX_ID_LENGTH ∧
  token_ok (GenerationMarker.filesystem_contract m) MAX_ID_LENGTH ∧
  sha256_ok (GenerationMarker.account_db_sha256 m).
Proof.
  unfold validate, GenerationMarker.validate. autorewrite with rust_ok. rewrite platform_option_checks.
  split; [intros [?%dec_stable ?]|intros [? ?]; split]; tauto.
Qed.

(** The marker the builder derives from an accepted request is itself valid,
    for any account digest: [GenerationMarker::from_start] never produces a marker
    the validator refuses. *)
Theorem marker_of_start_valid (s : BuilderStart.t) digest :
  validate s = Ok () → sha256_ok digest → validate (GenerationMarker.from_start s digest) = Ok ().
Proof.
  intros [? Hs ? ? ? Hd ? He Hc ? ? ? ? ? ?]%builder_start_validate_Ok Hdig.
  apply Forall_cons in Hs as [? [? _]%Forall_cons].
  apply Forall_cons in Hc as [? [? [? [? _]%Forall_cons]%Forall_cons]%Forall_cons].
  apply marker_validate_Ok. simpl. split_and!; try done.
  - intros d Hds. by apply Hd.
  - rewrite He. apply selected_platform_ok; [|done]. intros d Hds. by apply Hd.
  - intros d Hds. by apply Hd.
Qed.

Module SampleStart.
Definition digest : bytes := replicate 64 x61.
Definition linux : Platform.t := Platform.platform (bs "linux") (bs "arm64") None.
Definition descriptor : OciDescriptor.t :=
  OciDescriptor.oci_descriptor (bs "sha256:" ++ digest) 100 (bs "application/vnd.oci.image.layer.v1.tar").
Definition sample : BuilderStart.t := {|
  BuilderStart.profile_id := bs "default";
  BuilderStart.profile_revision := digest;
  BuilderStart.derivation_key := digest;
  BuilderStart.selected_manifest := descriptor;
  BuilderStart.config := descriptor;
  BuilderStart.layers := [BuilderLayerDescriptor.builder_layer_descriptor descriptor (bs "sha256:" ++ digest) 102400];
  BuilderStart.descriptor_platform := Some (Platform.platform (bs "linux") (bs "arm64") (Some (bs "v8")));
  BuilderStart.config_platform := linux;
  BuilderStart.effective_platform := Platform.platform (bs "linux") (bs "arm64") (Some (bs "v8"));
  BuilderStart.selector_policy := bs "p1";
  BuilderStart.root_layout := bs "r1";
  BuilderStart.filesystem_contract := bs "f1";
  BuilderStart.manifest_schema := bs "m1";
  BuilderStart.manifest_limits := ManifestLimits.default;
  BuilderStart.expected_tools := [ToolIdentity.tool_identity (bs "mkfs") digest (bs "1.47")];
  BuilderStart.input_reference := bs "root";
  BuilderStart.original_user := [];
  BuilderStart.expected_physmem_bytes := 67108864;
  BuilderStart.source_date_epoch := 1700000000;
|}.

Lemma marker_of_start_valid_witness :
  validate sample = Ok () ∧ validate (GenerationMarker.from_start sample digest) = Ok ().
Proof.
  split; [by vm_compute|]. apply (marker_of_start_valid sample digest); [by vm_compute|].
  split; [done|]. apply (bool_decide_unpack _). vm_compute. exact I.
Defined.
End SampleStart.

(** ** Encoding and decoding *)
Lemma builder_codec `{!Sha2} `{!BuilderMessage.Codecs} `{!BuilderMessage.CodecsLaws} m f :
  BuilderMessage.decode_builder_message f = Ok m ↔
  kind (header f) = BuilderMessage.kind m ∧ BuilderMessage.encode_payload m = Ok (payload f).
Proof.
  unfold BuilderMessage.decode_builder_message, invalid.
  destruct (kind (header f)); rewrite ?fmap_codec_exact, ?err_ok; split;
    first [intros (m' & -> & ?); by split | destruct m; intros [? ?]; first [done | by eexists] | done].
Qed.

Module SampleBuilderCodec.
Import SampleCodecs.
#[local] Existing Instances SampleHash.sample_sha2 SampleHash.sample_sha2_laws.

Definition sample_begin : ManifestBegin.t := ManifestBegin.manifest_begin (bs "m1") SampleStart.digest.
#[export] Instance begin_eq_dec : EqDecision ManifestBegin.t.
Proof. solve_decision. Defined.

#[export] Instance codecs : BuilderMessage.Codecs := {|
  BuilderMessage.hello_cbor := no_codec _;
  BuilderMessage.start_cbor := no_codec _;
  BuilderMessage.begin_cbor := one_codec sample_begin [xa2; x00];
  BuilderMessage.chunk_cbor := no_codec _;
  BuilderMessage.end_cbor := no_codec _;
  BuilderMessage.account_cbor := no_codec _;
  BuilderMessage.done_cbor := no_codec _;
  BuilderMessage.build_error_cbor := no_codec _;
  BuilderMessage.database_cbor := no_codec _;
  BuilderMessage.entry_cbor := no_codec _;
|}.

#[export] Instance codecs_laws : BuilderMessage.CodecsLaws.
Proof. split; first [apply no_codec_laws | apply one_codec_laws]. Qed.

Lemma builder_codec_sample :
  BuilderMessage.decode_builder_message
    (raw_frame (frame_header MessageKind.ManifestBegin 0 2 0) [xa2; x00])
  = Ok (BuilderMessage.ManifestBegin sample_begin).
Proof. apply builder_codec. by vm_compute. Defined.
End SampleBuilderCodec.

(** ** Error messages *)
Lemma boundary_below_spec s i j :
  j ≤ i → is_char_boundary s j →
  j ≤ boundary_below s i ∧ boundary_below s i ≤ i ∧ is_char_boundary s (boundary_below s i).
Proof.
  intros Hji Hj. induction i as [|i IH].
  - assert (j = 0) as -> by lia. cbn [boundary_below]. by rewrite decide_True.
  - cbn [boundary_below]. case_decide; [by split_and!; try lia|].
    assert (j ≠ S i) by (by intros ->). destruct IH as (? & ? & ?); [lia|]. split_and!; [lia|lia|done].
Qed.

Lemma truncate_diagnostic_spec d :
  valid_utf8 d →
  truncate_diagnostic d `prefix_of` d ∧ valid_utf8 (truncate_diagnostic d) ∧
  (len (truncate_diagnostic d) ≤ MAX_DIAGNOSTIC_LENGTH)%N ∧
  (len d ≤ MAX_DIAGNOSTIC_LENGTH → truncate_diagnostic d = d)%N ∧
  (MAX_DIAGNOSTIC_LENGTH < len d → MAX_DIAGNOSTIC_LENGTH ≤ len (truncate_diagnostic d) + 3)%N.
Proof.
  intros Hv. unfold truncate_diagnostic. case_decide as Hl; [|by split_and!; try lia].
  assert (N.to_nat MAX_DIAGNOSTIC_LENGTH ≤ length d) as Hm by (unfold len in Hl; lia).
  destruct (char_boundary_near d Hv _ Hm) as (j & ? & ? & Hj).
  edestruct (boundary_below_spec d (N.to_nat MAX_DIAGNOSTIC_LENGTH) j) as (? & ? & ?); [done..|].
  assert (len (take (boundary_below d (N.to_nat MAX_DIAGNOSTIC_LENGTH)) d) =
          N.of_nat (boundary_below d (N.to_nat MAX_DIAGNOSTIC_LENGTH))) as ->.
  { unfold len. rewrite length_take. lia. }
  split_and!; [apply prefix_take|by apply valid_utf8_take|lia|lia|lia].
Qed.

Lemma error_message_validate_Ok (m : ErrorMessage.t) code :
  ErrorMessage.stable_code m = ErrorCode.as_u16 code →
  validate m = Ok () ↔
  token_ok (ErrorMessage.stage m) 64 ∧ (∀ e, ErrorMessage.errno m = Some e → (1 ≤ e ≤ 4095)%Z) ∧
  text_ok (ErrorMessage.diagnostic m) MAX_DIAGNOSTIC_LENGTH true.
Proof.
  intros Hc. unfold validate, ErrorMessage.validate, ErrorMessage.code. rewrite Hc, from_as_u16. rsimpl.
  rewrite bind_unit_ok, bind_unit_ok, validate_token_Ok, validate_text_Ok.
  destruct (ErrorMessage.errno m) as [e|]; [rewrite invalid_guard_ok|naive_solver].
  split; [intros (? & [?%dec_stable _] & ?); naive_solver|]. intros (? & He & ?).
  split_and!; [done|intros Hne; apply Hne; by apply He|done|done].
Qed.

(** An error report always fits.  Whatever the diagnostic, the one sent is a
    prefix of it, still valid UTF-8, within the limit, unchanged when it fitted and
    at most three bytes short of the limit otherwise; so for a valid stage and
    errno the message passes validation whenever the diagnostic has no NUL. *)
Theorem builder_error_message_fits stage code errno diagnostic :
  valid_utf8 diagnostic →
  let m := builder_error_message stage code errno diagnostic in
  let d := ErrorMessage.diagnostic m in
  d `prefix_of` diagnostic ∧ valid_utf8 d ∧ (len d ≤ MAX_DIAGNOSTIC_LENGTH)%N ∧
  (len diagnostic ≤ MAX_DIAGNOSTIC_LENGTH → d = diagnostic)%N ∧
  (MAX_DIAGNOSTIC_LENGTH < len diagnostic → MAX_DIAGNOSTIC_LENGTH ≤ len d + 3)%N ∧
  (token_ok stage 64 → (∀ e, errno = Some e → (1 ≤ e ≤ 4095)%Z) → x00 ∉ diagnostic → validate m = Ok ()).
Proof.
  intros Hv. simpl. destruct (truncate_diagnostic_spec diagnostic Hv) as (Hp & ? & ? & ? & ?).
  split_and!; try done. intros ? ? Hn. apply (error_message_validate_Ok _ code); [done|].
  unfold text_ok. simpl. split_and!; try done. destruct Hp as [r Hr]. intros Hin. apply Hn. rewrite Hr. set_solver.
Qed.

Lemma builder_error_message_fits_witness :
  let d := replicate (N.to_nat 8191) x61 ++ [xc3; xa9] in
  ErrorMessage.diagnostic (builder_error_message (bs "unpack") ErrorCode.ProtocolIo (Some 5%Z) d)
    `prefix_of` d.
Proof. apply builder_error_message_fits. by apply (bool_decide_unpack _); vm_compute. Defined.
