(* ===== verification/BuilderSession.v ===== *)
(** * The builder session: crates/pocket-protocol/src/builder_state.rs

    [BuilderSession::accept] validates a message, applies it to a copy of the
    session and keeps the copy only when everything succeeded. *)

From S2P Require Import Prelude RustStr ByteOrder ProtocolError Frame Payload Message Session.
From S2P Require Import Sha256 BuilderManifest AccountDatabase BuilderMessage.

Module BuilderState.
Inductive t : Set :=
  | AwaitHello | AwaitStart | AwaitManifestBegin | StreamingManifest
  | AwaitAccountDb | AwaitDone | Completed | Failed.
#[global] Instance eq_dec : EqDecision t.
Proof. solve_decision. Defined.

Definition as_str (self : t) : string :=
  match self with
  | AwaitHello => "await-build-hello"
  | AwaitStart => "await-build-start"
  | AwaitManifestBegin => "await-manifest-begin"
  | StreamingManifest => "streaming-manifest"
  | AwaitAccountDb => "await-account-db"
  | AwaitDone => "await-build-done"
  | Completed => "completed"
  | Failed => "failed"
  end.

Definition is_terminal (self : t) : bool :=
  match self with Completed | Failed => true | _ => false end.
End BuilderState.

Module BuilderSession.
Section session.
Context {sha : Sha2} {codecs : BuilderMessage.Codecs}.

Record t : Type := builder_session {
  state : BuilderState.t;
  next_host_sequence : N;
  next_guest_sequence : N;
  observed_tools : option (list ToolIdentity.t);
  accepted_physmem_bytes : option N;
  expected_tools : option (list ToolIdentity.t);
  original_user : option bytes;
  manifest_schema : option bytes;
  manifest_limits : option ManifestLimits.t;
  stream_id : option bytes;
  next_chunk_sequence : N;
  next_entry : N;
  byte_count : N;
  manifest_hasher : hasher;
  manifest_sha256 : option bytes;
  account_db_sha256 : option bytes;
}.

(** Assignments to the fields of [self]. *)
Definition set_state (value : BuilderState.t) (self : t) : t :=
  builder_session value (next_host_sequence self) (next_guest_sequence self) (observed_tools self)
    (accepted_physmem_bytes self) (expected_tools self) (original_user self) (manifest_schema self)
    (manifest_limits self) (stream_id self) (next_chunk_sequence self) (next_entry self) (byte_count self)
    (manifest_hasher self) (manifest_sha256 self) (account_db_sha256 self).
Definition set_next_host_sequence (value : N) (self : t) : t :=
  builder_session (state self) value (next_guest_sequence self) (observed_tools self)
    (accepted_physmem_bytes self) (expected_tools self) (original_user self) (manifest_schema self)
    (manifest_limits self) (stream_id self) (next_chunk_sequence self) (next_entry self) (byte_count self)
    (manifest_hasher self) (manifest_sha256 self) (account_db_sha256 self).
Definition set_next_guest_sequence (value : N) (self : t) : t :=
  builder_session (state self) (next_host_sequence self) value (observed_tools self)
    (accepted_physmem_bytes self) (expected_tools self) (original_user self) (manifest_schema self)
    (manifest_limits self) (stream_id self) (next_chunk_sequence self) (next_entry self) (byte_count self)
    (manifest_hasher self) (manifest_sha256 self) (account_db_sha256 self).
Definition set_observed_tools (value : option (list ToolIdentity.t)) (self : t) : t :=
  builder_session (state self) (next_host_sequence self) (next_guest_sequence self) value
    (accepted_physmem_bytes self) (expected_tools self) (original_user self) (manifest_schema self)
    (manifest_limits self) (stream_id self) (next_chunk_sequence self) (next_entry self) (byte_count self)
    (manifest_hasher self) (manifest_sha256 self) (account_db_sha256 self).
Definition set_accepted_physmem_bytes (value : option N) (self : t) : t :=
  builder_session (state self) (next_host_sequence self) (next_guest_sequence self) (observed_tools self)
    value (expected_tools self) (original_user self) (manifest_schema self) (manifest_limits self)
    (stream_id self) (next_chunk_sequence self) (next_entry self) (byte_count self) (manifest_hasher self)
    (manifest_sha256 self) (account_db_sha256 self).
Definition set_expected_tools (value : option (list ToolIdentity.t)) (self : t) : t :=
  builder_session (state self) (next_host_sequence self) (next_guest_sequence self) (observed_tools self)
    (accepted_physmem_bytes self) value (original_user self) (manifest_schema self) (manifest_limits self)
    (stream_id self) (next_chunk_sequence self) (next_entry self) (byte_count self) (manifest_hasher self)
    (manifest_sha256 self) (account_db_sha256 self).
Definition set_original_user (value : option bytes) (self : t) : t :=
  builder_session (state self) (next_host_sequence self) (next_guest_sequence self) (observed_tools self)
    (accepted_physmem_bytes self) (expected_tools self) value (manifest_schema self) (manifest_limits self)
    (stream_id self) (next_chunk_sequence self) (next_entry self) (byte_count self) (manifest_hasher self)
    (manifest_sha256 self) (account_db_sha256 self).
Definition set_manifest_schema (value : option bytes) (self : t) : t :=
  builder_session (state self) (next_host_sequence self) (next_guest_sequence self) (observed_tools self)
    (accepted_physmem_bytes self) (expected_tools self) (original_user self) value (manifest_limits self)
    (stream_id self) (next_chunk_sequence self) (next_entry self) (byte_count self) (manifest_hasher self)
    (manifest_sha256 self) (account_db_sha256 self).
Definition set_manifest_limits (value : option ManifestLimits.t) (self : t) : t :=
  builder_session (state self) (next_host_sequence self) (next_guest_sequence self) (observed_tools self)
    (accepted_physmem_bytes self) (expected_tools self) (original_user self) (manifest_schema self) value
    (stream_id self) (next_chunk_sequence self) (next_entry self) (byte_count self) (manifest_hasher self)
    (manifest_sha256 self) (account_db_sha256 self).
Definition set_stream_id (value : option bytes) (self : t) : t :=
  builder_session (state self) (next_host_sequence self) (next_guest_sequence self) (observed_tools self)
    (accepted_physmem_bytes self) (expected_tools self) (original_user self) (manifest_schema self)
    (manifest_limits self) value (next_chunk_sequence self) (next_entry self) (byte_count self)
    (manifest_hasher self) (manifest_sha256 self) (account_db_sha256 self).
Definition set_next_chunk_sequence (value : N) (self : t) : t :=
  builder_session (state self) (next_host_sequence self) (next_guest_sequence self) (observed_tools self)
    (accepted_physmem_bytes self) (expected_tools self) (original_user self) (manifest_schema self)
    (manifest_limits self) (stream_id self) value (next_entry self) (byte_count self) (manifest_hasher self)
    (manifest_sha256 self) (account_db_sha256 self).
Definition set_next_entry (value : N) (self : t) : t :=
  builder_session (state self) (next_host_sequence self) (next_guest_sequence self) (observed_tools self)
    (accepted_physmem_bytes self) (expected_tools self) (original_user self) (manifest_schema self)
    (manifest_limits self) (stream_id self) (next_chunk_sequence self) value (byte_count self)
    (manifest_hasher self) (manifest_sha256 self) (account_db_sha256 self).
Definition set_byte_count (value : N) (self : t) : t :=
  builder_session (state self) (next_host_sequence self) (next_guest_sequence self) (observed_tools self)
    (accepted_physmem_bytes self) (expected_tools self) (original_user self) (manifest_schema self)
    (manifest_limits self) (stream_id self) (next_chunk_sequence self) (next_entry self) value
    (manifest_hasher self) (manifest_sha256 self) (account_db_sha256 self).
Definition set_manifest_hasher (value : hasher) (self : t) : t :=
  builder_session (state self) (next_host_sequence self) (next_guest_sequence self) (observed_tools self)
    (accepted_physmem_bytes self) (expected_tools self) (original_user self) (manifest_schema self)
    (manifest_limits self) (stream_id self) (next_chunk_sequence self) (next_entry self) (byte_count self)
    value (manifest_sha256 self) (account_db_sha256 self).
Definition set_manifest_sha256 (value : option bytes) (self : t) : t :=
  builder_session (state self) (next_host_sequence self) (next_guest_sequence self) (observed_tools self)
    (accepted_physmem_bytes self) (expected_tools self) (original_user self) (manifest_schema self)
    (manifest_limits self) (stream_id self) (next_chunk_sequence self) (next_entry self) (byte_count self)
    (manifest_hasher self) value (account_db_sha256 self).
Definition set_account_db_sha256 (value : option bytes) (self : t) : t :=
  builder_session (state self) (next_host_sequence self) (next_guest_sequence self) (observed_tools self)
    (accepted_physmem_bytes self) (expected_tools self) (original_user self) (manifest_schema self)
    (manifest_limits self) (stream_id self) (next_chunk_sequence self) (next_entry self) (byte_count self)
    (manifest_hasher self) (manifest_sha256 self) value.

Definition new : t :=
  builder_session BuilderState.AwaitHello 0 0 None None None None None None None 0 0 0 hasher_new None None.

Definition next_sequence (self : t) (direction : Direction.t) : N :=
  match direction with
  | Direction.HostToGuest => next_host_sequence self
  | Direction.GuestToHost => next_guest_sequence self
  end.

(** The negotiated limits one entry of a chunk is held to. *)
Definition check_entry (limits : ManifestLimits.t) (entry : ManifestEntry.t) : result ProtocolError () :=
  if decide (ManifestLimits.max_path_bytes limits < len (ManifestEntry.path entry))%N
  then invalid "manifest_entry.path" "exceeds negotiated limit" else
  if decide (ManifestLimits.max_xattrs_per_entry limits < len (ManifestEntry.xattrs entry))%N
  then invalid "manifest_entry.xattrs" "exceeds negotiated count" else
  xattr_bytes ← fold_result (λ xattr_bytes xattr,
      ok_or (checked_add xattr_bytes (len (ManifestXattr.name xattr)) ≫= λ value,
               checked_add value (len (ManifestXattr.value xattr)))
            (MessageLimitExceeded "manifest_entry.xattr_bytes" usize_max
               (ManifestLimits.max_xattr_bytes_per_entry limits)))
    0%N (ManifestEntry.xattrs entry);
  if decide (ManifestLimits.max_xattr_bytes_per_entry limits < xattr_bytes)%N
  then invalid "manifest_entry.xattr_bytes" "exceeds negotiated limit" else
  Ok ().

(** The [while] loop; as in [count_loop], the fuel is the number of bytes and
    running out would be [Panic]. *)
Fixpoint canonical_loop (fuel : nat) (b : bytes) (limits : ManifestLimits.t) (position : N)
    : result ProtocolError () :=
  match fuel with
  | O => Panic
  | S fuel =>
      if decide (position < len b)%N then
        length ← read_u32 b position;
        position ← usize_add position 4;
        stop ← usize_add position length;
        slice ← slice_range b position stop;
        entry ← decode_payload (T:=ManifestEntry.t) slice;
        check_entry limits entry;;
        canonical_loop fuel b limits stop
      else Ok ()
  end.

Definition validate_canonical_entries (b : bytes) (limits : ManifestLimits.t) : result ProtocolError () :=
  canonical_loop (S (length b)) b limits 0.

(** The checks of [accept_chunk] before it changes anything: the next entry and
    byte count. *)
Definition check_chunk (self : t) (chunk : ManifestChunk.t) : result ProtocolError (N * N) :=
  if decide (Some (ManifestChunk.stream_id chunk) ≠ stream_id self)
  then invalid "stream_id" "MANIFEST_CHUNK stream differs from BEGIN" else
  if decide (ManifestChunk.sequence chunk ≠ next_chunk_sequence self)
  then invalid "chunk.sequence" "chunk sequence is not contiguous" else
  if decide (ManifestChunk.first_entry chunk ≠ next_entry self)
  then invalid "chunk.first_entry" "entry range is not contiguous" else
  limits ← ok_or (manifest_limits self)
             (InvalidStateTransition (BuilderState.as_str (state self)) "guest-to-host"
                (MessageKind.as_u16 MessageKind.ManifestChunk));
  if decide (ManifestLimits.max_chunk_bytes limits < len (ManifestChunk.bytes chunk))%N
  then invalid "chunk.bytes" "exceeds negotiated chunk limit" else
  entry_count ← count_length_prefixed_entries (ManifestChunk.bytes chunk)
                  (ManifestLimits.max_entry_bytes limits);
  if decide (entry_count ≠ ManifestChunk.entry_count chunk)
  then invalid "chunk.entry_count" "does not match encoded entries" else
  validate_canonical_entries (ManifestChunk.bytes chunk) limits;;
  next_entry ← ok_or (checked_add (next_entry self) (ManifestChunk.entry_count chunk))
                 (MessageLimitExceeded "manifest.entry_count" usize_max usize_max);
  if decide (ManifestLimits.max_entries limits < next_entry)%N
  then invalid "manifest.entry_count" "exceeds negotiated limit" else
  byte_count ← ok_or (checked_add (byte_count self) (len (ManifestChunk.bytes chunk)))
                 (MessageLimitExceeded "manifest.byte_count" usize_max usize_max);
  if decide (ManifestLimits.max_total_bytes limits < byte_count)%N
  then invalid "manifest.byte_count" "exceeds negotiated limit" else
  Ok (next_entry, byte_count).

Definition accept_chunk (self : t) (chunk : ManifestChunk.t) : t * result ProtocolError () :=
  try_with self (check_chunk self chunk) (λ '(next_entry, byte_count),
  let self := set_manifest_hasher (hasher_update (manifest_hasher self) (ManifestChunk.bytes chunk)) self in
  try_with self (ok_or (checked_add (next_chunk_sequence self) 1) SequenceExhausted) (λ next_chunk_sequence,
  (set_byte_count byte_count (set_next_entry next_entry (set_next_chunk_sequence next_chunk_sequence self)),
   Ok ()))).

Definition accept_inner (self : t) (direction : Direction.t) (message : BuilderMessage.t)
    : t * result ProtocolError () :=
  match state self, direction, message with
  | BuilderState.AwaitHello, Direction.GuestToHost, BuilderMessage.Hello hello =>
      (set_state BuilderState.AwaitStart
         (set_accepted_physmem_bytes (Some (BuilderHello.accepted_physmem_bytes hello))
         (set_observed_tools (Some (BuilderHello.builder_tools hello)) self)), Ok ())
  | BuilderState.AwaitStart, Direction.HostToGuest, BuilderMessage.Start start =>
      try_with self (ok_or (observed_tools self)
        (InvalidStateTransition (BuilderState.as_str (state self)) "host-to-guest"
           (MessageKind.as_u16 (BuilderMessage.kind message)))) (λ observed,
      if decide (observed ≠ BuilderStart.expected_tools start)
      then (self, invalid "expected_tools" "does not equal BUILD_HELLO tool evidence") else
      if decide (¬ is_some_and (λ accepted, BuilderStart.expected_physmem_bytes start ≤ accepted)%N
                     (accepted_physmem_bytes self))
      then (self, invalid "expected_physmem_bytes" "exceeds BUILD_HELLO accepted physical memory") else
      (set_state BuilderState.AwaitManifestBegin
         (set_manifest_limits (Some (BuilderStart.manifest_limits start))
         (set_manifest_schema (Some (BuilderStart.manifest_schema start))
         (set_original_user (Some (BuilderStart.original_user start))
         (set_expected_tools (Some (BuilderStart.expected_tools start)) self)))), Ok ()))
  | BuilderState.AwaitManifestBegin, Direction.GuestToHost, BuilderMessage.ManifestBegin begin =>
      if decide (Some (ManifestBegin.schema begin) ≠ manifest_schema self)
      then (self, invalid "manifest_schema" "MANIFEST_BEGIN schema differs from START") else
      (set_state BuilderState.StreamingManifest
         (set_manifest_hasher hasher_new
         (set_byte_count 0
         (set_next_entry 0
         (set_next_chunk_sequence 0
         (set_stream_id (Some (ManifestBegin.stream_id begin)) self))))), Ok ())
  | BuilderState.StreamingManifest, Direction.GuestToHost, BuilderMessage.ManifestChunk chunk =>
      accept_chunk self chunk
  | BuilderState.StreamingManifest, Direction.GuestToHost, BuilderMessage.ManifestEnd end' =>
      if decide (Some (ManifestEnd.stream_id end') ≠ stream_id self)
      then (self, invalid "stream_id" "MANIFEST_END stream differs from BEGIN") else
      if decide (ManifestEnd.entry_count end' ≠ next_entry self ∨ ManifestEnd.byte_count end' ≠ byte_count self)
      then (self, invalid "manifest_totals" "MANIFEST_END totals do not match chunks") else
      let digest := hex_lower (hasher_finalize (manifest_hasher self)) in
      if decide (ManifestEnd.sha256 end' ≠ digest)
      then (self, invalid "manifest_sha256" "MANIFEST_END digest does not match chunks") else
      (set_state BuilderState.AwaitAccountDb (set_manifest_sha256 (Some digest) self), Ok ())
  | BuilderState.AwaitAccountDb, Direction.GuestToHost, BuilderMessage.AccountDb account_db =>
      (set_state BuilderState.AwaitDone
         (set_account_db_sha256 (Some (AccountDb.sha256 account_db)) self), Ok ())
  | BuilderState.AwaitDone, Direction.GuestToHost, BuilderMessage.Done done' =>
      if decide (Some (BuilderDone.manifest_sha256 done') ≠ manifest_sha256 self ∨
                 BuilderDone.entry_count done' ≠ next_entry self ∨
                 BuilderDone.byte_count done' ≠ byte_count self)
      then (self, invalid "build_done" "manifest evidence differs from stream") else
      if decide (Some (BuilderDone.original_user done') ≠ original_user self)
      then (self, invalid "original_user" "BUILD_DONE differs from START") else
      if decide (Some (BuilderDone.account_db_sha256 done') ≠ account_db_sha256 self)
      then (self, invalid "account_db_sha256" "BUILD_DONE differs from ACCOUNT_DB") else
      if decide (Some (BuilderDone.observed_tools done') ≠ expected_tools self)
      then (self, invalid "observed_tools" "BUILD_DONE differs from START") else
      (set_state BuilderState.Completed self, Ok ())
  | (BuilderState.AwaitStart | BuilderState.AwaitManifestBegin | BuilderState.StreamingManifest
    | BuilderState.AwaitAccountDb | BuilderState.AwaitDone), Direction.GuestToHost, BuilderMessage.Error _ =>
      (set_state BuilderState.Failed self, Ok ())
  | _, _, _ =>
      (self, Err (InvalidStateTransition (BuilderState.as_str (state self)) (Direction.as_str direction)
                    (MessageKind.as_u16 (BuilderMessage.kind message))))
  end.

Definition accept (self : t) (direction : Direction.t) (message : BuilderMessage.t) (frame_sequence : N)
    : t * result ProtocolError () :=
  let expected_sequence := next_sequence self direction in
  if decide (frame_sequence ≠ expected_sequence)
  then (self, Err (SequenceMismatch expected_sequence frame_sequence)) else
  try_with self (BuilderMessage.validate message) (λ _,
  let '(next, accepted) := accept_inner self direction message in
  try_with self accepted (λ _,
  try_with self (ok_or (checked_add frame_sequence 1) SequenceExhausted) (λ incremented,
  (match direction with
   | Direction.HostToGuest => set_next_host_sequence incremented next
   | Direction.GuestToHost => set_next_guest_sequence incremented next
   end, Ok ())))).

(** ** The entries of a chunk *)
Definition accept_entry (limits : ManifestLimits.t) (e : bytes) : result ProtocolError () :=
  entry ← decode_payload (T:=ManifestEntry.t) e; check_entry limits entry.

Lemma slice_range_app {E} (pre e r : bytes) :
  @slice_range E _ (pre ++ e ++ r) (len pre) (len pre + len e) = Ok e.
Proof.
  unfold slice_range. rewrite decide_True by (rewrite !len_app; lia). f_equal.
  replace (N.to_nat (len pre + len e - len pre)) with (length e) by (unfold len; lia).
  replace (N.to_nat (len pre)) with (length pre) by (unfold len; lia).
  by rewrite drop_app_length, take_app_length.
Qed.

(** One round of the loop. *)
Lemma canonical_loop_round fuel b limits position :
  canonical_loop (S fuel) b limits position =
  if decide (position < len b)%N then
    length ← read_u32 b position;
    position ← usize_add position 4;
    stop ← usize_add position length;
    slice ← slice_range b position stop;
    accept_entry limits slice;;
    canonical_loop fuel b limits stop
  else Ok ().
Proof.
  simpl. case_decide; [|done]. destruct (read_u32 b position); rsimpl; [|done..].
  destruct (usize_add position 4); rsimpl; [|done..]. destruct (usize_add _ _); rsimpl; [|done..].
  destruct (slice_range _ _ _); rsimpl; [|done..]. unfold accept_entry. by rewrite bind_assoc.
Qed.

Lemma canonical_loop_framed limits max es pre fuel :
  (max < u32_bound)%N → Forall (entry_fits max) es → (len (pre ++ framed es) < u64_bound)%N →
  length (framed es) < fuel →
  canonical_loop fuel (pre ++ framed es) limits (len pre) = each (accept_entry limits) es.
Proof.
  intros Hmax Hes. revert pre fuel; induction Hes as [|e es He Hes IH]; intros pre fuel Hb Hf.
  { destruct fuel as [|fuel]; [simpl in Hf; lia|]. simpl. rewrite app_nil_r. by rewrite decide_False by lia. }
  destruct fuel as [|fuel]; [lia|]. rewrite framed_cons in *. unfold entry_fits in He.
  rewrite !len_app, len_to_be in Hb. rewrite !length_app, length_to_be in Hf.
  rewrite canonical_loop_round, read_u32_app by (rewrite ?length_to_be, ?len_app, ?len_to_be; (done || lia)).
  rewrite decide_True by (rewrite !len_app, len_to_be; lia). rsimpl.
  rewrite from_to_be by (unfold u32_bound in *; change (256 ^ N.of_nat 4)%N with (2^32)%N; lia).
  unfold usize_add. rewrite decide_True by lia. rsimpl. rewrite decide_True by lia. rsimpl.
  replace (len pre + 4)%N with (len (pre ++ to_be 4 (len e))) by (by rewrite len_app, len_to_be).
  rewrite (app_assoc pre), slice_range_app. rsimpl. simpl each.
  destruct (accept_entry limits e); rsimpl; [|done..].
  rewrite <- len_app, (app_assoc _ e). apply IH; [|lia].
  rewrite !len_app, len_to_be. lia.
Qed.

Lemma canonical_entries_framed limits max es :
  (max < u32_bound)%N → Forall (entry_fits max) es → (len (framed es) < u64_bound)%N →
  validate_canonical_entries (framed es) limits = each (accept_entry limits) es.
Proof. intros. apply (canonical_loop_framed limits max es [] (S (length (framed es)))); (done || lia). Qed.

(** What an accepted chunk holds: entries that decode canonically to records within
    the negotiated limits. *)
Definition entry_accepted (limits : ManifestLimits.t) (e : bytes) : Prop :=
  ∃ entry : ManifestEntry.t, decode_payload e = Ok entry ∧
    (len (ManifestEntry.path entry) ≤ ManifestLimits.max_path_bytes limits)%N ∧
    (len (ManifestEntry.xattrs entry) ≤ ManifestLimits.max_xattrs_per_entry limits)%N ∧
    (xattr_bytes (ManifestEntry.xattrs entry) ≤ ManifestLimits.max_xattr_bytes_per_entry limits)%N.

Lemma xattr_sum_Ok l acc n e :
  (acc < u64_bound)%N →
  fold_result (λ acc xattr,
      ok_or (checked_add acc (len (ManifestXattr.name xattr)) ≫= λ value,
               checked_add value (len (ManifestXattr.value xattr))) (e : ProtocolError)) acc l = Ok n ↔
  n = (acc + xattr_bytes l)%N ∧ (n < u64_bound)%N.
Proof.
  revert acc; induction l as [|x l IH]; intros acc Ha; simpl.
  { rewrite ok_inj. split; [intros <-|intros [-> _]]; lia. }
  rewrite bind_ok. setoid_rewrite ok_or_ok. setoid_rewrite checked_add2_Some. split.
  - intros (a & [-> Hb] & Hf). apply IH in Hf as [-> ?]; [|done]. lia.
  - intros [-> Hb]. eexists. split; [split; [done|lia]|]. apply IH; lia.
Qed.

Lemma entry_xattr_bound (entry : ManifestEntry.t) :
  manifest_entry_ok entry → (xattr_bytes (ManifestEntry.xattrs entry) < u64_bound)%N.
Proof. intros [_ _ _ _ _ (_ & _ & _ & H)]. unfold MAX_MANIFEST_XATTR_BYTES, u64_bound in *. lia. Qed.

Lemma check_entry_Ok limits entry :
  (xattr_bytes (ManifestEntry.xattrs entry) < u64_bound)%N →
  check_entry limits entry = Ok () ↔
  (len (ManifestEntry.path entry) ≤ ManifestLimits.max_path_bytes limits)%N ∧
  (len (ManifestEntry.xattrs entry) ≤ ManifestLimits.max_xattrs_per_entry limits)%N ∧
  (xattr_bytes (ManifestEntry.xattrs entry) ≤ ManifestLimits.max_xattr_bytes_per_entry limits)%N.
Proof.
  intros Hb. unfold check_entry. rewrite !invalid_guard_ok, !N.nlt_ge, bind_ok. split.
  - intros (? & ? & n & Hn & Hl). apply xattr_sum_Ok in Hn as [-> _]; [|done].
    rewrite invalid_guard_ok, N.nlt_ge in Hl. rewrite N.add_0_l in Hl. tauto.
  - intros (? & ? & ?). split_and!; [done..|]. eexists. rewrite xattr_sum_Ok by done.
    split; [split; [done|by rewrite N.add_0_l]|]. by rewrite invalid_guard_ok, N.nlt_ge, N.add_0_l.
Qed.

Lemma accept_entries_Ok limits es :
  each (accept_entry limits) es = Ok () ↔ Forall (entry_accepted limits) es.
Proof.
  rewrite each_ok. apply Forall_proper; [|done]. intros e. unfold accept_entry, entry_accepted.
  rewrite bind_ok. split; intros (entry & Hd & He); exists entry; (split; [done|]);
    apply decode_payload_validated in Hd; apply manifest_entry_validate_Ok, entry_xattr_bound in Hd;
    by apply check_entry_Ok.
Qed.

(** A chunk that continues a stream of [sequence] chunks, [first] entries and
    [before] bytes. *)
Record chunk_accepted (limits : ManifestLimits.t) (stream : bytes) (sequence first before : N)
    (chunk : ManifestChunk.t) : Prop := {
  chunk_stream : ManifestChunk.stream_id chunk = stream;
  chunk_sequence : ManifestChunk.sequence chunk = sequence;
  chunk_first : ManifestChunk.first_entry chunk = first;
  chunk_entries : ∃ es, ManifestChunk.bytes chunk = framed es ∧ ManifestChunk.entry_count chunk = len es ∧
    Forall (entry_fits (ManifestLimits.max_entry_bytes limits)) es ∧ Forall (entry_accepted limits) es;
  chunk_size : (len (ManifestChunk.bytes chunk) ≤ ManifestLimits.max_chunk_bytes limits)%N;
  chunk_total_entries : (first + ManifestChunk.entry_count chunk ≤ ManifestLimits.max_entries limits)%N;
  chunk_total_bytes : (before + len (ManifestChunk.bytes chunk) ≤ ManifestLimits.max_total_bytes limits)%N;
}.

Lemma limits_bounds limits :
  limits_ok limits → (ManifestLimits.max_entry_bytes limits < u32_bound)%N ∧
  (ManifestLimits.max_chunk_bytes limits < u64_bound)%N ∧
  (ManifestLimits.max_entries limits < u64_bound)%N ∧ (ManifestLimits.max_total_bytes limits < u64_bound)%N.
Proof.
  unfold limits_ok, MAX_MANIFEST_ENTRY_BYTES, MAX_MANIFEST_CHUNK_BYTES, MAX_MANIFEST_ENTRIES,
    MAX_MANIFEST_BYTES, u32_bound, u64_bound. intros. destruct_and!. split_and!; lia.
Qed.

Lemma check_chunk_Ok self limits chunk r :
  manifest_limits self = Some limits → limits_ok limits →
  check_chunk self chunk = Ok r ↔
  (∃ stream, stream_id self = Some stream ∧
     chunk_accepted limits stream (next_chunk_sequence self) (next_entry self) (byte_count self) chunk) ∧
  r = (next_entry self + ManifestChunk.entry_count chunk, byte_count self + len (ManifestChunk.bytes chunk))%N.
Proof.
  intros Hl (Hme & Hmc & Hmn & Hmb)%limits_bounds. unfold check_chunk. rewrite Hl. rsimpl.
  rewrite !invalid_guard_ok, N.nlt_ge. split.
  - intros (Hs%dec_stable & Hq%dec_stable & Hf%dec_stable & Hc & Hk). unfold invalid in Hk. ok_inv.
    rename select (count_length_prefixed_entries _ _ = _) into Hcount.
    apply count_entries_Ok in Hcount as (es & Hb & Hes & Hn); [|done|lia].
    rename select (validate_canonical_entries _ _ = _) into Hcan. rewrite Hb in Hcan.
    rewrite (canonical_entries_framed _ _ _ Hme Hes) in Hcan by (rewrite <- Hb; lia).
    apply accept_entries_Ok in Hcan.
    repeat match goal with H : checked_add _ _ = Some _ |- _ => apply checked_add_Some in H as [-> ?] end.
    split; [|done]. exists (ManifestChunk.stream_id chunk). split; [done|].
    constructor; try done; try lia. by exists es.
  - intros ((stream & Hst & [<- -> -> (es & Hb & Hn & Hes & Hacc) Hsz Hte Htb]) & ->).
    rewrite Hst. split_and!; [tauto|tauto|tauto|done|].
    rewrite (proj2 (proj2 (count_entries_Ok (ManifestChunk.bytes chunk) _ Hme ltac:(lia)) (len es)) (ex_intro _ es (conj Hb (conj Hes eq_refl)))).
    rsimpl. rewrite decide_False by (rewrite Hn; tauto). rewrite Hb at 1.
    rewrite (canonical_entries_framed _ _ _ Hme Hes) by (rewrite <- Hb; lia).
    rewrite (proj2 (accept_entries_Ok _ _) Hacc). rsimpl.
    rewrite (checked_add_fits (next_entry self)) by lia. rsimpl. rewrite decide_False by lia.
    rewrite (checked_add_fits (byte_count self)) by lia. rsimpl. by rewrite decide_False by lia.
Qed.

(** ** The session behind the interface *)
Lemma builder_accept_Ok s d m n s' :
  accept s d m n = (s', Ok ()) ↔
  n = next_sequence s d ∧ BuilderMessage.validate m = Ok () ∧ (n + 1 < u64_bound)%N ∧
  ∃ next, accept_inner s d m = (next, Ok ()) ∧
    s' = match d with
         | Direction.HostToGuest => set_next_host_sequence (n + 1) next
         | Direction.GuestToHost => set_next_guest_sequence (n + 1) next
         end.
Proof.
  unfold accept. destruct (decide _) as [|Hn%dec_stable]; [naive_solver|].
  destruct (BuilderMessage.validate m) as [[]| |] eqn:Hv; simpl; [|naive_solver..].
  destruct (accept_inner s d m) as [next [[]| |]] eqn:Ha; simpl; [|naive_solver..].
  unfold checked_add. case_decide; simpl; naive_solver.
Qed.

Lemma builder_accept_inner_sequences s d m s' r :
  accept_inner s d m = (s', r) →
  next_host_sequence s' = next_host_sequence s ∧ next_guest_sequence s' = next_guest_sequence s.
Proof.
  unfold accept_inner, accept_chunk, try_with. intros Ha.
  repeat (case_match; simplify_eq; try done).
Qed.

#[global] Instance session : Session t BuilderMessage.t :=
  {| session_new := new; session_next_sequence := next_sequence; session_accept := accept |}.

#[global] Instance session_laws : SessionLaws t BuilderMessage.t.
Proof.
  split; simpl.
  - by intros [].
  - intros s d m n s' r Ha Hr. unfold accept, try_with in Ha. destruct (decide _); [by simplify_eq|].
    destruct (BuilderMessage.validate m) as [[]| |]; [|by simplify_eq..].
    destruct (accept_inner s d m) as [next [[]| |]]; [|by simplify_eq..].
    destruct (ok_or _ _); by simplify_eq.
  - intros s d m n Hn. unfold accept. by rewrite decide_True.
  - intros s d m n s' (-> & _ & Hb & next & Ha & ->)%builder_accept_Ok.
    apply builder_accept_inner_sequences in Ha as [Hh Hg].
    split; [done|]. split; [by destruct d|]. by destruct d; intros [] ?.
Qed.

(** ** What a session has seen *)
Abbreviation event := (Direction.t * BuilderMessage.t)%type.

Definition from_guest (m : BuilderMessage.t) : event := (Direction.GuestToHost, m).
Definition from_host (m : BuilderMessage.t) : event := (Direction.HostToGuest, m).

Abbreviation entries_in := (sum_of ManifestChunk.entry_count).
Abbreviation bytes_in := (sum_of (λ c, len (ManifestChunk.bytes c))).

(** The request fits what the guest announced. *)
Definition agreed (hello : BuilderHello.t) (start : BuilderStart.t) : Prop :=
  BuilderStart.expected_tools start = BuilderHello.builder_tools hello ∧
  (BuilderStart.expected_physmem_bytes start ≤ BuilderHello.accepted_physmem_bytes hello)%N.

(** The chunks are one contiguous stream within the negotiated limits. *)
Definition stream_accepted (start : BuilderStart.t) (begin : ManifestBegin.t) (chunks : list ManifestChunk.t)
    : Prop :=
  ManifestBegin.schema begin = BuilderStart.manifest_schema start ∧
  ∀ i c, chunks !! i = Some c →
    chunk_accepted (BuilderStart.manifest_limits start) (ManifestBegin.stream_id begin)
      (N.of_nat i) (entries_in (take i chunks)) (bytes_in (take i chunks)) c.

(** The end message says what was streamed. *)
Definition end_accepted (begin : ManifestBegin.t) (chunks : list ManifestChunk.t) (end' : ManifestEnd.t)
    : Prop :=
  ManifestEnd.stream_id end' = ManifestBegin.stream_id begin ∧
  ManifestEnd.entry_count end' = entries_in chunks ∧ ManifestEnd.byte_count end' = bytes_in chunks ∧
  ManifestEnd.sha256 end' = sha256_hex (concat (ManifestChunk.bytes <$> chunks)).

(** The result says what was requested, streamed and sent. *)
Definition done_accepted (start : BuilderStart.t) (end' : ManifestEnd.t) (account : AccountDb.t)
    (done' : BuilderDone.t) : Prop :=
  BuilderDone.manifest_sha256 done' = ManifestEnd.sha256 end' ∧
  BuilderDone.entry_count done' = ManifestEnd.entry_count end' ∧
  BuilderDone.byte_count done' = ManifestEnd.byte_count end' ∧
  BuilderDone.original_user done' = BuilderStart.original_user start ∧
  BuilderDone.account_db_sha256 done' = AccountDb.sha256 account ∧
  BuilderDone.observed_tools done' = BuilderStart.expected_tools start.

Definition opening (hello : BuilderHello.t) (start : BuilderStart.t) : list event :=
  [from_guest (BuilderMessage.Hello hello); from_host (BuilderMessage.Start start)].

Definition stream (begin : ManifestBegin.t) (chunks : list ManifestChunk.t) : list event :=
  from_guest (BuilderMessage.ManifestBegin begin) ::
  ((λ c, from_guest (BuilderMessage.ManifestChunk c)) <$> chunks).

(** The request's values the session keeps. *)
Definition remembers (s : t) (start : BuilderStart.t) : Prop :=
  expected_tools s = Some (BuilderStart.expected_tools start) ∧
  original_user s = Some (BuilderStart.original_user start) ∧
  manifest_limits s = Some (BuilderStart.manifest_limits start).

(** The totals of the stream the session keeps. *)
Definition counted (s : t) (chunks : list ManifestChunk.t) : Prop :=
  next_entry s = entries_in chunks ∧ byte_count s = bytes_in chunks.

Definition history (s : t) (h : list event) : Prop :=
  match state s with
  | BuilderState.AwaitHello => h = []
  | BuilderState.AwaitStart =>
      ∃ hello, h = [from_guest (BuilderMessage.Hello hello)] ∧
        observed_tools s = Some (BuilderHello.builder_tools hello) ∧
        accepted_physmem_bytes s = Some (BuilderHello.accepted_physmem_bytes hello)
  | BuilderState.AwaitManifestBegin =>
      ∃ hello start, h = opening hello start ∧ agreed hello start ∧ remembers s start ∧
        manifest_schema s = Some (BuilderStart.manifest_schema start)
  | BuilderState.StreamingManifest =>
      ∃ hello start begin chunks, h = opening hello start ++ stream begin chunks ∧
        agreed hello start ∧ remembers s start ∧ stream_accepted start begin chunks ∧ counted s chunks ∧
        stream_id s = Some (ManifestBegin.stream_id begin) ∧ next_chunk_sequence s = len chunks ∧
        manifest_hasher s = foldl hasher_update hasher_new (ManifestChunk.bytes <$> chunks)
  | BuilderState.AwaitAccountDb =>
      ∃ hello start begin chunks end',
        h = opening hello start ++ stream begin chunks ++ [from_guest (BuilderMessage.ManifestEnd end')] ∧
        agreed hello start ∧ remembers s start ∧ stream_accepted start begin chunks ∧ counted s chunks ∧
        end_accepted begin chunks end' ∧ manifest_sha256 s = Some (ManifestEnd.sha256 end')
  | BuilderState.AwaitDone =>
      ∃ hello start begin chunks end' account,
        h = opening hello start ++ stream begin chunks ++
            [from_guest (BuilderMessage.ManifestEnd end'); from_guest (BuilderMessage.AccountDb account)] ∧
        agreed hello start ∧ remembers s start ∧ stream_accepted start begin chunks ∧ counted s chunks ∧
        end_accepted begin chunks end' ∧ manifest_sha256 s = Some (ManifestEnd.sha256 end') ∧
        account_db_sha256 s = Some (AccountDb.sha256 account)
  | BuilderState.Completed =>
      ∃ hello start begin chunks end' account done',
        h = opening hello start ++ stream begin chunks ++
            [from_guest (BuilderMessage.ManifestEnd end'); from_guest (BuilderMessage.AccountDb account);
             from_guest (BuilderMessage.Done done')] ∧
        agreed hello start ∧ stream_accepted start begin chunks ∧ end_accepted begin chunks end' ∧
        done_accepted start end' account done'
  | BuilderState.Failed => ∃ h' e, h' ≠ [] ∧ h = h' ++ [from_guest (BuilderMessage.Error e)]
  end.

Context {sha_laws : Sha2Laws}.

(** The history of a session whose state is known. *)
Ltac history_in st :=
  unfold history; match goal with |- context [state ?s] => replace (state s) with st by (by simpl) end; cbv iota.

Abbreviation validated h := (Forall (λ e : event, BuilderMessage.validate e.2 = Ok ()) h).

Lemma validated_start hello start h :
  validated (opening hello start ++ h) → limits_ok (BuilderStart.manifest_limits start).
Proof.
  intros [Hv _]%Forall_app. apply Forall_cons in Hv as [_ [Hv _]%Forall_cons].
  by apply builder_start_validate_Ok in Hv as [].
Qed.

Lemma stream_snoc begin chunks c :
  stream begin (chunks ++ [c]) = stream begin chunks ++ [from_guest (BuilderMessage.ManifestChunk c)].
Proof. unfold stream. by rewrite fmap_app. Qed.

Lemma stream_accepted_snoc start begin chunks c :
  stream_accepted start begin chunks →
  chunk_accepted (BuilderStart.manifest_limits start) (ManifestBegin.stream_id begin)
    (len chunks) (entries_in chunks) (bytes_in chunks) c →
  stream_accepted start begin (chunks ++ [c]).
Proof.
  intros [Hs Hc] Hnew. split; [done|]. intros i c' Hi.
  apply lookup_app_Some in Hi as [Hi|[Hge Hi]].
  - pose proof (lookup_lt_Some _ _ _ Hi). rewrite take_app_le by lia. by apply Hc.
  - apply list_lookup_singleton_Some in Hi as [Hz <-].
    assert (i = length chunks) as -> by lia. by rewrite take_app_length.
Qed.

Lemma chunk_history s c s' h :
  history s h → state s = BuilderState.StreamingManifest → validated h → accept_chunk s c = (s', Ok ()) →
  history s' (h ++ [from_guest (BuilderMessage.ManifestChunk c)]).
Proof.
  intros Hh Hst Hv Ha. unfold history in Hh. rewrite Hst in Hh.
  destruct Hh as (hello & start & begin & chunks & -> & Hag & Hrem & Hstr & [Hne Hbc] & Hid & Hseq & Hhash).
  pose proof (validated_start _ _ _ Hv) as Hlim. pose proof Hrem as (_ & _ & Hl).
  unfold accept_chunk in Ha. destruct (check_chunk s c) as [r| |] eqn:Hc; [|done..].
  apply (check_chunk_Ok _ _ _ _ Hl Hlim) in Hc as [(stream0 & Hid' & Hc) ->].
  assert (stream0 = ManifestBegin.stream_id begin) as -> by congruence.
  rewrite Hne, Hbc, Hseq in Hc. simpl in Ha.
  destruct (checked_add _ 1) as [q|] eqn:Hq; [|done]. apply checked_add_Some in Hq as [-> _].
  injection Ha as <-. history_in BuilderState.StreamingManifest.
  exists hello, start, begin, (chunks ++ [c]). rewrite stream_snoc, app_assoc.
  split_and!; [done..|by apply stream_accepted_snoc| |done| |].
  - unfold counted. simpl. rewrite !sum_of_snoc, Hne, Hbc. done.
  - simpl in *. rewrite Hseq, len_app. unfold len at 3. simpl. lia.
  - rewrite fmap_app, foldl_app. simpl. by rewrite Hhash.
Qed.

Lemma end_history s e s' h :
  history s h → state s = BuilderState.StreamingManifest →
  accept_inner s Direction.GuestToHost (BuilderMessage.ManifestEnd e) = (s', Ok ()) →
  history s' (h ++ [from_guest (BuilderMessage.ManifestEnd e)]).
Proof.
  intros Hh Hst Ha. unfold accept_inner in Ha. rewrite Hst in Ha. unfold history in Hh. rewrite Hst in Hh.
  destruct Hh as (hello & start & begin & chunks & -> & Hag & Hrem & Hstr & [Hne Hbc] & Hid & Hseq & Hhash).
  destruct (decide _) as [|H1%dec_stable] in Ha; [done|].
  destruct (decide _) as [|[H2%dec_stable H3%dec_stable]%not_or_and] in Ha; [done|].
  destruct (decide _) as [|H4%dec_stable] in Ha; [done|]. injection Ha as <-.
  history_in BuilderState.AwaitAccountDb. exists hello, start, begin, chunks, e. rewrite <- app_assoc.
  rewrite Hhash, sha256_pieces in *. split_and!; try done.
  - unfold end_accepted, sha256_hex. split_and!; congruence.
  - by rewrite H4.
Qed.

Lemma done_history s r s' h :
  history s h → state s = BuilderState.AwaitDone →
  accept_inner s Direction.GuestToHost (BuilderMessage.Done r) = (s', Ok ()) →
  history s' (h ++ [from_guest (BuilderMessage.Done r)]).
Proof.
  intros Hh Hst Ha. unfold accept_inner in Ha. rewrite Hst in Ha. unfold history in Hh. rewrite Hst in Hh.
  destruct Hh as (hello & start & begin & chunks & e & account & -> & Hag & (Ht & Hu & _) & Hstr &
    [Hne Hbc] & Hend & Hm & Hacc).
  destruct (decide _) as [|[H1%dec_stable [H2%dec_stable H3%dec_stable]%not_or_and]%not_or_and] in Ha; [done|].
  destruct (decide _) as [|H4%dec_stable] in Ha; [done|].
  destruct (decide _) as [|H5%dec_stable] in Ha; [done|].
  destruct (decide _) as [|H6%dec_stable] in Ha; [done|]. injection Ha as <-.
  history_in BuilderState.Completed. exists hello, start, begin, chunks, e, account, r. rewrite <- !app_assoc. split_and!; try done.
  destruct Hend as (_ & He1 & He2 & _). unfold done_accepted. split_and!; congruence.
Qed.

Lemma start_history s st s' h :
  history s h → state s = BuilderState.AwaitStart →
  accept_inner s Direction.HostToGuest (BuilderMessage.Start st) = (s', Ok ()) →
  history s' (h ++ [from_host (BuilderMessage.Start st)]).
Proof.
  intros Hh Hst Ha. unfold accept_inner in Ha. rewrite Hst in Ha. unfold history in Hh. rewrite Hst in Hh.
  destruct Hh as (hello & -> & Ho & Hp). rewrite Ho, Hp in Ha. simpl in Ha.
  destruct (decide _) as [|H1%dec_stable] in Ha; [done|].
  destruct (decide _) as [|H2%dec_stable] in Ha; [done|]. injection Ha as <-.
  history_in BuilderState.AwaitManifestBegin. by exists hello, st.
Qed.

Lemma begin_history s b s' h :
  history s h → state s = BuilderState.AwaitManifestBegin →
  accept_inner s Direction.GuestToHost (BuilderMessage.ManifestBegin b) = (s', Ok ()) →
  history s' (h ++ [from_guest (BuilderMessage.ManifestBegin b)]).
Proof.
  intros Hh Hst Ha. unfold accept_inner in Ha. rewrite Hst in Ha. unfold history in Hh. rewrite Hst in Hh.
  destruct Hh as (hello & start & -> & Hag & Hrem & Hsch). rewrite Hsch in Ha.
  destruct (decide _) as [|[= H1]%dec_stable] in Ha; [done|]. injection Ha as <-.
  history_in BuilderState.StreamingManifest. by exists hello, start, b, [].
Qed.

Lemma account_history s a s' h :
  history s h → state s = BuilderState.AwaitAccountDb →
  accept_inner s Direction.GuestToHost (BuilderMessage.AccountDb a) = (s', Ok ()) →
  history s' (h ++ [from_guest (BuilderMessage.AccountDb a)]).
Proof.
  intros Hh Hst Ha. unfold accept_inner in Ha. rewrite Hst in Ha. unfold history in Hh. rewrite Hst in Hh.
  destruct Hh as (hello & start & begin & chunks & e & -> & Hag & Hrem & Hstr & Hcnt & Hend & Hm).
  injection Ha as <-. history_in BuilderState.AwaitDone.
  exists hello, start, begin, chunks, e, a. by rewrite <- !app_assoc.
Qed.

Lemma history_nonempty s h : history s h → state s ≠ BuilderState.AwaitHello → h ≠ [].
Proof.
  unfold history. intros Hh Hst ->. destruct (state s); try done; [by destruct Hh as (? & ? & _)|..|].
  1-5: by decompose [ex and] Hh.
  destruct Hh as ([|] & ? & _ & ?); done.
Qed.

Lemma builder_inner_history s d m s' h :
  history s h → validated h → accept_inner s d m = (s', Ok ()) → history s' (h ++ [(d, m)]).
Proof.
  intros Hh Hv Ha. pose proof (history_nonempty s h Hh) as Hne.
  destruct (state s) eqn:Hst, d, m; try (unfold accept_inner in Ha; rewrite Hst in Ha; done);
    try (unfold accept_inner in Ha; rewrite Hst in Ha; injection Ha as <-; exists h; eexists; split; [by apply Hne|done]).
  - unfold accept_inner in Ha. rewrite Hst in Ha. injection Ha as <-.
    unfold history in Hh. rewrite Hst in Hh. subst h. history_in BuilderState.AwaitStart. by eexists.
  - by eapply start_history.
  - by eapply begin_history.
  - eapply chunk_history; try done. unfold accept_inner in Ha. by rewrite Hst in Ha.
  - by eapply end_history.
  - by eapply account_history.
  - by eapply done_history.
Qed.

Lemma builder_accept_all_history_from s l s' h :
  history s h → validated h → accept_all s l = Some s' →
  history s' (h ++ (fst <$> l)) ∧ validated (h ++ (fst <$> l)).
Proof.
  revert s h; induction l as [|[[d m] n] l IH]; intros s h Hh Hv Ha.
  { injection Ha as <-. by rewrite app_nil_r. }
  apply accept_all_cons in Ha as (s1 & (_ & Hm & _ & next & Hi & ->)%builder_accept_Ok & Hl).
  pose proof (builder_inner_history _ _ _ _ _ Hh Hv Hi) as Hnext.
  rewrite fmap_cons, cons_middle, app_assoc. eapply IH; [|by apply Forall_app; split; [done|by repeat constructor]|exact Hl].
  by destruct d.
Qed.

Lemma builder_accept_all_history l s :
  accept_all new l = Some s → history s (fst <$> l) ∧ validated (fst <$> l).
Proof. apply (builder_accept_all_history_from new l s []); [done|constructor]. Qed.
End session.

(** C3: what a completed build proves.  When the session has accepted messages up to
    completion they were, in order: the guest's hello, the host's request, the begin
    of the manifest, its chunks, its end, the account database and the result, each
    valid by itself and numbered from zero in each direction.  The tools and memory
    of the hello satisfy the request and the result repeats the request's tools and
    user; the chunks are contiguous, every one splits into entries that decode
    canonically and stay within the negotiated limits, in total as well; the counts
    and the digest of the end message and of the result are those of the bytes
    received, and the account digest is that of the account message. *)
Theorem build_completed_binds {sha : Sha2} {codecs : BuilderMessage.Codecs} {laws : Sha2Laws} l s :
  accept_all new l = Some s → state s = BuilderState.Completed →
  l = number 0 0 (fst <$> l) ∧ Forall (λ e, BuilderMessage.validate e.2 = Ok ()) (fst <$> l) ∧
  ∃ hello start begin chunks end' account done',
    fst <$> l = opening hello start ++ stream begin chunks ++
      [from_guest (BuilderMessage.ManifestEnd end'); from_guest (BuilderMessage.AccountDb account);
       from_guest (BuilderMessage.Done done')] ∧
    agreed hello start ∧ stream_accepted start begin chunks ∧ end_accepted begin chunks end' ∧
    done_accepted start end' account done'.
Proof.
  intros Ha Hst. destruct (builder_accept_all_history l s Ha) as [Hh Hv]. unfold history in Hh. rewrite Hst in Hh.
  split; [exact (accept_all_numbered new l s Ha)|]. done.
Qed.
End BuilderSession.

(** ** A build that completes *)
Module SampleBuild.
Import SampleCodecs BuilderSession.
#[local] Existing Instances SampleHash.sample_sha2 SampleHash.sample_sha2_laws.

Definition sample_entry : ManifestEntry.t := {|
  ManifestEntry.path := bs "etc/motd";
  ManifestEntry.kind := 1;
  ManifestEntry.mode := 420;
  ManifestEntry.uid := 0;
  ManifestEntry.gid := 0;
  ManifestEntry.size := 5;
  ManifestEntry.rdev := 0;
  ManifestEntry.mtime_seconds := 1700000000;
  ManifestEntry.mtime_nanoseconds := 0;
  ManifestEntry.symlink_target := None;
  ManifestEntry.content_sha256 := Some (replicate 32 x07);
  ManifestEntry.hardlink_target := None;
  ManifestEntry.xattrs := [ManifestXattr.manifest_xattr (bs "user.a") (bs "1")];
|}.

#[export] Instance entry_eq_dec : EqDecision ManifestEntry.t.
Proof. assert (EqDecision ManifestXattr.t) by solve_decision. solve_decision. Defined.

Definition entry_bytes : bytes := [xad; x00; x48].

#[export] Instance codecs : BuilderMessage.Codecs := {|
  BuilderMessage.hello_cbor := no_codec _;
  BuilderMessage.start_cbor := no_codec _;
  BuilderMessage.begin_cbor := no_codec _;
  BuilderMessage.chunk_cbor := no_codec _;
  BuilderMessage.end_cbor := no_codec _;
  BuilderMessage.account_cbor := no_codec _;
  BuilderMessage.done_cbor := no_codec _;
  BuilderMessage.build_error_cbor := no_codec _;
  BuilderMessage.database_cbor := SampleAccountCodec.sample_codec;
  BuilderMessage.entry_cbor := one_codec sample_entry entry_bytes;
|}.

#[export] Instance codecs_laws : BuilderMessage.CodecsLaws.
Proof. split; first [apply no_codec_laws | apply one_codec_laws | apply SampleAccountCodec.sample_codec_laws]. Qed.

Abbreviation digest := SampleStart.digest.
Abbreviation tools := (BuilderStart.expected_tools SampleStart.sample).

Definition hello : BuilderHello.t := {|
  BuilderHello.guest_contract_id := digest;
  BuilderHello.init_build_id := digest;
  BuilderHello.kernel_build_id := digest;
  BuilderHello.host_elf_machine := 183;
  BuilderHello.guest_uts_machine := bs "aarch64";
  BuilderHello.guest_page_size := 4096;
  BuilderHello.cpu_state_hwcap_policy := bs "p1";
  BuilderHello.online_cpus := 1;
  BuilderHello.builder_tools := tools;
  BuilderHello.features := [bs "xattr"];
  BuilderHello.accepted_physmem_bytes := 67112960;
|}.

Definition begin : ManifestBegin.t := ManifestBegin.manifest_begin (bs "m1") digest.
Definition chunk (i : N) : ManifestChunk.t :=
  ManifestChunk.manifest_chunk digest i i 1 (framed [entry_bytes]).
Definition manifest_digest : bytes := sha256_hex (framed [entry_bytes] ++ framed [entry_bytes]).
Definition end_message : ManifestEnd.t := ManifestEnd.manifest_end digest 2 14 manifest_digest.
Definition account : AccountDb.t :=
  AccountDb.account_db ACCOUNT_DB_SCHEMA 3 (sha256_hex SampleAccountCodec.sample_bytes)
    SampleAccountCodec.sample_bytes.
Definition result_message : BuilderDone.t := {|
  BuilderDone.status := 0;
  BuilderDone.manifest_sha256 := manifest_digest;
  BuilderDone.entry_count := 2;
  BuilderDone.byte_count := 14;
  BuilderDone.generation_marker_sha256 := digest;
  BuilderDone.original_user := [];
  BuilderDone.user_resolution := UserResolution.unresolved;
  BuilderDone.observed_tools := tools;
  BuilderDone.filesystem_status := FilesystemStatus.filesystem_status true true true;
  BuilderDone.account_db_sha256 := AccountDb.sha256 account;
|}.

Definition events : list (Direction.t * BuilderMessage.t) :=
  opening hello SampleStart.sample ++ stream begin [chunk 0; chunk 1] ++
  [from_guest (BuilderMessage.ManifestEnd end_message); from_guest (BuilderMessage.AccountDb account);
   from_guest (BuilderMessage.Done result_message)].

Definition final : t := default new (accept_all new (number 0 0 events)).

Lemma build_completed_binds_witness :
  accept_all new (number 0 0 events) = Some final ∧
  Forall (λ e, BuilderMessage.validate e.2 = Ok ()) (fst <$> number 0 0 events).
Proof.
  assert (accept_all new (number 0 0 events) = Some final) as Ha by by vm_compute.
  split; [exact Ha|]. apply (build_completed_binds (number 0 0 events) final Ha). by vm_compute.
Defined.
End SampleBuild.
