(* ===== verification/Validator.v ===== *)
(** * Validator messages: crates/pocket-protocol/src/validator.rs

    The messages of the validator protocol and the digest that binds the evidence
    of a validation to its request. *)

From S2P Require Import Prelude RustStr Utf8 ByteOrder ErrorCode ProtocolError Frame Payload.
From S2P Require Import Message Sha256 BuilderManifest AccountDatabase BuilderMessage.

Definition EVIDENCE_DOMAIN : bytes := bs "pocket-validator-evidence" ++ [x00] ++ bs "v1" ++ [x00].

Definition validate_validator_memory (field : string) (bytes : N) : result ProtocolError () :=
  if decide (¬ (64 * 1024 * 1024 ≤ bytes ≤ 1024 * 1024 * 1024 * 1024)%N ∨ ¬ is_multiple_of bytes 4096)
  then invalid field "validator memory must be 64 MiB..=1 TiB and 4096-byte aligned" else Ok ().

(** The closure of [validate_uuid] on [(index, byte)]. *)
Definition bad_uuid_byte (index : nat) (b : byte) : Prop :=
  match index with
  | 8 | 13 | 18 | 23 => b ≠ x2d
  | _ => ¬ is_lower_hex b
  end.
#[export] Instance bad_uuid_byte_dec index b : Decision (bad_uuid_byte index b).
Proof. unfold bad_uuid_byte. repeat case_match; apply _. Defined.

Definition validate_uuid (field : string) (value : bytes) : result ProtocolError () :=
  if decide (len value ≠ 36%N ∨ Exists (λ ib, bad_uuid_byte ib.1 ib.2) (imap pair value))
  then invalid field "must be a lowercase canonical UUID" else Ok ().

Module ValidatorHello.
Record t : Set := validator_hello {
  guest_contract_id : bytes;
  init_build_id : bytes;
  kernel_build_id : bytes;
  host_elf_machine : N;
  guest_uts_machine : bytes;
  guest_page_size : N;
  cpu_state_hwcap_policy : bytes;
  online_cpus : N;
  accepted_physmem_bytes : N;
  features : list bytes;
}.

#[global] Instance validate : ValidateMessage t := λ self,
  validate_sha256 "guest_contract_id" (guest_contract_id self);;
  validate_sha256 "init_build_id" (init_build_id self);;
  validate_sha256 "kernel_build_id" (kernel_build_id self);;
  if decide (¬ (host_elf_machine self = 62%N ∨ host_elf_machine self = 183%N))
  then invalid "host_elf_machine" "unsupported ELF machine" else
  if decide (¬ (guest_uts_machine self = bs "x86_64" ∨ guest_uts_machine self = bs "aarch64"))
  then invalid "guest_uts_machine" "unsupported guest machine" else
  if decide (¬ (4096 ≤ guest_page_size self ≤ 65536)%N ∨ ¬ is_power_of_two (guest_page_size self))
  then invalid "guest_page_size" "unsupported page size" else
  validate_token "cpu_state_hwcap_policy" (cpu_state_hwcap_policy self) MAX_ID_LENGTH;;
  if decide (online_cpus self ≠ 1%N)
  then invalid "online_cpus" "validator must have exactly one online CPU" else
  validate_validator_memory "accepted_physmem_bytes" (accepted_physmem_bytes self);;
  if decide (¬ is_multiple_of (accepted_physmem_bytes self) (guest_page_size self))
  then invalid "accepted_physmem_bytes" "must be aligned to the reported guest page size" else
  validate_count "features" (len (features self)) 32;;
  each_unique (λ feature, validate_token "features" feature 64) id
    (InvalidMessage "features" "duplicate feature") (features self).
End ValidatorHello.

Module ValidatorStart.
Record t : Set := validator_start {
  profile_id : bytes;
  profile_revision : bytes;
  challenge : bytes;
  derivation_key : bytes;
  root_layout : bytes;
  filesystem_contract : bytes;
  manifest_schema : bytes;
  manifest_limits : ManifestLimits.t;
  expected_manifest_sha256 : bytes;
  expected_manifest_entry_count : N;
  expected_manifest_byte_count : N;
  expected_generation_marker : GenerationMarker.t;
  expected_generation_marker_sha256 : bytes;
  expected_account_db : AccountDb.t;
  expected_filesystem_uuid : bytes;
  expected_filesystem_bytes : N;
  expected_physmem_bytes : N;
}.

#[global] Instance validate {sha : Sha2} {database : Cbor AccountDatabase.t} : ValidateMessage t := λ self,
  validate_token "profile_id" (profile_id self) MAX_ID_LENGTH;;
  each (λ '(field, value), validate_sha256 field value)
    [("profile_revision", profile_revision self);
     ("challenge", challenge self);
     ("derivation_key", derivation_key self);
     ("expected_manifest_sha256", expected_manifest_sha256 self);
     ("expected_generation_marker_sha256", expected_generation_marker_sha256 self)];;
  validate_token "root_layout" (root_layout self) MAX_ID_LENGTH;;
  validate_token "filesystem_contract" (filesystem_contract self) MAX_ID_LENGTH;;
  validate_token "manifest_schema" (manifest_schema self) MAX_ID_LENGTH;;
  ManifestLimits.validate (manifest_limits self);;
  if decide (expected_manifest_entry_count self = 0%N ∨
             (ManifestLimits.max_entries (manifest_limits self) < expected_manifest_entry_count self)%N)
  then invalid "expected_manifest_entry_count" "outside negotiated manifest limit" else
  if decide (expected_manifest_byte_count self = 0%N ∨
             (ManifestLimits.max_total_bytes (manifest_limits self) < expected_manifest_byte_count self)%N)
  then invalid "expected_manifest_byte_count" "outside negotiated manifest limit" else
  Payload.validate (expected_generation_marker self);;
  let marker := expected_generation_marker self in
  if decide (GenerationMarker.profile_id marker ≠ profile_id self ∨
             GenerationMarker.profile_revision marker ≠ profile_revision self ∨
             GenerationMarker.derivation_key marker ≠ derivation_key self ∨
             GenerationMarker.root_layout marker ≠ root_layout self ∨
             GenerationMarker.filesystem_contract marker ≠ filesystem_contract self)
  then invalid "expected_generation_marker" "does not agree with validation request" else
  Payload.validate (expected_account_db self);;
  if decide (GenerationMarker.account_db_sha256 marker ≠ AccountDb.sha256 (expected_account_db self))
  then invalid "expected_account_db" "digest differs from generation marker" else
  validate_uuid "expected_filesystem_uuid" (expected_filesystem_uuid self);;
  if decide ((expected_filesystem_bytes self < 64 * 1024 * 1024)%N ∨
             ¬ is_multiple_of (expected_filesystem_bytes self) 4096)
  then invalid "expected_filesystem_bytes" "must be at least 64 MiB and 4096-byte aligned" else
  validate_validator_memory "expected_physmem_bytes" (expected_physmem_bytes self).
End ValidatorStart.

Module ValidatorEvidence.
Record t : Set := validator_evidence {
  manifest_sha256 : bytes;
  manifest_entry_count : N;
  manifest_byte_count : N;
  generation_marker_sha256 : bytes;
  account_db_sha256 : bytes;
  filesystem_uuid : bytes;
  filesystem_bytes : N;
  clean_before_mount : bool;
  block_device_read_only : bool;
  mounted_read_only : bool;
  unmounted : bool;
  clean_after_unmount : bool;
}.

#[global] Instance validate : ValidateMessage t := λ self,
  each (λ '(field, value), validate_sha256 field value)
    [("manifest_sha256", manifest_sha256 self);
     ("generation_marker_sha256", generation_marker_sha256 self);
     ("account_db_sha256", account_db_sha256 self)];;
  validate_uuid "filesystem_uuid" (filesystem_uuid self);;
  if decide (manifest_entry_count self = 0%N ∨ manifest_byte_count self = 0%N ∨ filesystem_bytes self = 0%N)
  then invalid "validator_evidence" "numeric evidence must be nonzero" else
  if decide (clean_before_mount self = false ∨ block_device_read_only self = false ∨
             mounted_read_only self = false ∨ unmounted self = false ∨ clean_after_unmount self = false)
  then invalid "validator_evidence"
         "successful validation requires clean read-only mount and unmount evidence" else
  Ok ().
End ValidatorEvidence.

(** ** The evidence digest *)
Definition u8_of_bool (b : bool) : byte := if b then x01 else x00.

Definition hash_field `{!Sha2} (h : hasher) (value : bytes) : hasher :=
  hasher_update (hasher_update h (to_be 8 (len value))) value.

(** The texts and the numbers the digest covers, in the order it takes them. *)
Definition evidence_texts (start : ValidatorStart.t) (evidence : ValidatorEvidence.t) : list bytes :=
  [ValidatorStart.profile_id start; ValidatorStart.profile_revision start;
   ValidatorStart.challenge start; ValidatorStart.derivation_key start;
   ValidatorStart.root_layout start; ValidatorStart.filesystem_contract start;
   ValidatorStart.manifest_schema start; ValidatorStart.expected_manifest_sha256 start;
   ValidatorStart.expected_generation_marker_sha256 start;
   AccountDb.sha256 (ValidatorStart.expected_account_db start);
   ValidatorStart.expected_filesystem_uuid start;
   ValidatorEvidence.manifest_sha256 evidence; ValidatorEvidence.generation_marker_sha256 evidence;
   ValidatorEvidence.account_db_sha256 evidence; ValidatorEvidence.filesystem_uuid evidence].

Definition evidence_numbers (start : ValidatorStart.t) (evidence : ValidatorEvidence.t) : list N :=
  [ValidatorStart.expected_manifest_entry_count start; ValidatorStart.expected_manifest_byte_count start;
   ValidatorStart.expected_filesystem_bytes start; ValidatorStart.expected_physmem_bytes start;
   ValidatorEvidence.manifest_entry_count evidence; ValidatorEvidence.manifest_byte_count evidence;
   ValidatorEvidence.filesystem_bytes evidence].

Definition evidence_flags (evidence : ValidatorEvidence.t) : list bool :=
  [ValidatorEvidence.clean_before_mount evidence; ValidatorEvidence.block_device_read_only evidence;
   ValidatorEvidence.mounted_read_only evidence; ValidatorEvidence.unmounted evidence;
   ValidatorEvidence.clean_after_unmount evidence].

Definition validator_evidence_sha256 `{!Sha2} (start : ValidatorStart.t) (evidence : ValidatorEvidence.t)
    : bytes :=
  let hasher := hasher_update hasher_new EVIDENCE_DOMAIN in
  let hasher := foldl hash_field hasher (evidence_texts start evidence) in
  let hasher := foldl (λ h value, hasher_update h (to_be 8 value)) hasher (evidence_numbers start evidence) in
  let hasher := hasher_update hasher (u8_of_bool <$> evidence_flags evidence) in
  hex_lower (hasher_finalize hasher).

Module ValidatorDone.
Record t : Set := validator_done {
  status : N;
  challenge : bytes;
  evidence : ValidatorEvidence.t;
  evidence_sha256 : bytes;
}.

Definition from_evidence `{!Sha2} (start : ValidatorStart.t) (evidence : ValidatorEvidence.t) : t :=
  validator_done 0 (ValidatorStart.challenge start) evidence (validator_evidence_sha256 start evidence).

#[global] Instance validate : ValidateMessage t := λ self,
  if decide (status self ≠ 0%N) then invalid "status" "VALIDATE_DONE status must be zero" else
  validate_sha256 "challenge" (challenge self);;
  Payload.validate (evidence self);;
  validate_sha256 "evidence_sha256" (evidence_sha256 self).
End ValidatorDone.

Definition validator_error_message (stage : bytes) (code : ErrorCode.t) (errno : option Z)
    (diagnostic : bytes) : ErrorMessage.t :=
  ErrorMessage.new stage code errno (truncate_diagnostic diagnostic).

(** ** The messages together *)
Module ValidatorMessage.
Inductive t : Set :=
  | Hello (message : ValidatorHello.t)
  | Start (message : ValidatorStart.t)
  | Done (message : ValidatorDone.t)
  | Error (message : ErrorMessage.t).

Definition kind (self : t) : MessageKind.t :=
  match self with
  | Hello _ => MessageKind.ValidateHello
  | Start _ => MessageKind.ValidateStart
  | Done _ => MessageKind.ValidateDone
  | Error _ => MessageKind.ValidateError
  end.

Class Codecs := {
  validate_hello_cbor :: Cbor ValidatorHello.t;
  validate_start_cbor :: Cbor ValidatorStart.t;
  validate_done_cbor :: Cbor ValidatorDone.t;
  validate_error_cbor :: Cbor ErrorMessage.t;
  validate_database_cbor :: Cbor AccountDatabase.t;
}.

Class CodecsLaws `{Codecs} := {
  validate_hello_laws :: CborLaws ValidatorHello.t;
  validate_start_laws :: CborLaws ValidatorStart.t;
  validate_done_laws :: CborLaws ValidatorDone.t;
  validate_error_laws :: CborLaws ErrorMessage.t;
  validate_database_laws :: CborLaws AccountDatabase.t;
}.

Section codec.
Context {sha : Sha2} {codecs : Codecs}.

Definition encode_payload (self : t) : result ProtocolError bytes :=
  match self with
  | Hello message => Payload.encode_payload message
  | Start message => Payload.encode_payload message
  | Done message => Payload.encode_payload message
  | Error message => Payload.encode_payload message
  end.

Definition validate (self : t) : result ProtocolError () :=
  match self with
  | Hello message => Payload.validate message
  | Start message => Payload.validate message
  | Done message => Payload.validate message
  | Error message => Payload.validate message
  end.

Definition decode_validator_message (frame : RawFrame) : result ProtocolError t :=
  let payload := payload frame in
  match Frame.kind (header frame) with
  | MessageKind.ValidateHello => Hello <$> decode_payload payload
  | MessageKind.ValidateStart => Start <$> decode_payload payload
  | MessageKind.ValidateDone => Done <$> decode_payload payload
  | MessageKind.ValidateError => Error <$> decode_payload payload
  | _ => invalid "kind" "non-validator message in validator protocol"
  end.
End codec.
End ValidatorMessage.

#[export] Existing Instances ValidatorMessage.validate_hello_cbor ValidatorMessage.validate_start_cbor
  ValidatorMessage.validate_done_cbor ValidatorMessage.validate_error_cbor
  ValidatorMessage.validate_database_cbor
  ValidatorMessage.validate_hello_laws ValidatorMessage.validate_start_laws
  ValidatorMessage.validate_done_laws ValidatorMessage.validate_error_laws
  ValidatorMessage.validate_database_laws.

(** ** What the digest covers *)

(** A text behind its length in eight bytes. *)
Definition field (v : bytes) : bytes := to_be 8 (len v) ++ v.

Definition evidence_preimage (start : ValidatorStart.t) (evidence : ValidatorEvidence.t) : bytes :=
  EVIDENCE_DOMAIN ++ concat (field <$> evidence_texts start evidence) ++
  concat (to_be 8 <$> evidence_numbers start evidence) ++ (u8_of_bool <$> evidence_flags evidence).

Lemma fold_hash_fields `{!Sha2} l acc :
  foldl hash_field acc l = foldl hasher_update acc (l ≫= λ v, [to_be 8 (len v); v]).
Proof. revert acc; induction l as [|v l IH]; intros acc; simpl; [done|]. by rewrite IH. Qed.

Lemma fold_hash_numbers `{!Sha2} l acc :
  foldl (λ h v, hasher_update h (to_be 8 v)) acc l = foldl hasher_update acc (to_be 8 <$> l).
Proof. revert acc; induction l as [|v l IH]; intros acc; cbn [foldl fmap list_fmap]; [done|]. apply IH. Qed.

Lemma concat_fields l : concat (l ≫= λ v, [to_be 8 (len v); v]) = concat (field <$> l).
Proof.
  induction l as [|v l IH]; [done|]. rewrite bind_cons, concat_app, IH, fmap_cons. cbn [concat].
  by rewrite app_nil_r.
Qed.

Lemma evidence_digest `{!Sha2} `{!Sha2Laws} start evidence :
  validator_evidence_sha256 start evidence = sha256_hex (evidence_preimage start evidence).
Proof.
  unfold validator_evidence_sha256, sha256_hex, evidence_preimage. cbv zeta. f_equal.
  rewrite fold_hash_fields, fold_hash_numbers.
  generalize (evidence_texts start evidence) (evidence_numbers start evidence) (u8_of_bool <$> evidence_flags evidence).
  intros ts ns fs.
  rewrite <- concat_fields. set (ps := ts ≫= _).
  assert (EVIDENCE_DOMAIN ++ concat ps ++ concat (to_be 8 <$> ns) ++ fs =
    concat (EVIDENCE_DOMAIN :: ps ++ (to_be 8 <$> ns) ++ [fs])) as ->.
  { cbn [concat]. rewrite !concat_app. cbn [concat]. by rewrite app_nil_r. }
  rewrite <- sha256_pieces. cbn [foldl]. by rewrite !foldl_app.
Qed.

Lemma to_be_8_inj a b r r' :
  (a < u64_bound)%N → (b < u64_bound)%N → to_be 8 a ++ r = to_be 8 b ++ r' → a = b ∧ r = r'.
Proof.
  intros Ha Hb Heq. apply app_inj_1 in Heq as [Heq ->]; [|by rewrite !length_to_be].
  split; [|done]. by apply (to_be_inj 8).
Qed.

Lemma fields_inj xs ys r r' :
  length xs = length ys → Forall (λ v, len v < u64_bound)%N xs → Forall (λ v, len v < u64_bound)%N ys →
  concat (field <$> xs) ++ r = concat (field <$> ys) ++ r' → xs = ys ∧ r = r'.
Proof.
  revert ys; induction xs as [|x xs IH]; intros [|y ys] Hl Hx Hy Heq; try done.
  apply Forall_cons in Hx as [? ?], Hy as [? ?]. injection Hl as Hl. rewrite !fmap_cons in Heq. cbn [concat] in Heq.
  unfold field at 1 3 in Heq. rewrite <- !app_assoc in Heq.
  apply to_be_8_inj in Heq as [Hlen Heq]; [|done..].
  apply app_inj_1 in Heq as [-> Heq]; [|unfold len in Hlen; lia].
  destruct (IH ys) as [-> ->]; done.
Qed.

Lemma numbers_inj xs ys r r' :
  length xs = length ys → Forall (λ v, v < u64_bound)%N xs → Forall (λ v, v < u64_bound)%N ys →
  concat (to_be 8 <$> xs) ++ r = concat (to_be 8 <$> ys) ++ r' → xs = ys ∧ r = r'.
Proof.
  revert ys; induction xs as [|x xs IH]; intros [|y ys] Hl Hx Hy Heq; try done.
  apply Forall_cons in Hx as [? ?], Hy as [? ?]. injection Hl as Hl. rewrite !fmap_cons in Heq. cbn [concat] in Heq.
  rewrite <- !app_assoc in Heq. apply to_be_8_inj in Heq as [-> Heq]; [|done..].
  destruct (IH ys) as [-> ->]; done.
Qed.

(** What a [u64] and a [String] can hold. *)
Definition machine_sized (start : ValidatorStart.t) (evidence : ValidatorEvidence.t) : Prop :=
  Forall (λ v, len v < u64_bound)%N (evidence_texts start evidence) ∧
  Forall (λ v, v < u64_bound)%N (evidence_numbers start evidence).
#[export] Instance machine_sized_dec start evidence : Decision (machine_sized start evidence).
Proof. unfold machine_sized. apply _. Defined.

#[export] Instance u8_of_bool_inj : Inj (=) (=) u8_of_bool.
Proof. by intros [] []. Qed.

Lemma evidence_preimage_inj s e s' e' :
  machine_sized s e → machine_sized s' e' → evidence_preimage s e = evidence_preimage s' e' →
  evidence_texts s e = evidence_texts s' e' ∧ evidence_numbers s e = evidence_numbers s' e' ∧
  evidence_flags e = evidence_flags e'.
Proof.
  intros [Ht Hn] [Ht' Hn'] Heq. unfold evidence_preimage in Heq. apply (inj (app EVIDENCE_DOMAIN)) in Heq.
  apply fields_inj in Heq as [-> Heq]; [|done..]. apply numbers_inj in Heq as [-> Heq]; [|done..].
  split_and!; [done..|]. by apply (inj (fmap u8_of_bool)) in Heq.
Qed.

(** The evidence digest commits to the request and the evidence.  It is the
    SHA-256 of an encoding in which every text stands behind its length; if two
    digests are equal then all covered texts, numbers and flags are, or the two
    encodings are a SHA-256 collision. *)
Theorem evidence_digest_binds `{!Sha2} `{!Sha2Laws} s e s' e' :
  machine_sized s e → machine_sized s' e' →
  validator_evidence_sha256 s e = validator_evidence_sha256 s' e' →
  (evidence_texts s e = evidence_texts s' e' ∧ evidence_numbers s e = evidence_numbers s' e' ∧
   evidence_flags e = evidence_flags e') ∨
  (evidence_preimage s e ≠ evidence_preimage s' e' ∧
   sha256_digest (evidence_preimage s e) = sha256_digest (evidence_preimage s' e')).
Proof.
  intros Hm Hm' Heq. rewrite !evidence_digest in Heq. apply (inj hex_lower) in Heq.
  destruct (decide (evidence_preimage s e = evidence_preimage s' e')) as [Hp|]; [left|by right].
  by apply evidence_preimage_inj.
Qed.

(** ** What the validators accept *)

(** Five groups of lower-case hexadecimal digits. *)
Definition uuid_ok (v : bytes) : Prop :=
  ∃ a b c d e, v = join x2d [a; b; c; d; e] ∧
    length <$> [a; b; c; d; e] = [8; 4; 4; 4; 12] ∧ Forall (Forall is_lower_hex) [a; b; c; d; e].

Ltac explode l n :=
  lazymatch n with
  | O => destruct l; [|done]
  | S ?n => destruct l as [|? l]; [done|]; explode l n
  end.

Lemma uuid_bytes_iff v :
  len v = 36%N ∧ ¬ Exists (λ ib, bad_uuid_byte ib.1 ib.2) (imap pair v) ↔ uuid_ok v.
Proof.
  split.
  - intros [Hl Hb]. apply Forall_Exists_neg in Hb. assert (length v = 36) as Hlen by (unfold len in Hl; lia).
    clear Hl. explode v 36. simpl in Hb. clear Hlen.
    repeat match goal with H : Forall _ (_ :: _) |- _ => apply Forall_cons in H as [? H] end.
    simpl in *. repeat match goal with H : ¬ (_ ≠ x2d) |- _ => apply dec_stable in H; subst
                                     | H : ¬ ¬ is_lower_hex _ |- _ => apply dec_stable in H end.
    match goal with |- uuid_ok (?a0 :: ?a1 :: ?a2 :: ?a3 :: ?a4 :: ?a5 :: ?a6 :: ?a7 :: _ ::
        ?b0 :: ?b1 :: ?b2 :: ?b3 :: _ :: ?c0 :: ?c1 :: ?c2 :: ?c3 :: _ ::
        ?d0 :: ?d1 :: ?d2 :: ?d3 :: _ :: ?e) =>
      exists [a0; a1; a2; a3; a4; a5; a6; a7], [b0; b1; b2; b3], [c0; c1; c2; c3], [d0; d1; d2; d3], e end.
    split_and!; [done|done|]. by rewrite !Forall_cons.
  - intros (a & b & c & d & e & -> & [= Ha Hb Hc Hd He] & Hh).
    rewrite !Forall_cons in Hh. destruct Hh as (? & ? & ? & ? & ? & _).
    explode a 8. explode b 4. explode c 4. explode d 4. explode e 12. split; [done|].
    apply Forall_Exists_neg. simpl. rewrite !Forall_cons in *. simpl. destruct_and!.
    split_and!; first [intros Hn; by apply Hn | constructor].
Qed.

Lemma validate_uuid_Ok f v : validate_uuid f v = Ok () ↔ uuid_ok v.
Proof.
  unfold validate_uuid. rewrite invalid_guard_ok, <- uuid_bytes_iff. split.
  - by intros [[?%dec_stable ?]%not_or_and _].
  - intros [? ?]. tauto.
Qed.
#[export] Hint Rewrite validate_uuid_Ok : rust_ok.

(** [validate_uuid] accepts exactly the texts of five groups of 8, 4, 4, 4 and
    12 lower-case hexadecimal digits with hyphens between them. *)
Theorem validate_uuid_exact f v : validate_uuid f v = Ok () ↔ uuid_ok v.
Proof. apply validate_uuid_Ok. Qed.

Lemma validate_validator_memory_Ok f n : validate_validator_memory f n = Ok () ↔ builder_memory_ok n.
Proof.
  unfold validate_validator_memory, builder_memory_ok. rewrite invalid_guard_ok, <- is_multiple_of_divide by done.
  change (64 * 1024 * 1024)%N with (2^26)%N. change (1024 * 1024 * 1024 * 1024)%N with (2^40)%N. split.
  - by intros [[?%dec_stable ?%dec_stable]%not_or_and _].
  - intros [? ?]. tauto.
Qed.
#[export] Hint Rewrite validate_validator_memory_Ok : rust_ok.

Lemma each_sha256_Ok (l : list (string * bytes)) :
  each (λ '(f, v), validate_sha256 f v) l = Ok () ↔ Forall sha256_ok (snd <$> l).
Proof.
  rewrite each_ok, Forall_fmap. apply Forall_proper; [|done]. intros [f v]. apply validate_sha256_Ok.
Qed.
#[export] Hint Rewrite each_sha256_Ok : rust_ok.

(** The marker says the same as the request. *)
Definition marker_agrees (s : ValidatorStart.t) (m : GenerationMarker.t) : Prop :=
  GenerationMarker.profile_id m = ValidatorStart.profile_id s ∧
  GenerationMarker.profile_revision m = ValidatorStart.profile_revision s ∧
  GenerationMarker.derivation_key m = ValidatorStart.derivation_key s ∧
  GenerationMarker.root_layout m = ValidatorStart.root_layout s ∧
  GenerationMarker.filesystem_contract m = ValidatorStart.filesystem_contract s ∧
  GenerationMarker.account_db_sha256 m = AccountDb.sha256 (ValidatorStart.expected_account_db s).

Record validator_start_ok `{!Sha2} `{!Cbor AccountDatabase.t} (s : ValidatorStart.t) : Prop := {
  vs_profile : token_ok (ValidatorStart.profile_id s) MAX_ID_LENGTH;
  vs_digests : Forall sha256_ok
    [ValidatorStart.profile_revision s; ValidatorStart.challenge s; ValidatorStart.derivation_key s;
     ValidatorStart.expected_manifest_sha256 s; ValidatorStart.expected_generation_marker_sha256 s];
  vs_contracts : Forall (λ v, token_ok v MAX_ID_LENGTH)
    [ValidatorStart.root_layout s; ValidatorStart.filesystem_contract s; ValidatorStart.manifest_schema s];
  vs_limits : limits_ok (ValidatorStart.manifest_limits s);
  vs_entries : (1 ≤ ValidatorStart.expected_manifest_entry_count s
                  ≤ ManifestLimits.max_entries (ValidatorStart.manifest_limits s))%N;
  vs_bytes : (1 ≤ ValidatorStart.expected_manifest_byte_count s
                ≤ ManifestLimits.max_total_bytes (ValidatorStart.manifest_limits s))%N;
  vs_marker : validate (ValidatorStart.expected_generation_marker s) = Ok ();
  vs_agrees : marker_agrees s (ValidatorStart.expected_generation_marker s);
  vs_account : ∃ db, AccountDb.from_database db = Ok (ValidatorStart.expected_account_db s);
  vs_uuid : uuid_ok (ValidatorStart.expected_filesystem_uuid s);
  vs_filesystem : (2^26 ≤ ValidatorStart.expected_filesystem_bytes s)%N ∧
                  (4096 | ValidatorStart.expected_filesystem_bytes s)%N;
  vs_memory : builder_memory_ok (ValidatorStart.expected_physmem_bytes s);
}.

Section validators.
Context {sha : Sha2} {sha_laws : Sha2Laws} {database : Cbor AccountDatabase.t}
  {database_laws : CborLaws AccountDatabase.t}.

Lemma validator_start_validate_Ok (s : ValidatorStart.t) : validate s = Ok () ↔ validator_start_ok s.
Proof.
  unfold validate at 1, ValidatorStart.validate. cbv zeta. autorewrite with rust_ok.
  rewrite account_db_validate_Ok, !range_check, !not_or_and.
  change (64 * 1024 * 1024)%N with (2^26)%N. rewrite N.nlt_ge. split.
  - intros (? & ? & ? & ? & ? & ? & ? & ? & ? & Hag & ? & Had%dec_stable & ? & [? Hm%dec_stable] & ?).
    apply is_multiple_of_divide in Hm; [|done].
    constructor; try done; [by rewrite !Forall_cons|].
    destruct Hag as (?%dec_stable & ?%dec_stable & ?%dec_stable & ?%dec_stable & ?%dec_stable). done.
  - intros [? ? Hc ? ? ? ? (? & ? & ? & ? & ? & ?) ? ? [? Hm] ?].
    apply is_multiple_of_divide in Hm; [|done].
    apply Forall_cons in Hc as [? [? [? _]%Forall_cons]%Forall_cons]. split_and!; try done; tauto.
Qed.

Lemma validator_evidence_validate_Ok (e : ValidatorEvidence.t) :
  validate e = Ok () ↔
  Forall sha256_ok [ValidatorEvidence.manifest_sha256 e; ValidatorEvidence.generation_marker_sha256 e;
                    ValidatorEvidence.account_db_sha256 e] ∧
  uuid_ok (ValidatorEvidence.filesystem_uuid e) ∧
  ValidatorEvidence.manifest_entry_count e ≠ 0%N ∧ ValidatorEvidence.manifest_byte_count e ≠ 0%N ∧
  ValidatorEvidence.filesystem_bytes e ≠ 0%N ∧ Forall (.= true) (evidence_flags e).
Proof.
  unfold validate, ValidatorEvidence.validate, evidence_flags. autorewrite with rust_ok.
  simpl. rewrite !not_or_and, !not_false_iff_true, !Forall_cons, !Forall_nil. tauto.
Qed.

Lemma validator_done_validate_Ok (d : ValidatorDone.t) :
  validate d = Ok () ↔
  ValidatorDone.status d = 0%N ∧ sha256_ok (ValidatorDone.challenge d) ∧
  validate (ValidatorDone.evidence d) = Ok () ∧ sha256_ok (ValidatorDone.evidence_sha256 d).
Proof.
  unfold validate at 1, ValidatorDone.validate. rewrite invalid_guard_ok, !bind_unit_ok, !validate_sha256_Ok.
  split; [intros [?%dec_stable ?]|intros [? ?]; split]; tauto.
Qed.
End validators.

(** [ValidatorStart::validate] accepts exactly the coherent validation requests:
    the expected counts are within the negotiated limits, the generation marker is
    valid and says the same as the request, and the account message is the encoding
    of a canonical database whose digest is the marker's. *)
Theorem validator_start_exact `{!Sha2} `{!Sha2Laws} `{!Cbor AccountDatabase.t} `{!CborLaws AccountDatabase.t}
    (s : ValidatorStart.t) : validate s = Ok () ↔ validator_start_ok s.
Proof. apply validator_start_validate_Ok. Qed.

Lemma validator_codec `{!Sha2} `{!ValidatorMessage.Codecs} `{!ValidatorMessage.CodecsLaws} m f :
  ValidatorMessage.decode_validator_message f = Ok m ↔
  kind (header f) = ValidatorMessage.kind m ∧ ValidatorMessage.encode_payload m = Ok (payload f).
Proof.
  unfold ValidatorMessage.decode_validator_message, invalid.
  destruct (kind (header f)); rewrite ?fmap_codec_exact, ?err_ok; split;
    first [intros (m' & -> & ?); by split | destruct m; intros [? ?]; first [done | by eexists] | done].
Qed.

(** ** A concrete request *)
Module SampleValidation.
Import SampleCodecs.
#[export] Existing Instances SampleHash.sample_sha2 SampleHash.sample_sha2_laws.

Abbreviation digest := SampleStart.digest.

Definition account : AccountDb.t :=
  AccountDb.account_db ACCOUNT_DB_SCHEMA 3 (sha256_hex SampleAccountCodec.sample_bytes)
    SampleAccountCodec.sample_bytes.

Definition start : ValidatorStart.t := {|
  ValidatorStart.profile_id := bs "default";
  ValidatorStart.profile_revision := digest;
  ValidatorStart.challenge := digest;
  ValidatorStart.derivation_key := digest;
  ValidatorStart.root_layout := bs "r1";
  ValidatorStart.filesystem_contract := bs "f1";
  ValidatorStart.manifest_schema := bs "m1";
  ValidatorStart.manifest_limits := ManifestLimits.default;
  ValidatorStart.expected_manifest_sha256 := digest;
  ValidatorStart.expected_manifest_entry_count := 2;
  ValidatorStart.expected_manifest_byte_count := 14;
  ValidatorStart.expected_generation_marker :=
    GenerationMarker.from_start SampleStart.sample (AccountDb.sha256 account);
  ValidatorStart.expected_generation_marker_sha256 := digest;
  ValidatorStart.expected_account_db := account;
  ValidatorStart.expected_filesystem_uuid := bs "01234567-89ab-cdef-0123-456789abcdef";
  ValidatorStart.expected_filesystem_bytes := 67108864;
  ValidatorStart.expected_physmem_bytes := 67108864;
|}.

Definition evidence : ValidatorEvidence.t := {|
  ValidatorEvidence.manifest_sha256 := digest;
  ValidatorEvidence.manifest_entry_count := 2;
  ValidatorEvidence.manifest_byte_count := 14;
  ValidatorEvidence.generation_marker_sha256 := digest;
  ValidatorEvidence.account_db_sha256 := AccountDb.sha256 account;
  ValidatorEvidence.filesystem_uuid := bs "01234567-89ab-cdef-0123-456789abcdef";
  ValidatorEvidence.filesystem_bytes := 67108864;
  ValidatorEvidence.clean_before_mount := true;
  ValidatorEvidence.block_device_read_only := true;
  ValidatorEvidence.mounted_read_only := true;
  ValidatorEvidence.unmounted := true;
  ValidatorEvidence.clean_after_unmount := true;
|}.

#[export] Instance validator_hello_eq_dec : EqDecision ValidatorHello.t.
Proof. solve_decision. Defined.

Definition hello : ValidatorHello.t := {|
  ValidatorHello.guest_contract_id := digest;
  ValidatorHello.init_build_id := digest;
  ValidatorHello.kernel_build_id := digest;
  ValidatorHello.host_elf_machine := 62;
  ValidatorHello.guest_uts_machine := bs "x86_64";
  ValidatorHello.guest_page_size := 4096;
  ValidatorHello.cpu_state_hwcap_policy := bs "p1";
  ValidatorHello.online_cpus := 1;
  ValidatorHello.accepted_physmem_bytes := 67108864;
  ValidatorHello.features := [];
|}.

#[export] Instance codecs : ValidatorMessage.Codecs := {|
  ValidatorMessage.validate_hello_cbor := one_codec hello [xaa; x00];
  ValidatorMessage.validate_start_cbor := no_codec _;
  ValidatorMessage.validate_done_cbor := no_codec _;
  ValidatorMessage.validate_error_cbor := no_codec _;
  ValidatorMessage.validate_database_cbor := SampleAccountCodec.sample_codec;
|}.

#[export] Instance codecs_laws : ValidatorMessage.CodecsLaws.
Proof. split; first [apply no_codec_laws | apply one_codec_laws | apply SampleAccountCodec.sample_codec_laws]. Qed.

Lemma evidence_digest_binds_witness :
  machine_sized start evidence ∧
  ((evidence_texts start evidence = evidence_texts start evidence ∧
    evidence_numbers start evidence = evidence_numbers start evidence ∧
    evidence_flags evidence = evidence_flags evidence) ∨
   (evidence_preimage start evidence ≠ evidence_preimage start evidence ∧
    sha256_digest (evidence_preimage start evidence) = sha256_digest (evidence_preimage start evidence))).
Proof.
  assert (machine_sized start evidence) as Hm by (apply (bool_decide_unpack _); vm_compute; exact I).
  split; [exact Hm|]. by apply (evidence_digest_binds start evidence start evidence).
Defined.

Lemma validator_start_exact_witness : validator_start_ok start.
Proof. apply (validator_start_exact start). by vm_compute. Defined.

Lemma validator_codec_sample :
  ValidatorMessage.decode_validator_message
    (raw_frame (frame_header MessageKind.ValidateHello 0 2 0) [xaa; x00])
  = Ok (ValidatorMessage.Hello hello).
Proof. apply validator_codec. by vm_compute. Defined.
End SampleValidation.
