(* ===== verification/ValidatorSession.v ===== *)
(** * The validator session: crates/pocket-protocol/src/validator_state.rs

    [ValidatorSession::accept]: of all results a guest could send, the session
    completes on one. *)

From S2P Require Import Prelude ProtocolError Frame Payload Message Session Sha256.
From S2P Require Import BuilderManifest AccountDatabase BuilderMessage Validator.

Module ValidatorState.
Inductive t : Set := AwaitHello | AwaitStart | AwaitDone | Completed | Failed.
#[global] Instance eq_dec : EqDecision t.
Proof. solve_decision. Defined.

Definition as_str (self : t) : string :=
  match self with
  | AwaitHello => "await-validate-hello"
  | AwaitStart => "await-validate-start"
  | AwaitDone => "await-validate-done"
  | Completed => "completed"
  | Failed => "failed"
  end.

Definition is_terminal (self : t) : bool :=
  match self with Completed | Failed => true | _ => false end.
End ValidatorState.

Module ValidatorSession.
Section session.
Context {sha : Sha2} {codecs : ValidatorMessage.Codecs}.

Record t : Set := validator_session {
  state : ValidatorState.t;
  next_host_sequence : N;
  next_guest_sequence : N;
  accepted_physmem_bytes : option N;
  start : option ValidatorStart.t;
}.

Definition new : t := validator_session ValidatorState.AwaitHello 0 0 None None.

Definition next_sequence (self : t) (direction : Direction.t) : N :=
  match direction with
  | Direction.HostToGuest => next_host_sequence self
  | Direction.GuestToHost => next_guest_sequence self
  end.

(** The [invalid] of validator_state.rs: one reason for every field. *)
Definition invalid (field : string) : result ProtocolError () :=
  Err (InvalidMessage field "validator transcript differs from its prior evidence").

Definition accept_inner (self : t) (direction : Direction.t) (message : ValidatorMessage.t)
    : t * result ProtocolError () :=
  match state self, direction, message with
  | ValidatorState.AwaitHello, Direction.GuestToHost, ValidatorMessage.Hello hello =>
      (validator_session ValidatorState.AwaitStart (next_host_sequence self) (next_guest_sequence self)
         (Some (ValidatorHello.accepted_physmem_bytes hello)) (start self), Ok ())
  | ValidatorState.AwaitStart, Direction.HostToGuest, ValidatorMessage.Start start =>
      if decide (¬ is_some_and (λ accepted, ValidatorStart.expected_physmem_bytes start ≤ accepted)%N
                     (accepted_physmem_bytes self))
      then (self, invalid "expected_physmem_bytes") else
      (validator_session ValidatorState.AwaitDone (next_host_sequence self) (next_guest_sequence self)
         (accepted_physmem_bytes self) (Some start), Ok ())
  | ValidatorState.AwaitDone, Direction.GuestToHost, ValidatorMessage.Done done' =>
      try_with self (ok_or (start self)
        (InvalidStateTransition (ValidatorState.as_str (state self)) "guest-to-host"
           (MessageKind.as_u16 (ValidatorMessage.kind message)))) (λ start,
      let evidence := ValidatorDone.evidence done' in
      if decide (
        ValidatorDone.challenge done' ≠ ValidatorStart.challenge start ∨
        ValidatorEvidence.manifest_sha256 evidence ≠ ValidatorStart.expected_manifest_sha256 start ∨
        ValidatorEvidence.manifest_entry_count evidence ≠ ValidatorStart.expected_manifest_entry_count start ∨
        ValidatorEvidence.manifest_byte_count evidence ≠ ValidatorStart.expected_manifest_byte_count start ∨
        ValidatorEvidence.generation_marker_sha256 evidence
          ≠ ValidatorStart.expected_generation_marker_sha256 start ∨
        ValidatorEvidence.account_db_sha256 evidence
          ≠ AccountDb.sha256 (ValidatorStart.expected_account_db start) ∨
        ValidatorEvidence.filesystem_uuid evidence ≠ ValidatorStart.expected_filesystem_uuid start ∨
        ValidatorEvidence.filesystem_bytes evidence ≠ ValidatorStart.expected_filesystem_bytes start ∨
        ValidatorDone.evidence_sha256 done' ≠ validator_evidence_sha256 start evidence)
      then (self, invalid "validation_evidence") else
      (validator_session ValidatorState.Completed (next_host_sequence self) (next_guest_sequence self)
         (accepted_physmem_bytes self) (Some start), Ok ()))
  | (ValidatorState.AwaitStart | ValidatorState.AwaitDone), Direction.GuestToHost, ValidatorMessage.Error _ =>
      (validator_session ValidatorState.Failed (next_host_sequence self) (next_guest_sequence self)
         (accepted_physmem_bytes self) (start self), Ok ())
  | _, _, _ =>
      (self, Err (InvalidStateTransition (ValidatorState.as_str (state self)) (Direction.as_str direction)
                    (MessageKind.as_u16 (ValidatorMessage.kind message))))
  end.

Definition accept (self : t) (direction : Direction.t) (message : ValidatorMessage.t) (frame_sequence : N)
    : t * result ProtocolError () :=
  let expected := next_sequence self direction in
  if decide (frame_sequence ≠ expected) then (self, Err (SequenceMismatch expected frame_sequence)) else
  try_with self (ValidatorMessage.validate message) (λ _,
  let '(next, accepted) := accept_inner self direction message in
  try_with self accepted (λ _,
  try_with self (ok_or (checked_add frame_sequence 1) SequenceExhausted) (λ incremented,
  (match direction with
   | Direction.HostToGuest =>
       validator_session (state next) incremented (next_guest_sequence next)
         (accepted_physmem_bytes next) (start next)
   | Direction.GuestToHost =>
       validator_session (state next) (next_host_sequence next) incremented
         (accepted_physmem_bytes next) (start next)
   end, Ok ())))).

#[global] Instance session : Session t ValidatorMessage.t :=
  {| session_new := new; session_next_sequence := next_sequence; session_accept := accept |}.

Lemma validator_accept_Ok s d m n s' :
  accept s d m n = (s', Ok ()) ↔
  n = next_sequence s d ∧ ValidatorMessage.validate m = Ok () ∧ (n + 1 < u64_bound)%N ∧
  ∃ next, accept_inner s d m = (next, Ok ()) ∧
    s' = match d with
         | Direction.HostToGuest =>
             validator_session (state next) (n + 1) (next_guest_sequence next)
               (accepted_physmem_bytes next) (start next)
         | Direction.GuestToHost =>
             validator_session (state next) (next_host_sequence next) (n + 1)
               (accepted_physmem_bytes next) (start next)
         end.
Proof.
  unfold accept. destruct (decide _) as [|Hn%dec_stable]; [naive_solver|].
  destruct (ValidatorMessage.validate m) as [[]| |] eqn:Hv; simpl; [|naive_solver..].
  destruct (accept_inner s d m) as [next [[]| |]] eqn:Ha; simpl; [|naive_solver..].
  unfold checked_add. case_decide; simpl; naive_solver.
Qed.

Lemma validator_accept_inner_sequences s d m s' r :
  accept_inner s d m = (s', r) →
  next_host_sequence s' = next_host_sequence s ∧ next_guest_sequence s' = next_guest_sequence s.
Proof. unfold accept_inner, try_with. intros Ha. repeat (case_match; simplify_eq; try done). Qed.

#[global] Instance session_laws : SessionLaws t ValidatorMessage.t.
Proof.
  split; simpl.
  - by intros [].
  - intros s d m n s' r Ha Hr. unfold accept, try_with in Ha. destruct (decide _); [by simplify_eq|].
    destruct (ValidatorMessage.validate m) as [[]| |]; [|by simplify_eq..].
    destruct (accept_inner s d m) as [next [[]| |]]; [|by simplify_eq..].
    destruct (ok_or _ _); by simplify_eq.
  - intros s d m n Hn. unfold accept. by rewrite decide_True.
  - intros s d m n s' (-> & _ & Hb & next & Ha & ->)%validator_accept_Ok.
    apply validator_accept_inner_sequences in Ha as [Hh Hg].
    split; [done|]. split; [by destruct d|]. by destruct d; intros [] ?.
Qed.
(** The one result the request asks for. *)
Definition expected_evidence (start : ValidatorStart.t) : ValidatorEvidence.t := {|
  ValidatorEvidence.manifest_sha256 := ValidatorStart.expected_manifest_sha256 start;
  ValidatorEvidence.manifest_entry_count := ValidatorStart.expected_manifest_entry_count start;
  ValidatorEvidence.manifest_byte_count := ValidatorStart.expected_manifest_byte_count start;
  ValidatorEvidence.generation_marker_sha256 := ValidatorStart.expected_generation_marker_sha256 start;
  ValidatorEvidence.account_db_sha256 := AccountDb.sha256 (ValidatorStart.expected_account_db start);
  ValidatorEvidence.filesystem_uuid := ValidatorStart.expected_filesystem_uuid start;
  ValidatorEvidence.filesystem_bytes := ValidatorStart.expected_filesystem_bytes start;
  ValidatorEvidence.clean_before_mount := true;
  ValidatorEvidence.block_device_read_only := true;
  ValidatorEvidence.mounted_read_only := true;
  ValidatorEvidence.unmounted := true;
  ValidatorEvidence.clean_after_unmount := true;
|}.

Definition expected_done (start : ValidatorStart.t) : ValidatorDone.t :=
  ValidatorDone.from_evidence start (expected_evidence start).

Abbreviation event := (Direction.t * ValidatorMessage.t)%type.

Definition opening (hello : ValidatorHello.t) (start : ValidatorStart.t) : list event :=
  [(Direction.GuestToHost, ValidatorMessage.Hello hello); (Direction.HostToGuest, ValidatorMessage.Start start)].

(** The hello and the request are valid and the guest has the memory asked for. *)
Definition opened (hello : ValidatorHello.t) (start : ValidatorStart.t) : Prop :=
  validate hello = Ok () ∧ validate start = Ok () ∧
  (ValidatorStart.expected_physmem_bytes start ≤ ValidatorHello.accepted_physmem_bytes hello)%N.

(** What the session has accepted when it is in a state. *)
Definition history (s : t) (h : list event) : Prop :=
  match state s with
  | ValidatorState.AwaitHello => h = []
  | ValidatorState.AwaitStart =>
      ∃ hello, h = [(Direction.GuestToHost, ValidatorMessage.Hello hello)] ∧ validate hello = Ok () ∧
        accepted_physmem_bytes s = Some (ValidatorHello.accepted_physmem_bytes hello)
  | ValidatorState.AwaitDone =>
      ∃ hello st, h = opening hello st ∧ opened hello st ∧ start s = Some st
  | ValidatorState.Completed =>
      ∃ hello st, opened hello st ∧
        h = opening hello st ++ [(Direction.GuestToHost, ValidatorMessage.Done (expected_done st))]
  | ValidatorState.Failed => True
  end.

Lemma done_compares d st :
  validate d = Ok () →
  (¬ (ValidatorDone.challenge d ≠ ValidatorStart.challenge st ∨
      ValidatorEvidence.manifest_sha256 (ValidatorDone.evidence d) ≠ ValidatorStart.expected_manifest_sha256 st ∨
      ValidatorEvidence.manifest_entry_count (ValidatorDone.evidence d)
        ≠ ValidatorStart.expected_manifest_entry_count st ∨
      ValidatorEvidence.manifest_byte_count (ValidatorDone.evidence d)
        ≠ ValidatorStart.expected_manifest_byte_count st ∨
      ValidatorEvidence.generation_marker_sha256 (ValidatorDone.evidence d)
        ≠ ValidatorStart.expected_generation_marker_sha256 st ∨
      ValidatorEvidence.account_db_sha256 (ValidatorDone.evidence d)
        ≠ AccountDb.sha256 (ValidatorStart.expected_account_db st) ∨
      ValidatorEvidence.filesystem_uuid (ValidatorDone.evidence d) ≠ ValidatorStart.expected_filesystem_uuid st ∨
      ValidatorEvidence.filesystem_bytes (ValidatorDone.evidence d) ≠ ValidatorStart.expected_filesystem_bytes st ∨
      ValidatorDone.evidence_sha256 d ≠ validator_evidence_sha256 st (ValidatorDone.evidence d))) ↔
  d = expected_done st.
Proof.
  intros (Hs & _ & (_ & _ & _ & _ & _ & Hf)%validator_evidence_validate_Ok & _)%validator_done_validate_Ok.
  rewrite !not_or_and. split.
  - destruct d as [ds dc [] dh]; simpl in *. unfold evidence_flags in Hf. simpl in Hf.
    rewrite !Forall_cons in Hf. destruct Hf as (? & ? & ? & ? & ? & _). subst.
    intros (->%dec_stable & ->%dec_stable & ->%dec_stable & ->%dec_stable & ->%dec_stable & ->%dec_stable
      & ->%dec_stable & ->%dec_stable & ->%dec_stable). done.
  - intros ->. simpl. tauto.
Qed.

Lemma validator_inner_history s d m s' h :
  history s h → ValidatorMessage.validate m = Ok () → accept_inner s d m = (s', Ok ()) →
  history s' (h ++ [(d, m)]).
Proof.
  unfold history at 1, accept_inner. intros Hh Hv Ha.
  destruct (state s) eqn:Hst, d, m; try done; simpl in Hv; try by injection Ha as <-.
  - injection Ha as <-. subst h. simpl. by eexists.
  - destruct Hh as (hello & -> & ? & Hp). rewrite Hp in Ha. case_decide as Hle; [done|]. injection Ha as <-.
    simpl. by eexists hello, _.
  - destruct Hh as (hello & st & -> & ? & Hp). rewrite Hp in Ha. simpl in Ha.
    case_decide as Hc; [done|]. injection Ha as <-. simpl. apply done_compares in Hc; [|done]. subst.
    by exists hello, st.
Qed.

Lemma validator_accept_all_history s l s' h :
  history s h → accept_all s l = Some s' → history s' (h ++ (fst <$> l)).
Proof.
  revert s h; induction l as [|[[d m] n] l IH]; intros s h Hh Ha.
  { injection Ha as <-. by rewrite app_nil_r. }
  apply accept_all_cons in Ha as (s1 & (_ & Hm & _ & next & Hi & ->)%validator_accept_Ok & Hl).
  pose proof (validator_inner_history _ _ _ _ _ Hh Hm Hi) as Hnext.
  rewrite fmap_cons, cons_middle, app_assoc. eapply IH; [|exact Hl]. by destruct d.
Qed.

Context {laws : Sha2Laws} {codecs_laws : ValidatorMessage.CodecsLaws}.

(** The expected result is itself a valid message. *)
Lemma expected_done_valid st : validate st = Ok () → validate (expected_done st) = Ok ().
Proof.
  intros [_ Hd _ _ ? ? _ _ [db Ha] ? [? _] _]%validator_start_validate_Ok.
  apply from_database_Ok in Ha as (b & _ & _ & Ha). rewrite !Forall_cons in Hd.
  apply validator_done_validate_Ok. split_and!; [done|simpl; tauto|..].
  - apply validator_evidence_validate_Ok. unfold expected_evidence, evidence_flags. simpl.
    rewrite !Forall_cons, Ha. split_and!; try tauto; try done; try lia.
    apply sha256_hex_ok.
  - simpl. rewrite evidence_digest. apply sha256_hex_ok.
Qed.

Lemma opening_accepted hello st s' l :
  opened hello st →
  accept_all (validator_session ValidatorState.AwaitDone 1 1
                (Some (ValidatorHello.accepted_physmem_bytes hello)) (Some st)) l = Some s' →
  accept_all new ((Direction.GuestToHost, ValidatorMessage.Hello hello, 0%N) ::
                  (Direction.HostToGuest, ValidatorMessage.Start st, 0%N) :: l) = Some s'.
Proof.
  intros (Hh & Hs & Hle) Hl. apply accept_all_cons. eexists. split.
  { apply validator_accept_Ok. split_and!; [done|exact Hh|done|]. eexists. by split. }
  apply accept_all_cons. eexists. split; [|exact Hl]. apply validator_accept_Ok.
  split_and!; [done|exact Hs|done|]. unfold accept_inner. simpl. rewrite decide_False by tauto. eexists. by split.
Qed.

Lemma done_accepted hello st :
  opened hello st →
  session_accept (validator_session ValidatorState.AwaitDone 1 1
    (Some (ValidatorHello.accepted_physmem_bytes hello)) (Some st))
    Direction.GuestToHost (ValidatorMessage.Done (expected_done st)) 1 =
  (validator_session ValidatorState.Completed 1 2
     (Some (ValidatorHello.accepted_physmem_bytes hello)) (Some st), Ok ()).
Proof.
  intros (_ & Hs & _). pose proof (expected_done_valid st Hs) as Hd. apply validator_accept_Ok.
  split_and!; [done|exact Hd|done|]. unfold accept_inner, try_with. cbn [state start ok_or].
  rewrite decide_False by by apply done_compares. eexists. by split.
Qed.
End session.

(** C6: the validator session completes on one transcript per request.  The messages
    it accepts up to completion are a valid hello, a valid request that asks for no
    more memory than the hello reports, and the one result
    [ValidatorDone::from_evidence] makes of the values the request expects, all five
    mount flags set, numbered from zero in each direction; and that transcript is
    accepted for every such hello and request. *)
Theorem validation_completes_exactly {sha : Sha2} {codecs : ValidatorMessage.Codecs} {laws : Sha2Laws}
    {codecs_laws : ValidatorMessage.CodecsLaws} l :
  (∃ s, accept_all new l = Some s ∧ state s = ValidatorState.Completed) ↔
  ∃ hello start, opened hello start ∧
    l = [(Direction.GuestToHost, ValidatorMessage.Hello hello, 0%N);
         (Direction.HostToGuest, ValidatorMessage.Start start, 0%N);
         (Direction.GuestToHost, ValidatorMessage.Done (expected_done start), 1%N)].
Proof.
  split.
  - intros (s & Ha & Hst). pose proof (validator_accept_all_history new l s [] eq_refl Ha) as Hh.
    unfold history in Hh. rewrite Hst in Hh. destruct Hh as (hello & st & Ho & Hl).
    exists hello, st. split; [done|]. rewrite (accept_all_numbered new l s Ha). simpl in Hl. by rewrite Hl.
  - intros (hello & st & Ho & ->). eexists. split; [apply opening_accepted; [done|]|].
    + apply accept_all_cons. eexists. split; [by apply done_accepted|done].
    + done.
Qed.
End ValidatorSession.

(** ** A validation that completes *)
Module SampleValidationSession.
Import SampleValidation ValidatorSession.

Lemma validation_completes_exactly_witness :
  ∃ s, accept_all new
    [(Direction.GuestToHost, ValidatorMessage.Hello hello, 0%N);
     (Direction.HostToGuest, ValidatorMessage.Start SampleValidation.start, 0%N);
     (Direction.GuestToHost, ValidatorMessage.Done (expected_done SampleValidation.start), 1%N)] = Some s ∧
    state s = ValidatorState.Completed.
Proof.
  apply validation_completes_exactly. exists hello, SampleValidation.start.
  split; [|reflexivity]. split; [by vm_compute|]. split; [by vm_compute|]. by vm_compute.
Defined.
End SampleValidationSession.
