(* ===== verification/NoPanic.v ===== *)
(** * What a peer can send never panics

    A panic in the host would be a guest's way to stop it.  For the frame decoders
    and the sessions of crates/pocket-protocol: whatever arrives, they return. *)

From S2P Require Import Prelude RustStr ByteOrder ErrorCode ManagedPath ProtocolError Frame.
From S2P Require Import Payload Message Session WorkloadSession Sha256 BuilderManifest.
From S2P Require Import AccountDatabase BuilderMessage BuilderSession Validator ValidatorSession.

Definition no_panic {E A} (r : result E A) : Prop := r ≠ Panic.

Create HintDb no_panic discriminated.

(** ** How results are put together *)
Section combinators.
Context {E : Type}.

Lemma np_ok {A} (a : A) : no_panic (@Ok E A a).
Proof. done. Qed.
Lemma np_err {A} (e : E) : no_panic (@Err E A e).
Proof. done. Qed.
Lemma np_bind {A B} (r : result E A) (f : A → result E B) :
  no_panic r → (∀ a, r = Ok a → no_panic (f a)) → no_panic (r ≫= f).
Proof. destruct r; intros Hr Hf; [by apply Hf|done|done]. Qed.
Lemma np_seq {B} (r : result E ()) (f : () → result E B) :
  no_panic r → (r = Ok () → no_panic (f ())) → no_panic (r ≫= f).
Proof. intros ? ?. apply np_bind; [done|]. by intros []. Qed.
Lemma np_fmap {A B} (f : A → B) (r : result E A) : no_panic r → no_panic (f <$> r).
Proof. by destruct r. Qed.
Lemma np_map_err {F A} (f : F → E) (r : result F A) : no_panic r → no_panic (map_err f r).
Proof. by destruct r. Qed.
Lemma np_ok_or {A} (o : option A) (e : E) : no_panic (ok_or o e).
Proof. by destruct o. Qed.
Lemma np_fold {S A} (f : S → A → result E S) s l :
  (∀ s a, no_panic (f s a)) → no_panic (fold_result f s l).
Proof.
  intros Hf. revert s; induction l as [|a l IH]; intros s; [done|]. apply np_bind; [done|]. intros. apply IH.
Qed.
Lemma np_each {A} (f : A → result E ()) l : (∀ a, no_panic (f a)) → no_panic (each f l).
Proof. intros Hf. induction l as [|a l IH]; [done|]. by apply np_bind. Qed.
Lemma np_map_result {A B} (f : A → result E B) l : (∀ a, no_panic (f a)) → no_panic (map_result f l).
Proof.
  intros Hf. induction l as [|a l IH]; [done|]. apply np_bind; [done|]. intros. by apply np_bind.
Qed.
Lemma np_each_sorted {A} (check : A → result E ()) key (e : E) l :
  (∀ a, no_panic (check a)) → no_panic (each_sorted check key e l).
Proof.
  intros Hc. apply np_bind; [|done]. apply np_fold. intros s a. apply np_bind; [done|].
  intros. by case_decide.
Qed.
Lemma np_each_unique {A K} `{Countable K} (check : A → result E ()) (key : A → K) (e : E) l :
  (∀ a, no_panic (check a)) → no_panic (each_unique check key e l).
Proof.
  intros Hc. apply np_bind; [|done]. apply np_fold. intros s a. apply np_bind; [done|].
  intros. by case_decide.
Qed.
(** An index that a length check before it covers. *)
Lemma np_index {A} (l : list A) i : (i < len l)%N → no_panic (@index E A l i).
Proof.
  unfold index, len. intros Hi. destruct (l !! N.to_nat i) eqn:Hl; [done|].
  apply lookup_ge_None in Hl. lia.
Qed.
End combinators.
#[export] Hint Resolve np_ok np_err np_ok_or : no_panic.

(** One step through a body: a guard, a [match], a [?], a loop, or a part that is
    known. *)
Ltac np_step :=
  lazymatch goal with
  | |- no_panic (if ?b then _ else _) => destruct b
  | |- no_panic (_ ≫= _) => first [apply np_seq | apply np_bind]; [|intros]
  | |- no_panic (_ <$> _) => apply np_fmap
  | |- no_panic (map_err _ _) => apply np_map_err
  | |- no_panic (fold_result _ _ _) => apply np_fold; intros
  | |- no_panic (each _ _) => apply np_each; intros
  | |- no_panic (map_result _ _) => apply np_map_result; intros
  | |- no_panic (each_sorted _ _ _ _) => apply np_each_sorted; intros
  | |- no_panic (each_unique _ _ _ _) => apply np_each_unique; intros
  | |- no_panic (match ?x with _ => _ end) => destruct x
  end.
Ltac np := cbv beta zeta; repeat first [solve [auto with no_panic] | np_step; cbv beta zeta].

(** ** The validators *)
Lemma np_invalid {A} f r : no_panic (@invalid A f r).
Proof. done. Qed.
Lemma np_count f a m : no_panic (validate_count f a m).
Proof. unfold validate_count. np. Qed.
#[export] Hint Resolve np_invalid np_count : no_panic.
Lemma np_text f v m e : no_panic (validate_text f v m e).
Proof. unfold validate_text. np. Qed.
#[export] Hint Resolve np_text : no_panic.
Lemma np_token f v m : no_panic (validate_token f v m).
Proof. unfold validate_token. np. Qed.
Lemma np_sha256 f v : no_panic (validate_sha256 f v).
Proof. unfold validate_sha256. np. Qed.
Lemma np_environment e : no_panic (validate_environment e).
Proof. unfold validate_environment. np. Qed.
Lemma np_guest_path f v r : no_panic (validate_guest_path f v r).
Proof. unfold validate_guest_path. np. Qed.
Lemma np_signal f s : no_panic (validate_signal f s).
Proof. unfold validate_signal. np. Qed.
#[export] Hint Resolve np_token np_sha256 np_environment np_guest_path np_signal : no_panic.

(** A message type whose [validate] returns on every value. *)
Class Returns (T : Type) `{!ValidateMessage T} := validate_returns (m : T) : no_panic (validate m).
#[export] Hint Extern 1 (no_panic (validate _)) => apply validate_returns : no_panic.

Tactic Notation "returns" reference(v) := intros m; unfold validate, v; np.

Lemma np_platform p f : no_panic (Platform.validate p f).
Proof. unfold Platform.validate. np. Qed.
#[export] Hint Resolve np_platform : no_panic.

#[export] Instance hello_returns : Returns Hello.t.
Proof. returns Hello.validate. Qed.

Lemma np_limit l : no_panic (Start.check_limit l).
Proof. unfold Start.check_limit. np. Qed.
Lemma np_volume v : no_panic (Start.check_volume v).
Proof. unfold Start.check_volume. np. Qed.
Lemma np_agreement s : no_panic (Start.validate_platform_agreement s).
Proof. unfold Start.validate_platform_agreement. np. Qed.
Lemma np_arguments l : no_panic (Start.argument_total l).
Proof. unfold Start.argument_total. np. Qed.
Lemma np_environment_total l : no_panic (Start.environment_total l).
Proof. unfold Start.environment_total. np. Qed.
Lemma np_terminal s : no_panic (Start.check_terminal_size s).
Proof. unfold Start.check_terminal_size. np. Qed.
Lemma np_streaming s : no_panic (Start.check_streaming s).
Proof. unfold Start.check_streaming. np. Qed.
#[export] Hint Resolve np_limit np_volume np_agreement np_arguments np_environment_total np_terminal
  np_streaming : no_panic.

#[export] Instance start_returns : Returns Start.t.
Proof. returns Start.validate. Qed.
#[export] Instance ready_returns : Returns Ready.t.
Proof. returns Ready.validate. Qed.
#[export] Instance exit_returns : Returns Exit.t.
Proof. returns Exit.validate. Qed.
Lemma np_code e : no_panic (ErrorMessage.code e).
Proof. unfold ErrorMessage.code, ErrorCode.from_u16. np. Qed.
#[export] Hint Resolve np_code : no_panic.
#[export] Instance error_returns : Returns ErrorMessage.t.
Proof. returns ErrorMessage.validate. Qed.
#[export] Instance signal_returns : Returns Signal.t.
Proof. returns Signal.validate. Qed.
#[export] Instance resize_returns : Returns Resize.t.
Proof. returns Resize.validate. Qed.
#[export] Instance shutdown_returns : Returns Shutdown.t.
Proof. returns Shutdown.validate. Qed.

(** *** The builder's messages *)
Lemma np_limits l : no_panic (ManifestLimits.validate l).
Proof. unfold ManifestLimits.validate. np. Qed.
Lemma np_xattr s x : no_panic (ManifestEntry.check_xattr s x).
Proof. unfold ManifestEntry.check_xattr. np. Qed.
#[export] Hint Resolve np_limits np_xattr : no_panic.
#[export] Instance entry_returns : Returns ManifestEntry.t.
Proof. returns ManifestEntry.validate. Qed.
#[export] Instance begin_returns : Returns ManifestBegin.t.
Proof. returns ManifestBegin.validate. Qed.
#[export] Instance chunk_returns : Returns ManifestChunk.t.
Proof.
  returns ManifestChunk.validate. apply count_entries_Ok; [done|].
  rename select (validate_count _ _ _ = _) into Hc. apply validate_count_Ok in Hc. unfold MAX_MANIFEST_CHUNK_BYTES, u64_bound in *. lia.
Qed.
#[export] Instance end_returns : Returns ManifestEnd.t.
Proof. returns ManifestEnd.validate. Qed.

Lemma np_account_name f v : no_panic (validate_account_name f v).
Proof. unfold validate_account_name. np. Qed.
Lemma np_account_id v f : no_panic (parse_account_id v f).
Proof. unfold parse_account_id. np. Qed.
#[export] Hint Resolve np_account_name np_account_id : no_panic.
Lemma np_group s g : no_panic (AccountDatabase.check_group s g).
Proof. unfold AccountDatabase.check_group. np. Qed.
#[export] Hint Resolve np_group : no_panic.
#[export] Instance database_returns : Returns AccountDatabase.t.
Proof. returns AccountDatabase.validate. Qed.

Lemma np_parse_user line : no_panic (parse_user line).
Proof.
  unfold parse_user. cbv zeta. destruct (decide _) as [|Hl%dec_stable]; [done|].
  np; apply np_index; by rewrite Hl.
Qed.
Lemma np_parse_group line : no_panic (parse_group line).
Proof.
  unfold parse_group. cbv zeta. destruct (decide _) as [|Hl%dec_stable]; [done|].
  np; apply np_index; by rewrite Hl.
Qed.
Lemma np_account_lines b : no_panic (account_lines b).
Proof. unfold account_lines. np. Qed.
#[export] Hint Resolve np_parse_user np_parse_group np_account_lines : no_panic.
Lemma np_from_files passwd group : no_panic (account_database_from_files passwd group).
Proof. unfold account_database_from_files. np. Qed.

(** ** The codec *)
Section codec.
Context {T : Type} {cbor : Cbor T} {laws : CborLaws T} {v : ValidateMessage T} {r : Returns T}.

Lemma np_encode (m : T) : no_panic (encode_payload m).
Proof. unfold encode_payload. np. apply cbor_to_vec_no_panic. Qed.
Lemma np_decode p : no_panic (decode_payload (T:=T) p).
Proof. unfold decode_payload. np; [apply cbor_decode_no_panic|apply cbor_to_vec_no_panic]. Qed.
End codec.
#[export] Hint Extern 1 (no_panic (encode_payload _)) => apply np_encode : no_panic.
#[export] Hint Extern 1 (no_panic (decode_payload _)) => apply np_decode : no_panic.

#[export] Instance account_db_returns `{!Sha2} `{!Cbor AccountDatabase.t} `{!CborLaws AccountDatabase.t} :
  Returns AccountDb.t.
Proof. returns AccountDb.validate. Qed.

Lemma np_oci_digest f v : no_panic (validate_oci_digest f v).
Proof. unfold validate_oci_digest. np. Qed.
Lemma np_media_type f v : no_panic (validate_media_type f v).
Proof. unfold validate_media_type. np. Qed.
Lemma np_builder_memory f n : no_panic (validate_builder_memory f n).
Proof. unfold validate_builder_memory. np. Qed.
Lemma np_platforms d c e : no_panic (validate_platforms d c e).
Proof. unfold validate_platforms. np. Qed.
#[export] Hint Resolve np_oci_digest np_media_type np_builder_memory np_platforms : no_panic.
Lemma np_tool t : no_panic (ToolIdentity.validate t).
Proof. unfold ToolIdentity.validate. np. Qed.
#[export] Hint Resolve np_tool : no_panic.
Lemma np_tools l f : no_panic (validate_tools l f).
Proof. unfold validate_tools. np. Qed.
Lemma np_descriptor d f m : no_panic (OciDescriptor.validate d f m).
Proof. unfold OciDescriptor.validate. np. Qed.
#[export] Hint Resolve np_tools np_descriptor : no_panic.
Lemma np_layer l : no_panic (BuilderLayerDescriptor.validate l).
Proof. unfold BuilderLayerDescriptor.validate. np. Qed.
#[export] Hint Resolve np_layer : no_panic.
Lemma np_layer_total l : no_panic (BuilderStart.layer_total l).
Proof. unfold BuilderStart.layer_total. np. Qed.
Lemma np_resolution u : no_panic (UserResolution.validate u).
Proof. unfold UserResolution.validate. np. Qed.
#[export] Hint Resolve np_layer_total np_resolution : no_panic.

#[export] Instance builder_hello_returns : Returns BuilderHello.t.
Proof. returns BuilderHello.validate. Qed.
#[export] Instance builder_start_returns : Returns BuilderStart.t.
Proof. returns BuilderStart.validate. Qed.
#[export] Instance marker_returns : Returns GenerationMarker.t.
Proof. returns GenerationMarker.validate. Qed.
#[export] Instance builder_done_returns : Returns BuilderDone.t.
Proof. returns BuilderDone.validate. Qed.

(** *** The validator's messages *)
Lemma np_validator_memory f n : no_panic (validate_validator_memory f n).
Proof. unfold validate_validator_memory. np. Qed.
Lemma np_uuid f v : no_panic (validate_uuid f v).
Proof. unfold validate_uuid. np. Qed.
#[export] Hint Resolve np_validator_memory np_uuid : no_panic.
#[export] Instance validator_hello_returns : Returns ValidatorHello.t.
Proof. returns ValidatorHello.validate. Qed.
#[export] Instance validator_start_returns `{!Sha2} `{!Cbor AccountDatabase.t} `{!CborLaws AccountDatabase.t} :
  Returns ValidatorStart.t.
Proof. returns ValidatorStart.validate. Qed.
#[export] Instance validator_evidence_returns : Returns ValidatorEvidence.t.
Proof. returns ValidatorEvidence.validate. Qed.
#[export] Instance validator_done_returns : Returns ValidatorDone.t.
Proof. returns ValidatorDone.validate. Qed.

(** No frame makes a decoder panic.  On every frame, whatever its kind and
    payload, the workload, builder and validator decoders return a message or an
    error; so does reading the guest's account files. *)
Theorem decoders_return {sha : Sha2} {w : WorkloadMessage.Codecs} {b : BuilderMessage.Codecs}
    {v : ValidatorMessage.Codecs} {wl : WorkloadMessage.CodecsLaws} {bl : BuilderMessage.CodecsLaws}
    {vl : ValidatorMessage.CodecsLaws} f passwd group :
  no_panic (WorkloadMessage.decode_workload_message f) ∧
  no_panic (BuilderMessage.decode_builder_message f) ∧
  no_panic (ValidatorMessage.decode_validator_message f) ∧
  no_panic (account_database_from_files passwd group).
Proof.
  split_and!; [..|apply np_from_files].
  - unfold WorkloadMessage.decode_workload_message. np.
  - unfold BuilderMessage.decode_builder_message. np.
  - unfold ValidatorMessage.decode_validator_message. np.
Qed.

(** C37: every message has one encoding.  In each of the three protocols a frame decodes
    to a message if and only if the kind of the frame is the message's and its payload
    is the message's encoding; so no two byte strings decode to the same message, and
    what one side encodes the other decodes to the same value. *)
Theorem message_codecs_exact {sha : Sha2} {w : WorkloadMessage.Codecs} {b : BuilderMessage.Codecs}
    {v : ValidatorMessage.Codecs} {wl : WorkloadMessage.CodecsLaws} {bl : BuilderMessage.CodecsLaws}
    {vl : ValidatorMessage.CodecsLaws} f :
  (∀ m, WorkloadMessage.decode_workload_message f = Ok m ↔
     kind (header f) = WorkloadMessage.kind m ∧ WorkloadMessage.encode_payload m = Ok (payload f)) ∧
  (∀ m, BuilderMessage.decode_builder_message f = Ok m ↔
     kind (header f) = BuilderMessage.kind m ∧ BuilderMessage.encode_payload m = Ok (payload f)) ∧
  (∀ m, ValidatorMessage.decode_validator_message f = Ok m ↔
     kind (header f) = ValidatorMessage.kind m ∧ ValidatorMessage.encode_payload m = Ok (payload f)).
Proof. split_and!; intros m; [apply workload_codec|apply builder_codec|apply validator_codec]. Qed.

(** ** The sessions *)
Lemma np_try {S A B} (s : S) (r : result ProtocolError A) (k : A → S * result ProtocolError B) :
  no_panic r → (∀ a, r = Ok a → no_panic (k a).2) → no_panic (try_with s r k).2.
Proof. destruct r; intros Hr Hk; [by apply Hk|done|done]. Qed.

Section builder.
Context {sha : Sha2} {codecs : BuilderMessage.Codecs} {laws : BuilderMessage.CodecsLaws}.
Import BuilderSession.

Definition limits_valid (s : t) : Prop := ∀ limits, manifest_limits s = Some limits → limits_ok limits.

Lemma np_builder_validate m : no_panic (BuilderMessage.validate m).
Proof. unfold BuilderMessage.validate. np. Qed.

Lemma np_check_entry limits e : no_panic (check_entry limits e).
Proof. unfold check_entry. np. Qed.
#[local] Hint Resolve np_check_entry : no_panic.

Lemma np_accept_entry limits e : no_panic (accept_entry limits e).
Proof. unfold accept_entry. np. Qed.
#[local] Hint Resolve np_accept_entry : no_panic.

(** The second walk over a chunk indexes without checks: the first one made sure. *)
Lemma np_canonical_entries b limits n :
  limits_ok limits → (len b < u64_bound)%N →
  count_length_prefixed_entries b (ManifestLimits.max_entry_bytes limits) = Ok n →
  no_panic (validate_canonical_entries b limits).
Proof.
  intros Hl Hb Hc. apply limits_bounds in Hl as (Hm & _).
  apply count_entries_Ok in Hc as (es & -> & Hes & _); [|done..].
  rewrite (canonical_entries_framed limits _ es Hm Hes Hb). np.
Qed.

Lemma np_check_chunk s chunk : limits_valid s → no_panic (check_chunk s chunk).
Proof.
  intros Hlim. unfold check_chunk. destruct (decide _); [done|]. destruct (decide _); [done|].
  destruct (decide _); [done|]. apply np_bind; [apply np_ok_or|]. intros limits Hl.
  destruct (manifest_limits s) as [limits'|] eqn:Hs; [|done]. injection Hl as ->.
  specialize (Hlim _ Hs). destruct (decide _) as [|Hb]; [done|].
  pose proof (limits_bounds _ Hlim) as (Hm & Hc & _).
  assert (len (ManifestChunk.bytes chunk) < u64_bound)%N as Hlen by lia.
  apply np_bind; [by apply count_entries_Ok|]. intros entry_count Hn. destruct (decide _); [done|].
  apply np_seq; [by eapply np_canonical_entries|intros _; np].
Qed.

Lemma np_builder_inner s d m : limits_valid s → no_panic (accept_inner s d m).2.
Proof.
  intros Hl. unfold accept_inner. destruct (state s), d, m; try done; simpl.
  all: try by repeat case_decide.
  - apply np_try; [apply np_ok_or|]. intros tools _. by repeat case_decide.
  - unfold accept_chunk. apply np_try; [by apply np_check_chunk|]. intros [] _.
    apply np_try; [apply np_ok_or|done].
Qed.

Lemma np_builder_accept s d m n : limits_valid s → no_panic (accept s d m n).2.
Proof.
  intros Hl. unfold accept. destruct (decide _); [done|]. apply np_try; [apply np_builder_validate|].
  intros _ _. pose proof (np_builder_inner s d m Hl) as Hi. destruct (accept_inner s d m) as [next r].
  apply np_try; [done|]. intros _ _. apply np_try; [apply np_ok_or|done].
Qed.

Lemma accept_limits_valid s d m n s' :
  limits_valid s → session_accept s d m n = (s', Ok ()) → limits_valid s'.
Proof.
  intros Hl (_ & Hv & _ & next & Ha & ->)%builder_accept_Ok.
  assert (limits_valid next); [|by destruct d].
  unfold accept_inner in Ha. destruct (state s), d, m; try done; try by injection Ha as <-.
  - unfold try_with in Ha. destruct (ok_or _ _); [|done..]. repeat (case_decide; [done|]). injection Ha as <-.
    intros limits [= <-]. by apply builder_start_validate_Ok in Hv as [].
  - case_decide; [done|]. by injection Ha as <-.
  - unfold accept_chunk, try_with in Ha. destruct (check_chunk _ _) as [[]| |]; [|done..].
    destruct (ok_or _ _); [|done..]. by injection Ha as <-.
  - repeat (case_decide; [done|]). by injection Ha as <-.
  - repeat (case_decide; [done|]). by injection Ha as <-.
Qed.
End builder.

Section validator.
Context {sha : Sha2} {codecs : ValidatorMessage.Codecs} {laws : ValidatorMessage.CodecsLaws}.
Import ValidatorSession.

Lemma np_validator_accept s d m n : no_panic (accept s d m n).2.
Proof.
  unfold accept. destruct (decide _); [done|]. apply np_try; [unfold ValidatorMessage.validate; np|]. intros _ _.
  assert (no_panic (accept_inner s d m).2) as Hi.
  { unfold accept_inner. destruct (state s), d, m; try done; [by case_decide|].
    apply np_try; [apply np_ok_or|]. intros. cbv zeta. by case_decide. }
  destruct (accept_inner s d m) as [next r].
  apply np_try; [done|]. intros _ _. apply np_try; [apply np_ok_or|done].
Qed.
End validator.

Lemma np_workload_accept s d k n : no_panic (WorkloadSession.accept s d k n).2.
Proof.
  unfold WorkloadSession.accept. destruct (decide _); [done|].
  assert (no_panic (WorkloadSession.transition (WorkloadSession.state s) d k)) as Ht
    by by destruct (WorkloadSession.state s), d, k.
  destruct (WorkloadSession.transition _ _ _); [|done..]. by destruct (checked_add n 1).
Qed.

(** C29: no sequence of messages makes a session panic.  Whatever was handed to a
    workload, builder or validator session before, accepted or refused, and
    whatever is handed to it next, [accept] returns.  For the builder this is where
    the unchecked indexing of [validate_canonical_entries] is covered by the count
    before it and by the limits the request was validated with. *)
Theorem sessions_return {sha : Sha2} {b : BuilderMessage.Codecs} {v : ValidatorMessage.Codecs}
    {bl : BuilderMessage.CodecsLaws} {vl : ValidatorMessage.CodecsLaws} :
  (∀ sent d k n, no_panic (session_accept (drive (S:=WorkloadSession.t) session_new sent).1 d k n).2) ∧
  (∀ sent d m n, no_panic (session_accept (drive (S:=BuilderSession.t) session_new sent).1 d m n).2) ∧
  (∀ sent d m n, no_panic (session_accept (drive (S:=ValidatorSession.t) session_new sent).1 d m n).2).
Proof.
  split_and!; intros sent d m n; [apply np_workload_accept| |apply np_validator_accept].
  apply np_builder_accept. apply drive_invariant; [done|]. intros. by eapply accept_limits_valid.
Qed.

(** The accepted messages are numbered 0, 1, 2, ... in each direction. *)
Definition in_sequence {M} (accepted : list (Direction.t * M * N)) : Prop :=
  ∀ d, sequences d accepted = count_from 0 (length (sequences d accepted)).

(** C30: replayed, reordered and dropped frames are never accepted.  Of whatever is
    handed to a session, the messages it accepts carry in each direction exactly the
    sequence numbers 0, 1, 2, ..., and a refused message leaves no trace: the session
    is the one the accepted messages alone lead to. *)
Theorem sessions_in_sequence {sha : Sha2} {b : BuilderMessage.Codecs} {v : ValidatorMessage.Codecs} :
  (∀ sent s accepted, drive (S:=WorkloadSession.t) session_new sent = (s, accepted) →
     accept_all session_new accepted = Some s ∧
     in_sequence accepted) ∧
  (∀ sent s accepted, drive (S:=BuilderSession.t) session_new sent = (s, accepted) →
     accept_all session_new accepted = Some s ∧
     in_sequence accepted) ∧
  (∀ sent s accepted, drive (S:=ValidatorSession.t) session_new sent = (s, accepted) →
     accept_all session_new accepted = Some s ∧
     in_sequence accepted).
Proof. split_and!; apply drive_in_sequence. Qed.

(** ** The codecs of the three protocols at once *)
Module SampleGuests.
#[local] Existing Instances SampleBuild.codecs SampleBuild.codecs_laws SampleValidation.codecs
  SampleValidation.codecs_laws SampleHash.sample_sha2 SampleCodec.codecs SampleCodec.codecs_laws.

Lemma decoders_return_witness :
  WorkloadMessage.decode_workload_message (raw_frame (frame_header MessageKind.Exit 0 0 0) []) ≠ Panic ∧
  account_database_from_files (bs "root:x:0:0::/root:/bin/sh") (bs "wheel:x:10") ≠ Panic.
Proof.
  pose proof (decoders_return (raw_frame (frame_header MessageKind.Exit 0 0 0) [])
           (bs "root:x:0:0::/root:/bin/sh") (bs "wheel:x:10")) as (Hw & _ & _ & Hg). by split.
Defined.

Lemma message_codecs_exact_witness :
  WorkloadMessage.decode_workload_message (raw_frame (frame_header MessageKind.Signal 0 3 0) [xa1; x00; x0f]) =
  Ok (WorkloadMessage.Signal (Signal.signal_message 15)).
Proof.
  apply (proj1 (message_codecs_exact (raw_frame (frame_header MessageKind.Signal 0 3 0) [xa1; x00; x0f]))). by vm_compute.
Defined.

Lemma sessions_return_witness :
  (session_accept (drive (S:=BuilderSession.t) session_new
     (number 0 0 (BuilderSession.opening SampleBuild.hello SampleStart.sample))).1
     Direction.GuestToHost (BuilderMessage.ManifestChunk (SampleBuild.chunk 7)) 1).2 ≠ Panic.
Proof. apply sessions_return. Defined.

Lemma sessions_in_sequence_witness :
  sequences Direction.GuestToHost
    (drive (S:=WorkloadSession.t) session_new
       [(Direction.GuestToHost, MessageKind.Hello, 0%N); (Direction.GuestToHost, MessageKind.Hello, 0%N);
        (Direction.HostToGuest, MessageKind.Start, 0%N); (Direction.GuestToHost, MessageKind.Ready, 2%N);
        (Direction.GuestToHost, MessageKind.Ready, 1%N)]).2 = [0%N; 1%N].
Proof.
  destruct (drive (S:=WorkloadSession.t) session_new
       [(Direction.GuestToHost, MessageKind.Hello, 0%N); (Direction.GuestToHost, MessageKind.Hello, 0%N);
        (Direction.HostToGuest, MessageKind.Start, 0%N); (Direction.GuestToHost, MessageKind.Ready, 2%N);
        (Direction.GuestToHost, MessageKind.Ready, 1%N)]) as [s accepted] eqn:Hd.
  destruct (proj1 sessions_in_sequence _ s accepted Hd) as [_ Hs]. simpl. rewrite Hs.
  by injection Hd as <- <-.
Defined.
End SampleGuests.
