(* ===== verification/InitError.v ===== *)
(** * Errors of the workload guest: crates/pocket-init/src/error.rs

    The error type, its stable code and errno, and the message it becomes.  The
    texts of errors that come from a library are arguments of [to_string]. *)

From S2P Require Import Prelude Utf8 ErrorCode ProtocolError Payload Message BuilderMessage.

Module InitError.
Inductive t : Set :=
| Contract (stage : string) (diagnostic : bytes)
| Unsupported (stage : string) (diagnostic : bytes)
| Child (stage : string) (errno : option Z) (diagnostic : bytes)
| Io (stage : string) (source : io_error)
| Syscall (stage : string) (source : Z)
| Protocol (stage : string) (source : ProtocolError).

Definition stage (self : t) : string :=
  match self with
  | Contract stage _ | Unsupported stage _ | Child stage _ _ | Io stage _ | Syscall stage _
  | Protocol stage _ => stage
  end.

Definition stable_code (self : t) : ErrorCode.t :=
  match self with
  | Protocol _ source => error_code source
  | Contract _ _ | Unsupported _ _ => ErrorCode.ProtocolInvalidMessage
  | Child _ _ _ | Io _ _ | Syscall _ _ => ErrorCode.ProtocolIo
  end.

Definition errno (self : t) : option Z :=
  match self with
  | Io _ source => match raw_os_error source with
                   | Some value => if decide (0 < value)%Z then Some value else None
                   | None => None
                   end
  | Syscall _ source => Some source
  | Child _ errno _ => errno
  | Contract _ _ | Unsupported _ _ | Protocol _ _ => None
  end.

Section message.
Context (io_text : io_error → bytes) (errno_text : Z → bytes) (protocol_text : ProtocolError → bytes).

Definition to_string (self : t) : bytes :=
  bs (stage self) ++ bs ": " ++
  match self with
  | Contract _ diagnostic | Child _ _ diagnostic => diagnostic
  | Unsupported _ diagnostic => bs "unsupported operation: " ++ diagnostic
  | Io _ source => io_text source
  | Syscall _ source => errno_text source
  | Protocol _ source => protocol_text source
  end.

Definition truncate_utf8 (value : bytes) (maximum : N) : bytes :=
  if decide (len value ≤ maximum)%N then value else take (boundary_below value (N.to_nat maximum)) value.

Definition to_protocol_message (self : t) : ErrorMessage.t :=
  ErrorMessage.new (bs (stage self)) (stable_code self) (errno self)
    (truncate_utf8 (to_string self) MAX_DIAGNOSTIC_LENGTH).

Lemma truncate_utf8_diagnostic v : truncate_utf8 v MAX_DIAGNOSTIC_LENGTH = truncate_diagnostic v.
Proof. unfold truncate_utf8, truncate_diagnostic. repeat case_decide; (done || lia). Qed.

(** A guest error is reported with its own stage, code and errno, and the message
    passes the host's validation whenever the stage is a token, the errno is one of
    Linux's and the text has no NUL: the diagnostic is cut to fit, at a character. *)
Lemma to_protocol_message_valid self :
  valid_utf8 (to_string self) → x00 ∉ to_string self → token_ok (bs (stage self)) 64 →
  (∀ e, errno self = Some e → (1 ≤ e ≤ 4095)%Z) →
  validate (to_protocol_message self) = Ok ().
Proof.
  intros Hu Hn Ht He. apply (error_message_validate_Ok _ (stable_code self)); [done|]. simpl.
  rewrite truncate_utf8_diagnostic. destruct (truncate_diagnostic_spec _ Hu) as ([r Hp] & _ & Hl & _).
  split_and!; [done|done|]. split_and!; [done|done|]. intros Hin. apply Hn. rewrite Hp. set_solver.
Qed.
End message.
End InitError.
