(* ===== verification/GuestErrors.v ===== *)
(** * Errors of the builder and validator guests: crates/pocket-builder-init/src/error.rs
    and crates/pocket-validator-init/src/error.rs

    The two error types with their stage, stable code and errno, and the message they
    become.  [GuestError] is what the three guest programs promise about their errors;
    its instances are these two and [InitError].  The texts of errors that come from
    a library are the class [ErrorTexts]. *)

From S2P Require Import Prelude Utf8 ErrorCode ProtocolError Payload Message BuilderMessage NoPanic InitError.

Class ErrorTexts := {
  io_error_text : io_error → bytes;
  errno_text : Z → bytes;
  protocol_error_text : ProtocolError → bytes;
}.

Class GuestError (E : Type) := {
  error_stage : E → string;
  error_stable_code : E → ErrorCode.t;
  error_errno : E → option Z;
  error_to_string : E → bytes;
}.

(** [source.raw_os_error().filter(|value| *value > 0)] *)
Definition positive_os_error (source : io_error) : option Z :=
  match raw_os_error source with
  | Some value => if decide (0 < value)%Z then Some value else None
  | None => None
  end.

Module BuilderError.
Inductive t : Set :=
| Contract (stage : string) (diagnostic : bytes)
| Unsupported (stage : string) (diagnostic : bytes)
| Input (stage : string) (diagnostic : bytes)
| Tool (stage : string) (errno : option Z) (diagnostic : bytes)
| Manifest (stage : string) (diagnostic : bytes)
| Io (stage : string) (source : io_error)
| Syscall (stage : string) (source : Z)
| Protocol (stage : string) (source : ProtocolError)
| Failure (stage : string) (code : ErrorCode.t) (errno : option Z) (diagnostic : bytes).

Definition contract {A} (stage : string) (diagnostic : bytes) : result t A := Err (Contract stage diagnostic).

Definition stage (self : t) : string :=
  match self with
  | Contract stage _ | Unsupported stage _ | Input stage _ | Tool stage _ _ | Manifest stage _
  | Io stage _ | Syscall stage _ | Protocol stage _ | Failure stage _ _ _ => stage
  end.

Definition stable_code (self : t) : ErrorCode.t :=
  match self with
  | Contract _ _ => ErrorCode.BuilderBootContract
  | Unsupported _ _ => ErrorCode.BuilderUnsupported
  | Input _ _ => ErrorCode.BuilderInputMismatch
  | Tool _ _ _ => ErrorCode.BuilderToolFailed
  | Manifest _ _ => ErrorCode.BuilderManifest
  | Io _ _ | Syscall _ _ => ErrorCode.BuilderMount
  | Protocol _ source =>
      match error_code source with
      | ErrorCode.ProtocolIo => ErrorCode.BuilderProtocol
      | code => code
      end
  | Failure _ code _ _ => code
  end.

Definition errno (self : t) : option Z :=
  match self with
  | Tool _ errno _ => errno
  | Io _ source => positive_os_error source
  | Syscall _ source => Some source
  | Failure _ _ errno _ => errno
  | Contract _ _ | Unsupported _ _ | Input _ _ | Manifest _ _ | Protocol _ _ => None
  end.

Section message.
Context {texts : ErrorTexts}.

Definition to_string (self : t) : bytes :=
  bs (stage self) ++ bs ": " ++
  match self with
  | Contract _ diagnostic => bs "boot or build contract violation: " ++ diagnostic
  | Unsupported _ diagnostic => bs "unsupported builder operation: " ++ diagnostic
  | Input _ diagnostic => bs "OCI input does not match BUILD_START: " ++ diagnostic
  | Tool _ _ diagnostic => bs "builder helper failed: " ++ diagnostic
  | Manifest _ diagnostic => bs "metadata manifest failed: " ++ diagnostic
  | Io _ source => io_error_text source
  | Syscall _ source => errno_text source
  | Protocol _ source => protocol_error_text source
  | Failure _ _ _ diagnostic => diagnostic
  end.

Definition reclassify (self : t) (code : ErrorCode.t) : t :=
  Failure (stage self) code (errno self) (to_string self).

Definition to_protocol_message (self : t) : ErrorMessage.t :=
  ErrorMessage.new (bs (stage self)) (stable_code self) (errno self) (truncate_diagnostic (to_string self)).

#[global] Instance guest_error : GuestError t := {|
  error_stage := stage; error_stable_code := stable_code; error_errno := errno; error_to_string := to_string |}.
End message.
End BuilderError.

Module ValidatorError.
Inductive t : Set :=
| Contract (stage : string) (diagnostic : bytes)
| Io (stage : string) (source : io_error)
| Syscall (stage : string) (source : Z)
| Protocol (stage : string) (source : ProtocolError)
| Failure (stage : string) (code : ErrorCode.t) (errno : option Z) (diagnostic : bytes).

Definition contract {A} (stage : string) (diagnostic : bytes) : result t A := Err (Contract stage diagnostic).

Definition stage (self : t) : string :=
  match self with
  | Contract stage _ | Io stage _ | Syscall stage _ | Protocol stage _ | Failure stage _ _ _ => stage
  end.

Definition stable_code (self : t) : ErrorCode.t :=
  match self with
  | Contract _ _ => ErrorCode.ValidatorBootContract
  | Io _ _ | Syscall _ _ => ErrorCode.ValidatorFilesystem
  | Protocol _ source =>
      match error_code source with
      | ErrorCode.ProtocolIo => ErrorCode.ValidatorProtocol
      | code => code
      end
  | Failure _ code _ _ => code
  end.

Definition errno (self : t) : option Z :=
  match self with
  | Io _ source => positive_os_error source
  | Syscall _ source => Some source
  | Failure _ _ errno _ => errno
  | Contract _ _ | Protocol _ _ => None
  end.

Section message.
Context {texts : ErrorTexts}.

Definition to_string (self : t) : bytes :=
  bs (stage self) ++ bs ": " ++
  match self with
  | Contract _ diagnostic => bs "validation contract violation: " ++ diagnostic
  | Io _ source => io_error_text source
  | Syscall _ source => errno_text source
  | Protocol _ source => protocol_error_text source
  | Failure _ _ _ diagnostic => diagnostic
  end.

Definition reclassify (self : t) (code : ErrorCode.t) : t :=
  Failure (stage self) code (errno self) (to_string self).

Definition to_protocol_message (self : t) : ErrorMessage.t :=
  ErrorMessage.new (bs (stage self)) (stable_code self) (errno self) (truncate_diagnostic (to_string self)).

#[global] Instance guest_error : GuestError t := {|
  error_stage := stage; error_stable_code := stable_code; error_errno := errno; error_to_string := to_string |}.
End message.
End ValidatorError.

Lemma builder_guard_ok {A} (P : Prop) `{Decision P} f r (k : result BuilderError.t A) a :
  (if decide P then BuilderError.contract f r else k) = Ok a ↔ ¬ P ∧ k = Ok a.
Proof. apply guard_ok. Qed.
Lemma validator_guard_ok {A} (P : Prop) `{Decision P} f r (k : result ValidatorError.t A) a :
  (if decide P then ValidatorError.contract f r else k) = Ok a ↔ ¬ P ∧ k = Ok a.
Proof. apply guard_ok. Qed.
#[export] Hint Rewrite @builder_guard_ok @validator_guard_ok : rust_ok.

Lemma np_builder_contract {A} f r : no_panic (@BuilderError.contract A f r).
Proof. done. Qed.
Lemma np_validator_contract {A} f r : no_panic (@ValidatorError.contract A f r).
Proof. done. Qed.
#[export] Hint Resolve np_builder_contract np_validator_contract : no_panic.

(** ** What a report carries *)
Section report.
Context {E : Type} {guest : GuestError E}.

Definition report (e : E) : ErrorMessage.t :=
  ErrorMessage.new (bs (error_stage e)) (error_stable_code e) (error_errno e)
    (truncate_diagnostic (error_to_string e)).

(** The host reads back the stage, the code and the errno of the error; the message
    passes the host's validation whenever the stage is a token, the errno is one of
    Linux's and the text has no NUL, because the diagnostic is cut to fit. *)
Lemma report_exact e :
  ErrorMessage.stage (report e) = bs (error_stage e) ∧
  ErrorMessage.code (report e) = Ok (error_stable_code e) ∧
  ErrorMessage.errno (report e) = error_errno e ∧
  (valid_utf8 (error_to_string e) →
   ErrorMessage.diagnostic (report e) `prefix_of` error_to_string e ∧
   valid_utf8 (ErrorMessage.diagnostic (report e)) ∧
   (x00 ∉ error_to_string e → token_ok (bs (error_stage e)) 64 →
    (∀ n, error_errno e = Some n → (1 ≤ n ≤ 4095)%Z) → validate (report e) = Ok ())).
Proof.
  split_and!; [done| |done|].
  { unfold ErrorMessage.code. simpl. by rewrite from_as_u16. }
  intros Hu. destruct (truncate_diagnostic_spec _ Hu) as (Hp & ? & ? & _). split_and!; [done..|].
  intros Hn ? ?. apply (error_message_validate_Ok _ (error_stable_code e)); [done|]. simpl.
  split_and!; [done..|]. split_and!; [done..|]. destruct Hp as [r Hr]. intros Hin. apply Hn. rewrite Hr. set_solver.
Qed.
End report.

(** An error of the control channel itself is reported as the guest's, and a
    reclassified error keeps its stage and errno. *)
Lemma builder_protocol_io stage source :
  error_code source = ErrorCode.ProtocolIo →
  BuilderError.stable_code (BuilderError.Protocol stage source) = ErrorCode.BuilderProtocol.
Proof. simpl. by intros ->. Qed.

Lemma builder_reclassify `{ErrorTexts} e code :
  let r := BuilderError.reclassify e code in
  BuilderError.stage r = BuilderError.stage e ∧ BuilderError.errno r = BuilderError.errno e ∧
  BuilderError.stable_code r = code.
Proof. done. Qed.

Lemma validator_reclassify `{ErrorTexts} e code :
  let r := ValidatorError.reclassify e code in
  ValidatorError.stage r = ValidatorError.stage e ∧ ValidatorError.errno r = ValidatorError.errno e ∧
  ValidatorError.stable_code r = code.
Proof. done. Qed.
