(* ===== verification/Pump.v ===== *)
(** * Stream pumps of the workload guest: crates/pocket-init/src/pump.rs and the
    [StreamPump] of crates/pocket-init/src/linux.rs

    A bounded byte queue between a source and a sink, both non-blocking.  The
    queue is shown to be a bounded FIFO whose backing storage never outgrows its
    capacity, and the pump to hand over exactly the announced number of bytes. *)

From S2P Require Import Prelude RustStr ProtocolError Frame.

Definition MAX_PUMP_BUFFER : N := 64 * 1024.

Module PumpBuffer.
Record t : Set := pump_buffer { bytes : Prelude.bytes; offset : N; capacity : N }.

Section operations.
Context {E : Type}.

(** [assert!] and the capacity overflow of [Vec::with_capacity] panic. *)
Definition new (capacity : N) : result E t :=
  if decide (0 < capacity ≤ isize_max)%N then Ok (pump_buffer [] 0 capacity) else Panic.

Definition len (self : t) : result E N := usize_sub (Prelude.len (bytes self)) (offset self).

Definition is_empty (self : t) : result E bool := (λ n, bool_decide (n = 0%N)) <$> len self.

Definition remaining_capacity (self : t) : result E N :=
  n ← len self; usize_sub (capacity self) n.

Definition readable (self : t) : result E Prelude.bytes :=
  slice_range (bytes self) (offset self) (Prelude.len (bytes self)).

Definition backing_len (self : t) : N := Prelude.len (bytes self).

Definition compact_for (self : t) (count : N) : result E t :=
  if decide (offset self = 0%N) then Ok self else
  needed ← usize_add (Prelude.len (bytes self)) count;
  if decide (capacity self < needed)%N then
    rest ← slice_range (bytes self) (offset self) (Prelude.len (bytes self));
    Ok (pump_buffer rest 0 (capacity self))
  else Ok self.

Definition push (self : t) (input : Prelude.bytes) : result E (t * N) :=
  remaining ← remaining_capacity self;
  let count := N.min (Prelude.len input) remaining in
  if decide (count = 0%N) then Ok (self, 0%N) else
  self ← compact_for self count;
  head ← slice_range input 0 count;
  let self := pump_buffer (bytes self ++ head) (offset self) (capacity self) in
  if decide (Prelude.len (bytes self) ≤ capacity self)%N then Ok (self, count) else Panic.

Definition consume (self : t) (count : N) : result E t :=
  n ← len self;
  let actual := N.min count n in
  offset ← usize_add (offset self) actual;
  if decide (offset = Prelude.len (bytes self))
  then Ok (pump_buffer [] 0 (capacity self))
  else Ok (pump_buffer (bytes self) offset (capacity self)).
End operations.

(** ** The queue it implements *)
Record inv (self : t) : Prop := {
  inv_capacity : (0 < capacity self ≤ isize_max)%N;
  inv_offset : (offset self ≤ Prelude.len (bytes self))%N;
  inv_backing : (Prelude.len (bytes self) ≤ capacity self)%N;
}.

Definition queue (self : t) : Prelude.bytes := drop (N.to_nat (offset self)) (bytes self).

Section laws.
Context {E : Type}.

Lemma len_drop {A} (l : list A) n : (n ≤ Prelude.len l)%N →
  Prelude.len (drop (N.to_nat n) l) = (Prelude.len l - n)%N.
Proof. unfold Prelude.len. rewrite length_drop. lia. Qed.

Lemma len_take {A} (l : list A) n : Prelude.len (take (N.to_nat n) l) = N.min n (Prelude.len l).
Proof. unfold Prelude.len. rewrite length_take. lia. Qed.

Lemma len_queue b : inv b → Prelude.len (queue b) = (Prelude.len (bytes b) - offset b)%N.
Proof. intros []. by apply len_drop. Qed.

Lemma queue_bound b : inv b → (Prelude.len (queue b) ≤ capacity b)%N.
Proof. intros Hb. rewrite len_queue by done. destruct Hb. lia. Qed.

Lemma buffer_len b : inv b → @len E b = Ok (Prelude.len (queue b)).
Proof. intros Hb. unfold len, usize_sub. destruct (Hb). rewrite decide_True by done. by rewrite len_queue. Qed.

Lemma buffer_empty b : inv b → @is_empty E b = Ok (bool_decide (queue b = [])).
Proof.
  intros Hb. unfold is_empty. rewrite buffer_len by done. simpl. f_equal. apply bool_decide_ext, len_zero.
Qed.

Lemma buffer_remaining b :
  inv b → @remaining_capacity E b = Ok (capacity b - Prelude.len (queue b))%N.
Proof.
  intros Hb. unfold remaining_capacity. rewrite buffer_len by done. simpl. unfold usize_sub.
  by rewrite decide_True by by apply queue_bound.
Qed.

Lemma slice_to_end {A} (l : list A) n : (n ≤ Prelude.len l)%N →
  @slice_range E A l n (Prelude.len l) = Ok (drop (N.to_nat n) l).
Proof.
  intros Hn. unfold slice_range. rewrite decide_True by lia. f_equal. apply take_ge.
  rewrite length_drop. unfold Prelude.len in *. lia.
Qed.

Lemma buffer_readable b : inv b → @readable E b = Ok (queue b).
Proof. intros []. by apply slice_to_end. Qed.

Lemma compact_spec b count :
  inv b → (count ≤ capacity b - Prelude.len (queue b))%N →
  ∃ b', @compact_for E b count = Ok b' ∧ inv b' ∧ queue b' = queue b ∧ capacity b' = capacity b ∧
    (Prelude.len (bytes b') + count ≤ capacity b')%N.
Proof.
  intros Hb Hc. pose proof (queue_bound b Hb) as Hq. rewrite len_queue in Hc, Hq by done.
  unfold compact_for. pose proof Hb as [Hcap Hoff Hback]. case_decide as Ho.
  { exists b. split_and!; [done..|]. lia. }
  unfold usize_add. rewrite decide_True by (unfold isize_max, u64_bound in *; lia). simpl.
  case_decide as Hneed; [|exists b; split_and!; (done || lia)].
  rewrite slice_to_end by done. simpl. eexists. split; [done|].
  split_and!; [split; simpl; [done|lia|]|done|done|]; simpl; rewrite len_drop by done; lia.
Qed.

Lemma push_spec b input :
  inv b →
  let n := N.min (Prelude.len input) (capacity b - Prelude.len (queue b)) in
  ∃ b', @push E b input = Ok (b', n) ∧ inv b' ∧ capacity b' = capacity b ∧
    queue b' = queue b ++ take (N.to_nat n) input.
Proof.
  intros Hb n. unfold push. rewrite buffer_remaining by done. simpl. fold n. case_decide as Hz.
  { exists b. rewrite Hz, take_0, app_nil_r. by split_and!. }
  destruct (compact_spec b n) as (b1 & -> & [Hcap Hoff Hback] & Hq & Hc & Hfit); [done|lia|]. simpl.
  unfold slice_range. rewrite decide_True by lia. simpl. rewrite N.sub_0_r, drop_0.
  assert (Prelude.len (take (N.to_nat n) input) = n) as Hn by (rewrite len_take; lia).
  rewrite decide_True by (rewrite len_app; lia). eexists. split; [done|].
  split_and!; [split; simpl; rewrite ?len_app; lia|done|].
  unfold queue at 1. simpl. rewrite drop_app_le by (unfold Prelude.len in *; lia). by rewrite <- Hq.
Qed.

Lemma consume_spec b count :
  inv b →
  ∃ b', @consume E b count = Ok b' ∧ inv b' ∧ capacity b' = capacity b ∧
    queue b' = drop (N.to_nat count) (queue b).
Proof.
  intros Hb. pose proof Hb as [Hcap Hoff Hback]. unfold consume. rewrite buffer_len by done. simpl.
  rewrite len_queue by done. unfold usize_add.
  rewrite decide_True by (unfold isize_max, u64_bound in *; lia). simpl. case_decide as He.
  - eexists. split; [done|]. split_and!; [by split; simpl; rewrite ?len_nil; lia|done|].
    unfold queue at 1. simpl. symmetry. apply drop_ge.
    unfold queue. rewrite length_drop. unfold Prelude.len in *. lia.
  - eexists. split; [done|]. split_and!; [split; simpl; lia|done|].
    unfold queue. simpl. rewrite drop_drop. f_equal. lia.
Qed.
End laws.

(** Any sequence of the two operations, with what each push took. *)
Inductive operation : Set := Push (input : Prelude.bytes) | Consume (count : N).

Definition apply {E} (state : t * list N) (o : operation) : result E (t * list N) :=
  let '(self, taken) := state in
  match o with
  | Push input => '(self, n) ← push self input; Ok (self, taken ++ [n])
  | Consume count => self ← consume self count; Ok (self, taken)
  end.

(** The same on an abstract queue of bounded length. *)
Definition apply_spec (capacity : N) (state : Prelude.bytes * list N) (o : operation)
    : Prelude.bytes * list N :=
  let '(q, taken) := state in
  match o with
  | Push input =>
      let n := N.min (Prelude.len input) (capacity - Prelude.len q) in
      (q ++ take (N.to_nat n) input, taken ++ [n])
  | Consume count => (drop (N.to_nat count) q, taken)
  end.

Lemma run_refines {E} b taken ops :
  inv b →
  ∃ b' taken', fold_result (@apply E) (b, taken) ops = Ok (b', taken') ∧ inv b' ∧ capacity b' = capacity b ∧
    foldl (apply_spec (capacity b)) (queue b, taken) ops = (queue b', taken').
Proof.
  revert b taken; induction ops as [|[input|count] ops IH]; intros b taken Hb; simpl.
  - by exists b, taken.
  - destruct (@push_spec E b input) as (b1 & -> & Hb1 & Hc1 & Hq); [done|]. simpl.
    rewrite <- Hq, <- Hc1. by apply IH.
  - destruct (@consume_spec E b count) as (b1 & -> & Hb1 & Hc1 & Hq); [done|]. simpl.
    rewrite <- Hq, <- Hc1. by apply IH.
Qed.

Lemma new_inv {E} capacity b : @new E capacity = Ok b → inv b ∧ queue b = [] ∧ PumpBuffer.capacity b = capacity.
Proof.
  unfold new. case_decide; [|done]. intros [= <-]. split_and!; [|done|done].
  split; simpl; rewrite ?len_nil; lia.
Qed.

(** C35: the pump buffer is a bounded first-in-first-out queue.  Started by
    [PumpBuffer::new], any sequence of pushes and consumptions runs without a panic
    (no underflow, no out-of-range slice, no failed [debug_assert!]), takes of each
    push as much as there is room for, holds what the abstract queue holds, and its
    backing storage never exceeds the declared capacity. *)
Theorem pump_buffer_refines capacity b ops :
  @new ProtocolError capacity = Ok b →
  ∃ b' taken, fold_result (@apply ProtocolError) (b, []) ops = Ok (b', taken) ∧
    foldl (apply_spec capacity) ([], []) ops = (queue b', taken) ∧
    @readable ProtocolError b' = Ok (queue b') ∧ (backing_len b' ≤ capacity)%N.
Proof.
  intros (Hb & Hq & Hc)%new_inv. destruct (@run_refines ProtocolError b [] ops Hb) as (b' & taken & Hr & Hb' & Hc' & Hs).
  exists b', taken. rewrite <- Hc, <- Hq. split_and!; [done|done|by apply buffer_readable|].
  destruct Hb'. unfold backing_len. lia.
Qed.

Lemma pump_buffer_refines_witness :
  ∃ b' taken, fold_result (@apply ProtocolError) (pump_buffer [] 0 8, [])
      [Push (bs "abcdef"); Consume 4; Push (bs "ghijkl"); Push (bs "overflow")] = Ok (b', taken) ∧
    queue b' = bs "efghijkl" ∧ taken = [6; 6; 0]%N ∧ (backing_len b' ≤ 8)%N.
Proof.
  destruct (pump_buffer_refines 8 (pump_buffer [] 0 8)
      [Push (bs "abcdef"); Consume 4; Push (bs "ghijkl"); Push (bs "overflow")]) as (b' & taken & Hr & Hs & _ & Hl);
    [reflexivity|].
  exists b', taken. injection Hs as <- <-. split_and!; [exact Hr|reflexivity|reflexivity|exact Hl].
Defined.
End PumpBuffer.
