(* ===== verification/StreamPump.v ===== *)
(** * Stream pumps of the workload guest: [StreamPump] of
    crates/pocket-init/src/linux.rs

    A pump moves bytes from a non-blocking source to a non-blocking sink through a
    [PumpBuffer].  What the two files do is scripted: a [reader] of Frame for the
    source, and for the sink the outcome of each [write] together with the bytes it
    has taken.  The pump itself only holds or drops its handle on them. *)

From S2P Require Import Prelude RustStr ProtocolError Frame InitError Pump.

Definition IO_CHUNK : N := 8192.
Definition EIO : Z := 5.

(** One [write]: how many bytes it takes at most, or its error.  A sink whose script
    has ended takes everything. *)
Inductive write_event : Set :=
| Accept (count : N)
| Refuse (error : io_error).

Record writer : Set := writer_file { outcomes : list write_event; taken : bytes }.

Definition write (s : writer) (b : bytes) : writer * result io_error N :=
  match outcomes s with
  | [] => (writer_file [] (taken s ++ b), Ok (len b))
  | Accept n :: rest =>
      (writer_file rest (taken s ++ take (N.to_nat n) b), Ok (N.min n (len b)))
  | Refuse e :: rest => (writer_file rest (taken s), Err e)
  end.

Module StreamPump.
(** [source] and [sink] say whether the handle is still held. *)
Record t : Set := stream_pump {
  name : bytes;
  source : bool;
  sink : bool;
  buffer : PumpBuffer.t;
  is_output : bool;
  eio_is_eof : bool;
  remaining_input : option N;
}.

Definition set_source (source : bool) (self : t) : t :=
  stream_pump (name self) source (sink self) (buffer self) (is_output self) (eio_is_eof self)
    (remaining_input self).
Definition set_sink (sink : bool) (self : t) : t :=
  stream_pump (name self) (source self) sink (buffer self) (is_output self) (eio_is_eof self)
    (remaining_input self).
Definition set_buffer (buffer : PumpBuffer.t) (self : t) : t :=
  stream_pump (name self) (source self) (sink self) buffer (is_output self) (eio_is_eof self)
    (remaining_input self).
Definition set_remaining_input (remaining_input : option N) (self : t) : t :=
  stream_pump (name self) (source self) (sink self) (buffer self) (is_output self) (eio_is_eof self)
    remaining_input.

(** [new] after its two [set_nonblocking] calls. *)
Definition new (name : bytes) (is_output eio_is_eof : bool) : result InitError.t t :=
  buffer ← PumpBuffer.new MAX_PUMP_BUFFER;
  Ok (stream_pump name true true buffer is_output eio_is_eof None).

Definition with_input_limit (self : t) (bytes : N) : t :=
  let self := set_remaining_input (Some bytes) self in
  if decide (bytes = 0%N) then set_sink false (set_source false self) else self.

Definition wants_read (self : t) : result InitError.t bool :=
  if source self then
    remaining ← PumpBuffer.remaining_capacity (buffer self);
    Ok (bool_decide ((0 < remaining)%N ∧ remaining_input self ≠ Some 0%N))
  else Ok false.

Definition wants_write (self : t) : result InitError.t bool :=
  if sink self then negb <$> PumpBuffer.is_empty (buffer self) else Ok false.

Definition close_sink_after_eof (self : t) : result InitError.t t :=
  if source self then Ok self else
  empty ← PumpBuffer.is_empty (buffer self);
  Ok (if (empty : bool) then set_sink false self else self).

(** [self.buffer.consume(self.buffer.len())] *)
Definition discard (self : t) : result InitError.t t :=
  n ← PumpBuffer.len (buffer self);
  buffer ← PumpBuffer.consume (buffer self) n;
  Ok (set_buffer buffer self).

(** The most the next read may bring. *)
Definition read_maximum (self : t) (remaining : N) : N :=
  let maximum := N.min remaining IO_CHUNK in
  match remaining_input self with Some budget => N.min maximum budget | None => maximum end.

(** The end of the source: an announced payload must be complete. *)
Definition at_eof (self : t) : t * result InitError.t () :=
  match remaining_input self with
  | Some budget =>
      if decide (0 < budget)%N
      then (self, Err (InitError.Contract "stream-pump"
              (name self ++ bs " ended " ++ to_decimal budget ++ bs " bytes before the announced length")))
      else (set_source false self, Ok ())
  | None => (set_source false self, Ok ())
  end.

(** Whether the loop goes on. *)
Inductive flow : Set := Continue | Break.

(** Bytes arrived. *)
Definition at_data (self : t) (arrived : bytes) : t * result InitError.t flow :=
  try_with self (PumpBuffer.push (buffer self) arrived) (λ '(buffer, pushed),
  let self := set_buffer buffer self in
  if decide (pushed ≠ len arrived)
  then (self, Err (InitError.Contract "stream-pump" (bs "bounded stream buffer accounting failed"))) else
  match remaining_input self with
  | Some budget =>
      let budget := (budget - len arrived)%N in
      let self := set_remaining_input (Some budget) self in
      if decide (budget = 0%N) then (set_source false self, Ok Break) else (self, Ok Continue)
  | None => (self, Ok Continue)
  end).

(** A read failed. *)
Definition at_failure (self : t) (e : io_error) : t * result InitError.t flow :=
  if decide (io_kind e = WouldBlock) then (self, Ok Break) else
  if decide (io_kind e = Interrupted) then (self, Ok Continue) else
  if decide (eio_is_eof self = true ∧ raw_os_error e = Some EIO) then (set_source false self, Ok Break) else
  (self, Err (InitError.Io "stream-pump" e)).

(** The [loop] of [read_available].  Every round that goes on uses up an event of
    the source or some of its bytes; running out of fuel would be [Panic], which
    [read_available_spec] excludes. *)
Fixpoint read_rounds (fuel : nat) (self : t) (r : reader) : (t * reader) * result InitError.t () :=
  match fuel with
  | O => ((self, r), Panic)
  | S fuel =>
      if decide (remaining_input self = Some 0%N) then ((set_source false self, r), Ok ()) else
      try_with (self, r) (PumpBuffer.remaining_capacity (buffer self)) (λ remaining,
      if decide (remaining = 0%N) then ((self, r), Ok ()) else
      if source self then
        let '(r, outcome) := read r (N.to_nat (read_maximum self remaining)) in
        match outcome with
        | Ok [] => let '(self, ended) := at_eof self in ((self, r), ended)
        | Ok arrived =>
            let '(self, next) := at_data self arrived in
            try_with (self, r) next (λ next,
              match next with Continue => read_rounds fuel self r | Break => ((self, r), Ok ()) end)
        | Err e =>
            let '(self, next) := at_failure self e in
            try_with (self, r) next (λ next,
              match next with Continue => read_rounds fuel self r | Break => ((self, r), Ok ()) end)
        | Panic => ((self, r), Panic)
        end
      else ((self, r), Ok ()))
  end.

Definition read_available (self : t) (r : reader) : (t * reader) * result InitError.t () :=
  let '((self, r), looped) := read_rounds (S (length r + length (content r))) self r in
  try_with (self, r) looped (λ _,
  try_with (self, r) (if decide (is_output self = false ∧ sink self = false) then discard self else Ok self)
    (λ self,
  try_with (self, r) (close_sink_after_eof self) (λ self, ((self, r), Ok ())))).

(** One [write]: whether the loop goes on. *)
Definition write_round (self : t) (s : writer) : (t * writer) * result InitError.t flow :=
  if sink self then
    try_with (self, s) (PumpBuffer.readable (buffer self)) (λ readable,
    let '(s, outcome) := write s readable in
    match outcome with
    | Ok count =>
        if decide (count = 0%N)
        then ((self, s), Err (InitError.Contract "stream-pump"
                (name self ++ bs " sink returned a zero-length write"))) else
        try_with (self, s) (PumpBuffer.consume (buffer self) count) (λ buffer,
        ((set_buffer buffer self, s), Ok Continue))
    | Err e =>
        if decide (io_kind e = WouldBlock) then ((self, s), Ok Break) else
        if decide (io_kind e = Interrupted) then ((self, s), Ok Continue) else
        if decide (is_output self = false ∧ io_kind e = BrokenPipe) then
          try_with (set_sink false self, s) (discard (set_sink false self)) (λ self, ((self, s), Ok Break))
        else ((self, s), Err (InitError.Io "stream-pump" e))
    | Panic => ((self, s), Panic)
    end)
  else ((self, s), Err (InitError.Contract "stream-pump" (name self ++ bs " sink closed with buffered bytes"))).

(** The [while] of [write_available].  Every round that goes on uses up an outcome
    of the sink or a byte of the buffer. *)
Fixpoint write_rounds (fuel : nat) (self : t) (s : writer) : (t * writer) * result InitError.t () :=
  match fuel with
  | O => ((self, s), Panic)
  | S fuel =>
      try_with (self, s) (PumpBuffer.is_empty (buffer self)) (λ empty,
      if (empty : bool) then ((self, s), Ok ()) else
      let '((self, s), next) := write_round self s in
      try_with (self, s) next (λ next,
        match next with Continue => write_rounds fuel self s | Break => ((self, s), Ok ()) end))
  end.

Definition write_available (self : t) (s : writer) : (t * writer) * result InitError.t () :=
  let '((self, s), looped) :=
    write_rounds (S (length (outcomes s) + length (PumpBuffer.bytes (buffer self)))) self s in
  try_with (self, s) looped (λ _,
  try_with (self, s) (close_sink_after_eof self) (λ self, ((self, s), Ok ()))).

Definition output_drained (self : t) : result InitError.t bool :=
  if is_output self then
    if source self then Ok false else PumpBuffer.is_empty (buffer self)
  else Ok true.

Definition close_input (self : t) : result InitError.t t :=
  if is_output self then Ok self else
  self ← discard (set_source false self);
  Ok (set_sink false self).
End StreamPump.

(** ** What an input pump with an announced length delivers *)

(** How much is left to read: events and bytes. *)
Definition unread (r : reader) : nat := length r + length (content r).

Lemma content_data a r : content (Data a :: r) = a ++ content r.
Proof. done. Qed.
Lemma content_failure e r : content (Failure e :: r) = content r.
Proof. done. Qed.

Lemma read_content r n r' outcome :
  0 < n → read r n = (r', outcome) →
  match outcome with
  | Ok b => content r = b ++ content r' ∧ length b ≤ n ∧ (b ≠ [] → unread r' < unread r)
  | Err _ => content r = content r' ∧ unread r' < unread r
  | Panic => False
  end.
Proof.
  intros Hn. unfold read, unread. destruct r as [|[arrived|e] r].
  - intros [= <- <-]. split_and!; [done|simpl; lia|done].
  - case_decide as Hl; intros [= <- <-]; rewrite !content_data.
    + split_and!; [done|done|]. rewrite length_app, length_cons. lia.
    + rewrite app_assoc, take_drop. split; [done|].
      rewrite length_take, !length_app, length_drop, !length_cons. split; lia.
  - intros [= <- <-]. rewrite content_failure, length_cons. split; [done|lia].
Qed.

(** The sink's reader stays. *)
Definition unbroken (s : writer) : Prop :=
  Forall (λ o, match o with Refuse e => io_kind e ≠ BrokenPipe | Accept _ => True end) (outcomes s).

Lemma write_taken s b s' outcome :
  unbroken s → write s b = (s', outcome) →
  unbroken s' ∧ length (outcomes s') ≤ length (outcomes s) ∧
  match outcome with
  | Ok n => taken s' = taken s ++ take (N.to_nat n) b
  | Err e => taken s' = taken s ∧ io_kind e ≠ BrokenPipe ∧ length (outcomes s') < length (outcomes s)
  | Panic => False
  end.
Proof.
  intros Hu. unfold write, unbroken in *. destruct (outcomes s) as [|[n|e] rest] eqn:Ho; intros [= <- <-]; simpl.
  - split_and!; [constructor|lia|]. by rewrite take_ge by (unfold len; lia).
  - apply Forall_cons in Hu as [_ Hu]. split_and!; [done|lia|]. f_equal.
    destruct (decide (n ≤ len b)%N); [by rewrite N.min_l|].
    rewrite N.min_r, !take_ge by (unfold len in *; lia). done.
  - apply Forall_cons in Hu as [He Hu]. split_and!; (done || lia).
Qed.

Module Import PumpInvariant.
Import StreamPump.

(** The bytes of the source are, in order: what the sink has, what is buffered and
    what is unread; what was announced is what the sink has, what is buffered and
    what is still due.  The source is held while something is due, and the sink is
    let go only when nothing is due or buffered. *)
Record pumping (stream : bytes) (announced left : N) (p : t) (rest done' : bytes) : Prop := {
  pm_buffer : PumpBuffer.inv (buffer p);
  pm_input : is_output p = false;
  pm_eio : eio_is_eof p = false;
  pm_stream : stream = done' ++ PumpBuffer.queue (buffer p) ++ rest;
  pm_left : remaining_input p = Some left;
  pm_total : announced = (len done' + len (PumpBuffer.queue (buffer p)) + left)%N;
  pm_source : source p = bool_decide (left ≠ 0%N);
  pm_sink : sink p = false → left = 0%N ∧ PumpBuffer.queue (buffer p) = [];
}.

Section pumping.
Context (stream : bytes) (announced : N).
Abbreviation pumping := (pumping stream announced).

Lemma pumping_data left p b rest d self next :
  b ≠ [] → pumping left p (b ++ rest) d →
  (len b ≤ PumpBuffer.capacity (buffer p) - len (PumpBuffer.queue (buffer p)))%N → (len b ≤ left)%N →
  at_data p b = (self, next) →
  pumping (left - len b) self rest d ∧ next = Ok (if decide (left - len b = 0)%N then Break else Continue).
Proof.
  intros Hne [Hb Hi He Hs Hl Ht Hsrc Hsnk] Hcap Hlen Ha. unfold at_data in Ha.
  destruct (@PumpBuffer.push_spec InitError.t (buffer p) b Hb) as (b' & Hp & Hb' & Hc' & Hq).
  rewrite Hp in Ha. simpl in Ha. rewrite N.min_l in Ha, Hq by done. rewrite decide_False in Ha by tauto.
  rewrite Hl in Ha. rewrite take_ge in Hq by (unfold len; lia).
  assert (len b ≠ 0%N) by (by rewrite len_zero).
  assert (pumping (left - len b) (set_source (bool_decide (left - len b ≠ 0)%N)
    (set_remaining_input (Some (left - len b)%N) (set_buffer b' p))) rest d) as Hres.
  { split; simpl; rewrite ?Hq; [done..| |done| |done|].
    - by rewrite Hs, <- !app_assoc.
    - rewrite len_app. lia.
    - intros Hf. destruct (Hsnk Hf). lia. }
  assert (source p = true) as Hst by (rewrite Hsrc; apply bool_decide_eq_true; lia).
  case_decide as Hz; injection Ha as <- <-.
  - by rewrite bool_decide_eq_false_2 in Hres by tauto.
  - rewrite bool_decide_eq_true_2 in Hres by done. destruct Hres as [? ? ? ? ? ? _ ?]. simpl in *.
    split; [|done]. split; simpl; try done. rewrite Hst. symmetry. by apply bool_decide_eq_true.
Qed.

Lemma read_maximum_bounds left p remaining :
  remaining_input p = Some left → left ≠ 0%N → remaining ≠ 0%N →
  (0 < read_maximum p remaining ∧ read_maximum p remaining ≤ remaining ∧ read_maximum p remaining ≤ left)%N.
Proof. unfold read_maximum, IO_CHUNK. intros ->. lia. Qed.

(** The outcome is on display and the invariant is [H]. *)
Ltac ends H := do 4 eexists; split; [reflexivity|]; split; [done|];
  first [exact H | split; [exact H|done]].

Lemma read_rounds_spec fuel left p r d :
  unread r < fuel → pumping left p (content r) d →
  ∃ left' p' r' res, read_rounds fuel p r = ((p', r'), res) ∧ res ≠ Panic ∧ pumping left' p' (content r') d.
Proof.
  revert left p r; induction fuel as [|fuel IH]; intros left p r Hf Hp; [lia|].
  pose proof Hp as [Hb Hi He Hs Hl Ht Hsrc Hsnk]. simpl. rewrite Hl. destruct (decide (Some left = Some 0%N)) as [Hz|Hz].
  { assert (left = 0%N) as -> by congruence. exists 0%N. do 3 eexists. split; [done|]. split; [done|].
    by split; simpl; rewrite ?Hl. }
  rewrite (@PumpBuffer.buffer_remaining InitError.t) by done. simpl. destruct (decide (_ = 0%N)) as [Hr|Hr]; [ends Hp|].
  assert (left ≠ 0%N) as Hleft by congruence. rewrite Hsrc, bool_decide_eq_true_2 by done.
  destruct (read_maximum_bounds left p _ Hl Hleft Hr) as (H0 & Hrem & Hmax).
  destruct (read r _) as [r1 outcome] eqn:Hread.
  apply read_content in Hread; [|lia]. destruct outcome as [b|e|]; [|destruct Hread as [Hc Hu]|done].
  - destruct Hread as (Hc & Hlen & Hu). destruct b as [|c b].
    { unfold at_eof. rewrite Hl, decide_True by lia. rewrite Hc in Hp. ends Hp. }
    rewrite Hc in Hp. destruct (at_data p (c :: b)) as [p1 next] eqn:Ha.
    destruct (pumping_data left p (c :: b) (content r1) d p1 next) as [Hp1 ->];
      [done|exact Hp|unfold len in *; lia|unfold len in *; lia|exact Ha|].
    destruct (decide (left - _ = 0)%N); simpl; [ends Hp1|]. eapply IH; [|exact Hp1]. specialize (Hu ltac:(done)). lia.
  - rewrite Hc in Hp. unfold at_failure. destruct (decide (io_kind e = WouldBlock)); simpl; [ends Hp|].
    destruct (decide (io_kind e = Interrupted)); simpl; [eapply IH; [|exact Hp]; lia|].
    rewrite decide_False by (rewrite He; by intros []). simpl. ends Hp.
Qed.

(** Nothing due and nothing buffered: the sink is let go. *)
Definition settled (left : N) (p : t) : Prop :=
  left = 0%N → PumpBuffer.queue (buffer p) = [] → sink p = false.

Lemma close_sink_spec left p rest d :
  pumping left p rest d → ∃ p', close_sink_after_eof p = Ok p' ∧ pumping left p' rest d ∧ settled left p'.
Proof.
  intros Hp. pose proof Hp as [Hb Hi He Hs Hl Ht Hsrc Hsnk]. unfold close_sink_after_eof, settled.
  rewrite Hsrc. case_bool_decide as Hz; [by exists p|]. subst left.
  rewrite (@PumpBuffer.buffer_empty InitError.t) by done. simpl. case_bool_decide as Hq; [|by exists p].
  eexists. split; [done|]. split; [|done]. by split.
Qed.

Lemma read_available_spec left p r d :
  pumping left p (content r) d →
  ∃ left' p' r' res, read_available p r = ((p', r'), res) ∧ res ≠ Panic ∧
    pumping left' p' (content r') d ∧ (res = Ok () → settled left' p').
Proof.
  intros Hp. unfold read_available.
  destruct (read_rounds_spec (S (unread r)) left p r d) as (left' & p' & r' & res & Hr & Hres & Hp'); [lia|done|].
  unfold unread in Hr. rewrite Hr. destruct res as [[]|e|]; [|ends Hp'|done]. simpl.
  pose proof Hp' as [Hb Hi He Hs Hl Ht Hsrc Hsnk].
  assert (∃ p1, (if decide (is_output p' = false ∧ sink p' = false) then discard p' else Ok p') = Ok p1 ∧
                pumping left' p1 (content r') d) as (p1 & -> & Hp1).
  { destruct (decide _) as [Hd|_]; [|by exists p']. destruct (Hsnk (proj2 Hd)) as [-> Hq]. unfold discard.
    rewrite (@PumpBuffer.buffer_len InitError.t) by done. simpl.
    destruct (@PumpBuffer.consume_spec InitError.t (buffer p') (len (PumpBuffer.queue (buffer p'))) Hb)
      as (b1 & -> & Hb1 & _ & Hq1). simpl. eexists. split; [done|].
    rewrite Hq, drop_nil in Hq1. split; simpl; rewrite ?Hq1, <- ?Hq; done. }
  simpl. destruct (close_sink_spec left' p1 _ d Hp1) as (p2 & -> & Hp2 & Hset). simpl.
  ends Hp2.
Qed.

Lemma write_round_spec left p rest s p' s' next :
  pumping left p rest (taken s) → unbroken s → PumpBuffer.queue (buffer p) ≠ [] →
  write_round p s = ((p', s'), next) →
  next ≠ Panic ∧ pumping left p' rest (taken s') ∧ unbroken s' ∧
  (next = Ok Continue →
     length (outcomes s') + length (PumpBuffer.queue (buffer p')) <
     length (outcomes s) + length (PumpBuffer.queue (buffer p))).
Proof.
  intros Hp Hu Hne Hw. pose proof Hp as [Hb Hi He Hs Hl Ht Hsrc Hsnk]. unfold write_round in Hw.
  destruct (sink p) eqn:Hsink; [|by destruct Hsnk].
  rewrite (@PumpBuffer.buffer_readable InitError.t) in Hw by done. simpl in Hw.
  destruct (write s _) as [s1 outcome] eqn:Hwr. apply write_taken in Hwr as (Hu1 & Hlen & Hout); [|done].
  destruct outcome as [n|e|]; [|destruct Hout as (Htk & Hbp & Hlt)|done].
  - destruct (decide (n = 0%N)) as [->|Hn].
    { injection Hw as <- <- <-. rewrite take_0, app_nil_r in Hout. rewrite <- Hout in Hp. by split_and!. }
    destruct (@PumpBuffer.consume_spec InitError.t (buffer p) n Hb) as (b1 & Hc & Hb1 & _ & Hq1).
    rewrite Hc in Hw. injection Hw as <- <- <-. split_and!; [done| |done|].
    + split; simpl; rewrite ?Hq1, ?Hout; try done; [| |by rewrite Hsink].
      * rewrite <- app_assoc, (app_assoc (take (N.to_nat n) (PumpBuffer.queue (buffer p)))). by rewrite take_drop.
      * rewrite Ht, len_app. rewrite <- (take_drop (N.to_nat n) (PumpBuffer.queue (buffer p))) at 1.
        rewrite len_app. lia.
    + intros _. simpl. rewrite Hq1, length_drop. destruct (PumpBuffer.queue (buffer p)); [done|]. simpl. lia.
  - rewrite <- Htk in Hp. destruct (decide (io_kind e = WouldBlock)); [injection Hw as <- <- <-; by split_and!|].
    destruct (decide (io_kind e = Interrupted)); [injection Hw as <- <- <-; split_and!; try done; intros; lia|].
    rewrite decide_False in Hw by tauto. injection Hw as <- <- <-. by split_and!.
Qed.

Lemma write_rounds_spec fuel left p rest s :
  length (outcomes s) + length (PumpBuffer.queue (buffer p)) < fuel →
  pumping left p rest (taken s) → unbroken s →
  ∃ p' s' res, write_rounds fuel p s = ((p', s'), res) ∧ res ≠ Panic ∧
    pumping left p' rest (taken s') ∧ unbroken s'.
Proof.
  revert p s; induction fuel as [|fuel IH]; intros p s Hf Hp Hu; [lia|]. simpl.
  pose proof (pm_buffer _ _ _ _ _ _ Hp) as Hb. rewrite (@PumpBuffer.buffer_empty InitError.t) by done. simpl.
  case_bool_decide as Hq; [by do 3 eexists; split_and!|].
  destruct (write_round p s) as [[p1 s1] next] eqn:Hw.
  destruct (write_round_spec left p rest s p1 s1 next) as (Hn & Hp1 & Hu1 & Hd); [done..|].
  destruct next as [[]|e|]; [|by do 3 eexists; split_and!..|done]. simpl. apply IH; [|done|done].
  specialize (Hd eq_refl). lia.
Qed.

Lemma write_available_spec left p rest s :
  pumping left p rest (taken s) → unbroken s →
  ∃ p' s' res, write_available p s = ((p', s'), res) ∧ res ≠ Panic ∧
    pumping left p' rest (taken s') ∧ unbroken s' ∧ (res = Ok () → settled left p').
Proof.
  intros Hp Hu. unfold write_available.
  destruct (write_rounds_spec (S (length (outcomes s) + length (PumpBuffer.bytes (buffer p)))) left p rest s)
    as (p' & s' & res & Hr & Hres & Hp' & Hu'); [|done|done|].
  { unfold PumpBuffer.queue. rewrite length_drop. lia. }
  rewrite Hr. destruct res as [[]|e|]; [|by do 3 eexists; split_and!|done]. simpl.
  destruct (close_sink_spec left p' rest _ Hp') as (p2 & -> & Hp2 & Hset). simpl.
  by do 3 eexists; split_and!.
Qed.
End pumping.
End PumpInvariant.

(** ** Driving a pump *)

(** The event loop calls one of the two when the file is ready. *)
Inductive turn : Set := ReadTurn | WriteTurn.

Definition take_turn (p : StreamPump.t) (r : reader) (s : writer) (o : turn)
    : (StreamPump.t * reader * writer) * result InitError.t () :=
  match o with
  | ReadTurn => let '((p, r), res) := StreamPump.read_available p r in ((p, r, s), res)
  | WriteTurn => let '((p, s), res) := StreamPump.write_available p s in ((p, r, s), res)
  end.

(** Any sequence of turns, up to the first error. *)
Fixpoint take_turns (p : StreamPump.t) (r : reader) (s : writer) (turns : list turn)
    : (StreamPump.t * reader * writer) * result InitError.t () :=
  match turns with
  | [] => ((p, r, s), Ok ())
  | o :: turns =>
      let '((p, r, s), res) := take_turn p r s o in
      try_with (p, r, s) res (λ _, take_turns p r s turns)
  end.

Lemma take_turns_spec stream announced left p r s turns :
  pumping stream announced left p (content r) (taken s) → unbroken s → settled left p →
  ∃ left' p' r' s' res, take_turns p r s turns = ((p', r', s'), res) ∧ res ≠ Panic ∧
    pumping stream announced left' p' (content r') (taken s') ∧ (res = Ok () → settled left' p').
Proof.
  revert left p r s; induction turns as [|[] turns IH]; intros left p r s Hp Hu Hset; simpl.
  - by exists left, p, r, s, (Ok ()).
  - destruct (read_available_spec stream announced left p r (taken s) Hp)
      as (left' & p' & r' & res & -> & Hres & Hp' & Hset').
    destruct res as [[]|e|]; [|by exists left', p', r', s, (Err e)|done]. simpl. apply (IH left'); auto.
  - destruct (write_available_spec stream announced left p (content r) s Hp Hu)
      as (p' & s' & res & -> & Hres & Hp' & Hu' & Hset').
    destruct res as [[]|e|]; [|by exists left, p', r, s', (Err e)|done]. simpl. apply (IH left); auto.
Qed.

Lemma pumping_start name announced p r s :
  StreamPump.new name false false = Ok p → taken s = [] →
  pumping (content r) announced announced (StreamPump.with_input_limit p announced) (content r) (taken s) ∧
  settled announced (StreamPump.with_input_limit p announced).
Proof.
  unfold StreamPump.new. rewrite bind_ok. intros (b & (Hb & Hq & _)%PumpBuffer.new_inv & [= <-]) ->.
  unfold StreamPump.with_input_limit, settled. destruct (decide (announced = 0%N)) as [->|Hne]; simpl.
  - split; [|done]. by split; simpl; rewrite ?Hq.
  - split; [|done]. split; simpl; rewrite ?Hq; try done. by rewrite bool_decide_eq_true_2.
Qed.

(** An idle pump has nothing more to do. *)
Lemma idle_settled stream announced left p rest d :
  pumping stream announced left p rest d → settled left p →
  StreamPump.wants_read p = Ok false → StreamPump.wants_write p = Ok false → StreamPump.sink p = false.
Proof.
  intros [Hb Hi He Hs Hl Ht Hsrc Hsnk] Hset Hr Hw. destruct (StreamPump.sink p) eqn:Hsink; [|done].
  unfold StreamPump.wants_write in Hw. rewrite Hsink, (@PumpBuffer.buffer_empty InitError.t) in Hw by done.
  simpl in Hw. injection Hw as Hq%negb_false_iff%bool_decide_eq_true.
  unfold StreamPump.wants_read in Hr. rewrite Hsrc in Hr. destruct (decide (left = 0%N)) as [Hz|Hne].
  { by rewrite (Hset Hz Hq) in Hsink. }
 
  rewrite bool_decide_eq_true_2, (@PumpBuffer.buffer_remaining InitError.t) in Hr by done. simpl in Hr.
  injection Hr as Hr%bool_decide_eq_false. exfalso. apply Hr. rewrite Hl, Hq. change (len []) with 0%N.
  destruct Hb as [[] _ _]. split; [lia|congruence].
Qed.

(** An announced input is delivered exactly or not ended at all.  A standard
    input pump with an announced length, whatever pieces, interruptions and failures
    its source gives, however little the sink takes at a time, and in whatever order
    the event loop serves it: it never panics; what the sink has is a prefix of the
    source and never more than announced; the sink is closed, which is the
    workload's end of input, only when it has exactly the announced bytes, so a
    truncated payload is never presented as a complete one; and as long as no error
    was returned the pump is idle only when it has closed the sink. *)
Theorem announced_input_exact name announced turns r s p p' r' s' res :
  StreamPump.new name false false = Ok p → taken s = [] → unbroken s →
  take_turns (StreamPump.with_input_limit p announced) r s turns = ((p', r', s'), res) →
  res ≠ Panic ∧ taken s' `prefix_of` content r ∧ (len (taken s') ≤ announced)%N ∧
  (StreamPump.sink p' = false → len (taken s') = announced) ∧
  (res = Ok () → len (taken s') = announced → StreamPump.sink p' = false) ∧
  (res = Ok () → StreamPump.wants_read p' = Ok false → StreamPump.wants_write p' = Ok false →
     StreamPump.sink p' = false).
Proof.
  intros Hnew Ht Hu Hrun. destruct (pumping_start name announced p r s Hnew Ht) as [Hp Hset].
  destruct (take_turns_spec _ _ _ _ _ _ turns Hp Hu Hset) as (left & ? & ? & ? & ? & Hrun' & Hres & Hp' & Hset').
  rewrite Hrun in Hrun'. injection Hrun' as <- <- <- <-.
  pose proof Hp' as [Hb Hi He Hs Hl Htot Hsrc Hsnk]. split_and!; [done| |lia| | |].
  - rewrite Hs. by eexists.
  - intros [-> Hq]%Hsnk. rewrite Htot, Hq, len_nil. lia.
  - intros Hok Hall. apply Hset'; [done|lia|]. apply len_zero. lia.
  - intros Hok. eapply idle_settled; [done|by apply Hset'].
Qed.

Lemma announced_input_exact_witness :
  let r := [Data (bs "hel"); Failure (io_error_of WouldBlock (Some 11%Z)); Data (bs "lo, world")] in
  let s := writer_file [Accept 2; Refuse (io_error_of Interrupted (Some 4%Z))] [] in
  ∃ p p' r' s', StreamPump.new (bs "stdin") false false = Ok p ∧
    take_turns (StreamPump.with_input_limit p 5) r s [ReadTurn; WriteTurn; ReadTurn; WriteTurn]
      = ((p', r', s'), Ok ()) ∧
    taken s' = bs "hello" ∧ StreamPump.sink p' = false.
Proof.
  set (r := [Data (bs "hel"); Failure (io_error_of WouldBlock (Some 11%Z)); Data (bs "lo, world")]).
  set (s := writer_file [Accept 2; Refuse (io_error_of Interrupted (Some 4%Z))] []).
  set (p := StreamPump.stream_pump (bs "stdin") true true (PumpBuffer.pump_buffer [] 0 65536) false false None).
  destruct (take_turns (StreamPump.with_input_limit p 5) r s [ReadTurn; WriteTurn; ReadTurn; WriteTurn])
    as [[[p' r'] s'] res] eqn:Hrun.
  assert (StreamPump.new (bs "stdin") false false = Ok p) as Hnew by reflexivity.
  assert (unbroken s) as Hu by (repeat constructor; discriminate).
  pose proof (announced_input_exact (bs "stdin") 5 [ReadTurn; WriteTurn; ReadTurn; WriteTurn] r s p p' r' s' res
    Hnew eq_refl Hu Hrun) as (_ & _ & _ & _ & Hclosed & _).
  vm_compute in Hrun. injection Hrun as <- <- <- <-. do 4 eexists. split; [exact Hnew|].
  split; [vm_compute; reflexivity|]. split; [reflexivity|]. by apply Hclosed.
Defined.
