(* ===== verification/Incremental.v ===== *)
(** * Incremental decoders

    The guest's init cuts two byte streams into records while they arrive: control
    frames (crates/pocket-init/src/control.rs) and supervisor events
    (crates/pocket-init/src/internal.rs).  Both decoders append what was read to a
    pending buffer and take complete records off its front.  The shape they share
    is here: the loop, the interface of its body with the laws a body obeys, and
    what follows from the laws however the stream is cut into pieces. *)

From S2P Require Import Prelude.

(** What one round of the loop finds at the front of the pending bytes. *)
Inductive round (Q F E : Type) : Type :=
| Wait
| Got (rest : bytes) (next : Q) (record : F)
| Bad (rest : bytes) (next : Q) (error : E)
| Crash.
Arguments Wait {Q F E}.
Arguments Got {Q F E} _ _ _.
Arguments Bad {Q F E} _ _ _.
Arguments Crash {Q F E}.

(** The [loop] around the body: [pending] and the rest [q] of the decoder's state.
    Every record takes at least one byte off, so as many rounds as there are bytes
    are enough; running out would be [Panic]. *)
Fixpoint drain {Q F E} (body : bytes → Q → round Q F E) (fuel : nat) (pending : bytes) (q : Q)
    (records : list F) : (bytes * Q) * result E (list F) :=
  match fuel with
  | O => ((pending, q), Panic)
  | S fuel =>
      match body pending q with
      | Wait => ((pending, q), Ok records)
      | Got rest q record => drain body fuel rest q (records ++ [record])
      | Bad rest q error => ((rest, q), Err error)
      | Crash => ((pending, q), Panic)
      end
  end.

(** A decoder: the cap [feed] checks before it appends, the body of its loop, and
    what it decodes.  [encodes q f b q'] says that at [q] the record [f] is the
    bytes [b], after which the decoder is at [q']. *)
Class Records (Q F E : Type) := {
  refuses : bytes → bytes → option E;
  body : bytes → Q → round Q F E;
  encodes : Q → F → bytes → Q → Prop;
}.

(** [feed], and what a caller does that feeds one chunk after the other. *)
Definition feed {Q F E} `{!Records Q F E} (self : bytes * Q) (b : bytes) : (bytes * Q) * result E (list F) :=
  match refuses self.1 b with
  | Some e => (self, Err e)
  | None => drain body (S (length (self.1 ++ b))) (self.1 ++ b) self.2 []
  end.

Fixpoint feed_all {Q F E} `{!Records Q F E} (self : bytes * Q) (chunks : list bytes)
    : (bytes * Q) * result E (list F) :=
  match chunks with
  | [] => (self, Ok [])
  | chunk :: chunks =>
      let '(self, records) := feed self chunk in
      try_with self records (λ records,
      let '(self, more) := feed_all self chunks in (self, more ≫= λ more, Ok (records ++ more)))
  end.

Class RecordsLaws (Q F E : Type) `{!Records Q F E} := {
  encodes_nonempty q f b q' : encodes q f b q' → b ≠ [];
  body_got q pending rest q' f :
    body pending q = Got rest q' f ↔ ∃ b, pending = b ++ rest ∧ encodes q f b q';
  body_wait_shorter q a b : a `prefix_of` b → body b q = Wait → body a q = Wait;
  body_wait_inside q f b q' a : encodes q f b q' → a `prefix_of` b → a ≠ b → body a q = Wait;
}.

(** Records in a row. *)
Inductive chain {Q F E} `{!Records Q F E} : Q → list F → bytes → Q → Prop :=
| chain_nil q : chain q [] [] q
| chain_cons q f b q1 fs bs q2 : encodes q f b q1 → chain q1 fs bs q2 → chain q (f :: fs) (b ++ bs) q2.

Section incremental.
Context {Q F E : Type} `{!Records Q F E} `{!RecordsLaws Q F E}.

Lemma chain_app q fs b q1 gs c q2 : chain q fs b q1 → chain q1 gs c q2 → chain q (fs ++ gs) (b ++ c) q2.
Proof.
  induction 1 as [|q f b q1' fs bs q2' Hf _ IH]; intros Hg; [done|]. simpl. rewrite <- app_assoc.
  eapply chain_cons; [done|]. by apply IH.
Qed.

(** What the loop returns was at the front, in order, and it stops where more is
    needed. *)
Lemma drain_sound fuel pending q acc rest q' fs :
  drain body fuel pending q acc = ((rest, q'), Ok fs) →
  ∃ gs b, fs = acc ++ gs ∧ pending = b ++ rest ∧ chain q gs b q' ∧ body rest q' = Wait.
Proof.
  revert pending q acc; induction fuel as [|fuel IH]; intros pending q acc; simpl; [done|].
  destruct (body pending q) as [|rest1 q1 f|rest1 q1 e|] eqn:Hb; [| |done|done].
  - intros [= <- <- <-]. exists [], []. rewrite app_nil_r. split_and!; [done|done|constructor|done].
  - intros (gs & b & -> & -> & Hc & Hw)%IH. apply body_got in Hb as (c & -> & He).
    exists (f :: gs), (c ++ b). rewrite <- !app_assoc. split_and!; [done|done|by econstructor|done].
Qed.

(** The front of a stream of records: the loop takes every record that is complete
    and waits for the rest. *)
Lemma drain_complete fuel pending more q fs b q' rest acc :
  chain q fs b q' → body rest q' = Wait → pending ++ more = b ++ rest → length pending < fuel →
  ∃ gs hs b' q1 pending', drain body fuel pending q acc = ((pending', q1), Ok (acc ++ gs)) ∧
    fs = gs ++ hs ∧ chain q1 hs b' q' ∧ pending' ++ more = b' ++ rest.
Proof.
  intros Hc Hw. revert fuel pending acc. induction Hc as [q|q f b q1 fs bs q2 He Hc IH];
    intros fuel pending acc Heq Hf; (destruct fuel as [|fuel]; [lia|]); simpl.
  { rewrite (body_wait_shorter q pending rest) by (by (exists more) || done).
    exists [], [], [], q, pending. rewrite app_nil_r. split_and!; [done|done|constructor|done]. }
  rewrite <- app_assoc in Heq. destruct (decide (length b ≤ length pending)) as [Hl|Hl].
  - assert (∃ rest1, pending = b ++ rest1) as [rest1 ->].
    { exists (drop (length b) pending). apply (f_equal (take (length b))) in Heq.
      rewrite take_app_le, take_app_length in Heq by done. by rewrite <- Heq at 1; rewrite take_drop. }
    rewrite (proj2 (body_got q (b ++ rest1) rest1 q1 f)) by by (exists b).
    rewrite <- app_assoc in Heq. apply (inj (app b)) in Heq. pose proof (encodes_nonempty _ _ _ _ He) as Hne.
    destruct (IH Hw fuel rest1 (acc ++ [f])) as (gs & hs & b' & q1' & pending' & -> & -> & Hhs & Heq'); [done| |].
    { rewrite length_app in Hf. destruct b; [done|]. simpl in Hf. lia. }
    exists (f :: gs), hs, b', q1', pending'. by rewrite <- app_assoc.
  - assert (pending `prefix_of` b) as Hp.
    { exists (drop (length pending) b). apply (f_equal (take (length pending))) in Heq.
      rewrite take_app_length, take_app_le in Heq by lia. by rewrite Heq at 1; rewrite take_drop. }
    rewrite (body_wait_inside q f b q1 pending) by (done || by intros ->).
    exists [], (f :: fs), (b ++ bs), q, pending. rewrite app_nil_r, <- app_assoc.
    split_and!; [done|done|by econstructor|done].
Qed.

Lemma feed_all_sound p q chunks p' q' fs :
  body p q = Wait → feed_all (p, q) chunks = ((p', q'), Ok fs) →
  ∃ b, p ++ concat chunks = b ++ p' ∧ chain q fs b q' ∧ body p' q' = Wait.
Proof.
  revert p q fs; induction chunks as [|c chunks IH]; intros p q fs Hw; cbn [feed_all].
  { intros [= -> -> <-]. exists []. rewrite app_nil_r. split_and!; [done|constructor|done]. }
  unfold feed. cbn [fst snd]. destruct (refuses p c); [done|].
  destruct (drain body _ _ _ _) as [[p1 q1] r] eqn:Hf. destruct r as [gs|e|]; [|done..]. cbn [try_with].
  apply drain_sound in Hf as (gs' & b & -> & Hp & Hc & Hw1).
  destruct (feed_all _ chunks) as [self more] eqn:Hm. destruct more as [hs|e|]; [|done..]. intros [= -> <-].
  apply IH in Hm as (b2 & Hp2 & Hc2 & Hw2); [|done]. exists (b ++ b2). cbn [concat].
  rewrite app_assoc, Hp, <- !app_assoc, Hp2. split_and!; [done|by eapply chain_app|done].
Qed.

(** Nothing more comes: a buffer that waits holds no complete record. *)
Lemma wait_holds_nothing p q fs b rest q' :
  body p q = Wait → p = b ++ rest → chain q fs b q' → fs = [] ∧ b = [] ∧ q = q'.
Proof.
  intros Hw -> Hc. destruct Hc as [q|q f b q1 fs bs q2 He _]; [done|]. exfalso.
  rewrite <- app_assoc in Hw. apply (body_wait_shorter q b) in Hw; [|by eexists].
  assert (body b q = Got [] q1 f) as Hg by (apply body_got; exists b; by rewrite app_nil_r). congruence.
Qed.

(** [B] bounds what is ever pending together with the next chunk. *)
Lemma feed_all_complete B p q chunks stream rest q' fs :
  (∀ p q c, c ∈ chunks → body p q = Wait → len p + len c ≤ B → refuses p c = None)%N →
  (len p + len (concat chunks) ≤ B)%N → body p q = Wait →
  p ++ concat chunks = stream ++ rest → chain q fs stream q' → body rest q' = Wait →
  feed_all (p, q) chunks = ((rest, q'), Ok fs).
Proof.
  revert p q fs stream; induction chunks as [|c chunks IH]; intros p q fs stream Hroom HB Hw Heq Hch Hr.
  { cbn [concat] in Heq. rewrite app_nil_r in Heq.
    destruct (wait_holds_nothing p q fs stream rest q') as (-> & -> & ->); [done..|]. by rewrite Heq. }
  cbn [concat] in *. rewrite app_assoc in Heq. rewrite len_app in HB. cbn [feed_all]. unfold feed. cbn [fst snd].
  rewrite (Hroom p q c) by ((by left) || done || lia).
  destruct (drain_complete (S (length (p ++ c))) (p ++ c) (concat chunks) q fs stream q' rest [])
    as (gs & hs & b' & q1 & p1 & Hd & -> & Hch' & Heq'); [done|done|done|lia|]. rewrite Hd. cbn [try_with].
  apply drain_sound in Hd as (_ & b & _ & Hp & _ & Hw1).
  assert (len p1 + len (concat chunks) ≤ B)%N as HB1.
  { apply (f_equal len) in Hp. rewrite !len_app in Hp. lia. }
  rewrite (IH p1 q1 hs b'); [done| |done..]. intros ? ? ? ?. apply Hroom. by right.
Qed.
End incremental.
