(* ===== verification/InitControl.v ===== *)
(** * Control frames in the workload guest: crates/pocket-init/src/control.rs

    [ControlFrameDecoder] cuts the control stream into frames while PID 1 does other
    things. *)

From S2P Require Import Prelude ProtocolError Frame Incremental.

Definition MAX_READ_CHUNK : N := 8192.
Definition MAX_PENDING : N := HEADER_LEN + MAX_CONTROL_PAYLOAD + MAX_READ_CHUNK.

(** One round of the [loop] in [feed]. *)
Definition control_round (pending : bytes) (expected_sequence : N) : round N RawFrame ProtocolError :=
  if decide (len pending < HEADER_LEN)%N then Wait else
  match slice_range pending 0 HEADER_LEN ≫= from_bytes with
  | Panic => Crash
  | Err e => Bad pending expected_sequence e
  | Ok header =>
      match checked_add HEADER_LEN (payload_len header) with
      | None => Bad pending expected_sequence (PayloadTooLarge (payload_len header) MAX_CONTROL_PAYLOAD)
      | Some total =>
          if decide (len pending < total)%N then Wait else
          let encoded := take (N.to_nat total) pending in
          let rest := drop (N.to_nat total) pending in
          match decode_frame_exact encoded expected_sequence with
          | Panic => Crash
          | Err e => Bad rest expected_sequence e
          | Ok frame =>
              match checked_add expected_sequence 1 with
              | None => Bad rest expected_sequence SequenceExhausted
              | Some next => Got rest next frame
              end
          end
      end
  end.

(** The check at the start of [feed]. *)
Definition control_refuses (pending b : bytes) : option ProtocolError :=
  if decide ((MAX_READ_CHUNK < len b)%N ∨ (MAX_PENDING < saturating_add (len pending) (len b))%N)
  then Some (PayloadTooLarge (saturating_add (len pending) (len b)) MAX_PENDING) else None.

(** A frame at a sequence number, and the number after it. *)
Definition frame_at (q : N) (f : RawFrame) (b : bytes) (q' : N) : Prop :=
  decode_frame_exact b q = Ok f ∧ q' = (q + 1)%N ∧ (q' < u64_bound)%N.

#[export] Instance control_records : Records N RawFrame ProtocolError :=
  {| refuses := control_refuses; body := control_round; encodes := frame_at |}.

Module ControlFrameDecoder.
Record t : Set := control_frame_decoder { pending : bytes; expected_sequence : N }.

Definition new (expected_sequence : N) : t := control_frame_decoder [] expected_sequence.

Definition feed (self : t) (b : bytes) : t * result ProtocolError (list RawFrame) :=
  let '((pending, expected_sequence), frames) := Incremental.feed (pending self, expected_sequence self) b in
  (control_frame_decoder pending expected_sequence, frames).

Definition has_pending (self : t) : bool := bool_decide (pending self ≠ []).

(** What [read_control_available] does with the chunks it reads. *)
Definition feed_all (self : t) (chunks : list bytes) : t * result ProtocolError (list RawFrame) :=
  let '((pending, expected_sequence), frames) := Incremental.feed_all (pending self, expected_sequence self) chunks in
  (control_frame_decoder pending expected_sequence, frames).
End ControlFrameDecoder.

(** ** What a round finds *)

(** Too few bytes to decide about a frame: fewer than a header, or a valid header with
    less than the payload that it announces.  The decoder keeps them without looking
    further: a header is checked when all its bytes are there, and its sequence number
    when the frame is, so they need not be the beginning of an acceptable frame. *)
Definition undecided (b : bytes) : Prop :=
  (len b < HEADER_LEN)%N ∨
  ∃ h, from_bytes (take (N.to_nat HEADER_LEN) b) = Ok h ∧ (len b < HEADER_LEN + payload_len h)%N.

Lemma frame_at_bytes q f b q' :
  frame_at q f b q' → wf_header (header f) ∧ b = to_bytes (header f) ++ payload f ∧
    payload_len (header f) = len (payload f) ∧ sequence (header f) = q.
Proof.
  intros (Hd & _). apply decode_frame_exact_Ok in Hd as (Hq & (Hl & ->)%encode_frame_Ok & Hh).
  rewrite Hh. split_and!; [by constructor|done|done|done].
Qed.

Lemma header_slice (pending : bytes) :
  (HEADER_LEN ≤ len pending)%N →
  @slice_range ProtocolError byte pending 0 HEADER_LEN = Ok (take (N.to_nat HEADER_LEN) pending).
Proof. intros Hl. unfold slice_range. rewrite decide_True by lia. by rewrite drop_0, N.sub_0_r. Qed.

(** A round on a buffer whose header is complete. *)
Lemma control_round_header pending q h :
  (HEADER_LEN ≤ len pending)%N → from_bytes (take (N.to_nat HEADER_LEN) pending) = Ok h →
  control_round pending q =
  if decide (len pending < HEADER_LEN + payload_len h)%N then Wait else
  let total := N.to_nat (HEADER_LEN + payload_len h) in
  match decode_frame_exact (take total pending) q with
  | Panic => Crash
  | Err e => Bad (drop total pending) q e
  | Ok frame => match checked_add q 1 with
                | None => Bad (drop total pending) q SequenceExhausted
                | Some next => Got (drop total pending) next frame
                end
  end.
Proof.
  intros Hl Hh. pose proof Hh as [_ Hwf]%from_bytes_Ok. unfold control_round. rewrite decide_False by lia.
  rewrite header_slice by done. simpl. rewrite Hh. by rewrite header_total by done.
Qed.

Lemma control_round_wait pending q : control_round pending q = Wait ↔ undecided pending.
Proof.
  unfold undecided. destruct (decide (len pending < HEADER_LEN)%N) as [Hs|Hl].
  { unfold control_round. rewrite decide_True by done. naive_solver. }
  destruct (from_bytes (take (N.to_nat HEADER_LEN) pending)) as [h|e|] eqn:Hh.
  - rewrite (control_round_header pending q h) by (done || lia). case_decide as Hc; [naive_solver|].
    cbv zeta. split; [by repeat case_match|]. intros [?|(h' & [= <-] & ?)]; lia.
  - unfold control_round. rewrite decide_False, header_slice by lia. simpl. rewrite Hh. naive_solver.
  - by apply from_bytes_no_panic in Hh.
Qed.

Lemma control_round_got q pending rest q' f :
  control_round pending q = Got rest q' f ↔ ∃ b, pending = b ++ rest ∧ frame_at q f b q'.
Proof.
  split.
  - intros Hr. destruct (decide (len pending < HEADER_LEN)%N) as [Hs|Hl].
    { unfold control_round in Hr. by rewrite decide_True in Hr. }
    destruct (from_bytes (take (N.to_nat HEADER_LEN) pending)) as [h|e|] eqn:Hh.
    + rewrite (control_round_header pending q h) in Hr by (done || lia). case_decide; [done|]. cbv zeta in Hr.
      destruct (decode_frame_exact _ _) as [frame| |] eqn:Hd; [|done..].
      destruct (checked_add q 1) as [next|] eqn:Hc; [|done]. apply checked_add_Some in Hc as [-> Hb].
      injection Hr as <- <- <-. eexists. split; [by rewrite take_drop|done].
    + unfold control_round in Hr. rewrite decide_False, header_slice in Hr by lia. simpl in Hr. by rewrite Hh in Hr.
    + by apply from_bytes_no_panic in Hh.
  - intros (b & -> & Hf). pose proof (frame_at_bytes _ _ _ _ Hf) as (Hwf & Hb & Hp & Hs).
    assert (len b = HEADER_LEN + payload_len (header f))%N as Hl by (rewrite Hb, len_app, len_to_bytes; lia).
    rewrite (control_round_header _ q (header f)).
    + rewrite decide_False by (rewrite len_app; lia). cbv zeta. rewrite <- Hl.
      replace (N.to_nat (len b)) with (length b) by (unfold len; lia).
      rewrite take_app_length, drop_app_length. destruct Hf as (-> & -> & Hn).
      by rewrite (proj2 (checked_add_Some q 1 (q + 1)%N)).
    + rewrite len_app. lia.
    + rewrite Hb, <- app_assoc. by apply decode_header_of_frame.
Qed.

(** The header a buffer starts with is the one any longer buffer starts with. *)
Lemma undecided_prefix a b : a `prefix_of` b → undecided b → undecided a.
Proof.
  intros [k ->] Hb. destruct (decide (len a < HEADER_LEN)%N) as [|Hl]; [by left|].
  assert (N.to_nat HEADER_LEN ≤ length a) as Hl' by (unfold len in Hl; lia).
  right. destruct Hb as [Hb|(h & Hh & Hb)]; [rewrite len_app in Hb; lia|].
  exists h. rewrite take_app_le in Hh by done. split; [done|]. rewrite len_app in Hb. lia.
Qed.

Lemma frame_part_undecided q f b q' a : frame_at q f b q' → a `prefix_of` b → a ≠ b → undecided a.
Proof.
  intros Hf [k ->] Hne. pose proof (frame_at_bytes _ _ _ _ Hf) as (Hwf & Hb & Hp & _).
  assert (len (a ++ k) = HEADER_LEN + payload_len (header f))%N as Hl by (rewrite Hb, len_app, len_to_bytes; lia).
  rewrite len_app in Hl. assert (len k ≠ 0%N).
  { rewrite len_zero. intros ->. by rewrite app_nil_r in Hne. }
  destruct (decide (len a < HEADER_LEN)%N) as [|Hs]; [by left|]. right. exists (header f). split; [|lia].
  assert (N.to_nat HEADER_LEN ≤ length a) as Hl' by (unfold len in Hs; lia).
  rewrite <- (take_app_le a k) by done. rewrite Hb. by apply decode_header_of_frame.
Qed.

#[export] Instance control_records_laws : RecordsLaws N RawFrame ProtocolError.
Proof.
  split; simpl.
  - intros q f b q' (_ & -> & _)%frame_at_bytes. intros [Hb _]%app_nil. by apply (f_equal length) in Hb.
  - intros. apply control_round_got.
  - intros q a b Hp Hb. apply control_round_wait. apply control_round_wait in Hb. by eapply undecided_prefix.
  - intros. apply control_round_wait. by eapply frame_part_undecided.
Qed.

(** A pending buffer leaves room for one more read. *)
Lemma undecided_room (b c : bytes) :
  undecided b → (len c ≤ MAX_READ_CHUNK)%N →
  ¬ ((MAX_READ_CHUNK < len c)%N ∨ (MAX_PENDING < saturating_add (len b) (len c))%N).
Proof.
  unfold MAX_PENDING, saturating_add. intros Hb Hc [?|Hp]; [lia|].
  assert (len b < HEADER_LEN + MAX_CONTROL_PAYLOAD)%N; [|lia].
  destruct Hb as [Hb|(h & [_ []]%from_bytes_Ok & Hb)]; [unfold HEADER_LEN, MAX_CONTROL_PAYLOAD in *|]; lia.
Qed.

(** C36: the guest's control decoder is exact however the stream arrives.  Fed with
    chunks of at most the read size, it succeeds with some frames and some bytes
    pending if and only if the chunks, put together, are these frames one after the
    other, each the unique encoding of its frame with the next sequence number,
    followed by the pending bytes, which are fewer than a header, or a valid header
    (of whatever sequence number) with less than the payload that it announces.  So
    the frames do not depend on how the stream was cut, and the cap on pending bytes
    never refuses a well-formed stream. *)
Theorem control_decoder_exact q chunks fs pending q' :
  Forall (λ c : bytes, len c ≤ MAX_READ_CHUNK)%N chunks →
  ControlFrameDecoder.feed_all (ControlFrameDecoder.new q) chunks
    = (ControlFrameDecoder.control_frame_decoder pending q', Ok fs) ↔
  ∃ stream, concat chunks = stream ++ pending ∧ chain q fs stream q' ∧ undecided pending.
Proof.
  intros Hcs. assert (body [] q = Wait) as Hnil by (apply control_round_wait; by left).
  unfold ControlFrameDecoder.feed_all. cbn [ControlFrameDecoder.pending ControlFrameDecoder.new
    ControlFrameDecoder.expected_sequence]. split.
  - destruct (feed_all _ _) as [[p1 q1] r] eqn:Hf. intros [= -> -> ->].
    apply feed_all_sound in Hf as (b & ? & ? & Hw); [|done]. exists b. split_and!; [done|done|by apply control_round_wait in Hw].
  - intros (stream & Heq & Hch & Hi). rewrite (feed_all_complete (len (concat chunks)) [] q chunks stream pending q' fs);
      [done| |done|done|done|done|by apply control_round_wait].
    intros p q1 c Hc Hw _. apply control_round_wait in Hw. cbn. unfold control_refuses.
    apply decide_False. apply undecided_room; [done|]. by eapply (proj1 (Forall_forall _ _)) in Hcs.
Qed.

(** Two frames in three pieces, the first cut inside its header. *)
Lemma control_decoder_exact_witness :
  let one := to_bytes (frame_header MessageKind.Signal 0 3 7) ++ bs "one" in
  let two := to_bytes (frame_header MessageKind.Resize 0 3 8) ++ bs "two" in
  ∃ stream, concat [take 11 one; drop 11 one ++ take 25 two; drop 25 two] = stream ++ [] ∧
    chain 7%N [raw_frame (frame_header MessageKind.Signal 0 3 7) (bs "one");
               raw_frame (frame_header MessageKind.Resize 0 3 8) (bs "two")] stream 9%N ∧ undecided [].
Proof.
  set (one := to_bytes (frame_header MessageKind.Signal 0 3 7) ++ bs "one").
  set (two := to_bytes (frame_header MessageKind.Resize 0 3 8) ++ bs "two").
  apply (control_decoder_exact 7 [take 11 one; drop 11 one ++ take 25 two; drop 25 two]).
  - repeat constructor; vm_compute; discriminate.
  - vm_compute. reflexivity.
Defined.
