(* ===== verification/InitEvents.v ===== *)
(** * Supervisor events in the workload guest: crates/pocket-init/src/internal.rs

    The namespace supervisor tells PID 1 over a pipe what became of the workload:
    [InternalEvent::encode], [decode_one] and [InternalEventDecoder]. *)

From S2P Require Import Prelude Utf8 ProtocolError Frame InitError Incremental.

Definition INTERNAL_HEADER_LEN : N := 5.
Definition MAX_INTERNAL_PAYLOAD : N := 4096.

(** [i32::to_be_bytes] and [i32::from_be_bytes]: two's complement. *)
Definition i32_to_be (z : Z) : bytes := to_be 4 (Z.to_N (z mod 2^32)).
Definition i32_from_be (b : bytes) : Z :=
  let n := Z.of_N (from_be b) in if decide (n < 2^31)%Z then n else (n - 2^32)%Z.
Definition is_i32 (z : Z) : Prop := (- 2^31 ≤ z < 2^31)%Z.

Definition malformed : InitError.t :=
  InitError.Contract "internal-event" (bs "malformed namespace supervisor event").

Module InternalEvent.
Inductive t : Set :=
| Ready (outer_pid : Z)
| Exit (code signal : option N) (namespace_clean : bool)
| Error (errno : option Z) (diagnostic : bytes).

Definition flag (b : bool) : byte := if b then x01 else x00.

(** The [match] that gives tag and payload. *)
Definition payload (self : t) : result InitError.t (byte * bytes) :=
  match self with
  | Ready outer_pid => Ok (x01, i32_to_be outer_pid)
  | Exit code signal namespace_clean =>
      status ← match code, signal with
               | Some code, None => Ok (x00 :: to_be 2 code)
               | None, Some signal => Ok (x01 :: to_be 2 signal)
               | _, _ => Err (InitError.Contract "internal-event"
                                (bs "exit event requires exactly one status"))
               end;
      Ok (x02, status ++ [flag namespace_clean])
  | Error errno diagnostic =>
      if decide (MAX_INTERNAL_PAYLOAD - 5 < len diagnostic)%N
      then Err (InitError.Contract "internal-event" (bs "internal diagnostic exceeds hard cap")) else
      Ok (x03, i32_to_be (default 0%Z errno) ++ [flag (bool_decide (is_Some errno))] ++ diagnostic)
  end.

Definition encode (self : t) : result InitError.t bytes :=
  '(tag, payload) ← payload self;
  if decide (MAX_INTERNAL_PAYLOAD < len payload)%N
  then Err (InitError.Contract "internal-event" (bs "internal payload exceeds hard cap")) else
  if decide (u32_bound ≤ len payload)%N
  then Err (InitError.Contract "internal-event" (bs "internal payload length overflow")) else
  Ok (tag :: to_be 4 (len payload) ++ payload).
End InternalEvent.

(** [match payload[3] { 0 => .., 1 => .. }] *)
Definition decode_flag (b : byte) : result InitError.t bool :=
  if decide (b = x00) then Ok false else if decide (b = x01) then Ok true else Err malformed.

Definition decode_exit (payload : bytes) : result InitError.t InternalEvent.t :=
  p1 ← index payload 1; p2 ← index payload 2;
  let value := from_be [p1; p2] in
  p3 ← index payload 3; clean ← decode_flag p3;
  p0 ← index payload 0;
  if decide (p0 = x00 ∧ (value ≤ 255)%N) then Ok (InternalEvent.Exit (Some value) None clean) else
  if decide (p0 = x01 ∧ (1 ≤ value ≤ 64)%N) then Ok (InternalEvent.Exit None (Some value) clean) else
  Err malformed.

Definition decode_error (payload : bytes) : result InitError.t InternalEvent.t :=
  p0 ← index payload 0; p1 ← index payload 1; p2 ← index payload 2; p3 ← index payload 3;
  let raw_errno := i32_from_be [p0; p1; p2; p3] in
  p4 ← index payload 4;
  errno ← (if decide (p4 = x00 ∧ raw_errno = 0%Z) then Ok None else
           if decide (p4 = x01 ∧ (0 < raw_errno)%Z) then Ok (Some raw_errno) else Err malformed);
  text ← slice_range payload 5 (len payload);
  if decide (valid_utf8 text) then Ok (InternalEvent.Error errno text) else Err malformed.

Definition decode_one (tag : byte) (payload : bytes) : result InitError.t InternalEvent.t :=
  if decide (tag = x01 ∧ len payload = 4%N) then
    p0 ← index payload 0; p1 ← index payload 1; p2 ← index payload 2; p3 ← index payload 3;
    Ok (InternalEvent.Ready (i32_from_be [p0; p1; p2; p3]))
  else if decide (tag = x02 ∧ len payload = 4%N) then decode_exit payload
  else if decide (tag = x03 ∧ (5 ≤ len payload)%N) then decode_error payload
  else Err malformed.

(** One round of the [loop] in [feed]. *)
Definition event_round (pending : bytes) (q : ()) : round () InternalEvent.t InitError.t :=
  if decide (len pending < INTERNAL_HEADER_LEN)%N then Wait else
  match (p1 ← index pending 1; p2 ← index pending 2; p3 ← index pending 3; p4 ← index pending 4;
         Ok (from_be [p1; p2; p3; p4])) with
  | Panic => Crash
  | Err e => Bad pending q e
  | Ok length =>
      if decide (MAX_INTERNAL_PAYLOAD < length)%N
      then Bad pending q (InitError.Contract "internal-event"
             (bs "declared internal payload exceeds hard cap")) else
      let total := (INTERNAL_HEADER_LEN + length)%N in
      if decide (len pending < total)%N then Wait else
      let frame := take (N.to_nat total) pending in
      let rest := drop (N.to_nat total) pending in
      match (tag ← index frame 0;
             payload ← slice_range frame INTERNAL_HEADER_LEN (len frame);
             decode_one tag payload) with
      | Panic => Crash
      | Err e => Bad rest q e
      | Ok event => Got rest q event
      end
  end.

(** ** Events a supervisor can mean *)
Definition event_ok (e : InternalEvent.t) : Prop :=
  match e with
  | InternalEvent.Ready pid => is_i32 pid
  | InternalEvent.Exit (Some code) None _ => (code ≤ 255)%N
  | InternalEvent.Exit None (Some signal) _ => (1 ≤ signal ≤ 64)%N
  | InternalEvent.Exit _ _ _ => False
  | InternalEvent.Error errno diagnostic =>
      valid_utf8 diagnostic ∧ (len diagnostic ≤ MAX_INTERNAL_PAYLOAD - 5)%N ∧
      match errno with Some e => (0 < e < 2^31)%Z | None => True end
  end.

Definition event_at (q : ()) (e : InternalEvent.t) (b : bytes) (q' : ()) : Prop :=
  event_ok e ∧ InternalEvent.encode e = Ok b.

(** The check at the start of [feed]. *)
Definition event_refuses (pending b : bytes) : option InitError.t :=
  let maximum_pending := (INTERNAL_HEADER_LEN + MAX_INTERNAL_PAYLOAD)%N in
  if decide (maximum_pending < saturating_add (len pending) (len b))%N
  then Some (InitError.Contract "internal-event" (bs "pending internal event exceeds hard cap")) else None.

#[export] Instance event_records : Records () InternalEvent.t InitError.t :=
  {| refuses := event_refuses; body := event_round; encodes := event_at |}.

Module InternalEventDecoder.
Record t : Set := internal_event_decoder { pending : bytes }.

Definition new : t := internal_event_decoder [].

Definition feed (self : t) (b : bytes) : t * result InitError.t (list InternalEvent.t) :=
  let '((pending, _), events) := Incremental.feed (pending self, ()) b in
  (internal_event_decoder pending, events).

Definition has_pending (self : t) : bool := bool_decide (pending self ≠ []).

(** What [read_event_available] does with the chunks it reads. *)
Definition feed_all (self : t) (chunks : list bytes) : t * result InitError.t (list InternalEvent.t) :=
  let '((pending, _), events) := Incremental.feed_all (pending self, ()) chunks in
  (internal_event_decoder pending, events).
End InternalEventDecoder.

Lemma i32_round_trip z : is_i32 z → i32_from_be (i32_to_be z) = z.
Proof.
  unfold is_i32, i32_from_be, i32_to_be. intros Hz.
  rewrite from_to_be by (change (256 ^ N.of_nat 4)%N with (2^32)%N; lia_mod).
  rewrite Z2N.id by lia_mod. case_decide; lia_mod.
Qed.

Lemma i32_from_be_bound b : length b = 4 → is_i32 (i32_from_be b) ∧ i32_to_be (i32_from_be b) = b.
Proof.
  intros Hl. assert (from_be b < 2^32)%N as Hb.
  { pose proof (from_be_bound b) as Hb. unfold len in Hb. by rewrite Hl in Hb. }
  unfold is_i32, i32_from_be, i32_to_be.
  assert (∀ z, (z mod 2^32 = Z.of_N (from_be b))%Z → to_be 4 (Z.to_N (z mod 2^32)) = b) as Hto.
  { intros z ->. rewrite N2Z.id, <- Hl. apply to_from_be. }
  case_decide; (split; [lia|apply Hto; lia_mod]).
Qed.

(** ** One encoding per event *)
Lemma decode_ready payload e :
  len payload = 4%N →
  (p0 ← index payload 0; p1 ← index payload 1; p2 ← index payload 2; p3 ← index payload 3;
   Ok (InternalEvent.Ready (i32_from_be [p0; p1; p2; p3]))) = @Ok InitError.t _ e ↔
  ∃ pid, e = InternalEvent.Ready pid ∧ is_i32 pid ∧ payload = i32_to_be pid.
Proof.
  intros Hl%(f_equal N.to_nat). unfold len in Hl. rewrite Nat2N.id in Hl.
  destruct payload as [|b0 [|b1 [|b2 [|b3 [|]]]]]; try done. simpl. rewrite ok_inj. split.
  - intros <-. destruct (i32_from_be_bound [b0; b1; b2; b3] eq_refl) as [? Hb]. by eexists.
  - intros (pid & -> & ? & ->). by rewrite i32_round_trip.
Qed.

Lemma decode_flag_Ok b f : decode_flag b = Ok f ↔ b = InternalEvent.flag f.
Proof. unfold decode_flag. repeat case_decide; destruct f; naive_solver. Qed.

Lemma from_be_2 b0 b1 : (from_be [b0; b1] < u16_bound)%N ∧ to_be 2 (from_be [b0; b1]) = [b0; b1].
Proof. split; [apply (from_be_bound [b0; b1])|apply (to_from_be [b0; b1])]. Qed.

Lemma decode_exit_Ok payload e :
  len payload = 4%N →
  decode_exit payload = Ok e ↔
  ∃ code signal clean, e = InternalEvent.Exit code signal clean ∧ event_ok e ∧
    InternalEvent.payload e = Ok (x02, payload).
Proof.
  intros Hl%(f_equal N.to_nat). unfold len in Hl. rewrite Nat2N.id in Hl.
  destruct payload as [|b0 [|b1 [|b2 [|b3 [|]]]]]; try done. unfold decode_exit. simpl.
  destruct (from_be_2 b1 b2) as [Hb Hto]. rewrite bind_ok. setoid_rewrite decode_flag_Ok. split.
  - intros (clean & -> & H). destruct (decide _) as [[-> Hv]|_].
    { injection H as <-. do 3 eexists. split_and!; [done|exact Hv|]. cbn [InternalEvent.payload]. by rewrite Hto. }
    destruct (decide _) as [[-> Hv]|_]; [|done]. injection H as <-. do 3 eexists.
    split_and!; [done|exact Hv|]. cbn [InternalEvent.payload]. by rewrite Hto.
  - intros (code & signal & clean & -> & Hok & Hp).
    assert (∀ tag v, (v < u16_bound)%N → tag :: to_be 2 v ++ [InternalEvent.flag clean] = [b0; b1; b2; b3] →
              b0 = tag ∧ from_be [b1; b2] = v ∧ b3 = InternalEvent.flag clean) as Hinv.
    { intros tag v Hv Heq. change (to_be 2 v) with [byte_of_N (v / 256); byte_of_N v] in Heq.
      injection Heq as <- <- <- <-. split_and!; [done| |done].
      change [byte_of_N (v / 256); byte_of_N v] with (to_be 2 v). by apply from_to_be. }
    exists clean. apply (f_equal (λ r, match r with Ok (_, l) => l | _ => [] end)) in Hp.
    destruct code as [code|], signal as [signal|]; try done; cbn [event_ok] in Hok;
      apply Hinv in Hp as (-> & -> & ->); try (unfold u16_bound; lia); (split; [done|]).
    + by rewrite decide_True.
    + rewrite decide_False by (intros [? _]; done). by rewrite decide_True.
Qed.

Lemma decode_error_Ok payload e :
  (5 ≤ len payload ≤ MAX_INTERNAL_PAYLOAD)%N →
  decode_error payload = Ok e ↔
  ∃ errno diagnostic, e = InternalEvent.Error errno diagnostic ∧ event_ok e ∧
    InternalEvent.payload e = Ok (x03, payload).
Proof.
  intros Hl. destruct payload as [|b0 [|b1 [|b2 [|b3 [|b4 text]]]]]; try (unfold len in Hl; simpl in Hl; lia).
  unfold decode_error. simpl.
  assert (slice_range (b0 :: b1 :: b2 :: b3 :: b4 :: text) 5 (len (b0 :: b1 :: b2 :: b3 :: b4 :: text))
          = @Ok InitError.t _ text) as ->.
  { unfold slice_range. rewrite decide_True by lia. simpl. f_equal. apply take_ge. unfold len. simpl. lia. }
  rewrite !len_cons in Hl. simpl.
  destruct (i32_from_be_bound [b0; b1; b2; b3] eq_refl) as [Hi Hto]. unfold is_i32 in Hi. rewrite bind_ok. split.
  - intros (errno & Herr & H). case_decide as Hu; [|done]. injection H as <-. do 2 eexists. split; [done|].
    assert (MAX_INTERNAL_PAYLOAD - 5 < len text → False)%N by lia.
    destruct (decide _) as [[-> Hz]|_].
    { injection Herr as <-. split; [by split_and!; [|lia|]|]. cbn [InternalEvent.payload].
      rewrite decide_False by done. change (default 0%Z None) with 0%Z. by rewrite <- Hz, Hto. }
    destruct (decide _) as [[-> Hz]|_]; [|done]. injection Herr as <-. split; [by split_and!; [|lia|lia..]|].
    cbn [InternalEvent.payload]. rewrite decide_False by done.
    change (default 0%Z (Some (i32_from_be [b0; b1; b2; b3]))) with (i32_from_be [b0; b1; b2; b3]). by rewrite Hto.
  - intros (errno & diagnostic & -> & (Hu & Hd & He) & Hp). cbn [InternalEvent.payload] in Hp.
    rewrite decide_False in Hp by lia. apply (f_equal (λ r, match r with Ok (_, l) => l | _ => [] end)) in Hp. set (z := default 0%Z errno) in *.
    assert (i32_to_be z = [b0; b1; b2; b3] ∧ b4 = InternalEvent.flag (bool_decide (is_Some errno)) ∧ text = diagnostic)
      as (Hz & -> & ->).
    { pose proof (length_to_be 4 (Z.to_N (z mod 2^32))) as Hlen. fold (i32_to_be z) in Hlen.
      destruct (i32_to_be z) as [|c0 [|c1 [|c2 [|c3 [|]]]]]; try done. by simplify_eq/=. }
    assert (is_i32 z) as Hiz by (unfold is_i32, z; destruct errno; simpl; lia).
    rewrite <- Hz, i32_round_trip by done. exists errno. rewrite (decide_True (P:=valid_utf8 _)) by done. split; [|done].
    destruct errno as [v|]; [|by rewrite decide_True].
    change (InternalEvent.flag (bool_decide (is_Some (Some v)))) with x01.
    rewrite decide_False by (intros [? _]; done). by rewrite decide_True by (unfold z; simpl; split; [done|lia]).
Qed.

Lemma ok_pair_inj {E A B} (a c : A) (b d : B) : @Ok E _ (a, b) = Ok (c, d) → a = c ∧ b = d.
Proof. by intros [= -> ->]. Qed.

Lemma payload_tag e tag payload :
  InternalEvent.payload e = Ok (tag, payload) →
  tag = match e with InternalEvent.Ready _ => x01 | InternalEvent.Exit _ _ _ => x02 | InternalEvent.Error _ _ => x03 end.
Proof.
  destruct e as [pid|[c|] [s|] clean|errno d]; cbn [InternalEvent.payload]; try (by intros [= <- _]); try done.
  case_decide; [done|]. by intros [= <- _].
Qed.

Lemma payload_length e tag payload :
  event_ok e → InternalEvent.payload e = Ok (tag, payload) → (len payload ≤ MAX_INTERNAL_PAYLOAD)%N ∧
  match e with InternalEvent.Error _ _ => (5 ≤ len payload)%N | _ => len payload = 4%N end.
Proof.
  destruct e as [pid|[c|] [s|] clean|errno d]; cbn [InternalEvent.payload event_ok]; try done;
    [intros _ [_ <-]%ok_pair_inj; by split..|].
  intros (_ & Hd & _). rewrite decide_False by lia. intros [_ <-]%ok_pair_inj.
  rewrite !len_app. unfold i32_to_be. rewrite len_to_be. change (len [_]) with 1%N.
  unfold MAX_INTERNAL_PAYLOAD in *. lia.
Qed.

Lemma decode_one_exact tag payload e :
  (len payload ≤ MAX_INTERNAL_PAYLOAD)%N →
  decode_one tag payload = Ok e ↔ event_ok e ∧ InternalEvent.payload e = Ok (tag, payload).
Proof.
  intros Hmax. split.
  - unfold decode_one. intros H. destruct (decide _) as [[-> Hl]|_].
    { apply decode_ready in H as (pid & -> & Hp & ->); [|done]. by split. }
    destruct (decide _) as [[-> Hl]|_].
    { apply decode_exit_Ok in H as (? & ? & ? & -> & ? & ?); [|done]. by split. }
    destruct (decide _) as [[-> Hl]|_]; [|done].
    apply decode_error_Ok in H as (? & ? & -> & ? & ?); [|done]. by split.
  - intros [Hok Hp]. pose proof (payload_tag _ _ _ Hp) as Ht. pose proof (payload_length _ _ _ Hok Hp) as [_ Hl].
    unfold decode_one. destruct e as [pid|c s clean|errno d]; subst tag.
    + rewrite decide_True by done. apply decode_ready; [done|]. injection Hp as <-. by eexists.
    + rewrite decide_False by (by intros []). rewrite decide_True by done.
      apply decode_exit_Ok; [done|]. by do 3 eexists.
    + do 2 rewrite decide_False by (by intros []). rewrite decide_True by done.
      apply decode_error_Ok; [done|]. by do 2 eexists.
Qed.

Lemma encode_Ok e b :
  event_ok e →
  InternalEvent.encode e = Ok b ↔
  ∃ tag payload, InternalEvent.payload e = Ok (tag, payload) ∧ b = tag :: to_be 4 (len payload) ++ payload.
Proof.
  intros Hok. unfold InternalEvent.encode. rewrite bind_ok. split.
  - intros ([tag payload] & Hp & H). destruct (payload_length _ _ _ Hok Hp) as [Hl _].
    rewrite !decide_False in H by (unfold MAX_INTERNAL_PAYLOAD, u32_bound in *; lia). injection H as <-. by do 2 eexists.
  - intros (tag & payload & Hp & ->). exists (tag, payload). split; [done|].
    destruct (payload_length _ _ _ Hok Hp) as [Hl _].
    by rewrite !decide_False by (unfold MAX_INTERNAL_PAYLOAD, u32_bound in *; lia).
Qed.

(** ** Rounds *)
(** Too few bytes to decide about an event: fewer than a header, or a header and less than
    the payload that it announces, whose tag has not been looked at. *)
Definition incomplete_event (b : bytes) : Prop :=
  (len b < INTERNAL_HEADER_LEN)%N ∨
  ∃ tag w r, b = tag :: w ++ r ∧ length w = 4 ∧ (len r < from_be w ≤ MAX_INTERNAL_PAYLOAD)%N.

Lemma event_round_header tag w r q :
  length w = 4 →
  event_round (tag :: w ++ r) q =
  if decide (MAX_INTERNAL_PAYLOAD < from_be w)%N
  then Bad (tag :: w ++ r) q (InitError.Contract "internal-event" (bs "declared internal payload exceeds hard cap"))
  else if decide (len r < from_be w)%N then Wait
  else match decode_one tag (take (N.to_nat (from_be w)) r) with
       | Panic => Crash
       | Err e => Bad (drop (N.to_nat (from_be w)) r) q e
       | Ok event => Got (drop (N.to_nat (from_be w)) r) q event
       end.
Proof.
  intros Hw. destruct w as [|b1 [|b2 [|b3 [|b4 [|]]]]]; try done. unfold event_round, INTERNAL_HEADER_LEN.
  rewrite decide_False by (rewrite len_cons, len_app; change (len [b1; b2; b3; b4]) with 4%N; lia).
  cbn [index app]. change (index (tag :: b1 :: b2 :: b3 :: b4 :: r) 1) with (@Ok InitError.t _ b1).
  change (index (tag :: b1 :: b2 :: b3 :: b4 :: r) 2) with (@Ok InitError.t _ b2).
  change (index (tag :: b1 :: b2 :: b3 :: b4 :: r) 3) with (@Ok InitError.t _ b3).
  change (index (tag :: b1 :: b2 :: b3 :: b4 :: r) 4) with (@Ok InitError.t _ b4).
  cbn [mbind result_bind]. set (n := from_be [b1; b2; b3; b4]). destruct (decide _); [done|]. cbv zeta.
  assert (len (tag :: b1 :: b2 :: b3 :: b4 :: r) = 5 + len r)%N as -> by (rewrite !len_cons; lia).
  destruct (decide (5 + len r < 5 + n)%N); [by rewrite decide_True by lia|]. rewrite decide_False by lia.
  replace (N.to_nat (5 + n)) with (5 + N.to_nat n) by lia. cbn [Nat.add take drop].
  change (index (tag :: b1 :: b2 :: b3 :: b4 :: take (N.to_nat n) r) 0) with (@Ok InitError.t _ tag).
  cbn [mbind result_bind]. unfold slice_range.
  rewrite decide_True by (rewrite !len_cons; lia). cbn [mbind result_bind]. do 3 f_equal.
  change (N.to_nat 5) with 5. cbn [drop]. rewrite drop_0, (take_ge (take _ _)); [done|]. rewrite !len_cons. unfold len. lia.
Qed.

Lemma long_event (b : bytes) : (INTERNAL_HEADER_LEN ≤ len b)%N → ∃ tag w r, b = tag :: w ++ r ∧ length w = 4.
Proof.
  unfold INTERNAL_HEADER_LEN. intros Hl. destruct b as [|tag [|b1 [|b2 [|b3 [|b4 r]]]]]; try (unfold len in Hl; simpl in Hl; lia).
  by exists tag, [b1; b2; b3; b4], r.
Qed.

Lemma event_at_bytes q e b q' :
  event_at q e b q' →
  ∃ tag w payload, b = tag :: w ++ payload ∧ length w = 4 ∧ from_be w = len payload ∧
    (len payload ≤ MAX_INTERNAL_PAYLOAD)%N ∧ decode_one tag payload = Ok e.
Proof.
  intros [Hok He]. apply (encode_Ok e b Hok) in He as (tag & payload & Hp & ->).
  destruct (payload_length _ _ _ Hok Hp) as [Hl _]. exists tag, (to_be 4 (len payload)), payload.
  split_and!; [done|by rewrite length_to_be| |done|by apply decode_one_exact].
  apply from_to_be. change (256 ^ N.of_nat 4)%N with (2^32)%N. unfold MAX_INTERNAL_PAYLOAD in Hl. lia.
Qed.

Lemma decoded_event_at tag w payload e :
  length w = 4 → from_be w = len payload → (len payload ≤ MAX_INTERNAL_PAYLOAD)%N →
  decode_one tag payload = Ok e → event_at () e (tag :: w ++ payload) ().
Proof.
  intros Hw Hn Hl Hd. apply decode_one_exact in Hd as [Hok Hp]; [|done]. split; [done|].
  apply encode_Ok; [done|]. exists tag, payload. split; [done|]. by rewrite <- Hn, <- Hw, to_from_be.
Qed.

Lemma event_round_wait pending q : event_round pending q = Wait ↔ incomplete_event pending.
Proof.
  unfold incomplete_event. destruct (decide (len pending < INTERNAL_HEADER_LEN)%N) as [Hs|Hl].
  { unfold event_round. rewrite decide_True by done. naive_solver. }
  destruct (long_event pending) as (tag & w & r & -> & Hw); [lia|]. rewrite event_round_header by done.
  assert (∀ tag' w' r', tag :: w ++ r = tag' :: w' ++ r' → length w' = 4 → w = w' ∧ r = r') as Hinj.
  { intros tag' w' r' [= _ Heq] Hw'. apply app_inj_1 in Heq; [done|congruence]. }
  destruct (decide (MAX_INTERNAL_PAYLOAD < from_be w)%N) as [Hm|Hm].
  { split; [done|]. intros [?|(? & ? & ? & Heq & Hw' & ?)]; [lia|]. apply Hinj in Heq as [<- <-]; [lia|done]. }
  destruct (decide (len r < from_be w)%N) as [Hr|Hr].
  { split; [|done]. intros _. right. exists tag, w, r. split_and!; [done..|lia]. }
  split; [by case_match|]. intros [?|(? & ? & ? & Heq & Hw' & ?)]; [lia|]. apply Hinj in Heq as [<- <-]; [lia|done].
Qed.

Lemma event_round_got q pending rest q' e :
  event_round pending q = Got rest q' e ↔ ∃ b, pending = b ++ rest ∧ event_at q e b q'.
Proof.
  split.
  - intros Hr. destruct (decide (len pending < INTERNAL_HEADER_LEN)%N) as [Hs|Hl].
    { unfold event_round in Hr. by rewrite decide_True in Hr. }
    destruct (long_event pending) as (tag & w & r & -> & Hw); [lia|]. rewrite event_round_header in Hr by done.
    destruct (decide _) as [|Hm]; [done|]. destruct (decide _) as [|Hlen]; [done|].
    destruct (decode_one _ _) as [e'| |] eqn:Hd; [|done..]. injection Hr as <- <- <-.
    assert (len (take (N.to_nat (from_be w)) r) = from_be w) as Hn by (unfold len in *; rewrite length_take; lia).
    exists (tag :: w ++ take (N.to_nat (from_be w)) r). split; [by rewrite <- app_comm_cons, <- app_assoc, take_drop|].
    destruct q. apply decoded_event_at; (done || lia).
  - intros (b & -> & He). destruct (event_at_bytes _ _ _ _ He) as (tag & w & payload & -> & Hw & Hn & Hl & Hd).
    rewrite <- app_comm_cons, <- app_assoc, event_round_header by done.
    rewrite decide_False by lia. rewrite decide_False by (rewrite len_app; lia).
    rewrite Hn. replace (N.to_nat (len payload)) with (length payload) by (unfold len; lia).
    rewrite take_app_length, drop_app_length, Hd. by destruct q, q'.
Qed.

Lemma event_part_incomplete q e b q' a : event_at q e b q' → a `prefix_of` b → a ≠ b → incomplete_event a.
Proof.
  intros He [k Hk] Hne. destruct (event_at_bytes _ _ _ _ He) as (tag & w & payload & Hb & Hw & Hn & Hl & _).
  destruct (decide (len a < INTERNAL_HEADER_LEN)%N) as [|Hs]; [by left|]. right.
  destruct (long_event a) as (tag' & w' & r & -> & Hw'); [lia|]. exists tag', w', r.
  rewrite Hb in Hk. injection Hk as <- Hk. rewrite <- app_assoc in Hk.
  apply app_inj_1 in Hk as [<- ->]; [|congruence]. rewrite Hn, len_app in *.
  assert (len k ≠ 0%N); [|by split_and!; (done || lia)].
  rewrite len_zero. intros ->. apply Hne. by rewrite Hb, app_nil_r.
Qed.

Lemma incomplete_event_prefix a b : a `prefix_of` b → incomplete_event b → incomplete_event a.
Proof.
  intros [k ->] Hb. destruct (decide (len a < INTERNAL_HEADER_LEN)%N) as [|Hs]; [by left|]. right.
  destruct (long_event a) as (tag & w & r & -> & Hw); [lia|]. exists tag, w, r.
  destruct Hb as [Hb|(tag' & w' & r' & Heq & Hw' & Hb)]; [rewrite len_app in Hb; lia|].
  injection Heq as _ Heq. rewrite <- app_assoc in Heq. apply app_inj_1 in Heq as [<- <-]; [|congruence].
  rewrite len_app in Hb. split_and!; (done || lia).
Qed.

#[export] Instance event_records_laws : RecordsLaws () InternalEvent.t InitError.t.
Proof.
  split; simpl.
  - intros q e b q' (tag & w & payload & -> & _)%event_at_bytes. done.
  - intros. apply event_round_got.
  - intros q a b Hp Hb. apply event_round_wait. apply event_round_wait in Hb. by eapply incomplete_event_prefix.
  - intros. apply event_round_wait. by eapply event_part_incomplete.
Qed.

(** The supervisor's events arrive exactly.  Fed with chunks that together stay
    within the cap, the decoder succeeds with some events and some bytes pending if
    and only if the chunks, put together, are the encodings of these events followed by
    bytes that are fewer than a header or than the payload it announces; each event is one a supervisor can mean, with one
    encoding, so nothing is lost, invented or reordered however the pipe cuts the
    stream. *)
Theorem internal_events_exact chunks events pending :
  (len (concat chunks) ≤ INTERNAL_HEADER_LEN + MAX_INTERNAL_PAYLOAD)%N →
  InternalEventDecoder.feed_all InternalEventDecoder.new chunks
    = (InternalEventDecoder.internal_event_decoder pending, Ok events) ↔
  ∃ stream, concat chunks = stream ++ pending ∧ chain () events stream () ∧ incomplete_event pending.
Proof.
  intros Hcap. assert (body [] () = Wait) as Hnil by (apply event_round_wait; by left).
  unfold InternalEventDecoder.feed_all. cbn [InternalEventDecoder.pending InternalEventDecoder.new]. split.
  - destruct (feed_all _ _) as [[p1 []] r] eqn:Hf. intros [= -> ->].
    apply feed_all_sound in Hf as (b & ? & ? & Hw); [|done]. exists b. split_and!; [done|done|by apply event_round_wait in Hw].
  - intros (stream & Heq & Hch & Hi).
    rewrite (feed_all_complete (INTERNAL_HEADER_LEN + MAX_INTERNAL_PAYLOAD) [] () chunks stream pending () events);
      [done| |done|done|done|done|by apply event_round_wait].
    intros p q1 c Hc Hw Hl. cbn. unfold event_refuses. apply decide_False. unfold saturating_add. lia.
Qed.

(** A start and an exit by signal, cut after three bytes. *)
Lemma internal_events_exact_witness :
  ∃ stream, concat [[x01; x00; x00]; [x00; x04; x00; x00; x00; x2a; x02; x00; x00; x00; x04; x01; x00; x0f; x01]]
      = stream ++ [] ∧
    chain () [InternalEvent.Ready 42; InternalEvent.Exit None (Some 15%N) true] stream () ∧ incomplete_event [].
Proof.
  apply (internal_events_exact
    [[x01; x00; x00]; [x00; x04; x00; x00; x00; x2a; x02; x00; x00; x00; x04; x01; x00; x0f; x01]]
    [InternalEvent.Ready 42; InternalEvent.Exit None (Some 15%N) true] []).
  - vm_compute. discriminate.
  - vm_compute. reflexivity.
Defined.
