(* ===== verification/StoreCodec.v ===== *)
(** * Store records: crates/pocket-store/src/error.rs and codec.rs

    The error type, the primitive encoders, the [Reader], and the envelope of every
    metadata record: magic, schema version, body, SHA-256 checksum.

    An encoder is a [result] because [put_bytes] panics on a field of 4 GiB or more;
    [cat] writes its parts one after the other.  A decoder is a [parser], a function
    of the reader.  [sound c p a] says that the part [c] is written without a panic
    and that [p] reads exactly it back as [a], whatever follows. *)

From S2P Require Import Prelude RustStr Utf8 ProtocolError Sha256.

#[local] Arguments to_be : simpl never.
#[local] Arguments bs : simpl never.
#[local] Arguments len : simpl never.

Module MetadataKind.
Inductive t : Set :=
| Store | Generation | Staging | Alias | Lease | RetainedCow | Instance | Derivation | Lock.
End MetadataKind.

(** Identifiers and digests ([GenerationId], [DerivationKey], [Digest] ..) are their
    32 bytes. *)
Abbreviation Digest := (list byte) (only parsing).
Definition is_digest (d : Digest) : Prop := length d = 32.
#[export] Instance is_digest_dec d : Decision (is_digest d).
Proof. unfold is_digest. apply _. Defined.

Module StoreError.
Inductive t : Set :=
| Io (operation : string) (path : bytes) (source : io_error)
| InvalidRoot (path reason : bytes)
| InvalidInput (field : string) (reason : bytes)
| InvalidMetadata (kind : MetadataKind.t) (path reason : bytes)
| MetadataTooLarge (kind : MetadataKind.t) (path : bytes) (maximum : N)
| Symlink (path : bytes)
| CrossDevice (path : bytes) (expected actual : N)
| GenerationNotFound (id : Digest)
| DerivationBusy (key : Digest)
| GenerationAlreadyExists (id : Digest)
| AliasNotFound
| DerivationNotFound
| RetainedCowNotFound
| InstanceNotFound
| DigestMismatch (path : bytes) (expected actual : Digest)
| SizeMismatch (path : bytes) (expected actual : N)
| SidecarNotFound (generation : Digest) (name : bytes)
| SidecarTooLarge (path : bytes) (actual maximum : N)
| UnsafeGarbageCollection (reason : bytes)
| UnexpectedEntry (path : bytes).
End StoreError.

Abbreviation sresult := (result StoreError.t).

Definition MEMORY : bytes := bs "<memory>".

Definition metadata {A} (kind : MetadataKind.t) (path reason : bytes) : sresult A :=
  Err (StoreError.InvalidMetadata kind path reason).

Definition STORE_SCHEMA_VERSION : N := 3.
Definition MAX_METADATA_BYTES : N := 1024 * 1024.
Definition CHECKSUM_BYTES : N := 32.

(** ** Writing *)
Fixpoint cat (parts : list (sresult bytes)) : sresult bytes :=
  match parts with
  | [] => Ok []
  | part :: parts => b ← part; (b ++.) <$> cat parts
  end.

Definition put_u8 (value : N) : sresult bytes := Ok [byte_of_N value].
Definition put_u16 (value : N) : sresult bytes := Ok (to_be 2 value).
Definition put_u32 (value : N) : sresult bytes := Ok (to_be 4 value).
Definition put_u64 (value : N) : sresult bytes := Ok (to_be 8 value).

(** [u32::try_from(value.len()).expect(..)] *)
Definition put_bytes (value : bytes) : sresult bytes :=
  if decide (len value < u32_bound)%N then (.++ value) <$> put_u32 (len value) else Panic.
Definition put_text (value : bytes) : sresult bytes := put_bytes value.
Definition put_optional_text (value : option bytes) : sresult bytes :=
  match value with
  | Some value => cat [put_u8 1; put_text value]
  | None => put_u8 0
  end.

(** [u16::try_from(count).expect(..)] before the elements of a list. *)
Definition put_count (count : N) : sresult bytes :=
  if decide (count < u16_bound)%N then put_u16 count else Panic.

Section records.
Context {sha : Sha2}.

Definition finish_record (b : bytes) : bytes := b ++ sha256_digest b.
Definition start_record (magic : bytes) : sresult bytes := cat [Ok magic; put_u16 STORE_SCHEMA_VERSION].
End records.

(** ** Reading *)
Record Reader : Set := reader { reader_bytes : bytes; offset : N }.
Definition reader_new (b : bytes) : Reader := reader b 0.

Definition parser (A : Type) : Type := Reader → sresult (A * Reader).
#[export] Instance parser_ret : MRet parser := λ A a r, Ok (a, r).
#[export] Instance parser_bind : MBind parser := λ A B f p r, ar ← p r; let '(a, r) := ar in f a r.
(** A computation that does not touch the reader. *)
Definition lift {A} (x : sresult A) : parser A := λ r, (λ a, (a, r)) <$> x.

Definition store_error {A} (reason : bytes) : sresult A := metadata MetadataKind.Store MEMORY reason.

Module Reader.
Definition take (length : N) : parser bytes := λ self,
  end_ ← match checked_add (offset self) length with
         | Some e => Ok e
         | None => store_error (bs "length overflow")
         end;
  if decide (end_ ≤ len (reader_bytes self))%N
  then Ok (firstn (N.to_nat length) (drop (N.to_nat (offset self)) (reader_bytes self)),
           reader (reader_bytes self) end_)
  else store_error (bs "record is truncated").

(** [take(n)?.try_into::<[u8; n]>().map_err(..)] *)
Definition take_array (n : N) (reason : string) : parser bytes :=
  b ← take n; lift (if decide (len b = n) then Ok b else store_error (bs reason)).

Definition u8 : parser N := b ← take 1; lift (Byte.to_N <$> index b 0).
Definition u16 : parser N := b ← take_array 2 "invalid u16"; mret (from_be b).
Definition u32 : parser N := b ← take_array 4 "invalid u32"; mret (from_be b).
Definition u64 : parser N := b ← take_array 8 "invalid u64"; mret (from_be b).

(** [usize::try_from(u32)] never fails on a 64-bit target. *)
Definition read_bytes (maximum : N) : parser bytes :=
  length ← u32;
  if decide (maximum < length)%N
  then lift (store_error (bs "field is " ++ to_decimal length ++ bs " bytes; maximum is " ++ to_decimal maximum))
  else take length.

Definition text (maximum : N) : parser bytes :=
  b ← read_bytes maximum; lift (if decide (valid_utf8 b) then Ok b else store_error (bs "text is not UTF-8")).

Definition optional_text (maximum : N) : parser (option bytes) :=
  tag ← u8;
  if decide (tag = 0%N) then mret None else
  if decide (tag = 1%N) then text ← text maximum; mret (Some text) else
  lift (store_error (bs "invalid option discriminant " ++ to_decimal tag)).

Definition finish : parser () := λ self,
  if decide (offset self = len (reader_bytes self)) then Ok ((), self)
  else store_error (bs "trailing bytes in canonical record").
End Reader.

(** [for _ in 0..count { v.push(p(reader)?) }] *)
Fixpoint read_many {A} (count : nat) (p : parser A) : parser (list A) :=
  match count with
  | O => mret []
  | S count => a ← p; l ← read_many count p; mret (a :: l)
  end.

(** [verify_record]: the reader it returns stands after the schema version. *)
Definition verify_record `{Sha2} (b magic : bytes) (kind : MetadataKind.t) : sresult Reader :=
  if decide (MAX_METADATA_BYTES < len b)%N
  then Err (StoreError.MetadataTooLarge kind MEMORY MAX_METADATA_BYTES) else
  if decide (len b < len magic + 2 + CHECKSUM_BYTES)%N then metadata kind MEMORY (bs "record is truncated") else
  payload_len ← usize_sub (len b) CHECKSUM_BYTES;
  payload ← slice_range b 0 payload_len;
  checksum ← slice_range b payload_len (len b);
  if decide (sha256_digest payload ≠ checksum) then metadata kind MEMORY (bs "checksum mismatch") else
  '(found, r) ← Reader.take 8 (reader_new payload);
  if decide (found ≠ magic) then metadata kind MEMORY (bs "wrong record magic") else
  '(version, r) ← Reader.u16 r;
  if decide (version ≠ STORE_SCHEMA_VERSION)
  then metadata kind MEMORY (bs "unsupported schema version " ++ to_decimal version) else
  Ok r.

(** ** What is written is read back *)

(** A reader inside a buffer that fits in memory. *)
Definition fits (r : Reader) : Prop :=
  (offset r ≤ len (reader_bytes r))%N ∧ (len (reader_bytes r) < 2^63)%N.
Definition remaining (r : Reader) : bytes := drop (N.to_nat (offset r)) (reader_bytes r).
Definition advance (n : N) (r : Reader) : Reader := reader (reader_bytes r) (offset r + n).

Definition parses {A} (p : parser A) (e : bytes) (a : A) : Prop :=
  ∀ r rest, fits r → remaining r = e ++ rest → p r = Ok (a, advance (len e) r).

Definition sound {A} (c : sresult bytes) (p : parser A) (a : A) : Prop :=
  ∃ e, c = Ok e ∧ parses p e a.

Lemma advance_0 r : advance 0 r = r.
Proof. destruct r. unfold advance. simpl. by rewrite N.add_0_r. Qed.

Lemma advance_add a b r : advance b (advance a r) = advance (a + b) r.
Proof. unfold advance. simpl. by rewrite N.add_assoc. Qed.

Lemma advance_inside e rest r :
  fits r → remaining r = e ++ rest → fits (advance (len e) r) ∧ remaining (advance (len e) r) = rest.
Proof.
  intros [Ho Hl] Hr. unfold fits, remaining, advance in *. simpl.
  assert (offset r + len e ≤ len (reader_bytes r))%N as Hle.
  { apply (f_equal length) in Hr. rewrite length_drop, length_app in Hr. unfold len in *. lia. }
  split; [by split|]. rewrite N2Nat.inj_add, <- drop_drop, Hr. unfold len. by rewrite Nat2N.id, drop_app_length.
Qed.

Lemma bind_run {A B} (p : parser A) (k : A → parser B) r :
  (p ≫= k) r = (ar ← p r; let '(a, r) := ar in k a r).
Proof. done. Qed.

Lemma sound_ret {A} (a : A) : sound (cat []) (mret a) a.
Proof. exists []. split; [done|]. intros r rest _ _. by rewrite advance_0. Qed.

Lemma sound_lift {A} (x : sresult A) a : x = Ok a → sound (cat []) (lift x) a.
Proof. intros ->. exists []. split; [done|]. intros r rest _ _. by rewrite advance_0. Qed.

Lemma sound_cons {A B} c cs (p : parser A) (k : A → parser B) a b :
  sound c p a → sound (cat cs) (k a) b → sound (cat (c :: cs)) (p ≫= k) b.
Proof.
  intros (e & -> & Hp) (f & Hcs & Hk). exists (e ++ f). split; [simpl; by rewrite Hcs|].
  intros r rest Hf Hr. rewrite <- app_assoc in Hr. unfold mbind, parser_bind. rewrite (Hp r _ Hf Hr). simpl.
  destruct (advance_inside _ _ _ Hf Hr) as [Hf' Hr'].
  by rewrite (Hk _ _ Hf' Hr'), advance_add, len_app.
Qed.

(** One part alone, and a parser that goes on without reading. *)
Lemma sound_last {A B} c (p : parser A) (k : A → parser B) a b :
  sound c p a → sound (cat []) (k a) b → sound c (p ≫= k) b.
Proof.
  intros Hc Hk. destruct (sound_cons c [] p k a b Hc Hk) as (e & He & Hp).
  destruct Hc as (e' & -> & _). simpl in He. rewrite app_nil_r in He. injection He as <-. by exists e'.
Qed.

Lemma sound_ext {A} c c' (p : parser A) a : c = c' → sound c' p a → sound c p a.
Proof. by intros ->. Qed.

Lemma cat_app l k : cat (l ++ k) = (a ← cat l; (a ++.) <$> cat k).
Proof.
  induction l as [|c l IH]; simpl; [by destruct (cat k)|].
  destruct c; [|done..]. simpl. rewrite IH. destruct (cat l); [|done..]. simpl.
  destruct (cat k); [|done..]. simpl. by rewrite app_assoc.
Qed.

(** A nested encoder is a part like any other. *)
Lemma cat_nested l k : cat (cat l :: k) = cat (l ++ k).
Proof. rewrite cat_app. done. Qed.

(** The bytes of a part determine the value. *)
Lemma sound_inj {A} c c' (p : parser A) a a' e :
  sound c p a → sound c' p a' → c = Ok e → c' = Ok e → (len e < 2^63)%N → a = a'.
Proof.
  intros (e1 & -> & Ha) (e2 & -> & Hb) [= ->] [= ->] Hl.
  assert (fits (reader_new e)) as Hf by (split; simpl; lia).
  specialize (Ha (reader_new e) [] Hf). specialize (Hb (reader_new e) [] Hf).
  rewrite app_nil_r in *. unfold remaining in *. simpl in *. rewrite Ha in Hb by done. naive_solver.
Qed.

Lemma sound_app {A B} l k (p : parser A) (f : A → parser B) a b :
  sound (cat l) p a → sound (cat k) (f a) b → sound (cat (l ++ k)) (p ≫= f) b.
Proof. intros Hl Hk. rewrite <- cat_nested. by apply (sound_cons _ _ _ _ a). Qed.

Lemma sound_nested {A B} l k (p : parser A) (f : A → parser B) a b :
  sound (cat l) p a → sound (cat k) (f a) b → sound (cat (cat l :: k)) (p ≫= f) b.
Proof. apply sound_cons. Qed.

Lemma sound_take d : sound (Ok d) (Reader.take (len d)) d.
Proof.
  exists d. split; [done|]. intros r rest Hf Hr. pose proof (advance_inside _ _ _ Hf Hr) as [[Ho' _] _].
  unfold advance in Ho'; simpl in Ho'. destruct Hf as [Ho Hl]. unfold Reader.take.
  rewrite (checked_add_fits (offset r) (len d)) by (unfold u64_bound; lia). simpl. rewrite decide_True by done.
  unfold remaining in Hr. rewrite Hr. unfold len at 1. by rewrite Nat2N.id, take_app_length.
Qed.

Lemma sound_array n d reason : len d = n → sound (Ok d) (Reader.take_array n reason) d.
Proof.
  intros <-. apply (sound_last _ _ _ d); [apply sound_take|]. apply sound_lift. by rewrite decide_True.
Qed.

Lemma sound_u8 n : (n < 256)%N → sound (put_u8 n) Reader.u8 n.
Proof.
  intros Hn. apply (sound_last _ _ _ [byte_of_N n]); [apply (sound_take [byte_of_N n])|].
  apply sound_lift. simpl. by rewrite code_byte_of_N, N.mod_small.
Qed.

Lemma sound_be w n reason :
  (n < 256 ^ N.of_nat w)%N →
  sound (Ok (to_be w n)) (b ← Reader.take_array (N.of_nat w) reason; mret (from_be b)) n.
Proof.
  intros Hn. apply (sound_last _ _ _ (to_be w n)); [apply sound_array, len_to_be|].
  rewrite from_to_be by done. apply sound_ret.
Qed.

Lemma sound_u16 n : (n < u16_bound)%N → sound (put_u16 n) Reader.u16 n.
Proof. apply (sound_be 2). Qed.
Lemma sound_u32 n : (n < u32_bound)%N → sound (put_u32 n) Reader.u32 n.
Proof. apply (sound_be 4). Qed.
Lemma sound_u64 n : (n < u64_bound)%N → sound (put_u64 n) Reader.u64 n.
Proof. apply (sound_be 8). Qed.

Lemma sound_count n : (n < u16_bound)%N → sound (put_count n) Reader.u16 n.
Proof. intros Hn. unfold put_count. rewrite decide_True by done. by apply sound_u16. Qed.

Lemma put_bytes_fits v : (len v < u32_bound)%N → put_bytes v = cat [put_u32 (len v); Ok v].
Proof. intros Hv. unfold put_bytes. rewrite decide_True by done. simpl. by rewrite app_nil_r. Qed.

Lemma sound_bytes maximum v :
  (len v ≤ maximum)%N → (maximum < u32_bound)%N → sound (put_bytes v) (Reader.read_bytes maximum) v.
Proof.
  intros Hv Hm. rewrite put_bytes_fits by lia. apply (sound_cons _ _ _ _ (len v)); [apply sound_u32; lia|].
  rewrite decide_False by lia. apply (sound_ext _ (Ok v)); [simpl; by rewrite app_nil_r|]. apply sound_take.
Qed.

Lemma sound_text maximum v :
  valid_utf8 v → (len v ≤ maximum)%N → (maximum < u32_bound)%N → sound (put_text v) (Reader.text maximum) v.
Proof.
  intros Hu Hv Hm. apply (sound_last _ _ _ v); [by apply sound_bytes|]. apply sound_lift. by rewrite decide_True.
Qed.

Lemma sound_optional_text maximum v :
  (∀ t, v = Some t → valid_utf8 t ∧ len t ≤ maximum)%N → (maximum < u32_bound)%N →
  sound (put_optional_text v) (Reader.optional_text maximum) v.
Proof.
  intros Hv Hm. destruct v as [v|].
  - destruct (Hv v eq_refl). apply (sound_cons _ _ _ _ 1%N); [by apply sound_u8|]. cbn [decide].
    rewrite decide_False, decide_True by done.
    apply (sound_ext _ (cat [put_text v])); [done|].
    apply (sound_cons _ _ _ _ v); [by apply sound_text|apply sound_ret].
  - apply (sound_last _ _ _ 0%N); [by apply sound_u8|]. rewrite decide_True by done. apply sound_ret.
Qed.

Lemma sound_many {A} (enc : A → sresult bytes) (p : parser A) l :
  (∀ a, a ∈ l → sound (enc a) p a) → sound (cat (enc <$> l)) (read_many (length l) p) l.
Proof.
  induction l as [|a l IH]; intros Hl; [apply sound_ret|]. rewrite fmap_cons.
  apply (sound_cons _ _ _ _ a); [apply Hl; by left|].
  rewrite <- (app_nil_r (enc <$> l)).
  apply (sound_app _ _ _ _ l); [apply IH; intros; apply Hl; by right|apply sound_ret].
Qed.

(** ** The envelope *)
Section envelope.
Context {sha : Sha2} {laws : Sha2Laws}.

Definition envelope (magic body : bytes) : bytes :=
  finish_record (magic ++ to_be 2 STORE_SCHEMA_VERSION ++ body).

Lemma len_envelope magic body : len (envelope magic body) = (len magic + 2 + len body + 32)%N.
Proof.
  unfold envelope, finish_record. rewrite !len_app, len_to_be.
  replace (len (sha256_digest _)) with 32%N by (unfold len; by rewrite sha256_length). lia.
Qed.

Definition body_reader (magic body : bytes) : Reader :=
  reader (magic ++ to_be 2 STORE_SCHEMA_VERSION ++ body) 10.

Lemma body_reader_inside magic body :
  len magic = 8%N → (len body < 2^62)%N →
  fits (body_reader magic body) ∧ remaining (body_reader magic body) = body.
Proof.
  intros Hm Hb. unfold fits, remaining, body_reader. cbn [offset reader_bytes]. rewrite !len_app, !len_to_be.
  split; [lia|]. rewrite app_assoc, drop_app_length'; [done|].
  rewrite length_app, length_to_be. unfold len in Hm. lia.
Qed.

Lemma verify_envelope magic body kind :
  len magic = 8%N → (len (envelope magic body) ≤ MAX_METADATA_BYTES)%N →
  verify_record (envelope magic body) magic kind = Ok (body_reader magic body).
Proof.
  intros Hm Hl. pose proof (len_envelope magic body) as He. unfold verify_record, CHECKSUM_BYTES.
  rewrite decide_False by lia. rewrite decide_False by lia.
  set (payload := magic ++ to_be 2 STORE_SCHEMA_VERSION ++ body).
  assert (len payload = len (envelope magic body) - 32)%N as Hp
    by (rewrite He; unfold payload; rewrite !len_app, len_to_be; lia).
  assert (N.to_nat (len payload) = length payload) as Hn by (unfold len; lia).
  unfold usize_sub. rewrite decide_True by lia. simpl. rewrite <- Hp.
  unfold slice_range. rewrite decide_True by lia. simpl. rewrite decide_True by lia. simpl.
  rewrite drop_0, N.sub_0_r, Hn. unfold envelope. fold payload. unfold finish_record.
  rewrite take_app_length, drop_app_length, take_ge by (unfold len; rewrite length_app; lia).
  rewrite decide_False by tauto.
  destruct (sound_take magic) as (e & [= <-] & Ht). rewrite Hm in Ht.
  assert (fits (reader_new payload)) as Hf by (split; simpl; unfold MAX_METADATA_BYTES in *; lia).
  rewrite (Ht _ (to_be 2 STORE_SCHEMA_VERSION ++ body) Hf eq_refl). simpl. rewrite decide_False by tauto.
  destruct (advance_inside magic (to_be 2 STORE_SCHEMA_VERSION ++ body) _ Hf eq_refl) as [Hf2 Hr2].
  destruct (sound_u16 STORE_SCHEMA_VERSION) as (e & [= <-] & Hu); [done|].
  rewrite (Hu _ body Hf2 Hr2). simpl.
  unfold body_reader, advance. simpl. by rewrite Hm.
Qed.

(** [finish_record] of [start_record] and the parts of the body. *)
Lemma record_parts magic parts :
  finish_record <$> cat (start_record magic :: parts) = envelope magic <$> cat parts.
Proof.
  unfold start_record. rewrite cat_nested. simpl. destruct (cat parts) as [b| |]; [|done..].
  done.
Qed.

(** A decoder: the envelope, the fields, [finish], and the checks on the fields. *)
Definition run_record {A B} (b magic : bytes) (kind : MetadataKind.t) (p : parser A) (f : A → sresult B)
    : sresult B :=
  r ← verify_record b magic kind;
  fst <$> (a ← p; _ ← Reader.finish; lift (f a)) r.

Lemma run_record_sound {A B} magic kind c (p : parser A) (f : A → sresult B) a e :
  len magic = 8%N → sound c p a → c = Ok e → (len (envelope magic e) ≤ MAX_METADATA_BYTES)%N →
  run_record (envelope magic e) magic kind p f = f a.
Proof.
  intros Hm (e' & -> & Hp) [= ->] Hl. unfold run_record. rewrite verify_envelope by done.
  rewrite len_envelope in Hl. unfold MAX_METADATA_BYTES in Hl.
  destruct (body_reader_inside magic e Hm) as [Hf Hr]; [lia|].
  rsimpl. rewrite bind_run, (Hp _ [] Hf) by by rewrite app_nil_r. rsimpl. rewrite bind_run. unfold Reader.finish.
  rewrite decide_True; [rsimpl; unfold lift; by destruct (f a)|].
  unfold advance, body_reader. cbn [offset reader_bytes]. rewrite !len_app, !len_to_be. lia.
Qed.
End envelope.

(** [contextualize]: an error from a decoder gets the file's kind and path. *)
Definition contextualize (error : StoreError.t) (kind : MetadataKind.t) (path : bytes) : StoreError.t :=
  match error with
  | StoreError.MetadataTooLarge _ _ maximum => StoreError.MetadataTooLarge kind path maximum
  | StoreError.InvalidMetadata _ _ reason => StoreError.InvalidMetadata kind path reason
  | StoreError.InvalidInput field reason =>
      StoreError.InvalidMetadata kind path (bs "invalid " ++ bs field ++ bs ": " ++ reason)
  | other => other
  end.
