(* ===== verification/HexText.v ===== *)
(** * The hex crate and the text of digests

    [hex::encode] and [hex::decode] are the class [Hex] with their documented
    behaviour; 64 lower-case digits are the text of 32 bytes. *)

From S2P Require Import Prelude RustStr Sha256 StoreCodec.

Class Hex := { hex_encode : bytes → bytes; hex_decode : bytes → result bytes bytes }.
(** [encode] writes lower-case digits, [decode] reads them back. *)
Class HexLaws `{Hex} := {
  hex_encode_lower b : hex_encode b = hex_lower b;
  hex_decode_lower b : hex_decode (hex_lower b) = Ok b;
}.

(** [!byte.is_ascii_hexdigit() || byte.is_ascii_uppercase()] for no byte, and 64 of them *)
Definition is_hex64 (encoded : bytes) : Prop := len encoded = 64%N ∧ Forall is_lower_hex encoded.
#[export] Instance is_hex64_dec e : Decision (is_hex64 e).
Proof. unfold is_hex64. apply _. Defined.

Lemma unhex_lower : ∀ d, is_lower_hex d → hex_digit (unhex_digit d) = d ∧ (unhex_digit d < 16)%N.
Proof. by_bytes. Qed.

Lemma hex_pair a b :
  is_lower_hex a → is_lower_hex b →
  ∃ c, [hex_digit (N.shiftr (code c) 4); hex_digit (N.land (code c) 15)] = [a; b].
Proof.
  intros [Ha Hxa]%unhex_lower [Hb Hxb]%unhex_lower.
  exists (byte_of_N (unhex_digit a * 16 + unhex_digit b)).
  rewrite code_byte_of_N, N.mod_small by lia.
  change 15%N with (N.ones 4). rewrite N.shiftr_div_pow2, N.land_ones. change (2 ^ 4)%N with 16%N.
  rewrite N.div_add_l, (N.div_small (unhex_digit b)), N.add_0_r by lia.
  rewrite N.add_comm, N.Div0.mod_add, N.mod_small, Ha, Hb by lia. done.
Qed.

Lemma hex_lower_surj n e : length e = 2 * n → Forall is_lower_hex e → ∃ d, e = hex_lower d ∧ length d = n.
Proof.
  revert e; induction n as [|n IH]; intros e Hl He; [exists []; by destruct e|].
  destruct e as [|a [|b e]]; [simpl in Hl; lia..|].
  apply Forall_cons in He as [Ha He]. apply Forall_cons in He as [Hb He].
  destruct (hex_pair a b Ha Hb) as [c Hc]. destruct (IH e) as (d & -> & Hd); [simpl in Hl; lia|done|].
  exists (c :: d). split; [|by rewrite <- Hd]. injection Hc as <- <-. done.
Qed.

Lemma is_hex64_iff e : is_hex64 e ↔ ∃ d, e = hex_lower d ∧ is_digest d.
Proof.
  unfold is_hex64, is_digest. split.
  - intros [Hl He]. apply hex_lower_surj; [unfold len in Hl; lia|done].
  - intros (d & -> & Hd). split; [|apply hex_lower_digits]. unfold len. rewrite length_hex_lower. lia.
Qed.

Lemma digest_len d : is_digest d ↔ len d = 32%N.
Proof. unfold is_digest, len. lia. Qed.

(** ** An instance for evaluation *)
Module SampleHex.
Fixpoint unhex (e : bytes) : result bytes bytes :=
  match e with
  | [] => Ok []
  | a :: b :: e => (byte_of_N (unhex_digit a * 16 + unhex_digit b) ::.) <$> unhex e
  | [_] => Err (bs "odd number of digits")
  end.
#[export] Instance sample_hex : Hex := {| hex_encode := hex_lower; hex_decode := unhex |}.

#[export] Instance sample_hex_laws : HexLaws.
Proof.
  split; [done|]. intros b. simpl. induction b as [|c b IH]; [done|].
  change (hex_lower (c :: b)) with
    (hex_digit (N.shiftr (code c) 4) :: hex_digit (N.land (code c) 15) :: hex_lower b).
  cbn [unhex]. rewrite IH, <- unhex_byte. simpl. do 2 f_equal. apply (byte_of_N_mod 0).
Qed.
End SampleHex.
