(* ===== verification/OciError.v ===== *)
(** * Errors and limits of image layouts: crates/pocket-oci/src/error.rs and layout.rs

    The error type (an error of serde_json is its text), the resource ceilings, and
    the fields of descriptors that are texts: digests and media types. *)

From S2P Require Import Prelude RustStr ProtocolError NoPanic StoreCodec HexText.

#[local] Arguments bs : simpl never.
#[local] Arguments len : simpl never.

Module OciError.
Inductive t : Set :=
| Io (path : bytes) (source : io_error)
| Json (document source : bytes)
| Limit (what : bytes) (limit : N)
| UnsupportedLayoutVersion (found : bytes)
| InvalidDocument (document reason : bytes)
| UnsupportedMediaType (context media_type : bytes)
| InvalidDigest (context digest reason : bytes)
| SizeMismatch (digest : bytes) (expected actual : N)
| DigestMismatch (digest actual : bytes)
| Platform (context reason : bytes)
| NoLinuxAmd64Image
| AmbiguousLinuxAmd64 (count : N)
| RootfsCountMismatch (layers diff_ids : N)
| LayerDecode (position : N) (media_type : bytes) (source : io_error)
| DiffIdMismatch (position : N) (expected actual : bytes)
| LayerUncompressedOverflow (position : N)
| TotalUncompressedOverflow (position : N)
| LayerUncompressedLimit (position limit actual : N)
| TotalUncompressedLimit (position limit actual : N)
| DecompressionRatio (position maximum compressed uncompressed : N)
| ProcessConfig (reason : bytes)
| UnsafeManagedPath (path reason : bytes)
| InvalidSource (reason : bytes)
| InvalidPlatform (reason : bytes)
| InvalidExecutionPolicy (reason : bytes)
| UnsafeAcquisitionDirectory (path reason : bytes)
| AcquisitionGuardSpawn (program : bytes) (source : io_error)
| SkopeoTimeout (timeout : N)
| SkopeoFailed (status diagnostic : bytes)
| SkopeoOutputLimit (stream : string) (maximum actual : N)
| SkopeoStream (stream : string) (reason : bytes)
| ResolverInput (path reason : bytes)
| ResolverInputChanged (path before after : bytes)
| ArchiveInput (path reason : bytes).
End OciError.
Abbreviation oresult := (result OciError.t).

Definition invalid_document {A} (document reason : bytes) : oresult A :=
  Err (OciError.InvalidDocument document reason).
Definition over_limit {A} (what : bytes) (limit : N) : oresult A := Err (OciError.Limit what limit).

Lemma document_guard_ok {A} (P : Prop) `{Decision P} d r (k : oresult A) a :
  (if decide P then invalid_document d r else k) = Ok a ↔ ¬ P ∧ k = Ok a.
Proof. apply guard_ok. Qed.
Lemma limit_guard_ok {A} (P : Prop) `{Decision P} w l (k : oresult A) a :
  (if decide P then over_limit w l else k) = Ok a ↔ ¬ P ∧ k = Ok a.
Proof. apply guard_ok. Qed.
#[export] Hint Rewrite @document_guard_ok @limit_guard_ok : rust_ok.

Lemma np_invalid_document {A} d r : no_panic (@invalid_document A d r).
Proof. done. Qed.
Lemma np_over_limit {A} w l : no_panic (@over_limit A w l).
Proof. done. Qed.
#[export] Hint Resolve np_invalid_document np_over_limit : no_panic.

Module VerifyLimits.
Record t : Set := verify_limits {
  max_layout_bytes : N;
  max_index_bytes : N;
  max_manifest_bytes : N;
  max_config_bytes : N;
  max_layer_bytes : N;
  max_layer_uncompressed_bytes : N;
  max_total_uncompressed_bytes : N;
  max_decompression_ratio : N;
  max_zstd_window_log : N;
  max_total_descriptors : N;
  max_descriptors_per_index : N;
  max_layers : N;
  max_index_depth : N;
  max_json_nodes : N;
  max_json_depth : N;
  max_array_entries : N;
  max_object_entries : N;
  max_json_string_bytes : N;
  max_total_json_string_bytes : N;
  max_process_entries : N;
  max_process_string_bytes : N;
  max_labels : N;
}.

Definition default : t := {|
  max_layout_bytes := 4 * 1024;
  max_index_bytes := 4 * 1024 * 1024;
  max_manifest_bytes := 4 * 1024 * 1024;
  max_config_bytes := 16 * 1024 * 1024;
  max_layer_bytes := 128 * 1024 * 1024 * 1024;
  max_layer_uncompressed_bytes := 64 * 1024 * 1024 * 1024;
  max_total_uncompressed_bytes := 256 * 1024 * 1024 * 1024;
  max_decompression_ratio := 65536;
  max_zstd_window_log := 27;
  max_total_descriptors := 4096;
  max_descriptors_per_index := 1024;
  max_layers := 2048;
  max_index_depth := 8;
  max_json_nodes := 1000000;
  max_json_depth := 96;
  max_array_entries := 100000;
  max_object_entries := 100000;
  max_json_string_bytes := 1024 * 1024;
  max_total_json_string_bytes := 16 * 1024 * 1024;
  max_process_entries := 16384;
  max_process_string_bytes := 64 * 1024;
  max_labels := 16384;
|}.
End VerifyLimits.

(** ** Digests *)
Section digest.
Context {hex : Hex}.

(** [impl Display for DescriptorDigest] *)
Definition descriptor_digest_text (d : Digest) : bytes := bs "sha256:" ++ hex_encode d.

Definition parse_digest (text context : bytes) : oresult Digest :=
  match strip_prefix (bs "sha256:") text with
  | None => Err (OciError.InvalidDigest context text (bs "only canonical sha256 digests are accepted"))
  | Some encoded =>
    if decide (¬ is_hex64 encoded)
    then Err (OciError.InvalidDigest context text
                (bs "payload must be exactly 64 lowercase hexadecimal digits")) else
    decoded ← map_err (OciError.InvalidDigest context text) (hex_decode encoded);
    if decide (len decoded ≠ 32%N)
    then Err (OciError.InvalidDigest context text (bs "decoded digest is not 32 bytes")) else
    Ok decoded
  end.
End digest.

(** A digest has one text, and only that text parses to it. *)
Lemma parse_digest_Ok `{HexLaws} text context d :
  parse_digest text context = Ok d ↔ is_digest d ∧ text = descriptor_digest_text d.
Proof.
  unfold parse_digest, descriptor_digest_text. rewrite hex_encode_lower. split.
  - destruct (strip_prefix _ text) as [e|] eqn:He; [|done]. apply strip_prefix_Some in He as ->.
    intros [Hx Hd]%guard_ok. apply dec_stable, is_hex64_iff in Hx as (c & -> & Hc).
    rewrite hex_decode_lower in Hd. cbn [map_err] in Hd. by apply bind_ok in Hd as (? & [= <-] & [_ [= <-]]%guard_ok).
  - intros [Hd ->]. rewrite (proj2 (strip_prefix_Some _ _ (hex_lower d))) by done.
    rewrite decide_False by (intros []; apply is_hex64_iff; eauto). rewrite hex_decode_lower. cbn [map_err]. rsimpl.
    rewrite decide_False; [done|]. intros Hn. by apply Hn, digest_len.
Qed.
