(* ===== verification/OciJson.v ===== *)
(** * JSON documents: crates/pocket-oci/src/layout.rs

    [parse_json]: a document is read by serde_json into a value without duplicate
    object keys, the value is measured against the limits, and only then decoded.
    serde_json itself is an interface: what its deserializer hands to the visitor. *)

From S2P Require Import Prelude RustStr ByteOrder ProtocolError NoPanic StoreCodec HexText OciError.

#[local] Arguments bs : simpl never.
#[local] Arguments len : simpl never.

(** [serde_json::Number]; a float is its 64 bits *)
Inductive Number : Set :=
| PosInt (n : N)
| NegInt (z : Z)
| Float (bits : N).

(** [serde_json::Value]; an object is a [BTreeMap], its entries in key order *)
Module Value.
Inductive t : Set :=
| Null
| Bool (b : bool)
| Num (n : Number)
| String (s : bytes)
| Array (values : list t)
| Object (values : list (bytes * t)).
End Value.

(** What [deserialize_any] hands to a visitor: one scalar, or the elements of a
    sequence or of a map one after the other, until one of them is an error. *)
Module Token.
Inductive t : Set :=
| Unit
| Bool (b : bool)
| I64 (z : Z)
| U64 (n : N)
| F64 (bits : N)
| Str (s : bytes)
| Seq (elements : list t)
| Map (entries : list (bytes * t))
| Error (text : bytes).
End Token.

(** serde_json: what [Deserializer::from_slice] delivers for some bytes, whether
    [Deserializer::end] then finds trailing characters, and the text of
    [de::Error::custom]. *)
Class SerdeJson := {
  json_tokens : bytes → Token.t;
  json_end : bytes → option bytes;
  json_custom : bytes → bytes;
}.

Definition is_finite (bits : N) : Prop := N.land (N.shiftr bits 52) 2047 ≠ 2047%N.
#[export] Instance is_finite_dec bits : Decision (is_finite bits).
Proof. unfold is_finite. apply _. Defined.

(** [Map::insert] *)
Fixpoint object_insert (key : bytes) (v : Value.t) (values : list (bytes * Value.t)) : list (bytes * Value.t) :=
  match values with
  | [] => [(key, v)]
  | (key', v') :: values' =>
    match bytes_compare key key' with
    | Lt => (key, v) :: values
    | Eq => (key, v) :: values'
    | Gt => (key', v') :: object_insert key v values'
    end
  end.

Section json.
Context {serde : SerdeJson}.
(** The [{:?}] text of a string. *)
Context (debug : bytes → bytes).

(** [impl Visitor for UniqueValueVisitor] *)
Fixpoint unique_value (token : Token.t) : result bytes Value.t :=
  match token with
  | Token.Unit => Ok Value.Null
  | Token.Bool b => Ok (Value.Bool b)
  | Token.I64 z => Ok (Value.Num (if decide (0 ≤ z)%Z then PosInt (Z.to_N z) else NegInt z))
  | Token.U64 n => Ok (Value.Num (PosInt n))
  | Token.F64 bits =>
      if decide (is_finite bits) then Ok (Value.Num (Float bits)) else Err (json_custom (bs "non-finite JSON number"))
  | Token.Str s => Ok (Value.String s)
  | Token.Seq elements =>
      values ← (fix visit_seq (elements : list Token.t) : result bytes (list Value.t) :=
                  match elements with
                  | [] => Ok []
                  | e :: elements => v ← unique_value e; values ← visit_seq elements; Ok (v :: values)
                  end) elements;
      Ok (Value.Array values)
  | Token.Map entries =>
      values ← (fix visit_map (entries : list (bytes * Token.t)) (values : list (bytes * Value.t))
                  : result bytes (list (bytes * Value.t)) :=
                  match entries with
                  | [] => Ok values
                  | (key, e) :: entries =>
                    v ← unique_value e;
                    if decide (key ∈ values.*1)
                    then Err (json_custom (bs "duplicate JSON object key " ++ debug key))
                    else visit_map entries (object_insert key v values)
                  end) entries [];
      Ok (Value.Object values)
  | Token.Error text => Err text
  end.

Definition add_json_string (limits : VerifyLimits.t) (document value : bytes) (total : N) : oresult N :=
  if decide (VerifyLimits.max_json_string_bytes limits < len value)%N
  then over_limit (bs "JSON string length in " ++ document) (VerifyLimits.max_json_string_bytes limits) else
  total ← ok_or (checked_add total (len value))
    (OciError.Limit (bs "total JSON string bytes in " ++ document) (VerifyLimits.max_total_json_string_bytes limits));
  if decide (VerifyLimits.max_total_json_string_bytes limits < total)%N
  then over_limit (bs "total JSON string bytes in " ++ document) (VerifyLimits.max_total_json_string_bytes limits) else
  Ok total.

(** The loop over the entries of an object. *)
Fixpoint push_entries (limits : VerifyLimits.t) (document : bytes) (depth : N) (values : list (bytes * Value.t))
    (total : N) (stack : list (Value.t * N)) : oresult (N * list (Value.t * N)) :=
  match values with
  | [] => Ok (total, stack)
  | (key, value) :: values =>
    total ← add_json_string limits document key total;
    push_entries limits document depth values total ((value, depth + 1)%N :: stack)
  end.

(** [while let Some((node, depth)) = stack.pop()]; the top of the stack first. *)
Fixpoint shape_loop (fuel : nat) (limits : VerifyLimits.t) (document : bytes) (nodes total : N)
    (stack : list (Value.t * N)) : oresult () :=
  match stack, fuel with
  | [], _ => Ok ()
  | _, O => Panic
  | (node, depth) :: stack, S fuel =>
    nodes ← ok_or (checked_add nodes 1)
      (OciError.Limit (bs "JSON node count in " ++ document) (VerifyLimits.max_json_nodes limits));
    if decide (VerifyLimits.max_json_nodes limits < nodes)%N
    then over_limit (bs "JSON node count in " ++ document) (VerifyLimits.max_json_nodes limits) else
    if decide (VerifyLimits.max_json_depth limits < depth)%N
    then over_limit (bs "JSON nesting depth in " ++ document) (VerifyLimits.max_json_depth limits) else
    match node with
    | Value.String value =>
        total ← add_json_string limits document value total;
        shape_loop fuel limits document nodes total stack
    | Value.Array values =>
        if decide (VerifyLimits.max_array_entries limits < len values)%N
        then over_limit (bs "JSON array length in " ++ document) (VerifyLimits.max_array_entries limits) else
        shape_loop fuel limits document nodes total (rev_append (map (λ v, (v, depth + 1)%N) values) stack)
    | Value.Object values =>
        if decide (VerifyLimits.max_object_entries limits < len values)%N
        then over_limit (bs "JSON object size in " ++ document) (VerifyLimits.max_object_entries limits) else
        '(total, stack) ← push_entries limits document depth values total stack;
        shape_loop fuel limits document nodes total stack
    | _ => shape_loop fuel limits document nodes total stack
    end
  end.

(** The number of values in a value. *)
Fixpoint value_nodes (v : Value.t) : nat :=
  match v with
  | Value.Array l => S (list_sum (map value_nodes l))
  | Value.Object l => S (list_sum (map (λ e, value_nodes e.2) l))
  | _ => 1
  end.

Definition validate_json_shape (limits : VerifyLimits.t) (document : bytes) (value : Value.t) : oresult () :=
  shape_loop (value_nodes value) limits document 0 0 [(value, 0%N)].

(** [from_value] is [serde_json::from_value], given by the derived [Deserialize]. *)
Definition parse_json {T} (from_value : Value.t → bytes + T) (limits : VerifyLimits.t) (b document : bytes)
    : oresult T :=
  unique ← map_err (OciError.Json document) (unique_value (json_tokens b));
  match json_end b with
  | Some text => Err (OciError.Json document text)
  | None =>
    validate_json_shape limits document unique;;
    match from_value unique with
    | inl source => Err (OciError.Json document source)
    | inr value => Ok value
    end
  end.
End json.

(** ** Embedded data *)

Definition symbol (b : byte) : option N :=
  let c := code b in
  if decide (65 ≤ c ≤ 90)%N then Some (c - 65)%N else
  if decide (97 ≤ c ≤ 122)%N then Some (c - 97 + 26)%N else
  if decide (48 ≤ c ≤ 57)%N then Some (c - 48 + 52)%N else
  if decide (c = 43)%N then Some 62%N else
  if decide (c = 47)%N then Some 63%N else None.

(** One round over a group of four; the accumulator is a [u32] of 24 bits. *)
Definition decode_group (last : bool) (b0 b1 b2 b3 : byte) : option bytes :=
  if decide (last = false ∧ x3d ∈ [b0; b1; b2; b3]) then None else
  padding ← (if last
             then if decide (b2 = x3d)
                  then if decide (b3 = x3d) then Some 2%N else None
                  else if decide (b3 = x3d) then Some 1%N else Some 0%N
             else Some 0%N);
  v0 ← symbol b0;
  v1 ← symbol b1;
  v2 ← (if decide (padding = 2)%N then Some 0%N else symbol b2);
  v3 ← (if decide (padding = 0)%N then symbol b3 else Some 0%N);
  let push acc v := N.lor (N.shiftl acc 6) v in
  let accumulator := push (push (push (push 0%N v0) v1) v2) v3 in
  if decide (0 < padding ∧ N.land accumulator (N.shiftl 1 (padding * 8) - 1) ≠ 0)%N then None else
  Some (take (N.to_nat (3 - padding))
          [byte_of_N (N.shiftr accumulator 16); byte_of_N (N.shiftr accumulator 8); byte_of_N accumulator]).

(** [bytes.chunks_exact(4)]; the group is the last one when nothing follows it. *)
Fixpoint decode_groups (b : bytes) : option bytes :=
  match b with
  | b0 :: b1 :: b2 :: b3 :: rest =>
    octets ← decode_group (bool_decide (rest = [])) b0 b1 b2 b3;
    decoded ← decode_groups rest;
    Some (octets ++ decoded)
  | _ => Some []
  end.

Definition decode_canonical_base64 (text : bytes) : option bytes :=
  if decide (text = []) then Some [] else
  if decide (len text mod 4 ≠ 0)%N then None else
  decode_groups text.

(** The base64 alphabet and the encoding of RFC 4648 with padding. *)
Definition ALPHABET : bytes := bs "ABCDEFGHIJKLMNOPQRSTUVWXYZabcdefghijklmnopqrstuvwxyz0123456789+/".
Definition letter (n : N) : byte := default x00 (ALPHABET !! N.to_nat n).

Fixpoint encode_base64 (b : bytes) : bytes :=
  match b with
  | [] => []
  | [x] => [letter (code x / 4); letter (code x mod 4 * 16); x3d; x3d]%N
  | [x; y] => [letter (code x / 4); letter (code x mod 4 * 16 + code y / 16); letter (code y mod 16 * 4); x3d]%N
  | x :: y :: z :: rest =>
    [letter (code x / 4); letter (code x mod 4 * 16 + code y / 16); letter (code y mod 16 * 4 + code z / 64);
     letter (code z mod 64)]%N ++ encode_base64 rest
  end.

Lemma symbol_letter v : (v < 64)%N → symbol (letter v) = Some v.
Proof.
  intros Hv. assert (Forall (λ n, symbol (letter (N.of_nat n)) = Some (N.of_nat n)) (seq 0 64)) as H
    by (by apply (bool_decide_unpack _)).
  rewrite Forall_seq in H. specialize (H (N.to_nat v)). rewrite N2Nat.id in H. apply H. lia.
Qed.

Lemma symbol_Some b v : symbol b = Some v ↔ (v < 64)%N ∧ b = letter v.
Proof.
  split; [|intros [? ->]; by apply symbol_letter].
  assert (∀ b, match symbol b with Some v => (v < 64)%N ∧ b = letter v | None => True end) as H by by_bytes.
  specialize (H b). intros E. by rewrite E in H.
Qed.

Lemma symbol_pad : symbol x3d = None.
Proof. done. Qed.

Lemma push_sextet acc v : (v < 64)%N → N.lor (N.shiftl acc 6) v = (acc * 64 + v)%N.
Proof.
  intros Hv. rewrite N.shiftl_mul_pow2. change 64%N with (2 ^ 6)%N in *.
  assert (N.land (acc * 2 ^ 6) v = 0%N) as Hz.
  { apply N.bits_inj. intros i. rewrite N.land_spec, N.bits_0.
    destruct (decide (i < 6)%N); [by rewrite N.mul_pow2_bits_low|].
    rewrite (N.testbit_eqb v), N.div_small; [by rewrite andb_false_r|].
    eapply N.lt_le_trans; [exact Hv|]. apply N.pow_le_mono_r; lia. }
  by rewrite (N.add_nocarry_lxor _ _ Hz), (N.lxor_lor _ _ Hz).
Qed.

Lemma byte_of_N_unique n b : byte_of_N n = b ↔ (n mod 256 = code b)%N.
Proof. rewrite <- code_byte_of_N. split; [by intros ->|apply (inj Byte.to_N)]. Qed.

Definition word (v0 v1 v2 v3 : N) : N := (((v0 * 64 + v1) * 64 + v2) * 64 + v3)%N.

Lemma word_octets w x y z :
  (w < 16777216 → x < 256 → y < 256 → z < 256 →
   (w / 65536 mod 256 = x ∧ w / 256 mod 256 = y ∧ w mod 256 = z ↔ w = x * 65536 + y * 256 + z))%N.
Proof.
  intros Hw Hx Hy Hz. split; [intros (H1 & H2 & H3)|intros ->].
  - rewrite N.mod_small in H1 by (apply N.Div0.div_lt_upper_bound; lia).
    pose proof (N.Div0.div_mod w 256). pose proof (N.Div0.div_mod (w / 256) 256). rewrite N.Div0.div_div in *. change (256 * 256)%N with 65536%N in *. lia.
  - assert ((x * 65536 + y * 256 + z) / 256 = x * 256 + y)%N as E by (symmetry; apply (N.div_unique _ _ _ z); lia).
    assert ((x * 65536 + y * 256 + z) / 65536 = x)%N as -> by (symmetry; apply (N.div_unique _ _ _ (y * 256 + z)); lia).
    rewrite E. split_and!; [by apply N.mod_small|symmetry; apply (N.mod_unique _ _ x); lia|].
    symmetry. apply (N.mod_unique _ _ (x * 256 + y)); lia.
Qed.

Lemma word_sextets v0 v1 v2 v3 x y z :
  (v0 < 64 → v1 < 64 → v2 < 64 → v3 < 64 → x < 256 → y < 256 → z < 256 →
  (word v0 v1 v2 v3 = x * 65536 + y * 256 + z ↔
   v0 = x / 4 ∧ v1 = x mod 4 * 16 + y / 16 ∧ v2 = y mod 16 * 4 + z / 64 ∧ v3 = z mod 64))%N.
Proof.
  intros H0 H1 H2 H3 Hx Hy Hz. unfold word. pose proof (N.Div0.div_mod x 4). pose proof (N.mod_lt x 4 ltac:(done)).
  pose proof (N.Div0.div_mod y 16). pose proof (N.mod_lt y 16 ltac:(done)).
  pose proof (N.Div0.div_mod z 64). pose proof (N.mod_lt z 64 ltac:(done)).
  generalize dependent (x / 4)%N. generalize dependent (x mod 4)%N. generalize dependent (y / 16)%N.
  generalize dependent (y mod 16)%N. generalize dependent (z / 64)%N. generalize dependent (z mod 64)%N.
  intros f ? e ? d ? c ? b ? a ?. subst x y z. split; [intros E|intros (-> & -> & -> & ->); lia].
  assert (v0 = a) as -> by lia. assert (v1 = b * 16 + c)%N as -> by lia.
  assert (v2 = d * 4 + e)%N as -> by lia. lia.
Qed.

Lemma word_bound v0 v1 v2 v3 : (v0 < 64 → v1 < 64 → v2 < 64 → v3 < 64 → word v0 v1 v2 v3 < 16777216)%N.
Proof. unfold word. lia. Qed.

Definition octets (w : N) : bytes := [byte_of_N (N.shiftr w 16); byte_of_N (N.shiftr w 8); byte_of_N w].

Lemma octets_of_word v0 v1 v2 v3 x y z :
  (v0 < 64 → v1 < 64 → v2 < 64 → v3 < 64 →
  octets (word v0 v1 v2 v3) = [x; y; z] ↔
  v0 = code x / 4 ∧ v1 = code x mod 4 * 16 + code y / 16 ∧ v2 = code y mod 16 * 4 + code z / 64 ∧
    v3 = code z mod 64)%N.
Proof.
  intros. pose proof (code_bound x). pose proof (code_bound y). pose proof (code_bound z).
  rewrite <- word_sextets, <- word_octets by (done || by apply word_bound). unfold octets. rewrite !N.shiftr_div_pow2.
  change (2 ^ 16)%N with 65536%N. change (2 ^ 8)%N with 256%N. rewrite <- !byte_of_N_unique.
  split; [by intros [= -> -> ->]|by intros (-> & -> & ->)].
Qed.

Definition quad (x y z : byte) : bytes :=
  [letter (code x / 4); letter (code x mod 4 * 16 + code y / 16); letter (code y mod 16 * 4 + code z / 64);
   letter (code z mod 64)]%N.

Lemma sextets_bound x y z :
  (code x / 4 < 64 ∧ code x mod 4 * 16 + code y / 16 < 64 ∧ code y mod 16 * 4 + code z / 64 < 64 ∧ code z mod 64 < 64)%N.
Proof.
  pose proof (code_bound x). pose proof (code_bound y). pose proof (code_bound z).
  pose proof (N.mod_lt (code x) 4 ltac:(done)). pose proof (N.mod_lt (code y) 16 ltac:(done)).
  pose proof (N.mod_lt (code z) 64 ltac:(done)).
  assert (code x / 4 < 64)%N by (apply N.Div0.div_lt_upper_bound; lia).
  assert (code y / 16 < 16)%N by (apply N.Div0.div_lt_upper_bound; lia).
  assert (code z / 64 < 4)%N by (apply N.Div0.div_lt_upper_bound; lia). lia.
Qed.

(** The four symbols of a group and the three bytes they stand for. *)
Definition group_word (b0 b1 b2 b3 : byte) (w : N) : Prop :=
  ∃ v0 v1 v2 v3, symbol b0 = Some v0 ∧ symbol b1 = Some v1 ∧ symbol b2 = Some v2 ∧ symbol b3 = Some v3 ∧
    w = word v0 v1 v2 v3.

Lemma group_word_quad b0 b1 b2 b3 x y z :
  (∃ w, group_word b0 b1 b2 b3 w ∧ octets w = [x; y; z]) ↔ [b0; b1; b2; b3] = quad x y z.
Proof.
  unfold group_word. setoid_rewrite symbol_Some. split.
  - intros (? & (v0 & v1 & v2 & v3 & (? & ->) & (? & ->) & (? & ->) & (? & ->) & ->) & E).
    by apply octets_of_word in E as (-> & -> & -> & ->).
  - intros [= -> -> -> ->]. destruct (sextets_bound x y z) as (? & ? & ? & ?).
    exists (word (code x / 4) (code x mod 4 * 16 + code y / 16) (code y mod 16 * 4 + code z / 64) (code z mod 64))%N.
    split; [|by apply octets_of_word]. do 4 eexists. repeat split; done.
Qed.

(** A byte is zero exactly when the symbols that only carry its bits are. *)
Lemma low_bits n k : N.land n (N.shiftl 1 k - 1) = (n mod 2 ^ k)%N.
Proof. rewrite N.shiftl_1_l, <- N.pred_sub, <- N.ones_equiv. apply N.land_ones. Qed.

Lemma octets_zero w x y z : octets w = [x; y; z] → (w mod 256 = 0 ↔ z = x00)%N ∧ (w mod 65536 = 0 ↔ y = x00 ∧ z = x00)%N.
Proof.
  intros [= Hx Hy Hz]. apply byte_of_N_unique in Hy, Hz. rewrite N.shiftr_div_pow2 in Hy. change (2 ^ 8)%N with 256%N in Hy.
  assert (∀ b, code b = 0%N ↔ b = x00) as Hzero by (intros b; split; [apply (inj Byte.to_N b x00)|by intros ->]).
  rewrite <- !Hzero, <- Hy, <- Hz. split; [done|]. change 65536%N with (256 * 256)%N. rewrite N.Div0.mod_mul_r. lia.
Qed.

Lemma symbol_A v : symbol x41 = Some v ↔ v = 0%N.
Proof. change (symbol x41) with (Some 0%N). naive_solver. Qed.

(** The groups that decode, with their padding. *)
Definition group_is (last : bool) (b0 b1 b2 b3 : byte) (o : bytes) : Prop :=
  (∃ x y z, [b0; b1; b2; b3] = quad x y z ∧ o = [x; y; z]) ∨
  (last = true ∧ ∃ x y, b3 = x3d ∧ [b0; b1; b2; x41] = quad x y x00 ∧ o = [x; y]) ∨
  (last = true ∧ ∃ x, b2 = x3d ∧ b3 = x3d ∧ [b0; b1; x41; x41] = quad x x00 x00 ∧ o = [x]).

Lemma quad_no_pad x y z : x3d ∉ quad x y z.
Proof.
  destruct (sextets_bound x y z) as (H0 & H1 & H2 & H3). unfold quad.
  assert (∀ v, (v < 64)%N → x3d ≠ letter v) as H by (intros v Hv E; apply symbol_letter in Hv; by rewrite <- E in Hv).
  rewrite !elem_of_cons, elem_of_nil. intros [E|[E|[E|[E|[]]]]]; revert E; by apply H.
Qed.

Lemma word_pushed v0 v1 v2 v3 : (v0 < 64 → v1 < 64 → v2 < 64 → v3 < 64 →
  N.lor (N.shiftl (N.lor (N.shiftl (N.lor (N.shiftl (N.lor (N.shiftl 0 6) v0) 6) v1) 6) v2) 6) v3 = word v0 v1 v2 v3)%N.
Proof. intros. by rewrite !push_sextet. Qed.

(** The part of a round after the padding is known. *)
Lemma group_rest (padding : N) b0 b1 b2 b3 o : (padding ≤ 2)%N →
  (v0 ← symbol b0; v1 ← symbol b1; v2 ← symbol b2; v3 ← symbol b3;
   let push acc v := N.lor (N.shiftl acc 6) v in
   let accumulator := push (push (push (push 0%N v0) v1) v2) v3 in
   if decide (0 < padding ∧ N.land accumulator (N.shiftl 1 (padding * 8) - 1) ≠ 0)%N then None else
   Some (take (N.to_nat (3 - padding)) (octets accumulator))) = Some o ↔
  ∃ x y z, [b0; b1; b2; b3] = quad x y z ∧ o = take (N.to_nat (3 - padding)) [x; y; z] ∧
    (padding = 1%N → z = x00) ∧ (padding = 2%N → y = x00 ∧ z = x00).
Proof.
  intros Hp. setoid_rewrite <- group_word_quad. unfold group_word. rewrite bind_Some. setoid_rewrite bind_Some.
  setoid_rewrite bind_Some. setoid_rewrite bind_Some. cbv zeta.
  assert (∀ w x y z, octets w = [x; y; z] →
    ¬ (0 < padding ∧ N.land w (N.shiftl 1 (padding * 8) - 1) ≠ 0)%N ↔
    (padding = 1%N → z = x00) ∧ (padding = 2%N → y = x00 ∧ z = x00)) as Hpad.
  { intros w x y z Hw. apply octets_zero in Hw as [H1 H2]. rewrite low_bits.
    assert (padding = 0 ∨ padding = 1 ∨ padding = 2)%N as Hc by lia.
    destruct Hc as [Hc|[Hc|Hc]]; subst padding; [naive_solver lia|change (2 ^ (1 * 8))%N with 256%N; rewrite <- H1|
      change (2 ^ (2 * 8))%N with 65536%N; rewrite <- H2]; (split; [intros Hn|intros [Ha Hb] [_ Hn]]);
      try (split; intros ?; done || lia); by (apply Hn, Ha || apply Hn, Hb). }
  split.
  - intros (v0 & H0 & v1 & H1 & v2 & H2 & v3 & H3 & Hif).
    rewrite word_pushed in Hif by (by eapply symbol_Some). case_decide as Hd; [done|]. injection Hif as <-.
    destruct (octets (word v0 v1 v2 v3)) as [|x [|y [|z []]]] eqn:Ho; try done.
    exists x, y, z. rewrite <- (Hpad _ _ _ _ Ho). naive_solver.
  - intros (x & y & z & (w & (v0 & v1 & v2 & v3 & H0 & H1 & H2 & H3 & ->) & Ho) & -> & Hz).
    apply (Hpad _ _ _ _ Ho) in Hz. exists v0; split; [done|]. exists v1; split; [done|]. exists v2; split; [done|].
    exists v3; split; [done|]. rewrite word_pushed by (by eapply symbol_Some). rewrite decide_False by done. by rewrite Ho.
Qed.

Lemma decode_group_Some last b0 b1 b2 b3 o : decode_group last b0 b1 b2 b3 = Some o ↔ group_is last b0 b1 b2 b3 o.
Proof.
  pose proof (group_rest 0 b0 b1 b2 b3 o ltac:(done)) as R0. pose proof (group_rest 1 b0 b1 b2 x41 o ltac:(done)) as R1.
  pose proof (group_rest 2 b0 b1 x41 x41 o ltac:(done)) as R2.
  assert (∀ x y z, x3d ∈ [b0; b1; b2; b3] → [b0; b1; b2; b3] ≠ quad x y z) as Hno
    by (intros x y z Hin Eq; rewrite Eq in Hin; by apply quad_no_pad in Hin).
  unfold group_is, decode_group. destruct (decide (last = false ∧ _)) as [[-> Hin]|Hlast].
  { split; [done|]. intros [(x & y & z & Hq & _)|[[? _]|[? _]]]; [by apply Hno in Hq|done..]. }
  destruct last.
  - destruct (decide (b2 = x3d)) as [->|H2]; [destruct (decide (b3 = x3d)) as [->|H3]|destruct (decide (b3 = x3d)) as [->|H3]];
      cbn [mbind option_bind].
    + etrans; [exact R2|]. split.
      * intros (x & y & z & Hq & -> & _ & Hz). destruct (Hz eq_refl) as [-> ->]. right. right. split; [done|]. by exists x.
      * intros [(x & y & z & Hq & _)|[(_ & x & y & _ & Hq & _)|(_ & x & _ & _ & Hq & ->)]];
          [by apply Hno in Hq; [|set_solver]| |exists x, x00, x00; by split_and!].
        exfalso. eapply (quad_no_pad x y x00). rewrite <- Hq. set_solver.
    + split; [done|]. intros [(x & y & z & Hq & _)|[(_ & x & y & -> & _)|(_ & x & _ & -> & _)]]; [|done..].
      by apply Hno in Hq; [|set_solver].
    + etrans; [exact R1|]. split.
      * intros (x & y & z & Hq & -> & Hz & _). rewrite (Hz eq_refl) in Hq. right. left. split; [done|]. by exists x, y.
      * intros [(x & y & z & Hq & _)|[(_ & x & y & _ & Hq & ->)|(_ & x & -> & _)]];
          [by apply Hno in Hq; [|set_solver]|exists x, y, x00; by split_and!|done].
    + etrans; [exact R0|]. split.
      * intros (x & y & z & Hq & -> & _). left. by exists x, y, z.
      * intros [(x & y & z & Hq & ->)|[(_ & x & y & -> & _)|(_ & x & -> & _)]]; [|done..].
        exists x, y, z. by split_and!.
  - cbn [mbind option_bind]. etrans; [exact R0|]. split.
    + intros (x & y & z & Hq & -> & _). left. by exists x, y, z.
    + intros [(x & y & z & Hq & ->)|[[? _]|[? _]]]; [|done..]. exists x, y, z. by split_and!.
Qed.

Lemma encode_one x : ∃ l0 l1, quad x x00 x00 = [l0; l1; x41; x41] ∧ encode_base64 [x] = [l0; l1; x3d; x3d].
Proof. do 2 eexists. unfold quad. split; [|done]. change (code x00 / 16)%N with 0%N. by rewrite N.add_0_r. Qed.
Lemma encode_two x y : ∃ l0 l1 l2, quad x y x00 = [l0; l1; l2; x41] ∧ encode_base64 [x; y] = [l0; l1; l2; x3d].
Proof. do 3 eexists. unfold quad. split; [|done]. change (code x00 / 64)%N with 0%N. by rewrite N.add_0_r. Qed.
Lemma encode_three x y z rest : encode_base64 (x :: y :: z :: rest) = quad x y z ++ encode_base64 rest.
Proof. done. Qed.

Lemma encode_nil b : encode_base64 b = [] → b = [].
Proof. by destruct b as [|x [|y [|z rest]]]. Qed.

(** The last group, with its padding. *)
Lemma last_group b0 b1 b2 b3 o : group_is true b0 b1 b2 b3 o ↔ [b0; b1; b2; b3] = encode_base64 o.
Proof.
  unfold group_is. split.
  - intros [(x & y & z & Hq & ->)|[(_ & x & y & -> & Hq & ->)|(_ & x & -> & -> & Hq & ->)]].
    + by rewrite encode_three, app_nil_r.
    + destruct (encode_two x y) as (l0 & l1 & l2 & E & ->). rewrite E in Hq. by injection Hq as -> -> ->.
    + destruct (encode_one x) as (l0 & l1 & E & ->). rewrite E in Hq. by injection Hq as -> ->.
  - destruct o as [|x [|y [|z rest]]]; [done| | |].
    + destruct (encode_one x) as (l0 & l1 & E & ->). intros [= -> -> -> ->]. right. right. split; [done|].
      exists x. by rewrite E.
    + destruct (encode_two x y) as (l0 & l1 & l2 & E & ->). intros [= -> -> -> ->]. right. left. split; [done|].
      exists x, y. by rewrite E.
    + rewrite encode_three. intros Hq. assert (encode_base64 rest = []) as Hr%encode_nil.
      { apply (f_equal length) in Hq. rewrite length_app in Hq. simpl in Hq. apply nil_length_inv. lia. }
      subst rest. rewrite app_nil_r in Hq. left. by exists x, y, z.
Qed.

Lemma decode_groups_Some n text b :
  length text = 4 * n → decode_groups text = Some b ↔ text = encode_base64 b.
Proof.
  revert text b. induction n as [|n IH]; intros text b Hl.
  { apply nil_length_inv in Hl as ->. split; [by intros [= <-]|]. intros E. symmetry in E. by apply encode_nil in E as ->. }
  destruct text as [|b0 [|b1 [|b2 [|b3 rest]]]]; simpl in Hl; try lia.
  cbn [decode_groups]. rewrite bind_Some. setoid_rewrite bind_Some. setoid_rewrite decode_group_Some.
  case_bool_decide as Hr.
  - subst rest. setoid_rewrite last_group. split.
    + intros (o & -> & ? & [= <-] & [= <-]). by rewrite app_nil_r.
    + intros E. exists b. split; [done|]. exists []. by rewrite app_nil_r.
  - setoid_rewrite (IH rest); [|lia]. unfold group_is. split.
    + intros (o & [(x & y & z & Hq & ->)|[[? _]|[? _]]] & d & -> & [= <-]); [|done..].
      change (b0 :: b1 :: b2 :: b3 :: encode_base64 d) with ([b0; b1; b2; b3] ++ encode_base64 d). by rewrite Hq.
    + intros E. assert (∃ x y z d, b = x :: y :: z :: d) as (x & y & z & d & ->).
      { destruct b as [|x [|y [|z d]]]; [done| | |by eauto]; exfalso; simpl in E; injection E; intros; subst; done. }
      rewrite encode_three in E. change (b0 :: b1 :: b2 :: b3 :: rest) with ([b0; b1; b2; b3] ++ rest) in E.
      apply app_inj_1 in E as [Hq ->]; [|done]. exists [x; y; z]. split; [left; by exists x, y, z|]. by exists d.
Qed.

Lemma length_encode_base64 n b : length b ≤ n → ∃ k, length (encode_base64 b) = 4 * k.
Proof.
  revert b. induction n as [|n IH]; intros b Hn; [destruct b; [by exists 0|simpl in Hn; lia]|].
  destruct b as [|x [|y [|z rest]]]; [by exists 0|by exists 1|by exists 1|].
  rewrite encode_three, length_app. destruct (IH rest) as [k ->]; [simpl in Hn; lia|].
  exists (S k). change (length (quad x y z)) with 4. lia.
Qed.

(** Data embedded in a descriptor has one text.  A text decodes to some bytes exactly
    when it is their base64 encoding with padding, so no two texts are accepted for
    the same bytes. *)
Theorem base64_exact text b : decode_canonical_base64 text = Some b ↔ text = encode_base64 b.
Proof.
  unfold decode_canonical_base64. case_decide as Hn.
  { subst text. split; [by intros [= <-]|]. intros E. symmetry in E. by apply encode_nil in E as ->. }
  case_decide as Hm.
  - split; [done|]. intros ->. destruct (length_encode_base64 (length b) b) as [k Hk]; [done|].
    destruct Hm. unfold len. rewrite Hk. rewrite Nat2N.inj_mul, N.mul_comm. apply N.Div0.mod_mul.
  - unfold len in Hm. apply (decode_groups_Some (length text / 4)).
    apply N.Div0.mod_divides in Hm as [k Hk]. assert (length text = N.to_nat k * 4) as E by lia.
    rewrite E, Nat.div_mul by done. lia.
Qed.

(** ** What [validate_json_shape] bounds *)

Definition all {A} (P : A → Prop) (l : list A) : Prop := foldr (λ a Q, P a ∧ Q) True l.

Lemma all_Forall {A} (P : A → Prop) l : all P l ↔ Forall P l.
Proof. induction l as [|a l IH]; simpl; [done|]. by rewrite Forall_cons, IH. Qed.

(** The bytes of the strings and keys of a value. *)
Fixpoint value_strings (v : Value.t) : N :=
  match v with
  | Value.String s => len s
  | Value.Array l => sum_of value_strings l
  | Value.Object l => sum_of (λ e, len e.1 + value_strings e.2)%N l
  | _ => 0%N
  end.

Fixpoint value_shape (limits : VerifyLimits.t) (depth : N) (v : Value.t) : Prop :=
  (depth ≤ VerifyLimits.max_json_depth limits)%N ∧
  match v with
  | Value.String s => (len s ≤ VerifyLimits.max_json_string_bytes limits)%N
  | Value.Array l =>
      (len l ≤ VerifyLimits.max_array_entries limits)%N ∧ all (value_shape limits (depth + 1)) l
  | Value.Object l =>
      (len l ≤ VerifyLimits.max_object_entries limits)%N ∧
      all (λ e, (len e.1 ≤ VerifyLimits.max_json_string_bytes limits)%N ∧ value_shape limits (depth + 1) e.2) l
  | _ => True
  end.

Record json_bounded (limits : VerifyLimits.t) (v : Value.t) : Prop := {
  bounded_nodes : (N.of_nat (value_nodes v) ≤ VerifyLimits.max_json_nodes limits)%N;
  bounded_strings : (value_strings v ≤ VerifyLimits.max_total_json_string_bytes limits)%N;
  bounded_shape : value_shape limits 0 v;
}.

Definition stack_nodes (stack : list (Value.t * N)) : nat := list_sum (map (λ e, value_nodes e.1) stack).
Definition stack_strings (stack : list (Value.t * N)) : N := sum_of (λ e, value_strings e.1) stack.
(** The children of an array or an object, as the stack holds them. *)
Definition pushed (depth : N) (l : list Value.t) : list (Value.t * N) := map (λ v, (v, depth + 1)%N) l.

Lemma stack_nodes_pushed a b : stack_nodes (rev_append a b) = stack_nodes a + stack_nodes b.
Proof. revert b. unfold stack_nodes. induction a as [|e a IH]; intros b; simpl; [done|]. rewrite IH. simpl. lia. Qed.
Lemma stack_strings_pushed a b : stack_strings (rev_append a b) = (stack_strings a + stack_strings b)%N.
Proof. revert b. unfold stack_strings. induction a as [|e a IH]; intros b; simpl; [done|]. rewrite IH. simpl. lia. Qed.
Lemma pushed_nodes depth l : stack_nodes (pushed depth l) = list_sum (map value_nodes l).
Proof. unfold stack_nodes, pushed. by rewrite map_map. Qed.
Lemma pushed_strings depth l : stack_strings (pushed depth l) = sum_of value_strings l.
Proof. unfold stack_strings, pushed. induction l as [|v l IH]; simpl; [done|]. by rewrite IH. Qed.
Lemma object_strings (l : list (bytes * Value.t)) :
  sum_of (λ e, len e.1 + value_strings e.2)%N l = (sum_of (λ e, len e.1) l + sum_of value_strings l.*2)%N.
Proof. induction l as [|e l IH]; simpl; [done|]. change (list_fmap _ _ snd l) with (l.*2). rewrite IH. lia. Qed.
Lemma stack_nodes_cons v depth stack : stack_nodes ((v, depth) :: stack) = value_nodes v + stack_nodes stack.
Proof. done. Qed.
Lemma stack_strings_cons v depth stack : stack_strings ((v, depth) :: stack) = (value_strings v + stack_strings stack)%N.
Proof. done. Qed.
Lemma value_nodes_pos v : 1 ≤ value_nodes v.
Proof. destruct v; simpl; lia. Qed.

Section shape.
Context (limits : VerifyLimits.t) (document : bytes).
Context (Hnodes : (VerifyLimits.max_json_nodes limits < u64_bound)%N).
Context (Hstrings : (VerifyLimits.max_total_json_string_bytes limits < u64_bound)%N).
#[local] Abbreviation max_total := (VerifyLimits.max_total_json_string_bytes limits).

Lemma add_json_string_Ok s total total' :
  add_json_string limits document s total = Ok total' ↔
  (len s ≤ VerifyLimits.max_json_string_bytes limits)%N ∧ total' = (total + len s)%N ∧ (total' ≤ max_total)%N.
Proof.
  unfold add_json_string. rewrite limit_guard_ok, N.nlt_ge, bind_ok. setoid_rewrite ok_or_ok.
  setoid_rewrite checked_add_Some. setoid_rewrite limit_guard_ok. setoid_rewrite N.nlt_ge.
  setoid_rewrite ok_inj. split; [naive_solver|]. intros (? & -> & ?). split; [done|]. eexists. split_and!; [done|lia|done..].
Qed.

Definition stack_shape (stack : list (Value.t * N)) : Prop := Forall (λ e, value_shape limits e.2 e.1) stack.

Lemma push_entries_Ok depth values total stack total' stack' :
  (total ≤ max_total)%N →
  push_entries limits document depth values total stack = Ok (total', stack') ↔
  Forall (λ e, len e.1 ≤ VerifyLimits.max_json_string_bytes limits)%N values ∧
  total' = (total + sum_of (λ e, len e.1) values)%N ∧ (total' ≤ max_total)%N ∧
  stack' = rev_append (map (λ e, (e.2, depth + 1)%N) values) stack.
Proof.
  revert total stack. induction values as [|[key v] values IH]; intros total stack Ht; simpl.
  { rewrite ok_inj, N.add_0_r. split; [intros [= <- <-]; by auto|]. by intros (_ & -> & _ & ->). }
  rewrite bind_ok, Forall_cons. setoid_rewrite add_json_string_Ok. split.
  - intros (t & (? & -> & ?) & (? & -> & ? & ->)%IH); [|done]. split_and!; try done; lia.
  - intros ((? & ?) & -> & ? & ->). eexists. split; [split_and!; [done|done|lia]|]. apply IH; [lia|]. split_and!; [done|lia..|done].
Qed.
Lemma stack_shape_pushed a b : stack_shape (rev_append a b) ↔ stack_shape a ∧ stack_shape b.
Proof.
  revert b. unfold stack_shape. induction a as [|e a IH]; intros b; simpl; [rewrite Forall_nil; tauto|].
  rewrite IH, !Forall_cons. tauto.
Qed.

Lemma pushed_shape depth l : stack_shape (pushed depth l) ↔ Forall (value_shape limits (depth + 1)) l.
Proof. unfold stack_shape, pushed. by rewrite Forall_fmap. Qed.


Lemma stack_shape_cons v depth stack : stack_shape ((v, depth) :: stack) ↔ value_shape limits depth v ∧ stack_shape stack.
Proof. unfold stack_shape. by rewrite Forall_cons. Qed.

(** One round: the node itself, then whatever the rest of the loop does. *)
Lemma shape_round fuel nodes total v depth stack :
  (nodes ≤ VerifyLimits.max_json_nodes limits)%N →
  let rest stack' total' := shape_loop fuel limits document (nodes + 1) total' stack' in
  shape_loop (S fuel) limits document nodes total ((v, depth) :: stack) = Ok () ↔
  (nodes + 1 ≤ VerifyLimits.max_json_nodes limits)%N ∧ (depth ≤ VerifyLimits.max_json_depth limits)%N ∧
  match v with
  | Value.String s => ∃ total', add_json_string limits document s total = Ok total' ∧ rest stack total' = Ok ()
  | Value.Array l => (len l ≤ VerifyLimits.max_array_entries limits)%N ∧ rest (rev_append (pushed depth l) stack) total = Ok ()
  | Value.Object l => (len l ≤ VerifyLimits.max_object_entries limits)%N ∧
      ∃ total' stack', push_entries limits document depth l total stack = Ok (total', stack') ∧ rest stack' total' = Ok ()
  | _ => rest stack total = Ok ()
  end.
Proof.
  intros Hn. cbn [shape_loop]. rewrite bind_ok. setoid_rewrite ok_or_ok. setoid_rewrite checked_add_Some.
  setoid_rewrite limit_guard_ok. setoid_rewrite limit_guard_ok. setoid_rewrite N.nlt_ge.
  assert (∀ P : N → Prop, (∃ a, (a = nodes + 1 ∧ a < u64_bound)%N ∧ P a) ↔ (nodes + 1 < u64_bound)%N ∧ P (nodes + 1)%N) as E
    by naive_solver.
  rewrite E. cbv zeta. split.
  - intros (_ & ? & ? & H). split_and!; [done..|]. destruct v; try done.
    + by apply bind_ok in H.
    + by rewrite limit_guard_ok, N.nlt_ge in H.
    + rewrite limit_guard_ok, N.nlt_ge in H. destruct H as [? H]. split; [done|].
      apply bind_ok in H as ([t s] & ? & ?). eauto.
  - intros (? & ? & H). split_and!; [lia|done..|]. destruct v; try done.
    + by apply bind_ok.
    + by rewrite limit_guard_ok, N.nlt_ge.
    + rewrite limit_guard_ok, N.nlt_ge. destruct H as [? (t & s & ? & ?)]. split; [done|]. apply bind_ok. by exists (t, s).
Qed.

Lemma shape_loop_Ok fuel nodes total stack :
  stack_nodes stack ≤ fuel → (nodes ≤ VerifyLimits.max_json_nodes limits)%N → (total ≤ max_total)%N →
  shape_loop fuel limits document nodes total stack = Ok () ↔
  (nodes + N.of_nat (stack_nodes stack) ≤ VerifyLimits.max_json_nodes limits)%N ∧
  (total + stack_strings stack ≤ max_total)%N ∧ stack_shape stack.
Proof.
  revert nodes total stack. induction fuel as [|fuel IH]; intros nodes total [|[v depth] stack] Hf Hn Ht;
    [unfold stack_shape; rewrite Forall_nil; split; [intros _; split_and!; [cbn; lia..|done]|done]| |
     unfold stack_shape; rewrite Forall_nil; split; [intros _; split_and!; [cbn; lia..|done]|done]|];
    pose proof (value_nodes_pos v); rewrite stack_nodes_cons in Hf; [lia|].
  rewrite shape_round, stack_nodes_cons, stack_strings_cons, stack_shape_cons by done.
  destruct v as [|b|n|s|l|l]; cbn [value_nodes value_strings value_shape] in *.
  1-3: split; [intros (? & ? & (? & ? & ?)%IH); try lia; split_and!; try done; lia|];
       intros (? & ? & (? & _) & ?); split_and!; [lia|done|]; apply IH; try lia; split_and!; done || lia.
  - setoid_rewrite add_json_string_Ok. split.
    + intros (? & ? & t & (? & -> & ?) & (? & ? & ?)%IH); try lia. split_and!; try done; lia.
    + intros (? & ? & (? & ?) & ?). split_and!; [lia|done|]. eexists. split; [split_and!; [done..|lia]|].
      apply IH; try lia. split_and!; done || lia.
  - rewrite all_Forall. split.
    + intros (? & ? & ? & Hr). apply IH in Hr; [|rewrite stack_nodes_pushed, pushed_nodes; lia|lia..].
      rewrite stack_nodes_pushed, pushed_nodes, stack_strings_pushed, pushed_strings, stack_shape_pushed, pushed_shape in Hr.
      destruct Hr as (? & ? & ? & ?). split_and!; try done; lia.
    + intros (? & ? & (? & ? & ?) & ?). split_and!; [lia|done..|]. apply IH; [rewrite stack_nodes_pushed, pushed_nodes; lia|lia..|].
      rewrite stack_nodes_pushed, pushed_nodes, stack_strings_pushed, pushed_strings, stack_shape_pushed, pushed_shape.
      split_and!; done || lia.
  - setoid_rewrite push_entries_Ok; [|done].
    assert (map (λ e : bytes * Value.t, (e.2, depth + 1)%N) l = pushed depth l.*2) as -> by (unfold pushed; by rewrite map_map).
    assert (list_sum (map (λ e, value_nodes e.2) l) = list_sum (map value_nodes l.*2)) as En by (by rewrite map_map).
    rewrite all_Forall, object_strings, Forall_and, En in *. rewrite <- (Forall_fmap snd (value_shape limits (depth + 1))). split.
    + intros (? & ? & ? & t & s & (? & -> & ? & ->) & Hr). apply IH in Hr; [|rewrite stack_nodes_pushed, pushed_nodes; lia|lia..].
      rewrite stack_nodes_pushed, pushed_nodes, stack_strings_pushed, pushed_strings, stack_shape_pushed, pushed_shape in Hr.
      destruct Hr as (? & ? & ? & ?). split_and!; try done; lia.
    + intros (? & ? & (? & ? & ? & ?) & ?). split_and!; [lia|done..|]. do 2 eexists. split; [split_and!; [done..|lia|done]|].
      apply IH; [rewrite stack_nodes_pushed, pushed_nodes; lia|lia..|].
      rewrite stack_nodes_pushed, pushed_nodes, stack_strings_pushed, pushed_strings, stack_shape_pushed, pushed_shape.
      split_and!; done || lia.
Qed.
End shape.

Lemma np_add_json_string limits document s total : no_panic (add_json_string limits document s total).
Proof. unfold add_json_string. np. Qed.
#[local] Hint Resolve np_add_json_string : no_panic.
Lemma np_push_entries limits document depth values total stack :
  no_panic (push_entries limits document depth values total stack).
Proof. revert total stack. induction values as [|[k v] values IH]; intros total stack; simpl; np. Qed.
#[local] Hint Resolve np_push_entries : no_panic.

Lemma push_entries_stack limits document depth values total stack total' stack' :
  push_entries limits document depth values total stack = Ok (total', stack') →
  stack' = rev_append (pushed depth values.*2) stack.
Proof.
  revert total stack. induction values as [|[k v] values IH]; intros total stack; simpl; [by intros [= <- <-]|].
  intros (t & _ & ->%IH)%bind_ok. done.
Qed.

Lemma shape_loop_returns fuel limits document nodes total stack :
  stack_nodes stack ≤ fuel → no_panic (shape_loop fuel limits document nodes total stack).
Proof.
  revert nodes total stack. induction fuel as [|fuel IH]; intros nodes total [|[v depth] stack] Hf; try done;
    pose proof (value_nodes_pos v); rewrite stack_nodes_cons in Hf; [lia|].
  cbn [shape_loop]. np; apply IH; cbn [value_nodes] in *; try lia.
  - fold (pushed depth values). rewrite stack_nodes_pushed, pushed_nodes. lia.
  - match goal with H : push_entries _ _ _ _ _ _ = Ok _ |- _ => apply push_entries_stack in H as -> end.
    assert (list_sum (map (λ e, value_nodes e.2) values) = list_sum (map value_nodes values.*2)) as En by (by rewrite map_map).
    rewrite stack_nodes_pushed, pushed_nodes. lia.
Qed.

Lemma validate_json_shape_Ok limits document v :
  (VerifyLimits.max_json_nodes limits < u64_bound)%N → (VerifyLimits.max_total_json_string_bytes limits < u64_bound)%N →
  validate_json_shape limits document v = Ok () ↔ json_bounded limits v.
Proof.
  intros Hn Hs. unfold validate_json_shape.
  rewrite shape_loop_Ok by (done || lia || (rewrite stack_nodes_cons; cbn; lia)).
  rewrite stack_nodes_cons, stack_strings_cons, stack_shape_cons.
  change (stack_nodes []) with 0. change (stack_strings []) with 0%N. rewrite Nat.add_0_r, !N.add_0_l, N.add_0_r.
  split; [intros (? & ? & ? & _); by constructor|]. intros [? ? ?]. split_and!; [done..|constructor].
Qed.

Lemma validate_json_shape_returns limits document v : no_panic (validate_json_shape limits document v).
Proof. apply shape_loop_returns. rewrite stack_nodes_cons. cbn. lia. Qed.

(** ** Documents without duplicate keys *)

(** A token tree without errors and without an object that names a key twice. *)
Fixpoint token_unique (t : Token.t) : Prop :=
  match t with
  | Token.F64 bits => is_finite bits
  | Token.Seq l => all token_unique l
  | Token.Map l => NoDup l.*1 ∧ all (λ e, token_unique e.2) l
  | Token.Error _ => False
  | _ => True
  end.

(** The value that a token tree stands for. *)
Fixpoint token_value (t : Token.t) : Value.t :=
  match t with
  | Token.Unit | Token.Error _ => Value.Null
  | Token.Bool b => Value.Bool b
  | Token.I64 z => Value.Num (if decide (0 ≤ z)%Z then PosInt (Z.to_N z) else NegInt z)
  | Token.U64 n => Value.Num (PosInt n)
  | Token.F64 bits => Value.Num (Float bits)
  | Token.Str s => Value.String s
  | Token.Seq l => Value.Array (map token_value l)
  | Token.Map l => Value.Object (foldl (λ m e, object_insert e.1 e.2 m) [] (map (λ e, (e.1, token_value e.2)) l))
  end.

Lemma elem_of_object_insert k v m e :
  k ∉ m.*1 → e ∈ object_insert k v m ↔ e = (k, v) ∨ e ∈ m.
Proof.
  induction m as [|[k' v'] m IH]; intros Hk; simpl; [set_solver|].
  destruct (bytes_compare k k') eqn:E; [exfalso|set_solver|].
  - apply bytes_compare_eq in E as ->. set_solver.
  - rewrite !elem_of_cons, IH by set_solver. tauto.
Qed.

Lemma object_insert_keys k v m k' : k' ∈ (object_insert k v m).*1 ↔ k' = k ∨ k' ∈ m.*1.
Proof.
  induction m as [|[k'' v''] m IH]; simpl; [set_solver|].
  destruct (bytes_compare k k'') eqn:E; csimpl; rewrite ?elem_of_cons; [|tauto|rewrite IH; tauto].
  apply bytes_compare_eq in E as ->. tauto.
Qed.

Lemma token_induction (P : Token.t → Prop) :
  (∀ t, match t with Token.Seq _ | Token.Map _ => True | _ => P t end) →
  (∀ l, Forall P l → P (Token.Seq l)) → (∀ l, Forall (λ e, P e.2) l → P (Token.Map l)) → ∀ t, P t.
Proof.
  intros Hs Hseq Hmap.
  exact (fix IH t : P t :=
    match t return match t with Token.Seq _ | Token.Map _ => True | _ => P t end → P t with
    | Token.Seq l => λ _, Hseq l ((fix go l : Forall P l :=
        match l with [] => Forall_nil_2 _ | x :: l => Forall_cons_2 _ _ _ (IH x) (go l) end) l)
    | Token.Map l => λ _, Hmap l ((fix go l : Forall (λ e, P e.2) l :=
        match l with [] => Forall_nil_2 _ | x :: l => Forall_cons_2 _ _ _ (IH x.2) (go l) end) l)
    | _ => λ H, H
    end (Hs t)).
Qed.

Section unique.
Context {serde : SerdeJson} (debug : bytes → bytes).

(** The two loops of the visitor. *)
Fixpoint visit_seq (elements : list Token.t) : result bytes (list Value.t) :=
  match elements with
  | [] => Ok []
  | e :: elements => v ← unique_value debug e; values ← visit_seq elements; Ok (v :: values)
  end.
Fixpoint visit_map (entries : list (bytes * Token.t)) (values : list (bytes * Value.t))
    : result bytes (list (bytes * Value.t)) :=
  match entries with
  | [] => Ok values
  | (key, e) :: entries =>
    v ← unique_value debug e;
    if decide (key ∈ values.*1)
    then Err (json_custom (bs "duplicate JSON object key " ++ debug key))
    else visit_map entries (object_insert key v values)
  end.

Lemma unique_value_seq l :
  unique_value debug (Token.Seq l) = (values ← visit_seq l; Ok (Value.Array values)).
Proof. done. Qed.
Lemma unique_value_map l :
  unique_value debug (Token.Map l) = (values ← visit_map l []; Ok (Value.Object values)).
Proof. done. Qed.

Definition exact_on (t : Token.t) : Prop :=
  no_panic (unique_value debug t) ∧ ∀ v, unique_value debug t = Ok v ↔ token_unique t ∧ v = token_value t.

Lemma visit_seq_Ok l : Forall exact_on l →
  no_panic (visit_seq l) ∧ ∀ r, visit_seq l = Ok r ↔ Forall token_unique l ∧ r = map token_value l.
Proof.
  induction 1 as [|t l [Hp Ht] _ [IHp IH]]; simpl; [split; [done|]; intros r; rewrite Forall_nil; naive_solver|].
  split; [apply np_bind; [done|]; intros; by apply np_bind|]. intros r. rewrite bind_ok, Forall_cons. setoid_rewrite bind_ok.
  setoid_rewrite Ht. setoid_rewrite IH. setoid_rewrite ok_inj. naive_solver.
Qed.

Lemma visit_map_Ok l values : Forall (λ e, exact_on e.2) l →
  no_panic (visit_map l values) ∧
  ∀ r, visit_map l values = Ok r ↔
    Forall (λ e, token_unique e.2) l ∧ NoDup l.*1 ∧ (∀ k, k ∈ l.*1 → k ∉ values.*1) ∧
    r = foldl (λ m e, object_insert e.1 e.2 m) values (map (λ e, (e.1, token_value e.2)) l).
Proof.
  intros Hl. revert values. induction Hl as [|[k t] l [Hp Ht] _ IH]; intros values; simpl in *.
  { split; [done|]. intros r. rewrite Forall_nil, NoDup_nil, ok_inj. set_solver. }
  split; [apply np_bind; [done|]; intros; case_decide; [done|apply IH]|].
  intros r. rewrite bind_ok, Forall_cons, NoDup_cons. setoid_rewrite Ht. setoid_rewrite guard_ok.
  setoid_rewrite (λ vs, proj2 (IH vs) r). split.
  - intros (v & (? & ->) & Hk & ? & ? & Hdis & ->). split_and!; try done.
    + intros Hin. by apply (Hdis k Hin), object_insert_keys; left.
    + intros k' [->|Hin]%elem_of_cons; [done|]. intros ?. apply (Hdis k' Hin), object_insert_keys. by right.
  - intros ((? & ?) & (Hk & ?) & Hdis & ->). eexists. split_and!; [done|done| |done|done| |done].
    + apply Hdis. by left.
    + intros k' Hin [->|?]%object_insert_keys; [done|]. by eapply Hdis; [right|].
Qed.

Lemma unique_value_exact t : exact_on t.
Proof.
  revert t. apply token_induction; [intros t|intros l Hl..]; unfold exact_on.
  - destruct t as [|b|z|n|bits|s|l|l|text]; try done; cbn [unique_value token_unique token_value].
    1-4, 6: split; [done|]; intros v; rewrite ok_inj; split; [by intros <-|by intros [_ ->]].
    + case_decide; (split; [done|]); intros v; [rewrite ok_inj; split; [by intros <-|by intros [_ ->]]|].
      split; [done|by intros [? _]].
    + split; [done|]. intros v. split; [done|by intros [[] _]].
  - destruct (visit_seq_Ok l Hl) as [Hp Ho]. rewrite unique_value_seq. split; [by apply np_bind|].
    intros v. rewrite bind_ok. setoid_rewrite Ho. setoid_rewrite ok_inj. simpl. rewrite all_Forall. naive_solver.
  - destruct (visit_map_Ok l [] Hl) as [Hp Ho]. rewrite unique_value_map. split; [by apply np_bind|].
    intros v. rewrite bind_ok. setoid_rewrite Ho. setoid_rewrite ok_inj. simpl. rewrite all_Forall.
    split; [naive_solver|]. intros ((? & ?) & ->). eexists. split; [split_and!; [done..| |done]|done].
    intros k _. apply not_elem_of_nil.
Qed.

Lemma parse_json_Ok {T} (from_value : Value.t → bytes + T) limits b document d :
  (VerifyLimits.max_json_nodes limits < u64_bound)%N → (VerifyLimits.max_total_json_string_bytes limits < u64_bound)%N →
  parse_json debug from_value limits b document = Ok d ↔
    token_unique (json_tokens b) ∧ json_end b = None ∧ json_bounded limits (token_value (json_tokens b)) ∧
    from_value (token_value (json_tokens b)) = inr d.
Proof.
  intros Hn Hs. destruct (unique_value_exact (json_tokens b)) as [_ Hu]. unfold parse_json.
  rewrite bind_ok. setoid_rewrite map_err_ok. setoid_rewrite Hu. destruct (json_end b); [naive_solver|].
  setoid_rewrite bind_unit_ok. setoid_rewrite validate_json_shape_Ok; [|done..].
  split.
  - intros (v & (? & ->) & Hb & Hv). by destruct (from_value _); simplify_eq.
  - intros (Hu' & _ & Hb & Hv). eexists. split_and!; [done..|]. by rewrite Hv.
Qed.

Lemma parse_json_returns {T} (from_value : Value.t → bytes + T) limits b document :
  no_panic (parse_json debug from_value limits b document).
Proof.
  destruct (unique_value_exact (json_tokens b)) as [Hp Hu]. unfold parse_json.
  apply np_bind; [by apply np_map_err|]. intros v Hv%map_err_ok. apply Hu in Hv as [_ ->].
  destruct (json_end b); [done|]. apply np_bind; [apply validate_json_shape_returns|]. intros. by destruct (from_value _).
Qed.

(** C25: a JSON document is accepted exactly when serde_json reads it to its end, no
    object in it names a key twice, the value keeps the limits (nodes, depth, entries,
    string bytes), and the value has the fields of the document; it never panics. *)
Theorem parse_json_exact {T} (from_value : Value.t → bytes + T) limits b document :
  (VerifyLimits.max_json_nodes limits < u64_bound)%N → (VerifyLimits.max_total_json_string_bytes limits < u64_bound)%N →
  no_panic (parse_json debug from_value limits b document) ∧
  ∀ d, parse_json debug from_value limits b document = Ok d ↔
    token_unique (json_tokens b) ∧ json_end b = None ∧ json_bounded limits (token_value (json_tokens b)) ∧
    from_value (token_value (json_tokens b)) = inr d.
Proof.
  intros Hn Hs. split; [apply parse_json_returns|]. intros d. by apply parse_json_Ok.
Qed.
End unique.

(** A document with one object, for evaluation. *)
Module SampleJson.
#[export] Instance sample_json : SerdeJson := {|
  json_tokens b := if decide (b = bs "twice") then Token.Map [(bs "k", Token.Unit); (bs "k", Token.Bool true)]
                   else Token.Map [(bs "version", Token.Str b); (bs "list", Token.Seq [Token.U64 1; Token.I64 (-1)])];
  json_end _ := None;
  json_custom t := t;
|}.

Lemma parse_json_exact_witness :
  parse_json id inr VerifyLimits.default (bs "1.0") (bs "doc") =
    Ok (Value.Object [(bs "list", Value.Array [Value.Num (PosInt 1); Value.Num (NegInt (-1))]);
                      (bs "version", Value.String (bs "1.0"))]) ∧
  ¬ is_ok (parse_json id inr VerifyLimits.default (bs "twice") (bs "doc")).
Proof.
  split.
  - apply (parse_json_exact id inr VerifyLimits.default); [vm_compute; reflexivity..|].
    split; [|split; [reflexivity|split; [|reflexivity]]]; [vm_compute; split; [|tauto]; repeat constructor; set_solver|].
    constructor; [vm_compute; discriminate..|]. vm_compute. repeat split; discriminate.
  - intros [d Hd]. apply (parse_json_exact id inr VerifyLimits.default) in Hd as [[Hn _] _];
      [|vm_compute; reflexivity..]. apply NoDup_cons in Hn as [Hn _]. apply Hn. vm_compute. constructor.
Defined.
End SampleJson.
