(* ===== verification/OciConfig.v ===== *)
(** * Image configurations: crates/pocket-oci/src/layout.rs

    The configuration document of an image and the process defaults that are taken
    from it.  The documents are what serde makes of a JSON text; a [BTreeMap] is its
    entries in the order of the keys. *)

From S2P Require Import Prelude RustStr ManagedPath ProtocolError NoPanic StoreCodec HexText OciError Payload.

#[local] Arguments bs : simpl never.
#[local] Arguments len : simpl never.

Module RuntimeConfig.
Record t : Set := runtime_config {
  env : option (list bytes);
  entrypoint : option (list bytes);
  cmd : option (list bytes);
  working_dir : option bytes;
  user : option bytes;
  labels : option (list (bytes * bytes));
  stop_signal : option bytes;
}.
End RuntimeConfig.

Module RootFs.
Record t : Set := root_fs { kind : bytes; diff_ids : list bytes }.
End RootFs.

Module ConfigDocument.
Record t : Set := config_document {
  architecture : bytes;
  os : bytes;
  variant : option bytes;
  os_version : option bytes;
  os_features : list bytes;
  rootfs : RootFs.t;
  config : option RuntimeConfig.t;
}.
End ConfigDocument.

Module DockerProcessConfig.
Record t : Set := docker_process_config {
  entrypoint : list bytes;
  cmd : list bytes;
  argv : list bytes;
  env : list bytes;
  working_dir : bytes;
  user : bytes;
  labels : list (bytes * bytes);
  stop_signal : option bytes;
}.
End DockerProcessConfig.

Section config.
Context {hex : Hex} (limits : VerifyLimits.t).
(** The [{:?}] text of a string. *)
Context (debug : bytes → bytes).

Definition validate_config_core (config : ConfigDocument.t) (context : bytes) : oresult () :=
  let rootfs := ConfigDocument.rootfs config in
  if decide (RootFs.kind rootfs ≠ bs "layers")
  then invalid_document context (bs "rootfs type is " ++ debug (RootFs.kind rootfs) ++ bs ", not " ++ [x22] ++ bs "layers" ++ [x22]) else
  if decide (VerifyLimits.max_layers limits < len (RootFs.diff_ids rootfs))%N
  then over_limit (bs "rootfs diff_id count in " ++ context) (VerifyLimits.max_layers limits) else
  each (λ '(position, digest),
    parse_digest digest (bs "rootfs diff_id " ++ to_decimal (N.of_nat position));; Ok ())
    (imap pair (RootFs.diff_ids rootfs)).

Definition validate_process_string (value : bytes) (field : string) : oresult () :=
  if decide (VerifyLimits.max_process_string_bytes limits < len value)%N
  then over_limit (bs "Docker config " ++ bs field ++ bs " string length")
         (VerifyLimits.max_process_string_bytes limits) else
  if decide (x00 ∈ value) then Err (OciError.ProcessConfig (bs field ++ bs " contains NUL")) else
  Ok ().

(** The body of the loop over [Entrypoint], [Cmd] and [Env]. *)
Definition check_strings (name : string) (values : list bytes) : oresult () :=
  if decide (VerifyLimits.max_process_entries limits < len values)%N
  then over_limit (bs "Docker config " ++ bs name ++ bs " entry count") (VerifyLimits.max_process_entries limits) else
  each (λ value, validate_process_string value name) values.

Definition check_label (label : bytes * bytes) : oresult () :=
  validate_process_string label.1 "label key";;
  validate_process_string label.2 "label value";;
  if decide (label.1 = []) then Err (OciError.ProcessConfig (bs "label key is empty")) else Ok ().

Definition check_environment (value : bytes) : oresult () :=
  match split_once x3d value with
  | None => Err (OciError.ProcessConfig (bs "environment entry " ++ debug value ++ bs " has no '='"))
  | Some (key, _) =>
      if decide (key = [] ∨ x3d ∈ key)
      then Err (OciError.ProcessConfig (bs "environment entry " ++ debug value ++ bs " has an invalid key"))
      else Ok ()
  end.

(** [String::push_str] over the normal components. *)
Definition normalize_directory (working_dir : bytes) : bytes :=
  foldl (λ normalized segment,
    (if decide (1 < len normalized)%N then normalized ++ [x2f] else normalized) ++ segment)
    [x2f] (components working_dir).

(** [value.filter(|value| !value.is_empty()).unwrap_or_else(|| fallback)] *)
Definition nonempty_or (value : option bytes) (fallback : bytes) : bytes :=
  match value with Some ((_ :: _) as v) => v | _ => fallback end.

Definition effective_process (config : option RuntimeConfig.t) : oresult DockerProcessConfig.t :=
  let entrypoint := default [] (config ≫= RuntimeConfig.entrypoint) in
  let cmd := default [] (config ≫= RuntimeConfig.cmd) in
  let env := default [] (config ≫= RuntimeConfig.env) in
  let labels := default [] (config ≫= RuntimeConfig.labels) in
  let stop_signal := config ≫= RuntimeConfig.stop_signal in
  let working_dir := nonempty_or (config ≫= RuntimeConfig.working_dir) (bs "/") in
  let user := nonempty_or (config ≫= RuntimeConfig.user) (bs "0") in
  check_strings "Entrypoint" entrypoint;;
  check_strings "Cmd" cmd;;
  check_strings "Env" env;;
  if decide (VerifyLimits.max_labels limits < len labels)%N
  then over_limit (bs "Docker config label count") (VerifyLimits.max_labels limits) else
  each check_label labels;;
  each check_environment env;;
  validate_process_string working_dir "WorkingDir";;
  if decide (¬ is_absolute working_dir ∨ bs ".." ∈ components working_dir)
  then Err (OciError.ProcessConfig (bs "WorkingDir " ++ debug working_dir ++ bs " is not an absolute normalized path")) else
  let working_dir := normalize_directory working_dir in
  validate_process_string user "User";;
  match stop_signal with Some signal => validate_process_string signal "StopSignal" | None => Ok () end;;
  argv_len ← ok_or (checked_add (len entrypoint) (len cmd))
    (OciError.Limit (bs "effective argv entry count") (VerifyLimits.max_process_entries limits));
  if decide (VerifyLimits.max_process_entries limits < argv_len)%N
  then over_limit (bs "effective argv entry count") (VerifyLimits.max_process_entries limits) else
  let argv := entrypoint ++ cmd in
  if decide (head argv = Some []) then Err (OciError.ProcessConfig (bs "effective argv[0] is empty")) else
  Ok (DockerProcessConfig.docker_process_config entrypoint cmd argv env working_dir user labels stop_signal).
End config.

(** ** What the process defaults satisfy *)
Definition string_ok (limits : VerifyLimits.t) (v : bytes) : Prop :=
  (len v ≤ VerifyLimits.max_process_string_bytes limits)%N ∧ x00 ∉ v.

Lemma validate_process_string_Ok limits v f : validate_process_string limits v f = Ok () ↔ string_ok limits v.
Proof.
  unfold validate_process_string, string_ok. rewrite limit_guard_ok, guard_ok, N.nlt_ge. naive_solver.
Qed.

(** An environment entry with a key. *)
Definition env_entry (entry : bytes) : Prop := ∃ key value, entry = key ++ x3d :: value ∧ key ≠ [] ∧ x3d ∉ key.

Lemma env_entry_split entry : env_entry entry ↔ ∃ key value, split_once x3d entry = Some (key, value) ∧ key ≠ [].
Proof. unfold env_entry. setoid_rewrite split_once_Some. naive_solver. Qed.

Lemma check_environment_Ok debug entry : check_environment debug entry = Ok () ↔ env_entry entry.
Proof.
  unfold check_environment. rewrite env_entry_split. destruct (split_once x3d entry) as [[key value]|] eqn:Hs.
  - apply split_once_Some in Hs as [_ Hk]. rewrite guard_ok. naive_solver.
  - naive_solver.
Qed.

Lemma foldl_directory l acc :
  (1 < len acc)%N →
  foldl (λ normalized segment,
    (if decide (1 < len normalized)%N then normalized ++ [x2f] else normalized) ++ segment) acc l =
  acc ++ (l ≫= λ s, x2f :: s).
Proof.
  revert acc; induction l as [|s l IH]; intros acc Hacc; simpl; [by rewrite app_nil_r|].
  rewrite decide_True by done. rewrite IH by (rewrite !len_app; lia).
  by rewrite <- !(assoc_L (++)).
Qed.

Lemma join_bind c s l : join c (s :: l) = s ++ (l ≫= λ t, c :: t).
Proof.
  revert s; induction l as [|t l IH]; intros s; [simpl; by rewrite app_nil_r|].
  rewrite join_cons by done. rewrite IH. done.
Qed.

Lemma components_not_nil p : Forall (λ s, s ≠ []) (components p).
Proof. apply Forall_forall. intros s Hs. unfold components in Hs. apply list_elem_of_filter in Hs as [[? _] _]. done. Qed.

(** The normalized directory is the path of the same components. *)
Lemma normalize_directory_path p : normalize_directory p = x2f :: join x2f (components p).
Proof.
  unfold normalize_directory. pose proof (components_not_nil p) as Hne. destruct (components p) as [|s l]; [done|].
  apply Forall_cons in Hne as [Hs _]. cbn [foldl]. rewrite decide_False by (unfold len; simpl; lia).
  rewrite foldl_directory.
  - rewrite join_bind. done.
  - rewrite len_app. destruct s; [done|]. rewrite len_cons. unfold len; simpl; lia.
Qed.

Lemma components_normal p :
  bs ".." ∉ components p → Forall ManagedUmlPath.normal_segment (components p).
Proof.
  intros Hup. apply Forall_forall. intros s Hs. assert (s ≠ bs "..") as Hne by (by intros ->).
  unfold components in Hs. apply list_elem_of_filter in Hs as [[? ?] Hin].
  pose proof (split_pieces x2f p) as Hp. rewrite Forall_forall in Hp. split; [|by apply Hp].
  unfold ManagedUmlPath.bad_segment. tauto.
Qed.

Lemma nul_path segments : Forall (λ s, x00 ∉ s) segments → x00 ∉ path_of segments.
Proof.
  unfold path_of. intros Hs [?|Hin]%elem_of_cons; [done|]. revert Hin.
  induction Hs as [|s l Hs _ IH]; [apply not_elem_of_nil|].
  destruct l as [|t l]; [done|]. rewrite join_cons by done. set_solver.
Qed.

Lemma nul_components p : x00 ∉ p → Forall (λ s, x00 ∉ s) (components p).
Proof.
  intros Hp. apply Forall_forall. intros s Hs Hin. apply Hp. unfold components in Hs.
  apply list_elem_of_filter in Hs as [_ Hs]. rewrite <- (join_split x2f p).
  revert Hs. generalize (split x2f p) as l. induction l as [|t l IH]; [by intros ?%elem_of_nil|].
  intros [->|Hs]%elem_of_cons; destruct l as [|u l]; simpl in *; set_solver.
Qed.

(** The process defaults that a configuration stands for. *)
Record process_defaults (limits : VerifyLimits.t) (config : option RuntimeConfig.t)
    (p : DockerProcessConfig.t) : Prop := {
  defaults_entrypoint : DockerProcessConfig.entrypoint p = default [] (config ≫= RuntimeConfig.entrypoint);
  defaults_cmd : DockerProcessConfig.cmd p = default [] (config ≫= RuntimeConfig.cmd);
  defaults_argv : DockerProcessConfig.argv p = DockerProcessConfig.entrypoint p ++ DockerProcessConfig.cmd p;
  defaults_env : DockerProcessConfig.env p = default [] (config ≫= RuntimeConfig.env);
  defaults_labels : DockerProcessConfig.labels p = default [] (config ≫= RuntimeConfig.labels);
  defaults_signal : DockerProcessConfig.stop_signal p = config ≫= RuntimeConfig.stop_signal;
  defaults_user : DockerProcessConfig.user p = nonempty_or (config ≫= RuntimeConfig.user) (bs "0");
  defaults_directory : let given := nonempty_or (config ≫= RuntimeConfig.working_dir) (bs "/") in
    is_absolute given ∧ (bs ".." ∉ components given) ∧ string_ok limits given ∧
    DockerProcessConfig.working_dir p = path_of (components given);
  defaults_strings :
    Forall (string_ok limits) (DockerProcessConfig.argv p ++ DockerProcessConfig.env p ++ [DockerProcessConfig.user p] ++
      option_list (DockerProcessConfig.stop_signal p));
  defaults_label_strings : Forall (λ l, string_ok limits l.1 ∧ string_ok limits l.2 ∧ l.1 ≠ [])
    (DockerProcessConfig.labels p);
  defaults_entries : Forall env_entry (DockerProcessConfig.env p);
  defaults_counts : (len (DockerProcessConfig.argv p) ≤ VerifyLimits.max_process_entries limits)%N ∧
    (len (DockerProcessConfig.env p) ≤ VerifyLimits.max_process_entries limits)%N ∧
    (len (DockerProcessConfig.labels p) ≤ VerifyLimits.max_labels limits)%N;
  defaults_program : head (DockerProcessConfig.argv p) ≠ Some [];
}.

Lemma check_strings_Ok limits name values :
  check_strings limits name values = Ok () ↔
  (len values ≤ VerifyLimits.max_process_entries limits)%N ∧ Forall (string_ok limits) values.
Proof.
  unfold check_strings. rewrite limit_guard_ok, N.nlt_ge, each_ok.
  by setoid_rewrite validate_process_string_Ok.
Qed.

Lemma check_label_Ok limits l :
  check_label limits l = Ok () ↔ string_ok limits l.1 ∧ string_ok limits l.2 ∧ l.1 ≠ [].
Proof.
  unfold check_label. rewrite !bind_unit_ok, !validate_process_string_Ok, guard_ok. naive_solver.
Qed.

Lemma signal_check_Ok limits (signal : option bytes) :
  match signal with Some s => validate_process_string limits s "StopSignal" | None => Ok () end = Ok () ↔
  Forall (string_ok limits) (option_list signal).
Proof.
  destruct signal; simpl; [|by split; [constructor|]]. by rewrite validate_process_string_Ok, Forall_singleton.
Qed.

(** The defaults are exactly the configured values when they keep the limits. *)
Lemma effective_process_Ok limits debug config p :
  (VerifyLimits.max_process_entries limits < u64_bound)%N →
  effective_process limits debug config = Ok p ↔ process_defaults limits config p.
Proof.
  intros Hmax. unfold effective_process.
  rewrite !bind_unit_ok, !check_strings_Ok, limit_guard_ok, !bind_unit_ok, !each_ok.
  setoid_rewrite check_label_Ok. setoid_rewrite check_environment_Ok.
  rewrite validate_process_string_Ok, guard_ok, !bind_unit_ok, validate_process_string_Ok, signal_check_Ok, bind_ok.
  setoid_rewrite ok_or_ok. setoid_rewrite checked_add_Some. setoid_rewrite limit_guard_ok.
  setoid_rewrite guard_ok. setoid_rewrite ok_inj. rewrite !N.nlt_ge, normalize_directory_path. split.
  - intros ((? & He) & (? & Hc) & (? & Hv) & ? & Hl & Hentries & Hwd & [Habs%dec_stable Hup]%not_or_and &
      Huser & Hsignal & n & (-> & ?) & Hn & Hhead & <-).
    constructor; simpl; try done; rewrite ?len_app; try done.
    + apply Forall_app_2; [by apply Forall_app_2|]. apply Forall_app_2; [done|]. by constructor.
    + split_and!; [lia|done..].
  - intros [? ? Hargv ? ? ? ? (? & ? & ? & ?) Hstrings ? ? (Hn & ? & ?) ?]. destruct p; simpl in *; subst.
    rewrite !Forall_app in Hstrings. destruct Hstrings as ((? & ?) & ? & [? ?]%Forall_cons).
    rewrite len_app in Hn. split_and!; try done; try lia; [by intros [?|?]|].
    eexists. split_and!; [done|lia|lia|done..].
Qed.
