(* ===== verification/OciLayout.v ===== *)
(** * Image layouts: crates/pocket-oci/src/layout.rs

    The verifier of a directory with an OCI image layout.  Nothing is assumed of the
    directory: every call that looks at a path gets an answer of its own, and a file
    that was opened delivers a sequence of reads, so files may change between two
    calls and while they are read.  serde and the decompressors are interfaces. *)

From stdpp Require Import gmap.
From S2P Require Import Prelude RustStr ByteOrder ManagedPath ProtocolError NoPanic StoreCodec Sha256 HexText.
From S2P Require Import OciError OciJson OciConfig.

#[local] Arguments bs : simpl never.
#[local] Arguments len : simpl never.

Definition OCI_LAYOUT_VERSION : bytes := bs "1.0.0".
Definition OCI_INDEX : bytes := bs "application/vnd.oci.image.index.v1+json".
Definition DOCKER_INDEX : bytes := bs "application/vnd.docker.distribution.manifest.list.v2+json".
Definition OCI_MANIFEST : bytes := bs "application/vnd.oci.image.manifest.v1+json".
Definition DOCKER_MANIFEST : bytes := bs "application/vnd.docker.distribution.manifest.v2+json".
Definition OCI_CONFIG : bytes := bs "application/vnd.oci.image.config.v1+json".
Definition DOCKER_CONFIG : bytes := bs "application/vnd.docker.container.image.v1+json".
Definition OCI_LAYER : bytes := bs "application/vnd.oci.image.layer.v1.tar".
Definition OCI_LAYER_GZIP : bytes := bs "application/vnd.oci.image.layer.v1.tar+gzip".
Definition OCI_LAYER_ZSTD : bytes := bs "application/vnd.oci.image.layer.v1.tar+zstd".
Definition DOCKER_LAYER_GZIP : bytes := bs "application/vnd.docker.image.rootfs.diff.tar.gzip".
Definition OCI_REF_NAME_ANNOTATION : bytes := bs "org.opencontainers.image.ref.name".
Definition BUILDER_INPUT_REFERENCE : bytes := bs "root".
Definition SELECTOR_POLICY_ID : bytes := bs "native-amd64-v1".

Module LayerCompression.
Inductive t : Set := None | Gzip | Zstd.
#[global] Instance t_dec : EqDecision t.
Proof. solve_decision. Defined.
End LayerCompression.

Module Layer.
Record t : Set := layer {
  digest : Digest;
  diff_id : Digest;
  size : N;
  uncompressed_size : N;
  media_type : bytes;
  compression : LayerCompression.t;
}.
End Layer.

(** [Platform] and [ImagePlatform] have the same fields. *)
Module Platform.
Record t : Set := platform {
  architecture : bytes;
  os : bytes;
  variant : option bytes;
  os_version : option bytes;
  os_features : list bytes;
  features : list bytes;
}.
End Platform.

Module Descriptor.
Record t : Set := descriptor {
  media_type : bytes;
  digest : bytes;
  size : N;
  platform : option Platform.t;
  annotations : list (bytes * bytes);
  artifact_type : option bytes;
  urls : option (list bytes);
  data : option bytes;
}.
End Descriptor.

Module IndexDocument.
Record t : Set := index_document {
  schema_version : N;
  media_type : option bytes;
  manifests : list Descriptor.t;
  annotations : list (bytes * bytes);
}.
End IndexDocument.

Module ManifestDocument.
Record t : Set := manifest_document {
  schema_version : N;
  media_type : option bytes;
  config : Descriptor.t;
  layers : list Descriptor.t;
  annotations : list (bytes * bytes);
  artifact_type : option bytes;
  subject : option Descriptor.t;
}.
End ManifestDocument.

Module VerifiedImage.
Record t : Set := verified_image {
  manifest_digest : Digest;
  manifest_size : N;
  manifest_media_type : bytes;
  config_digest : Digest;
  config_size : N;
  config_media_type : bytes;
  config_bytes : bytes;
  descriptor_platform : option Platform.t;
  config_platform : Platform.t;
  effective_platform : Platform.t;
  selector_policy : bytes;
  layers : list Layer.t;
  process : DockerProcessConfig.t;
}.
End VerifiedImage.

(** The derived [Deserialize] of the documents; [LayoutDocument] has one field. *)
Class Documents := {
  layout_of_value : Value.t → bytes + bytes;
  index_of_value : Value.t → bytes + IndexDocument.t;
  manifest_of_value : Value.t → bytes + ManifestDocument.t;
  config_of_value : Value.t → bytes + ConfigDocument.t;
}.

(** ** The directory *)
Module FileMetadata.
Record t : Set := file_metadata {
  is_symlink : bool;
  is_file : bool;
  is_dir : bool;
  dev : N;
  ino : N;
  size : N;
}.
End FileMetadata.

Abbreviation reads := (list (io_error + bytes)).

(** An open file: [File::metadata], and what its reads return one after the other;
    an empty read, like the end of the list, is the end of the file. *)
Module OpenFile.
Record t : Set := open_file { metadata : io_error + FileMetadata.t; content : reads }.
End OpenFile.

(** What [std::fs] answers at one moment. *)
Module Moment.
Record t : Set := moment {
  symlink_metadata : bytes → io_error + FileMetadata.t;
  open : bytes → io_error + OpenFile.t;
}.
End Moment.

(** What a decompressor does with the reads of its input when it is read to the end:
    what its own reads return, how many reads of the input it took, and how many
    bytes of them are left in its buffer. *)
Module Decoded.
Record t : Set := decoded { output : reads; consumed : nat; buffered : N }.
End Decoded.

(** [flate2::bufread::MultiGzDecoder] over a [BufReader], and [zstd::stream::read::Decoder]
    with its window limit, whose set-up can fail. *)
Class Decoders := {
  gzip_decoder : reads → Decoded.t;
  zstd_decoder : N → reads → io_error + Decoded.t;
}.

(** ** Platforms, media types, annotations *)

(** [value.filter(|value| !value.is_empty())] *)
Definition explicit_value (value : option bytes) : option bytes :=
  match value with Some [] => None | _ => value end.

(** [annotations.get(key)] *)
Definition annotation (key : bytes) (annotations : list (bytes * bytes)) : option bytes :=
  snd <$> (snd <$> list_find (λ a, a.1 = key) annotations).

Section checks.
Context (limits : VerifyLimits.t) (debug_option : option bytes → bytes).

Definition layer_compression (media_type : bytes) (position : N) : oresult LayerCompression.t :=
  if decide (media_type = OCI_LAYER) then Ok LayerCompression.None else
  if decide (media_type = OCI_LAYER_GZIP ∨ media_type = DOCKER_LAYER_GZIP) then Ok LayerCompression.Gzip else
  if decide (media_type = OCI_LAYER_ZSTD) then Ok LayerCompression.Zstd else
  Err (OciError.UnsupportedMediaType (bs "manifest layer " ++ to_decimal position) media_type).

Definition validate_target_platform (platform : Platform.t) (context : bytes) : oresult () :=
  if decide (explicit_value (Platform.variant platform) ≠ None ∧
             explicit_value (Platform.variant platform) ≠ Some (bs "v1"))
  then Err (OciError.Platform context
              (bs "amd64 variant " ++ debug_option (Platform.variant platform) ++ bs " is not absent or v1")) else
  if decide (is_Some (explicit_value (Platform.os_version platform)))
  then Err (OciError.Platform context (bs "os.version is not empty")) else
  if decide (Platform.os_features platform ≠ [] ∨ Platform.features platform ≠ [])
  then Err (OciError.Platform context (bs "os.features/features is not empty")) else
  Ok ().

Definition check_platform_text (context : bytes) (name : string) (value : bytes) : oresult () :=
  if decide (VerifyLimits.max_process_string_bytes limits < len value ∨ x00 ∈ value)%N
  then Err (OciError.Platform context (bs name ++ bs " is invalid or too long")) else
  Ok ().

Definition validate_platform_shape (platform : Platform.t) (context : bytes) : oresult () :=
  if decide (Platform.os platform = [] ∨ Platform.architecture platform = [])
  then Err (OciError.Platform context (bs "os and architecture must be non-empty")) else
  check_platform_text context "os" (Platform.os platform);;
  check_platform_text context "architecture" (Platform.architecture platform).

Definition require_platform_agreement (expected actual : Platform.t) (context : bytes) : oresult () :=
  let expected_variant := explicit_value (Platform.variant expected) in
  let actual_variant := explicit_value (Platform.variant actual) in
  let expected_version := explicit_value (Platform.os_version expected) in
  let actual_version := explicit_value (Platform.os_version actual) in
  if decide (Platform.os expected ≠ Platform.os actual ∨
             Platform.architecture expected ≠ Platform.architecture actual ∨
             (is_Some expected_variant ∧ is_Some actual_variant ∧ expected_variant ≠ actual_variant) ∨
             (is_Some expected_version ∧ is_Some actual_version ∧ expected_version ≠ actual_version) ∨
             Platform.os_features expected ≠ Platform.os_features actual)
  then Err (OciError.Platform context (bs "descriptor platform disagrees with image config")) else
  Ok ().

Definition merge_platforms (inherited local : option Platform.t) (context : bytes) : oresult (option Platform.t) :=
  match local with Some platform => validate_platform_shape platform context | None => Ok () end;;
  match inherited, local with
  | Some outer, Some inner => require_platform_agreement outer inner context;; Ok (Some inner)
  | Some platform, None | None, Some platform => Ok (Some platform)
  | None, None => Ok None
  end.

Definition effective_platform (descriptor : option Platform.t) (config : Platform.t) : Platform.t :=
  let or_config (field : Platform.t → option bytes) :=
    match descriptor ≫= (λ d, explicit_value (field d)) with
    | Some v => Some v
    | None => explicit_value (field config)
    end in
  {| Platform.architecture := Platform.architecture config;
     Platform.os := Platform.os config;
     Platform.variant := or_config Platform.variant;
     Platform.os_version := or_config Platform.os_version;
     Platform.os_features := match descriptor with
                             | Some {| Platform.os_features := (_ :: _) as l |} => l
                             | _ => Platform.os_features config
                             end;
     Platform.features := default [] (Platform.features <$> descriptor) |}.

Definition validate_annotations (annotations : list (bytes * bytes)) (context : bytes) : oresult () :=
  if decide (VerifyLimits.max_object_entries limits < len annotations)%N
  then over_limit (bs "annotation count in " ++ context) (VerifyLimits.max_object_entries limits) else
  if decide ([] ∈ annotations.*1) then invalid_document context (bs "annotation key is empty") else
  Ok ().
End checks.

(** ** The verifier: a state and the errors of the layout *)
Module Verifier.
Record t : Set := verifier {
  clock : nat;
  descriptors_seen : N;
  total_uncompressed_bytes : N;
  active_indexes : gset bytes;
  candidates : list VerifiedImage.t;
}.
Definition new (clock : nat) : t := verifier clock 0 0 ∅ [].
Definition set_clock (c : nat) (s : t) : t :=
  verifier c (descriptors_seen s) (total_uncompressed_bytes s) (active_indexes s) (candidates s).
Definition set_seen (n : N) (s : t) : t :=
  verifier (clock s) n (total_uncompressed_bytes s) (active_indexes s) (candidates s).
Definition set_uncompressed (n : N) (s : t) : t :=
  verifier (clock s) (descriptors_seen s) n (active_indexes s) (candidates s).
Definition set_active (a : gset bytes) (s : t) : t :=
  verifier (clock s) (descriptors_seen s) (total_uncompressed_bytes s) a (candidates s).
Definition set_candidates (c : list VerifiedImage.t) (s : t) : t :=
  verifier (clock s) (descriptors_seen s) (total_uncompressed_bytes s) (active_indexes s) c.
End Verifier.

Definition walk (A : Type) : Type := Verifier.t → oresult (A * Verifier.t).
#[export] Instance walk_ret : MRet walk := λ A a s, Ok (a, s).
#[export] Instance walk_bind : MBind walk := λ A B f m s, '(a, s) ← m s; f a s.

Definition lift {A} (r : oresult A) : walk A := λ s, a ← r; Ok (a, s).
Definition get : walk Verifier.t := λ s, Ok (s, s).
Definition put (f : Verifier.t → Verifier.t) : walk () := λ s, Ok ((), f s).

(** [map_err(|source| io_error(path, source))] *)
Definition io_result {A} (path : bytes) (r : io_error + A) : oresult A :=
  match r with inl source => Err (OciError.Io path source) | inr a => Ok a end.

(** A loop over a slice in which every round can fail. *)
Fixpoint for_each {A} (f : A → walk ()) (l : list A) : walk () :=
  match l with
  | [] => mret ()
  | a :: l => f a;; for_each f l
  end.

(** [take(limit)] and [read_to_end]: interrupted reads are repeated. *)
Fixpoint read_to_end (content : reads) (limit : N) (buffer : bytes) : io_error + bytes :=
  if decide (limit = 0)%N then inr buffer else
  match content with
  | [] | inr [] :: _ => inr buffer
  | inl e :: content => if decide (io_kind e = Interrupted) then read_to_end content limit buffer else inl e
  | inr chunk :: content =>
      let chunk := take (N.to_nat limit) chunk in
      read_to_end content (limit - len chunk) (buffer ++ chunk)
  end.

Section verifier.
Context {sha : Sha2} {hex : Hex} {serde : SerdeJson} {docs : Documents} {decoders : Decoders}.
(** The answers of the file system over time, and the directory. *)
Context (history : nat → Moment.t) (root : bytes) (limits : VerifyLimits.t).
(** The [{:?}] texts of strings and of optional strings, and [Path::display]. *)
Context (debug : bytes → bytes) (debug_option : option bytes → bytes) (display : bytes → bytes).

Definition now : walk Moment.t := λ s,
  Ok (history (Verifier.clock s), Verifier.set_clock (S (Verifier.clock s)) s).

Definition require_plain_directory (path : bytes) (label : string) : walk () :=
  moment ← now;
  metadata ← lift (io_result path (Moment.symlink_metadata moment path));
  if decide (FileMetadata.is_symlink metadata = true ∨ FileMetadata.is_dir metadata = false)
  then lift (invalid_document (display path) (bs label ++ bs " is not a plain directory")) else
  mret ().

Definition open_plain_file (path context : bytes) : walk (reads * FileMetadata.t) :=
  moment ← now;
  path_metadata ← lift (io_result path (Moment.symlink_metadata moment path));
  if decide (FileMetadata.is_symlink path_metadata = true ∨ FileMetadata.is_file path_metadata = false)
  then lift (invalid_document context (display path ++ bs " is not a plain regular file")) else
  moment ← now;
  file ← lift (io_result path (Moment.open moment path));
  file_metadata ← lift (io_result path (OpenFile.metadata file));
  if decide (FileMetadata.is_file file_metadata = false ∨
             FileMetadata.dev file_metadata ≠ FileMetadata.dev path_metadata ∨
             FileMetadata.ino file_metadata ≠ FileMetadata.ino path_metadata)
  then lift (invalid_document context (display path ++ bs " changed while it was being opened")) else
  mret (OpenFile.content file, file_metadata).

Definition read_plain_file_bounded (path : bytes) (maximum : N) (context : bytes) : walk bytes :=
  '(file, metadata) ← open_plain_file path context;
  if decide (maximum < FileMetadata.size metadata)%N
  then lift (over_limit (bs "byte length of " ++ context) maximum) else
  b ← lift (io_result path (read_to_end file (N.min (maximum + 1) (u64_bound - 1)) []));
  if decide (maximum < len b)%N then lift (over_limit (bs "byte length of " ++ context) maximum) else
  mret b.

(** ** Descriptors and blobs *)
Definition validate_embedded_data (data : bytes) (descriptor : Descriptor.t) (digest : Digest) (context : bytes)
    : oresult () :=
  decoded ← ok_or (decode_canonical_base64 data)
    (OciError.InvalidDocument context (bs "embedded descriptor data is not canonically encoded base64"));
  if decide (len decoded ≠ Descriptor.size descriptor)
  then invalid_document context
         (bs "embedded descriptor data decodes to " ++ to_decimal (len decoded) ++
          bs " bytes but the descriptor declares " ++ to_decimal (Descriptor.size descriptor)) else
  if decide (sha256_digest decoded ≠ digest)
  then invalid_document context (bs "embedded descriptor data does not match the descriptor digest") else
  Ok ().

Definition validate_descriptor (descriptor : Descriptor.t) (context : bytes) : oresult () :=
  digest ← parse_digest (Descriptor.digest descriptor) context;
  if decide (Descriptor.media_type descriptor = [])
  then invalid_document context (bs "descriptor mediaType is empty") else
  if decide (is_Some (Descriptor.artifact_type descriptor))
  then invalid_document context (bs "artifact descriptor is not an executable image") else
  if decide (default [] (Descriptor.urls descriptor) ≠ [])
  then invalid_document context (bs "external descriptor URLs are forbidden") else
  match Descriptor.data descriptor with
  | Some data => validate_embedded_data data descriptor digest context
  | None => Ok ()
  end;;
  validate_annotations limits (Descriptor.annotations descriptor) context;;
  match Descriptor.platform descriptor with
  | Some platform => validate_platform_shape limits platform context
  | None => Ok ()
  end.

Definition consume_descriptor (descriptor : Descriptor.t) (context : bytes) : walk () :=
  self ← get;
  seen ← lift (ok_or (checked_add (Verifier.descriptors_seen self) 1)
                 (OciError.Limit (bs "reachable descriptor count") (VerifyLimits.max_total_descriptors limits)));
  put (Verifier.set_seen seen);;
  if decide (VerifyLimits.max_total_descriptors limits < seen)%N
  then lift (over_limit (bs "reachable descriptor count") (VerifyLimits.max_total_descriptors limits)) else
  lift (validate_descriptor descriptor context).

(** [self.root.join("blobs").join("sha256").join(digest.hex())] *)
Definition blob_path (digest : Digest) : bytes :=
  path_join (path_join (path_join root (bs "blobs")) (bs "sha256")) (hex_encode digest).

(** The read loop of [authenticate_blob]. *)
Fixpoint read_blob (path context : bytes) (maximum : N) (retain : bool) (file : reads) (count : N) (h : hasher)
    (retained : bytes) : oresult (N * hasher * bytes) :=
  match file with
  | [] | inr [] :: _ => Ok (count, h, retained)
  | inl e :: _ => Err (OciError.Io path e)
  | inr chunk :: file =>
      count ← ok_or (checked_add count (len chunk))
        (OciError.Limit (bs "blob byte count for " ++ context) maximum);
      if decide (maximum < count)%N then over_limit (bs "blob byte count for " ++ context) maximum else
      read_blob path context maximum retain file count (hasher_update h chunk)
        (if retain then retained ++ chunk else retained)
  end.

Definition authenticate_blob (descriptor : Descriptor.t) (maximum : N) (retain : bool) (context : bytes)
    : walk bytes :=
  if decide (maximum < Descriptor.size descriptor)%N
  then lift (over_limit (bs "descriptor size for " ++ context) maximum) else
  expected_digest ← lift (parse_digest (Descriptor.digest descriptor) context);
  let path := blob_path expected_digest in
  '(file, metadata) ← open_plain_file path context;
  if decide (FileMetadata.size metadata ≠ Descriptor.size descriptor)
  then lift (Err (OciError.SizeMismatch (Descriptor.digest descriptor) (Descriptor.size descriptor)
                    (FileMetadata.size metadata))) else
  '(count, h, retained) ← lift (read_blob path context maximum retain file 0 hasher_new []);
  if decide (count ≠ Descriptor.size descriptor)
  then lift (Err (OciError.SizeMismatch (Descriptor.digest descriptor) (Descriptor.size descriptor) count)) else
  if decide (hasher_finalize h ≠ expected_digest)
  then lift (Err (OciError.DigestMismatch (Descriptor.digest descriptor) (hex_encode (hasher_finalize h)))) else
  mret retained.

Definition authenticate_json_blob (descriptor : Descriptor.t) (maximum : N) (context : bytes) : walk bytes :=
  authenticate_blob descriptor maximum true context.

Definition authenticate_layer_blob (descriptor : Descriptor.t) (position : N) : walk Digest :=
  let context := bs "manifest layer " ++ to_decimal position in
  authenticate_blob descriptor (VerifyLimits.max_layer_bytes limits) false context;;
  lift (parse_digest (Descriptor.digest descriptor) context).

(** ** Layers: replaying the compressed bytes *)

Definition layer_decode_error (position : N) (descriptor : Descriptor.t) (source : io_error) : OciError.t :=
  OciError.LayerDecode position (Descriptor.media_type descriptor) source.

(** [impl Read for CompressedHashingReader]: what its reads return, given what the reads
    of the file return; the bytes are counted in a [u64]. *)
Fixpoint counted (count : N) (file : reads) : reads :=
  match file with
  | [] => []
  | inl e :: file => inl e :: counted count file
  | inr chunk :: file =>
      if decide (count + len chunk < u64_bound)%N then inr chunk :: counted (count + len chunk) file
      else inl (io_error_of OtherKind None) :: counted count file
  end.

(** The bytes that some reads delivered, piece by piece. *)
Definition delivered (r : reads) : list bytes :=
  omap (λ a, match a with inl _ => None | inr chunk => Some chunk end) r.

(** [fn hash_uncompressed_stream] over the reads of a stream; [total] is the total so far. *)
Fixpoint hash_uncompressed_stream (descriptor : Descriptor.t) (compression : LayerCompression.t) (position total : N)
    (stream : reads) (uncompressed_size : N) (h : hasher) : oresult (N * Digest) :=
  match stream with
  | [] | inr [] :: _ => Ok (uncompressed_size, hasher_finalize h)
  | inl source :: _ => Err (layer_decode_error position descriptor source)
  | inr chunk :: stream =>
      uncompressed_size ← ok_or (checked_add uncompressed_size (len chunk)) (OciError.LayerUncompressedOverflow position);
      if decide (VerifyLimits.max_layer_uncompressed_bytes limits < uncompressed_size)%N
      then Err (OciError.LayerUncompressedLimit position (VerifyLimits.max_layer_uncompressed_bytes limits)
                  uncompressed_size) else
      new_total ← ok_or (checked_add total uncompressed_size) (OciError.TotalUncompressedOverflow position);
      if decide (VerifyLimits.max_total_uncompressed_bytes limits < new_total)%N
      then Err (OciError.TotalUncompressedLimit position (VerifyLimits.max_total_uncompressed_bytes limits) new_total) else
      if decide (compression ≠ LayerCompression.None ∧
                 Descriptor.size descriptor * VerifyLimits.max_decompression_ratio limits < uncompressed_size)%N
      then Err (OciError.DecompressionRatio position (VerifyLimits.max_decompression_ratio limits)
                  (Descriptor.size descriptor) uncompressed_size) else
      hash_uncompressed_stream descriptor compression position total stream uncompressed_size (hasher_update h chunk)
  end.

(** The reads until the end of the file, for a layer that is not compressed. *)
Fixpoint plain_decoder (r : reads) : Decoded.t :=
  match r with
  | [] => Decoded.decoded [] 0 0
  | inr [] :: _ => Decoded.decoded [inr []] 1 0
  | a :: r => let d := plain_decoder r in Decoded.decoded (a :: Decoded.output d) (S (Decoded.consumed d)) 0
  end.

Definition layer_decoder (compression : LayerCompression.t) (r : reads) : io_error + Decoded.t :=
  match compression with
  | LayerCompression.None => inr (plain_decoder r)
  | LayerCompression.Gzip => inr (gzip_decoder r)
  | LayerCompression.Zstd => zstd_decoder (VerifyLimits.max_zstd_window_log limits) r
  end.

(** The drain loop of [finish_layer_replay]: the pieces that are left. *)
Fixpoint drain (descriptor : Descriptor.t) (position : N) (r : reads) : oresult (list bytes) :=
  match r with
  | [] | inr [] :: _ => Ok []
  | inl source :: _ => Err (layer_decode_error position descriptor source)
  | inr chunk :: r => rest ← drain descriptor position r; Ok (chunk :: rest)
  end.

(** [replay] is what the decoder has taken, [rest] the reads that are left. *)
Definition finish_layer_replay (replay : list bytes) (rest : reads) (buffered_trailing : N) (descriptor : Descriptor.t)
    (expected_digest : Digest) (position : N) : oresult () :=
  drained ← drain descriptor position rest;
  trailing ← ok_or (checked_add (len (concat drained)) buffered_trailing) (OciError.LayerUncompressedOverflow position);
  let actual_size := len (concat (replay ++ drained)) in
  let actual_digest := hasher_finalize (foldl hasher_update hasher_new (replay ++ drained)) in
  if decide (actual_size ≠ Descriptor.size descriptor)
  then Err (OciError.SizeMismatch (Descriptor.digest descriptor) (Descriptor.size descriptor) actual_size) else
  if decide (actual_digest ≠ expected_digest)
  then Err (OciError.DigestMismatch (Descriptor.digest descriptor) (hex_encode actual_digest)) else
  if decide (trailing ≠ 0)%N
  then Err (layer_decode_error position descriptor (io_error_of OtherKind None)) else
  Ok ().

Definition verify_layer_diff_id (descriptor : Descriptor.t) (compression : LayerCompression.t)
    (expected_diff_id : Digest) (position : N) : walk N :=
  let context := bs "manifest layer " ++ to_decimal position ++ bs " DiffID replay" in
  compressed_digest ← lift (parse_digest (Descriptor.digest descriptor) context);
  let path := blob_path compressed_digest in
  '(file, metadata) ← open_plain_file path context;
  if decide (FileMetadata.size metadata ≠ Descriptor.size descriptor)
  then lift (Err (OciError.SizeMismatch (Descriptor.digest descriptor) (Descriptor.size descriptor)
                    (FileMetadata.size metadata))) else
  let replay := counted 0 file in
  self ← get;
  decoded ← lift (match layer_decoder compression replay with
                  | inl source => Err (layer_decode_error position descriptor source)
                  | inr decoded => Ok decoded
                  end);
  '(uncompressed_size, actual_diff_id) ← lift (hash_uncompressed_stream descriptor compression position
    (Verifier.total_uncompressed_bytes self) (Decoded.output decoded) 0 hasher_new);
  lift (finish_layer_replay (delivered (take (Decoded.consumed decoded) replay)) (drop (Decoded.consumed decoded) replay)
          (Decoded.buffered decoded) descriptor compressed_digest position);;
  if decide (actual_diff_id ≠ expected_diff_id)
  then lift (Err (OciError.DiffIdMismatch position (descriptor_digest_text expected_diff_id)
                    (bs "sha256:" ++ hex_encode actual_diff_id))) else
  total ← lift (ok_or (checked_add (Verifier.total_uncompressed_bytes self) uncompressed_size)
                  (OciError.TotalUncompressedOverflow position));
  put (Verifier.set_uncompressed total);;
  mret uncompressed_size.

(** One round over the layers. *)
Definition verify_layer (context : bytes) (position : N) (layer : Descriptor.t) (diff_id_text : bytes) : walk Layer.t :=
  consume_descriptor layer (bs "manifest layer " ++ to_decimal position);;
  if decide (is_Some (Descriptor.platform layer))
  then lift (invalid_document context
               (bs "layer descriptor " ++ to_decimal position ++ bs " unexpectedly has a platform")) else
  compression ← lift (layer_compression (Descriptor.media_type layer) position);
  digest ← authenticate_layer_blob layer position;
  diff_id ← lift (parse_digest diff_id_text (bs "rootfs diff_id " ++ to_decimal position));
  uncompressed_size ← verify_layer_diff_id layer compression diff_id position;
  mret (Layer.layer digest diff_id (Descriptor.size layer) uncompressed_size (Descriptor.media_type layer) compression).

Fixpoint verify_layers (context : bytes) (position : N) (pairs : list (Descriptor.t * bytes)) : walk (list Layer.t) :=
  match pairs with
  | [] => mret []
  | (layer, diff_id_text) :: pairs =>
      l ← verify_layer context position layer diff_id_text;
      rest ← verify_layers context (position + 1) pairs;
      mret (l :: rest)
  end.

(** ** Indexes and manifests *)
Definition validate_index (index : IndexDocument.t) (context : bytes) (descriptor_media_type : option bytes) : oresult () :=
  if decide (IndexDocument.schema_version index ≠ 2%N)
  then invalid_document context (bs "schemaVersion is " ++ to_decimal (IndexDocument.schema_version index) ++ bs ", not 2") else
  match IndexDocument.media_type index with
  | Some media_type =>
      if decide (media_type ≠ OCI_INDEX ∧ media_type ≠ DOCKER_INDEX)
      then Err (OciError.UnsupportedMediaType context media_type) else
      match descriptor_media_type with
      | Some descriptor_type =>
          if decide (media_type ≠ descriptor_type)
          then invalid_document context
                 (bs "document mediaType " ++ debug media_type ++ bs " disagrees with descriptor " ++ debug descriptor_type)
          else Ok ()
      | None => Ok ()
      end
  | None => Ok ()
  end;;
  if decide (IndexDocument.manifests index = []) then invalid_document context (bs "manifests array is empty") else
  if decide (VerifyLimits.max_descriptors_per_index limits < len (IndexDocument.manifests index))%N
  then over_limit (bs "descriptor count in " ++ context) (VerifyLimits.max_descriptors_per_index limits) else
  validate_annotations limits (IndexDocument.annotations index) context.

Definition validate_manifest (manifest : ManifestDocument.t) (descriptor : Descriptor.t) (context : bytes) : oresult () :=
  if decide (ManifestDocument.schema_version manifest ≠ 2%N)
  then invalid_document context
         (bs "schemaVersion is " ++ to_decimal (ManifestDocument.schema_version manifest) ++ bs ", not 2") else
  match ManifestDocument.media_type manifest with
  | Some media_type =>
      if decide (media_type ≠ Descriptor.media_type descriptor)
      then invalid_document context (bs "document mediaType " ++ debug media_type ++ bs " disagrees with descriptor " ++
                                     debug (Descriptor.media_type descriptor))
      else Ok ()
  | None => Ok ()
  end;;
  if decide (is_Some (ManifestDocument.artifact_type manifest) ∨ is_Some (ManifestDocument.subject manifest))
  then invalid_document context (bs "artifact manifests and subject-linked manifests are not executable images") else
  if decide (VerifyLimits.max_layers limits < len (ManifestDocument.layers manifest))%N
  then over_limit (bs "layer count in " ++ context) (VerifyLimits.max_layers limits) else
  validate_annotations limits (ManifestDocument.annotations manifest) context.

Definition parse {T} (from_value : Value.t → bytes + T) (b document : bytes) : walk T :=
  lift (parse_json debug from_value limits b document).

Definition config_platform_of (config : ConfigDocument.t) : Platform.t := {|
  Platform.architecture := ConfigDocument.architecture config;
  Platform.os := ConfigDocument.os config;
  Platform.variant := ConfigDocument.variant config;
  Platform.os_version := ConfigDocument.os_version config;
  Platform.os_features := ConfigDocument.os_features config;
  Platform.features := [];
|}.

(** The part of [verify_manifest] after the layers. *)
Definition select_image (descriptor : Descriptor.t) (descriptor_platform : option Platform.t)
    (manifest : ManifestDocument.t) (config : ConfigDocument.t) (config_bytes : bytes) (layers : list Layer.t)
    : oresult (option VerifiedImage.t) :=
  let context := Descriptor.digest descriptor in
  let config_context := Descriptor.digest (ManifestDocument.config manifest) in
  let config_platform := config_platform_of config in
  validate_platform_shape limits config_platform config_context;;
  match descriptor_platform with
  | Some platform => require_platform_agreement platform config_platform context
  | None => Ok ()
  end;;
  if decide (¬ (Platform.os config_platform = bs "linux" ∧ Platform.architecture config_platform = bs "amd64"))
  then Ok None else
  validate_target_platform debug_option config_platform config_context;;
  match descriptor_platform with
  | Some platform => validate_target_platform debug_option platform context
  | None => Ok ()
  end;;
  process ← effective_process limits debug (ConfigDocument.config config);
  manifest_digest ← parse_digest (Descriptor.digest descriptor) (bs "manifest descriptor");
  config_digest ← parse_digest (Descriptor.digest (ManifestDocument.config manifest)) (bs "config descriptor");
  Ok (Some {|
    VerifiedImage.manifest_digest := manifest_digest;
    VerifiedImage.manifest_size := Descriptor.size descriptor;
    VerifiedImage.manifest_media_type := Descriptor.media_type descriptor;
    VerifiedImage.config_digest := config_digest;
    VerifiedImage.config_size := Descriptor.size (ManifestDocument.config manifest);
    VerifiedImage.config_media_type := Descriptor.media_type (ManifestDocument.config manifest);
    VerifiedImage.config_bytes := config_bytes;
    VerifiedImage.descriptor_platform := descriptor_platform;
    VerifiedImage.config_platform := config_platform;
    VerifiedImage.effective_platform := effective_platform descriptor_platform config_platform;
    VerifiedImage.selector_policy := SELECTOR_POLICY_ID;
    VerifiedImage.layers := layers;
    VerifiedImage.process := process;
  |}).

Definition verify_manifest (descriptor : Descriptor.t) (descriptor_platform : option Platform.t)
    : walk (option VerifiedImage.t) :=
  b ← authenticate_json_blob descriptor (VerifyLimits.max_manifest_bytes limits) (bs "image manifest");
  let context := Descriptor.digest descriptor in
  manifest ← parse manifest_of_value b context;
  lift (validate_manifest manifest descriptor context);;
  consume_descriptor (ManifestDocument.config manifest) (bs "manifest config");;
  if decide (is_Some (Descriptor.platform (ManifestDocument.config manifest)))
  then lift (invalid_document context (bs "config descriptor unexpectedly has a platform")) else
  if decide (Descriptor.media_type (ManifestDocument.config manifest) ≠ OCI_CONFIG ∧
             Descriptor.media_type (ManifestDocument.config manifest) ≠ DOCKER_CONFIG)
  then lift (Err (OciError.UnsupportedMediaType (bs "manifest config descriptor")
                    (Descriptor.media_type (ManifestDocument.config manifest)))) else
  config_bytes ← authenticate_json_blob (ManifestDocument.config manifest) (VerifyLimits.max_config_bytes limits)
                   (bs "image config");
  let config_context := Descriptor.digest (ManifestDocument.config manifest) in
  config ← parse config_of_value config_bytes config_context;
  lift (validate_config_core limits debug config config_context);;
  let diff_ids := RootFs.diff_ids (ConfigDocument.rootfs config) in
  if decide (len diff_ids ≠ len (ManifestDocument.layers manifest))
  then lift (Err (OciError.RootfsCountMismatch (len (ManifestDocument.layers manifest)) (len diff_ids))) else
  layers ← verify_layers context 0 (zip (ManifestDocument.layers manifest) diff_ids);
  lift (select_image descriptor descriptor_platform manifest config config_bytes layers).

(** [fuel] is the number of indexes that may still be nested. *)
Fixpoint walk_descriptor (fuel : nat) (descriptor : Descriptor.t) (inherited_platform : option Platform.t)
    (index_depth : N) : walk () :=
  consume_descriptor descriptor (bs "image index");;
  platform ← lift (merge_platforms limits inherited_platform (Descriptor.platform descriptor)
                     (bs "nested index descriptors"));
  let media_type := Descriptor.media_type descriptor in
  if decide (media_type = OCI_MANIFEST ∨ media_type = DOCKER_MANIFEST) then
    image ← verify_manifest descriptor platform;
    match image with
    | Some image => put (λ s, Verifier.set_candidates (Verifier.candidates s ++ [image]) s)
    | None => mret ()
    end
  else if decide (media_type = OCI_INDEX ∨ media_type = DOCKER_INDEX) then
    if decide (VerifyLimits.max_index_depth limits ≤ index_depth)%N
    then lift (over_limit (bs "nested image-index depth") (VerifyLimits.max_index_depth limits)) else
    match fuel with
    | O => λ _, Panic
    | S fuel =>
      digest ← lift (parse_digest (Descriptor.digest descriptor) (bs "nested index descriptor"));
      self ← get;
      if decide (digest ∈ Verifier.active_indexes self)
      then lift (invalid_document (Descriptor.digest descriptor) (bs "image-index descriptor cycle")) else
      put (λ s, Verifier.set_active ({[ digest ]} ∪ Verifier.active_indexes s) s);;
      b ← authenticate_json_blob descriptor (VerifyLimits.max_index_bytes limits) (bs "nested image index");
      let context := Descriptor.digest descriptor in
      index ← parse index_of_value b context;
      lift (validate_index index context (Some media_type));;
      for_each (λ child, walk_descriptor fuel child platform (index_depth + 1)) (IndexDocument.manifests index);;
      put (λ s, Verifier.set_active (Verifier.active_indexes s ∖ {[ digest ]}) s)
    end
  else lift (Err (OciError.UnsupportedMediaType (bs "image index descriptor") media_type)).

(** ** Layouts *)
Definition verify_layout_with_limits : walk VerifiedImage.t :=
  require_plain_directory root "OCI layout root";;
  require_plain_directory (path_join root (bs "blobs")) "OCI blobs directory";;
  require_plain_directory (path_join (path_join root (bs "blobs")) (bs "sha256")) "OCI sha256 blobs directory";;
  layout_bytes ← read_plain_file_bounded (path_join root (bs "oci-layout")) (VerifyLimits.max_layout_bytes limits)
                   (bs "oci-layout");
  image_layout_version ← parse layout_of_value layout_bytes (bs "oci-layout");
  if decide (image_layout_version ≠ OCI_LAYOUT_VERSION)
  then lift (Err (OciError.UnsupportedLayoutVersion image_layout_version)) else
  index_bytes ← read_plain_file_bounded (path_join root (bs "index.json")) (VerifyLimits.max_index_bytes limits)
                  (bs "index.json");
  index ← parse index_of_value index_bytes (bs "index.json");
  put (λ s, Verifier.new (Verifier.clock s));;
  lift (validate_index index (bs "index.json") None);;
  for_each (λ descriptor, walk_descriptor (N.to_nat (VerifyLimits.max_index_depth limits)) descriptor None 0)
    (IndexDocument.manifests index);;
  self ← get;
  match Verifier.candidates self with
  | [] => lift (Err OciError.NoLinuxAmd64Image)
  | [image] => put (Verifier.set_candidates []);; mret image
  | candidates => lift (Err (OciError.AmbiguousLinuxAmd64 (len candidates)))
  end.

(** One round over the layers of [require_canonical_media_types]. *)
Definition check_canonical_layer (layer : nat * Layer.t) : oresult () :=
  let media_type := Layer.media_type layer.2 in
  if decide (media_type ∉ [OCI_LAYER; OCI_LAYER_GZIP; OCI_LAYER_ZSTD])
  then Err (OciError.UnsupportedMediaType (bs "canonical layer " ++ to_decimal (N.of_nat layer.1)) media_type)
  else Ok ().

Definition require_canonical_media_types (image : VerifiedImage.t) : oresult () :=
  if decide (VerifiedImage.manifest_media_type image ≠ OCI_MANIFEST)
  then Err (OciError.UnsupportedMediaType (bs "canonical selected manifest") (VerifiedImage.manifest_media_type image)) else
  if decide (VerifiedImage.config_media_type image ≠ OCI_CONFIG)
  then Err (OciError.UnsupportedMediaType (bs "canonical image configuration") (VerifiedImage.config_media_type image)) else
  each check_canonical_layer (imap pair (VerifiedImage.layers image)).

Definition require_canonical_builder_index (image : VerifiedImage.t) : walk () :=
  index_bytes ← read_plain_file_bounded (path_join root (bs "index.json")) (VerifyLimits.max_index_bytes limits)
                  (bs "index.json");
  index ← parse index_of_value index_bytes (bs "index.json");
  if decide (default OCI_INDEX (IndexDocument.media_type index) ≠ OCI_INDEX)
  then lift (invalid_document (bs "index.json") (bs "canonical builder index has a non-OCI mediaType")) else
  match IndexDocument.manifests index with
  | [descriptor] =>
      if decide (Descriptor.media_type descriptor ≠ OCI_MANIFEST ∨
                 Descriptor.digest descriptor ≠ descriptor_digest_text (VerifiedImage.manifest_digest image))
      then lift (invalid_document (bs "index.json")
                   (bs "canonical builder index does not directly name the selected OCI manifest")) else
      if decide (annotation OCI_REF_NAME_ANNOTATION (Descriptor.annotations descriptor) ≠ Some BUILDER_INPUT_REFERENCE)
      then lift (invalid_document (bs "index.json")
                   (bs "canonical builder manifest must carry " ++ OCI_REF_NAME_ANNOTATION ++ bs "=" ++
                    BUILDER_INPUT_REFERENCE)) else
      mret ()
  | _ => lift (invalid_document (bs "index.json")
                 (bs "canonical builder index must contain exactly one direct manifest"))
  end.

Definition verify_canonical_layout_with_limits : walk VerifiedImage.t :=
  image ← verify_layout_with_limits;
  lift (require_canonical_media_types image);;
  require_canonical_builder_index image;;
  mret image.
End verifier.

Definition parse_image_process_config_with_limits {serde : SerdeJson} {hex : Hex} {docs : Documents}
    (debug : bytes → bytes) (limits : VerifyLimits.t) (config_bytes : bytes) : oresult DockerProcessConfig.t :=
  if decide (VerifyLimits.max_config_bytes limits < len config_bytes)%N
  then over_limit (bs "byte length of immutable image-config.json") (VerifyLimits.max_config_bytes limits) else
  let context := bs "immutable image-config.json" in
  config ← parse_json debug config_of_value limits config_bytes context;
  validate_config_core limits debug config context;;
  effective_process limits debug (ConfigDocument.config config).
