(* ===== verification/OciVerified.v ===== *)
(** * What a verified image layout is: crates/pocket-oci/src/layout.rs

    The relation [walked] says what a descriptor of an index stands for, without
    counters, clocks and files: authenticated blobs, decoded documents, layers whose
    content has the digest that the configuration names.  The verifier only returns
    images that the relation gives, however the directory changes under it. *)

From stdpp Require Import gmap.
From S2P Require Import Prelude RustStr ByteOrder ManagedPath ProtocolError NoPanic StoreCodec Sha256 HexText.
From S2P Require Import OciError OciJson OciConfig OciLayout.

#[local] Arguments bs : simpl never.
#[local] Arguments len : simpl never.

(** ** The monad of the verifier *)
Section monad.
Context {A B : Type}.
Implicit Types (s : Verifier.t) (m : walk A).

Lemma walk_bind_Ok m (k : A → walk B) s b s'' :
  (m ≫= k) s = Ok (b, s'') ↔ ∃ a s', m s = Ok (a, s') ∧ k a s' = Ok (b, s'').
Proof.
  unfold mbind at 1, walk_bind. rewrite bind_ok. split; [intros ([a s'] & ? & ?); eauto|].
  intros (a & s' & ? & ?). by exists (a, s').
Qed.
Lemma walk_ret_Ok (a a' : A) s s' : (mret a : walk A) s = Ok (a', s') ↔ a' = a ∧ s' = s.
Proof. unfold mret, walk_ret. naive_solver. Qed.
Lemma lift_Ok (r : oresult A) s a s' : lift r s = Ok (a, s') ↔ r = Ok a ∧ s' = s.
Proof. unfold lift. rewrite bind_ok. naive_solver. Qed.
Lemma get_Ok s s' s'' : get s = Ok (s', s'') ↔ s' = s ∧ s'' = s.
Proof. unfold get. naive_solver. Qed.
Lemma put_Ok f s u s' : put f s = Ok (u, s') ↔ s' = f s.
Proof. unfold put. destruct u. naive_solver. Qed.
Lemma walk_guard_Ok (P : Prop) `{Decision P} e (k : walk A) s a s' :
  (if decide P then lift (Err e) else k) s = Ok (a, s') ↔ ¬ P ∧ k s = Ok (a, s').
Proof. case_decide; [rewrite lift_Ok|]; naive_solver. Qed.
Lemma walk_document_guard_Ok (P : Prop) `{Decision P} d r (k : walk A) s a s' :
  (if decide P then lift (invalid_document d r) else k) s = Ok (a, s') ↔ ¬ P ∧ k s = Ok (a, s').
Proof. apply walk_guard_Ok. Qed.
Lemma walk_limit_guard_Ok (P : Prop) `{Decision P} w l (k : walk A) s a s' :
  (if decide P then lift (over_limit w l) else k) s = Ok (a, s') ↔ ¬ P ∧ k s = Ok (a, s').
Proof. apply walk_guard_Ok. Qed.

Lemma io_result_Ok path (r : io_error + A) a : io_result path r = Ok a ↔ r = inr a.
Proof. destruct r; naive_solver. Qed.
End monad.

(** Take a successful run apart, call by call. *)
Ltac walk_step :=
  match goal with
  | H : @mbind walk _ _ _ _ _ _ = Ok _ |- _ => apply walk_bind_Ok in H as (? & ? & ? & H); cbv zeta in H
  | H : lift _ _ = Ok _ |- _ => apply lift_Ok in H as [H ?]
  | H : @mret walk _ _ _ _ = Ok _ |- _ => apply walk_ret_Ok in H as [? ?]
  | H : get _ = Ok _ |- _ => apply get_Ok in H as [? ?]
  | H : put _ _ = Ok _ |- _ => apply put_Ok in H
  | H : io_result _ _ = Ok _ |- _ => apply io_result_Ok in H
  | H : (if decide ?P then lift (Err _) else _) _ = Ok _ |- _ => apply walk_guard_Ok in H as [? H]
  | H : (if decide ?P then lift (invalid_document _ _) else _) _ = Ok _ |- _ => apply walk_document_guard_Ok in H as [? H]
  | H : (if decide ?P then lift (over_limit _ _) else _) _ = Ok _ |- _ => apply walk_limit_guard_Ok in H as [? H]
  | H : (let (_, _) := ?p in _) _ = Ok _ |- _ => destruct p
  | H : now _ _ = Ok _ |- _ => injection H as ? ?
  | H : ¬ (_ ≠ _) |- _ => apply dec_stable in H
  | x := _ |- _ => subst x
  | u : () |- _ => destruct u
  | H : ?x = _ |- _ => is_var x; subst x
  | H : _ = ?x |- _ => is_var x; subst x
  end.
Ltac walk_inv H := cbv zeta in H; repeat walk_step.

(** Only the clock differs. *)
Definition advanced (s s' : Verifier.t) : Prop := ∃ c, s' = Verifier.set_clock c s.

#[export] Instance advanced_pre : PreOrder advanced.
Proof.
  split; [intros s; exists (Verifier.clock s); by destruct s|]. intros s s' s'' [c ->] [c' ->]. by exists c'.
Qed.

(** ** What a descriptor stands for *)
Section spec.
Context {sha : Sha2} {hex : Hex} {serde : SerdeJson} {docs : Documents} (limits : VerifyLimits.t).
Context (debug : bytes → bytes) (debug_option : option bytes → bytes).
(** What the decompressors compute. *)
Context (decompress : LayerCompression.t → bytes → bytes).

(** The bytes that a descriptor names. *)
Definition blob (d : Descriptor.t) (maximum : N) (b : bytes) : Prop :=
  Descriptor.digest d = descriptor_digest_text (sha256_digest b) ∧ len b = Descriptor.size d ∧ (len b ≤ maximum)%N.

(** A document that some bytes contain. *)
Definition document {T} (from_value : Value.t → bytes + T) (b : bytes) (x : T) : Prop :=
  token_unique (json_tokens b) ∧ json_end b = None ∧ json_bounded limits (token_value (json_tokens b)) ∧
  from_value (token_value (json_tokens b)) = inr x.

(** A layer: the blob of its descriptor, and what it decompresses to. *)
Record layer_of (pair : Descriptor.t * bytes) (l : Layer.t) (compressed uncompressed : bytes) : Prop := {
  layer_blob : blob pair.1 (VerifyLimits.max_layer_bytes limits) compressed;
  layer_content : uncompressed = decompress (Layer.compression l) compressed;
  layer_digest : Layer.digest l = sha256_digest compressed;
  layer_diff_id : Layer.diff_id l = sha256_digest uncompressed ∧ pair.2 = descriptor_digest_text (Layer.diff_id l);
  layer_sizes : Layer.size l = len compressed ∧ Layer.uncompressed_size l = len uncompressed;
  layer_media_type : Layer.media_type l = Descriptor.media_type pair.1 ∧
    ∃ position, layer_compression (Layer.media_type l) position = Ok (Layer.compression l);
  layer_bound : (len uncompressed ≤ VerifyLimits.max_layer_uncompressed_bytes limits)%N;
  layer_ratio : Layer.compression l ≠ LayerCompression.None →
    (len uncompressed ≤ len compressed * VerifyLimits.max_decompression_ratio limits)%N;
}.

(** An image manifest, and the image it is if it is one for Linux on amd64. *)
Record manifest_of (d : Descriptor.t) (platform : option Platform.t) (out : option VerifiedImage.t)
    (b : bytes) (m : ManifestDocument.t) (cb : bytes) (config : ConfigDocument.t) (layers : list Layer.t) : Prop := {
  manifest_blob : blob d (VerifyLimits.max_manifest_bytes limits) b;
  manifest_document : document manifest_of_value b m;
  manifest_valid : validate_manifest limits debug m d (Descriptor.digest d) = Ok ();
  manifest_config_type : Descriptor.media_type (ManifestDocument.config m) ∈ [OCI_CONFIG; DOCKER_CONFIG];
  manifest_config_blob : blob (ManifestDocument.config m) (VerifyLimits.max_config_bytes limits) cb;
  manifest_config_document : document config_of_value cb config;
  manifest_config_valid :
    validate_config_core limits debug config (Descriptor.digest (ManifestDocument.config m)) = Ok ();
  manifest_layers : Forall2 (λ p l, ∃ c u, layer_of p l c u)
    (zip (ManifestDocument.layers m) (RootFs.diff_ids (ConfigDocument.rootfs config))) layers;
  manifest_count : length (RootFs.diff_ids (ConfigDocument.rootfs config)) = length (ManifestDocument.layers m);
  manifest_image : select_image limits debug debug_option d platform m config cb layers = Ok out;
}.

(** The images below a descriptor of an index at some depth. *)
Inductive walked : N → option Platform.t → Descriptor.t → list VerifiedImage.t → Prop :=
| walked_manifest depth inherited d platform out b m cb config layers :
    merge_platforms limits inherited (Descriptor.platform d) (bs "nested index descriptors") = Ok platform →
    Descriptor.media_type d ∈ [OCI_MANIFEST; DOCKER_MANIFEST] →
    manifest_of d platform out b m cb config layers →
    walked depth inherited d (option_list out)
| walked_index depth inherited d platform b index outs :
    merge_platforms limits inherited (Descriptor.platform d) (bs "nested index descriptors") = Ok platform →
    Descriptor.media_type d ∈ [OCI_INDEX; DOCKER_INDEX] →
    (depth < VerifyLimits.max_index_depth limits)%N →
    blob d (VerifyLimits.max_index_bytes limits) b →
    document index_of_value b index →
    validate_index limits debug index (Descriptor.digest d) (Some (Descriptor.media_type d)) = Ok () →
    Forall2 (walked (depth + 1) platform) (IndexDocument.manifests index) outs →
    walked depth inherited d (concat outs).
End spec.

(** ** Reading *)

(** The bytes of a stream that ends without an error. *)
Fixpoint stream_bytes (r : reads) : option bytes :=
  match r with
  | [] | inr [] :: _ => Some []
  | inl _ :: _ => None
  | inr chunk :: r => (chunk ++.) <$> stream_bytes r
  end.

(** The decompressors: what is read from them to the end, without an error and with
    nothing left in their buffer, is a function of the bytes that they took. *)
Class DecoderLaws `{Decoders} (window : N) (decompress : LayerCompression.t → bytes → bytes) := {
  none_exact b : decompress LayerCompression.None b = b;
  gzip_exact r u :
    stream_bytes (Decoded.output (gzip_decoder r)) = Some u → Decoded.buffered (gzip_decoder r) = 0%N →
    u = decompress LayerCompression.Gzip (concat (delivered (take (Decoded.consumed (gzip_decoder r)) r)));
  zstd_exact r d u :
    zstd_decoder window r = inr d → stream_bytes (Decoded.output d) = Some u → Decoded.buffered d = 0%N →
    u = decompress LayerCompression.Zstd (concat (delivered (take (Decoded.consumed d) r)));
}.

Lemma plain_exact r u :
  stream_bytes (Decoded.output (plain_decoder r)) = Some u →
  u = concat (delivered (take (Decoded.consumed (plain_decoder r)) r)).
Proof.
  revert u. induction r as [|[e|[|b c]] r IH]; intros u; simpl; [by intros [= <-]|done|by intros [= <-]|].
  destruct (stream_bytes _) as [u'|] eqn:E; [|done]. intros [= <-]. simpl. by rewrite (IH u').
Qed.

Lemma one_of (x a b : bytes) : ¬ (x ≠ a ∧ x ≠ b) → x ∈ [a; b].
Proof. rewrite !elem_of_cons. destruct (decide (x = a)), (decide (x = b)); tauto. Qed.

Lemma sum_of_app {A} (f : A → N) l l' : sum_of f (l ++ l') = (sum_of f l + sum_of f l')%N.
Proof. induction l as [|a l IH]; simpl; [done|]. rewrite IH. lia. Qed.

Section facts.
Context {sha : Sha2} {Hsha : Sha2Laws} {hex : Hex} {Hhex : HexLaws}.
Context {serde : SerdeJson} {docs : Documents} {decoders : Decoders}.
Context (history : nat → Moment.t) (root : bytes) (limits : VerifyLimits.t).
Context (debug : bytes → bytes) (debug_option : option bytes → bytes) (display : bytes → bytes).
Context (decompress : LayerCompression.t → bytes → bytes).
Context {Hdecoders : DecoderLaws (VerifyLimits.max_zstd_window_log limits) decompress}.
Context (Hnodes : (VerifyLimits.max_json_nodes limits < u64_bound)%N).
Context (Hstrings : (VerifyLimits.max_total_json_string_bytes limits < u64_bound)%N).

Lemma open_plain_file_Ok path context s r s' :
  open_plain_file history display path context s = Ok (r, s') → advanced s s'.
Proof.
  intros H. unfold open_plain_file in H. walk_inv H. by eexists.
Qed.

(** The pieces that the read loop hashed are what it counted and kept. *)
Lemma read_blob_Ok path context maximum retain file count h retained count' h' retained' :
  (count ≤ maximum)%N →
  read_blob path context maximum retain file count h retained = Ok (count', h', retained') →
  ∃ pieces, count' = (count + len (concat pieces))%N ∧ h' = foldl hasher_update h pieces ∧ (count' ≤ maximum)%N ∧
    retained' = if retain then retained ++ concat pieces else retained.
Proof.
  revert count h retained. induction file as [|[e|[|b c]] file IH]; intros count h retained Hc; simpl; [|done| |];
    [intros [= <- <- <-]; exists []; simpl; split_and!; [unfold len; simpl; lia|done|done|destruct retain; by rewrite ?app_nil_r]..|].
  intros (n & (-> & _)%ok_or_ok%checked_add_Some & H)%bind_ok. apply limit_guard_ok in H as [Hn%N.nlt_ge H].
  apply IH in H as (pieces & -> & -> & ? & ->); [|done]. exists ((b :: c) :: pieces). simpl.
  split_and!; [rewrite app_comm_cons, len_app; lia|done|done|destruct retain; [by rewrite <- app_assoc|done]].
Qed.

Lemma parse_digest_text text context d : parse_digest text context = Ok d → text = descriptor_digest_text d.
Proof. by intros [_ ?]%parse_digest_Ok. Qed.

Lemma authenticate_blob_Ok d maximum retain context s b s' :
  authenticate_blob history root display d maximum retain context s = Ok (b, s') →
  advanced s s' ∧ ∃ content, blob d maximum content ∧ b = if retain then content else [].
Proof.
  intros H. unfold authenticate_blob in H. walk_inv H. select (open_plain_file _ _ _ _ _ = _) (fun H => apply open_plain_file_Ok in H).
  select (parse_digest _ _ = _) (fun H => apply parse_digest_text in H as Hd).
  select (read_blob _ _ _ _ _ _ _ _ = _) (fun H => apply read_blob_Ok in H as (pieces & Hlen & -> & ? & ->)); [|lia].
  split; [done|]. rewrite sha256_pieces, N.add_0_l in *. exists (concat pieces).
  split; [|by destruct retain]. unfold blob. split_and!; congruence || lia.
Qed.

Lemma parse_Ok {T} (from_value : Value.t → bytes + T) b doc s x s' :
  parse limits debug from_value b doc s = Ok (x, s') → s' = s ∧ document limits from_value b x.
Proof. unfold parse. intros [H ->]%lift_Ok. split; [done|]. by apply parse_json_Ok in H. Qed.

(** ** Layers *)
Lemma hash_uncompressed_Ok d compression position total stream n h size digest :
  (n ≤ VerifyLimits.max_layer_uncompressed_bytes limits)%N →
  (total + n ≤ VerifyLimits.max_total_uncompressed_bytes limits)%N →
  (compression ≠ LayerCompression.None → n ≤ Descriptor.size d * VerifyLimits.max_decompression_ratio limits)%N →
  hash_uncompressed_stream limits d compression position total stream n h = Ok (size, digest) →
  ∃ pieces, stream_bytes stream = Some (concat pieces) ∧ size = (n + len (concat pieces))%N ∧
    digest = hasher_finalize (foldl hasher_update h pieces) ∧
    (size ≤ VerifyLimits.max_layer_uncompressed_bytes limits)%N ∧
    (total + size ≤ VerifyLimits.max_total_uncompressed_bytes limits)%N ∧
    (compression ≠ LayerCompression.None → size ≤ Descriptor.size d * VerifyLimits.max_decompression_ratio limits)%N.
Proof.
  revert n h. induction stream as [|[e|[|b c]] stream IH]; intros n h Hn Ht Hr; simpl; [|done| |];
    [intros [= <- <-]; exists []; simpl; split_and!; try done; unfold len; simpl; lia..|].
  intros (n' & (-> & _)%ok_or_ok%checked_add_Some & H)%bind_ok. apply guard_ok in H as [Hm%N.nlt_ge H].
  apply bind_ok in H as (t & (-> & _)%ok_or_ok%checked_add_Some & H). apply guard_ok in H as [Hm'%N.nlt_ge H].
  apply guard_ok in H as [Hratio H]. apply IH in H as (pieces & -> & -> & -> & ? & ? & ?); [|done|done|].
  - exists ((b :: c) :: pieces). simpl. split_and!; [done|rewrite app_comm_cons, len_app; lia|done..].
  - intros Hc. destruct (decide (n + len (b :: c) ≤ Descriptor.size d * VerifyLimits.max_decompression_ratio limits)%N); [done|].
    destruct Hratio. split; [done|lia].
Qed.

Lemma finish_layer_replay_Ok replay rest buffered d digest position :
  finish_layer_replay replay rest buffered d digest position = Ok () →
  buffered = 0%N ∧ len (concat replay) = Descriptor.size d ∧ sha256_digest (concat replay) = digest.
Proof.
  unfold finish_layer_replay. intros (drained & _ & H)%bind_ok. apply bind_ok in H as (t & (-> & _)%ok_or_ok%checked_add_Some & H).
  cbv zeta in H. apply guard_ok in H as [Hs%dec_stable H]. apply guard_ok in H as [Hd%dec_stable H].
  apply guard_ok in H as [Ht%dec_stable _]. rewrite sha256_pieces, concat_app in Hd. rewrite concat_app in Hs.
  assert (concat drained = []) as E by (apply nil_length_inv; unfold len in Ht; lia).
  rewrite E, app_nil_r in *. split_and!; [lia|done..].
Qed.

Lemma layer_decoder_exact compression r d u :
  layer_decoder limits compression r = inr d → stream_bytes (Decoded.output d) = Some u → Decoded.buffered d = 0%N →
  u = decompress compression (concat (delivered (take (Decoded.consumed d) r))).
Proof.
  destruct compression; simpl; [intros [= <-] Hs _|intros [= <-]; apply gzip_exact|apply zstd_exact].
  rewrite none_exact. by apply plain_exact.
Qed.

(** What was unpacked is within the limit. *)
Definition unpacked_ok (s : Verifier.t) : Prop :=
  (Verifier.total_uncompressed_bytes s ≤ VerifyLimits.max_total_uncompressed_bytes limits)%N.
(** [n] more bytes were unpacked; otherwise only the clock differs. *)
Definition unpacked (n : N) (s s' : Verifier.t) : Prop :=
  ∃ c, s' = Verifier.set_clock c (Verifier.set_uncompressed (Verifier.total_uncompressed_bytes s + n) s).

Lemma verify_layer_diff_id_Ok d compression diff_id position s n s' :
  verify_layer_diff_id history root limits display d compression diff_id position s = Ok (n, s') → unpacked_ok s →
  unpacked n s s' ∧ unpacked_ok s' ∧ ∃ c u, Descriptor.digest d = descriptor_digest_text (sha256_digest c) ∧ len c = Descriptor.size d ∧
    u = decompress compression c ∧ diff_id = sha256_digest u ∧ n = len u ∧
    (n ≤ VerifyLimits.max_layer_uncompressed_bytes limits)%N ∧
    (compression ≠ LayerCompression.None → n ≤ len c * VerifyLimits.max_decompression_ratio limits)%N.
Proof.
  intros H Hok. unfold verify_layer_diff_id in H. walk_inv H.
  select (open_plain_file _ _ _ _ _ = _) (fun H => apply open_plain_file_Ok in H as [c ->]).
  select (parse_digest _ _ = _) (fun H => apply parse_digest_text in H as Hd).
  destruct (layer_decoder _ _ _) as [|dec] eqn:Hdec; [done|]. simplify_eq.
  select (hash_uncompressed_stream _ _ _ _ _ _ _ _ = _) (fun H => apply hash_uncompressed_Ok in H as (pieces & Hs & -> & -> & ? & ? & ?));
    [|unfold unpacked_ok in Hok; simpl in *; lia..].
  select (ok_or _ _ = _) (fun H => apply ok_or_ok, checked_add_Some in H as [-> _]).
  select (finish_layer_replay _ _ _ _ _ _ = _) (fun H => apply finish_layer_replay_Ok in H as (Hb & Hlen & Hdig)).
  rewrite sha256_pieces, N.add_0_l in *. split; [by eexists|]. split; [done|].
  do 2 eexists. split_and!; [by rewrite Hdig|done|eapply layer_decoder_exact; [exact Hdec|exact Hs|exact Hb]|done|done|done|].
  by rewrite Hlen.
Qed.

(** The two totals of a verification are within their limits. *)
Definition within (s : Verifier.t) : Prop :=
  unpacked_ok s ∧ (Verifier.descriptors_seen s ≤ VerifyLimits.max_total_descriptors limits)%N.

(** [n] bytes were unpacked, nothing was selected. *)
Definition grown (n : N) (s s' : Verifier.t) : Prop :=
  within s' ∧ Verifier.candidates s' = Verifier.candidates s ∧
  Verifier.total_uncompressed_bytes s' = (Verifier.total_uncompressed_bytes s + n)%N.

Lemma grown_trans n n' s s' s'' : grown n s s' → grown n' s' s'' → grown (n + n') s s''.
Proof. intros (? & H1 & H2) (? & H3 & H4). split_and!; [done|by rewrite H3|rewrite H4, H2; lia]. Qed.
Lemma grown_advanced s s' : within s → advanced s s' → grown 0 s s'.
Proof. intros Hw [c ->]. split_and!; [by destruct Hw; split|done|simpl; lia]. Qed.

Lemma consume_descriptor_Ok d context s u s' :
  within s → consume_descriptor limits d context s = Ok (u, s') →
  grown 0 s s' ∧ validate_descriptor limits d context = Ok ().
Proof.
  intros [Hu Hs] H. unfold consume_descriptor in H. walk_inv H.
  select (ok_or _ _ = _) (fun H => apply ok_or_ok, checked_add_Some in H as [-> _]).
  split; [|done]. split_and!; [split; [done|simpl in *; lia]|done|simpl; lia].
Qed.

Lemma authenticate_layer_blob_Ok d position s digest s' :
  authenticate_layer_blob history root limits display d position s = Ok (digest, s') →
  advanced s s' ∧ is_digest digest ∧ Descriptor.digest d = descriptor_digest_text digest ∧
    (Descriptor.size d ≤ VerifyLimits.max_layer_bytes limits)%N.
Proof.
  intros H. unfold authenticate_layer_blob in H. walk_inv H.
  select (authenticate_blob _ _ _ _ _ _ _ _ = _) (fun H => apply authenticate_blob_Ok in H as (? & content & (_ & Hlen & ?) & _)).
  select (parse_digest _ _ = _) (fun H => apply parse_digest_Ok in H as [? ?]). rewrite Hlen in *. done.
Qed.

Lemma descriptor_digest_text_inj d d' :
  is_digest d → is_digest d' → descriptor_digest_text d = descriptor_digest_text d' → d = d'.
Proof.
  intros Hd Hd' E.
  assert (parse_digest (descriptor_digest_text d) [] = Ok d) as H1 by (by apply parse_digest_Ok).
  assert (parse_digest (descriptor_digest_text d) [] = Ok d') as H2 by (rewrite E; by apply parse_digest_Ok).
  congruence.
Qed.

Lemma verify_layer_Ok context position d diff_id s l s' :
  within s → verify_layer history root limits display context position d diff_id s = Ok (l, s') →
  grown (Layer.uncompressed_size l) s s' ∧ ∃ c u, layer_of limits decompress (d, diff_id) l c u.
Proof.
  intros Hw H. unfold verify_layer in H. walk_inv H.
  select (consume_descriptor _ _ _ _ = _) (fun H => apply consume_descriptor_Ok in H as [Hg1 _]; [|done]).
  select (authenticate_layer_blob _ _ _ _ _ _ _ = _) (fun H => apply authenticate_layer_blob_Ok in H as (Hg2 & Hdig & Htext & Hmax)).
  select (parse_digest _ _ = _) (fun H => apply parse_digest_Ok in H as [? ?]).
  apply grown_advanced in Hg2; [|by destruct Hg1]. pose proof (grown_trans _ _ _ _ _ Hg1 Hg2) as Hg3. destruct Hg3 as ([Hu Hs] & Hc & Ht).
  select (verify_layer_diff_id _ _ _ _ _ _ _ _ _ = _) (fun H => apply verify_layer_diff_id_Ok in H
    as ([k ->] & Hu' & c & u & Hd & Hlen & -> & -> & -> & ? & ?); [|done]).
  split; [split_and!; [by split|done|simpl in *; lia]|]. rewrite Htext in Hd.
  apply descriptor_digest_text_inj in Hd as ->; [|done|by apply sha256_length].
  do 2 eexists. constructor; simpl; try done; [by split_and!; [| |rewrite Hlen]|by eauto].
Qed.

Lemma verify_layers_Ok context position pairs s layers s' :
  within s → verify_layers history root limits display context position pairs s = Ok (layers, s') →
  grown (sum_of Layer.uncompressed_size layers) s s' ∧
  Forall2 (λ p l, ∃ c u, layer_of limits decompress p l c u) pairs layers.
Proof.
  revert position s layers. induction pairs as [|[d diff_id] pairs IH]; intros position s layers Hw H; simpl in H.
  { walk_inv H. split; [|constructor]. split_and!; [done|done|simpl; lia]. }
  walk_inv H. select (verify_layer _ _ _ _ _ _ _ _ _ = _) (fun H => apply verify_layer_Ok in H as [Hg1 ?]; [|done]).
  select (verify_layers _ _ _ _ _ _ _ _ = _) (fun H => apply IH in H as [Hg2 ?]; [|by destruct Hg1]).
  split; [by apply (grown_trans _ _ _ _ _ Hg1 Hg2)|by constructor].
Qed.

(** ** Manifests *)

(** The image that a manifest for Linux on amd64 gives. *)
Lemma select_image_Some d platform m config cb layers img :
  select_image limits debug debug_option d platform m config cb layers = Ok (Some img) →
  VerifiedImage.layers img = layers ∧ VerifiedImage.config_bytes img = cb ∧
  Descriptor.digest d = descriptor_digest_text (VerifiedImage.manifest_digest img) ∧
  Descriptor.size d = VerifiedImage.manifest_size img ∧
  Descriptor.digest (ManifestDocument.config m) = descriptor_digest_text (VerifiedImage.config_digest img) ∧
  Descriptor.size (ManifestDocument.config m) = VerifiedImage.config_size img ∧
  is_digest (VerifiedImage.manifest_digest img) ∧ is_digest (VerifiedImage.config_digest img) ∧
  VerifiedImage.effective_platform img = effective_platform platform (config_platform_of config) ∧
  Platform.os (config_platform_of config) = bs "linux" ∧ Platform.architecture (config_platform_of config) = bs "amd64" ∧
  validate_target_platform debug_option (config_platform_of config) (Descriptor.digest (ManifestDocument.config m)) = Ok () ∧
  (∀ p, platform = Some p → validate_target_platform debug_option p (Descriptor.digest d) = Ok ()) ∧
  effective_process limits debug (ConfigDocument.config config) = Ok (VerifiedImage.process img).
Proof.
  unfold select_image. cbv zeta. rewrite !bind_unit_ok. intros (_ & _ & H). revert H. case_decide as Ht; [done|]. destruct Ht as [Hos Harch]. intros H.
  rewrite !bind_unit_ok in H. destruct H as (Hv & Hp & H). apply bind_ok in H as (process & He & H).
  apply bind_ok in H as (md & Hm & H). apply bind_ok in H as (cd & Hc & [= <-]).
  apply parse_digest_Ok in Hm as [? ?], Hc as [? ?].
  split_and!; try done. by intros p ->.
Qed.

(** The bytes that the layers of an image unpack to. *)
Definition image_unpacked (img : VerifiedImage.t) : N := sum_of Layer.uncompressed_size (VerifiedImage.layers img).

Lemma authenticate_json_blob_Ok d maximum context s b s' :
  within s → authenticate_json_blob history root display d maximum context s = Ok (b, s') →
  grown 0 s s' ∧ blob d maximum b.
Proof. intros Hw (Ha & c & Hb & ->)%authenticate_blob_Ok. split; [by apply grown_advanced|done]. Qed.

Lemma grown_within n s s' : grown n s s' → within s'.
Proof. by intros []. Qed.

(** What each call did to the state, and what its result is. *)
Ltac grown_step :=
  match goal with
  | H : parse _ _ _ _ _ _ = Ok _ |- _ => apply parse_Ok in H as [? ?]; subst
  | W : within ?s, H : authenticate_json_blob _ _ _ _ _ _ ?s = Ok _ |- _ =>
      apply (authenticate_json_blob_Ok _ _ _ _ _ _ W) in H as [? ?]
  | W : within ?s, H : consume_descriptor _ _ _ ?s = Ok _ |- _ => apply (consume_descriptor_Ok _ _ _ _ _ W) in H as [? ?]
  | W : within ?s, H : verify_layers _ _ _ _ _ _ _ ?s = Ok _ |- _ => apply (verify_layers_Ok _ _ _ _ _ _ W) in H as [? ?]
  | G : grown _ _ ?s' |- _ =>
      lazymatch goal with W : within s' |- _ => fail | _ => pose proof (grown_within _ _ _ G) end
  | G : grown ?n ?s ?s', G' : grown ?n' ?s' ?s'' |- _ =>
      pose proof (grown_trans _ _ _ _ _ G G'); clear G G'
  end.

Lemma verify_manifest_Ok d platform s out s' :
  within s → verify_manifest history root limits debug debug_option display d platform s = Ok (out, s') →
  ∃ n b m cb config layers, grown n s s' ∧ manifest_of limits debug debug_option decompress d platform out b m cb config layers ∧
    (sum_of image_unpacked (option_list out) ≤ n)%N.
Proof.
  intros Hw H. unfold verify_manifest in H. walk_inv H. repeat grown_step.
  do 6 eexists. split; [done|]. split; [constructor; try done|].
  - by apply one_of.
  - unfold len in *. lia.
  - destruct out as [img|]; [|simpl; lia]. apply select_image_Some in H as (E & _). simpl. unfold image_unpacked. rewrite E. lia.
Qed.

(** ** Indexes *)

(** The images [outs] were selected, and what they unpack to is accounted for. *)
Definition selected (outs : list VerifiedImage.t) (s s' : Verifier.t) : Prop :=
  within s' ∧ Verifier.candidates s' = Verifier.candidates s ++ outs ∧
  (Verifier.total_uncompressed_bytes s + sum_of image_unpacked outs ≤ Verifier.total_uncompressed_bytes s')%N.

Lemma for_each_selected {A} (f : A → walk ()) (R : A → list VerifiedImage.t → Prop) l :
  (∀ a s u s', within s → f a s = Ok (u, s') → ∃ outs, R a outs ∧ selected outs s s') →
  ∀ s u s', within s → for_each f l s = Ok (u, s') → ∃ outs, Forall2 R l outs ∧ selected (concat outs) s s'.
Proof.
  intros Hf. induction l as [|a l IH]; intros s u s' Hw H; simpl in H; walk_inv H.
  - exists []. split; [constructor|]. split_and!; [done|by rewrite app_nil_r|simpl; lia].
  - select (f a _ = _) (fun H => apply Hf in H as (out & ? & Hw' & Hc & Ht); [|done]).
    apply IH in H as (outs & ? & ? & Hc' & Ht'); [|done]. exists (out :: outs). split; [by constructor|].
    split_and!; [done|rewrite Hc', Hc; simpl; by rewrite (assoc_L (++))|]. simpl. rewrite sum_of_app. lia.
Qed.

(** A manifest, once the checks that every descriptor passes are done. *)
Lemma walk_manifest_Ok d inherited depth platform s u s' :
  within s →
  merge_platforms limits inherited (Descriptor.platform d) (bs "nested index descriptors") = Ok platform →
  Descriptor.media_type d ∈ [OCI_MANIFEST; DOCKER_MANIFEST] →
  (image ← verify_manifest history root limits debug debug_option display d platform;
   match image with
   | Some image => put (λ s, Verifier.set_candidates (Verifier.candidates s ++ [image]) s)
   | None => mret ()
   end) s = Ok (u, s') →
  ∃ outs, walked limits debug debug_option decompress depth inherited d outs ∧ selected outs s s'.
Proof.
  intros Hw Hp Ht H. walk_inv H.
  select (verify_manifest _ _ _ _ _ _ _ _ _ = _) (fun H => apply verify_manifest_Ok in H
    as (n & b & m & cb & config & layers & ([Hu Hs] & Hc & Htot) & Hm & Hsum); [|done]).
  exists (option_list x). split; [by econstructor|]. unfold selected. rewrite <- Hc.
  destruct x as [img|]; walk_inv H; (split_and!; [by split|by rewrite ?app_nil_r|simpl in *; lia]).
Qed.

Lemma walk_descriptor_Ok fuel d inherited depth s u s' :
  within s →
  walk_descriptor history root limits debug debug_option display fuel d inherited depth s = Ok (u, s') →
  ∃ outs, walked limits debug debug_option decompress depth inherited d outs ∧ selected outs s s'.
Proof.
  revert d inherited depth s u s'. induction fuel as [|fuel IH]; intros d inherited depth s u s' Hw H; cbn [walk_descriptor] in H;
    apply walk_bind_Ok in H as ([] & s1 & Hd & H); apply consume_descriptor_Ok in Hd as [(W & Hc & Ht) _]; try done;
    apply walk_bind_Ok in H as (platform & s2 & [Hp ->]%lift_Ok & H); cbv zeta in H;
    unfold selected; setoid_rewrite <- Hc; rewrite N.add_0_r in Ht; setoid_rewrite <- Ht; revert H;
    (destruct (decide (_ ∨ _)) as [Hm|_];
      [intros H; eapply walk_manifest_Ok; [done|done|rewrite !elem_of_cons; tauto|done]|]);
    (destruct (decide (_ ∨ _)) as [Hi|_]; [|by intros [? _]%lift_Ok]); intros [Hdepth%N.nle_gt H]%walk_limit_guard_Ok; [done|].
  clear Hc Ht Hw s. walk_inv H. repeat grown_step.
  select (authenticate_json_blob _ _ _ _ _ _ _ = _) (fun H => apply authenticate_json_blob_Ok in H as [(Hw & Hc & Ht) Hb]; [|done]).
  select (for_each _ _ _ = _) (fun H => apply (for_each_selected _
    (walked limits debug debug_option decompress (depth + 1) platform)) in H as (outs & Houts & Hw' & Hc' & Ht');
    [|intros; by eapply IH|done]).
  exists (concat outs). split; [eapply walked_index; try done; rewrite !elem_of_cons; tauto|].
  simpl in *. split_and!; [done|by rewrite Hc', Hc|lia].
Qed.

(** ** Layouts *)

(** The image that a layout holds: the configuration, the manifest and the layers are the
    bytes that their digests name, it runs on Linux on amd64 without extensions, and
    its process defaults are those of the configuration. *)
Record image_ok (img : VerifiedImage.t) : Prop := {
  image_config : sha256_digest (VerifiedImage.config_bytes img) = VerifiedImage.config_digest img ∧
    len (VerifiedImage.config_bytes img) = VerifiedImage.config_size img;
  image_manifest : ∃ b m config, sha256_digest b = VerifiedImage.manifest_digest img ∧
    len b = VerifiedImage.manifest_size img ∧ document limits manifest_of_value b m ∧
    document limits config_of_value (VerifiedImage.config_bytes img) config ∧
    (len (VerifiedImage.config_bytes img) ≤ VerifyLimits.max_config_bytes limits)%N ∧
    validate_config_core limits debug config (Descriptor.digest (ManifestDocument.config m)) = Ok () ∧
    Descriptor.digest (ManifestDocument.config m) = descriptor_digest_text (VerifiedImage.config_digest img) ∧
    effective_process limits debug (ConfigDocument.config config) = Ok (VerifiedImage.process img) ∧
    length (RootFs.diff_ids (ConfigDocument.rootfs config)) = length (ManifestDocument.layers m) ∧
    Forall2 (λ p l, ∃ c u, layer_of limits decompress p l c u)
      (zip (ManifestDocument.layers m) (RootFs.diff_ids (ConfigDocument.rootfs config))) (VerifiedImage.layers img);
  image_platform : let p := VerifiedImage.effective_platform img in
    Platform.os p = bs "linux" ∧ Platform.architecture p = bs "amd64" ∧
    (Platform.variant p = None ∨ Platform.variant p = Some (bs "v1")) ∧
    Platform.os_version p = None ∧ Platform.os_features p = [] ∧ Platform.features p = [];
}.

Lemma validate_target_platform_Ok p context :
  validate_target_platform debug_option p context = Ok () →
  (explicit_value (Platform.variant p) = None ∨ explicit_value (Platform.variant p) = Some (bs "v1")) ∧
  explicit_value (Platform.os_version p) = None ∧ Platform.os_features p = [] ∧ Platform.features p = [].
Proof.
  unfold validate_target_platform. rewrite !guard_ok. intros (Hv & Hn & Hf & _). split_and!.
  - destruct (decide (explicit_value (Platform.variant p) = None)), (decide (explicit_value (Platform.variant p) = Some (bs "v1")));
      tauto.
  - by apply eq_None_not_Some.
  - destruct (decide (Platform.os_features p = [])); tauto.
  - destruct (decide (Platform.features p = [])); tauto.
Qed.

Lemma effective_platform_target d c dc cc :
  Platform.os c = bs "linux" → Platform.architecture c = bs "amd64" →
  validate_target_platform debug_option c cc = Ok () →
  (∀ p, d = Some p → validate_target_platform debug_option p dc = Ok ()) →
  let p := effective_platform d c in
  Platform.os p = bs "linux" ∧ Platform.architecture p = bs "amd64" ∧
  (Platform.variant p = None ∨ Platform.variant p = Some (bs "v1")) ∧
  Platform.os_version p = None ∧ Platform.os_features p = [] ∧ Platform.features p = [].
Proof.
  intros Ho Ha (Hv & Hn & Hf & _)%validate_target_platform_Ok Hd. destruct d as [p|]; simpl.
  - destruct (validate_target_platform_Ok _ _ (Hd p eq_refl)) as (Hv' & -> & Hf' & ->).
    destruct p as [? ? ? ? feats ?]; simpl in *. subst feats. destruct Hv' as [->| ->]; rewrite ?Hn; by split_and!; auto.
  - rewrite Hn. by split_and!.
Qed.

Lemma manifest_of_image d platform b m cb config layers img :
  manifest_of limits debug debug_option decompress d platform (Some img) b m cb config layers → image_ok img.
Proof.
  intros [(Hb & Hlen & _) Hdoc _ _ (Hcb & Hclen & Hmax) Hcdoc Hcore Hl Hcount Hs].
  apply select_image_Some in Hs as (<- & <- & Hm & Hms & Hc & Hcs & Hmd & Hcd & Heff & Hos & Harch & Ht & Hp & Hproc).
  rewrite Hb in Hm. apply descriptor_digest_text_inj in Hm; [|by apply sha256_length|done].
  rewrite Hcb in Hc. apply descriptor_digest_text_inj in Hc; [|by apply sha256_length|done].
  constructor; [by rewrite Hc, Hclen| |rewrite Heff; by eapply effective_platform_target].
  exists b, m, config. rewrite <- Hc, <- Hcb. split_and!; try done. by rewrite Hlen.
Qed.

(** Every image below a descriptor is authentic. *)
Lemma walked_images depth inherited d outs :
  walked limits debug debug_option decompress depth inherited d outs → Forall image_ok outs.
Proof.
  revert depth inherited d outs. fix IH 5. intros depth inherited d outs
    [? ? ? ? [img|] ? ? ? ? ? _ _ Hm|? ? ? ? ? index os _ _ _ _ _ _ Hall]; simpl.
  - constructor; [by eapply manifest_of_image|constructor].
  - constructor.
  - revert Hall. generalize (IndexDocument.manifests index) as l. revert os. fix go 3.
    intros os l [|a o l' os' Hw Hrest]; simpl; [constructor|].
    apply Forall_app_2; [exact (IH _ _ _ _ Hw)|exact (go _ _ Hrest)].
Qed.

(** ** The verifier returns *)
Definition returns {A} (m : walk A) : Prop := ∀ s, no_panic (m s).

Lemma returns_bind {A B} (m : walk A) (k : A → walk B) : returns m → (∀ a, returns (k a)) → returns (m ≫= k).
Proof. intros Hm Hk s. unfold mbind, walk_bind. apply np_bind; [apply Hm|]. intros [a s'] _. apply Hk. Qed.
Lemma returns_lift {A} (r : oresult A) : no_panic r → returns (lift r).
Proof. intros Hr s. apply np_bind; [done|]. intros; done. Qed.
Lemma returns_ret {A} (a : A) : returns (mret a).
Proof. by intros s. Qed.
Lemma returns_for_each {A} (f : A → walk ()) l : (∀ a, returns (f a)) → returns (for_each f l).
Proof. intros Hf. induction l as [|a l IH]; simpl; [apply returns_ret|]. by apply returns_bind. Qed.

Lemma np_io_result {A} path (r : io_error + A) : no_panic (io_result path r).
Proof. by destruct r. Qed.
Lemma np_parse_digest text context : no_panic (parse_digest text context).
Proof.
  unfold parse_digest. destruct (strip_prefix _ _); [|done]. case_decide as Hx; [done|].
  apply is_hex64_iff in Hx as (d & -> & _). rewrite hex_decode_lower. cbn [map_err]. rsimpl. by case_decide.
Qed.
#[local] Hint Resolve np_io_result np_parse_digest parse_json_returns : no_panic.

Lemma np_read_blob path context maximum retain file count h retained :
  no_panic (read_blob path context maximum retain file count h retained).
Proof. revert count h retained. induction file as [|[e|[|b c]] file IH]; intros; simpl; try done. np. Qed.
Lemma np_hash_uncompressed d compression position total stream n h :
  no_panic (hash_uncompressed_stream limits d compression position total stream n h).
Proof. revert n h. induction stream as [|[e|[|b c]] stream IH]; intros; simpl; try done. np. Qed.
Lemma np_drain d position r : no_panic (drain d position r).
Proof. induction r as [|[e|[|b c]] r IH]; simpl; try done. np. Qed.
#[local] Hint Resolve np_read_blob np_hash_uncompressed np_drain : no_panic.
Lemma np_finish_layer_replay replay rest buffered d digest position :
  no_panic (finish_layer_replay replay rest buffered d digest position).
Proof. unfold finish_layer_replay. np. Qed.
Lemma np_layer_compression media_type position : no_panic (layer_compression media_type position).
Proof. unfold layer_compression. np. Qed.
Lemma np_validate_target_platform p context : no_panic (validate_target_platform debug_option p context).
Proof. unfold validate_target_platform. np. Qed.
Lemma np_validate_platform_shape p context : no_panic (validate_platform_shape limits p context).
Proof. unfold validate_platform_shape, check_platform_text. np. Qed.
Lemma np_require_platform_agreement p q context : no_panic (require_platform_agreement p q context).
Proof. unfold require_platform_agreement. np. Qed.
Lemma np_validate_annotations annotations context : no_panic (validate_annotations limits annotations context).
Proof. unfold validate_annotations. np. Qed.
#[local] Hint Resolve np_finish_layer_replay np_layer_compression np_validate_target_platform np_validate_platform_shape
  np_require_platform_agreement np_validate_annotations : no_panic.
Lemma np_merge_platforms inherited local context : no_panic (merge_platforms limits inherited local context).
Proof. unfold merge_platforms. np. Qed.
Lemma np_validate_descriptor d context : no_panic (validate_descriptor limits d context).
Proof. unfold validate_descriptor, validate_embedded_data. np. Qed.
Lemma np_validate_index index context media_type : no_panic (validate_index limits debug index context media_type).
Proof. unfold validate_index. np. Qed.
Lemma np_validate_manifest m d context : no_panic (validate_manifest limits debug m d context).
Proof. unfold validate_manifest. np. Qed.
Lemma np_validate_config_core config context : no_panic (validate_config_core limits debug config context).
Proof. unfold validate_config_core. np. Qed.
Lemma np_validate_process_string value field : no_panic (validate_process_string limits value field).
Proof. unfold validate_process_string. np. Qed.
#[local] Hint Resolve np_validate_process_string : no_panic.
Lemma np_effective_process config : no_panic (effective_process limits debug config).
Proof. unfold effective_process, check_strings, check_label, check_environment. np. Qed.
#[local] Hint Resolve np_merge_platforms np_validate_descriptor np_validate_index np_validate_manifest
  np_validate_config_core np_effective_process : no_panic.
Lemma np_select_image d platform m config cb layers :
  no_panic (select_image limits debug debug_option d platform m config cb layers).
Proof. unfold select_image. np. Qed.
#[local] Hint Resolve np_select_image : no_panic.

Ltac returns_step :=
  lazymatch goal with
  | |- returns (mret _) => apply returns_ret
  | |- returns (lift _) => apply returns_lift
  | |- returns (_ ≫= _) => apply returns_bind; [|intros]
  | |- returns (for_each _ _) => apply returns_for_each; intros
  | |- returns (if ?b then _ else _) => destruct b
  | |- returns (match ?x with _ => _ end) => destruct x
  | |- no_panic _ => np
  end.
Ltac wnp := cbv beta zeta; repeat first [solve [auto with no_panic] | returns_step; cbv beta zeta].

Lemma returns_now : returns (now history).
Proof. by intros s. Qed.
Lemma returns_get : returns get.
Proof. by intros s. Qed.
Lemma returns_put f : returns (put f).
Proof. by intros s. Qed.
#[local] Hint Resolve returns_now returns_get returns_put : no_panic.
Lemma returns_require_plain_directory path label : returns (require_plain_directory history display path label).
Proof. unfold require_plain_directory. wnp. Qed.
Lemma returns_open_plain_file path context : returns (open_plain_file history display path context).
Proof. unfold open_plain_file. wnp. Qed.
#[local] Hint Resolve returns_require_plain_directory returns_open_plain_file : no_panic.
Lemma returns_read_plain_file_bounded path maximum context :
  returns (read_plain_file_bounded history display path maximum context).
Proof. unfold read_plain_file_bounded. wnp. Qed.
Lemma returns_authenticate_blob d maximum retain context :
  returns (authenticate_blob history root display d maximum retain context).
Proof. unfold authenticate_blob. wnp. Qed.
Lemma returns_consume_descriptor d context : returns (consume_descriptor limits d context).
Proof. unfold consume_descriptor. wnp. Qed.
Lemma returns_parse {T} (from_value : Value.t → bytes + T) b doc : returns (parse limits debug from_value b doc).
Proof. unfold parse. wnp. Qed.
#[local] Hint Resolve returns_read_plain_file_bounded returns_authenticate_blob returns_consume_descriptor
  returns_parse : no_panic.
Lemma returns_verify_layer_diff_id d compression diff_id position :
  returns (verify_layer_diff_id history root limits display d compression diff_id position).
Proof. unfold verify_layer_diff_id. wnp. Qed.
#[local] Hint Resolve returns_verify_layer_diff_id : no_panic.
Lemma returns_verify_layers context position pairs :
  returns (verify_layers history root limits display context position pairs).
Proof.
  revert position. induction pairs as [|[d diff_id] pairs IH]; intros position; simpl;
    unfold verify_layer, authenticate_layer_blob; wnp.
Qed.
#[local] Hint Resolve returns_verify_layers : no_panic.
Lemma returns_verify_manifest d platform :
  returns (verify_manifest history root limits debug debug_option display d platform).
Proof. unfold verify_manifest, authenticate_json_blob. wnp. Qed.
#[local] Hint Resolve returns_verify_manifest : no_panic.

(** The depth limit is the fuel. *)
Lemma returns_walk_descriptor fuel d inherited depth :
  (VerifyLimits.max_index_depth limits ≤ depth + N.of_nat fuel)%N →
  returns (walk_descriptor history root limits debug debug_option display fuel d inherited depth).
Proof.
  revert d inherited depth. induction fuel as [|fuel IH]; intros d inherited depth Hf; cbn [walk_descriptor];
    unfold authenticate_json_blob; wnp; [lia|]. apply IH. lia.
Qed.

(** The context only appears in errors. *)
Lemma validate_config_core_Ok config context :
  validate_config_core limits debug config context = Ok () ↔
  RootFs.kind (ConfigDocument.rootfs config) = bs "layers" ∧
  (len (RootFs.diff_ids (ConfigDocument.rootfs config)) ≤ VerifyLimits.max_layers limits)%N ∧
  Forall (λ t, ∃ d, is_digest d ∧ t = descriptor_digest_text d) (RootFs.diff_ids (ConfigDocument.rootfs config)).
Proof.
  unfold validate_config_core. cbv zeta. rewrite document_guard_ok, limit_guard_ok, N.nlt_ge, each_ok.
  assert (∀ P : Prop, Decision P → ¬ ¬ P ↔ P) as Hdn by (intros; split; [apply dec_stable|tauto]).
  rewrite Hdn by apply _. do 2 f_equiv. rewrite !Forall_lookup. split.
  - intros H i t Ht. specialize (H i (i, t)). rewrite list_lookup_imap, Ht in H. specialize (H eq_refl). simpl in H.
    apply bind_ok in H as (d & Hd%parse_digest_Ok & _). by exists d.
  - intros H i [j t]. rewrite list_lookup_imap. destruct (_ !! i) eqn:E; [|done]. intros [= <- <-].
    apply H in E as (d & Hd). apply bind_ok. exists d. split; [by apply parse_digest_Ok|done].
Qed.

(** The retained configuration gives the process defaults again. *)
Lemma image_config_again img :
  image_ok img →
  parse_image_process_config_with_limits debug limits (VerifiedImage.config_bytes img) = Ok (VerifiedImage.process img).
Proof.
  intros [_ (b & m & config & _ & _ & _ & Hdoc & Hmax & Hcore & _ & Hproc & _) _].
  unfold parse_image_process_config_with_limits. apply limit_guard_ok. split; [lia|]. apply bind_ok. exists config.
  split; [by apply parse_json_Ok|]. apply bind_unit_ok. split; [|done]. apply validate_config_core_Ok.
  by apply validate_config_core_Ok in Hcore.
Qed.

(** C23: an image that the verifier of a layout returns is authentic, however the directory
    changes while it is read.  The walk over all descriptors that are reachable from
    the index selected it and no other; its manifest and its configuration are the
    bytes that their digests name; each layer's blob unpacks to the bytes whose
    digest the configuration gives, within the limits per layer, in total, and
    of the compression ratio; it is for Linux on amd64 without extensions; and parsing
    the retained configuration again gives the same process.  The verifier always
    returns. *)
Theorem layout_verified s :
  no_panic (verify_layout_with_limits history root limits debug debug_option display s) ∧
  ∀ img s', verify_layout_with_limits history root limits debug debug_option display s = Ok (img, s') →
    image_ok img ∧ (image_unpacked img ≤ VerifyLimits.max_total_uncompressed_bytes limits)%N ∧
    parse_image_process_config_with_limits debug limits (VerifiedImage.config_bytes img) = Ok (VerifiedImage.process img) ∧
    ∃ b index outs, document limits index_of_value b index ∧
      validate_index limits debug index (bs "index.json") None = Ok () ∧
      Forall2 (walked limits debug debug_option decompress 0 None) (IndexDocument.manifests index) outs ∧
      concat outs = [img].
Proof.
  split.
  - assert (returns (verify_layout_with_limits history root limits debug debug_option display)) as H; [|apply H].
    unfold verify_layout_with_limits. wnp. apply returns_walk_descriptor. lia.
  - intros img s' H. unfold verify_layout_with_limits in H. walk_inv H.
    select (parse _ _ index_of_value _ _ _ = _) (fun H => apply parse_Ok in H as [-> Hindex]).
    select (for_each _ _ _ = _) (fun H => apply (for_each_selected _ (walked limits debug debug_option decompress 0 None)) in H
      as (outs & Houts & Hw & Hc & Ht); [|intros; by eapply walk_descriptor_Ok|split; [apply N.le_0_l|apply N.le_0_l]]).
    rewrite Hc in H. simpl in H. destruct (concat outs) as [|o [|]] eqn:Ho; walk_inv H; try done.
    assert (Forall image_ok (concat outs)) as Hok.
    { apply Forall_concat. eapply Forall2_Forall_r; [exact Houts|]. apply Forall_forall. intros d _ o'. apply walked_images. }
    rewrite Ho in Hok. apply Forall_cons in Hok as [Hok _]. split_and!; [done| |by apply image_config_again|do 2 eexists; by exists outs].
    destruct Hw as [Hu _]. unfold unpacked_ok in Hu. simpl in Ht. lia.
Qed.
End facts.

(** ** A layout with one image of one layer *)
Module SampleLayout.
Import SampleHash SampleHex.

#[export] Instance sample_serde : SerdeJson := {| json_tokens b := Token.Str b; json_end _ := None; json_custom t := t |}.

Definition text_of (b : bytes) : bytes := descriptor_digest_text (sha256_digest b).
Definition describe (media_type b : bytes) : Descriptor.t :=
  Descriptor.descriptor media_type (text_of b) (len b) None [] None None None.

Definition content (v : Value.t) : bytes := match v with Value.String s => s | _ => [] end.
#[export] Instance sample_documents : Documents := {|
  layout_of_value v := inr (content v);
  index_of_value v := inr (IndexDocument.index_document 2 (Some OCI_INDEX) [describe OCI_MANIFEST (bs "manifest")] []);
  manifest_of_value v := inr (ManifestDocument.manifest_document 2 None (describe OCI_CONFIG (bs "config"))
    [describe OCI_LAYER_GZIP (bs "layer")] [] None None);
  config_of_value v := inr (ConfigDocument.config_document (bs "amd64") (bs "linux") (Some []) None []
    (RootFs.root_fs (bs "layers") [text_of (bs "layer")]) None);
|}.

#[export] Instance sample_decoders : Decoders := {|
  gzip_decoder := plain_decoder; zstd_decoder _ r := inr (plain_decoder r) |}.
#[export] Instance sample_decoder_laws window : DecoderLaws window (λ _ b, b).
Proof.
  split; [done|intros r u H _; by apply plain_exact|]. intros r d u [= <-] H _. by apply plain_exact.
Qed.

Definition directory : FileMetadata.t := FileMetadata.file_metadata false false true 1 2 0.
Definition regular (b : bytes) : FileMetadata.t := FileMetadata.file_metadata false true false 1 3 (len b).
Definition file_at (path : bytes) : bytes :=
  if decide (path = bs "/image/oci-layout") then bs "1.0.0" else
  if decide (path = bs "/image/index.json") then bs "index" else
  if decide (path = blob_path (bs "/image") (sha256_digest (bs "manifest"))) then bs "manifest" else
  if decide (path = blob_path (bs "/image") (sha256_digest (bs "config"))) then bs "config" else
  bs "layer".
Definition sample_history (clock : nat) : Moment.t := Moment.moment
  (λ path, inr (if decide (path ∈ [bs "/image"; bs "/image/blobs"; bs "/image/blobs/sha256"]) then directory
                else regular (file_at path)))
  (λ path, inr (OpenFile.open_file (inr (regular (file_at path))) [inr (take 3 (file_at path)); inr (drop 3 (file_at path))])).

Lemma layout_verified_witness :
  match verify_layout_with_limits sample_history (bs "/image") VerifyLimits.default id (λ _, []) id (Verifier.new 0) with
  | Ok (img, _) => VerifiedImage.config_bytes img = bs "config" ∧ length (VerifiedImage.layers img) = 1 ∧
      (image_unpacked img ≤ 5)%N ∧
      parse_image_process_config_with_limits id VerifyLimits.default (bs "config") = Ok (VerifiedImage.process img)
  | _ => False
  end.
Proof.
  destruct (layout_verified sample_history (bs "/image") VerifyLimits.default id (λ _, []) id (λ _ b, b)
    ltac:(vm_compute; reflexivity) ltac:(vm_compute; reflexivity) (Verifier.new 0)) as [_ H].
  destruct (verify_layout_with_limits _ _ _ _ _ _ _) as [[img s]|e|] eqn:E; [|vm_compute in E; discriminate..].
  destruct (H img s eq_refl) as (_ & _ & Hc & _).
  assert (VerifiedImage.config_bytes img = bs "config" ∧ length (VerifiedImage.layers img) = 1 ∧ image_unpacked img = 5%N)
    as (Hb & Hl & Hu) by (vm_compute in E; injection E as <- _; repeat split).
  rewrite Hb in Hc. rewrite Hu. repeat split; [exact Hb|exact Hl|lia|exact Hc].
Defined.
End SampleLayout.
