(* ===== verification/HostError.v ===== *)
(** * Errors of the host runtime: crates/pocket-runtime/src/error.rs

    [ManifestError] for profiles, [RuntimeError] for runs, [HostBuildError] for builds.  An error of a library
    that the sources only wrap (serde_json) is its text. *)

From S2P Require Import Prelude ErrorCode ManagedPath Memory Cpu ProtocolError Payload Message NoPanic StoreCodec OciError.

Module ManifestError.
Inductive t : Set :=
| Io (operation : string) (path : bytes) (source : io_error)
| TooLarge (path : bytes) (maximum : N)
| Json (path source : bytes)
| InvalidField (field : string) (reason : bytes)
| UnsupportedContract (field : string) (value : bytes)
| RevisionMismatch (declared computed : bytes)
| PublishConflict (path : bytes)
| ManagedPath (error : ManagedUmlPath.ManagedUmlPathError)
| ArtifactPath (path : bytes) (reason : string)
| ArtifactResolution (path : bytes)
| ArtifactType (path : bytes)
| ArtifactMode (path : bytes) (mode : N) (reason : string)
| ArtifactCapability (path : bytes)
| ArtifactSize (path : bytes) (expected actual : N)
| ArtifactDigest (path expected actual : bytes)
| Elf (path reason : bytes)
| KernelConfig (path setting expected actual : bytes)
| Cpu (error : Cpu.CpuValidationError)
| Memory (error : Memory.MemoryValidationError).

Definition invalid {A} (field : string) (reason : bytes) : result t A := Err (InvalidField field reason).
End ManifestError.

Module RuntimeError.
Inductive t : Set :=
| Manifest (error : ManifestError.t)
| Store (error : StoreError.t)
| ManagedPath (error : ManagedUmlPath.ManagedUmlPathError)
| Cpu (error : Cpu.CpuValidationError)
| Memory (error : Memory.MemoryValidationError)
| Protocol (error : ProtocolError)
| ImageConfig (source : OciError.t)
| Io (operation : string) (path : bytes) (source : io_error)
| InvalidConfiguration (field : string) (reason : bytes)
| GenerationMismatch (field : string) (expected actual : bytes)
| GuardSpawn (program : bytes) (source : io_error)
| GuardExitedEarly (stage : string) (status : bytes)
| Timeout (stage : string) (timeout : N)
| Guest (stage : string) (message : ErrorMessage.t)
| HelloMismatch (field : string) (expected actual : bytes)
| Cow (path reason : bytes)
| GuardStatus (status : bytes)
| GuestFilesystemUnclean
| Cleanup (primary : t) (cleanup : bytes)
| Diagnostics (primary : t) (diagnostic : bytes)
| StreamWorker (stream : string) (reason : bytes).

Definition invalid {A} (field : string) (reason : bytes) : result t A :=
  Err (InvalidConfiguration field reason).
End RuntimeError.

Module HostBuildError.
Inductive t : Set :=
| Manifest (error : ManifestError.t)
| Store (error : StoreError.t)
| Oci (error : OciError.t)
| Protocol (error : ProtocolError)
| ManagedPath (error : ManagedUmlPath.ManagedUmlPathError)
| Io (operation : string) (path : bytes) (source : io_error)
| InvalidConfiguration (field : string) (reason : bytes)
| Unsupported (field : string) (value : bytes)
| GuardSpawn (program : bytes) (source : io_error)
| GuardStatus (stage : string) (status diagnostic : bytes)
| GuestProtocol (stage : string) (reason : bytes) (source : t) (diagnostic : bytes)
| Timeout (stage : string) (timeout : N)
| Guest (stage : string) (message : ErrorMessage.t)
| HelloMismatch (field : string) (expected actual : bytes)
| EvidenceMismatch (field : string) (expected actual : bytes)
| Cleanup (primary : t) (cleanup : bytes)
| StreamWorker (stream : string) (reason : bytes).

Definition invalid {A} (field : string) (reason : bytes) : result t A :=
  Err (InvalidConfiguration field reason).
End HostBuildError.

Lemma manifest_guard_ok {A} (P : Prop) `{Decision P} f r (k : result ManifestError.t A) a :
  (if decide P then ManifestError.invalid f r else k) = Ok a ↔ ¬ P ∧ k = Ok a.
Proof. apply guard_ok. Qed.
Lemma runtime_guard_ok {A} (P : Prop) `{Decision P} f r (k : result RuntimeError.t A) a :
  (if decide P then RuntimeError.invalid f r else k) = Ok a ↔ ¬ P ∧ k = Ok a.
Proof. apply guard_ok. Qed.
Lemma build_guard_ok {A} (P : Prop) `{Decision P} f r (k : result HostBuildError.t A) a :
  (if decide P then HostBuildError.invalid f r else k) = Ok a ↔ ¬ P ∧ k = Ok a.
Proof. apply guard_ok. Qed.
#[export] Hint Rewrite @manifest_guard_ok @runtime_guard_ok @build_guard_ok : rust_ok.

Lemma np_manifest_invalid {A} f r : no_panic (@ManifestError.invalid A f r).
Proof. done. Qed.
Lemma np_runtime_invalid {A} f r : no_panic (@RuntimeError.invalid A f r).
Proof. done. Qed.
Lemma np_build_invalid {A} f r : no_panic (@HostBuildError.invalid A f r).
Proof. done. Qed.
#[export] Hint Resolve np_manifest_invalid np_runtime_invalid np_build_invalid : no_panic.
