(* ===== verification/HostFiles.v ===== *)
(** * Reading files through the standard library

    What [std::fs] answers about the files of the host, or of a guest's own file
    system: the code below only looks, and the answers are taken to stay the same
    while one function runs.  A path is looked up as a whole; what a symbolic link
    does is in the answers. *)

From S2P Require Import Prelude Utf8 ProtocolError NoPanic.

Module Metadata.
Record t : Set := metadata {
  is_file : bool;
  is_dir : bool;
  mode : N; (* [st_mode & 0o7777] *)
  nlink : N;
  size : N;
  mtime : Z;
}.
End Metadata.

(** An opened file: what reading it from the start to the end gives, and
    [fgetxattr(file, "security.capability", null, 0)]. *)
Module OpenedFile.
Record t : Set := opened_file {
  content : io_error + bytes;
  capability : io_error + N;
}.
End OpenedFile.

Module Files.
Record t : Set := files {
  symlink_metadata : bytes → io_error + Metadata.t;
  metadata : bytes → io_error + Metadata.t;
  canonicalize : bytes → io_error + bytes;
  open : bytes → io_error + OpenedFile.t;
}.
End Files.

(** [?] on an answer *)
Definition of_io {A} (r : io_error + A) : result io_error A :=
  match r with inl e => Err e | inr a => Ok a end.

Lemma of_io_ok {A} (r : io_error + A) a : of_io r = Ok a ↔ r = inr a.
Proof. destruct r; naive_solver. Qed.
Lemma np_of_io {A} (r : io_error + A) : no_panic (of_io r).
Proof. by destruct r. Qed.
#[export] Hint Rewrite @of_io_ok : rust_ok.
#[export] Hint Resolve np_of_io : no_panic.

(** [File::open] and [read_to_end] *)
Definition contents (fs : Files.t) (path : bytes) : io_error + bytes :=
  match Files.open fs path with inl e => inl e | inr file => OpenedFile.content file end.

(** [io::ErrorKind::UnexpectedEof] of [read_exact], [InvalidData] of [read_to_string] *)
Definition eof_error : io_error := io_error_of OtherKind None.
Definition data_error : io_error := io_error_of OtherKind None.

(** [file.seek(SeekFrom::Start(offset))] and [file.read_exact(&mut [0; n])] on an open
    file with these contents *)
Definition read_exact_at (content : bytes) (offset n : N) : result io_error bytes :=
  if decide (offset + n ≤ len content)%N
  then Ok (take (N.to_nat n) (drop (N.to_nat offset) content)) else Err eof_error.

(** [fs::read_to_string] *)
Definition read_to_string (fs : Files.t) (path : bytes) : result io_error bytes :=
  b ← of_io (contents fs path);
  if decide (valid_utf8 b) then Ok b else Err data_error.

(** [mode & mask != 0] *)
Definition has_bits (mode mask : N) : Prop := N.land mode mask ≠ 0%N.
#[export] Instance has_bits_dec mode mask : Decision (has_bits mode mask).
Proof. unfold has_bits. apply _. Defined.

Lemma read_exact_at_Ok content offset n b :
  read_exact_at content offset n = Ok b ↔
  (offset + n ≤ len content)%N ∧ b = take (N.to_nat n) (drop (N.to_nat offset) content).
Proof. unfold read_exact_at. case_decide; naive_solver. Qed.

Lemma length_read_exact_at content offset n b :
  read_exact_at content offset n = Ok b → length b = N.to_nat n.
Proof.
  intros [Hl ->]%read_exact_at_Ok. unfold len in Hl. rewrite length_take, length_drop. lia.
Qed.
