(* ===== verification/UserResolve.v ===== *)
(** * Users of an image: crates/pocket-builder-init/src/user.rs and
    crates/pocket-runtime/src/image.rs

    An image names its user as a name or a number with an optional group.  The
    builder guest resolves it when the image is built ([BuilderUser]), the host again
    when it starts a process ([ImageUser]); both use the canonical account database.
    [resolves] says what the answer is; both resolvers give it. *)

From S2P Require Import Prelude RustStr ByteOrder ProtocolError Payload AccountDatabase BuilderMessage.
From S2P Require Import GuestErrors HostError HostFiles ManagedPath NoPanic.

#[local] Arguments bs : simpl never.
#[local] Arguments len : simpl never.

(** [original.contains(['\0', '\n', '\r'])] *)
Definition has_line_byte (s : bytes) : Prop := x00 ∈ s ∨ x0a ∈ s ∨ x0d ∈ s.
#[export] Instance has_line_byte_dec s : Decision (has_line_byte s).
Proof. unfold has_line_byte. apply _. Defined.

(** [binary_search_by(|record| record.name.cmp(name)).ok().map(|index| &records[index])] *)
Definition search_name {E A} (key : A → bytes) (records : list A) (name : bytes) : result E (option A) :=
  match binary_search_by (λ record, bytes_compare (key record) name) records with
  | Some i => Some <$> index records (N.of_nat i)
  | None => Ok None
  end.

(** The groups that list a user: [filter(|group| group.members.binary_search_by(..).is_ok())] *)
Definition groups_listing (database : AccountDatabase.t) (username : bytes) : list N :=
  AccountGroup.gid <$> filter
    (λ group, is_Some (binary_search_by (λ member, bytes_compare member username) (AccountGroup.members group)))
    (AccountDatabase.groups database).

(** The pieces of [original.split(':')] that the code looks at. *)
Definition user_part (original : bytes) : bytes := default [] (head (split x3a original)).
Definition group_part (original : bytes) : option bytes := split x3a original !! 1.
Definition malformed_user (original : bytes) : Prop :=
  is_Some (split x3a original !! 2) ∨ user_part original = [] ∨ group_part original = Some [].
#[export] Instance malformed_user_dec s : Decision (malformed_user s).
Proof. unfold malformed_user. apply _. Defined.

(** What is known of a user: number, default group, name if there is one, and how it
    was found. *)
Record identity : Set := identity_of {
  identity_uid : N;
  default_gid : N;
  username : option bytes;
  identity_kind : N;
}.

(** ** The builder guest *)
Module BuilderUser.
Abbreviation bresult := (result BuilderError.t).

Definition parse_required_id (value : bytes) (field : string) : bresult N :=
  if decide (value = [] ∨ ¬ Forall is_ascii_digit value)
  then BuilderError.contract "resolve-user" (bs field ++ bs " is not an unsigned decimal ID") else
  ok_or (parse_uint u32_bound value)
    (BuilderError.Contract "resolve-user" (bs field ++ bs " does not fit u32")).

Definition parse_optional_id (value : bytes) (field : string) : bresult (option N) :=
  if decide (¬ Forall is_ascii_digit value) then Ok None else Some <$> parse_required_id value field.

Definition validate_name (value : bytes) (field : string) : bresult () :=
  if decide (value = [] ∨ (256 < len value)%N ∨ Exists forbidden_name_byte value)
  then BuilderError.contract "resolve-user" (bs field ++ bs " is empty, oversized, or holds a forbidden byte")
  else Ok ().

Definition find_unique_user (matches : list AccountUser.t) (match_kind : string)
    : bresult (option AccountUser.t) :=
  let found := head matches in
  if decide (is_Some found ∧ is_Some (matches !! 1))
  then BuilderError.contract "resolve-user" (bs "passwd has multiple entries matching " ++ bs match_kind)
  else Ok found.

(** The user, and whether it is missing. *)
Definition resolve_user_part (database : AccountDatabase.t) (user_part : bytes) : bresult (bool * identity) :=
  numeric_user ← parse_optional_id user_part "user";
  match numeric_user with
  | Some uid =>
      record ← find_unique_user (filter (λ record, AccountUser.uid record = uid) (AccountDatabase.users database))
                 "numeric user ID";
      Ok (false, match record with
                 | Some record => identity_of uid (AccountUser.gid record) (Some (AccountUser.name record)) 1
                 | None => identity_of uid 0 None 1
                 end)
  | None =>
      validate_name user_part "user";;
      record ← search_name AccountUser.name (AccountDatabase.users database) user_part;
      Ok (match record with
          | Some record =>
              (false, identity_of (AccountUser.uid record) (AccountUser.gid record) (Some (AccountUser.name record)) 2)
          | None => (true, identity_of 0 0 (Some user_part) UserResolution.KIND_UNRESOLVED)
          end)
  end.

(** The group, and whether the user or the group is missing. *)
Definition resolve_group_part (database : AccountDatabase.t) (unresolved : bool) (default_gid : N)
    (group_part : option bytes) : bresult (bool * N) :=
  match group_part with
  | None => Ok (unresolved, default_gid)
  | Some group =>
      numeric ← parse_optional_id group "group";
      match numeric with
      | Some gid => Ok (unresolved, gid)
      | None =>
          validate_name group "group";;
          record ← search_name AccountGroup.name (AccountDatabase.groups database) group;
          Ok (match record with
              | Some record => (unresolved, AccountGroup.gid record)
              | None => (true, 0%N)
              end)
      end
  end.

Definition resolve_image_user_from_database (database : AccountDatabase.t) (original : bytes)
    : bresult UserResolution.t :=
  map_err (BuilderError.Protocol "resolve-user") (validate database);;
  if decide (MAX_ORIGINAL_USER_LENGTH < len original ∨ has_line_byte original)%N
  then BuilderError.contract "resolve-user" (bs "image User is oversized or contains a forbidden byte") else
  if decide (original = []) then Ok (UserResolution.user_resolution 0 0 0 []) else
  if decide (malformed_user original)
  then BuilderError.contract "resolve-user"
         (bs "image User must be user-or-uid with at most one nonempty group suffix") else
  '(unresolved, user) ← resolve_user_part database (user_part original);
  '(unresolved, gid) ← resolve_group_part database unresolved (default_gid user) (group_part original);
  let supplementary_gids :=
    match group_part original, username user with
    | None, Some username => groups_listing database username
    | _, _ => []
    end in
  let supplementary_gids :=
    if (unresolved : bool) then supplementary_gids else filter (λ candidate, candidate ≠ gid) supplementary_gids in
  let supplementary_gids := dedup (sort_numbers supplementary_gids) in
  if decide (64 < len supplementary_gids)%N
  then BuilderError.contract "resolve-user" (bs "resolved supplementary group count exceeds hard cap") else
  if (unresolved : bool) then Ok UserResolution.unresolved else
  Ok (UserResolution.user_resolution (identity_kind user) (identity_uid user) gid supplementary_gids).

(** From the files of the completed root file system. *)
Definition MAX_ACCOUNT_FILE_BYTES : N := 4 * 1024 * 1024.

Definition read_account_file (fs : Files.t) (path : bytes) : bresult bytes :=
  match Files.symlink_metadata fs path with
  | inr metadata =>
      if decide (Metadata.is_file metadata = false ∨ (MAX_ACCOUNT_FILE_BYTES < Metadata.size metadata)%N)
      then BuilderError.contract "resolve-user" (path ++ bs " is not a bounded plain file")
      else map_err (BuilderError.Io "resolve-user") (read_to_string fs path)
  | inl error =>
      if decide (io_kind error = NotFound) then Ok [] else Err (BuilderError.Io "resolve-user" error)
  end.

Definition build_account_database (fs : Files.t) (rootfs : bytes) : bresult AccountDatabase.t :=
  passwd ← read_account_file fs (path_join rootfs (bs "etc/passwd"));
  group ← read_account_file fs (path_join rootfs (bs "etc/group"));
  map_err (BuilderError.Protocol "account-database") (account_database_from_files passwd group).

Definition resolve_image_user (fs : Files.t) (rootfs original : bytes) : bresult UserResolution.t :=
  database ← build_account_database fs rootfs;
  resolve_image_user_from_database database original.
End BuilderUser.

(** ** The host *)
Module ImageUser.
Abbreviation rresult := (result RuntimeError.t).

Section resolve.
(** The [{:?}] text of a string. *)
Context (debug : bytes → bytes).

Definition parse_optional_id (value : bytes) (field : string) : rresult (option N) :=
  if decide (¬ Forall is_ascii_digit value) then Ok None else
  if decide (value = []) then RuntimeError.invalid "image.user" (bs field ++ bs " is empty") else
  Some <$> ok_or (parse_uint u32_bound value)
    (RuntimeError.InvalidConfiguration "image.user" (bs "numeric " ++ bs field ++ bs " does not fit u32")).

Definition validate_account_name (value : bytes) (field : string) : rresult () :=
  if decide (value = [] ∨ (256 < len value)%N ∨ Exists forbidden_name_byte value)
  then RuntimeError.invalid "image.user" (bs field ++ bs " name has invalid bytes") else Ok ().

Definition find_unique_user (matches : list AccountUser.t) (match_kind : string)
    : rresult (option AccountUser.t) :=
  let found := head matches in
  if decide (is_Some found ∧ is_Some (matches !! 1))
  then RuntimeError.invalid "image.user"
         (bs "account database has multiple entries matching " ++ bs match_kind)
  else Ok found.

Definition resolve_user_part (database : AccountDatabase.t) (user_part : bytes) : rresult identity :=
  numeric_user ← parse_optional_id user_part "user";
  match numeric_user with
  | Some uid =>
      record ← find_unique_user (filter (λ record, AccountUser.uid record = uid) (AccountDatabase.users database))
                 "numeric user ID";
      Ok (match record with
          | Some record => identity_of uid (AccountUser.gid record) (Some (AccountUser.name record)) 1
          | None => identity_of uid 0 None 1
          end)
  | None =>
      validate_account_name user_part "user";;
      record ← search_name AccountUser.name (AccountDatabase.users database) user_part;
      match record with
      | Some record =>
          Ok (identity_of (AccountUser.uid record) (AccountUser.gid record) (Some (AccountUser.name record)) 2)
      | None => RuntimeError.invalid "image.user" (bs "named user " ++ debug user_part ++ bs " was not found")
      end
  end.

Definition resolve_group_part (database : AccountDatabase.t) (default_gid : N) (group_part : option bytes)
    : rresult N :=
  match group_part with
  | None => Ok default_gid
  | Some group =>
      numeric ← parse_optional_id group "group";
      match numeric with
      | Some gid => Ok gid
      | None =>
          validate_account_name group "group";;
          record ← search_name AccountGroup.name (AccountDatabase.groups database) group;
          match record with
          | Some record => Ok (AccountGroup.gid record)
          | None => RuntimeError.invalid "image.user" (bs "named group " ++ debug group ++ bs " was not found")
          end
      end
  end.

Definition resolve_user (database : AccountDatabase.t) (original : bytes) : rresult UserResolution.t :=
  if decide (original = [] ∨ (MAX_ORIGINAL_USER_LENGTH < len original)%N ∨ has_line_byte original)
  then RuntimeError.invalid "image.user" (bs "User is empty, oversized, or contains a forbidden byte") else
  if decide (malformed_user original)
  then RuntimeError.invalid "image.user"
         (bs "User must be user-or-uid with at most one nonempty group suffix") else
  user ← resolve_user_part database (user_part original);
  gid ← resolve_group_part database (default_gid user) (group_part original);
  let supplementary_gids :=
    match group_part original, username user with
    | None, Some username => groups_listing database username
    | _, _ => []
    end in
  let supplementary_gids := dedup (sort_numbers (filter (λ candidate, candidate ≠ gid) supplementary_gids)) in
  if decide (64 < len supplementary_gids)%N
  then RuntimeError.invalid "image.user" (bs "resolved supplementary group count exceeds 64") else
  Ok (UserResolution.user_resolution (identity_kind user) (identity_uid user) gid supplementary_gids).
End resolve.
End ImageUser.

(** ** What a user resolves to *)

(** The user that a user part stands for. *)
Definition user_is (db : AccountDatabase.t) (part : bytes) (user : identity) : Prop :=
  (∃ u, id_text part (AccountUser.uid u) ∧ u ∈ AccountDatabase.users db ∧
     (∀ v, v ∈ AccountDatabase.users db → AccountUser.uid v = AccountUser.uid u → v = u) ∧
     user = identity_of (AccountUser.uid u) (AccountUser.gid u) (Some (AccountUser.name u)) 1) ∨
  (∃ n, id_text part n ∧ (∀ v, v ∈ AccountDatabase.users db → AccountUser.uid v ≠ n) ∧
     user = identity_of n 0 None 1) ∨
  (∃ u, ¬ Forall is_ascii_digit part ∧ u ∈ AccountDatabase.users db ∧ AccountUser.name u = part ∧
     user = identity_of (AccountUser.uid u) (AccountUser.gid u) (Some part) 2).

(** The group that a group part stands for. *)
Definition group_is (db : AccountDatabase.t) (part : bytes) (gid : N) : Prop :=
  id_text part gid ∨
  ∃ g, ¬ Forall is_ascii_digit part ∧ g ∈ AccountDatabase.groups db ∧ AccountGroup.name g = part ∧
    gid = AccountGroup.gid g.

(** A well-formed name that the records do not have. *)
Definition name_missing {A} (key : A → bytes) (records : list A) (part : bytes) : Prop :=
  ¬ Forall is_ascii_digit part ∧ account_name_ok part ∧ ∀ a, a ∈ records → key a ≠ part.

(** The groups that list a user, other than its own. *)
Definition other_groups (db : AccountDatabase.t) (username : bytes) (gid : N → Prop) (l : list N) : Prop :=
  StronglySorted N.lt l ∧ (len l ≤ 64)%N ∧
  ∀ n, n ∈ l ↔ ¬ gid n ∧ ∃ g, g ∈ AccountDatabase.groups db ∧ AccountGroup.gid g = n ∧ username ∈ AccountGroup.members g.

Definition user_text_ok (s : bytes) : Prop := (len s ≤ MAX_ORIGINAL_USER_LENGTH)%N ∧ ¬ has_line_byte s.

Inductive resolves (db : AccountDatabase.t) (s : bytes) : UserResolution.t → Prop :=
| resolves_with_group part group user gid :
    user_text_ok s → split x3a s = [part; group] → user_is db part user → group_is db group gid →
    resolves db s (UserResolution.user_resolution (identity_kind user) (identity_uid user) gid [])
| resolves_alone user supplementary :
    user_text_ok s → split x3a s = [s] → user_is db s user →
    match username user with
    | Some name => other_groups db name (.= default_gid user) supplementary
    | None => supplementary = []
    end →
    resolves db s (UserResolution.user_resolution (identity_kind user) (identity_uid user)
                     (default_gid user) supplementary).

(** The user or the group has a name that is not in the database. *)
Inductive names_missing (db : AccountDatabase.t) (s : bytes) : Prop :=
| missing_with_group part group :
    user_text_ok s → split x3a s = [part; group] →
    (∃ user, user_is db part user ∧ name_missing AccountGroup.name (AccountDatabase.groups db) group) ∨
    name_missing AccountUser.name (AccountDatabase.users db) part ∧
    ((∃ gid, group_is db group gid) ∨ name_missing AccountGroup.name (AccountDatabase.groups db) group) →
    names_missing db s
| missing_alone listed :
    user_text_ok s → split x3a s = [s] → name_missing AccountUser.name (AccountDatabase.users db) s →
    other_groups db s (λ _, False) listed → names_missing db s.

(** ** The pieces *)
Lemma search_name_Ok {E A} (key : A → bytes) records name (r : option A) :
  strictly_sorted_by key records →
  @search_name E A key records name = Ok r ↔
  match r with
  | Some a => a ∈ records ∧ key a = name
  | None => ∀ a, a ∈ records → key a ≠ name
  end.
Proof.
  intros Hs. unfold search_name. destruct (binary_search_by _ records) as [i|] eqn:Hi.
  - apply binary_search_by_key in Hi as (a & Ha & <-); [|done]. unfold index. rewrite Nat2N.id, Ha. rsimpl.
    rewrite ok_inj. split.
    + intros <-. split; [by eapply list_elem_of_lookup_2|done].
    + destruct r as [b|]; [|intros Hn; by destruct (Hn a); [eapply list_elem_of_lookup_2|]].
      intros [Hb Hk]. f_equal. apply list_elem_of_lookup_1 in Hb as [j Hj].
      pose proof (proj1 (NoDup_alt _) (strictly_sorted_NoDup key records Hs) i j (key a)) as Hij.
      rewrite !list_lookup_fmap, Ha, Hj in Hij. simpl in Hij. rewrite Hk in Hij.
      rewrite Hij in Ha by done. congruence.
  - rewrite ok_inj. split.
    + intros <- a [j Hj]%list_elem_of_lookup_1 Hk.
      by rewrite (proj2 (binary_search_by_key key name records j Hs)) in Hi; [|exists a].
    + destruct r as [b|]; [|done]. intros [[j Hj]%list_elem_of_lookup_1 Hk].
      by rewrite (proj2 (binary_search_by_key key name records j Hs)) in Hi; [|exists b].
Qed.

Definition id_or_name (part : bytes) (r : option N) : Prop :=
  match r with Some n => id_text part n | None => ¬ Forall is_ascii_digit part end.

Lemma builder_optional_id_Ok part field r :
  BuilderUser.parse_optional_id part field = Ok r ↔ id_or_name part r.
Proof.
  unfold BuilderUser.parse_optional_id, BuilderUser.parse_required_id, id_or_name, id_text. case_decide as Hd.
  - rewrite ok_inj. destruct r; naive_solver.
  - rewrite fmap_ok. setoid_rewrite guard_ok. setoid_rewrite ok_or_ok. split.
    + intros (n & [[Hne _]%not_or_and Hp] & ->). apply parse_uint_digits in Hp; [|done..]. naive_solver.
    + destruct r as [n|]; [|done]. intros (Hne & _ & <- & Hb). exists (dec_value part). split; [|done].
      split; [tauto|]. by apply parse_uint_digits.
Qed.

Lemma host_optional_id_Ok part field r :
  ImageUser.parse_optional_id part field = Ok r ↔ id_or_name part r.
Proof.
  unfold ImageUser.parse_optional_id, id_or_name, id_text. case_decide as Hd.
  - rewrite ok_inj. destruct r; naive_solver.
  - rewrite runtime_guard_ok, fmap_ok. setoid_rewrite ok_or_ok. split.
    + intros (Hne & n & Hp & ->). apply parse_uint_digits in Hp; [|done..]. naive_solver.
    + destruct r as [n|]; [|naive_solver]. intros (Hne & _ & <- & Hb). split; [done|]. exists (dec_value part).
      split; [|done]. by apply parse_uint_digits.
Qed.

Lemma name_ok_checks part :
  ¬ (part = [] ∨ (256 < len part)%N ∨ Exists forbidden_name_byte part) ↔ account_name_ok part.
Proof.
  unfold account_name_ok, text_ok, MAX_ACCOUNT_NAME_BYTES. rewrite !not_or_and, N.nlt_ge, <- Forall_Exists_neg.
  split; [|naive_solver]. intros (? & ? & Hf). split_and!; [done|naive_solver| |done].
  intros Hnul. rewrite Forall_forall in Hf. apply (Hf _ Hnul). left. vm_compute. done.
Qed.

(** The only match, if there is one. *)
Lemma head_unique {A} (l : list A) r :
  ¬ (is_Some (head l) ∧ is_Some (l !! 1)) ∧ head l = r ↔ l = option_list r.
Proof.
  destruct l as [|a [|b l]]; simpl; [destruct r; naive_solver| |].
  - destruct r; simpl; naive_solver.
  - split; [intros [[] _]; split; by eexists|by destruct r].
Qed.

Lemma filter_unique {A} (P : A → Prop) `{!∀ a, Decision (P a)} l r :
  NoDup l →
  filter P l = option_list r ↔
  match r with
  | Some a => a ∈ l ∧ P a ∧ ∀ b, b ∈ l → P b → b = a
  | None => ∀ a, a ∈ l → ¬ P a
  end.
Proof.
  intros Hn. destruct r as [a|]; simpl.
  - split.
    + intros Hf. assert (∀ b, b ∈ filter P l ↔ b = a) as Hm by (intros b; rewrite Hf; apply list_elem_of_singleton).
      setoid_rewrite list_elem_of_filter in Hm. destruct (proj2 (Hm a) eq_refl). naive_solver.
    + intros (Ha & HP & Hu). apply Permutation_singleton_r, NoDup_Permutation;
        [by apply NoDup_filter|apply NoDup_singleton|].
      intros b. rewrite list_elem_of_filter, list_elem_of_singleton. naive_solver.
  - split.
    + intros Hf a Ha HP. assert (a ∈ filter P l) as Hin by (by apply list_elem_of_filter).
      rewrite Hf in Hin. by apply elem_of_nil in Hin.
    + intros Hn'. apply elem_of_nil_inv. intros a [HP Ha]%list_elem_of_filter. by apply (Hn' a).
Qed.

Section parts.
Context (db : AccountDatabase.t) (Hdb : account_database_ok db).

Lemma users_NoDup : NoDup (AccountDatabase.users db).
Proof. apply (NoDup_fmap_1 AccountUser.name), strictly_sorted_NoDup, ok_users_sorted, Hdb. Qed.

Lemma listed_user_name_ok u : u ∈ AccountDatabase.users db → account_name_ok (AccountUser.name u).
Proof. pose proof (ok_users db Hdb) as H. rewrite Forall_forall in H. apply H. Qed.

Lemma listed_group_name_ok g : g ∈ AccountDatabase.groups db → account_name_ok (AccountGroup.name g).
Proof. pose proof (ok_groups db Hdb) as H. rewrite Forall_forall in H. intros ?. by apply H. Qed.

(** The users with a given number. *)
Lemma unique_user_spec part uid r :
  id_text part uid →
  filter (λ record, AccountUser.uid record = uid) (AccountDatabase.users db) = option_list r →
  user_is db part (match r with
                   | Some u => identity_of uid (AccountUser.gid u) (Some (AccountUser.name u)) 1
                   | None => identity_of uid 0 None 1
                   end).
Proof.
  intros Hid Hf. apply filter_unique in Hf; [|apply users_NoDup]. destruct r as [u|].
  - destruct Hf as (Hu & <- & Huniq). left. by exists u.
  - right; left. by exists uid.
Qed.

Lemma id_text_digits part n : id_text part n → Forall is_ascii_digit part.
Proof. by intros (_ & ? & _). Qed.
Lemma id_text_unique part n m : id_text part n → id_text part m → n = m.
Proof. intros (_ & _ & <- & _) (_ & _ & <- & _). done. Qed.

Lemma builder_user_Ok part missing user :
  BuilderUser.resolve_user_part db part = Ok (missing, user) ↔
  if (missing : bool)
  then name_missing AccountUser.name (AccountDatabase.users db) part ∧
       user = identity_of 0 0 (Some part) UserResolution.KIND_UNRESOLVED
  else user_is db part user.
Proof.
  unfold BuilderUser.resolve_user_part, BuilderUser.validate_name, BuilderUser.find_unique_user.
  rewrite bind_ok. setoid_rewrite builder_optional_id_Ok. split.
  - intros ([uid|] & Hid & H); simpl in Hid.
    + apply bind_ok in H as (r & [Hu [= Hr]]%guard_ok & H).
      pose proof (proj1 (head_unique _ _) (conj Hu Hr)) as Hf.
      injection H as <- <-. by apply unique_user_spec.
    + apply bind_unit_ok in H as [[Hn _]%guard_ok H]. apply name_ok_checks in Hn.
      apply bind_ok in H as (r & Hr & H). apply search_name_Ok in Hr; [|apply ok_users_sorted, Hdb].
      destruct r as [u|]; injection H as <- <-; [|done].
      destruct Hr as [? <-]. right; right. by exists u.
  - destruct missing.
    + intros [(Hd & Hn & Hm) ->]. exists None. split; [done|]. apply bind_unit_ok.
      split; [apply guard_ok; split; [by apply name_ok_checks|done]|].
      apply bind_ok. exists None. split; [|done]. apply search_name_Ok; [apply ok_users_sorted, Hdb|done].
    + intros [(u & Hid & Hu & Huniq & ->)|[(n & Hid & Hn & ->)|(u & Hd & Hu & <- & ->)]].
      * exists (Some (AccountUser.uid u)). split; [done|]. apply bind_ok. exists (Some u). split; [|done].
        apply guard_ok. rewrite ok_inj. apply head_unique, (filter_unique _ _ (Some u) users_NoDup). naive_solver.
      * exists (Some n). split; [done|]. apply bind_ok. exists None. split; [|done].
        apply guard_ok. rewrite ok_inj. apply head_unique, (filter_unique _ _ None users_NoDup). naive_solver.
      * exists None. split; [done|]. apply bind_unit_ok.
        split; [apply guard_ok; split; [by apply name_ok_checks, listed_user_name_ok|done]|].
        apply bind_ok. exists (Some u). split; [|done]. apply search_name_Ok; [apply ok_users_sorted, Hdb|done].
Qed.

(** The host accepts the users that the builder finds. *)
Lemma host_user_Ok debug part user :
  ImageUser.resolve_user_part debug db part = Ok user ↔ user_is db part user.
Proof.
  rewrite <- (builder_user_Ok part false). unfold ImageUser.resolve_user_part, BuilderUser.resolve_user_part.
  rewrite !bind_ok. setoid_rewrite builder_optional_id_Ok. setoid_rewrite host_optional_id_Ok.
  split; intros (r & Hid & H); exists r; (split; [done|]); destruct r as [uid|].
  - apply bind_ok in H as (u & [Hu [= Hr]]%guard_ok & [= <-]). apply bind_ok. exists u.
    split; [apply guard_ok; by split; [|rewrite Hr]|done].
  - apply bind_unit_ok in H as [[Hn _]%guard_ok H]. apply bind_ok in H as (u & Hu & H).
    apply bind_unit_ok. split; [by apply guard_ok|]. apply bind_ok. exists u.
    apply search_name_Ok in Hu; [|apply ok_users_sorted, Hdb].
    split; [apply search_name_Ok; [apply ok_users_sorted, Hdb|done]|]. destruct u; [by injection H as <-|done].
  - apply bind_ok in H as (u & [Hu [= Hr]]%guard_ok & [= <-]). apply bind_ok. exists u.
    split; [apply guard_ok; by split; [|rewrite Hr]|done].
  - apply bind_unit_ok in H as [[Hn _]%guard_ok H]. apply bind_ok in H as (u & Hu & H).
    apply bind_unit_ok. split; [by apply guard_ok|]. apply bind_ok. exists u.
    apply search_name_Ok in Hu; [|apply ok_users_sorted, Hdb].
    split; [apply search_name_Ok; [apply ok_users_sorted, Hdb|done]|]. destruct u; [by injection H as <-|done].
Qed.

Lemma builder_group_Ok missing default part missing' gid :
  BuilderUser.resolve_group_part db missing default (Some part) = Ok (missing', gid) ↔
  group_is db part gid ∧ missing' = missing ∨
  name_missing AccountGroup.name (AccountDatabase.groups db) part ∧ missing' = true ∧ gid = 0%N.
Proof.
  unfold BuilderUser.resolve_group_part. rewrite bind_ok. setoid_rewrite builder_optional_id_Ok. split.
  - intros ([n|] & Hid & H); simpl in Hid; [injection H as <- <-; left; by split; [left|]|].
    apply bind_unit_ok in H as [[Hn _]%guard_ok H]. apply name_ok_checks in Hn.
    apply bind_ok in H as (r & Hr & H). apply search_name_Ok in Hr; [|apply ok_groups_sorted, Hdb].
    destruct r as [g|]; injection H as <- <-; [left|by right].
    destruct Hr as [? <-]. split; [right; by exists g|done].
  - assert (∀ r, account_name_ok part → ¬ Forall is_ascii_digit part →
        match r with
        | Some g => g ∈ AccountDatabase.groups db ∧ AccountGroup.name g = part
        | None => ∀ g, g ∈ AccountDatabase.groups db → AccountGroup.name g ≠ part
        end →
        (BuilderUser.validate_name part "group";;
         record ← search_name AccountGroup.name (AccountDatabase.groups db) part;
         Ok (match record with Some record => (missing, AccountGroup.gid record) | None => (true, 0%N) end)) =
        Ok (match r with Some record => (missing, AccountGroup.gid record) | None => (true, 0%N) end)) as Hnamed.
    { intros r Hn Hd Hr. apply bind_unit_ok. split; [by apply guard_ok; split; [apply name_ok_checks|]|].
      apply bind_ok. exists r. split; [|done]. apply search_name_Ok; [apply ok_groups_sorted, Hdb|done]. }
    intros [[[Hid|(g & Hd & Hg & <- & ->)] ->]|(( Hd & Hn & Hm) & -> & ->)].
    + by exists (Some gid).
    + exists None. split; [done|]. apply (Hnamed (Some g)); [by apply listed_group_name_ok|done..].
    + exists None. split; [done|]. by apply (Hnamed None).
Qed.

Lemma host_group_Ok debug default part gid :
  ImageUser.resolve_group_part debug db default (Some part) = Ok gid ↔ group_is db part gid.
Proof.
  unfold ImageUser.resolve_group_part. rewrite bind_ok. setoid_rewrite host_optional_id_Ok. split.
  - intros ([n|] & Hid & H); simpl in Hid; [injection H as <-; by left|].
    apply bind_unit_ok in H as [_ H]. apply bind_ok in H as (r & Hr & H).
    apply search_name_Ok in Hr; [|apply ok_groups_sorted, Hdb].
    destruct r as [g|]; [|done]. injection H as <-. destruct Hr as [? <-]. right. by exists g.
  - intros [Hid|(g & Hd & Hg & <- & ->)]; [by exists (Some gid)|]. exists None. split; [done|].
    apply bind_unit_ok. split; [by apply guard_ok; split; [by apply name_ok_checks, listed_group_name_ok|]|].
    apply bind_ok. exists (Some g). split; [|done]. apply search_name_Ok; [apply ok_groups_sorted, Hdb|done].
Qed.

Lemma elem_of_groups_listing name n :
  n ∈ groups_listing db name ↔
  ∃ g, g ∈ AccountDatabase.groups db ∧ AccountGroup.gid g = n ∧ name ∈ AccountGroup.members g.
Proof.
  unfold groups_listing. rewrite list_elem_of_fmap. setoid_rewrite list_elem_of_filter.
  assert (∀ g, g ∈ AccountDatabase.groups db →
    is_Some (binary_search_by (λ member, bytes_compare member name) (AccountGroup.members g)) ↔
    name ∈ AccountGroup.members g) as Hmem.
  { intros g Hg. pose proof (ok_groups db Hdb) as Hok. rewrite Forall_forall in Hok.
    destruct (Hok g Hg) as (_ & _ & _ & Hs). split.
    - intros [i (m & Hm & <-)%(binary_search_by_key id name)]; [|done]. by eapply list_elem_of_lookup_2.
    - intros [i Hi]%list_elem_of_lookup_1. exists i. apply (binary_search_by_key id name); [done|]. by exists name. }
  naive_solver.
Qed.

Lemma other_groups_filter name gid l :
  dedup (sort_numbers (filter (λ candidate, candidate ≠ gid) (groups_listing db name))) = l ∧ (len l ≤ 64)%N ↔
  other_groups db name (.= gid) l.
Proof.
  assert (∀ n, n ∈ filter (λ candidate, candidate ≠ gid) (groups_listing db name) ↔
    n ≠ gid ∧ ∃ g, g ∈ AccountDatabase.groups db ∧ AccountGroup.gid g = n ∧ name ∈ AccountGroup.members g) as Hm.
  { intros n. by rewrite list_elem_of_filter, elem_of_groups_listing. }
  unfold other_groups. split.
  - intros [<- ?]. split_and!; [apply sort_dedup_numbers_sorted|done|].
    intros n. by rewrite elem_of_sort_dedup_numbers, Hm.
  - intros (Hs & ? & Hl). split; [|done]. apply sort_dedup_numbers_unique; [done|]. intros n. by rewrite Hm, Hl.
Qed.

Lemma other_groups_all name l :
  dedup (sort_numbers (groups_listing db name)) = l ∧ (len l ≤ 64)%N ↔ other_groups db name (λ _, False) l.
Proof.
  unfold other_groups. split.
  - intros [<- ?]. split_and!; [apply sort_dedup_numbers_sorted|done|].
    intros n. rewrite elem_of_sort_dedup_numbers, elem_of_groups_listing. tauto.
  - intros (Hs & ? & Hl). split; [|done]. apply sort_dedup_numbers_unique; [done|]. intros n.
    rewrite Hl, elem_of_groups_listing. tauto.
Qed.
End parts.

(** ** The two resolvers *)
Lemma split_alone s p : split x3a s = [p] → p = s.
Proof. intros H. rewrite <- (join_split x3a s), H. done. Qed.

Lemma parts_alone s p : split x3a s = [p] → user_part s = p ∧ group_part s = None.
Proof. unfold user_part, group_part. by intros ->. Qed.
Lemma parts_pair s p g : split x3a s = [p; g] → user_part s = p ∧ group_part s = Some g.
Proof. unfold user_part, group_part. by intros ->. Qed.

(** A user string that is not malformed is a user, alone or with a group. *)
Lemma user_shape s :
  ¬ malformed_user s ↔
  (split x3a s = [s] ∧ s ≠ []) ∨ ∃ part group, split x3a s = [part; group] ∧ part ≠ [] ∧ group ≠ [].
Proof.
  unfold malformed_user, user_part, group_part. pose proof (split_not_nil x3a s).
  destruct (split x3a s) as [|part [|group [|more rest]]] eqn:Hs; simpl; [done| | |].
  - pose proof (split_alone s part Hs) as ->. rewrite is_Some_alt. naive_solver.
  - rewrite is_Some_alt. naive_solver.
  - rewrite is_Some_alt. naive_solver.
Qed.

Lemma user_is_not_nil db part user : account_database_ok db → user_is db part user → part ≠ [].
Proof.
  intros Hdb [(u & (? & _) & _)|[(n & (? & _) & _)|(u & _ & Hu & <- & _)]]; [done..|].
  apply (listed_user_name_ok db Hdb) in Hu as [(_ & Hne & _) _]. by apply Hne.
Qed.
Lemma group_is_not_nil db part gid : account_database_ok db → group_is db part gid → part ≠ [].
Proof.
  intros Hdb [(? & _)|(g & _ & Hg & <- & _)]; [done|].
  apply (listed_group_name_ok db Hdb) in Hg as [(_ & Hne & _) _]. by apply Hne.
Qed.
Lemma name_missing_not_nil {A} (key : A → bytes) l part : name_missing key l part → part ≠ [].
Proof. intros (_ & ((_ & Hne & _) & _) & _). by apply Hne. Qed.

Lemma host_resolves debug db s r :
  account_database_ok db → ImageUser.resolve_user debug db s = Ok r ↔ resolves db s r.
Proof.
  intros Hdb. unfold ImageUser.resolve_user. rewrite !runtime_guard_ok, user_shape, !not_or_and, N.nlt_ge. split.
  - intros ((Hne & Htext) & [[Hs _]|(part & group & Hs & _)] & H).
    + destruct (parts_alone _ _ Hs) as [Hp Hg]. rewrite Hp, Hg in H.
      apply bind_ok in H as (user & Hu%(host_user_Ok db Hdb debug) & H). apply bind_ok in H as (gid & [= <-] & H).
      apply runtime_guard_ok in H as [Hl%N.nlt_ge [= <-]]. apply resolves_alone; [done..|].
      destruct (username user); [by apply other_groups_filter|done].
    + destruct (parts_pair _ _ _ Hs) as [Hp Hg]. rewrite Hp, Hg in H.
      apply bind_ok in H as (user & Hu%(host_user_Ok db Hdb debug) & H).
      apply bind_ok in H as (gid & Hgid%(host_group_Ok db Hdb debug) & H).
      apply runtime_guard_ok in H as [_ [= <-]]. by eapply resolves_with_group.
  - intros [part group user gid Htext Hs Hu Hg|user l Htext Hs Hu Hl];
      pose proof (user_is_not_nil _ _ _ Hdb Hu) as Hpart.
    + pose proof (group_is_not_nil _ _ _ Hdb Hg). destruct (parts_pair _ _ _ Hs) as [-> ->].
      split_and!; [by intros ->|apply Htext..|by right; exists part, group|].
      apply (host_user_Ok db Hdb debug) in Hu. rewrite Hu. rsimpl.
      apply (host_group_Ok db Hdb debug (default_gid user)) in Hg. rewrite Hg. done.
    + destruct (parts_alone _ _ Hs) as [-> ->]. split_and!; [done|apply Htext..|by left|].
      apply (host_user_Ok db Hdb debug) in Hu. rewrite Hu. cbn [ImageUser.resolve_group_part]. rsimpl.
      destruct (username user); [|by subst].
      apply (other_groups_filter db Hdb) in Hl as [-> Hl]. by rewrite decide_False by lia.
Qed.

(** What the builder computes for a well-formed user string. *)
Lemma builder_unfold db s r :
  account_database_ok db → s ≠ [] →
  BuilderUser.resolve_image_user_from_database db s = Ok r ↔
  user_text_ok s ∧ ¬ malformed_user s ∧ ∃ missing user missing' gid,
    BuilderUser.resolve_user_part db (user_part s) = Ok (missing, user) ∧
    BuilderUser.resolve_group_part db missing (default_gid user) (group_part s) = Ok (missing', gid) ∧
    let listed := match group_part s, username user with
                  | None, Some username => groups_listing db username
                  | _, _ => []
                  end in
    let gids := dedup (sort_numbers (if missing' then listed else filter (λ candidate, candidate ≠ gid) listed)) in
    (len gids ≤ 64)%N ∧
    r = (if (missing' : bool) then UserResolution.unresolved
         else UserResolution.user_resolution (identity_kind user) (identity_uid user) gid gids).
Proof.
  intros Hdb Hne. unfold BuilderUser.resolve_image_user_from_database, user_text_ok.
  rewrite (proj2 (account_database_validate_Ok db) Hdb). cbn [map_err]. rsimpl.
  rewrite builder_guard_ok, not_or_and, N.nlt_ge.
  match goal with |- context [@decide (s = []) ?d] => destruct (@decide (s = []) d) as [?|_]; [done|] end.
  rewrite builder_guard_ok. do 2 (apply and_iff_compat_l). rewrite bind_ok. split.
  - intros ([missing user] & Hu & ([missing' gid] & Hg & H)%bind_ok).
    apply builder_guard_ok in H as [Hl%N.nlt_ge H]. exists missing, user, missing', gid.
    destruct missing'; injection H as <-; done.
  - intros (missing & user & missing' & gid & Hu & Hg & Hl & ->). exists (missing, user). split; [done|].
    apply bind_ok. exists (missing', gid). split; [done|]. apply builder_guard_ok. rewrite N.nlt_ge.
    by destruct missing'.
Qed.

Lemma builder_gives db s r :
  account_database_ok db → s ≠ [] → BuilderUser.resolve_image_user_from_database db s = Ok r →
  resolves db s r ∨ r = UserResolution.unresolved ∧ names_missing db s.
Proof.
  intros Hdb Hne. rewrite builder_unfold, user_shape by done.
  intros (Htext & [[Hs _]|(part & group & Hs & _)] & missing & user & missing' & gid & Hu & Hgid & Hl & ->).
  - destruct (parts_alone _ _ Hs) as [Hp Hg]. rewrite Hp, Hg in *. apply (builder_user_Ok db Hdb) in Hu.
    injection Hgid as <- <-. destruct missing; [right; split; [done|]|left].
    + destruct Hu as [Hm ->]. eapply missing_alone; [done..|by apply other_groups_all].
    + apply resolves_alone; [done..|]. destruct (username user); [by apply other_groups_filter|done].
  - destruct (parts_pair _ _ _ Hs) as [Hp Hg]. rewrite Hp, Hg in *. apply (builder_user_Ok db Hdb) in Hu.
    apply (builder_group_Ok db Hdb) in Hgid as [[Hgid ->]|(Hm & -> & _)].
    + destruct missing; [right; split; [done|]|left; by eapply resolves_with_group].
      eapply missing_with_group; [done..|]. right. destruct Hu. eauto.
    + right. split; [done|]. eapply missing_with_group; [done..|].
      destruct missing; [right; destruct Hu; eauto|left; eauto].
Qed.

Lemma builder_accepts db s r :
  account_database_ok db → resolves db s r → BuilderUser.resolve_image_user_from_database db s = Ok r.
Proof.
  intros Hdb H. destruct H as [part group user gid Htext Hs Hu Hg|user l Htext Hs Hu Hl];
    pose proof (user_is_not_nil _ _ _ Hdb Hu) as Hpart.
  - pose proof (group_is_not_nil _ _ _ Hdb Hg). rewrite builder_unfold, user_shape by (done || by intros ->).
    destruct (parts_pair _ _ _ Hs) as [-> ->]. split; [done|]. split; [by right; exists part, group|].
    exists false, user, false, gid.
    split_and!; [by apply builder_user_Ok|by apply builder_group_Ok; [|left]|done].
  - rewrite builder_unfold, user_shape by done. destruct (parts_alone _ _ Hs) as [-> ->].
    split; [done|]. split; [by left|]. exists false, user, false, (default_gid user).
    split_and!; [by apply builder_user_Ok|done|]. destruct (username user); subst; [|done]. simpl.
    by apply (other_groups_filter db Hdb) in Hl as [-> ?].
Qed.

Lemma builder_misses db s :
  account_database_ok db → names_missing db s →
  BuilderUser.resolve_image_user_from_database db s = Ok UserResolution.unresolved.
Proof.
  intros Hdb H. set (nobody part := identity_of 0 0 (Some part) UserResolution.KIND_UNRESOLVED).
  destruct H as [part group Htext Hs H|l Htext Hs Hm Hl].
  - assert (∃ missing user gid, BuilderUser.resolve_user_part db part = Ok (missing, user) ∧
      BuilderUser.resolve_group_part db missing (default_gid user) (Some group) = Ok (true, gid) ∧
      part ≠ [] ∧ group ≠ []) as (missing & user & gid & Hu & Hg & ? & ?).
    { destruct H as [(user & Hu & Hm)|[Hm [[gid Hg]|Hm']]].
      - exists false, user, 0%N. split_and!; [by apply builder_user_Ok|by apply builder_group_Ok; [|right]|..];
          eauto using user_is_not_nil, name_missing_not_nil.
      - exists true, (nobody part), gid. split_and!; [by apply builder_user_Ok|by apply builder_group_Ok; [|left]|..];
          eauto using group_is_not_nil, name_missing_not_nil.
      - exists true, (nobody part), 0%N. split_and!; [by apply builder_user_Ok|by apply builder_group_Ok; [|right]|..];
          eauto using name_missing_not_nil. }
    rewrite builder_unfold, user_shape by (done || by intros ->). destruct (parts_pair _ _ _ Hs) as [-> ->].
    split; [done|]. split; [by right; exists part, group|]. by exists missing, user, true, gid.
  - pose proof (name_missing_not_nil _ _ _ Hm). rewrite builder_unfold, user_shape by done.
    destruct (parts_alone _ _ Hs) as [-> ->]. split; [done|]. split; [by left|]. exists true, (nobody s), true, 0%N.
    split_and!; [by apply builder_user_Ok|done|]. simpl.
    by apply (other_groups_all db Hdb) in Hl as [-> ?].
Qed.

(** ** Results *)
Lemma resolves_valid db s r :
  resolves db s r → UserResolution.validate r = Ok () ∧ (UserResolution.kind r = 1 ∨ UserResolution.kind r = 2)%N.
Proof.
  intros H. assert (UserResolution.kind r = 1 ∨ UserResolution.kind r = 2)%N as Hk.
  { destruct H as [part group user gid _ _ Hu _|user l _ _ Hu _]; destruct Hu as [(u & _ & _ & _ & ->)|[(n & _ & _ & ->)|(u & _ & _ & _ & ->)]];
      simpl; auto. }
  split; [|done]. unfold UserResolution.validate, UserResolution.KIND_UNRESOLVED.
  rewrite !invalid_guard_ok, bind_unit_ok, validate_count_Ok, each_unique_Ok. split_and!.
  - lia.
  - intros [? _]. lia.
  - destruct H as [|user l _ _ _ Hl]; simpl; [unfold len; simpl; lia|].
    destruct (username user); [apply Hl|by subst].
  - by apply Forall_forall.
  - rewrite list_fmap_id. destruct H as [|user l _ _ _ Hl]; simpl; [constructor|].
    destruct (username user); [by apply StronglySorted_numbers_NoDup, Hl|subst; constructor].
Qed.

(** The host has no answer where the builder has none of its own. *)
Lemma host_misses debug db s r :
  account_database_ok db → s = [] ∨ names_missing db s → ImageUser.resolve_user debug db s ≠ Ok r.
Proof.
  intros Hdb [->|Hm] Hr; [done|]. apply host_resolves in Hr; [|done]. destruct (resolves_valid _ _ _ Hr) as [_ Hk].
  apply builder_accepts in Hr; [|done]. rewrite (builder_misses _ _ Hdb Hm) in Hr. injection Hr as <-.
  cbn in Hk. unfold UserResolution.KIND_UNRESOLVED in Hk. lia.
Qed.

Lemma np_search_name {E A} (key : A → bytes) records name : no_panic (@search_name E A key records name).
Proof.
  unfold search_name, binary_search_by. destruct records as [|a l]; [done|].
  set (base := search_rounds _ _ _ _ _). destruct ((a :: l) !! base) as [b|] eqn:Hb; [|done].
  cbn [fmap option_fmap option_map]. destruct (bytes_compare _ _); [|done..].
  apply np_fmap. unfold index. by rewrite Nat2N.id, Hb.
Qed.
#[local] Hint Resolve np_search_name : no_panic.

Lemma host_user_returns debug db s : no_panic (ImageUser.resolve_user debug db s).
Proof.
  unfold ImageUser.resolve_user, ImageUser.resolve_user_part, ImageUser.resolve_group_part,
    ImageUser.parse_optional_id, ImageUser.validate_account_name, ImageUser.find_unique_user. np.
Qed.

Lemma builder_user_returns db s : no_panic (BuilderUser.resolve_image_user_from_database db s).
Proof.
  unfold BuilderUser.resolve_image_user_from_database, BuilderUser.resolve_user_part,
    BuilderUser.resolve_group_part, BuilderUser.parse_optional_id, BuilderUser.parse_required_id,
    BuilderUser.validate_name, BuilderUser.find_unique_user. np.
Qed.

(** C27: the builder guest and the host agree on an image's user.  On every
    valid account database and every string both resolvers return.  The host
    accepts exactly the strings that stand for a user, with the number, group and
    supplementary groups that the database gives.  The builder gives the same answer
    on these and root for the empty string.  It gives the unresolved marker exactly for
    a bounded string without line bytes that is a well-formed name which no user has and
    at most 64 groups list, or a user and a group of which one or both are well-formed
    names that the database does not have and the other stands for a user or group.  It
    refuses every other string, and the host refuses the empty and the unresolved ones.  What either gives passes the validation
    of the build protocol, and what the host gives is a numeric or named user. *)
Theorem user_resolutions_agree debug db s :
  validate db = Ok () →
  (∀ r, ImageUser.resolve_user debug db s = Ok r ↔ resolves db s r) ∧
  (∀ r, BuilderUser.resolve_image_user_from_database db s = Ok r ↔
     (s = [] ∧ r = UserResolution.user_resolution 0 0 0 []) ∨ resolves db s r ∨
     (r = UserResolution.unresolved ∧ names_missing db s)) ∧
  (∀ r, resolves db s r → UserResolution.validate r = Ok () ∧
     (UserResolution.kind r = 1 ∨ UserResolution.kind r = 2)%N) ∧
  (∀ r, BuilderUser.resolve_image_user_from_database db s = Ok r → UserResolution.validate r = Ok ()) ∧
  (s = [] ∨ names_missing db s → ∀ r, ImageUser.resolve_user debug db s ≠ Ok r) ∧
  no_panic (ImageUser.resolve_user debug db s) ∧
  no_panic (BuilderUser.resolve_image_user_from_database db s).
Proof.
  intros Hdb%account_database_validate_Ok.
  assert (∀ r, BuilderUser.resolve_image_user_from_database db s = Ok r ↔
     (s = [] ∧ r = UserResolution.user_resolution 0 0 0 []) ∨ resolves db s r ∨
     (r = UserResolution.unresolved ∧ names_missing db s)) as Hbuilder.
  2: { split_and!; [by intros; apply host_resolves|exact Hbuilder|apply resolves_valid| |by intros ? ?; apply host_misses
                   |apply host_user_returns|apply builder_user_returns].
       intros r [[_ ->]|[Hr|[-> _]]]%Hbuilder; [done|by apply resolves_valid in Hr as [? _]|done]. }
  intros r. destruct (decide (s = [])) as [->|Hne].
  - split; [|intros [[_ ->]|[H|[-> H]]]; [|by apply builder_accepts|by apply builder_misses]];
      unfold BuilderUser.resolve_image_user_from_database;
      rewrite (proj2 (account_database_validate_Ok db) Hdb); [intros [= <-]; by left|done].
  - split; [intros H; right; by apply builder_gives|].
    intros [[? _]|[?|[-> ?]]]; [done|by apply builder_accepts|by apply builder_misses].
Qed.

Definition sample_accounts : AccountDatabase.t := AccountDatabase.account_database ACCOUNT_DB_SCHEMA
  [AccountUser.account_user (bs "root") 0 0; AccountUser.account_user (bs "www") 33 33]
  [AccountGroup.account_group (bs "audio") 29 [bs "root"; bs "www"];
   AccountGroup.account_group (bs "www") 33 [bs "www"]].

Lemma user_resolutions_agree_witness :
  ImageUser.resolve_user id sample_accounts (bs "www") = Ok (UserResolution.user_resolution 2 33 33 [29%N]) ∧
  BuilderUser.resolve_image_user_from_database sample_accounts (bs "www") =
    Ok (UserResolution.user_resolution 2 33 33 [29%N]).
Proof.
  assert (validate sample_accounts = Ok ()) as Hv by (vm_compute; reflexivity).
  assert (ImageUser.resolve_user id sample_accounts (bs "www") =
    Ok (UserResolution.user_resolution 2 33 33 [29%N])) as Hh by (vm_compute; reflexivity).
  destruct (user_resolutions_agree id sample_accounts (bs "www") Hv) as (Hhost & Hbuilder & _).
  split; [exact Hh|]. apply Hbuilder. right. left. apply Hhost. exact Hh.
Defined.
