(* ===== verification/Agree.v ===== *)
(** * Two implementations of one task

    Guests and host do some work twice, with code and error types of their own.  Two
    results are [alike] when both have values that are related, or both have errors. *)

From S2P Require Import Prelude ProtocolError.

Definition alike {E F A B} (R : A → B → Prop) (r : result E A) (s : result F B) : Prop :=
  match r, s with Ok a, Ok b => R a b | Err _, Err _ => True | Panic, Panic => True | _, _ => False end.

(** With the same value *)
Abbreviation same := (alike (=)).

Section alike.
Context {E F : Type}.

Lemma alike_bind {A B A' B'} (R : A → B → Prop) (Q : A' → B' → Prop) (r : result E A) (s : result F B)
    (f : A → result E A') (g : B → result F B') :
  alike R r s → (∀ a b, R a b → alike Q (f a) (g b)) → alike Q (r ≫= f) (s ≫= g).
Proof. intros H Hf. destruct r, s; try done. by apply Hf. Qed.

Lemma same_bind {A A' B'} (Q : A' → B' → Prop) (r : result E A) (s : result F A) (f : A → result E A') (g : A → result F B') :
  same r s → (∀ a, alike Q (f a) (g a)) → alike Q (r ≫= f) (s ≫= g).
Proof. intros H Hf. eapply alike_bind; [exact H|]. intros a b ->. apply Hf. Qed.

Lemma alike_guard {A B} (R : A → B → Prop) (P Q : Prop) `{Decision P, Decision Q} (e : E) (e' : F) (k : result E A) (k' : result F B) :
  (P ↔ Q) → (¬ P → ¬ Q → alike R k k') → alike R (if decide P then Err e else k) (if decide Q then Err e' else k').
Proof. intros HPQ Hk. destruct (decide P), (decide Q); [done|tauto|tauto|by apply Hk]. Qed.

Lemma same_guard {A B} (R : A → B → Prop) (P Q : Prop) `{Decision P, Decision Q} (e : E) (e' : F) (k : result E A) (k' : result F B) :
  (P ↔ Q) → alike R k k' → alike R (if decide P then Err e else k) (if decide Q then Err e' else k').
Proof. intros HPQ Hk. by apply alike_guard. Qed.

Lemma same_ok_or {A} (o : option A) (e : E) (e' : F) : same (ok_or o e) (ok_or o e').
Proof. by destruct o. Qed.

Lemma same_map_err {G A} (r : result E A) (s : result F A) (f : E → G) : same r s → same (map_err f r) s.
Proof. by destruct r, s. Qed.
Lemma same_map_err_r {G A} (r : result E A) (s : result F A) (f : F → G) : same r s → same r (map_err f s).
Proof. by destruct r, s. Qed.

Lemma same_index {A} (l : list A) i : same (index l i : result E A) (index l i : result F A).
Proof. unfold index. by destruct (l !! N.to_nat i). Qed.

Lemma same_map {A B} (f : A → result E B) (g : A → result F B) l :
  (∀ a, same (f a) (g a)) → same (map_result f l) (map_result g l).
Proof.
  intros H. induction l as [|a l IH]; cbn [map_result]; [done|].
  apply same_bind; [apply H|]. intros b. apply same_bind; [done|]. by intros.
Qed.

Lemma alike_fold {S T A} (R : S → T → Prop) (f : S → A → result E S) (g : T → A → result F T) l s t :
  R s t → (∀ s t a, a ∈ l → R s t → alike R (f s a) (g t a)) → alike R (fold_result f s l) (fold_result g t l).
Proof.
  revert s t. induction l as [|a l IH]; intros s t Hst H; cbn [fold_result]; [done|].
  eapply alike_bind; [apply H; [by left|exact Hst]|]. intros s' t' Hst'. apply IH; [done|].
  intros. apply H; [by right|done].
Qed.

Lemma alike_ok {A B} (R : A → B → Prop) (r : result E A) (s : result F B) a :
  alike R r s → r = Ok a → ∃ b, s = Ok b ∧ R a b.
Proof. intros H ->. destruct s; try done. by eexists. Qed.
Lemma alike_ok_r {A B} (R : A → B → Prop) (r : result E A) (s : result F B) b :
  alike R r s → s = Ok b → ∃ a, r = Ok a ∧ R a b.
Proof. intros H ->. destruct r; try done. by eexists. Qed.
Lemma same_ok {A} (r : result E A) (s : result F A) a : same r s → r = Ok a ↔ s = Ok a.
Proof. intros H. destruct r, s; try done. cbn in H. subst. by rewrite !ok_inj. Qed.

(** Two results that have no panics and are defined together *)
Lemma alike_intro {A B} (R : A → B → Prop) (r : result E A) (s : result F B) :
  r ≠ Panic → s ≠ Panic → (∀ a, r = Ok a → ∃ b, s = Ok b ∧ R a b) → (∀ b, s = Ok b → ∃ a, r = Ok a ∧ R a b) → alike R r s.
Proof.
  intros Hr Hs H1 H2. destruct r as [a|e|]; [|destruct s as [b|e'|]; try done|done].
  - by destruct (H1 a eq_refl) as (b & -> & ?).
  - by destruct (H2 b eq_refl) as (a & [=] & _).
Qed.
End alike.

Lemma same_refl {E A} (r : result E A) : same r r.
Proof. by destruct r. Qed.
Lemma same_trans {E F G A} (r : result E A) (s : result F A) (t : result G A) : same r s → same s t → same r t.
Proof. destruct r, s, t; cbn; congruence || done. Qed.

(** Errors of one step after the other, seen as one step *)
Lemma same_map_err_bind {E F A B} (e : E → F) (r : result E A) (f : A → result E B) (g : A → result F B) :
  (∀ a, same (f a) (g a)) → same (r ≫= f) (map_err e r ≫= g).
Proof. intros H. apply same_bind; [by destruct r|done]. Qed.
