(* ===== verification/ValidatorAccount.v ===== *)
(** * The validator's account database: crates/pocket-validator-init/src/account.rs

    The validator guest derives the account database from the files of the candidate a
    second time, with code of its own.  The theorem says that it agrees with the builder's
    derivation (AccountDatabase, UserResolve) on every file system. *)

From S2P Require Import Prelude RustStr Utf8 ByteOrder ErrorCode ManagedPath ProtocolError Frame Payload Sha256 AccountDatabase NoPanic GuestErrors HostFiles UserResolve Agree.

#[local] Arguments bs : simpl never.

Module ValidatorAccount.
Abbreviation vresult := (result ValidatorError.t).

Section rebuild.
Context {texts : ErrorTexts}.

Definition MAX_ACCOUNT_FILE_BYTES : N := 4 * 1024 * 1024.
Definition MAX_ACCOUNT_LINE_BYTES : N := 64 * 1024.

Definition account_failure (diagnostic : bytes) : ValidatorError.t :=
  ValidatorError.Failure "account-database" ErrorCode.ValidatorAccount None diagnostic.

Definition account_error {A} (diagnostic : bytes) : vresult A := Err (account_failure diagnostic).

(** [.map_err(|error| ValidatorError::io("account-database", error).reclassify(..))] *)
Definition account_io (error : io_error) : ValidatorError.t :=
  ValidatorError.reclassify (ValidatorError.Io "account-database" error) ErrorCode.ValidatorAccount.
Definition account_protocol (error : ProtocolError) : ValidatorError.t :=
  ValidatorError.reclassify (ValidatorError.Protocol "account-database" error) ErrorCode.ValidatorAccount.

Definition read_account_file (fs : Files.t) (path : bytes) : vresult bytes :=
  match Files.symlink_metadata fs path with
  | inr metadata =>
      if decide (Metadata.is_file metadata = false ∨ (MAX_ACCOUNT_FILE_BYTES < Metadata.size metadata)%N)
      then account_error (path ++ bs " is not a bounded plain file")
      else map_err account_io (read_to_string fs path)
  | inl error => if decide (io_kind error = NotFound) then Ok [] else Err (account_io error)
  end.

Definition account_lines (text : bytes) : vresult (list bytes) :=
  if decide (Exists (λ line, MAX_ACCOUNT_LINE_BYTES < len line)%N (lines text))
  then account_error (bs "account-file line exceeds hard cap") else
  Ok (filter (λ line, line ≠ [] ∧ ¬ starts_with x23 line) (lines text)).

Definition parse_id (value : bytes) (field : string) : vresult N :=
  if decide (value = [] ∨ ¬ Forall is_ascii_digit value)
  then account_error (bs field ++ bs " is not an unsigned decimal ID") else
  ok_or (parse_uint u32_bound value) (account_failure (bs field ++ bs " does not fit u32")).

Definition validate_name (value : bytes) (field : string) : vresult () :=
  if decide (value = [] ∨ (256 < len value)%N ∨ Exists forbidden_name_byte value)
  then account_error (bs field ++ bs " name has invalid bytes") else Ok ().

(** The body of the loop over the passwd lines *)
Definition rebuild_user (line : bytes) : vresult AccountUser.t :=
  let fields := split x3a line in
  if decide (len fields ≠ 7%N) then account_error (bs "passwd entry does not have seven fields") else
  name ← index fields 0;
  validate_name name "user";;
  uid ← index fields 2; uid ← parse_id uid "passwd uid";
  gid ← index fields 3; gid ← parse_id gid "passwd gid";
  Ok (AccountUser.account_user name uid gid).

(** The body of the loop over the group lines *)
Definition rebuild_group (line : bytes) : vresult AccountGroup.t :=
  let fields := split x3a line in
  if decide (len fields ≠ 4%N) then account_error (bs "group entry does not have four fields") else
  name ← index fields 0;
  validate_name name "group";;
  list ← index fields 3;
  members ← map_result (λ member, validate_name member "group member";; Ok member)
              (filter (λ member, member ≠ []) (split x2c list));
  gid ← index fields 2; gid ← parse_id gid "group gid";
  Ok (AccountGroup.account_group name gid (dedup (sort members))).

Context `{!Sha2} `{!Cbor AccountDatabase.t}.

Definition rebuild_account_database (fs : Files.t) (rootfs : bytes) : vresult AccountDb.t :=
  passwd ← read_account_file fs (path_join rootfs (bs "etc/passwd"));
  groups ← read_account_file fs (path_join rootfs (bs "etc/group"));
  passwd_lines ← account_lines passwd;
  users ← map_result rebuild_user passwd_lines;
  group_lines ← account_lines groups;
  account_groups ← map_result rebuild_group group_lines;
  let database := AccountDatabase.account_database ACCOUNT_DB_SCHEMA
    (sort_by AccountUser.name users) (sort_by AccountGroup.name account_groups) in
  map_err account_protocol (validate database);;
  map_err account_protocol (AccountDb.from_database database).
End rebuild.
End ValidatorAccount.

(** ** The two derivations agree *)
Section agree.
Context {texts : ErrorTexts}.
Import ValidatorAccount.

Lemma same_read fs path : same (read_account_file fs path) (BuilderUser.read_account_file fs path).
Proof.
  unfold read_account_file, BuilderUser.read_account_file. destruct (Files.symlink_metadata fs path) as [error|metadata].
  - by case_decide.
  - apply same_guard; [done|]. by apply same_map_err, same_map_err_r, same_refl.
Qed.

Lemma same_lines text : same (account_lines text) (AccountDatabase.account_lines text).
Proof. by apply same_guard. Qed.

Lemma same_id value field field' : same (parse_id value field) (parse_account_id value field').
Proof. apply same_guard; [done|apply same_ok_or]. Qed.

Lemma name_checks value field : validate_name value field = Ok () ↔ account_name_ok value.
Proof.
  unfold validate_name, account_error, account_name_ok, text_ok. rewrite guard_ok.
  rewrite !not_or_and, <- Forall_Exists_neg, N.nlt_ge. split; [|naive_solver].
  intros ((? & ? & Hf) & _). split_and!; try done. intros Hin.
  rewrite Forall_forall in Hf. apply (Hf _ Hin). left. by vm_compute.
Qed.

Lemma same_name value field field' : same (validate_name value field) (validate_account_name field' value).
Proof.
  pose proof (name_checks value field) as H. rewrite <- (validate_account_name_Ok field') in H.
  pose proof (np_account_name field' value) as Hnp. unfold no_panic in Hnp. unfold validate_name, account_error in *.
  destruct (validate_account_name field' value) as [[]| |]; [..|done]; case_decide; cbn; try done; exfalso.
  - by discriminate (proj2 H eq_refl).
  - by discriminate (proj1 H eq_refl).
Qed.

Lemma same_user line : same (rebuild_user line) (parse_user line).
Proof.
  apply same_guard; [done|]. apply same_bind; [apply same_index|]. intros name. apply same_bind; [apply same_name|]. intros _.
  apply same_bind; [apply same_index|]. intros uid. apply same_bind; [apply same_id|]. intros n.
  apply same_bind; [apply same_index|]. intros gid. apply same_bind; [apply same_id|]. by intros m.
Qed.

Lemma same_group line : same (rebuild_group line) (parse_group line).
Proof.
  apply same_guard; [done|]. apply same_bind; [apply same_index|]. intros name. apply same_bind; [apply same_name|]. intros _.
  apply same_bind; [apply same_index|]. intros list. apply same_bind.
  { apply same_map. intros member. apply same_bind; [apply same_name|]. by intros _. }
  intros members. apply same_bind; [apply same_index|]. intros gid. apply same_bind; [apply same_id|]. by intros n.
Qed.

Context `{!Sha2} `{!Cbor AccountDatabase.t}.

(** The part after the files were read *)
Lemma same_files passwd group :
  same (passwd_lines ← account_lines passwd;
        users ← map_result rebuild_user passwd_lines;
        group_lines ← account_lines group;
        account_groups ← map_result rebuild_group group_lines;
        let database := AccountDatabase.account_database ACCOUNT_DB_SCHEMA
          (sort_by AccountUser.name users) (sort_by AccountGroup.name account_groups) in
        map_err account_protocol (validate database);;
        map_err account_protocol (AccountDb.from_database database))
    (map_err (BuilderError.Protocol "account-database") (account_database_from_files passwd group) ≫= λ database,
       map_err (BuilderError.Protocol "account-database") (AccountDb.from_database database)).
Proof.
  eapply same_trans; [|apply same_map_err_bind; intros database; apply same_map_err_r, same_refl].
  unfold account_database_from_files.
  rewrite bind_assoc. apply same_bind; [apply same_lines|]. intros passwd_lines.
  rewrite bind_assoc. apply same_bind; [apply same_map, same_user|]. intros users.
  rewrite bind_assoc. apply same_bind; [apply same_lines|]. intros group_lines.
  rewrite bind_assoc. apply same_bind; [apply same_map, same_group|]. intros groups. cbv zeta.
  rewrite bind_assoc. apply same_bind; [apply same_map_err, same_refl|]. intros _.
  apply same_map_err, same_refl.
Qed.

(** C21: the validator's own reading of passwd and group agrees with the builder's.  On
    every file system it rebuilds a database if and only if the builder builds one, and
    then the message is the builder's; so evidence that differs means that the files
    differ. *)
Theorem account_rebuilds_agree fs rootfs message :
  rebuild_account_database fs rootfs = Ok message ↔
  ∃ database, BuilderUser.build_account_database fs rootfs = Ok database ∧ AccountDb.from_database database = Ok message.
Proof.
  set (build := BuilderUser.build_account_database fs rootfs).
  assert (same (rebuild_account_database fs rootfs)
    (build ≫= λ database, map_err (BuilderError.Protocol "account-database") (AccountDb.from_database database))) as Hsame.
  { unfold build, BuilderUser.build_account_database. rewrite bind_assoc. apply same_bind; [apply same_read|]. intros passwd.
    rewrite bind_assoc. apply same_bind; [apply same_read|]. intros group. cbn beta.
    apply same_files. }
  rewrite (same_ok _ _ _ Hsame), bind_ok. apply exist_proper. intros database. by rewrite map_err_ok.
Qed.
End agree.
