(* ===== verification/ImageProcess.v ===== *)
(** * The process of an image: crates/pocket-runtime/src/image.rs

    What a run starts: the image's configuration with the overrides of the run
    applied as Docker applies them.  Arguments, environment and signals here; the
    user is [UserResolve.ImageUser]. *)

From S2P Require Import Prelude RustStr ManagedPath ProtocolError Frame Payload Message NoPanic AccountDatabase BuilderMessage.
From S2P Require Import StoreCodec HexText OciError OciConfig HostError UserResolve.

#[local] Arguments bs : simpl never.
#[local] Arguments len : simpl never.

Abbreviation rresult := (result RuntimeError.t).

Definition DEFAULT_STOP_SIGNAL : N := 15.
Definition DEFAULT_PATH : bytes := bs "/usr/local/sbin:/usr/local/bin:/usr/sbin:/usr/bin:/sbin:/bin".

Module ImageArgv.
Inductive t : Set :=
| Default
| ReplaceCmd (cmd : list bytes)
| Exact (argv : list bytes).
End ImageArgv.

Module ImageProcessOverrides.
Record t : Set := image_process_overrides {
  argv : ImageArgv.t;
  entrypoint : option (list bytes);
  env : list bytes;
  hostname : bytes;
  user : option bytes;
  working_dir : option bytes;
  stop_signal : option bytes;
}.

Definition default : t := image_process_overrides ImageArgv.Default None [] (bs "pocket") None None None.
End ImageProcessOverrides.

Module ResolvedImageProcess.
Record t : Set := resolved_image_process {
  argv : list bytes;
  env : list bytes;
  working_dir : bytes;
  user : UserResolution.t;
  stop_signal : N;
}.
End ResolvedImageProcess.

(** ** Arguments *)
Definition select_argv (config : DockerProcessConfig.t) (overrides : ImageProcessOverrides.t)
    : rresult (list bytes) :=
  match ImageProcessOverrides.argv overrides with
  | ImageArgv.Exact argv =>
      if decide (is_Some (ImageProcessOverrides.entrypoint overrides))
      then RuntimeError.invalid "image.argv" (bs "an Entrypoint override cannot be combined with exact argv mode")
      else Ok argv
  | _ =>
      let entrypoint := default (DockerProcessConfig.entrypoint config) (ImageProcessOverrides.entrypoint overrides) in
      cmd ← match ImageProcessOverrides.argv overrides with
            | ImageArgv.Default =>
                Ok (if decide (is_Some (ImageProcessOverrides.entrypoint overrides)) then []
                    else DockerProcessConfig.cmd config)
            | ImageArgv.ReplaceCmd cmd => Ok cmd
            | ImageArgv.Exact _ => Panic
            end;
      _ ← ok_or (checked_add (len entrypoint) (len cmd))
            (RuntimeError.InvalidConfiguration "image.argv" (bs "Entrypoint and Cmd length overflows"));
      Ok (entrypoint ++ cmd)
  end.

Definition check_argument (value : bytes) : rresult () :=
  if decide (x00 ∈ value) then RuntimeError.invalid "image.argv" (bs "final argv contains NUL") else Ok ().

Definition check_argv (argv : list bytes) : rresult (list bytes) :=
  if decide (argv = [])
  then RuntimeError.invalid "image.argv" (bs "image Entrypoint/Cmd and run overrides produce an empty final argv") else
  program ← index argv 0;
  if decide (program = []) then RuntimeError.invalid "image.argv" (bs "final argv[0] must not be empty") else
  each check_argument argv;;
  Ok argv.

Definition resolve_argv (config : DockerProcessConfig.t) (overrides : ImageProcessOverrides.t)
    : rresult (list bytes) :=
  argv ← select_argv config overrides;
  check_argv argv.

(** ** Environment *)
Definition environment_key (value : bytes) : rresult bytes :=
  if decide (x00 ∈ value) then RuntimeError.invalid "image.env" (bs "environment entry contains NUL") else
  '(key, _) ← ok_or (split_once x3d value)
    (RuntimeError.InvalidConfiguration "image.env" (bs "environment entry must contain '='"));
  if decide (key = []) then RuntimeError.invalid "image.env" (bs "environment key must not be empty") else
  Ok key.

Definition environment_key_unchecked (value : bytes) : bytes :=
  match split_once x3d value with Some (key, _) => key | None => value end.

(** [iter().rposition(|candidate| key_of(candidate) == key)] *)
Fixpoint rposition (key : bytes) (merged : list bytes) : option nat :=
  match merged with
  | [] => None
  | candidate :: merged =>
      match rposition key merged with
      | Some i => Some (S i)
      | None => if decide (environment_key_unchecked candidate = key) then Some 0 else None
      end
  end.

(** The body of the loop over the image's entries. *)
Definition merge_image (merged : list bytes) (value : bytes) : rresult (list bytes) :=
  key ← environment_key value;
  if decide (key = bs "PATH" ∨ key = bs "HOSTNAME") then
    match rposition key merged with
    | Some index => Ok (<[index := value]> merged)
    | None => Panic (* [expect("PATH and HOSTNAME defaults are present")] *)
    end
  else Ok (merged ++ [value]).

(** The body of the loop over the overrides. *)
Definition merge_override (merged : list bytes) (value : bytes) : rresult (list bytes) :=
  key ← environment_key value;
  Ok (match rposition key merged with
      | Some index => <[index := value]> merged
      | None => merged ++ [value]
      end).

Definition merge_environment (image overrides : list bytes) (hostname : bytes) : rresult (list bytes) :=
  merged ← fold_result merge_image [bs "PATH=" ++ DEFAULT_PATH; bs "HOSTNAME=" ++ hostname] image;
  fold_result merge_override merged overrides.

(** ** Signals *)
Definition valid_signal (signal : N) : rresult N :=
  if decide (1 ≤ signal ≤ 64)%N then Ok signal else
  RuntimeError.invalid "image.stop_signal" (bs "signal must resolve to a value in 1..=64").

Definition valid_realtime_signal (signal : N) : rresult N :=
  if decide (34 ≤ signal ≤ 64)%N then Ok signal else
  RuntimeError.invalid "image.stop_signal"
    (bs "named realtime signal must resolve within RTMIN..=RTMAX (34..=64)").

Definition parse_realtime_offset (value : bytes) : rresult N :=
  if decide (value = [] ∨ ¬ Forall is_ascii_digit value)
  then RuntimeError.invalid "image.stop_signal" (bs "realtime signal offset must be unsigned decimal") else
  ok_or (parse_uint u16_bound value)
    (RuntimeError.InvalidConfiguration "image.stop_signal" (bs "realtime signal offset does not fit u16")).

Definition SIGNAL_NAMES : list (string * N) :=
  [("HUP", 1); ("INT", 2); ("QUIT", 3); ("ILL", 4); ("TRAP", 5); ("ABRT", 6); ("IOT", 6); ("BUS", 7); ("FPE", 8);
   ("KILL", 9); ("USR1", 10); ("SEGV", 11); ("USR2", 12); ("PIPE", 13); ("ALRM", 14); ("TERM", 15);
   ("STKFLT", 16); ("CHLD", 17); ("CLD", 17); ("CONT", 18); ("STOP", 19); ("TSTP", 20); ("TTIN", 21);
   ("TTOU", 22); ("URG", 23); ("XCPU", 24); ("XFSZ", 25); ("VTALRM", 26); ("PROF", 27); ("WINCH", 28);
   ("IO", 29); ("POLL", 29); ("PWR", 30); ("SYS", 31); ("RTMIN", 34); ("RTMAX", 64)]%N.

Definition signal_named (name : bytes) : option N :=
  snd <$> (snd <$> list_find (λ s : string * N, bs s.1 = name) SIGNAL_NAMES).

(** The [match name] of [parse_signal]. *)
Definition signal_of_name (debug : bytes → bytes) (value name : bytes) : rresult N :=
  match signal_named name with
  | Some signal => Ok signal
  | None =>
    match strip_prefix (bs "RTMIN+") name with
    | Some offset =>
        offset ← parse_realtime_offset offset;
        signal ← (if decide (34 + offset < u16_bound)%N then Ok (34 + offset)%N else
                  RuntimeError.invalid "image.stop_signal" (bs "realtime signal overflows"));
        valid_realtime_signal signal
    | None =>
      match strip_prefix (bs "RTMAX-") name with
      | Some offset =>
          offset ← parse_realtime_offset offset;
          signal ← (if decide (offset ≤ 64)%N then Ok (64 - offset)%N else
                    RuntimeError.invalid "image.stop_signal" (bs "realtime signal underflows"));
          valid_realtime_signal signal
      | None => RuntimeError.invalid "image.stop_signal" (bs "unsupported Linux signal name " ++ debug value)
      end
    end
  end.

Definition parse_signal (debug : bytes → bytes) (value : bytes) : rresult N :=
  if decide (value = [] ∨ ¬ Forall (λ b, code b < 128)%N value)
  then RuntimeError.invalid "image.stop_signal" (bs "signal must be nonempty ASCII") else
  if decide (Forall is_ascii_digit value) then
    signal ← ok_or (parse_uint u16_bound value)
      (RuntimeError.InvalidConfiguration "image.stop_signal" (bs "numeric signal does not fit u16"));
    valid_signal signal
  else
  let uppercase := to_ascii_uppercase value in
  let name := default uppercase (strip_prefix (bs "SIG") uppercase) in
  signal ← signal_of_name debug value name;
  valid_signal signal.

(** ** The process *)
Definition resolve_verified_process (debug : bytes → bytes) (config : DockerProcessConfig.t)
    (accounts : AccountDatabase.t) (overrides : ImageProcessOverrides.t) : rresult ResolvedImageProcess.t :=
  map_err RuntimeError.Protocol (validate accounts);;
  argv ← resolve_argv config overrides;
  env ← merge_environment (DockerProcessConfig.env config) (ImageProcessOverrides.env overrides)
          (ImageProcessOverrides.hostname overrides);
  let working_dir := default (DockerProcessConfig.working_dir config) (ImageProcessOverrides.working_dir overrides) in
  user ← ImageUser.resolve_user debug accounts
           (default (DockerProcessConfig.user config) (ImageProcessOverrides.user overrides));
  stop_signal ← match (match ImageProcessOverrides.stop_signal overrides with
                       | Some signal => Some signal
                       | None => DockerProcessConfig.stop_signal config
                       end) with
                | Some signal => parse_signal debug signal
                | None => Ok DEFAULT_STOP_SIGNAL
                end;
  Ok (ResolvedImageProcess.resolved_image_process argv env working_dir user stop_signal).

(** ** Arguments: what is run *)

(** The arguments that an image and the overrides of a run stand for: exact
    arguments alone; otherwise the entry point, replaced if the run names one, then
    the command, which the run replaces, or drops with the entry point. *)
Definition docker_argv (config : DockerProcessConfig.t) (overrides : ImageProcessOverrides.t) : list bytes :=
  match ImageProcessOverrides.argv overrides, ImageProcessOverrides.entrypoint overrides with
  | ImageArgv.Exact argv, _ => argv
  | ImageArgv.ReplaceCmd cmd, Some entrypoint => entrypoint ++ cmd
  | ImageArgv.ReplaceCmd cmd, None => DockerProcessConfig.entrypoint config ++ cmd
  | ImageArgv.Default, Some entrypoint => entrypoint
  | ImageArgv.Default, None => DockerProcessConfig.entrypoint config ++ DockerProcessConfig.cmd config
  end.

(** An exact argument list leaves no entry point to override. *)
Definition argv_conflict (overrides : ImageProcessOverrides.t) : Prop :=
  match ImageProcessOverrides.argv overrides with
  | ImageArgv.Exact _ => is_Some (ImageProcessOverrides.entrypoint overrides)
  | _ => False
  end.

Lemma select_argv_Ok config overrides argv :
  (len (docker_argv config overrides) < u64_bound)%N →
  select_argv config overrides = Ok argv ↔ ¬ argv_conflict overrides ∧ argv = docker_argv config overrides.
Proof.
  unfold select_argv, argv_conflict, docker_argv.
  destruct (ImageProcessOverrides.argv overrides) as [|cmd|exact];
    destruct (ImageProcessOverrides.entrypoint overrides) as [entry|]; simpl; rewrite ?len_app; intros Hl;
    unfold checked_add.
  1: rewrite len_nil, N.add_0_r, app_nil_r. 1-4: rewrite decide_True by done; simpl; naive_solver.
  - split; [done|]. intros [[] _]. by eexists.
  - rewrite is_Some_alt. naive_solver.
Qed.

Definition runnable_argv (argv : list bytes) : Prop :=
  Forall (λ a, x00 ∉ a) argv ∧ ∃ program rest, argv = program :: rest ∧ program ≠ [].

Lemma check_argument_Ok a : check_argument a = Ok () ↔ x00 ∉ a.
Proof. unfold check_argument. rewrite runtime_guard_ok. naive_solver. Qed.

Lemma check_argv_Ok argv r : check_argv argv = Ok r ↔ r = argv ∧ runnable_argv argv.
Proof.
  unfold check_argv, runnable_argv. rewrite runtime_guard_ok. destruct argv as [|program rest]; [naive_solver|].
  change (@index RuntimeError.t _ (program :: rest) 0) with (@Ok RuntimeError.t _ program). cbn [mbind result_bind].
  rewrite runtime_guard_ok, bind_unit_ok, each_ok, ok_inj. setoid_rewrite check_argument_Ok. naive_solver.
Qed.

Lemma resolve_argv_Ok config overrides argv :
  (len (docker_argv config overrides) < u64_bound)%N →
  resolve_argv config overrides = Ok argv ↔
  ¬ argv_conflict overrides ∧ argv = docker_argv config overrides ∧ runnable_argv argv.
Proof.
  intros Hl. unfold resolve_argv. rewrite bind_ok. setoid_rewrite select_argv_Ok; [|done].
  setoid_rewrite check_argv_Ok. naive_solver.
Qed.

(** ** Environment: which entry of a key is in force *)
Definition has_key (key entry : bytes) : Prop := environment_key_unchecked entry = key.
#[export] Instance has_key_dec key entry : Decision (has_key key entry).
Proof. unfold has_key. apply _. Defined.
Definition entries_of (key : bytes) (env : list bytes) : list bytes := filter (has_key key) env.

Definition entry_ok (entry : bytes) : Prop := env_entry entry ∧ x00 ∉ entry.

Lemma environment_key_Ok entry key :
  environment_key entry = Ok key ↔ entry_ok entry ∧ has_key key entry.
Proof.
  unfold environment_key, entry_ok, has_key, environment_key_unchecked. rewrite runtime_guard_ok, env_entry_split.
  destruct (split_once x3d entry) as [[k v]|] eqn:Hs; [|naive_solver].
  cbn [ok_or mbind result_bind]. rewrite runtime_guard_ok, ok_inj. naive_solver.
Qed.

Lemma rposition_Some key l i :
  rposition key l = Some i →
  ∃ l1 a l2, l = l1 ++ a :: l2 ∧ length l1 = i ∧ has_key key a ∧ Forall (λ b, ¬ has_key key b) l2.
Proof.
  revert i; induction l as [|b l IH]; intros i; simpl; [done|].
  destruct (rposition key l) as [j|] eqn:Hj.
  - intros [= <-]. destruct (IH j eq_refl) as (l1 & a & l2 & -> & <- & Ha & Hl). by exists (b :: l1), a, l2.
  - case_decide as Hb; [|done]. intros [= <-]. exists [], b, l. split_and!; [done..|]. clear IH.
    induction l as [|c l IH]; [constructor|]. simpl in Hj. destruct (rposition key l); [done|].
    case_decide; [done|]. constructor; [done|by apply IH].
Qed.

Lemma rposition_None key l : rposition key l = None → entries_of key l = [].
Proof.
  unfold entries_of. induction l as [|b l IH]; simpl; [done|]. destruct (rposition key l); [done|].
  case_decide; [done|]. intros _. rewrite filter_cons_False by done. by apply IH.
Qed.

Lemma entries_of_app key l k : entries_of key (l ++ k) = entries_of key l ++ entries_of key k.
Proof. apply filter_app. Qed.

Lemma entries_of_step k v l :
  entries_of k (v :: l) = if decide (has_key k v) then v :: entries_of k l else entries_of k l.
Proof. apply filter_cons. Qed.
Lemma entries_of_cons key v l : has_key key v → entries_of key (v :: l) = v :: entries_of key l.
Proof. intros. by apply filter_cons_True. Qed.
Lemma entries_of_other k key v l : has_key key v → k ≠ key → entries_of k (v :: l) = entries_of k l.
Proof. intros <- ?. apply filter_cons_False. by intros <-. Qed.

Lemma entries_of_none key l : Forall (λ b, ¬ has_key key b) l → entries_of key l = [].
Proof. unfold entries_of. induction 1; [done|]. by rewrite filter_cons_False. Qed.

(** Replacing the last entry of a key: the new one is in force, as many remain. *)
Lemma entries_of_insert key k l i v :
  rposition key l = Some i → has_key key v →
  last (entries_of k (<[i := v]> l)) = (if decide (k = key) then Some v else last (entries_of k l)) ∧
  length (entries_of k (<[i := v]> l)) = length (entries_of k l).
Proof.
  intros (l1 & a & l2 & -> & <- & Ha & Hl)%rposition_Some Hv.
  replace (<[length l1 := v]> (l1 ++ a :: l2)) with (l1 ++ v :: l2)
    by (by rewrite <- (Nat.add_0_r (length l1)), insert_app_r).
  rewrite !entries_of_app. case_decide as Hk.
  - subst k. rewrite !entries_of_cons, (entries_of_none key l2) by done. by rewrite last_snoc, !length_app.
  - by rewrite !(entries_of_other k key) by done.
Qed.

Lemma entries_of_snoc key k l v :
  has_key key v →
  last (entries_of k (l ++ [v])) = (if decide (k = key) then Some v else last (entries_of k l)) ∧
  length (entries_of k (l ++ [v])) = length (entries_of k l) + (if decide (k = key) then 1 else 0).
Proof.
  intros Hv. rewrite entries_of_app. case_decide as Hk.
  - subst k. rewrite entries_of_cons, (entries_of_none key []) by (done || constructor). by rewrite last_snoc, length_app.
  - rewrite (entries_of_other k key) by done. by rewrite (entries_of_none k []), app_nil_r, Nat.add_0_r by constructor.
Qed.

Definition daemon_default (key : bytes) : Prop := key = bs "PATH" ∨ key = bs "HOSTNAME".
#[export] Instance daemon_default_dec key : Decision (daemon_default key).
Proof. unfold daemon_default. apply _. Defined.

(** How many entries of a key there are once the image is merged. *)
Definition image_count (key : bytes) (image : list bytes) : nat :=
  if decide (daemon_default key) then 1 else length (entries_of key image).
Definition default_environment (hostname : bytes) : list bytes := [bs "PATH=" ++ DEFAULT_PATH; bs "HOSTNAME=" ++ hostname].

Lemma default_keys hostname :
  has_key (bs "PATH") (bs "PATH=" ++ DEFAULT_PATH) ∧ has_key (bs "HOSTNAME") (bs "HOSTNAME=" ++ hostname).
Proof. done. Qed.

Lemma count_two key p h :
  has_key (bs "PATH") p → has_key (bs "HOSTNAME") h →
  length (entries_of key [p; h]) = (if decide (daemon_default key) then 1 else 0).
Proof.
  intros Hp Hh. change [p; h] with ([p] ++ [h]). destruct (entries_of_snoc _ key [p] _ Hh) as [_ ->].
  destruct (entries_of_snoc _ key [] _ Hp) as [_ H1]. simpl app in H1. rewrite H1. simpl.
  unfold daemon_default. assert (bs "PATH" ≠ bs "HOSTNAME") by done. repeat case_decide; naive_solver lia.
Qed.

Lemma defaults_count key hostname :
  length (entries_of key (default_environment hostname)) = image_count key [].
Proof. destruct (default_keys hostname). by apply count_two. Qed.

Definition in_force (env : list bytes) (k : bytes) : option bytes := last (entries_of k env).

Lemma in_force_snoc key k l v :
  has_key key v → in_force (l ++ [v]) k = if decide (k = key) then Some v else in_force l k.
Proof. intros Hv. by destruct (entries_of_snoc key k l v Hv). Qed.

Lemma merge_image_step seen merged v merged' :
  (∀ k, length (entries_of k merged) = image_count k seen) →
  merge_image merged v = Ok merged' →
  entry_ok v ∧ (∀ k, length (entries_of k merged') = image_count k (seen ++ [v])) ∧
  ∀ k, in_force merged' k = in_force (merged ++ [v]) k.
Proof.
  unfold merge_image, image_count. intros Hc (key & [Hv Hk]%environment_key_Ok & H)%bind_ok.
  split; [done|]. case_decide as Hd.
  - destruct (rposition key merged) as [i|] eqn:Hi; [|done]. injection H as <-.
    split; intros k; destruct (entries_of_insert key k _ _ _ Hi Hk) as [Hl Hn].
    + clear Hl. rewrite Hn, Hc. destruct (decide (daemon_default k)) as [|Hd']; [done|]. destruct (entries_of_snoc key k seen v Hk) as [_ ->].
      rewrite decide_False; [lia|]. by intros ->.
    + rewrite (in_force_snoc key) by done. exact Hl.
  - injection H as <-. split; intros k; [|done].
    destruct (entries_of_snoc key k merged v Hk) as [_ ->]. destruct (entries_of_snoc key k seen v Hk) as [_ ->].
    rewrite Hc. repeat case_decide; (lia || naive_solver).
Qed.

Lemma environment_key_total v : no_panic (environment_key v) ∧ (entry_ok v → is_ok (environment_key v)).
Proof.
  unfold environment_key, entry_ok, is_ok, no_panic. rewrite env_entry_split. case_decide as Hn; [naive_solver|].
  destruct (split_once x3d v) as [[key w]|]; [|naive_solver]. cbn [ok_or mbind result_bind]. case_decide; naive_solver.
Qed.

Lemma merge_image_total seen merged v :
  (∀ k, length (entries_of k merged) = image_count k seen) →
  no_panic (merge_image merged v) ∧ (entry_ok v → is_ok (merge_image merged v)).
Proof.
  intros Hc. destruct (environment_key_total v) as [Hp Hok]. unfold merge_image, is_ok, no_panic in *.
  destruct (environment_key v) as [key|e|]; [|naive_solver|done]. cbn [mbind result_bind].
  case_decide as Hd; [|eauto]. destruct (rposition key merged) eqn:Hr; [eauto|].
  apply rposition_None in Hr. specialize (Hc key). unfold image_count in Hc. by rewrite Hr, decide_True in Hc.
Qed.

Lemma merge_override_step merged v merged' :
  merge_override merged v = Ok merged' →
  entry_ok v ∧ (∀ k, length (entries_of k merged') =
    if decide (has_key k v) then Nat.max 1 (length (entries_of k merged)) else length (entries_of k merged)) ∧
  ∀ k, in_force merged' k = in_force (merged ++ [v]) k.
Proof.
  unfold merge_override. intros (key & [Hv Hk]%environment_key_Ok & H)%bind_ok. split; [done|].
  assert (∀ k, has_key k v ↔ k = key) as Hkey by (intros k; unfold has_key in *; naive_solver).
  destruct (rposition key merged) as [i|] eqn:Hi; injection H as <-.
  - pose proof (rposition_Some _ _ _ Hi) as (l1 & a & l2 & Hm & _ & Ha & _).
    split; intros k; destruct (entries_of_insert key k _ _ _ Hi Hk) as [Hl Hn].
    + clear Hl. rewrite Hn. case_decide as Hd; [|done]. apply Hkey in Hd as ->.
      rewrite Hm, entries_of_app, (entries_of_cons key a), length_app by done. simpl. lia.
    + rewrite (in_force_snoc key) by done. exact Hl.
  - apply rposition_None in Hi. split; intros k; [|done]. destruct (entries_of_snoc key k merged v Hk) as [_ ->].
    case_decide as Hd; case_decide as Hd'; [subst; rewrite Hi; done| |naive_solver|lia].
    exfalso. naive_solver.
Qed.

Lemma merge_override_total merged v :
  no_panic (merge_override merged v) ∧ (entry_ok v → is_ok (merge_override merged v)).
Proof.
  unfold merge_override, is_ok, no_panic. destruct (environment_key_total v) as [Hp Hok].
  split; [by destruct (environment_key v)|]. intros [key ->]%Hok. cbn [mbind result_bind]. by eexists.
Qed.

Lemma in_force_ext l l' v k : (∀ k, in_force l k = in_force l' k) → in_force (l ++ [v]) k = in_force (l' ++ [v]) k.
Proof. intros H. by rewrite !(in_force_snoc (environment_key_unchecked v)), H. Qed.

Lemma in_force_app l l' m k : (∀ k, in_force l k = in_force l' k) → in_force (l ++ m) k = in_force (l' ++ m) k.
Proof.
  intros H. revert k. induction m as [|v m IH] using rev_ind; intros k; [by rewrite !app_nil_r|].
  rewrite !(assoc_L (++)). by apply in_force_ext.
Qed.

(** The two loops: every entry is checked, and what is in force is what would be if
    all the entries followed one another. *)
Lemma merge_image_fold image : ∀ seen merged,
  (∀ k, length (entries_of k merged) = image_count k seen) →
  no_panic (fold_result merge_image merged image) ∧
  (Forall entry_ok image → is_ok (fold_result merge_image merged image)) ∧
  ∀ env, fold_result merge_image merged image = Ok env →
    Forall entry_ok image ∧ (∀ k, length (entries_of k env) = image_count k (seen ++ image)) ∧
    ∀ k, in_force env k = in_force (merged ++ image) k.
Proof.
  induction image as [|v image IH]; intros seen merged Hc; cbn [fold_result].
  { split_and!; [done|by eexists|]. intros env [= <-]. rewrite !app_nil_r. by split_and!. }
  destruct (merge_image_total seen merged v Hc) as [Hp Hok]. pose proof (merge_image_step seen merged v) as Hstep.
  destruct (merge_image merged v) as [merged'|e|]; cbn [mbind result_bind]; [| |done].
  - destruct (Hstep merged' Hc eq_refl) as (Hv & Hc' & Hf). destruct (IH (seen ++ [v]) merged' Hc') as (? & Htot & Henv).
    split_and!; [done| |].
    + intros [_ ?]%Forall_cons. by apply Htot.
    + intros env He. destruct (Henv env He) as (? & Hlen & Hforce). rewrite <- (assoc_L (++)) in Hlen.
      split_and!; [by constructor|done|]. intros k.
      rewrite Hforce, (cons_middle v merged image), (assoc_L (++)). by apply in_force_app.
  - split_and!; [done| |done]. intros [Hv _]%Forall_cons. by destruct (Hok Hv).
Qed.

Lemma merge_override_fold overrides : ∀ merged,
  no_panic (fold_result merge_override merged overrides) ∧
  (Forall entry_ok overrides → is_ok (fold_result merge_override merged overrides)) ∧
  ∀ env, fold_result merge_override merged overrides = Ok env →
    Forall entry_ok overrides ∧
    (∀ k, length (entries_of k env) =
       Nat.max (length (entries_of k merged)) (Nat.min 1 (length (entries_of k overrides)))) ∧
    ∀ k, in_force env k = in_force (merged ++ overrides) k.
Proof.
  induction overrides as [|v overrides IH]; intros merged; cbn [fold_result].
  { split_and!; [done|by eexists|]. intros env [= <-]. rewrite !app_nil_r. split_and!; [done| |done].
    intros k. simpl. lia. }
  destruct (merge_override_total merged v) as [Hp Hok]. pose proof (merge_override_step merged v) as Hstep.
  destruct (merge_override merged v) as [merged'|e|]; cbn [mbind result_bind]; [| |done].
  - destruct (Hstep merged' eq_refl) as (Hv & Hc & Hf). destruct (IH merged') as (? & Htot & Henv).
    split_and!; [done| |].
    + intros [_ ?]%Forall_cons. by apply Htot.
    + intros env He. destruct (Henv env He) as (? & Hlen & Hforce). split_and!; [by constructor| |]; intros k.
      * rewrite Hlen, Hc, entries_of_step. case_decide; cbn [length]; lia.
      * rewrite Hforce, (cons_middle v merged overrides), (assoc_L (++)). by apply in_force_app.
  - split_and!; [done| |done]. intros [Hv _]%Forall_cons. by destruct (Hok Hv).
Qed.

(** What a merged environment is: it is refused when an entry has no key or a NUL.
    Otherwise the entry in force for a key is the last one among the defaults, the
    image's entries and the overrides, in this order; [PATH] and [HOSTNAME] are there
    once, another key of the image as often as the image has it, and a key that only
    the run has once. *)
Lemma merge_environment_exact image overrides hostname :
  no_panic (merge_environment image overrides hostname) ∧
  (is_ok (merge_environment image overrides hostname) ↔ Forall entry_ok (image ++ overrides)) ∧
  ∀ env, merge_environment image overrides hostname = Ok env →
    (∀ k, in_force env k = in_force (default_environment hostname ++ image ++ overrides) k) ∧
    ∀ k, length (entries_of k env) =
      Nat.max (image_count k image) (Nat.min 1 (length (entries_of k overrides))).
Proof.
  unfold merge_environment. fold (default_environment hostname).
  destruct (merge_image_fold image [] (default_environment hostname)) as (Hp & Htot & Henv);
    [intros; apply defaults_count|].
  destruct (fold_result merge_image _ image) as [merged|e|]; cbn [mbind result_bind]; [| |done].
  - destruct (Henv merged eq_refl) as (Hi & Hc & Hf).
    destruct (merge_override_fold overrides merged) as (? & Htot' & Henv').
    split_and!; [done| |].
    + rewrite Forall_app. split; [intros [env He]|intros [_ ?]; by apply Htot']. by destruct (Henv' env He).
    + intros env He. destruct (Henv' env He) as (_ & Hlen & Hforce). split; intros k.
      * rewrite Hforce, (assoc_L (++)). by apply in_force_app.
      * by rewrite Hlen, Hc.
  - split_and!; [done| |done]. rewrite Forall_app. split; [by intros [? ?]|]. intros [Hi _]. by destruct (Htot Hi).
Qed.

(** ** Signals: the spellings of a signal *)

(** The name after an optional "SIG", in upper case. *)
Definition signal_name (s : bytes) : bytes :=
  let upper := to_ascii_uppercase s in default upper (strip_prefix (bs "SIG") upper).

(** The number that a name stands for. *)
Definition names_signal (name : bytes) (n : N) : Prop :=
  signal_named name = Some n ∨
  ∃ digits, digits ≠ [] ∧ Forall is_ascii_digit digits ∧ (34 ≤ n ≤ 64)%N ∧
    (name = bs "RTMIN+" ++ digits ∧ n = 34 + dec_value digits ∨
     name = bs "RTMAX-" ++ digits ∧ (dec_value digits ≤ 64)%N ∧ n = 64 - dec_value digits)%N.

Definition signal_text (s : bytes) (n : N) : Prop :=
  (1 ≤ n ≤ 64)%N ∧ s ≠ [] ∧
  ((Forall is_ascii_digit s ∧ n = dec_value s) ∨
   (¬ Forall is_ascii_digit s ∧ Forall (λ b, code b < 128)%N s ∧ names_signal (signal_name s) n)).

Lemma valid_signal_Ok n r : valid_signal n = Ok r ↔ r = n ∧ (1 ≤ n ≤ 64)%N.
Proof. unfold valid_signal. case_decide; naive_solver. Qed.
Lemma valid_realtime_signal_Ok n r : valid_realtime_signal n = Ok r ↔ r = n ∧ (34 ≤ n ≤ 64)%N.
Proof. unfold valid_realtime_signal. case_decide; naive_solver. Qed.

Lemma parse_realtime_offset_Ok d n :
  parse_realtime_offset d = Ok n ↔ d ≠ [] ∧ Forall is_ascii_digit d ∧ n = dec_value d ∧ (n < u16_bound)%N.
Proof.
  unfold parse_realtime_offset. rewrite runtime_guard_ok, ok_or_ok. split.
  - intros [[Hne Hd%dec_stable]%not_or_and Hp]. apply parse_uint_digits in Hp as [-> ?]; done.
  - intros (? & ? & -> & ?). split; [tauto|]. by apply parse_uint_digits.
Qed.

(** The table has numbers of signals only, and no entry for a real-time offset. *)
Lemma signal_named_range name n : signal_named name = Some n → (1 ≤ n ≤ 64)%N.
Proof.
  unfold signal_named. destruct (list_find _ _) as [[i [s m]]|] eqn:Hf; [|done]. simpl. intros [= <-].
  apply list_find_Some in Hf as (Hi & _ & _). apply list_elem_of_lookup_2 in Hi.
  assert (Forall (λ e : string * N, 1 ≤ e.2 ≤ 64)%N SIGNAL_NAMES) as Hall
    by (by apply (bool_decide_unpack _); vm_compute).
  rewrite Forall_forall in Hall. by apply (Hall (s, m)).
Qed.

Lemma named_plus pre d :
  pre ∈ [bs "RTMIN+"; bs "RTMAX-"] → signal_named (pre ++ d) = None.
Proof.
  intros Hp. unfold signal_named. destruct (list_find _ _) as [[i e]|] eqn:Hf; [|done]. exfalso.
  apply list_find_Some in Hf as (Hi & He & _). apply list_elem_of_lookup_2 in Hi.
  assert (Forall (λ s : string * N, bs s.1 `prefix_of` bs "RTMIN" ∨ take 6 (bs s.1) ≠ bs "RTMIN+" ∧ take 6 (bs s.1) ≠ bs "RTMAX-")
            SIGNAL_NAMES) as Hall by (by apply (bool_decide_unpack _); vm_compute).
  rewrite Forall_forall in Hall. specialize (Hall e Hi). rewrite He in Hall.
  apply list_elem_of_In in Hp as [<-|[<-|[]]]; destruct Hall as [[r Hr]|[H1 H2]]; done.
Qed.

Lemma signal_of_name_Ok debug value name n :
  signal_of_name debug value name = Ok n ↔ names_signal name n.
Proof.
  unfold signal_of_name, names_signal. destruct (signal_named name) as [m|] eqn:Hn.
  { rewrite ok_inj. split; [naive_solver|]. intros [?|(d & _ & _ & _ & [[-> _]|[-> _]])]; [naive_solver|..];
      rewrite named_plus in Hn; set_solver. }
  destruct (strip_prefix (bs "RTMIN+") name) as [d|] eqn:Hmin; [|destruct (strip_prefix (bs "RTMAX-") name) as [d|] eqn:Hmax].
  - apply strip_prefix_Some in Hmin as ->. rewrite bind_ok. setoid_rewrite parse_realtime_offset_Ok.
    setoid_rewrite bind_ok. setoid_rewrite valid_realtime_signal_Ok. setoid_rewrite guard_not_ok. split.
    + intros (m & (? & ? & -> & ?) & k & (? & [= <-]) & -> & ?). right. exists d. naive_solver.
    + intros [?|(d' & ? & ? & ? & [[Hd ->]|[Hd _]])]; [done| |done]. apply (inj (bs "RTMIN+" ++.)) in Hd as <-.
      exists (dec_value d). unfold u16_bound. split; [split_and!; [done..|lia]|].
      exists (34 + dec_value d)%N. split_and!; [lia|done|done|lia|lia].
  - apply strip_prefix_Some in Hmax as ->. rewrite bind_ok. setoid_rewrite parse_realtime_offset_Ok.
    setoid_rewrite bind_ok. setoid_rewrite valid_realtime_signal_Ok. setoid_rewrite guard_not_ok. split.
    + intros (m & (? & ? & -> & ?) & k & (? & [= <-]) & -> & ?). right. exists d. naive_solver.
    + intros [?|(d' & ? & ? & ? & [[Hd _]|(Hd & ? & ->)])]; [done|done|]. apply (inj (bs "RTMAX-" ++.)) in Hd as <-.
      exists (dec_value d). unfold u16_bound. split; [split_and!; [done..|lia]|].
      exists (64 - dec_value d)%N. split_and!; [lia|done|done|lia|lia].
  - split; [done|]. intros [?|(d & _ & _ & _ & [[-> _]|[-> _]])]; [done|..].
    + by rewrite (proj2 (strip_prefix_Some (bs "RTMIN+") _ d)) in Hmin.
    + by rewrite (proj2 (strip_prefix_Some (bs "RTMAX-") _ d)) in Hmax.
Qed.

Lemma names_signal_range name n : names_signal name n → (1 ≤ n ≤ 64)%N.
Proof. intros [?%signal_named_range|(d & _ & _ & ? & _)]; [done|lia]. Qed.

(** Stop signals.  A text is accepted exactly when it spells a signal: a decimal
    number, or in any case and with or without "SIG" a name of the table or an offset
    from the first or last real-time signal that stays within these. *)
Lemma parse_signal_exact debug s n : parse_signal debug s = Ok n ↔ signal_text s n.
Proof.
  unfold parse_signal, signal_text. rewrite runtime_guard_ok. fold (signal_name s).
  destruct (decide (Forall is_ascii_digit s)) as [Hd|Hd]; rewrite bind_ok; setoid_rewrite valid_signal_Ok.
  - setoid_rewrite ok_or_ok. split.
    + intros ([Hne _]%not_or_and & m & Hm & -> & ?). apply parse_uint_digits in Hm as [-> ?]; naive_solver.
    + intros (? & Hne & [[_ ->]|[? _]]); [|done]. split.
      * intros [?|Ha]; [done|]. apply Ha. eapply Forall_impl; [exact Hd|]. unfold is_ascii_digit. lia.
      * exists (dec_value s). split; [|done]. apply parse_uint_digits; [done..|]. unfold u16_bound. lia.
  - setoid_rewrite signal_of_name_Ok. split.
    + intros ([Hne Ha%dec_stable]%not_or_and & m & Hm & -> & ?). naive_solver.
    + intros (? & Hne & [[? _]|(_ & ? & ?)]); [done|]. split; [tauto|]. by exists n.
Qed.

(** ** The process of a run *)

(** Every entry of a merged environment is a default, the image's or the run's. *)
Lemma merge_environment_Forall (P : bytes → Prop) image overrides hostname env :
  Forall P (default_environment hostname ++ image ++ overrides) →
  merge_environment image overrides hostname = Ok env → Forall P env.
Proof.
  unfold merge_environment. fold (default_environment hostname). rewrite !Forall_app.
  generalize (default_environment hostname) as merged. intros merged (Hm & Hi & Ho) (merged' & H1 & H2)%bind_ok.
  assert (Forall P merged') as Hm'; [clear H2|clear H1 Hm].
  - revert merged Hm H1. induction Hi as [|v image Hv _ IH]; intros merged Hm H1; simpl in H1; [by injection H1 as <-|].
    apply bind_ok in H1 as (m & Hstep & H1). apply (IH m); [|done]. unfold merge_image in Hstep.
    apply bind_ok in Hstep as (key & _ & Hstep). case_decide; [|injection Hstep as <-; by apply Forall_app_2; [|constructor]].
    destruct (rposition key merged); [|done]. injection Hstep as <-. by apply Forall_insert.
  - revert merged' Hm' H2. induction Ho as [|v l Hv _ IH]; intros merged' Hm' H2; simpl in H2; [by injection H2 as <-|].
    apply bind_ok in H2 as (m & Hstep & H2). apply (IH m); [|done]. unfold merge_override in Hstep.
    apply bind_ok in Hstep as (key & _ & [= <-]). destruct (rposition key merged'); [by apply Forall_insert|].
    by apply Forall_app_2; [|constructor].
Qed.

Definition run_user (config : DockerProcessConfig.t) (overrides : ImageProcessOverrides.t) : bytes :=
  default (DockerProcessConfig.user config) (ImageProcessOverrides.user overrides).
Definition run_signal (config : DockerProcessConfig.t) (overrides : ImageProcessOverrides.t) : option bytes :=
  match ImageProcessOverrides.stop_signal overrides with
  | Some signal => Some signal
  | None => DockerProcessConfig.stop_signal config
  end.

(** The process that an image, a database and overrides stand for. *)
Record process_of (config : DockerProcessConfig.t) (accounts : AccountDatabase.t)
    (overrides : ImageProcessOverrides.t) (p : ResolvedImageProcess.t) : Prop := {
  process_argv : ¬ argv_conflict overrides ∧ ResolvedImageProcess.argv p = docker_argv config overrides ∧
    runnable_argv (ResolvedImageProcess.argv p);
  process_env : merge_environment (DockerProcessConfig.env config) (ImageProcessOverrides.env overrides)
    (ImageProcessOverrides.hostname overrides) = Ok (ResolvedImageProcess.env p);
  process_directory : ResolvedImageProcess.working_dir p =
    default (DockerProcessConfig.working_dir config) (ImageProcessOverrides.working_dir overrides);
  process_user : resolves accounts (run_user config overrides) (ResolvedImageProcess.user p);
  process_signal : match run_signal config overrides with
                   | Some text => signal_text text (ResolvedImageProcess.stop_signal p)
                   | None => ResolvedImageProcess.stop_signal p = DEFAULT_STOP_SIGNAL
                   end;
}.

Lemma resolve_verified_process_Ok debug config accounts overrides p :
  (len (docker_argv config overrides) < u64_bound)%N →
  resolve_verified_process debug config accounts overrides = Ok p ↔
  validate accounts = Ok () ∧ process_of config accounts overrides p.
Proof.
  intros Hl. unfold resolve_verified_process. fold (run_user config overrides). fold (run_signal config overrides).
  rewrite bind_unit_ok, map_err_ok. split.
  - intros [Hv H]. split; [done|]. apply bind_ok in H as (argv & Ha%resolve_argv_Ok & H); [|done].
    apply bind_ok in H as (env & He & H). apply bind_ok in H as (user & Hu & H).
    apply (host_resolves debug) in Hu; [|by apply account_database_validate_Ok].
    apply bind_ok in H as (signal & Hs & [= <-]). destruct Ha as (? & -> & ?). constructor; simpl; try done.
    destruct (run_signal config overrides); [by apply parse_signal_exact in Hs|by injection Hs as <-].
  - intros [Hv [(? & Hargv & ?) He Hw Hu Hs]]. split; [done|]. destruct p as [argv env wd user signal]; simpl in *.
    assert (resolve_argv config overrides = Ok argv) as -> by (by apply resolve_argv_Ok). rsimpl. rewrite He. rsimpl.
    apply (host_resolves debug) in Hu; [|by apply account_database_validate_Ok]. rewrite Hu. rsimpl.
    apply bind_ok. exists signal. split; [|by subst].
    destruct (run_signal config overrides); [by apply parse_signal_exact|by subst].
Qed.

(** The sizes that a START message can carry. *)
Record start_sizes (p : ResolvedImageProcess.t) : Prop := {
  sizes_argv : (len (ResolvedImageProcess.argv p) ≤ MAX_ARG_COUNT)%N ∧
    Forall (λ a, len a ≤ MAX_ARG_LENGTH)%N (ResolvedImageProcess.argv p) ∧
    (sum_of len (ResolvedImageProcess.argv p) ≤ MAX_CONTROL_PAYLOAD / 2)%N;
  sizes_env : (len (ResolvedImageProcess.env p) ≤ MAX_ENV_COUNT)%N ∧
    Forall (λ e, len e ≤ MAX_ENV_LENGTH)%N (ResolvedImageProcess.env p) ∧
    (sum_of len (ResolvedImageProcess.env p) ≤ MAX_CONTROL_PAYLOAD / 2)%N;
  sizes_directory : (len (ResolvedImageProcess.working_dir p) ≤ MAX_PATH_LENGTH)%N;
}.

(** The fields of a START message that a process fills in are well formed. *)
Record startable (p : ResolvedImageProcess.t) : Prop := {
  startable_argv : argv_ok (ResolvedImageProcess.argv p);
  startable_env : env_ok (ResolvedImageProcess.env p);
  startable_cwd : guest_path_ok (ResolvedImageProcess.working_dir p) true;
  startable_gids : (len (UserResolution.supplementary_gids (ResolvedImageProcess.user p)) ≤ MAX_SUPPLEMENTARY_GIDS)%N;
  startable_signal : (1 ≤ ResolvedImageProcess.stop_signal p ≤ 64)%N;
}.

Lemma default_environment_ok hostname : x00 ∉ hostname → Forall entry_ok (default_environment hostname).
Proof.
  intros Hh. repeat constructor.
  - exists (bs "PATH"), DEFAULT_PATH. split_and!; [done|done|]. by apply (bool_decide_unpack _).
  - by apply (bool_decide_unpack _).
  - exists (bs "HOSTNAME"), hostname. split_and!; [done|done|]. by apply (bool_decide_unpack _).
  - rewrite not_elem_of_app. split; [by apply (bool_decide_unpack _)|done].
Qed.

Lemma entry_startable e : (len e ≤ MAX_ENV_LENGTH)%N → entry_ok e → text_ok e MAX_ENV_LENGTH false ∧ environment_ok e.
Proof.
  intros Hl [(key & value & -> & Hk & Heq) Hnul]. split; [split_and!; [done| |done]|].
  - intros _ Hnil. by apply app_eq_nil in Hnil as [_ ?].
  - exists key, value. split_and!; [done..|]. rewrite not_elem_of_app in Hnul. tauto.
Qed.

Lemma runnable_startable argv :
  (len argv ≤ MAX_ARG_COUNT)%N → Forall (λ a, len a ≤ MAX_ARG_LENGTH)%N argv →
  (sum_of len argv ≤ MAX_CONTROL_PAYLOAD / 2)%N → runnable_argv argv → argv_ok argv.
Proof.
  intros Hn Hl Hs [Hnul (program & rest & -> & Hp)]. split_and!; [done|done| | |done].
  - simpl. congruence.
  - apply Forall_forall. intros a Ha. rewrite Forall_forall in Hl. rewrite Forall_forall in Hnul.
    split_and!; [by apply Hl|done|by apply Hnul].
Qed.

Lemma resolves_groups db s r :
  resolves db s r → (len (UserResolution.supplementary_gids r) ≤ MAX_SUPPLEMENTARY_GIDS)%N.
Proof.
  intros [part group user gid _ _ _ _|user l _ _ _ Hl]; simpl; [done|].
  destruct (username user); [by destruct Hl as (_ & ? & _)|by subst].
Qed.

(** A process that is resolved from an admitted image, with a directory that is a guest
    path if the run names one, and within the sizes of START, can be started. *)
Lemma process_startable limits rc config accounts overrides p :
  process_defaults limits rc config → process_of config accounts overrides p →
  x00 ∉ ImageProcessOverrides.hostname overrides →
  (∀ d, ImageProcessOverrides.working_dir overrides = Some d → guest_path_ok d true) →
  start_sizes p → startable p.
Proof.
  intros Hd [(_ & _ & Hrun) Henv Hdir Huser Hsig] Hh Hcwd [(? & ? & ?) (? & Hel & ?) Hpath].
  constructor; [by apply runnable_startable| | |by eapply resolves_groups|].
  - split_and!; [done| |done]. destruct (merge_environment_exact (DockerProcessConfig.env config)
      (ImageProcessOverrides.env overrides) (ImageProcessOverrides.hostname overrides)) as (_ & [Hok _] & _).
    assert (Forall entry_ok (ResolvedImageProcess.env p)) as Hall.
    { eapply merge_environment_Forall; [|done]. apply Forall_app_2; [by apply default_environment_ok|].
      apply Hok. by eexists. }
    apply Forall_forall. intros e He. rewrite Forall_forall in Hel. rewrite Forall_forall in Hall.
    apply entry_startable; [by apply Hel|by apply Hall].
  - rewrite Hdir in Hpath |- *. destruct (ImageProcessOverrides.working_dir overrides) as [d|]; [by apply Hcwd|].
    simpl in *. destruct (defaults_directory _ _ _ Hd) as (_ & Hup & [_ Hnul] & Hwd). rewrite Hwd in Hpath |- *.
    eexists. split_and!; [done|by apply components_normal|done|done|]. by apply nul_path, nul_components.
  - destruct (run_signal config overrides) as [text|]; [by destruct Hsig|]. by rewrite Hsig.
Qed.

Lemma np_realtime_offset v : no_panic (parse_realtime_offset v).
Proof. unfold parse_realtime_offset. np. Qed.
Lemma np_realtime_signal n : no_panic (valid_realtime_signal n).
Proof. unfold valid_realtime_signal. np. Qed.
#[local] Hint Resolve np_realtime_offset np_realtime_signal : no_panic.
Lemma np_signal_of_name debug value name : no_panic (signal_of_name debug value name).
Proof. unfold signal_of_name. np. Qed.
#[local] Hint Resolve np_signal_of_name : no_panic.
Lemma np_parse_signal debug value : no_panic (parse_signal debug value).
Proof. unfold parse_signal, valid_signal. np. Qed.
Lemma np_check_argv argv : no_panic (check_argv argv).
Proof. unfold check_argv, check_argument. destruct argv as [|a l]; [done|]. change (index (a :: l) 0) with (@Ok RuntimeError.t _ a). np. Qed.
Lemma np_select_argv config overrides : no_panic (select_argv config overrides).
Proof. unfold select_argv. destruct (ImageProcessOverrides.argv overrides); np. Qed.
#[local] Hint Resolve np_check_argv np_select_argv : no_panic.
Lemma np_resolve_argv config overrides : no_panic (resolve_argv config overrides).
Proof. unfold resolve_argv. np. Qed.
Lemma np_merge_environment image overrides hostname : no_panic (merge_environment image overrides hostname).
Proof. apply merge_environment_exact. Qed.
#[local] Hint Resolve host_user_returns np_parse_signal np_resolve_argv np_merge_environment : no_panic.
Lemma np_resolve_verified_process debug config accounts overrides :
  no_panic (resolve_verified_process debug config accounts overrides).
Proof. unfold resolve_verified_process. np. Qed.

(** C26: the process of a run.  Whatever an admitted image configures and a run
    overrides, resolving it never panics; when it succeeds, the arguments are those
    Docker's rules select, the environment gives every variable its last definition
    among the defaults, the image and the run, the user is the one the image's accounts
    give, and the signal is one that its text spells.  If the hostname has no NUL byte, a
    working directory that the run overrides is a guest path, and the result is within
    the sizes of START, then it fills in a well-formed START message. *)
Theorem image_process_exact limits debug rc config accounts overrides :
  (VerifyLimits.max_process_entries limits < u64_bound)%N →
  (len (docker_argv config overrides) < u64_bound)%N →
  effective_process limits debug rc = Ok config →
  no_panic (resolve_verified_process debug config accounts overrides) ∧
  ∀ p, resolve_verified_process debug config accounts overrides = Ok p ↔
    validate accounts = Ok () ∧ process_of config accounts overrides p ∧
    (∀ k, in_force (ResolvedImageProcess.env p) k =
      in_force (default_environment (ImageProcessOverrides.hostname overrides) ++ DockerProcessConfig.env config ++
                ImageProcessOverrides.env overrides) k) ∧
    (x00 ∉ ImageProcessOverrides.hostname overrides →
     (∀ d, ImageProcessOverrides.working_dir overrides = Some d → guest_path_ok d true) →
     start_sizes p → startable p).
Proof.
  intros Hmax Hl Hc%effective_process_Ok; [|done]. split.
  - apply np_resolve_verified_process.
  - intros p. rewrite resolve_verified_process_Ok by done. split; [|tauto]. intros [Hv Hp].
    split_and!; [done|done| |by intros; eapply process_startable].
    eapply merge_environment_exact, process_env, Hp.
Qed.

Definition sample_config : RuntimeConfig.t := RuntimeConfig.runtime_config
  (Some [bs "PATH=/bin"; bs "LANG=C"]) (Some [bs "/bin/sh"]) (Some [bs "-c"; bs "true"]) (Some (bs "/srv/./www/"))
  (Some (bs "www")) None (Some (bs "SIGINT")).
Definition sample_defaults : DockerProcessConfig.t := DockerProcessConfig.docker_process_config
  [bs "/bin/sh"] [bs "-c"; bs "true"] [bs "/bin/sh"; bs "-c"; bs "true"] [bs "PATH=/bin"; bs "LANG=C"]
  (bs "/srv/www") (bs "www") [] (Some (bs "SIGINT")).
Definition sample_overrides : ImageProcessOverrides.t := ImageProcessOverrides.image_process_overrides
  (ImageArgv.ReplaceCmd [bs "-i"]) None [bs "LANG=fr"] (bs "box") None None None.
Definition sample_process : ResolvedImageProcess.t := ResolvedImageProcess.resolved_image_process
  [bs "/bin/sh"; bs "-i"] [bs "PATH=/bin"; bs "HOSTNAME=box"; bs "LANG=fr"] (bs "/srv/www")
  (UserResolution.user_resolution 2 33 33 [29%N]) 2.

Lemma image_process_exact_witness :
  resolve_verified_process id sample_defaults sample_accounts sample_overrides = Ok sample_process ∧
  startable sample_process.
Proof.
  assert (resolve_verified_process id sample_defaults sample_accounts sample_overrides = Ok sample_process) as H
    by (vm_compute; reflexivity).
  destruct (image_process_exact VerifyLimits.default id (Some sample_config) sample_defaults sample_accounts
    sample_overrides) as [_ Hp]; [vm_compute; reflexivity..|].
  split; [exact H|]. apply Hp in H as (_ & _ & _ & Hs). apply Hs.
  - apply (bool_decide_unpack _). vm_compute. exact I.
  - intros d. discriminate.
  - constructor; [split_and!..|]; try (apply (bool_decide_unpack _); vm_compute; exact I).
Defined.
