(* ===== verification/Parameters.v ===== *)
(** * Parameters in texts

    Rust's [split_ascii_whitespace], and the loop that several readers share: each line
    or word of a text gives at most one key with its value, and a key that is given twice
    is refused.  The kernel configuration of a profile and the command lines of the three
    guests are read this way. *)

From stdpp Require Import gmap.
From S2P Require Import Prelude RustStr NoPanic.

#[local] Arguments bs : simpl never.

(** [u8::is_ascii_whitespace] *)
Definition is_ascii_whitespace (b : byte) : Prop := b = x20 ∨ b = x09 ∨ b = x0a ∨ b = x0c ∨ b = x0d.
#[export] Instance is_ascii_whitespace_dec b : Decision (is_ascii_whitespace b).
Proof. unfold is_ascii_whitespace. apply _. Defined.

(** The pieces between whitespace, the empty ones included *)
Fixpoint split_whitespace (s : bytes) : list bytes :=
  match s with
  | [] => [[]]
  | b :: s =>
      if decide (is_ascii_whitespace b) then [] :: split_whitespace s
      else match split_whitespace s with
           | [] => [[b]]
           | h :: t => (b :: h) :: t
           end
  end.

(** [str::split_ascii_whitespace] *)
Definition split_ascii_whitespace (s : bytes) : list bytes := filter (λ word, word ≠ []) (split_whitespace s).

(** The key and the value of a word [key=value] whose key has the prefix *)
Definition parameter (prefix token : bytes) : option (bytes * bytes) :=
  match split_once x3d token with
  | Some (key, value) => if decide (is_Some (strip_prefix prefix key)) then Some (key, value) else None
  | None => None
  end.

Section unique.
Context {E A : Type} (parse : A → option (bytes * bytes)) (duplicate : bytes → E).

(** One round of a loop that inserts into a [BTreeMap] and refuses a key that is there. *)
Definition insert_unique (values : gmap bytes bytes) (a : A) : result E (gmap bytes bytes) :=
  match parse a with
  | Some (key, value) =>
      if decide (is_Some (values !! key)) then Err (duplicate key) else Ok (<[key := value]> values)
  | None => Ok values
  end.

Lemma insert_unique_from values l collected :
  fold_result insert_unique values l = Ok collected ↔
  NoDup (omap parse l).*1 ∧ (∀ k, k ∈ (omap parse l).*1 → values !! k = None) ∧
  collected = list_to_map (omap parse l) ∪ values.
Proof.
  revert values. induction l as [|a l IH]; intros values.
  { cbn [fold_result omap list_omap fmap list_fmap list_to_map foldr]. rewrite ok_inj, (left_id_L ∅ (∪)). split; [|naive_solver].
    intros <-. split_and!; [constructor|set_solver|done]. }
  cbn [fold_result omap list_omap]. rewrite bind_ok. unfold insert_unique at 1.
  destruct (parse a) as [[k v]|]; [|setoid_rewrite ok_inj; split; [intros (? & <- & H); by apply IH|intros H; eexists; split; [done|by apply IH]]].
  cbn [fmap list_fmap fst list_to_map foldr curry]. setoid_rewrite guard_ok. setoid_rewrite ok_inj. rewrite NoDup_cons. split.
  - intros (s & [Hn <-] & (Hnd & Hnew & ->)%IH). apply eq_None_not_Some in Hn.
    assert (k ∉ (omap parse l).*1) as Hk.
    { intros Hk. specialize (Hnew k Hk). by rewrite lookup_insert_eq in Hnew. }
    split_and!; [done|done| |].
    + intros k' [->|Hk']%elem_of_cons; [done|]. specialize (Hnew k' Hk'). by apply lookup_insert_None in Hnew as [? _].
    + rewrite <- insert_union_r, insert_union_l; [done|]. by apply not_elem_of_list_to_map_1.
  - intros ([Hk Hnd] & Hnew & ->). eexists. split; [split; [|done]|].
    + apply eq_None_not_Some, Hnew, elem_of_cons. by left.
    + apply IH. split_and!; [done| |].
      * intros k' Hk'. rewrite lookup_insert_ne by (intros ->; done). apply Hnew, elem_of_cons. by right.
      * rewrite <- insert_union_r, insert_union_l; [done|]. by apply not_elem_of_list_to_map_1.
Qed.

(** The loop collects the parameters when no key occurs twice. *)
Lemma insert_unique_Ok l collected :
  fold_result insert_unique ∅ l = Ok collected ↔
  NoDup (omap parse l).*1 ∧ collected = list_to_map (omap parse l).
Proof. rewrite insert_unique_from, (right_id_L ∅ (∪)). naive_solver. Qed.

Lemma insert_unique_bind {B} (k : gmap bytes bytes → result E B) l r :
  fold_result insert_unique ∅ l ≫= k = Ok r ↔ NoDup (omap parse l).*1 ∧ k (list_to_map (omap parse l)) = Ok r.
Proof.
  rewrite bind_ok. setoid_rewrite insert_unique_Ok. naive_solver.
Qed.

Lemma np_insert_unique values a : no_panic (insert_unique values a).
Proof. unfold insert_unique. destruct (parse a) as [[]|]; np. Qed.
End unique.
#[export] Hint Resolve np_insert_unique : no_panic.

(** A check in front of each round. *)
Lemma fold_checked_Ok {E A B} (check : A → result E ()) (f : B → A → result E B) b l r :
  fold_result (λ b a, check a;; f b a) b l = Ok r ↔ each check l = Ok () ∧ fold_result f b l = Ok r.
Proof.
  revert b. induction l as [|a l IH]; intros b; cbn [fold_result each]; [tauto|].
  rewrite bind_ok, bind_unit_ok. setoid_rewrite bind_unit_ok. setoid_rewrite IH. split.
  - intros (b' & [Hc Hf] & Hr & Hl). split; [by split|]. rewrite bind_ok. eauto.
  - intros [[Hc Hr] (b' & Hf & Hl)%bind_ok]. eauto.
Qed.

Lemma insert_checked_bind {E A B} (check : A → result E ()) (parse : A → option (bytes * bytes)) (duplicate : bytes → E) (k : gmap bytes bytes → result E B) l r :
  fold_result (λ values a, check a;; insert_unique parse duplicate values a) ∅ l ≫= k = Ok r ↔
  Forall (λ a, check a = Ok ()) l ∧ NoDup (omap parse l).*1 ∧ k (list_to_map (omap parse l)) = Ok r.
Proof.
  rewrite bind_ok. setoid_rewrite fold_checked_Ok. setoid_rewrite insert_unique_Ok. rewrite <- each_ok. naive_solver.
Qed.

(** ** Words *)
Lemma split_whitespace_not_nil s : split_whitespace s ≠ [].
Proof. destruct s as [|b s]; simpl; [done|]. case_decide; [done|]. by destruct (split_whitespace s). Qed.

Lemma split_whitespace_app word b s :
  Forall (λ b, ¬ is_ascii_whitespace b) word → is_ascii_whitespace b →
  split_whitespace (word ++ b :: s) = word :: split_whitespace s.
Proof.
  intros Hw Hb. induction Hw as [|c word Hc _ IH]; cbn [app split_whitespace]; [by rewrite decide_True|].
  by rewrite decide_False, IH.
Qed.

Lemma split_whitespace_word word :
  Forall (λ b, ¬ is_ascii_whitespace b) word → split_whitespace word = [word].
Proof. intros Hw. induction Hw as [|c word Hc _ IH]; cbn [split_whitespace]; [done|]. by rewrite decide_False, IH. Qed.

(** What a command line can pass on unchanged *)
Definition is_word (word : bytes) : Prop := word ≠ [] ∧ Forall (λ b, ¬ is_ascii_whitespace b) word.
#[export] Instance is_word_dec word : Decision (is_word word).
Proof. unfold is_word. apply _. Defined.

(** Words joined by blanks are read back. *)
Lemma split_join_words words :
  Forall is_word words → split_ascii_whitespace (join x20 words) = words.
Proof.
  unfold split_ascii_whitespace. induction 1 as [|word words [Hne Hw] Hws IH]; [done|].
  destruct words as [|word' words].
  - cbn [join]. rewrite split_whitespace_word by done. by rewrite filter_cons_True.
  - rewrite join_cons by done. rewrite split_whitespace_app by (done || by left).
    by rewrite filter_cons_True, IH.
Qed.

Lemma parameter_Some prefix token key value :
  parameter prefix token = Some (key, value) ↔
  token = key ++ (x3d :: value) ∧ (x3d ∉ key) ∧ ∃ rest, key = prefix ++ rest.
Proof.
  unfold parameter. destruct (split_once x3d token) as [[k v]|] eqn:Hs.
  - apply split_once_Some in Hs as [-> Hk]. split.
    + case_decide as Hp; [|done]. intros [= <- <-]. destruct Hp as [rest Hp%strip_prefix_Some]. by eauto.
    + intros (Heq & Hk' & rest & Hp). assert (k = key ∧ v = value) as [-> ->].
      { assert (split_once x3d (k ++ x3d :: v) = Some (key, value)) as Hs' by (by apply split_once_Some).
        rewrite (proj2 (split_once_Some _ _ k v)) in Hs' by done. by simplify_eq. }
      rewrite decide_True; [done|]. exists rest. by apply strip_prefix_Some.
  - apply split_once_None in Hs. split; [done|]. intros (-> & _). set_solver.
Qed.

Lemma parameter_eq prefix rest value :
  x3d ∉ prefix ++ rest → parameter prefix ((prefix ++ rest) ++ (x3d :: value)) = Some (prefix ++ rest, value).
Proof. intros. apply parameter_Some. eauto. Qed.
