(* ===== verification/GuestConfig.v ===== *)
(** * Boot contracts of the three guests

    crates/pocket-init/src/config.rs, crates/pocket-builder-init/src/config.rs and
    crates/pocket-validator-init/src/config.rs: each init program reads its parameters
    from the kernel's command line.  [option_env!] values are those of the build of the
    program, an argument, as is the target of the build.  For each reader, the theorem
    says which command lines it accepts and what it takes from them. *)

From stdpp Require Import gmap.
From S2P Require Import Prelude RustStr ByteOrder ManagedPath ProtocolError Payload Message NoPanic InitError GuestErrors HexText Parameters.

#[local] Arguments bs : simpl never.
#[local] Arguments len : simpl never.

Section shared.
Context {E : Type} (contract : bytes → E).

(** [for key in values.keys() { if !known.contains(key) { return Err(..) } }]; the keys
    of a [BTreeMap] come in order *)
Definition check_known (message : string) (known : list string) (values : gmap bytes bytes) : result E () :=
  each (λ key, if decide (key ∉ bs <$> known) then Err (contract (bs message ++ key)) else Ok ())
    (sort (map_to_list values).*1).

Definition value_or (values : gmap bytes bytes) (key fallback : string) : bytes :=
  default (bs fallback) (values !! bs key).

Definition duplicate_parameter (key : bytes) : E := contract (bs "duplicate " ++ key ++ bs " parameter").

(** A parameter, or else what the program was built with *)
Definition given_or_compiled (values : gmap bytes bytes) (key : string) (compiled : option bytes) (missing : bytes) : result E bytes :=
  ok_or (values !! bs key ∪ compiled) (contract missing).
End shared.

(** The architecture that [cfg(target_arch)] selects *)
Definition compile_oci_architecture (target_arch : string) : bytes :=
  if decide (target_arch = "x86_64")%string then bs "amd64" else
  if decide (target_arch = "aarch64")%string then bs "arm64" else
  bs "unsupported".

Definition is_dot_component (component : bytes) : Prop := component = [] ∨ component = bs "." ∨ component = bs "..".
#[export] Instance is_dot_component_dec component : Decision (is_dot_component component).
Proof. unfold is_dot_component. apply _. Defined.

(** ** The workload guest *)
Module TtyPaths.
Record t : Set := mk { control : bytes; stdin : bytes; stdout : bytes; stderr : bytes }.
End TtyPaths.

Module GuestConfig.
Record t : Set := mk {
  ttys : TtyPaths.t;
  root_device : bytes;
  volume_mount : bytes;
  newroot_mount : bytes;
  guest_contract_id : bytes;
  init_build_id : bytes;
  kernel_build_id : bytes;
  expected_cpus : N;
  expected_memory_bytes : N;
  expected_oci_architecture : bytes;
  cpu_state_hwcap_policy : bytes;
  guest_capability_policy : bytes;
  expected_root_layout : bytes;
  expected_filesystem_contract : bytes;
}.

Definition KNOWN_POCKET_KEYS : list string :=
  ["pocket.control"; "pocket.stdin"; "pocket.stdout"; "pocket.stderr"; "pocket.root_device"; "pocket.volume";
   "pocket.newroot"; "pocket.guest_contract_id"; "pocket.init_build_id"; "pocket.kernel_build_id";
   "pocket.expected_cpus"; "pocket.expected_memory_bytes"; "pocket.expected_architecture";
   "pocket.cpu_state_hwcap_policy"; "pocket.guest_capability_policy"; "pocket.root_layout";
   "pocket.filesystem_contract"]%string.

Definition contract (diagnostic : bytes) : InitError.t := InitError.Contract "cmdline" diagnostic.

Definition is_leaked (token : bytes) : Prop :=
  is_Some (strip_prefix (bs "ncpus=") token) ∨ is_Some (strip_prefix (bs "mem=") token).
#[export] Instance is_leaked_dec token : Decision (is_leaked token).
Proof. unfold is_leaked. apply _. Defined.

Definition check_leaked (token : bytes) : result InitError.t () :=
  if decide (is_leaked token)
  then Err (contract (bs "UML-only ncpus/mem option unexpectedly leaked into guest cmdline")) else Ok ().

Definition required_identity (values : gmap bytes bytes) (key : string) (compile_value : option bytes) : result InitError.t bytes :=
  value ← given_or_compiled contract values key compile_value (bs "missing required non-circular identity " ++ bs key);
  if decide (len value ≠ 64%N ∨ ¬ Forall is_lower_hex value)
  then Err (contract (bs key ++ bs " must be 64 lowercase hexadecimal characters")) else
  Ok value.

Definition parse_cpu_count (value : bytes) : result InitError.t N :=
  if decide (value = [] ∨ ¬ Forall is_ascii_digit value)
  then Err (contract (bs "expected CPU count must be an unsigned decimal integer")) else
  parsed ← ok_or (parse_uint u16_bound value) (contract (bs "expected CPU count does not fit in u16"));
  if decide (¬ (1 ≤ parsed ≤ 64)%N) then Err (contract (bs "expected CPU count must be in 1..=64")) else
  Ok parsed.

Definition parse_memory_bytes (value : bytes) : result InitError.t N :=
  if decide (value = [] ∨ ¬ Forall is_ascii_digit value)
  then Err (contract (bs "expected memory must be an unsigned decimal byte count")) else
  parsed ← ok_or (parse_uint u64_bound value) (contract (bs "expected memory byte count does not fit in u64"));
  if decide (parsed = 0%N ∨ ¬ is_multiple_of parsed 4096)
  then Err (contract (bs "expected memory must be nonzero and 4096-byte aligned")) else
  Ok parsed.

Definition required_policy_identity (values : gmap bytes bytes) (key : string) (compile_value : option bytes) :
    result InitError.t bytes :=
  value ← given_or_compiled contract values key compile_value (bs "missing required policy identity " ++ bs key);
  if decide (value = [] ∨ (128 < len value)%N ∨ ¬ Forall is_token_byte value)
  then Err (contract (bs key ++ bs " must be a 1..=128 byte ASCII policy token")) else
  Ok value.

Definition validate_absolute_path (entry : string * bytes) : result InitError.t () :=
  let '(field, value) := entry in
  if decide ((4096 < len value)%N ∨ x00 ∈ value ∨ ¬ is_absolute value)
  then Err (contract (bs field ++ bs " must be an absolute path without NUL")) else
  let relative := default [] (strip_prefix [x2f] value) in
  if decide (relative = [] ∨ Exists is_dot_component (split x2f relative))
  then Err (contract (bs field ++ bs " must use normalized lexical form")) else
  Ok ().

Definition tty_list (ttys : TtyPaths.t) : list bytes :=
  [TtyPaths.control ttys; TtyPaths.stdin ttys; TtyPaths.stdout ttys; TtyPaths.stderr ttys].

(** The last loop looks for each path among those before it. *)
Definition validate_ttys (ttys : TtyPaths.t) : result InitError.t () :=
  each validate_absolute_path
    (zip ["pocket.control"; "pocket.stdin"; "pocket.stdout"; "pocket.stderr"]%string (tty_list ttys));;
  each_unique (λ _, Ok ()) id (contract (bs "control and standard-stream TTY paths must be distinct")) (tty_list ttys).

Section cmdline.
Context (option_env : string → option bytes) (target_arch : string) (debug : bytes → bytes).

Definition parse_cmdline (cmdline : bytes) : result InitError.t t :=
  values ← fold_result
    (λ values token, check_leaked token;; insert_unique (parameter (bs "pocket.")) (duplicate_parameter contract) values token)
    ∅ (split_ascii_whitespace cmdline);
  check_known contract "unknown Pocket kernel parameter " KNOWN_POCKET_KEYS values;;
  let ttys := TtyPaths.mk (value_or values "pocket.control" "/dev/ttyS0") (value_or values "pocket.stdin" "/dev/ttyS1")
    (value_or values "pocket.stdout" "/dev/ttyS2") (value_or values "pocket.stderr" "/dev/ttyS3") in
  validate_ttys ttys;;
  let root_device := value_or values "pocket.root_device" "/dev/ubda" in
  let volume_mount := value_or values "pocket.volume" "/volume" in
  let newroot_mount := value_or values "pocket.newroot" "/newroot" in
  each validate_absolute_path
    [("pocket.root_device", root_device); ("pocket.volume", volume_mount); ("pocket.newroot", newroot_mount)]%string;;
  if decide (volume_mount = newroot_mount) then Err (contract (bs "volume and newroot mount points must differ")) else
  guest_contract_id ← required_identity values "pocket.guest_contract_id" (option_env "POCKET_GUEST_CONTRACT_ID");
  init_build_id ← required_identity values "pocket.init_build_id" (option_env "POCKET_INIT_BUILD_ID");
  kernel_build_id ← required_identity values "pocket.kernel_build_id" (option_env "POCKET_KERNEL_BUILD_ID");
  cpus_text ← ok_or (values !! bs "pocket.expected_cpus") (contract (bs "missing required pocket.expected_cpus parameter"));
  expected_cpus ← parse_cpu_count cpus_text;
  memory_text ← ok_or (values !! bs "pocket.expected_memory_bytes")
    (contract (bs "missing required pocket.expected_memory_bytes parameter"));
  expected_memory_bytes ← parse_memory_bytes memory_text;
  cpu_state_hwcap_policy ← required_policy_identity values "pocket.cpu_state_hwcap_policy"
    (option_env "POCKET_CPU_STATE_HWCAP_POLICY");
  guest_capability_policy ← required_policy_identity values "pocket.guest_capability_policy"
    (option_env "POCKET_GUEST_CAPABILITY_POLICY");
  let architecture := default (compile_oci_architecture target_arch) (values !! bs "pocket.expected_architecture") in
  if decide (architecture ≠ compile_oci_architecture target_arch)
  then Err (contract (bs "configured architecture " ++ debug architecture ++ bs " does not match this " ++
                      compile_oci_architecture target_arch ++ bs " build")) else
  Ok (mk ttys root_device volume_mount newroot_mount guest_contract_id init_build_id kernel_build_id expected_cpus
        expected_memory_bytes architecture cpu_state_hwcap_policy guest_capability_policy
        (value_or values "pocket.root_layout" "pocket-root-v1")
        (value_or values "pocket.filesystem_contract" "ext4-v1-b4096")).
End cmdline.

Definition image_root (self : t) : bytes := volume_mount self ++ bs "/rootfs".
Definition generation_marker_path (self : t) : bytes := volume_mount self ++ bs "/.pocket-generation.cbor".
End GuestConfig.

(** ** The builder guest *)
Module BuilderConfig.
Record t : Set := mk {
  control_path : bytes;
  guest_contract_id : bytes;
  init_build_id : bytes;
  kernel_build_id : bytes;
  expected_oci_architecture : bytes;
  expected_page_size : N;
  expected_physmem_bytes : N;
  cpu_state_hwcap_policy : bytes;
  expected_root_layout : bytes;
  expected_filesystem_contract : bytes;
  expected_manifest_schema : bytes;
}.

Definition KNOWN_KEYS : list string :=
  ["pocket.builder.control"; "pocket.builder.cpu_state_hwcap_policy"; "pocket.builder.expected_architecture";
   "pocket.builder.expected_cpus"; "pocket.builder.expected_page_size"; "pocket.builder.expected_memory_bytes";
   "pocket.builder.filesystem_contract"; "pocket.builder.guest_contract_id"; "pocket.builder.init_build_id";
   "pocket.builder.kernel_build_id"; "pocket.builder.manifest_schema"; "pocket.builder.root_layout"]%string.

Definition contract (diagnostic : bytes) : BuilderError.t := BuilderError.Contract "cmdline" diagnostic.

Definition required (values : gmap bytes bytes) (key : string) : result BuilderError.t bytes :=
  ok_or (values !! bs key) (contract (bs "missing required " ++ bs key)).

Definition validate_sha256 (field : string) (value : bytes) : result BuilderError.t () :=
  if decide (len value ≠ 64%N ∨ ¬ Forall is_lower_hex value)
  then Err (contract (bs field ++ bs " must be 64 lowercase hexadecimal characters")) else Ok ().

Definition required_identity (values : gmap bytes bytes) (key : string) (compile_value : option bytes) : result BuilderError.t bytes :=
  value ← given_or_compiled contract values key compile_value (bs "missing required non-circular identity " ++ bs key);
  validate_sha256 key value;;
  Ok value.

Definition parse_page_size (value : bytes) : result BuilderError.t N :=
  parsed ← ok_or (parse_uint u32_bound value) (contract (bs "expected page size is not an unsigned integer"));
  if decide (¬ (4096 ≤ parsed ≤ 65536)%N ∨ ¬ is_power_of_two parsed)
  then Err (contract (bs "expected page size must be a supported power of two")) else
  Ok parsed.

Definition validate_memory (bytes : N) : result BuilderError.t () :=
  if decide (¬ (64 * 1024 * 1024 ≤ bytes ≤ 1024 * 1024 * 1024 * 1024)%N ∨ ¬ is_multiple_of bytes 4096)
  then Err (contract (bs "builder memory must be 64 MiB..=1 TiB and 4096-byte aligned")) else Ok ().

Definition parse_decimal_memory (value : bytes) : result BuilderError.t N :=
  parsed ← ok_or (parse_uint u64_bound value) (contract (bs "expected physical memory must be decimal bytes"));
  validate_memory parsed;;
  Ok parsed.

Definition validate_absolute_path (field : string) (value : bytes) : result BuilderError.t () :=
  if decide (¬ starts_with x2f value ∨ value = bs "/" ∨ x00 ∈ value ∨ Exists is_dot_component (drop 1 (split x2f value)))
  then Err (contract (bs field ++ bs " must be a normalized non-root absolute path")) else Ok ().

Definition validate_token (field : string) (value : bytes) : result BuilderError.t () :=
  if decide (value = [] ∨ (128 < len value)%N ∨ ¬ Forall is_token_byte value)
  then Err (contract (bs field ++ bs " is not a bounded identifier")) else Ok ().

Section cmdline.
Context (option_env : string → option bytes) (target_arch : string) (debug : bytes → bytes).

Definition parse_cmdline (cmdline : bytes) : result BuilderError.t t :=
  values ← fold_result (insert_unique (parameter (bs "pocket.builder.")) (duplicate_parameter contract))
    ∅ (split_ascii_whitespace cmdline);
  check_known contract "unknown Pocket builder parameter " KNOWN_KEYS values;;
  cpus ← required values "pocket.builder.expected_cpus";
  if decide (cpus ≠ bs "1") then Err (contract (bs "pocket.builder.expected_cpus must be exactly one")) else
  let control_path := value_or values "pocket.builder.control" "/dev/ttyS0" in
  validate_absolute_path "pocket.builder.control" control_path;;
  guest_contract_id ← required_identity values "pocket.builder.guest_contract_id" (option_env "POCKET_BUILDER_GUEST_CONTRACT_ID");
  init_build_id ← required_identity values "pocket.builder.init_build_id" (option_env "POCKET_BUILDER_INIT_BUILD_ID");
  kernel_build_id ← required_identity values "pocket.builder.kernel_build_id" (option_env "POCKET_BUILDER_KERNEL_BUILD_ID");
  let architecture := default (compile_oci_architecture target_arch) (values !! bs "pocket.builder.expected_architecture") in
  if decide (architecture ≠ compile_oci_architecture target_arch)
  then Err (contract (bs "configured architecture " ++ debug architecture ++ bs " does not match this " ++
                      compile_oci_architecture target_arch ++ bs " build")) else
  page_text ← required values "pocket.builder.expected_page_size";
  expected_page_size ← parse_page_size page_text;
  memory_text ← required values "pocket.builder.expected_memory_bytes";
  requested_memory ← parse_decimal_memory memory_text;
  cpu_state_hwcap_policy ← given_or_compiled contract values "pocket.builder.cpu_state_hwcap_policy"
    (option_env "POCKET_BUILDER_CPU_STATE_HWCAP_POLICY") (bs "missing required pocket.builder.cpu_state_hwcap_policy");
  validate_token "pocket.builder.cpu_state_hwcap_policy" cpu_state_hwcap_policy;;
  let root_layout := value_or values "pocket.builder.root_layout" "pocket-root-v1" in
  let filesystem_contract := value_or values "pocket.builder.filesystem_contract" "ext4-v1-b4096" in
  validate_token "pocket.builder.root_layout" root_layout;;
  validate_token "pocket.builder.filesystem_contract" filesystem_contract;;
  let manifest_schema := value_or values "pocket.builder.manifest_schema" "pocket-fs-manifest-v1" in
  validate_token "pocket.builder.manifest_schema" manifest_schema;;
  Ok (mk control_path guest_contract_id init_build_id kernel_build_id architecture expected_page_size requested_memory
        cpu_state_hwcap_policy root_layout filesystem_contract manifest_schema).
End cmdline.
End BuilderConfig.

(** ** The validator guest *)
Module ValidatorConfig.
Record t : Set := mk {
  control_path : bytes;
  guest_contract_id : bytes;
  init_build_id : bytes;
  kernel_build_id : bytes;
  expected_oci_architecture : bytes;
  expected_page_size : N;
  expected_physmem_bytes : N;
  cpu_state_hwcap_policy : bytes;
  expected_root_layout : bytes;
  expected_filesystem_contract : bytes;
  expected_manifest_schema : bytes;
}.

Definition KNOWN_KEYS : list string :=
  ["pocket.validator.control"; "pocket.validator.cpu_state_hwcap_policy"; "pocket.validator.expected_architecture";
   "pocket.validator.expected_cpus"; "pocket.validator.expected_memory_bytes"; "pocket.validator.expected_page_size";
   "pocket.validator.filesystem_contract"; "pocket.validator.guest_contract_id"; "pocket.validator.init_build_id";
   "pocket.validator.kernel_build_id"; "pocket.validator.manifest_schema"; "pocket.validator.root_layout"]%string.

Definition contract (diagnostic : bytes) : ValidatorError.t := ValidatorError.Contract "cmdline" diagnostic.

Definition required (values : gmap bytes bytes) (key : string) : result ValidatorError.t bytes :=
  ok_or (values !! bs key) (contract (bs "missing required " ++ bs key)).

Definition required_or_compile (values : gmap bytes bytes) (key : string) (compiled : option bytes) : result ValidatorError.t bytes :=
  given_or_compiled contract values key compiled (bs "missing required " ++ bs key).

Definition validate_sha256 (field : string) (value : bytes) : result ValidatorError.t () :=
  if decide (len value ≠ 64%N ∨ ¬ Forall is_lower_hex value)
  then Err (contract (bs field ++ bs " is not a lowercase SHA-256")) else Ok ().

Definition required_identity (values : gmap bytes bytes) (key : string) (compiled : option bytes) : result ValidatorError.t bytes :=
  value ← given_or_compiled contract values key compiled (bs "missing required identity " ++ bs key);
  validate_sha256 key value;;
  Ok value.

Definition parse_page_size (value : bytes) : result ValidatorError.t N :=
  parsed ← ok_or (parse_uint u32_bound value) (contract (bs "expected page size is not an unsigned integer"));
  if decide (¬ (4096 ≤ parsed ≤ 65536)%N ∨ ¬ is_power_of_two parsed)
  then Err (contract (bs "expected page size is unsupported")) else
  Ok parsed.

Definition parse_memory (value : bytes) : result ValidatorError.t N :=
  parsed ← ok_or (parse_uint u64_bound value) (contract (bs "expected memory is not an unsigned integer"));
  if decide (¬ (64 * 1024 * 1024 ≤ parsed ≤ 1024 * 1024 * 1024 * 1024)%N ∨ ¬ is_multiple_of parsed 4096)
  then Err (contract (bs "expected memory is outside the validator contract")) else
  Ok parsed.

Definition validate_absolute_path (field : string) (value : bytes) : result ValidatorError.t () :=
  if decide (¬ starts_with x2f value ∨ value = bs "/" ∨ x00 ∈ value ∨ Exists is_dot_component (drop 1 (split x2f value)))
  then Err (contract (bs field ++ bs " is not a normalized non-root absolute path")) else Ok ().

Definition validate_token (field : string) (value : bytes) : result ValidatorError.t () :=
  if decide (value = [] ∨ (128 < len value)%N ∨ ¬ Forall is_token_byte value)
  then Err (contract (bs field ++ bs " is not a bounded token")) else Ok ().

Section cmdline.
Context (option_env : string → option bytes) (target_arch : string).

Definition parse_cmdline (cmdline : bytes) : result ValidatorError.t t :=
  values ← fold_result (insert_unique (parameter (bs "pocket.validator.")) (duplicate_parameter contract))
    ∅ (split_ascii_whitespace cmdline);
  check_known contract "unknown Pocket validator parameter " KNOWN_KEYS values;;
  cpus ← required values "pocket.validator.expected_cpus";
  if decide (cpus ≠ bs "1") then Err (contract (bs "pocket.validator.expected_cpus must be exactly one")) else
  let control_path := value_or values "pocket.validator.control" "/dev/ttyS0" in
  validate_absolute_path "pocket.validator.control" control_path;;
  let architecture := default (compile_oci_architecture target_arch) (values !! bs "pocket.validator.expected_architecture") in
  if decide (architecture ≠ compile_oci_architecture target_arch)
  then Err (contract (bs "validator architecture differs from the compiled architecture")) else
  page_text ← required values "pocket.validator.expected_page_size";
  expected_page_size ← parse_page_size page_text;
  memory_text ← required values "pocket.validator.expected_memory_bytes";
  expected_physmem_bytes ← parse_memory memory_text;
  cpu_state_hwcap_policy ← required_or_compile values "pocket.validator.cpu_state_hwcap_policy"
    (option_env "POCKET_VALIDATOR_CPU_STATE_HWCAP_POLICY");
  validate_token "pocket.validator.cpu_state_hwcap_policy" cpu_state_hwcap_policy;;
  let root_layout := value_or values "pocket.validator.root_layout" "pocket-root-v1" in
  let filesystem_contract := value_or values "pocket.validator.filesystem_contract" "ext4-v1-b4096" in
  let manifest_schema := value_or values "pocket.validator.manifest_schema" "pocket-fs-manifest-v1" in
  each (λ '(field, value), validate_token field value)
    [("pocket.validator.root_layout", root_layout); ("pocket.validator.filesystem_contract", filesystem_contract);
     ("pocket.validator.manifest_schema", manifest_schema)]%string;;
  guest_contract_id ← required_identity values "pocket.validator.guest_contract_id" (option_env "POCKET_VALIDATOR_GUEST_CONTRACT_ID");
  init_build_id ← required_identity values "pocket.validator.init_build_id" (option_env "POCKET_VALIDATOR_INIT_BUILD_ID");
  kernel_build_id ← required_identity values "pocket.validator.kernel_build_id" (option_env "POCKET_VALIDATOR_KERNEL_BUILD_ID");
  Ok (mk control_path guest_contract_id init_build_id kernel_build_id architecture expected_page_size
        expected_physmem_bytes cpu_state_hwcap_policy root_layout filesystem_contract manifest_schema).
End cmdline.
End ValidatorConfig.

(** ** What is accepted *)
Section given.
Context (given : list (bytes * bytes)).

(** The value of a parameter, or the value that stands for it when it is not given *)
Definition setting (key : string) (fallback value : bytes) : Prop :=
  (bs key, value) ∈ given ∨ ((bs key ∉ given.*1) ∧ value = fallback).

Definition setting_or (key : string) (compiled : option bytes) (value : bytes) : Prop :=
  (bs key, value) ∈ given ∨ ((bs key ∉ given.*1) ∧ compiled = Some value).

Context (Hgiven : NoDup given.*1).

Lemma given_lookup key value : (list_to_map given : gmap bytes bytes) !! key = Some value ↔ (key, value) ∈ given.
Proof using Hgiven. symmetry. by apply elem_of_list_to_map. Qed.

Lemma given_missing key : (list_to_map given : gmap bytes bytes) !! key = None ↔ key ∉ given.*1.
Proof using. split; [apply not_elem_of_list_to_map_2|apply not_elem_of_list_to_map_1]. Qed.

Lemma default_setting key fallback value :
  value = default fallback ((list_to_map given : gmap bytes bytes) !! bs key) ↔ setting key fallback value.
Proof using Hgiven.
  unfold setting. rewrite <- given_lookup, <- given_missing.
  destruct ((list_to_map given : gmap bytes bytes) !! bs key) as [v|]; simpl; naive_solver.
Qed.

Lemma given_or_compiled_Ok {E} (contract : bytes → E) key compiled missing value :
  given_or_compiled contract (list_to_map given) key compiled missing = Ok value ↔ setting_or key compiled value.
Proof using Hgiven.
  unfold given_or_compiled, setting_or. rewrite ok_or_ok, <- given_lookup, <- given_missing.
  destruct ((list_to_map given : gmap bytes bytes) !! bs key) as [v|].
  - replace (Some v ∪ compiled) with (Some v) by (by destruct compiled). naive_solver.
  - rewrite (left_id_L None (∪)). naive_solver.
Qed.

Lemma check_known_Ok {E} (contract : bytes → E) message known :
  check_known contract message known (list_to_map given) = Ok () ↔ given.*1 ⊆ bs <$> known.
Proof using Hgiven.
  unfold check_known. rewrite each_ok. setoid_rewrite guard_ok. split.
  - intros H key Hkey. rewrite Forall_forall in H. apply dec_stable, (H key). unfold sort. rewrite sort_by_perm.
    by rewrite map_to_list_to_map.
  - intros H. apply Forall_forall. intros key Hkey. unfold sort in Hkey. rewrite sort_by_perm, map_to_list_to_map in Hkey by done.
    split; [|done]. intros Hn. by apply Hn, H.
Qed.
End given.

(** An absolute path that is not the root and has no empty, [.] or [..] component *)
Definition normal_path (path : bytes) : Prop :=
  ∃ relative, path = x2f :: relative ∧ Forall (λ c, ¬ is_dot_component c) (split x2f relative).

Lemma normal_path_absolute path :
  is_absolute path ∧ ¬ (default [] (strip_prefix [x2f] path) = [] ∨
    Exists is_dot_component (split x2f (default [] (strip_prefix [x2f] path)))) ↔ normal_path path.
Proof.
  unfold normal_path, is_absolute. destruct path as [|b relative]; [split; [by intros []|by intros (? & ? & _)]|].
  cbn [head strip_prefix]. case_decide as Hb; [subst b|split; [intros []; congruence|intros (? & ? & _); congruence]].
  change (default [] (strip_prefix [] relative)) with relative. rewrite not_or_and, <- Forall_Exists_neg. split; [naive_solver|].
  intros (r & Heq & Hr). injection Heq as <-. split_and!; [done| |done]. change (relative ≠ []). intros ->.
  apply Forall_cons in Hr as [[] _]. by left.
Qed.

Lemma normal_path_split path :
  starts_with x2f path ∧ path ≠ bs "/" ∧ Forall (λ c, ¬ is_dot_component c) (drop 1 (split x2f path)) ↔ normal_path path.
Proof.
  unfold normal_path, starts_with. destruct path as [|b relative]; [split; [by intros []|by intros (? & ? & _)]|].
  cbn [head split]. case_decide as Hb; [subst b|split; [intros []; congruence|intros (? & ? & _); congruence]].
  cbn [drop]. split; [naive_solver|]. intros (r & Heq & Hr). injection Heq as <-. split_and!; [done| |done].
  intros Heq. injection Heq as ->. apply Forall_cons in Hr as [[] _]. by left.
Qed.

Definition token_bounded (value : bytes) : Prop := value ≠ [] ∧ (len value ≤ 128)%N ∧ Forall is_token_byte value.

(** The guards that the three readers share *)
Section guards.
Context {E A : Type} (e : E) (k : result E A) (a : A).

Lemma hex64_guard_ok value :
  (if decide (len value ≠ 64%N ∨ ¬ Forall is_lower_hex value) then Err e else k) = Ok a ↔ is_hex64 value ∧ k = Ok a.
Proof.
  rewrite guard_ok. unfold is_hex64. apply and_iff_compat_r. rewrite not_or_and.
  split; [by intros [?%dec_stable ?%dec_stable]|tauto].
Qed.

Lemma token_guard_ok value :
  (if decide (value = [] ∨ (128 < len value)%N ∨ ¬ Forall is_token_byte value) then Err e else k) = Ok a ↔
  token_bounded value ∧ k = Ok a.
Proof.
  rewrite guard_ok. unfold token_bounded. apply and_iff_compat_r. rewrite !not_or_and, N.nlt_ge.
  split; [by intros (? & ? & ?%dec_stable)|tauto].
Qed.

Lemma path_guard_ok value :
  (if decide (¬ starts_with x2f value ∨ value = bs "/" ∨ x00 ∈ value ∨ Exists is_dot_component (drop 1 (split x2f value)))
   then Err e else k) = Ok a ↔ ((x00 ∉ value) ∧ normal_path value) ∧ k = Ok a.
Proof.
  rewrite guard_ok. apply and_iff_compat_r. rewrite <- normal_path_split, !not_or_and, Forall_Exists_neg.
  split; [by intros (?%dec_stable & ? & ? & ?)|tauto].
Qed.

Lemma page_guard_ok value :
  (if decide (¬ (4096 ≤ value ≤ 65536)%N ∨ ¬ is_power_of_two value) then Err e else k) = Ok a ↔
  ((4096 ≤ value ≤ 65536)%N ∧ is_power_of_two value) ∧ k = Ok a.
Proof.
  rewrite guard_ok. apply and_iff_compat_r. rewrite not_or_and. split; [by intros [?%dec_stable ?%dec_stable]|tauto].
Qed.

Lemma memory_guard_ok value :
  (if decide (¬ (64 * 1024 * 1024 ≤ value ≤ 1024 * 1024 * 1024 * 1024)%N ∨ ¬ is_multiple_of value 4096) then Err e else k) = Ok a ↔
  ((64 * 1024 * 1024 ≤ value ≤ 1024 * 1024 * 1024 * 1024)%N ∧ is_multiple_of value 4096) ∧ k = Ok a.
Proof.
  rewrite guard_ok. apply and_iff_compat_r. rewrite not_or_and. split; [by intros [?%dec_stable ?%dec_stable]|tauto].
Qed.
End guards.

(** *** The workload guest *)
Definition guest_path_ok (path : bytes) : Prop := (len path ≤ 4096)%N ∧ (x00 ∉ path) ∧ normal_path path.

Lemma guest_path_Ok field path : GuestConfig.validate_absolute_path (field, path) = Ok () ↔ guest_path_ok path.
Proof.
  unfold GuestConfig.validate_absolute_path, guest_path_ok. cbv zeta. rewrite <- normal_path_absolute, !guard_ok.
  rewrite !not_or_and, N.nlt_ge. split; [intros ((? & ? & ?%dec_stable) & (? & ?) & _)|intros (? & ? & ? & [])]; tauto.
Qed.

Lemma tty_paths_Ok ttys :
  GuestConfig.validate_ttys ttys = Ok () ↔ Forall guest_path_ok (GuestConfig.tty_list ttys) ∧ NoDup (GuestConfig.tty_list ttys).
Proof.
  unfold GuestConfig.validate_ttys. rewrite bind_unit_ok, each_ok, each_unique_Ok, list_fmap_id.
  unfold GuestConfig.tty_list. cbn [zip zip_with]. rewrite !Forall_cons, !guest_path_Ok, !Forall_nil. tauto.
Qed.

Section given.
Context (given : list (bytes * bytes)) (Hgiven : NoDup given.*1).

Lemma guest_identity_Ok key compiled value :
  GuestConfig.required_identity (list_to_map given) key compiled = Ok value ↔
  setting_or given key compiled value ∧ is_hex64 value.
Proof using Hgiven.
  unfold GuestConfig.required_identity. rewrite bind_ok. setoid_rewrite given_or_compiled_Ok; [|done].
  setoid_rewrite hex64_guard_ok. setoid_rewrite ok_inj. naive_solver.
Qed.

Lemma guest_policy_Ok key compiled value :
  GuestConfig.required_policy_identity (list_to_map given) key compiled = Ok value ↔
  setting_or given key compiled value ∧ token_bounded value.
Proof using Hgiven.
  unfold GuestConfig.required_policy_identity. rewrite bind_ok. setoid_rewrite given_or_compiled_Ok; [|done].
  setoid_rewrite token_guard_ok. setoid_rewrite ok_inj. naive_solver.
Qed.

End given.

Lemma cpu_count_Ok text value :
  GuestConfig.parse_cpu_count text = Ok value ↔
  text ≠ [] ∧ Forall is_ascii_digit text ∧ dec_value text = value ∧ (1 ≤ value ≤ 64)%N.
Proof.
  unfold GuestConfig.parse_cpu_count. rewrite guard_ok, bind_ok, not_or_and. setoid_rewrite ok_or_ok.
  setoid_rewrite guard_ok. setoid_rewrite ok_inj. split.
  - intros ([? ?%dec_stable] & v & Hv & ?%dec_stable & <-). apply parse_uint_digits in Hv as [-> _]; [done|done..].
  - intros (? & ? & <- & ?). split; [tauto|]. exists (dec_value text). rewrite parse_uint_digits by done.
    split_and!; [done| |tauto|done]. unfold u16_bound. lia.
Qed.

Lemma memory_bytes_Ok text value :
  GuestConfig.parse_memory_bytes text = Ok value ↔
  text ≠ [] ∧ Forall is_ascii_digit text ∧ dec_value text = value ∧ (0 < value < u64_bound)%N ∧ is_multiple_of value 4096.
Proof.
  unfold GuestConfig.parse_memory_bytes. rewrite guard_ok, bind_ok, not_or_and. setoid_rewrite ok_or_ok.
  setoid_rewrite guard_ok. setoid_rewrite ok_inj. setoid_rewrite not_or_and. split.
  - intros ([? ?%dec_stable] & v & Hv & [? ?%dec_stable] & <-). apply parse_uint_digits in Hv as [-> ?]; [|done..].
    split_and!; try done. lia.
  - intros (? & ? & <- & ? & ?). split; [tauto|]. exists (dec_value text). rewrite parse_uint_digits by done.
    split_and!; [done|lia|lia|tauto|done].
Qed.

Section guest.
Context (option_env : string → option bytes) (target_arch : string) (debug : bytes → bytes).

(** A command line with the parameters [given] boots with [config]. *)
Record guest_boots (given : list (bytes * bytes)) (config : GuestConfig.t) : Prop := {
  guest_once : NoDup given.*1;
  guest_known : given.*1 ⊆ bs <$> GuestConfig.KNOWN_POCKET_KEYS;
  guest_control : setting given "pocket.control" (bs "/dev/ttyS0") (TtyPaths.control (GuestConfig.ttys config));
  guest_stdin : setting given "pocket.stdin" (bs "/dev/ttyS1") (TtyPaths.stdin (GuestConfig.ttys config));
  guest_stdout : setting given "pocket.stdout" (bs "/dev/ttyS2") (TtyPaths.stdout (GuestConfig.ttys config));
  guest_stderr : setting given "pocket.stderr" (bs "/dev/ttyS3") (TtyPaths.stderr (GuestConfig.ttys config));
  guest_root : setting given "pocket.root_device" (bs "/dev/ubda") (GuestConfig.root_device config);
  guest_volume : setting given "pocket.volume" (bs "/volume") (GuestConfig.volume_mount config);
  guest_newroot : setting given "pocket.newroot" (bs "/newroot") (GuestConfig.newroot_mount config);
  guest_ttys : Forall guest_path_ok (GuestConfig.tty_list (GuestConfig.ttys config)) ∧
    NoDup (GuestConfig.tty_list (GuestConfig.ttys config));
  guest_mounts : Forall guest_path_ok
    [GuestConfig.root_device config; GuestConfig.volume_mount config; GuestConfig.newroot_mount config] ∧
    GuestConfig.volume_mount config ≠ GuestConfig.newroot_mount config;
  guest_contract : setting_or given "pocket.guest_contract_id" (option_env "POCKET_GUEST_CONTRACT_ID")
    (GuestConfig.guest_contract_id config) ∧ is_hex64 (GuestConfig.guest_contract_id config);
  guest_init : setting_or given "pocket.init_build_id" (option_env "POCKET_INIT_BUILD_ID")
    (GuestConfig.init_build_id config) ∧ is_hex64 (GuestConfig.init_build_id config);
  guest_kernel : setting_or given "pocket.kernel_build_id" (option_env "POCKET_KERNEL_BUILD_ID")
    (GuestConfig.kernel_build_id config) ∧ is_hex64 (GuestConfig.kernel_build_id config);
  guest_cpus : ∃ text, (bs "pocket.expected_cpus", text) ∈ given ∧ text ≠ [] ∧ Forall is_ascii_digit text ∧
    dec_value text = GuestConfig.expected_cpus config ∧ (1 ≤ GuestConfig.expected_cpus config ≤ 64)%N;
  guest_memory : ∃ text, (bs "pocket.expected_memory_bytes", text) ∈ given ∧ text ≠ [] ∧ Forall is_ascii_digit text ∧
    dec_value text = GuestConfig.expected_memory_bytes config ∧
    (0 < GuestConfig.expected_memory_bytes config < u64_bound)%N ∧ is_multiple_of (GuestConfig.expected_memory_bytes config) 4096;
  guest_cpu_policy : setting_or given "pocket.cpu_state_hwcap_policy" (option_env "POCKET_CPU_STATE_HWCAP_POLICY")
    (GuestConfig.cpu_state_hwcap_policy config) ∧ token_bounded (GuestConfig.cpu_state_hwcap_policy config);
  guest_capability : setting_or given "pocket.guest_capability_policy" (option_env "POCKET_GUEST_CAPABILITY_POLICY")
    (GuestConfig.guest_capability_policy config) ∧ token_bounded (GuestConfig.guest_capability_policy config);
  guest_architecture : setting given "pocket.expected_architecture" (compile_oci_architecture target_arch)
    (GuestConfig.expected_oci_architecture config) ∧
    GuestConfig.expected_oci_architecture config = compile_oci_architecture target_arch;
  guest_layout : setting given "pocket.root_layout" (bs "pocket-root-v1") (GuestConfig.expected_root_layout config);
  guest_filesystem : setting given "pocket.filesystem_contract" (bs "ext4-v1-b4096")
    (GuestConfig.expected_filesystem_contract config);
}.

Lemma guest_cmdline_Ok line config :
  GuestConfig.parse_cmdline option_env target_arch debug line = Ok config ↔
  Forall (λ word, ¬ GuestConfig.is_leaked word) (split_ascii_whitespace line) ∧
  guest_boots (omap (parameter (bs "pocket.")) (split_ascii_whitespace line)) config.
Proof.
  unfold GuestConfig.parse_cmdline. rewrite insert_checked_bind. unfold GuestConfig.check_leaked. setoid_rewrite guard_ok.
  generalize (omap (parameter (bs "pocket.")) (split_ascii_whitespace line)) as given. intros given.
  generalize (split_ascii_whitespace line) as words. intros words. cbv zeta. unfold value_or.
  rewrite !bind_unit_ok, tty_paths_Ok, each_ok, guard_ok, !Forall_cons, !guest_path_Ok. split.
  - intros (Hleak & Hnd & Hknown & Httys & Hpaths & Hdiffer & H). split; [by eapply Forall_impl; [exact Hleak|]; intros ? []|].
    apply bind_ok in H as (contract_id & Hcontract & (init_id & Hinit & (kernel_id & Hkernel & H)%bind_ok)%bind_ok).
    apply bind_ok in H as (cpus_text & Hct%ok_or_ok & (cpus & Hcpus & H)%bind_ok).
    apply bind_ok in H as (memory_text & Hmt%ok_or_ok & (memory & Hmemory & H)%bind_ok).
    apply bind_ok in H as (policy & Hpolicy & (capability & Hcapability & H)%bind_ok).
    apply guard_ok in H as [Harch%dec_stable [= <-]].
    rewrite check_known_Ok in Hknown by done. rewrite guest_identity_Ok in Hcontract, Hinit, Hkernel by done.
    rewrite guest_policy_Ok in Hpolicy, Hcapability by done. rewrite given_lookup in Hct, Hmt by done.
    rewrite cpu_count_Ok in Hcpus. rewrite memory_bytes_Ok in Hmemory.
    split; cbn; try done; try (by apply default_setting); [|by eauto..|split; [by apply default_setting|done]].
    rewrite !Forall_cons, Forall_nil. tauto.
  - intros [Hleak [Hnd Hknown Hc Hi Ho He Hr Hv Hn Httys [Hmounts Hdiffer] Hcontract Hinit Hkernel Hcpus Hmemory Hpolicy Hcapability [Ha Harch] Hl Hf]].
    destruct config as [ttys ? ? ? ? ? ? ? ? ? ? ? ? ?], ttys. cbn in *.
    apply default_setting in Hc, Hi, Ho, He, Hr, Hv, Hn, Ha, Hl, Hf; try done.
    rewrite <- Hc, <- Hi, <- Ho, <- He, <- Hr, <- Hv, <- Hn, <- Ha, <- Hl, <- Hf.
    rewrite !Forall_cons in Hmounts. destruct Hcpus as (cpus_text & Hct & Hcpus), Hmemory as (memory_text & Hmt & Hmemory).
    split_and!; try apply Httys; try apply Hmounts; [by eapply Forall_impl|done|by apply check_known_Ok|done|done|].
    rewrite !bind_ok. eexists. split; [by apply guest_identity_Ok|]. rewrite bind_ok. eexists. split; [by apply guest_identity_Ok|].
    rewrite bind_ok. eexists. split; [by apply guest_identity_Ok|].
    rewrite (proj2 (given_lookup given Hnd _ _) Hct), (proj2 (given_lookup given Hnd _ _) Hmt). cbn [ok_or mbind result_bind].
    rewrite (proj2 (cpu_count_Ok _ _) Hcpus). cbn [mbind result_bind].
    rewrite (proj2 (memory_bytes_Ok _ _) Hmemory). cbn [mbind result_bind].
    rewrite bind_ok. eexists. split; [by apply guest_policy_Ok|]. rewrite bind_ok. eexists. split; [by apply guest_policy_Ok|].
    rewrite guard_ok. split; [tauto|done].
Qed.
End guest.

(** *** The builder and the validator *)

(** The two programs read the same parameters under different prefixes. *)
Record SealedConfig : Set := sealed_config {
  sealed_control : bytes;
  sealed_contract_id : bytes;
  sealed_init_id : bytes;
  sealed_kernel_id : bytes;
  sealed_architecture : bytes;
  sealed_page_size : N;
  sealed_memory : N;
  sealed_cpu_policy : bytes;
  sealed_layout : bytes;
  sealed_filesystem : bytes;
  sealed_schema : bytes;
}.

Definition of_builder (config : BuilderConfig.t) : SealedConfig :=
  let 'BuilderConfig.mk control contract_id init_id kernel_id architecture page_size memory policy layout filesystem schema := config in
  sealed_config control contract_id init_id kernel_id architecture page_size memory policy layout filesystem schema.
Definition of_validator (config : ValidatorConfig.t) : SealedConfig :=
  let 'ValidatorConfig.mk control contract_id init_id kernel_id architecture page_size memory policy layout filesystem schema := config in
  sealed_config control contract_id init_id kernel_id architecture page_size memory policy layout filesystem schema.

Section sealed.
Context (prefix env : string) (known : list string) (option_env : string → option bytes) (target_arch : string).

Record sealed_boots (given : list (bytes * bytes)) (config : SealedConfig) : Prop := {
  boot_once : NoDup given.*1;
  boot_known : given.*1 ⊆ bs <$> known;
  boot_cpus : (bs (prefix +:+ "expected_cpus"), bs "1") ∈ given;
  boot_control : setting given (prefix +:+ "control") (bs "/dev/ttyS0") (sealed_control config) ∧
    (x00 ∉ sealed_control config) ∧ normal_path (sealed_control config);
  boot_contract : setting_or given (prefix +:+ "guest_contract_id") (option_env (env +:+ "GUEST_CONTRACT_ID"))
    (sealed_contract_id config) ∧ is_hex64 (sealed_contract_id config);
  boot_init : setting_or given (prefix +:+ "init_build_id") (option_env (env +:+ "INIT_BUILD_ID"))
    (sealed_init_id config) ∧ is_hex64 (sealed_init_id config);
  boot_kernel : setting_or given (prefix +:+ "kernel_build_id") (option_env (env +:+ "KERNEL_BUILD_ID"))
    (sealed_kernel_id config) ∧ is_hex64 (sealed_kernel_id config);
  boot_architecture : setting given (prefix +:+ "expected_architecture") (compile_oci_architecture target_arch)
    (sealed_architecture config) ∧ sealed_architecture config = compile_oci_architecture target_arch;
  boot_page : ∃ text, (bs (prefix +:+ "expected_page_size"), text) ∈ given ∧
    parse_uint u32_bound text = Some (sealed_page_size config) ∧
    (4096 ≤ sealed_page_size config ≤ 65536)%N ∧ is_power_of_two (sealed_page_size config);
  boot_memory : ∃ text, (bs (prefix +:+ "expected_memory_bytes"), text) ∈ given ∧
    parse_uint u64_bound text = Some (sealed_memory config) ∧
    (64 * 1024 * 1024 ≤ sealed_memory config ≤ 1024 * 1024 * 1024 * 1024)%N ∧ is_multiple_of (sealed_memory config) 4096;
  boot_policy : setting_or given (prefix +:+ "cpu_state_hwcap_policy") (option_env (env +:+ "CPU_STATE_HWCAP_POLICY"))
    (sealed_cpu_policy config) ∧ token_bounded (sealed_cpu_policy config);
  boot_layout : setting given (prefix +:+ "root_layout") (bs "pocket-root-v1") (sealed_layout config) ∧
    token_bounded (sealed_layout config);
  boot_filesystem : setting given (prefix +:+ "filesystem_contract") (bs "ext4-v1-b4096") (sealed_filesystem config) ∧
    token_bounded (sealed_filesystem config);
  boot_schema : setting given (prefix +:+ "manifest_schema") (bs "pocket-fs-manifest-v1") (sealed_schema config) ∧
    token_bounded (sealed_schema config);
}.
End sealed.

(** Numbers and identities as the two programs read them *)
Section sealed_fields.
Context (given : list (bytes * bytes)) (Hgiven : NoDup given.*1).

Lemma builder_identity_Ok key compiled value :
  BuilderConfig.required_identity (list_to_map given) key compiled = Ok value ↔
  setting_or given key compiled value ∧ is_hex64 value.
Proof using Hgiven.
  unfold BuilderConfig.required_identity, BuilderConfig.validate_sha256. rewrite bind_ok.
  setoid_rewrite given_or_compiled_Ok; [|done]. setoid_rewrite bind_unit_ok. setoid_rewrite hex64_guard_ok. naive_solver.
Qed.

Lemma validator_identity_Ok key compiled value :
  ValidatorConfig.required_identity (list_to_map given) key compiled = Ok value ↔
  setting_or given key compiled value ∧ is_hex64 value.
Proof using Hgiven.
  unfold ValidatorConfig.required_identity, ValidatorConfig.validate_sha256. rewrite bind_ok.
  setoid_rewrite given_or_compiled_Ok; [|done]. setoid_rewrite bind_unit_ok. setoid_rewrite hex64_guard_ok. naive_solver.
Qed.

Lemma builder_page_Ok text value :
  BuilderConfig.parse_page_size text = Ok value ↔
  parse_uint u32_bound text = Some value ∧ (4096 ≤ value ≤ 65536)%N ∧ is_power_of_two value.
Proof.
  unfold BuilderConfig.parse_page_size. rewrite bind_ok. setoid_rewrite ok_or_ok. setoid_rewrite page_guard_ok. naive_solver.
Qed.

Lemma validator_page_Ok text value :
  ValidatorConfig.parse_page_size text = Ok value ↔
  parse_uint u32_bound text = Some value ∧ (4096 ≤ value ≤ 65536)%N ∧ is_power_of_two value.
Proof.
  unfold ValidatorConfig.parse_page_size. rewrite bind_ok. setoid_rewrite ok_or_ok. setoid_rewrite page_guard_ok. naive_solver.
Qed.

Lemma builder_memory_Ok text value :
  BuilderConfig.parse_decimal_memory text = Ok value ↔
  parse_uint u64_bound text = Some value ∧ (64 * 1024 * 1024 ≤ value ≤ 1024 * 1024 * 1024 * 1024)%N ∧ is_multiple_of value 4096.
Proof.
  unfold BuilderConfig.parse_decimal_memory, BuilderConfig.validate_memory. rewrite bind_ok. setoid_rewrite ok_or_ok.
  setoid_rewrite bind_unit_ok. setoid_rewrite memory_guard_ok. naive_solver.
Qed.

Lemma validator_memory_Ok text value :
  ValidatorConfig.parse_memory text = Ok value ↔
  parse_uint u64_bound text = Some value ∧ (64 * 1024 * 1024 ≤ value ≤ 1024 * 1024 * 1024 * 1024)%N ∧ is_multiple_of value 4096.
Proof.
  unfold ValidatorConfig.parse_memory. rewrite bind_ok. setoid_rewrite ok_or_ok. setoid_rewrite memory_guard_ok. naive_solver.
Qed.
End sealed_fields.

Section builder_cmdline.
Context (option_env : string → option bytes) (target_arch : string) (debug : bytes → bytes).

Definition builder_boots : list (bytes * bytes) → SealedConfig → Prop :=
  sealed_boots "pocket.builder." "POCKET_BUILDER_" BuilderConfig.KNOWN_KEYS option_env target_arch.
Lemma builder_cmdline_Ok line config :
  BuilderConfig.parse_cmdline option_env target_arch debug line = Ok config ↔
  builder_boots (omap (parameter (bs "pocket.builder.")) (split_ascii_whitespace line)) (of_builder config).
Proof.
  unfold BuilderConfig.parse_cmdline. rewrite insert_unique_bind.
  generalize (omap (parameter (bs "pocket.builder.")) (split_ascii_whitespace line)) as given. intros given.
  cbv zeta. unfold BuilderConfig.required, value_or, BuilderConfig.validate_token, BuilderConfig.validate_absolute_path. split.
  - intros (Hnd & [Hknown H]%bind_unit_ok).
    apply bind_ok in H as (cpus & Hct%ok_or_ok & [Hcpus%dec_stable [[Hcontrol _]%path_guard_ok H]%bind_unit_ok]%guard_ok).
    apply bind_ok in H as (contract_id & Hcontract & (init_id & Hinit & (kernel_id & Hkernel & H)%bind_ok)%bind_ok).
    apply guard_ok in H as [Harch%dec_stable (page_text & Hpt%ok_or_ok & (page & Hpage & H)%bind_ok)%bind_ok].
    apply bind_ok in H as (memory_text & Hmt%ok_or_ok & (memory & Hmemory & H)%bind_ok).
    apply bind_ok in H as (policy & Hpolicy & [[Hpt' _]%token_guard_ok H]%bind_unit_ok).
    apply bind_unit_ok in H as [[Hlayout _]%token_guard_ok [[Hfs _]%token_guard_ok [[Hschema _]%token_guard_ok [= <-]]%bind_unit_ok]%bind_unit_ok].
    rewrite check_known_Ok in Hknown by done. rewrite builder_identity_Ok in Hcontract, Hinit, Hkernel by done.
    rewrite given_or_compiled_Ok in Hpolicy by done. rewrite given_lookup in Hct, Hpt, Hmt by done.
    rewrite builder_page_Ok in Hpage. rewrite builder_memory_Ok in Hmemory. subst cpus.
    split; cbn; try done; try (by eauto); split; try done; by apply default_setting.
  - intros [Hnd Hknown Hcpus [Hc Hcontrol] Hcontract Hinit Hkernel [Ha Harch] (page_text & Hpt & Hpage) (memory_text & Hmt & Hmemory)
            [Hp Hpolicy] [Hl Hlayout] [Hf Hfs] [Hs Hschema]].
    destruct config. cbn in *. cbv beta iota delta [String.append] in *. apply default_setting in Hc, Ha, Hl, Hf, Hs; try done.
    apply (given_lookup given Hnd) in Hcpus, Hpt, Hmt. rewrite <- Hc, <- Ha, <- Hl, <- Hf, <- Hs, Hcpus, Hpt, Hmt.
    cbn [ok_or mbind result_bind]. split; [done|]. apply bind_unit_ok. split; [by apply check_known_Ok|].
    apply guard_ok. split; [tauto|]. apply bind_unit_ok. split; [by apply path_guard_ok|].
    apply bind_ok. eexists. split; [by apply builder_identity_Ok|]. apply bind_ok. eexists. split; [by apply builder_identity_Ok|].
    apply bind_ok. eexists. split; [by apply builder_identity_Ok|]. apply guard_ok. split; [tauto|].
    apply bind_ok. eexists. split; [by apply builder_page_Ok|]. apply bind_ok. eexists. split; [by apply builder_memory_Ok|].
    apply bind_ok. eexists. split; [by apply given_or_compiled_Ok|]. rewrite !bind_unit_ok, !token_guard_ok. done.
Qed.

End builder_cmdline.

Section validator_cmdline.
Context (option_env : string → option bytes) (target_arch : string).

Definition validator_boots : list (bytes * bytes) → SealedConfig → Prop :=
  sealed_boots "pocket.validator." "POCKET_VALIDATOR_" ValidatorConfig.KNOWN_KEYS option_env target_arch.

Lemma validator_cmdline_Ok line config :
  ValidatorConfig.parse_cmdline option_env target_arch line = Ok config ↔
  validator_boots (omap (parameter (bs "pocket.validator.")) (split_ascii_whitespace line)) (of_validator config).
Proof.
  unfold ValidatorConfig.parse_cmdline. rewrite insert_unique_bind.
  generalize (omap (parameter (bs "pocket.validator.")) (split_ascii_whitespace line)) as given. intros given.
  cbv zeta. unfold ValidatorConfig.required, value_or, ValidatorConfig.validate_token, ValidatorConfig.validate_absolute_path.
  cbn [each]. split.
  - intros (Hnd & [Hknown H]%bind_unit_ok).
    apply bind_ok in H as (cpus & Hct%ok_or_ok & [Hcpus%dec_stable [[Hcontrol _]%path_guard_ok H]%bind_unit_ok]%guard_ok).
    apply guard_ok in H as [Harch%dec_stable (page_text & Hpt%ok_or_ok & (page & Hpage & H)%bind_ok)%bind_ok].
    apply bind_ok in H as (memory_text & Hmt%ok_or_ok & (memory & Hmemory & H)%bind_ok).
    apply bind_ok in H as (policy & Hpolicy & [[Hpt' _]%token_guard_ok [Htokens H]%bind_unit_ok]%bind_unit_ok).
    rewrite !bind_unit_ok, !token_guard_ok in Htokens.
    apply bind_ok in H as (contract_id & Hcontract & (init_id & Hinit & (kernel_id & Hkernel & [= <-])%bind_ok)%bind_ok).
    rewrite check_known_Ok in Hknown by done. rewrite validator_identity_Ok in Hcontract, Hinit, Hkernel by done.
    unfold ValidatorConfig.required_or_compile in Hpolicy.
    rewrite given_or_compiled_Ok in Hpolicy by done. rewrite given_lookup in Hct, Hpt, Hmt by done.
    rewrite validator_page_Ok in Hpage. rewrite validator_memory_Ok in Hmemory. subst cpus.
    split; cbn; try done; try (by eauto); split; try (by apply default_setting); tauto.
  - intros [Hnd Hknown Hcpus [Hc Hcontrol] Hcontract Hinit Hkernel [Ha Harch] (page_text & Hpt & Hpage) (memory_text & Hmt & Hmemory)
            [Hp Hpolicy] [Hl Hlayout] [Hf Hfs] [Hs Hschema]].
    destruct config. cbn in *. cbv beta iota delta [String.append] in *. apply default_setting in Hc, Ha, Hl, Hf, Hs; try done.
    apply (given_lookup given Hnd) in Hcpus, Hpt, Hmt. rewrite <- Hc, <- Ha, <- Hl, <- Hf, <- Hs, Hcpus, Hpt, Hmt.
    cbn [ok_or mbind result_bind]. split; [done|]. apply bind_unit_ok. split; [by apply check_known_Ok|].
    apply guard_ok. split; [tauto|]. apply bind_unit_ok. split; [by apply path_guard_ok|]. apply guard_ok. split; [tauto|].
    apply bind_ok. eexists. split; [by apply validator_page_Ok|]. apply bind_ok. eexists. split; [by apply validator_memory_Ok|].
    apply bind_ok. eexists. split; [by apply given_or_compiled_Ok|]. rewrite !bind_unit_ok, !token_guard_ok.
    split_and!; try done.
    apply bind_ok. eexists. split; [by apply validator_identity_Ok|]. apply bind_ok. eexists. split; [by apply validator_identity_Ok|].
    apply bind_ok. eexists. split; [by apply validator_identity_Ok|]. done.
Qed.
End validator_cmdline.
