(* ===== verification/GuestContract.v ===== *)
(** * What a guest checks before it runs a workload

    crates/pocket-init/src/contract.rs (START against the boot contract and the measured
    guest, and against the marker of the generation), encode_generation_marker of
    crates/pocket-builder-init/src/marker.rs, and crates/pocket-init/src/capability.rs
    (the fixed capability sets as 32-bit masks).

    pocket-init and pocket-protocol both declare GenerationMarker, with the same fields
    under the same numbers, so that the derived codecs are the same: the type of
    BuilderMessage stands for both. *)

From stdpp Require Import gmap.
From S2P Require Import Prelude RustStr ErrorCode ProtocolError Frame Payload Message Sha256 BuilderManifest AccountDatabase BuilderMessage NoPanic InitError GuestErrors Parameters GuestConfig.

#[local] Arguments bs : simpl never.
#[local] Arguments len : simpl never.

Definition MAX_GENERATION_MARKER_BYTES : N := 64 * 1024.

Module GuestObservation.
Record t : Set := mk {
  uts_machine : bytes;
  oci_architecture : bytes;
  page_size : N;
  online_cpus : N;
  elf_machine : N;
  accepted_physmem_bytes : N;
}.
End GuestObservation.

(** ** START *)
Section start.
Context (debug : bytes → bytes).

Definition start_contract {A} (diagnostic : bytes) : result InitError.t A :=
  Err (InitError.Contract "start-contract" diagnostic).

Definition verify_start (config : GuestConfig.t) (observation : GuestObservation.t) (start : Start.t) : result InitError.t () :=
  if decide (GuestObservation.online_cpus observation ≠ GuestConfig.expected_cpus config)
  then start_contract (bs "guest has " ++ to_decimal (GuestObservation.online_cpus observation) ++
         bs " online CPUs but boot contract requires " ++ to_decimal (GuestConfig.expected_cpus config)) else
  if decide (GuestObservation.accepted_physmem_bytes observation < GuestConfig.expected_memory_bytes config)%N
  then start_contract (bs "UML accepted " ++ to_decimal (GuestObservation.accepted_physmem_bytes observation) ++
         bs " physical-memory bytes but boot contract requires at least " ++
         to_decimal (GuestConfig.expected_memory_bytes config)) else
  if decide (GuestObservation.oci_architecture observation ≠ GuestConfig.expected_oci_architecture config)
  then start_contract (bs "measured guest architecture disagrees with boot contract") else
  if decide (Platform.os (Start.effective_platform start) ≠ bs "linux" ∨
             Platform.architecture (Start.effective_platform start) ≠ GuestObservation.oci_architecture observation)
  then start_contract (bs "START platform " ++ Platform.os (Start.effective_platform start) ++ bs "/" ++
         Platform.architecture (Start.effective_platform start) ++ bs " does not match guest linux/" ++
         GuestObservation.oci_architecture observation) else
  if decide (Start.root_layout start ≠ GuestConfig.expected_root_layout config)
  then start_contract (bs "root layout " ++ debug (Start.root_layout start) ++ bs " does not match boot contract " ++
         debug (GuestConfig.expected_root_layout config)) else
  if decide (Start.filesystem_contract start ≠ GuestConfig.expected_filesystem_contract config)
  then start_contract (bs "filesystem contract " ++ debug (Start.filesystem_contract start) ++
         bs " does not match boot contract " ++ debug (GuestConfig.expected_filesystem_contract config)) else
  if decide (1 < Start.network_mode start)%N
  then Err (InitError.Unsupported "start-contract" (bs "unknown network mode")) else
  Ok ().
End start.

(** ** The generation marker *)
Definition marker_contract {A} (diagnostic : bytes) : result InitError.t A :=
  Err (InitError.Contract "generation-marker" diagnostic).

Definition mismatch {A} (field : string) : result InitError.t A :=
  marker_contract (bs "generation marker " ++ bs field ++ bs " does not match START").

Section marker.
Context `{Cbor GenerationMarker.t}.

Definition decode_generation_marker (bytes : list byte) : result InitError.t GenerationMarker.t :=
  if decide (MAX_GENERATION_MARKER_BYTES < len bytes)%N
  then marker_contract (bs "generation marker is " ++ to_decimal (len bytes) ++ bs " bytes; maximum is " ++
         to_decimal MAX_GENERATION_MARKER_BYTES) else
  '(marker, position) ← map_err (λ error, InitError.Contract "generation-marker" (bs "invalid CBOR: " ++ error)) (cbor_decode bytes);
  if decide (position ≠ len bytes) then marker_contract (bs "trailing bytes after marker") else
  canonical ← map_err (λ error, InitError.Contract "generation-marker" (bs "cannot re-encode marker: " ++ error)) (cbor_to_vec marker);
  if decide (canonical ≠ bytes) then marker_contract (bs "marker is not in deterministic CBOR encoding") else
  Ok marker.

Definition verify_generation_marker (marker : GenerationMarker.t) (start : Start.t) : result InitError.t () :=
  if decide (GenerationMarker.schema marker ≠ bs "pocket-generation-v3") then mismatch "schema" else
  if decide (¬ (GenerationMarker.derivation_key marker = Start.derivation_key start ∧
                GenerationMarker.profile_id marker = Start.profile_id start ∧
                GenerationMarker.profile_revision marker = Start.profile_revision start ∧
                GenerationMarker.descriptor_platform marker = Start.descriptor_platform start ∧
                GenerationMarker.config_platform marker = Start.config_platform start ∧
                GenerationMarker.effective_platform marker = Start.effective_platform start ∧
                GenerationMarker.selector_policy marker = Start.selector_policy start ∧
                GenerationMarker.root_layout marker = Start.root_layout start ∧
                GenerationMarker.filesystem_contract marker = Start.filesystem_contract start ∧
                GenerationMarker.account_db_sha256 marker = Start.account_db_sha256 start))
  then mismatch "START reconciliation fields" else
  Ok ().

(** The builder's side, of pocket-builder-init *)
Definition encode_generation_marker (start : BuilderStart.t) (account_db_sha256 : bytes) : result BuilderError.t bytes :=
  map_err (BuilderError.Protocol "generation-marker") (encode_payload (GenerationMarker.from_start start account_db_sha256)).
End marker.

(** ** Capabilities *)
Definition BLOCKED_CAPABILITIES : list N := [16; 17; 18; 19; 21; 22; 25; 27; 33]%N.
Definition ALLOWED_CAPABILITIES : list N := [0; 1; 3; 4; 5; 6; 7; 8; 10; 13; 29; 31]%N.

(** [[u32; 2]] *)
Definition words : Set := N * N.

Module CapabilitySets.
Record t : Set := mk { effective : words; permitted : words; inheritable : words }.
#[global] Instance eq_dec : EqDecision t.
Proof. solve_decision. Defined.
End CapabilitySets.

Module RootReadOnlyGuards.
Record t : Set := mk {
  capability_sets : CapabilitySets.t;
  no_new_privs : bool;
  root_mount_read_only : bool;
  root_mount_nodev : bool;
  root_mount_nosuid : bool;
  private_curated_dev : bool;
  bounding_set_restricted : bool;
  outside_root_directory_fds : N;
}.
End RootReadOnlyGuards.

(** [words[(capability / 32) as usize] |= 1_u32 << (capability % 32)], for capabilities
    below 64 *)
Definition set_capability (w : words) (capability : N) : words :=
  let bit := N.shiftl 1 (capability mod 32) in
  if decide (capability / 32 = 0)%N then (N.lor w.1 bit, w.2) else (w.1, N.lor w.2 bit).

Definition allowed_capability_words : words := foldl set_capability (0, 0)%N ALLOWED_CAPABILITIES.

Definition mask_words (allowed w : words) : words := (N.land w.1 allowed.1, N.land w.2 allowed.2).

Definition apply_fixed_capability_mask (sets : CapabilitySets.t) : CapabilitySets.t :=
  let allowed := allowed_capability_words in
  CapabilitySets.mk (mask_words allowed (CapabilitySets.effective sets)) (mask_words allowed (CapabilitySets.permitted sets))
    (mask_words allowed (CapabilitySets.inheritable sets)).

(** [while capability <= last && capability < 64] *)
Definition full_root_capability_sets (last : N) : CapabilitySets.t :=
  let w := foldl set_capability (0, 0)%N (N.of_nat <$> seq 0 (N.to_nat (N.min (last + 1) 64))) in
  CapabilitySets.mk w w (0, 0)%N.

Definition fixed_root_capability_sets : CapabilitySets.t :=
  CapabilitySets.mk allowed_capability_words allowed_capability_words (0, 0)%N.

Definition capability_is_allowed (capability : N) : bool := bool_decide (capability ∈ ALLOWED_CAPABILITIES).

Definition uid_zero_read_only_guards_hold (guards : RootReadOnlyGuards.t) : bool :=
  RootReadOnlyGuards.no_new_privs guards && RootReadOnlyGuards.root_mount_read_only guards &&
  RootReadOnlyGuards.root_mount_nodev guards && RootReadOnlyGuards.root_mount_nosuid guards &&
  RootReadOnlyGuards.private_curated_dev guards && RootReadOnlyGuards.bounding_set_restricted guards &&
  bool_decide (RootReadOnlyGuards.outside_root_directory_fds guards = 0%N) &&
  bool_decide (RootReadOnlyGuards.capability_sets guards = fixed_root_capability_sets).

(** ** What is accepted *)
Lemma start_contract_Ok debug config observation start :
  verify_start debug config observation start = Ok () ↔
  GuestObservation.online_cpus observation = GuestConfig.expected_cpus config ∧
  (GuestConfig.expected_memory_bytes config ≤ GuestObservation.accepted_physmem_bytes observation)%N ∧
  GuestObservation.oci_architecture observation = GuestConfig.expected_oci_architecture config ∧
  Platform.os (Start.effective_platform start) = bs "linux" ∧
  Platform.architecture (Start.effective_platform start) = GuestObservation.oci_architecture observation ∧
  Start.root_layout start = GuestConfig.expected_root_layout config ∧
  Start.filesystem_contract start = GuestConfig.expected_filesystem_contract config ∧
  (Start.network_mode start ≤ 1)%N.
Proof.
  unfold verify_start, start_contract. rewrite !guard_ok, !not_or_and, !N.nlt_ge. split.
  - intros (?%dec_stable & ? & ?%dec_stable & [?%dec_stable ?%dec_stable] & ?%dec_stable & ?%dec_stable & ? & _). done.
  - intros (? & ? & ? & ? & ? & ? & ? & ?). tauto.
Qed.

(** The marker that START describes *)
Definition marker_of (start : Start.t) : GenerationMarker.t :=
  GenerationMarker.generation_marker (bs "pocket-generation-v3") (Start.derivation_key start) (Start.profile_id start)
    (Start.profile_revision start) (Start.descriptor_platform start) (Start.config_platform start)
    (Start.effective_platform start) (Start.selector_policy start) (Start.root_layout start)
    (Start.filesystem_contract start) (Start.account_db_sha256 start).

Lemma generation_marker_Ok marker start :
  verify_generation_marker marker start = Ok () ↔ marker = marker_of start.
Proof.
  unfold verify_generation_marker, mismatch, marker_contract. rewrite !guard_ok. split.
  - intros (Hs%dec_stable & Hf%dec_stable & _). destruct marker. cbn in *.
    destruct Hf as (-> & -> & -> & -> & -> & -> & -> & -> & -> & ->). by rewrite Hs.
  - intros ->. split; [intros []; done|]. split; [|done]. intros []. by split_and!.
Qed.

Section marker_codec.
Context `{!Cbor GenerationMarker.t, !CborLaws GenerationMarker.t}.

Lemma decode_marker_Ok data marker :
  decode_generation_marker data = Ok marker ↔
  (len data ≤ MAX_GENERATION_MARKER_BYTES)%N ∧ cbor_to_vec marker = Ok data.
Proof.
  unfold decode_generation_marker, marker_contract. rewrite guard_ok, N.nlt_ge, bind_ok. split.
  - intros (Hlen & [m position] & Hd%map_err_ok & [Hp (canonical & Hc%map_err_ok & [Heq%dec_stable <-%ok_inj]%guard_ok)%bind_ok]%guard_ok).
    by subst canonical.
  - intros [Hlen Hv]. split; [done|]. exists (marker, len data). rewrite map_err_ok, (cbor_round_trip _ _ Hv). split; [done|].
    rewrite guard_ok, bind_ok. split; [tauto|]. exists data. rewrite map_err_ok, guard_ok. split; [done|]. split; [tauto|done].
Qed.

(** A generation is what START says. *)
Definition marker_accepted (data : list byte) (start : Start.t) : Prop :=
  ∃ marker, decode_generation_marker data = Ok marker ∧ verify_generation_marker marker start = Ok ().

(** C22: The marker of a generation binds a run to its build.  For every START at most one
    byte string passes the guest's checks of the marker, the canonical encoding of the
    values that START names; and the marker that the builder writes for a build passes
    them for exactly the STARTs with the derivation, profile, platforms, policies,
    contracts and account database of that build, up to the limit on its size. *)
Theorem marker_reconciles data start :
  (marker_accepted data start ↔ (len data ≤ MAX_GENERATION_MARKER_BYTES)%N ∧ cbor_to_vec (marker_of start) = Ok data) ∧
  (∀ build account_db_sha256, encode_generation_marker build account_db_sha256 = Ok data →
     marker_accepted data start ↔
     (len data ≤ MAX_GENERATION_MARKER_BYTES)%N ∧ GenerationMarker.from_start build account_db_sha256 = marker_of start).
Proof.
  assert (marker_accepted data start ↔ (len data ≤ MAX_GENERATION_MARKER_BYTES)%N ∧ cbor_to_vec (marker_of start) = Ok data) as H.
  { unfold marker_accepted. setoid_rewrite decode_marker_Ok. setoid_rewrite generation_marker_Ok. naive_solver. }
  split; [done|]. intros build account Henc. rewrite H. apply and_iff_compat_l.
  unfold encode_generation_marker in Henc. apply map_err_ok in Henc. unfold encode_payload in Henc.
  apply bind_unit_ok in Henc as [_ (payload & Hv%map_err_ok & [_ <-%ok_inj]%bind_unit_ok)%bind_ok].
  split; [|by intros <-]. intros Hv'. apply cbor_round_trip in Hv, Hv'. congruence.
Qed.
End marker_codec.

(** ** Capabilities, bit by bit *)
Definition has (w : words) (capability : N) : bool :=
  N.testbit (if decide (capability / 32 = 0)%N then w.1 else w.2) (capability mod 32).

Lemma has_set w c d : (c < 64)%N → (d < 64)%N → has (set_capability w d) c = has w c || bool_decide (c = d).
Proof.
  intros Hc Hd. unfold has, set_capability. rewrite N.shiftl_1_l.
  pose proof (N.div_mod' c 32) as Hcd. pose proof (N.div_mod' d 32) as Hdd.
  assert (c / 32 < 2 ∧ d / 32 < 2)%N as [Hc2 Hd2] by (split; apply N.Div0.div_lt_upper_bound; lia).
  assert (c / 32 = d / 32 → (d mod 32 =? c mod 32)%N = bool_decide (c = d))%N as Heq.
  { intros Hq. case_bool_decide; [apply N.eqb_eq; congruence|]. apply N.eqb_neq. intros Hm. rewrite Hm, Hq in *. lia. }
  destruct (decide (c / 32 = 0)%N) as [Hc0|Hc0], (decide (d / 32 = 0)%N) as [Hd0|Hd0]; cbn [fst snd];
    rewrite ?N.lor_spec, ?N.pow2_bits_eqb.
  - by rewrite Heq by congruence.
  - rewrite bool_decide_eq_false_2 by congruence. by rewrite orb_false_r.
  - rewrite bool_decide_eq_false_2 by congruence. by rewrite orb_false_r.
  - rewrite Heq; [done|]. generalize dependent (c / 32)%N. intros q. generalize dependent (d / 32)%N. intros. lia.
Qed.

Lemma has_foldl l w c : (c < 64)%N → Forall (λ d, (d < 64)%N) l →
  has (foldl set_capability w l) c = has w c || bool_decide (c ∈ l).
Proof.
  intros Hc Hl. revert w. induction Hl as [|d l Hd Hl IH]; intros w; cbn [foldl].
  - rewrite bool_decide_eq_false_2 by set_solver. by rewrite orb_false_r.
  - rewrite IH, has_set by done. rewrite <- orb_assoc. f_equal. repeat case_bool_decide; set_solver.
Qed.

Lemma has_zero c : has (0, 0)%N c = false.
Proof. unfold has. case_decide; apply N.bits_0. Qed.

Lemma has_allowed c : (c < 64)%N → has allowed_capability_words c = capability_is_allowed c.
Proof.
  intros Hc. unfold allowed_capability_words, capability_is_allowed. rewrite has_foldl, has_zero; [done|done|].
  apply (bool_decide_unpack _). by vm_compute.
Qed.

Lemma has_mask w c : (c < 64)%N → has (mask_words allowed_capability_words w) c = has w c && capability_is_allowed c.
Proof.
  intros Hc. rewrite <- has_allowed by done. unfold has, mask_words. case_decide; apply N.land_spec.
Qed.

Lemma has_full last c : (c < 64)%N → has (CapabilitySets.effective (full_root_capability_sets last)) c = bool_decide (c ≤ last)%N.
Proof.
  intros Hc. unfold full_root_capability_sets. cbn [CapabilitySets.effective]. rewrite has_foldl, has_zero; [|done|].
  - cbn [orb]. apply bool_decide_ext. rewrite list_elem_of_fmap. setoid_rewrite elem_of_seq. split.
    + intros (n & -> & ?). lia.
    + intros. exists (N.to_nat c). lia.
  - apply Forall_fmap, Forall_seq. intros n ?. cbn. lia.
Qed.

Theorem capability_sets_exact sets last c :
  (c < 64)%N →
  let masked := apply_fixed_capability_mask sets in
  has (CapabilitySets.effective masked) c = has (CapabilitySets.effective sets) c && capability_is_allowed c ∧
  has (CapabilitySets.permitted masked) c = has (CapabilitySets.permitted sets) c && capability_is_allowed c ∧
  has (CapabilitySets.inheritable masked) c = has (CapabilitySets.inheritable sets) c && capability_is_allowed c ∧
  has (CapabilitySets.effective fixed_root_capability_sets) c = capability_is_allowed c ∧
  has (CapabilitySets.effective (full_root_capability_sets last)) c = bool_decide (c ≤ last)%N ∧
  (c ∈ BLOCKED_CAPABILITIES → capability_is_allowed c = false).
Proof.
  intros Hc masked. unfold masked, apply_fixed_capability_mask. cbn [CapabilitySets.effective CapabilitySets.permitted CapabilitySets.inheritable].
  split_and!; [by apply has_mask..|by apply has_allowed|by apply has_full|].
  assert (Forall (λ c, capability_is_allowed c = false) BLOCKED_CAPABILITIES) as Hb by (by repeat constructor).
  intros Hc'. rewrite Forall_forall in Hb. by apply Hb.
Qed.

Module SampleMarker.
Definition account_db : bytes := replicate 64 x63.
Definition marker : GenerationMarker.t := GenerationMarker.from_start SampleStart.sample account_db.

#[export] Instance marker_eq_dec : EqDecision GenerationMarker.t.
Proof. solve_decision. Defined.
#[export] Instance marker_codec : Cbor GenerationMarker.t := SampleCodecs.one_codec marker [xab; x00].
#[export] Instance marker_codec_laws : CborLaws GenerationMarker.t.
Proof. apply SampleCodecs.one_codec_laws. Qed.

Definition start : Start.t := {|
  Start.profile_id := GenerationMarker.profile_id marker;
  Start.profile_revision := GenerationMarker.profile_revision marker;
  Start.generation_id := SampleStart.digest;
  Start.descriptor_platform := GenerationMarker.descriptor_platform marker;
  Start.config_platform := GenerationMarker.config_platform marker;
  Start.effective_platform := GenerationMarker.effective_platform marker;
  Start.selector_policy := GenerationMarker.selector_policy marker;
  Start.root_layout := GenerationMarker.root_layout marker;
  Start.filesystem_contract := GenerationMarker.filesystem_contract marker;
  Start.argv := [bs "/bin/true"]; Start.env := []; Start.cwd := bs "/"; Start.uid := 0; Start.gid := 0;
  Start.supplementary_gids := []; Start.umask := 18; Start.rlimits := []; Start.hostname := bs "pocket";
  Start.root_read_only := false; Start.volumes := []; Start.terminal := false; Start.network_mode := 0;
  Start.stop_signal := 15;
  Start.derivation_key := GenerationMarker.derivation_key marker;
  Start.account_db_sha256 := account_db;
  Start.stdin_bytes := 0; Start.privileged := false; Start.stdin_streaming := false; Start.terminal_rows := 0;
  Start.terminal_columns := 0; Start.extra_consoles := 0;
|}.

Lemma marker_reconciles_witness :
  encode_generation_marker SampleStart.sample account_db = Ok [xab; x00] ∧ marker_accepted [xab; x00] start.
Proof.
  assert (encode_generation_marker SampleStart.sample account_db = Ok [xab; x00]) as Henc by (vm_compute; reflexivity).
  split; [exact Henc|]. destruct (marker_reconciles [xab; x00] start) as [_ H].
  apply (H SampleStart.sample account_db Henc). split; [by vm_compute|reflexivity].
Defined.
End SampleMarker.
