(* ===== verification/Profile.v ===== *)
(** * Profile manifests: crates/pocket-runtime/src/manifest.rs

    The manifest of a profile bundle and [validate_manifest]: what a profile may say
    about the host, the guest's CPUs and memory, the contracts and feature sets of
    the three guests, and how User-mode Linux is launched. *)

From S2P Require Import Prelude RustStr Utf8 ByteOrder Memory Cpu ProtocolError Payload BuilderMessage NoPanic.
From S2P Require Import StoreCodec HexText HostError.

#[local] Arguments bs : simpl never.
#[local] Arguments len : simpl never.

Definition PROFILE_SCHEMA_VERSION : N := 3.
Definition EM_X86_64 : N := 62.

(** pocket-protocol/src/lib.rs *)
Definition WORKLOAD_GUEST_FEATURES : list bytes := bs <$>
  ["curated-dev-v1"; "exact-stdin-length-v1"; "fixed-capabilities-v1"; "generated-etc-v1"; "generation-marker-v3";
   "host-volumes-v1"; "loopback-ipv4-v1"; "namespace-mounts"; "nested-pidns"; "pre-hello-error-v1";
   "privileged-capabilities-v1"; "separate-stdio"; "signal-forwarding"; "slirp-network-v1"; "terminal-pty";
   "terminal-resize"; "terminal-stream-v1"].
Definition BUILDER_GUEST_FEATURES : list bytes := bs <$>
  ["account-db-v1"; "canonical-manifest-v1"; "generation-marker-v3"; "named-user-resolution-v1"; "oci-input-reverify-v1";
   "source-date-epoch-v1"].
Definition VALIDATOR_GUEST_FEATURES : list bytes := bs <$>
  ["account-db-rebuild-v1"; "challenge-bound-evidence-v1"; "ext4-clean-state-v1"; "generation-marker-verify-v3";
   "independent-manifest-rewalk-v1"; "read-only-candidate-v1"].

Module ProfileMaturity.
Inductive t : Set := Release | Experimental.
End ProfileMaturity.

Module ArtifactSpec.
Record t : Set := artifact_spec { path : bytes; sha256 : Digest; size : N }.
End ArtifactSpec.

Module CpuManifest.
Record t : Set := cpu_manifest {
  smp_enabled : bool;
  product_max_cpus : N;
  compiled_nr_cpus : option N;
  effective_max_cpus : N;
}.
End CpuManifest.

Module MemoryManifest.
Record t : Set := memory_manifest {
  minimum_bytes : N;
  default_memory_bytes : N;
  product_maximum_bytes : N;
  effective_max_memory_bytes : N;
  builder_memory_bytes : N;
  validator_memory_bytes : N;
  alignment_bytes : N;
}.
End MemoryManifest.

Module Contracts.
Record t : Set := contracts {
  selector_policy : bytes;
  root_layout : bytes;
  filesystem : bytes;
  cpu_state_hwcap_policy : bytes;
  guest_capability_policy : bytes;
}.
End Contracts.

Module HelloContract.
Record t : Set := hello_contract {
  guest_contract_id : bytes;
  init_build_id : bytes;
  kernel_build_id : bytes;
  required_features : list bytes;
}.
End HelloContract.

Module BuilderToolContract.
Record t : Set := builder_tool_contract { role : bytes; sha256 : bytes; version : bytes }.
End BuilderToolContract.

Module BuilderContract.
Record t : Set := builder_contract {
  hello : HelloContract.t;
  manifest_schema : bytes;
  required_tools : list BuilderToolContract.t;
  source_date_epoch : N;
}.
End BuilderContract.

Module ValidatorContract.
Record t : Set := validator_contract { hello : HelloContract.t; manifest_schema : bytes }.
End ValidatorContract.

Module LaunchContract.
Record t : Set := launch_contract {
  linkage : bytes;
  cooperative_backend : bytes;
  noreboot : bool;
  rdinit : bytes;
  rootfstype : bytes;
  ubd : bytes;
  serial : bytes;
  network : bytes;
  max_ubd_path_bytes : N;
  max_umid_bytes : N;
  max_unix_path_bytes : N;
}.
End LaunchContract.

Module ArtifactManifest.
Record t : Set := artifact_manifest {
  guard : ArtifactSpec.t;
  uml : ArtifactSpec.t;
  skopeo : ArtifactSpec.t;
  network_helper : ArtifactSpec.t;
  registry_ca_bundle : ArtifactSpec.t;
  workload_initramfs : ArtifactSpec.t;
  builder_initramfs : ArtifactSpec.t;
  validator_initramfs : ArtifactSpec.t;
  mke2fs : ArtifactSpec.t;
  e2fsck : ArtifactSpec.t;
  resize2fs : ArtifactSpec.t;
  debugfs : ArtifactSpec.t;
  mke2fs_config : ArtifactSpec.t;
  e2fsck_config : ArtifactSpec.t;
  normalized_kernel_config : ArtifactSpec.t;
}.
End ArtifactManifest.

Module ProfileManifest.
Record t : Set := profile_manifest {
  schema_version : N;
  profile_id : bytes;
  profile_revision : Digest;
  maturity : ProfileMaturity.t;
  host_architecture : bytes;
  host_elf_machine : N;
  oci_os : bytes;
  oci_architecture : bytes;
  accepted_oci_variants : list (option bytes);
  uml_subarchitecture : bytes;
  guest_page_size : N;
  cpu : CpuManifest.t;
  memory : MemoryManifest.t;
  contracts : Contracts.t;
  hello : HelloContract.t;
  builder : BuilderContract.t;
  validator : ValidatorContract.t;
  launch : LaunchContract.t;
  artifacts : ArtifactManifest.t;
}.
End ProfileManifest.

Abbreviation mresult := (result ManifestError.t).

(** ** Field checks *)
Definition require_value (field : string) (actual : bytes) (expected : string) : mresult () :=
  if decide (actual ≠ bs expected) then Err (ManifestError.UnsupportedContract field actual) else Ok ().

Definition require_number (field : string) (actual expected : N) : mresult () :=
  if decide (actual ≠ expected) then Err (ManifestError.UnsupportedContract field (to_decimal actual)) else Ok ().

Definition validate_token (field : string) (value : bytes) (maximum : N) : mresult () :=
  if decide (value = [] ∨ maximum < len value)%N
  then ManifestError.invalid field (bs "must contain 1..=" ++ to_decimal maximum ++ bs " bytes") else
  if decide (¬ Forall is_token_byte value)
  then ManifestError.invalid field (bs "contains a non-token character") else
  Ok ().

Definition validate_sha256 (field : string) (value : bytes) : mresult () :=
  if decide (¬ is_hex64 value)
  then ManifestError.invalid field (bs "must be 64 lowercase hexadecimal characters") else
  Ok ().

(** The three roles of [validate_hello_contract]. *)
Definition hello_fields (prefix : string) : list string :=
  [prefix ++ ".guest_contract_id"; prefix ++ ".init_build_id"; prefix ++ ".kernel_build_id"]%string.

Definition validate_hello_contract (prefix : string) (hello : HelloContract.t) : mresult () :=
  each (λ '(field, id), validate_sha256 field id)
    (zip (hello_fields prefix)
       [HelloContract.guest_contract_id hello; HelloContract.init_build_id hello; HelloContract.kernel_build_id hello]).

Definition validate_sorted_features (field : string) (features : list bytes) : mresult () :=
  if decide (64 < len features)%N then ManifestError.invalid field (bs "more than 64 features") else
  each_sorted (λ feature, validate_token field feature 64) id
    (ManifestError.InvalidField field (bs "features must be unique and sorted")) features.

(** [validate_workload_features], [validate_builder_features] and
    [validate_validator_features] *)
Definition validate_features (field : string) (guest : string) (expected features : list bytes) : mresult () :=
  validate_sorted_features field features;;
  if decide (features ≠ expected)
  then ManifestError.invalid field (bs "must exactly match the " ++ bs guest ++ bs " guest's compiled feature set") else
  Ok ().
Definition validate_workload_features : list bytes → mresult () :=
  validate_features "hello.required_features" "workload" WORKLOAD_GUEST_FEATURES.
Definition validate_builder_features : list bytes → mresult () :=
  validate_features "builder.hello.required_features" "builder" BUILDER_GUEST_FEATURES.
Definition validate_validator_features : list bytes → mresult () :=
  validate_features "validator.hello.required_features" "validator" VALIDATOR_GUEST_FEATURES.

(** ** The manifest *)

(** One round over the accepted variants. *)
Definition check_variant (variant : option bytes) : mresult () :=
  match variant with
  | Some value =>
      validate_token "accepted_oci_variants" value 32;;
      if decide (value ≠ bs "v1") then Err (ManifestError.UnsupportedContract "accepted_oci_variants" value) else Ok ()
  | None => Ok ()
  end.

Definition check_memory (memory : MemoryManifest.t) (entry : string * N) : mresult () :=
  let '(field, value) := entry in
  if decide (value < MemoryManifest.minimum_bytes memory ∨ MemoryManifest.effective_max_memory_bytes memory < value)%N
  then ManifestError.invalid field (bs "must be within the minimum..=effective tested range") else
  if decide (¬ is_multiple_of value (MemoryManifest.alignment_bytes memory))
  then ManifestError.invalid field (bs "must be aligned to memory.alignment_bytes") else
  Ok ().

Definition check_tool (tool : BuilderToolContract.t) : mresult () :=
  validate_token "builder.required_tools.role" (BuilderToolContract.role tool) 64;;
  validate_sha256 "builder.required_tools.sha256" (BuilderToolContract.sha256 tool);;
  if decide (BuilderToolContract.version tool = [] ∨ (256 < len (BuilderToolContract.version tool))%N ∨
             Exists is_char_control (chars (BuilderToolContract.version tool)))
  then ManifestError.invalid "builder.required_tools.version" (bs "must contain 1..=256 non-control UTF-8 bytes") else
  Ok ().

Definition require_pinned (field : string) (reason : string) (actual expected : N) : mresult () :=
  if decide (actual ≠ expected) then ManifestError.invalid field (bs reason) else Ok ().

(** The host, the image platform and the guest's CPUs and memory. *)
Definition validate_platform (manifest : ProfileManifest.t) : mresult (Cpu.CpuProfile * Memory.MemoryPolicy) :=
  let cpu := ProfileManifest.cpu manifest in
  let memory := ProfileManifest.memory manifest in
  require_number "schema_version" (ProfileManifest.schema_version manifest) PROFILE_SCHEMA_VERSION;;
  validate_token "profile_id" (ProfileManifest.profile_id manifest) 128;;
  require_value "host_architecture" (ProfileManifest.host_architecture manifest) "x86_64";;
  require_number "host_elf_machine" (ProfileManifest.host_elf_machine manifest) EM_X86_64;;
  require_value "oci_os" (ProfileManifest.oci_os manifest) "linux";;
  require_value "oci_architecture" (ProfileManifest.oci_architecture manifest) "amd64";;
  require_value "uml_subarchitecture" (ProfileManifest.uml_subarchitecture manifest) "x86_64";;
  require_number "guest_page_size" (ProfileManifest.guest_page_size manifest) 4096;;
  if decide (ProfileManifest.accepted_oci_variants manifest = [])
  then ManifestError.invalid "accepted_oci_variants" (bs "at least one variant policy entry is required") else
  each_unique check_variant id (ManifestError.InvalidField "accepted_oci_variants" (bs "duplicate variant entry"))
    (ProfileManifest.accepted_oci_variants manifest);;
  cpu_profile ← map_err ManifestError.Cpu
    (Cpu.profile_new (CpuManifest.smp_enabled cpu) (CpuManifest.product_max_cpus cpu) (CpuManifest.compiled_nr_cpus cpu));
  if decide (Cpu.effective_max_cpus cpu_profile ≠ CpuManifest.effective_max_cpus cpu)
  then ManifestError.invalid "cpu.effective_max_cpus"
         (bs "declared " ++ to_decimal (CpuManifest.effective_max_cpus cpu) ++ bs ", computed " ++
          to_decimal (Cpu.effective_max_cpus cpu_profile)) else
  memory_policy ← map_err ManifestError.Memory
    (Memory.policy_new (MemoryManifest.minimum_bytes memory) (MemoryManifest.effective_max_memory_bytes memory)
       (MemoryManifest.alignment_bytes memory));
  if decide (MemoryManifest.product_maximum_bytes memory < MemoryManifest.effective_max_memory_bytes memory)%N
  then ManifestError.invalid "memory.effective_max_memory_bytes"
         (bs "tested effective maximum exceeds the product maximum") else
  if decide (¬ is_multiple_of (MemoryManifest.product_maximum_bytes memory) (MemoryManifest.alignment_bytes memory))
  then ManifestError.invalid "memory.product_maximum_bytes" (bs "product maximum is not aligned") else
  each (check_memory memory)
    [("memory.default_memory_bytes", MemoryManifest.default_memory_bytes memory);
     ("memory.builder_memory_bytes", MemoryManifest.builder_memory_bytes memory);
     ("memory.validator_memory_bytes", MemoryManifest.validator_memory_bytes memory)]%string;;
  Ok (cpu_profile, memory_policy).

(** The contracts and the builder's tools. *)
Definition validate_contracts (manifest : ProfileManifest.t) : mresult () :=
  let contracts := ProfileManifest.contracts manifest in
  let builder := ProfileManifest.builder manifest in
  let validator := ProfileManifest.validator manifest in
  validate_token "contracts.selector_policy" (Contracts.selector_policy contracts) 128;;
  require_value "contracts.selector_policy" (Contracts.selector_policy contracts) "native-amd64-v1";;
  require_value "contracts.root_layout" (Contracts.root_layout contracts) "pocket-root-v1";;
  require_value "contracts.filesystem" (Contracts.filesystem contracts) "ext4-v1-b4096";;
  require_value "contracts.cpu_state_hwcap_policy" (Contracts.cpu_state_hwcap_policy contracts) "native-x86_64-v1";;
  require_value "contracts.guest_capability_policy" (Contracts.guest_capability_policy contracts) "fixed-capabilities-v1";;
  validate_hello_contract "hello" (ProfileManifest.hello manifest);;
  validate_workload_features (HelloContract.required_features (ProfileManifest.hello manifest));;
  validate_hello_contract "builder.hello" (BuilderContract.hello builder);;
  validate_builder_features (HelloContract.required_features (BuilderContract.hello builder));;
  require_value "builder.manifest_schema" (BuilderContract.manifest_schema builder) "pocket-fs-manifest-v1";;
  if decide (¬ (SOURCE_DATE_EPOCH_MIN ≤ BuilderContract.source_date_epoch builder ≤ SOURCE_DATE_EPOCH_MAX)%N)
  then ManifestError.invalid "builder.source_date_epoch"
         (bs "must be a pinned Unix timestamp from 2000-01-01 through 2100-01-01") else
  if decide (BuilderContract.required_tools builder = [] ∨ (16 < len (BuilderContract.required_tools builder))%N)
  then ManifestError.invalid "builder.required_tools" (bs "must contain 1..=16 tool identities") else
  each_sorted check_tool BuilderToolContract.role
    (ManifestError.InvalidField "builder.required_tools" (bs "tool roles must be unique and sorted"))
    (BuilderContract.required_tools builder);;
  if decide (binary_search_by (λ tool, bytes_compare (BuilderToolContract.role tool) (bs "umoci"))
               (BuilderContract.required_tools builder) = None)
  then ManifestError.invalid "builder.required_tools" (bs "the current builder requires an exact umoci identity") else
  validate_hello_contract "validator.hello" (ValidatorContract.hello validator);;
  validate_validator_features (HelloContract.required_features (ValidatorContract.hello validator));;
  require_value "validator.manifest_schema" (ValidatorContract.manifest_schema validator) "pocket-fs-manifest-v1".

(** How User-mode Linux is launched. *)
Definition validate_launch (launch : LaunchContract.t) : mresult () :=
  require_value "launch.linkage" (LaunchContract.linkage launch) "static";;
  require_value "launch.cooperative_backend" (LaunchContract.cooperative_backend launch) "seccomp-on";;
  if decide (LaunchContract.noreboot launch = false)
  then Err (ManifestError.UnsupportedContract "launch.noreboot" (bs "false")) else
  require_value "launch.rdinit" (LaunchContract.rdinit launch) "/init";;
  require_value "launch.rootfstype" (LaunchContract.rootfstype launch) "ramfs";;
  require_value "launch.ubd" (LaunchContract.ubd launch) "cow-v3";;
  require_value "launch.serial" (LaunchContract.serial launch) "ssl-fd-v1";;
  require_value "launch.network" (LaunchContract.network launch) "slirp-bess-v1";;
  require_pinned "launch.max_ubd_path_bytes" "Linux 7.2 COW v3 backing paths require the pinned value 4095"
    (LaunchContract.max_ubd_path_bytes launch) 4095;;
  require_pinned "launch.max_umid_bytes" "Linux 7.2 UMID_LEN requires the pinned value 63"
    (LaunchContract.max_umid_bytes launch) 63;;
  require_pinned "launch.max_unix_path_bytes" "the pinned sockaddr_un pathname limit is 107 bytes"
    (LaunchContract.max_unix_path_bytes launch) 107.

Definition validate_manifest (manifest : ProfileManifest.t) : mresult (Cpu.CpuProfile * Memory.MemoryPolicy) :=
  policies ← validate_platform manifest;
  validate_contracts manifest;;
  validate_launch (ProfileManifest.launch manifest);;
  Ok policies.

(** ** What is accepted *)
Definition hello_ok (hello : HelloContract.t) (features : list bytes) : Prop :=
  Forall is_hex64 [HelloContract.guest_contract_id hello; HelloContract.init_build_id hello;
                   HelloContract.kernel_build_id hello] ∧
  HelloContract.required_features hello = features.

Definition tool_ok (tool : BuilderToolContract.t) : Prop :=
  token_ok (BuilderToolContract.role tool) 64 ∧ is_hex64 (BuilderToolContract.sha256 tool) ∧
  BuilderToolContract.version tool ≠ [] ∧ (len (BuilderToolContract.version tool) ≤ 256)%N ∧
  Forall (λ c, ¬ is_char_control c) (chars (BuilderToolContract.version tool)).

(** A single CPU, or as many as both the product and the kernel allow. *)
Definition cpu_ok (cpu : CpuManifest.t) : Prop :=
  (1 ≤ CpuManifest.product_max_cpus cpu ≤ 64)%N ∧
  if CpuManifest.smp_enabled cpu
  then ∃ compiled, CpuManifest.compiled_nr_cpus cpu = Some compiled ∧ (2 ≤ compiled ≤ 64)%N ∧
         CpuManifest.effective_max_cpus cpu = N.min (CpuManifest.product_max_cpus cpu) compiled
  else CpuManifest.compiled_nr_cpus cpu = None ∧ CpuManifest.product_max_cpus cpu = 1%N ∧
         CpuManifest.effective_max_cpus cpu = 1%N.

(** A size that guests of the profile can be given. *)
Definition size_ok (memory : MemoryManifest.t) (size : N) : Prop :=
  (MemoryManifest.minimum_bytes memory ≤ size ≤ MemoryManifest.effective_max_memory_bytes memory)%N ∧
  (MemoryManifest.alignment_bytes memory | size)%N.

Definition memory_ok (memory : MemoryManifest.t) : Prop :=
  (0 < MemoryManifest.minimum_bytes memory)%N ∧
  (MemoryManifest.effective_max_memory_bytes memory ≤ MemoryManifest.product_maximum_bytes memory)%N ∧
  is_power_of_two (MemoryManifest.alignment_bytes memory) ∧ MemoryManifest.alignment_bytes memory ≠ 0%N ∧
  (MemoryManifest.alignment_bytes memory | MemoryManifest.product_maximum_bytes memory)%N ∧
  Forall (size_ok memory)
    [MemoryManifest.minimum_bytes memory; MemoryManifest.effective_max_memory_bytes memory;
     MemoryManifest.default_memory_bytes memory; MemoryManifest.builder_memory_bytes memory;
     MemoryManifest.validator_memory_bytes memory].

Definition tools_ok (tools : list BuilderToolContract.t) : Prop :=
  (len tools ≤ 16)%N ∧ Forall tool_ok tools ∧ strictly_sorted_by BuilderToolContract.role tools ∧
  bs "umoci" ∈ BuilderToolContract.role <$> tools.

Definition SUPPORTED_CONTRACTS : Contracts.t :=
  Contracts.contracts (bs "native-amd64-v1") (bs "pocket-root-v1") (bs "ext4-v1-b4096") (bs "native-x86_64-v1")
    (bs "fixed-capabilities-v1").
Definition SUPPORTED_LAUNCH : LaunchContract.t :=
  LaunchContract.launch_contract (bs "static") (bs "seccomp-on") true (bs "/init") (bs "ramfs") (bs "cow-v3")
    (bs "ssl-fd-v1") (bs "slirp-bess-v1") 4095 63 107.
Definition SUPPORTED_VARIANTS : list (list (option bytes)) :=
  [[None]; [Some (bs "v1")]; [None; Some (bs "v1")]; [Some (bs "v1"); None]].

Record manifest_ok (m : ProfileManifest.t) : Prop := {
  ok_schema : ProfileManifest.schema_version m = 3%N;
  ok_profile_id : token_ok (ProfileManifest.profile_id m) 128;
  ok_host : ProfileManifest.host_architecture m = bs "x86_64" ∧ ProfileManifest.host_elf_machine m = EM_X86_64 ∧
    ProfileManifest.uml_subarchitecture m = bs "x86_64" ∧ ProfileManifest.guest_page_size m = 4096%N;
  ok_image : ProfileManifest.oci_os m = bs "linux" ∧ ProfileManifest.oci_architecture m = bs "amd64" ∧
    ProfileManifest.accepted_oci_variants m ∈ SUPPORTED_VARIANTS;
  ok_cpu : cpu_ok (ProfileManifest.cpu m);
  ok_memory : memory_ok (ProfileManifest.memory m);
  ok_contracts : ProfileManifest.contracts m = SUPPORTED_CONTRACTS;
  ok_hello : hello_ok (ProfileManifest.hello m) WORKLOAD_GUEST_FEATURES;
  ok_builder : hello_ok (BuilderContract.hello (ProfileManifest.builder m)) BUILDER_GUEST_FEATURES ∧
    BuilderContract.manifest_schema (ProfileManifest.builder m) = bs "pocket-fs-manifest-v1" ∧
    (SOURCE_DATE_EPOCH_MIN ≤ BuilderContract.source_date_epoch (ProfileManifest.builder m) ≤ SOURCE_DATE_EPOCH_MAX)%N ∧
    tools_ok (BuilderContract.required_tools (ProfileManifest.builder m));
  ok_validator : hello_ok (ValidatorContract.hello (ProfileManifest.validator m)) VALIDATOR_GUEST_FEATURES ∧
    ValidatorContract.manifest_schema (ProfileManifest.validator m) = bs "pocket-fs-manifest-v1";
  ok_launch : ProfileManifest.launch m = SUPPORTED_LAUNCH;
}.

Definition cpu_profile_of (cpu : CpuManifest.t) : Cpu.CpuProfile :=
  Cpu.cpu_profile (CpuManifest.smp_enabled cpu) (CpuManifest.product_max_cpus cpu) (CpuManifest.compiled_nr_cpus cpu)
    (CpuManifest.effective_max_cpus cpu).
Definition memory_policy_of (memory : MemoryManifest.t) : Memory.MemoryPolicy :=
  Memory.memory_policy (MemoryManifest.minimum_bytes memory) (MemoryManifest.effective_max_memory_bytes memory)
    (MemoryManifest.alignment_bytes memory).

(** ** The field checks *)
Lemma require_eq_Ok {E A} `{EqDecision A} (a b : A) (e : E) :
  (if decide (a ≠ b) then Err e else Ok ()) = Ok () ↔ a = b.
Proof. case_decide; naive_solver. Qed.
Lemma require_value_Ok f a e : require_value f a e = Ok () ↔ a = bs e.
Proof. apply require_eq_Ok. Qed.
Lemma require_number_Ok f a e : require_number f a e = Ok () ↔ a = e.
Proof. apply require_eq_Ok. Qed.
Lemma require_pinned_Ok f r a e : require_pinned f r a e = Ok () ↔ a = e.
Proof. apply require_eq_Ok. Qed.

Lemma manifest_token_Ok f v m : validate_token f v m = Ok () ↔ token_ok v m.
Proof.
  unfold validate_token, token_ok. rewrite !manifest_guard_ok, not_or_and. split.
  - intros ([? ?] & ?%dec_stable & _). split_and!; [lia|done|done].
  - intros (? & ? & ?). split_and!; [done|lia|tauto|done].
Qed.
Lemma manifest_sha256_Ok f v : validate_sha256 f v = Ok () ↔ is_hex64 v.
Proof. unfold validate_sha256. rewrite manifest_guard_ok. split; [by intros [?%dec_stable _]|split; tauto]. Qed.
Create Rewrite HintDb manifest.
#[export] Hint Rewrite require_value_Ok require_number_Ok require_pinned_Ok manifest_token_Ok manifest_sha256_Ok : manifest.

Lemma validate_hello_contract_Ok prefix hello :
  validate_hello_contract prefix hello = Ok () ↔
  Forall is_hex64 [HelloContract.guest_contract_id hello; HelloContract.init_build_id hello;
                   HelloContract.kernel_build_id hello].
Proof.
  unfold validate_hello_contract, hello_fields. rewrite each_ok. cbn [zip zip_with].
  rewrite !Forall_cons, !Forall_nil. cbv beta iota. by rewrite !manifest_sha256_Ok.
Qed.

(** A feature list that is fixed is accepted exactly when it is that list, because the
    fixed one is sorted and made of tokens itself. *)
Lemma validate_features_Ok field guest expected features :
  validate_sorted_features field expected = Ok () →
  validate_features field guest expected features = Ok () ↔ features = expected.
Proof.
  intros He. unfold validate_features. rewrite bind_unit_ok. setoid_rewrite require_eq_Ok. naive_solver.
Qed.
Lemma validate_workload_features_Ok features :
  validate_workload_features features = Ok () ↔ features = WORKLOAD_GUEST_FEATURES.
Proof. apply validate_features_Ok. by vm_compute. Qed.
Lemma validate_builder_features_Ok features :
  validate_builder_features features = Ok () ↔ features = BUILDER_GUEST_FEATURES.
Proof. apply validate_features_Ok. by vm_compute. Qed.
Lemma validate_validator_features_Ok features :
  validate_validator_features features = Ok () ↔ features = VALIDATOR_GUEST_FEATURES.
Proof. apply validate_features_Ok. by vm_compute. Qed.
#[export] Hint Rewrite validate_hello_contract_Ok validate_workload_features_Ok validate_builder_features_Ok
  validate_validator_features_Ok : manifest.

Lemma check_variant_Ok v : check_variant v = Ok () ↔ v = None ∨ v = Some (bs "v1").
Proof.
  destruct v as [v|]; simpl; [|naive_solver]. rewrite bind_unit_ok, manifest_token_Ok, require_eq_Ok. split.
  - intros [_ ->]. by right.
  - intros [?|[= ->]]; [done|]. split; [|done]. apply (manifest_token_Ok "accepted_oci_variants"). by vm_compute.
Qed.

Lemma variants_Ok e l :
  l ≠ [] ∧ each_unique check_variant id e l = Ok () ↔ l ∈ SUPPORTED_VARIANTS.
Proof.
  rewrite each_unique_Ok, list_fmap_id. setoid_rewrite check_variant_Ok. split.
  - intros (Hne & Hv & Hnd). unfold SUPPORTED_VARIANTS.
    assert (length l ≤ 2) as Hl.
    { apply (submseteq_length l [None; Some (bs "v1")]), NoDup_submseteq; [done|]. intros v Hin.
      rewrite Forall_forall in Hv. apply Hv in Hin. set_solver. }
    destruct l as [|v [|w [|]]]; [done| | |simpl in Hl; lia];
      rewrite ?Forall_cons in Hv; rewrite ?NoDup_cons in Hnd; set_solver.
  - unfold SUPPORTED_VARIANTS. rewrite !elem_of_cons, elem_of_nil.
    intros [->|[->|[->|[->|[]]]]]; (split_and!; [done| |]);
      rewrite ?Forall_cons, ?NoDup_cons; (split_and! || idtac); (apply NoDup_nil_2 || set_solver).
Qed.

Lemma check_tool_Ok tool : check_tool tool = Ok () ↔ tool_ok tool.
Proof.
  unfold check_tool, tool_ok. rewrite !bind_unit_ok, manifest_guard_ok, manifest_token_Ok, manifest_sha256_Ok, !not_or_and.
  rewrite N.nlt_ge, <- Forall_Exists_neg. tauto.
Qed.

Lemma check_memory_Ok memory field value :
  MemoryManifest.alignment_bytes memory ≠ 0%N →
  check_memory memory (field, value) = Ok () ↔ size_ok memory value.
Proof.
  intros Ha. unfold check_memory, size_ok. rewrite !manifest_guard_ok, <- is_multiple_of_divide by done. split.
  - intros (? & ?%dec_stable & _). split; [lia|done].
  - intros [? ?]. split_and!; [lia|tauto|done].
Qed.

Lemma cpu_Ok cpu p :
  Cpu.profile_new (CpuManifest.smp_enabled cpu) (CpuManifest.product_max_cpus cpu) (CpuManifest.compiled_nr_cpus cpu) = Ok p ∧
  Cpu.effective_max_cpus p = CpuManifest.effective_max_cpus cpu ↔
  cpu_ok cpu ∧ p = cpu_profile_of cpu.
Proof.
  destruct cpu as [smp product compiled effective]. unfold cpu_ok, cpu_profile_of, Cpu.profile_new, Cpu.MAX_COMPILED_CPUS. simpl.
  rewrite guard_ok, bind_ok. split.
  - intros [(Hp & e & He & [= <-]) Heq]. simpl in Heq. subst e. split; [|done]. split; [lia|].
    destruct smp; [destruct compiled as [c|]|]; [| |destruct compiled as [c|]]; ok_inv; try done.
    + exists c. split_and!; (done || lia).
    + exfalso. eauto.
  - intros [[Hp H] ->]. split; [|done]. split; [lia|]. exists effective. split; [|done]. destruct smp.
    + destruct H as (c & -> & Hc & ->). by rewrite decide_False by lia.
    + destruct H as (-> & -> & ->). done.
Qed.

Lemma memory_Ok memory p :
  Memory.policy_new (MemoryManifest.minimum_bytes memory) (MemoryManifest.effective_max_memory_bytes memory)
    (MemoryManifest.alignment_bytes memory) = Ok p ∧
  ¬ (MemoryManifest.product_maximum_bytes memory < MemoryManifest.effective_max_memory_bytes memory)%N ∧
  is_multiple_of (MemoryManifest.product_maximum_bytes memory) (MemoryManifest.alignment_bytes memory) ∧
  Forall (λ entry, check_memory memory entry = Ok ())
    [("memory.default_memory_bytes", MemoryManifest.default_memory_bytes memory);
     ("memory.builder_memory_bytes", MemoryManifest.builder_memory_bytes memory);
     ("memory.validator_memory_bytes", MemoryManifest.validator_memory_bytes memory)]%string ↔
  memory_ok memory ∧ p = memory_policy_of memory.
Proof.
  unfold Memory.policy_new, memory_ok, memory_policy_of. rewrite guard_ok, ok_inj, N.nlt_ge, !Forall_cons, !Forall_nil.
  destruct (decide (MemoryManifest.alignment_bytes memory = 0%N)) as [->|Ha]; [tauto|].
  rewrite !check_memory_Ok by done. unfold size_ok. rewrite <- !is_multiple_of_divide by done. split.
  - intros [[H <-] (Hp & Hm & Hd & Hb & Hv & _)].
    rewrite !not_or_and in H. destruct H as (? & ? & _ & ?%dec_stable & ?%dec_stable & ?%dec_stable).
    split_and!; (done || lia || tauto).
  - intros [(? & ? & ? & ? & ? & (? & ?) & (? & ?) & ? & ? & ? & _) ->].
    split_and!; try (done || lia || tauto). rewrite !not_or_and. split_and!; (lia || tauto).
Qed.

Lemma validate_platform_Ok m policies :
  validate_platform m = Ok policies ↔
  ProfileManifest.schema_version m = 3%N ∧ token_ok (ProfileManifest.profile_id m) 128 ∧
  (ProfileManifest.host_architecture m = bs "x86_64" ∧ ProfileManifest.host_elf_machine m = EM_X86_64 ∧
   ProfileManifest.uml_subarchitecture m = bs "x86_64" ∧ ProfileManifest.guest_page_size m = 4096%N) ∧
  (ProfileManifest.oci_os m = bs "linux" ∧ ProfileManifest.oci_architecture m = bs "amd64" ∧
   ProfileManifest.accepted_oci_variants m ∈ SUPPORTED_VARIANTS) ∧
  cpu_ok (ProfileManifest.cpu m) ∧ memory_ok (ProfileManifest.memory m) ∧
  policies = (cpu_profile_of (ProfileManifest.cpu m), memory_policy_of (ProfileManifest.memory m)).
Proof.
  unfold validate_platform. cbv zeta. rewrite !bind_unit_ok. autorewrite with manifest.
  rewrite manifest_guard_ok, bind_unit_ok. split.
  - intros (? & ? & ? & ? & ? & ? & ? & ? & Hv1 & Hv2 & H).
    apply bind_ok in H as (cp & Hcp%map_err_ok & [Heff%dec_stable H]%manifest_guard_ok).
    apply bind_ok in H as (mp & Hmp%map_err_ok & H). rewrite !manifest_guard_ok, bind_unit_ok, each_ok in H.
    destruct H as (Hle & Hmul%dec_stable & Hall & [= <-]).
    destruct (proj1 (cpu_Ok _ _) (conj Hcp Heff)) as [? ->].
    destruct (proj1 (memory_Ok _ _) (conj Hmp (conj Hle (conj Hmul Hall)))) as [? ->].
    apply (conj Hv1), variants_Ok in Hv2. tauto.
  - intros (? & ? & (? & ? & ? & ?) & (? & ? & Hv) & Hc & Hm & ->).
    apply (variants_Ok (ManifestError.InvalidField "accepted_oci_variants" (bs "duplicate variant entry"))) in Hv as [Hv1 Hv2].
    destruct (proj2 (cpu_Ok _ _) (conj Hc eq_refl)) as [Hc1 Hc2].
    destruct (proj2 (memory_Ok _ _) (conj Hm eq_refl)) as (Hm1 & Hm2 & Hm3 & Hm4).
    split_and!; try done. apply bind_ok. eexists. split; [by apply map_err_ok|]. apply manifest_guard_ok.
    split; [tauto|]. apply bind_ok. eexists. split; [by apply map_err_ok|].
    rewrite !manifest_guard_ok, bind_unit_ok, each_ok. split_and!; (done || tauto).
Qed.

Lemma tools_Ok f1 f2 f3 r1 r2 r3 tools :
  (if decide (tools = [] ∨ (16 < len tools)%N) then ManifestError.invalid f1 r1 else
   each_sorted check_tool BuilderToolContract.role (ManifestError.InvalidField f2 r2) tools;;
   if decide (binary_search_by (λ tool, bytes_compare (BuilderToolContract.role tool) (bs "umoci")) tools = None)
   then ManifestError.invalid f3 r3 else Ok ()) = Ok () ↔ tools_ok tools.
Proof.
  unfold tools_ok. rewrite manifest_guard_ok, bind_unit_ok, each_sorted_Ok, manifest_guard_ok, not_or_and, N.nlt_ge.
  setoid_rewrite check_tool_Ok. rewrite list_elem_of_fmap. split.
  - intros ([_ Hl] & [Hall Hs] & Hf & _). split_and!; try done.
    destruct (binary_search_by _ _) as [i|] eqn:Hb; [|done].
    apply binary_search_by_key in Hb as (t & Ht%list_elem_of_lookup_2 & Hr); [|done]. by exists t.
  - intros (Hl & Hall & Hs & t & Hr & [i Hi]%list_elem_of_lookup_1). split_and!; try done.
    + intros ->. done.
    + apply not_eq_None_Some. exists i. apply binary_search_by_key; [done|]. by exists t.
Qed.

Lemma validate_contracts_Ok m :
  validate_contracts m = Ok () ↔
  ProfileManifest.contracts m = SUPPORTED_CONTRACTS ∧
  hello_ok (ProfileManifest.hello m) WORKLOAD_GUEST_FEATURES ∧
  (hello_ok (BuilderContract.hello (ProfileManifest.builder m)) BUILDER_GUEST_FEATURES ∧
   BuilderContract.manifest_schema (ProfileManifest.builder m) = bs "pocket-fs-manifest-v1" ∧
   (SOURCE_DATE_EPOCH_MIN ≤ BuilderContract.source_date_epoch (ProfileManifest.builder m) ≤ SOURCE_DATE_EPOCH_MAX)%N ∧
   tools_ok (BuilderContract.required_tools (ProfileManifest.builder m))) ∧
  hello_ok (ValidatorContract.hello (ProfileManifest.validator m)) VALIDATOR_GUEST_FEATURES ∧
  ValidatorContract.manifest_schema (ProfileManifest.validator m) = bs "pocket-fs-manifest-v1".
Proof.
  unfold validate_contracts, hello_ok, SUPPORTED_CONTRACTS. cbv zeta.
  rewrite <- (tools_Ok "builder.required_tools" "builder.required_tools" "builder.required_tools"
    (bs "must contain 1..=16 tool identities") (bs "tool roles must be unique and sorted")
    (bs "the current builder requires an exact umoci identity")).
  rewrite !bind_unit_ok. autorewrite with manifest.
  rewrite !manifest_guard_ok, !bind_unit_ok, !manifest_guard_ok, !bind_unit_ok. autorewrite with manifest.
  assert (token_ok (bs "native-amd64-v1") 128) as Ht by (apply (manifest_token_Ok "profile_id"); by vm_compute).
  destruct (ProfileManifest.contracts m) as [selector layout filesystem hwcap capability]; simpl. split.
  - intros (_ & -> & -> & -> & -> & -> & ? & ? & ? & ? & ? & ?%dec_stable & ? & ? & ? & ? & ? & ?). tauto.
  - intros ([= -> -> -> -> ->] & [? ?] & ([? ?] & ? & ? & ? & ? & ? & ?) & [? ?] & ?). tauto.
Qed.

Lemma validate_launch_Ok launch : validate_launch launch = Ok () ↔ launch = SUPPORTED_LAUNCH.
Proof.
  destruct launch as [linkage backend noreboot rdinit rootfstype ubd serial network max_ubd max_umid max_unix].
  unfold validate_launch, SUPPORTED_LAUNCH. rewrite !bind_unit_ok, guard_ok, !bind_unit_ok. autorewrite with manifest. simpl.
  split.
  - intros (-> & -> & Hn & -> & -> & -> & -> & -> & -> & -> & ->). by destruct noreboot.
  - intros [= -> -> -> -> -> -> -> -> -> -> ->]. by split_and!.
Qed.

Lemma validate_manifest_Ok m policies :
  validate_manifest m = Ok policies ↔
  manifest_ok m ∧ policies = (cpu_profile_of (ProfileManifest.cpu m), memory_policy_of (ProfileManifest.memory m)).
Proof.
  unfold validate_manifest. rewrite bind_ok. split.
  - intros (p & Hp & H). rewrite !bind_unit_ok, validate_contracts_Ok, validate_launch_Ok, ok_inj in H.
    apply validate_platform_Ok in Hp as (? & ? & ? & ? & ? & ? & ->).
    destruct H as ((? & ? & ? & ?) & ? & <-). by split.
  - intros [[] ->]. eexists. split; [by apply validate_platform_Ok|].
    by rewrite !bind_unit_ok, validate_contracts_Ok, validate_launch_Ok.
Qed.

(** The sizes that a profile names for its guests. *)
Definition named_sizes (memory : MemoryManifest.t) : list N :=
  [MemoryManifest.default_memory_bytes memory; MemoryManifest.builder_memory_bytes memory;
   MemoryManifest.validator_memory_bytes memory].

Lemma named_size_admitted memory size :
  memory_ok memory → size_ok memory size →
  Memory.validate (memory_policy_of memory) (Memory.parsed_memory size) =
  Ok (Memory.validated_memory (Memory.parsed_memory size)).
Proof.
  intros (_ & _ & _ & Ha & _) [Hr Hd]. unfold Memory.validate. simpl.
  apply is_multiple_of_divide in Hd; [|done]. by rewrite !decide_False by (lia || tauto).
Qed.

Lemma np_profile_new smp product compiled : no_panic (Cpu.profile_new smp product compiled).
Proof. unfold Cpu.profile_new. destruct smp, compiled; np. Qed.
Lemma np_policy_new minimum maximum alignment : no_panic (Memory.policy_new minimum maximum alignment).
Proof. unfold Memory.policy_new. np. Qed.
#[export] Hint Resolve np_profile_new np_policy_new : no_panic.

Lemma np_profile_token f v m : no_panic (validate_token f v m).
Proof. unfold validate_token. np. Qed.
Lemma np_profile_sha256 f v : no_panic (validate_sha256 f v).
Proof. unfold validate_sha256. np. Qed.
Lemma np_require_value f a e : no_panic (require_value f a e).
Proof. unfold require_value. np. Qed.
Lemma np_require_number f a e : no_panic (require_number f a e).
Proof. unfold require_number. np. Qed.
Lemma np_require_pinned f r a e : no_panic (require_pinned f r a e).
Proof. unfold require_pinned. np. Qed.
#[export] Hint Resolve np_profile_token np_profile_sha256 np_require_value np_require_number np_require_pinned : no_panic.
Lemma np_check_memory memory entry : no_panic (check_memory memory entry).
Proof. unfold check_memory. destruct entry. np. Qed.
Lemma np_check_variant v : no_panic (check_variant v).
Proof. unfold check_variant. destruct v; np. Qed.
Lemma np_profile_features f g e l : no_panic (validate_features f g e l).
Proof. unfold validate_features, validate_sorted_features. np. Qed.
Lemma np_hello_contract p h : no_panic (validate_hello_contract p h).
Proof. unfold validate_hello_contract. apply np_each. intros []. np. Qed.
Lemma np_check_tool t : no_panic (check_tool t).
Proof. unfold check_tool. np. Qed.
#[export] Hint Resolve np_check_memory np_check_variant np_profile_features np_hello_contract np_check_tool : no_panic.
Lemma np_validate_profile_manifest m : no_panic (validate_manifest m).
Proof.
  unfold validate_manifest, validate_platform, validate_contracts, validate_launch, validate_workload_features,
    validate_builder_features, validate_validator_features. np.
Qed.
#[export] Hint Resolve np_validate_profile_manifest : no_panic.

(** A profile manifest is accepted exactly when it is for this host and these guests:
    one host and image platform, one set of contracts and launch settings, the
    features the three guests announce, CPU and memory limits that fit together, and
    an exact identity of the tools of the builder.  The limits handed on are the declared
    ones, the memory policy admits every size that the manifest names for a guest, and
    checking a manifest always returns. *)
Theorem profile_manifest_exact m :
  no_panic (validate_manifest m) ∧
  ∀ policies, validate_manifest m = Ok policies ↔
    manifest_ok m ∧ policies = (cpu_profile_of (ProfileManifest.cpu m), memory_policy_of (ProfileManifest.memory m)) ∧
    Forall (λ size, Memory.validate policies.2 (Memory.parsed_memory size) =
                    Ok (Memory.validated_memory (Memory.parsed_memory size)))
      (named_sizes (ProfileManifest.memory m)).
Proof.
  split; [apply np_validate_profile_manifest|]. intros policies. rewrite validate_manifest_Ok. split; [|tauto].
  intros [Hok ->]. split_and!; [done|done|]. pose proof (ok_memory _ Hok) as Hm.
  pose proof Hm as (_ & _ & _ & _ & _ & Hs). rewrite !Forall_cons in Hs. destruct Hs as (_ & _ & ? & ? & ? & _).
  unfold named_sizes. rewrite !Forall_cons. split_and!; try by apply named_size_admitted. constructor.
Qed.
