(* ===== verification/Elf.v ===== *)
(** * Static executables: the ELF checks of crates/pocket-runtime/src/manifest.rs

    Before a host executable of a profile is run, its ELF header, its program headers and
    its dynamic table are read: it has to be an x86_64 program that needs no interpreter
    and no shared library.  [static_elf] says that of the bytes of the file, and the
    check accepts exactly the files for which it holds. *)

From S2P Require Import Prelude RustStr ManagedPath Memory Cpu ProtocolError Frame NoPanic HostError HostFiles Profile.

#[local] Arguments bs : simpl never.
#[local] Arguments len : simpl never.

(** [uN::from_le_bytes] *)
Definition from_le (l : bytes) : N := from_be (rev l).

Section elf.
Context (path : bytes) (content : bytes).

Definition elf (reason : bytes) : ManifestError.t := ManifestError.Elf path reason.
Definition elf_io {A} (operation : string) (r : result io_error A) : mresult A :=
  map_err (ManifestError.Io operation path) r.

(** The loop over the entries of a dynamic table: whether a [DT_NULL] was met. *)
Fixpoint dynamic_entries (count : nat) (offset : N) : mresult bool :=
  match count with
  | O => Ok false
  | S count =>
      entry ← elf_io "read ELF dynamic entry" (read_exact_at content offset 16);
      let tag := from_le (slice 0 8 entry) in
      if decide (tag = 1%N)
      then Err (elf (bs "profile declares static linkage but ELF contains DT_NEEDED")) else
      if decide (tag = 0%N) then Ok true else
      dynamic_entries count (offset + 16)
  end.

Definition verify_dynamic_table_has_no_needed (size : N) (program_header : bytes) : mresult () :=
  let offset := from_le (slice 8 8 program_header) in
  let file_size := from_le (slice 32 8 program_header) in
  end_ ← ok_or (checked_add offset file_size) (elf (bs "PT_DYNAMIC range overflow"));
  if decide (file_size = 0%N ∨ ¬ is_multiple_of file_size 16 ∨ (size < end_)%N)
  then Err (elf (bs "PT_DYNAMIC table is outside the file or malformed")) else
  terminated ← dynamic_entries (N.to_nat (file_size / 16)) offset;
  if decide (terminated = false)
  then Err (elf (bs "PT_DYNAMIC table has no DT_NULL terminator")) else
  Ok ().

(** The loop over the program headers.  [phoff + index * phentsize] stays below the end
    of the table, which was computed without overflow. *)
Fixpoint program_headers (size : N) (count : nat) (offset phentsize : N) (has_load : bool) : mresult bool :=
  match count with
  | O => Ok has_load
  | S count =>
      program_header ← elf_io "read ELF program header" (read_exact_at content offset 56);
      let segment_type := from_le (slice 0 4 program_header) in
      has_load ←
        (if decide (segment_type = 1%N) then Ok true else
         if decide (segment_type = 2%N)
         then verify_dynamic_table_has_no_needed size program_header;; Ok has_load else
         if decide (segment_type = 3%N)
         then Err (elf (bs "profile declares static linkage but ELF contains PT_INTERP")) else
         Ok has_load);
      program_headers size count (offset + phentsize) phentsize has_load
  end.

Definition verify_static_x86_64_elf (size : N) : mresult () :=
  header ← elf_io "read ELF header" (read_exact_at content 0 64);
  if decide (slice 0 4 header ≠ x7f :: bs "ELF") then Err (elf (bs "missing ELF magic")) else
  if decide (slice 4 3 header ≠ [x02; x01; x01])
  then Err (elf (bs "requires ELF64 little-endian version 1")) else
  let elf_type := from_le (slice 16 2 header) in
  if decide (¬ (elf_type = 2%N ∨ elf_type = 3%N)) then Err (elf (bs "requires ET_EXEC or ET_DYN")) else
  let machine := from_le (slice 18 2 header) in
  if decide (machine ≠ EM_X86_64)
  then Err (elf (bs "expected e_machine " ++ to_decimal EM_X86_64 ++ bs ", observed " ++ to_decimal machine)) else
  if decide (from_le (slice 52 2 header) ≠ 64%N) then Err (elf (bs "unexpected ELF header size")) else
  let phoff := from_le (slice 32 8 header) in
  let phentsize := from_le (slice 54 2 header) in
  let phnum := from_le (slice 56 2 header) in
  if decide (phnum = 0 ∨ 1024 < phnum ∨ phentsize ≠ 56)%N
  then Err (elf (bs "invalid program-header table shape")) else
  table_size ← ok_or (value ← checked_mul phentsize phnum; checked_add phoff value)
    (elf (bs "program-header table overflow"));
  if decide (size < table_size)%N
  then Err (elf (bs "program-header table is outside the file")) else
  has_load ← program_headers size (N.to_nat phnum) phoff phentsize false;
  if decide (has_load = false) then Err (elf (bs "ELF has no PT_LOAD segment")) else
  Ok ().
End elf.

(** ** What the check accepts *)

(** A little-endian number in the file. *)
Definition field (content : bytes) (offset : N) (width : nat) : N := from_le (slice (N.to_nat offset) width content).

(** A dynamic table that ends, and names no library before its end. *)
Definition dynamic_ok (content : bytes) (offset size : N) : Prop :=
  size ≠ 0%N ∧ is_multiple_of size 16 ∧ (offset + size ≤ len content)%N ∧
  ∃ k, (k < size / 16)%N ∧ field content (offset + 16 * k) 8 = 0%N ∧
    ∀ j, (j < k)%N → field content (offset + 16 * j) 8 ≠ 1%N.

(** A program header that asks for no interpreter. *)
Definition segment_ok (content : bytes) (at_ : N) : Prop :=
  field content at_ 4 ≠ 3%N ∧
  (field content at_ 4 = 2%N → dynamic_ok content (field content (at_ + 8) 8) (field content (at_ + 32) 8)).

Record static_elf (content : bytes) : Prop := {
  elf_identification : slice 0 7 content = x7f :: bs "ELF" ++ [x02; x01; x01];
  elf_program : field content 16 2 = 2%N ∨ field content 16 2 = 3%N;
  elf_machine : field content 18 2 = EM_X86_64;
  elf_sizes : (64 ≤ len content)%N ∧ field content 52 2 = 64%N ∧ field content 54 2 = 56%N;
  elf_table : (1 ≤ field content 56 2 ≤ 1024)%N ∧
    (field content 32 8 + 56 * field content 56 2 ≤ len content)%N;
  elf_segments i : (i < field content 56 2)%N → segment_ok content (field content 32 8 + 56 * i);
  elf_loads : ∃ i, (i < field content 56 2)%N ∧ field content (field content 32 8 + 56 * i) 4 = 1%N;
}.

Lemma slice_slice {a n m off} (l : bytes) :
  a + n ≤ m → slice a n (take m (drop off l)) = slice (off + a) n l.
Proof.
  intros H. unfold slice. rewrite skipn_firstn_comm, take_take, drop_drop. f_equal. lia.
Qed.

Lemma field_read content offset m a n entry :
  read_exact_at content offset m = Ok entry → a + n ≤ N.to_nat m →
  from_le (slice a n entry) = field content (offset + N.of_nat a) n.
Proof.
  intros [_ ->]%read_exact_at_Ok H. unfold field. rewrite slice_slice by done. do 2 f_equal. lia.
Qed.

(** The entries of a table, the first one apart. *)
Lemma forall_table (P : N → Prop) offset width count :
  (∀ i, (i < N.of_nat (S count))%N → P (offset + width * i)%N) ↔
  P offset ∧ ∀ i, (i < N.of_nat count)%N → P (offset + width + width * i)%N.
Proof.
  split.
  - intros H. split; [specialize (H 0%N ltac:(lia)); by rewrite N.mul_0_r, N.add_0_r in H|].
    intros i Hi. replace (offset + width + width * i)%N with (offset + width * (i + 1))%N by lia. apply H. lia.
  - intros [H0 H] i Hi. destruct (decide (i = 0)%N) as [->|]; [by rewrite N.mul_0_r, N.add_0_r|].
    replace (offset + width * i)%N with (offset + width + width * (i - 1))%N by nia. apply H. lia.
Qed.
Lemma exists_table (P : N → Prop) offset width count :
  (∃ i, (i < N.of_nat (S count))%N ∧ P (offset + width * i)%N) ↔
  P offset ∨ ∃ i, (i < N.of_nat count)%N ∧ P (offset + width + width * i)%N.
Proof.
  split.
  - intros (i & Hi & H). destruct (decide (i = 0)%N) as [->|]; [rewrite N.mul_0_r, N.add_0_r in H; by left|].
    right. exists (i - 1)%N. replace (offset + width + width * (i - 1))%N with (offset + width * i)%N by nia. split; [lia|done].
  - intros [H|(i & Hi & H)]; [exists 0%N; rewrite N.mul_0_r, N.add_0_r; split; [lia|done]|].
    exists (i + 1)%N. replace (offset + width * (i + 1))%N with (offset + width + width * i)%N by lia. split; [lia|done].
Qed.

Section exact.
Context (path : bytes) (content : bytes).

Lemma elf_io_Ok {A} operation (r : result io_error A) a : elf_io path operation r = Ok a ↔ r = Ok a.
Proof. apply map_err_ok. Qed.

Lemma dynamic_entries_Ok count offset :
  (offset + 16 * N.of_nat count ≤ len content)%N →
  dynamic_entries path content count offset = Ok true ↔
  ∃ k, (k < N.of_nat count)%N ∧ field content (offset + 16 * k) 8 = 0%N ∧
    ∀ j, (j < k)%N → field content (offset + 16 * j) 8 ≠ 1%N.
Proof.
  revert offset. induction count as [|count IH]; intros offset Hc; cbn [dynamic_entries].
  { split; [done|]. intros (k & ? & _). lia. }
  rewrite bind_ok. setoid_rewrite elf_io_Ok. cbv zeta.
  assert (∃ entry, read_exact_at content offset 16 = Ok entry) as [entry He].
  { eexists. apply read_exact_at_Ok. split; [lia|done]. }
  pose proof (field_read _ _ _ 0 8 _ He ltac:(lia)) as Hf. rewrite N.add_0_r in Hf.
  assert (∀ j, (offset + 16 + 16 * j = offset + 16 * (j + 1))%N) as Hs by lia. split.
  - intros (e & He' & H). rewrite He in He'. injection He' as <-. rewrite Hf in H. apply guard_ok in H as [H1 H].
    case_decide as H0; [exists 0%N; rewrite N.mul_0_r, N.add_0_r; split_and!; [lia|done|lia]|].
    apply IH in H as (k & Hk & Hz & Hb); [|lia]. exists (k + 1)%N. rewrite <- Hs. split_and!; [lia|done|].
    intros j Hj. destruct (decide (j = 0)%N) as [->|]; [by rewrite N.mul_0_r, N.add_0_r|].
    replace j with (j - 1 + 1)%N by lia. rewrite <- Hs. apply Hb. lia.
  - intros (k & Hk & Hz & Hb). exists entry. split; [done|]. rewrite Hf. apply guard_ok.
    destruct (decide (k = 0)%N) as [->|Hk0].
    { rewrite N.mul_0_r, N.add_0_r in Hz. by rewrite Hz. }
    split; [specialize (Hb 0%N ltac:(lia)); by rewrite N.mul_0_r, N.add_0_r in Hb|]. case_decide; [done|].
    apply IH; [lia|]. exists (k - 1)%N. rewrite !Hs, N.sub_add by lia. split_and!; [lia|done|].
    intros j Hj. rewrite Hs. apply Hb. lia.
Qed.

Context (Hsize : (len content < u64_bound)%N).

Lemma verify_dynamic_Ok at_ header :
  read_exact_at content at_ 56 = Ok header →
  verify_dynamic_table_has_no_needed path content (len content) header = Ok () ↔
  dynamic_ok content (field content (at_ + 8) 8) (field content (at_ + 32) 8).
Proof.
  intros Hh. unfold verify_dynamic_table_has_no_needed, dynamic_ok. cbv zeta.
  rewrite (field_read _ _ _ 8 8 _ Hh), (field_read _ _ _ 32 8 _ Hh) by lia.
  change (N.of_nat 8) with 8%N. change (N.of_nat 32) with 32%N.
  generalize (field content (at_ + 8) 8), (field content (at_ + 32) 8). intros offset size.
  assert (is_multiple_of size 16 → size = 16 * (size / 16))%N as Hm.
  { unfold is_multiple_of. intros. pose proof (N.div_mod size 16). lia. }
  rewrite bind_ok. setoid_rewrite ok_or_ok. setoid_rewrite checked_add_Some. split.
  - intros (e & [-> Hb] & [Hg H]%guard_ok). rewrite !not_or_and, N.nlt_ge in Hg. destruct Hg as (Hz & Hmul%dec_stable & Hle).
    apply bind_ok in H as (t & Ht & [Hf _]%guard_ok). destruct t; [|done]. pose proof (Hm Hmul).
    apply dynamic_entries_Ok in Ht; [|rewrite N2Nat.id; lia]. rewrite N2Nat.id in Ht. done.
  - intros (Hz & Hmul & Hle & Hk). exists (offset + size)%N. split; [split; [done|lia]|]. apply guard_ok.
    rewrite !not_or_and, N.nlt_ge. split; [split_and!; (done || tauto)|]. apply bind_ok. exists true. pose proof (Hm Hmul).
    split; [|done]. apply dynamic_entries_Ok; rewrite N2Nat.id; [lia|done].
Qed.

Lemma program_headers_Ok count offset has_load :
  (offset + 56 * N.of_nat count ≤ len content)%N →
  program_headers path content (len content) count offset 56 has_load = Ok true ↔
  (∀ i, (i < N.of_nat count)%N → segment_ok content (offset + 56 * i)) ∧
  (has_load = true ∨ ∃ i, (i < N.of_nat count)%N ∧ field content (offset + 56 * i) 4 = 1%N).
Proof.
  revert offset has_load. induction count as [|count IH]; intros offset has_load Hc; cbn [program_headers].
  { rewrite ok_inj. split; [intros ->; split; [lia|by left]|]. intros [_ [->|(i & ? & _)]]; [done|lia]. }
  assert (∃ header, read_exact_at content offset 56 = Ok header) as [header Hh].
  { eexists. apply read_exact_at_Ok. split; [lia|done]. }
  rewrite (forall_table (segment_ok content)), (exists_table (λ at_, field content at_ 4 = 1%N)), Hh. unfold elf_io. rsimpl. pose proof (field_read _ _ _ 0 4 _ Hh ltac:(lia)) as Hf.
  rewrite N.add_0_r in Hf. rewrite Hf. pose proof (verify_dynamic_Ok _ _ Hh) as Hd.
  assert (∀ b, program_headers path content (len content) count (offset + 56) 56 b = Ok true ↔
    (∀ i, (i < N.of_nat count)%N → segment_ok content (offset + 56 + 56 * i)) ∧
    (b = true ∨ ∃ i, (i < N.of_nat count)%N ∧ field content (offset + 56 + 56 * i) 4 = 1%N)) as IH'
    by (intros; apply IH; lia). clear IH.
  unfold segment_ok at 1. rewrite <- Hd. repeat case_decide; rsimpl.
  - rewrite IH'. split; [intros [Hs _]; split; [split; [split; [lia|intros; exfalso; lia]|done]|tauto]|].
    intros [[_ Hs] _]. by split; [|left].
  - split.
    + intros (b & (Hv & Hb)%bind_unit_ok & Hrest)%bind_ok. injection Hb as <-. apply IH' in Hrest as [Hs Hl].
      split; [split; [split; [lia|done]|done]|tauto].
    + intros [[[_ Hv] Hs] Hl]. rewrite Hv by done. rsimpl. apply IH'. split; [done|]. destruct Hl as [?|[?|?]]; [by left|lia|by right].
  - split; [done|]. intros [[[? _] _] _]. done.
  - rewrite IH'. split; [intros [Hs Hl]; split; [split; [split; [done|done]|done]|tauto]|].
    intros [[_ Hs] [?|[?|?]]]; (split; [done|]); [by left|done|by right].
Qed.
End exact.

Lemma identification content :
  slice 0 7 content = x7f :: bs "ELF" ++ [x02; x01; x01] ↔
  slice 0 4 content = x7f :: bs "ELF" ∧ slice 4 3 content = [x02; x01; x01].
Proof.
  unfold slice. rewrite drop_0. change 7 with (4 + 3). rewrite <- take_take_drop.
  change (x7f :: bs "ELF" ++ [x02; x01; x01]) with ((x7f :: bs "ELF") ++ [x02; x01; x01]). split.
  - intros H. destruct (decide (4 ≤ length content)) as [Hl|Hl].
    + by apply app_inj_1 in H; [|rewrite length_take_le].
    + assert (length (take 4 content ++ take 3 (drop 4 content)) = 7) as Hn by (by rewrite H).
      rewrite length_app, !length_take, length_drop in Hn. lia.
  - by intros [-> ->].
Qed.

(** A host executable passes exactly when it is an x86_64 ELF program, with a loadable
    segment, whose program headers lie inside the file, ask for no interpreter, and
    whose dynamic tables end inside the file and name no shared library. *)
Theorem static_elf_exact path content :
  (len content < u64_bound)%N →
  verify_static_x86_64_elf path content (len content) = Ok () ↔ static_elf content.
Proof.
  intros Hsize. unfold verify_static_x86_64_elf. rewrite bind_ok. setoid_rewrite elf_io_Ok. split.
  - intros (header & Hh & H). pose proof Hh as [Hl _]%read_exact_at_Ok. cbv zeta in H.
    rewrite !(field_read _ _ _ _ _ _ Hh) in H by lia. rewrite !N.add_0_l in H. rewrite !guard_ok in H.
    cbv [N.of_nat Pos.of_succ_nat Pos.succ] in H.
    destruct H as (Hmagic%dec_stable & Hclass%dec_stable & Htype%dec_stable & Hmachine%dec_stable & Heh%dec_stable & Hshape & H).
    rewrite !not_or_and in Hshape. destruct Hshape as (? & ? & Hent%dec_stable).
    apply bind_ok in H as (table & Ht%ok_or_ok & [Hin H]%guard_ok).
    apply bind_Some in Ht as (v & [-> _]%checked_mul_Some & [-> _]%checked_add_Some).
    apply bind_ok in H as (has_load & Hp & [Hload _]%guard_ok). destruct has_load; [|done].
    rewrite Hent in *. apply program_headers_Ok in Hp as [Hs [?|Hex]]; [done| |lia|rewrite N2Nat.id; lia].
    rewrite N2Nat.id in Hs, Hex. split; try done; [|split; lia].
    apply read_exact_at_Ok in Hh as [_ ->]. rewrite slice_slice in Hmagic by lia. rewrite slice_slice in Hclass by lia. by apply identification.
  - intros [[Hmagic Hclass]%identification Htype Hmachine (Hl & Heh & Hent) [Hnum Hin] Hs Hex].
    eexists. split; [by apply read_exact_at_Ok|]. cbv zeta.
    assert (read_exact_at content 0 64 = Ok (take (N.to_nat 64) (drop (N.to_nat 0) content))) as Hh by by apply read_exact_at_Ok.
    rewrite !(field_read _ _ _ _ _ _ Hh) by lia. rewrite !N.add_0_l, !slice_slice by lia.
    cbv [N.of_nat Pos.of_succ_nat Pos.succ]. rewrite Hent, !guard_ok, !not_or_and.
    split_and!; try (done || lia || tauto). apply bind_ok. eexists. rewrite ok_or_ok, bind_Some, guard_ok. split.
    { eexists. rewrite checked_mul_Some, checked_add_Some. split; (split; [done|]); lia. }
    split; [lia|]. apply bind_ok. exists true. split; [|done].
    apply program_headers_Ok; rewrite ?N2Nat.id; [done|lia|]. by split; [|right].
Qed.

(** ** A program with one loadable segment and a dynamic table *)
Module SampleElf.
Definition to_le (w : nat) (n : N) : bytes := rev (to_be w n).
Definition zeros (n : nat) : bytes := replicate n x00.
Definition elf_header (phnum : N) : bytes :=
  x7f :: bs "ELF" ++ [x02; x01; x01] ++ zeros 9 ++ to_le 2 3 ++ to_le 2 62 ++ zeros 12 ++ to_le 8 64 ++ zeros 12 ++
  to_le 2 64 ++ to_le 2 56 ++ to_le 2 phnum ++ zeros 6.
Definition program_header (kind offset size : N) : bytes :=
  to_le 4 kind ++ zeros 4 ++ to_le 8 offset ++ zeros 16 ++ to_le 8 size ++ zeros 16.
Definition program : bytes :=
  elf_header 2 ++ program_header 1 0 0 ++ program_header 2 176 32 ++ to_le 8 5 ++ zeros 8 ++ zeros 16.
(** The same with the tag [DT_NEEDED]. *)
Definition linked_program : bytes :=
  elf_header 2 ++ program_header 1 0 0 ++ program_header 2 176 32 ++ to_le 8 1 ++ zeros 8 ++ zeros 16.

Lemma static_elf_exact_witness : static_elf program ∧ ¬ static_elf linked_program.
Proof.
  split.
  - apply (static_elf_exact [] program); vm_compute; reflexivity.
  - rewrite <- (static_elf_exact [] linked_program) by (vm_compute; reflexivity). vm_compute. discriminate.
Defined.
End SampleElf.
