(* ===== verification/ProfileText.v ===== *)
(** * Texts of a profile: crates/pocket-runtime/src/manifest.rs

    The normalised kernel configuration and the registry's certificate bundle: how the
    two files are read and what they have to contain.  The bundle is checked by a loop
    over its lines; [pem] is the grammar that the loop recognises. *)

From stdpp Require Import gmap.
From S2P Require Import Prelude RustStr Utf8 ManagedPath Memory Cpu ProtocolError NoPanic HostError HostFiles Parameters Profile.

#[local] Arguments bs : simpl never.
#[local] Arguments len : simpl never.

Definition MAX_CONFIG_BYTES : N := 4 * 1024 * 1024.
Definition MAX_CA_BUNDLE_BYTES : N := 16 * 1024 * 1024.

(** [str::strip_suffix] *)
Definition strip_suffix (suffix s : bytes) : option bytes := reverse <$> strip_prefix (reverse suffix) (reverse s).

(** [?] on an answer of [std::fs], with the operation named in the error *)
Definition manifest_io {A} (operation : string) (path : bytes) (r : io_error + A) : mresult A :=
  match r with inl source => Err (ManifestError.Io operation path source) | inr a => Ok a end.

Section files.
Context (fs : Files.t).

Definition read_bounded (path : bytes) (maximum : N) : mresult bytes :=
  metadata ← manifest_io "inspect bounded file" path (Files.symlink_metadata fs path);
  if decide (Metadata.is_file metadata = false) then Err (ManifestError.ArtifactType path) else
  if decide (maximum < Metadata.size metadata)%N then Err (ManifestError.TooLarge path maximum) else
  bytes ← manifest_io "read bounded file" path (contents fs path);
  if decide (maximum < len bytes)%N then Err (ManifestError.TooLarge path maximum) else
  Ok bytes.
End files.

(** ** The kernel configuration *)
Definition CONFIG_ : bytes := bs "CONFIG_".

Definition parse_config_line (line : bytes) : option (bytes * bytes) :=
  match split_once x3d line with
  | Some (key, value) => if decide (is_Some (strip_prefix CONFIG_ key)) then Some (key, value) else None
  | None =>
      key ← strip_prefix (bs "# ") line ≫= strip_suffix (bs " is not set");
      if decide (is_Some (strip_prefix CONFIG_ key)) then Some (key, bs "n") else None
  end.

Definition duplicate_setting (key : bytes) : ManifestError.t :=
  ManifestError.InvalidField "normalized_kernel_config" (bs "duplicate setting " ++ key).

Definition required : list (string * string) :=
  [("CONFIG_UML", "y"); ("CONFIG_64BIT", "y"); ("CONFIG_X86_64", "y"); ("CONFIG_STATIC_LINK", "y");
   ("CONFIG_LD_SCRIPT_STATIC", "y"); ("CONFIG_BLK_DEV_INITRD", "y"); ("CONFIG_BLK_DEV_UBD", "y");
   ("CONFIG_BLK_DEV_UBD_SYNC", "n"); ("CONFIG_BLK_DEV_LOOP", "y"); ("CONFIG_USER_NS", "y"); ("CONFIG_OVERLAY_FS", "y");
   ("CONFIG_NETDEVICES", "y"); ("CONFIG_VETH", "y"); ("CONFIG_BRIDGE", "y"); ("CONFIG_NETFILTER", "y");
   ("CONFIG_NF_NAT", "y"); ("CONFIG_MEMCG", "y"); ("CONFIG_CGROUP_PIDS", "y"); ("CONFIG_SECCOMP_FILTER", "y");
   ("CONFIG_BPF_SYSCALL", "y"); ("CONFIG_CGROUP_BPF", "y"); ("CONFIG_BLK_DEV_NBD", "n"); ("CONFIG_EXT4_FS", "y");
   ("CONFIG_EXT4_FS_POSIX_ACL", "y"); ("CONFIG_EXT4_FS_SECURITY", "y"); ("CONFIG_TMPFS", "y"); ("CONFIG_PROC_FS", "y");
   ("CONFIG_SYSFS", "y"); ("CONFIG_DEVTMPFS", "y"); ("CONFIG_DEVTMPFS_MOUNT", "y"); ("CONFIG_BINFMT_ELF", "y");
   ("CONFIG_BINFMT_SCRIPT", "y"); ("CONFIG_EPOLL", "y"); ("CONFIG_FUTEX", "y"); ("CONFIG_TIMERFD", "y");
   ("CONFIG_EVENTFD", "y"); ("CONFIG_MEMFD_CREATE", "y"); ("CONFIG_SIGNALFD", "y"); ("CONFIG_SECCOMP", "y");
   ("CONFIG_SECCOMP_FILTER", "y"); ("CONFIG_NAMESPACES", "y"); ("CONFIG_UTS_NS", "y"); ("CONFIG_IPC_NS", "y");
   ("CONFIG_PID_NS", "y"); ("CONFIG_SSL", "y"); ("CONFIG_NULL_CHAN", "y"); ("CONFIG_HOSTFS", "y");
   ("CONFIG_MCONSOLE", "n"); ("CONFIG_MODULES", "n"); ("CONFIG_UML_NET_VECTOR", "y");
   ("CONFIG_UML_NET_VECTOR_IP_TRANSPORTS", "n"); ("CONFIG_DEBUG_INFO_NONE", "y"); ("CONFIG_IPV6", "n")]%string.

Definition required_of (smp_enabled : bool) : list (bytes * bytes) :=
  (prod_map bs bs <$> required) ++ [(bs "CONFIG_SMP", if smp_enabled then bs "y" else bs "n")].

Definition require_config (path : bytes) (settings : gmap bytes bytes) (setting expected : bytes) : mresult () :=
  let actual := default (bs "<missing>") (settings !! setting) in
  if decide (actual ≠ expected) then Err (ManifestError.KernelConfig path setting expected actual) else Ok ().

Definition check_kernel_config (path : bytes) (cpu : CpuManifest.t) (text : bytes) : mresult () :=
  if decide (¬ valid_utf8 text) then ManifestError.invalid "normalized_kernel_config" (bs "is not UTF-8") else
  settings ← fold_result (insert_unique parse_config_line duplicate_setting) ∅ (lines text);
  each (λ '(setting, expected), require_config path settings setting expected) (required_of (CpuManifest.smp_enabled cpu));;
  if CpuManifest.smp_enabled cpu then
    compiled ← ok_or (CpuManifest.compiled_nr_cpus cpu)
      (ManifestError.InvalidField "cpu.compiled_nr_cpus" (bs "missing for SMP profile"));
    require_config path settings (bs "CONFIG_NR_CPUS") (to_decimal compiled)
  else Ok ().

Definition validate_kernel_config (fs : Files.t) (path : bytes) (cpu : CpuManifest.t) : mresult () :=
  text ← read_bounded fs path MAX_CONFIG_BYTES;
  check_kernel_config path cpu text.

(** ** The certificate bundle *)
Definition BEGIN : bytes := bs "-----BEGIN CERTIFICATE-----".
Definition END : bytes := bs "-----END CERTIFICATE-----".

(** [byte.is_ascii_alphanumeric() || matches!(byte, b'+' | b'/' | b'=')] *)
Definition is_pem_byte (b : byte) : Prop := is_ascii_alphanumeric b ∨ b = x2b ∨ b = x2f ∨ b = x3d.
#[export] Instance is_pem_byte_dec b : Decision (is_pem_byte b).
Proof. unfold is_pem_byte. apply _. Defined.

(** [bytes.take_while(|byte| *byte == b'=').count()] *)
Fixpoint leading_padding (l : bytes) : nat :=
  match l with b :: l => if decide (b = x3d) then S (leading_padding l) else 0 | [] => 0 end.

Definition valid_pem_base64_line (line : bytes) : bool :=
  if decide (line = [] ∨ (128 < len line)%N ∨ ¬ is_multiple_of (len line) 4) then false else
  let padding := leading_padding (reverse line) in
  if decide (2 < padding ∨ x3d ∈ take (length line - padding) line) then false else
  bool_decide (Forall is_pem_byte line).

(** The character of a bundle that is refused *)
Definition bad_character (c : N) : Prop := c = 13%N ∨ c = 0%N ∨ (is_char_control c ∧ ¬ (c = 10%N ∨ c = 9%N)).
#[export] Instance bad_character_dec c : Decision (bad_character c).
Proof. unfold bad_character. apply _. Defined.

Record BundleScan : Set := bundle_scan {
  certificate_count : N;
  inside_certificate : bool;
  has_encoded_line : bool;
}.

Definition ca_invalid {A} (reason : string) : mresult A := ManifestError.invalid "registry_ca_bundle" (bs reason).

(** One round of the loop over the lines. *)
Definition scan_line (s : BundleScan) (line : bytes) : mresult BundleScan :=
  if inside_certificate s then
    if decide (line = BEGIN) then ca_invalid "contains a nested certificate begin delimiter" else
    if decide (line = END) then
      if has_encoded_line s then Ok (bundle_scan (certificate_count s + 1) false true)
      else ca_invalid "contains an empty certificate PEM block"
    else if valid_pem_base64_line line then Ok (bundle_scan (certificate_count s) true true)
    else ca_invalid "certificate PEM body contains a non-base64 or malformed line"
  else
    if decide (line = BEGIN) then Ok (bundle_scan (certificate_count s) true false) else
    if decide (line = END) then ca_invalid "contains a certificate end delimiter without a begin delimiter" else
    Ok s.

Definition validate_registry_ca_bundle (fs : Files.t) (path : bytes) : mresult () :=
  text ← read_bounded fs path MAX_CA_BUNDLE_BYTES;
  if decide (¬ valid_utf8 text) then ca_invalid "is not UTF-8 PEM" else
  if decide (Exists bad_character (chars text))
  then ca_invalid "must use UTF-8 PEM with LF line endings and no unexpected controls" else
  s ← fold_result scan_line (bundle_scan 0 false false) (lines text);
  if decide (inside_certificate s = true ∨ certificate_count s = 0%N)
  then ca_invalid "must contain one or more complete CERTIFICATE PEM blocks" else
  Ok ().

(** ** What is accepted *)

(** A plain file of bounded size, and what it holds. *)
Definition bounded_file (fs : Files.t) (path : bytes) (maximum : N) (b : bytes) : Prop :=
  (∃ m, Files.symlink_metadata fs path = inr m ∧ Metadata.is_file m = true ∧ (Metadata.size m ≤ maximum)%N) ∧
  contents fs path = inr b ∧ (len b ≤ maximum)%N.

Lemma manifest_io_ok {A} operation path (r : io_error + A) a : manifest_io operation path r = Ok a ↔ r = inr a.
Proof. destruct r; naive_solver. Qed.
#[export] Hint Rewrite @manifest_io_ok : rust_ok.

Lemma read_bounded_Ok fs path maximum b : read_bounded fs path maximum = Ok b ↔ bounded_file fs path maximum b.
Proof.
  unfold read_bounded, bounded_file. rewrite bind_ok. setoid_rewrite manifest_io_ok. split.
  - intros (m & Hm & [Hf [Hs H]%guard_ok]%guard_ok). apply bind_ok in H as (b' & Hb%manifest_io_ok & [Hl [= <-]]%guard_ok).
    split_and!; [|done|lia]. exists m. split_and!; [done|by destruct (Metadata.is_file m)|lia].
  - intros ((m & Hm & Hf & Hs) & Hb & Hl). exists m. rewrite !guard_ok, Hf, bind_ok, N.nlt_ge. split_and!; try done.
    exists b. by rewrite manifest_io_ok, guard_ok, N.nlt_ge.
Qed.

(** The settings of a configuration, in their order. *)
Definition settings_of (text : bytes) : list (bytes * bytes) := omap parse_config_line (lines text).

Record kernel_config_ok (cpu : CpuManifest.t) (text : bytes) : Prop := {
  config_text : valid_utf8 text;
  config_once : NoDup (settings_of text).*1;
  config_required : required_of (CpuManifest.smp_enabled cpu) ⊆ settings_of text;
  config_cpus : CpuManifest.smp_enabled cpu = true →
    ∃ compiled, CpuManifest.compiled_nr_cpus cpu = Some compiled ∧ (bs "CONFIG_NR_CPUS", to_decimal compiled) ∈ settings_of text;
}.

Lemma require_config_Ok path text setting expected :
  NoDup (settings_of text).*1 → expected ≠ bs "<missing>" →
  require_config path (list_to_map (settings_of text)) setting expected = Ok () ↔ (setting, expected) ∈ settings_of text.
Proof.
  intros Hnd Hm. unfold require_config. cbv zeta. rewrite guard_ok.
  rewrite (elem_of_list_to_map (M := gmap bytes)) by done.
  destruct (list_to_map (settings_of text) !! setting) as [v|]; simpl; split.
  - intros [?%dec_stable _]. by subst.
  - intros [= ->]. split; [tauto|done].
  - intros [?%dec_stable _]. by subst.
  - done.
Qed.

Lemma decimal_not_missing n : to_decimal n ≠ bs "<missing>".
Proof.
  intros H. pose proof (to_decimal_digits n) as Hd. rewrite H in Hd. apply Forall_cons in Hd as [Hd _]. vm_compute in Hd. tauto.
Qed.

Lemma required_not_missing smp setting expected : (setting, expected) ∈ required_of smp → expected ≠ bs "<missing>".
Proof.
  assert (Forall (λ p : bytes * bytes, p.2 ≠ bs "<missing>") (required_of smp)) as H
    by (destruct smp; apply (bool_decide_unpack _); by vm_compute).
  rewrite Forall_forall in H. apply (H (setting, expected)).
Qed.

Lemma check_kernel_config_Ok path cpu text : check_kernel_config path cpu text = Ok () ↔ kernel_config_ok cpu text.
Proof.
  unfold check_kernel_config.
  rewrite manifest_guard_ok, bind_ok. setoid_rewrite bind_unit_ok. setoid_rewrite insert_unique_Ok.
  fold (settings_of text).
  assert (∀ (Hnd : NoDup (settings_of text).*1),
    each (λ '(setting, expected), require_config path (list_to_map (settings_of text)) setting expected)
      (required_of (CpuManifest.smp_enabled cpu)) = Ok () ↔ required_of (CpuManifest.smp_enabled cpu) ⊆ settings_of text) as Hreq.
  { intros Hnd. rewrite each_ok, Forall_forall. apply forall_proper. intros [setting expected]. split; intros H Hin.
    - by apply (require_config_Ok path), H; [|eapply required_not_missing|].
    - by apply require_config_Ok, H; [|eapply required_not_missing|]. }
  split.
  - intros (Hu%dec_stable & m & (Hnd & ->) & Hall & Hcpus). split; [done|done|by apply Hreq|].
    intros Hsmp. rewrite Hsmp in Hcpus. apply bind_ok in Hcpus as (compiled & Hc%ok_or_ok & H). exists compiled.
    split; [done|]. by apply (require_config_Ok path); [|apply decimal_not_missing|].
  - intros [Hu Hnd Hall Hcpus]. split; [tauto|]. eexists. split; [by split|].
    split; [by apply Hreq|]. destruct (CpuManifest.smp_enabled cpu); [|done].
    destruct Hcpus as (compiled & -> & H); [done|]. simpl. by apply require_config_Ok; [|apply decimal_not_missing|].
Qed.

Lemma validate_kernel_config_Ok fs path cpu :
  validate_kernel_config fs path cpu = Ok () ↔
  ∃ text, bounded_file fs path MAX_CONFIG_BYTES text ∧ kernel_config_ok cpu text.
Proof.
  unfold validate_kernel_config. rewrite bind_ok. apply exist_proper. intros text.
  by rewrite read_bounded_Ok, check_kernel_config_Ok.
Qed.

(** *** Certificates *)

(** A line of base64 text with its padding. *)
Definition pem_line (line : bytes) : Prop :=
  line ≠ [] ∧ (len line ≤ 128)%N ∧ is_multiple_of (len line) 4 ∧
  ∃ body padding, line = body ++ replicate padding x3d ∧ padding ≤ 2 ∧ Forall (λ b, is_pem_byte b ∧ b ≠ x3d) body.

(** Lines with [n] certificates, and any text between them. *)
Inductive pem : list bytes → N → Prop :=
| pem_end : pem [] 0
| pem_text line ls n : line ≠ BEGIN → line ≠ END → pem ls n → pem (line :: ls) n
| pem_certificate body ls n : body ≠ [] → Forall pem_line body → pem ls n → pem (BEGIN :: body ++ END :: ls) (n + 1).

Definition ca_bundle_ok (text : bytes) : Prop :=
  valid_utf8 text ∧ Forall (λ c, is_char_control c → c = 10%N ∨ c = 9%N) (chars text) ∧
  ∃ n, (1 ≤ n)%N ∧ pem (lines text) n.

Lemma leading_padding_spec l :
  ∃ rest, l = replicate (leading_padding l) x3d ++ rest ∧ head rest ≠ Some x3d.
Proof.
  induction l as [|b l (rest & Hl & Hr)]; simpl; [by exists []|]. case_decide as Hb.
  - exists rest. simpl. by rewrite <- Hl, Hb.
  - exists (b :: l). split; [done|]. simpl. congruence.
Qed.

Lemma leading_padding_app n rest : head rest ≠ Some x3d → leading_padding (replicate n x3d ++ rest) = n.
Proof.
  intros Hr. induction n as [|n IH]; simpl; [|by rewrite IH].
  destruct rest as [|b rest]; [done|]. simpl in *. by rewrite decide_False by congruence.
Qed.

Lemma valid_pem_line line : valid_pem_base64_line line = true ↔ pem_line line.
Proof.
  unfold valid_pem_base64_line, pem_line. case_decide as H1; [split; [done|]; intros (? & ? & ? & _); naive_solver lia|].
  rewrite !not_or_and, N.nlt_ge in H1. destruct H1 as (Hne & Hl & Hm%dec_stable). cbv zeta. split.
  - case_decide as H2; [done|]. rewrite not_or_and in H2. destruct H2 as [Hp Hin]. intros Hall%bool_decide_eq_true.
    split_and!; try done. destruct (leading_padding_spec (reverse line)) as (rest & Hr & _).
    remember (leading_padding (reverse line)) as padding eqn:Hn. clear Hn. exists (reverse rest), padding.
    assert (line = reverse rest ++ replicate padding x3d) as ->.
    { rewrite <- (reverse_involutive line), Hr. by rewrite reverse_app, reverse_replicate. }
    rewrite length_app, length_replicate, Nat.add_sub, take_app_length in Hin.
    split_and!; [done|lia|]. apply Forall_app in Hall as [Hall _]. rewrite Forall_forall in *.
    intros b Hb. split; [by apply Hall|]. by intros ->.
  - intros (_ & _ & _ & body & padding & -> & Hp & Hbody). rewrite reverse_app, reverse_replicate.
    assert (Forall is_pem_byte (body ++ replicate padding x3d)) as Hall.
    { apply Forall_app. split; [by eapply Forall_impl; [exact Hbody|]; intros ? []|].
      apply Forall_replicate. unfold is_pem_byte. tauto. }
    rewrite leading_padding_app.
    + case_decide as Hc; [exfalso|by apply bool_decide_eq_true].
      rewrite length_app, length_replicate, Nat.add_sub, take_app_length in Hc. destruct Hc as [?|Hin]; [lia|]. rewrite Forall_forall in Hbody. by apply Hbody in Hin as [_ ?].
    + intros Hh. apply head_Some_elem_of in Hh. rewrite elem_of_reverse in Hh. rewrite Forall_forall in Hbody.
      by apply Hbody in Hh as [_ ?].
Qed.

(** The loop ends outside a certificate, after [c] certificates. *)
Definition ends (s : BundleScan) (ls : list bytes) (c : N) : Prop :=
  ∃ s', fold_result scan_line s ls = Ok s' ∧ inside_certificate s' = false ∧ certificate_count s' = c.

(** What a state of the loop still accepts. *)
Definition pem_rest (s : BundleScan) (ls : list bytes) (c : N) : Prop :=
  if inside_certificate s
  then ∃ body rest m, ls = body ++ END :: rest ∧ Forall pem_line body ∧ (has_encoded_line s = true ∨ body ≠ []) ∧
         pem rest m ∧ c = (certificate_count s + 1 + m)%N
  else ∃ m, pem ls m ∧ c = (certificate_count s + m)%N.

Lemma delimiters_not_pem : ¬ pem_line BEGIN ∧ ¬ pem_line END.
Proof. rewrite <- !valid_pem_line. by split. Qed.

Lemma pem_cons line ls n :
  pem (line :: ls) n ↔
  (line ≠ BEGIN ∧ line ≠ END ∧ pem ls n) ∨
  (line = BEGIN ∧ ∃ body rest m, ls = body ++ END :: rest ∧ body ≠ [] ∧ Forall pem_line body ∧ pem rest m ∧ n = (m + 1)%N).
Proof.
  split.
  - inversion 1; subst; [by left|]. right. split; [done|]. by do 3 eexists.
  - intros [(? & ? & ?)|(-> & body & rest & m & -> & ? & ? & ? & ->)]; by constructor.
Qed.

Lemma ends_cons s line ls c : ends s (line :: ls) c ↔ ∃ s1, scan_line s line = Ok s1 ∧ ends s1 ls c.
Proof.
  unfold ends. cbn [fold_result]. setoid_rewrite bind_ok. naive_solver.
Qed.

Lemma scan_outside count encoded line ls c :
  (∃ s1, scan_line (bundle_scan count false encoded) line = Ok s1 ∧ pem_rest s1 ls c) ↔
  pem_rest (bundle_scan count false encoded) (line :: ls) c.
Proof.
  unfold scan_line, pem_rest. cbn [inside_certificate certificate_count has_encoded_line]. setoid_rewrite pem_cons.
  case_decide as Hb; [|case_decide as He].
  - subst line. setoid_rewrite ok_inj. split.
    + intros (? & <- & body & rest & m & -> & Hbody & [?|Hne] & Hp & ->); [done|]. exists (m + 1)%N. split; [|cbn; lia]. right.
      split; [done|]. by exists body, rest, m.
    + intros (? & [(? & _)|(_ & body & rest & m & -> & Hne & Hbody & Hp & ->)] & ->); [done|].
      eexists. split; [done|]. exists body, rest, m. split_and!; try done; [by right|cbn; lia].
  - subst line. split; [by intros (? & ? & _)|]. intros (? & [(_ & ? & _)|(? & _)] & _); done.
  - setoid_rewrite ok_inj. split.
    + intros (? & <- & m & Hp & ->). exists m. split; [by left|done].
    + intros (m & [(_ & _ & Hp)|(? & _)] & ->); [|done]. eexists. split; [done|]. by exists m.
Qed.

Lemma scan_inside count encoded line ls c :
  (∃ s1, scan_line (bundle_scan count true encoded) line = Ok s1 ∧ pem_rest s1 ls c) ↔
  pem_rest (bundle_scan count true encoded) (line :: ls) c.
Proof.
  pose proof delimiters_not_pem as [HB HE].
  unfold scan_line, pem_rest. cbn [inside_certificate certificate_count has_encoded_line].
  assert (∀ body rest, line :: ls = body ++ END :: rest → body = [] ∧ line = END ∧ ls = rest ∨
    ∃ body', body = line :: body' ∧ ls = body' ++ END :: rest) as Hcons.
  { intros [|l body] rest [= -> ->]; [by left|]. right. by exists body. }
  case_decide as Hb; [|case_decide as He].
  - split; [by intros (? & ? & _)|]. subst line. intros (body & rest & m & [(_ & ? & _)|(body' & -> & _)]%Hcons & Hall & _); [done|].
    by apply Forall_cons in Hall as [? _].
  - subst line. split.
    + intros (s1 & H & Hr). destruct encoded; [|done]. injection H as <-. cbn in Hr. destruct Hr as (m & Hp & ->).
      exists [], ls, m. split_and!; (done || by left).
    + intros (body & rest & m & [(-> & _ & ->)|(body' & -> & _)]%Hcons & Hall & Henc & Hp & ->);
        [|by apply Forall_cons in Hall as [? _]].
      destruct Henc as [->|?]; [|done]. eexists. split; [done|]. by exists m.
  - destruct (valid_pem_base64_line line) eqn:Hv; [apply valid_pem_line in Hv|].
    + split.
      * intros (? & [= <-] & body & rest & m & -> & Hall & _ & Hp & ->). exists (line :: body), rest, m.
        split_and!; try done; [by constructor|by right].
      * intros (body & rest & m & [(_ & ? & _)|(body' & -> & ->)]%Hcons & Hall & _ & Hp & ->); [done|].
        apply Forall_cons in Hall as [_ Hall]. eexists. split; [done|]. exists body', rest, m. split_and!; (done || by left).
    + split; [by intros (? & ? & _)|]. intros (body & rest & m & [(_ & ? & _)|(body' & -> & _)]%Hcons & Hall & _); [done|].
      apply Forall_cons in Hall as [Hl%valid_pem_line _]. congruence.
Qed.

Lemma scan_lines s ls c : ends s ls c ↔ pem_rest s ls c.
Proof.
  revert s. induction ls as [|line ls IH]; intros [count inside encoded].
  - unfold ends, pem_rest. cbn [fold_result]. setoid_rewrite ok_inj. destruct inside; simpl.
    + split; [naive_solver|]. intros (body & ? & ? & H & _). by destruct body.
    + split; [intros (? & <- & _ & <-); exists 0%N; split; [constructor|simpl; lia]|].
      intros (m & Hp & ->). inversion Hp; subst. eexists. split_and!; [done|done|simpl; lia].
  - rewrite ends_cons. setoid_rewrite IH. destruct inside; [apply scan_inside|apply scan_outside].
Qed.

Lemma bad_characters text :
  ¬ Exists bad_character (chars text) ↔ Forall (λ c, is_char_control c → c = 10%N ∨ c = 9%N) (chars text).
Proof.
  rewrite <- Forall_Exists_neg. apply Forall_iff. intros c. unfold bad_character, is_char_control.
  destruct (decide (c = 10%N ∨ c = 9%N)); lia.
Qed.

Lemma validate_registry_ca_bundle_Ok fs path :
  validate_registry_ca_bundle fs path = Ok () ↔
  ∃ text, bounded_file fs path MAX_CA_BUNDLE_BYTES text ∧ ca_bundle_ok text.
Proof.
  unfold validate_registry_ca_bundle, ca_bundle_ok, ca_invalid. rewrite bind_ok. apply exist_proper. intros text.
  rewrite read_bounded_Ok, !manifest_guard_ok, bad_characters, bind_ok. apply and_iff_compat_l.
  assert ((∃ n, (1 ≤ n)%N ∧ pem (lines text) n) ↔ ∃ n, (1 ≤ n)%N ∧ ends (bundle_scan 0 false false) (lines text) n) as ->.
  { apply exist_proper. intros n. apply and_iff_compat_l. rewrite scan_lines. unfold pem_rest. simpl. naive_solver. }
  setoid_rewrite manifest_guard_ok. unfold ends. split.
  - intros (Hu%dec_stable & Hc & s & Hs & Hn & _). rewrite not_or_and in Hn. destruct Hn as [Hi Hn]. split_and!; [done|done|].
    exists (certificate_count s). split; [lia|]. exists s. split_and!; [done|by destruct (inside_certificate s)|done].
  - intros (Hu & Hc & n & Hn & s & Hs & Hi & <-). split_and!; [tauto|done|]. exists s. split_and!; [done| |done].
    rewrite Hi, not_or_and. split; [done|lia].
Qed.
