(* ===== verification/ProfileFiles.v ===== *)
(** * Profile bundles: crates/pocket-runtime/src/manifest.rs

    A bundle is a directory with [profile.json] and the files it names: the guard,
    User-mode Linux, the guests' initial file systems, the tools of the host.  [load]
    checks the manifest, that its revision is the digest of its own text, and every file;
    [reverify] looks again before a launch.  What the host's file system answers is
    the argument [fs]; serde_json is an interface. *)

From stdpp Require Import gmap.
From S2P Require Import Prelude RustStr Utf8 ByteOrder ManagedPath Memory Cpu ProtocolError Frame Payload NoPanic Sha256 StoreCodec HexText.
From S2P Require Import HostError HostFiles Parameters Profile Elf ProfileText.

#[local] Arguments bs : simpl never.
#[local] Arguments len : simpl never.

Definition PROFILE_MANIFEST_FILE : bytes := bs "profile.json".
Definition MAX_MANIFEST_BYTES : N := 1024 * 1024.
Definition PROFILE_REVISION_DOMAIN : bytes := bs "pocket-profile-revision" ++ [x00] ++ bs "v1" ++ [x00].
(** 0o022, 0o111 and 0o6000 *)
Definition SHARED_WRITE : N := 18.
Definition EXECUTE : N := 73.
Definition SET_ID : N := 3072.
Definition ENODATA : Z := 61.
Definition ENOTSUP : Z := 95.

(** What [computed_revision] serialises: the manifest without its revision. *)
Module CanonicalManifest.
Record t : Set := canonical_manifest {
  schema_version : N;
  profile_id : bytes;
  maturity : ProfileMaturity.t;
  host_architecture : bytes;
  host_elf_machine : N;
  oci_os : bytes;
  oci_architecture : bytes;
  accepted_oci_variants : list (option bytes);
  uml_subarchitecture : bytes;
  guest_page_size : N;
  cpu : CpuManifest.t;
  memory : MemoryManifest.t;
  contracts : Contracts.t;
  hello : HelloContract.t;
  builder : BuilderContract.t;
  validator : ValidatorContract.t;
  launch : LaunchContract.t;
  artifacts : ArtifactManifest.t;
}.

Definition canonical (m : ProfileManifest.t) : t := {|
  schema_version := ProfileManifest.schema_version m;
  profile_id := ProfileManifest.profile_id m;
  maturity := ProfileManifest.maturity m;
  host_architecture := ProfileManifest.host_architecture m;
  host_elf_machine := ProfileManifest.host_elf_machine m;
  oci_os := ProfileManifest.oci_os m;
  oci_architecture := ProfileManifest.oci_architecture m;
  accepted_oci_variants := ProfileManifest.accepted_oci_variants m;
  uml_subarchitecture := ProfileManifest.uml_subarchitecture m;
  guest_page_size := ProfileManifest.guest_page_size m;
  cpu := ProfileManifest.cpu m;
  memory := ProfileManifest.memory m;
  contracts := ProfileManifest.contracts m;
  hello := ProfileManifest.hello m;
  builder := ProfileManifest.builder m;
  validator := ProfileManifest.validator m;
  launch := ProfileManifest.launch m;
  artifacts := ProfileManifest.artifacts m;
|}.
End CanonicalManifest.

(** [serde_json::from_slice] and [serde_json::to_vec] on the types of the manifest *)
Class ProfileJson := {
  profile_of_json : bytes → bytes + ProfileManifest.t;
  canonical_json : CanonicalManifest.t → bytes + bytes;
}.

(** Different values have different texts. *)
Class ProfileJsonLaws `{ProfileJson} := {
  canonical_json_inj a b t : canonical_json a = inr t → canonical_json b = inr t → a = b;
}.

Inductive ArtifactRole : Set := HostExecutable | Initramfs | Data | KernelConfig.
#[export] Instance artifact_role_dec : EqDecision ArtifactRole.
Proof. solve_decision. Defined.

Module VerifiedArtifact.
Record t : Set := verified_artifact { path : bytes; spec : ArtifactSpec.t; role : ArtifactRole }.
End VerifiedArtifact.

Module VerifiedProfile.
Record t : Set := verified_profile {
  root : ManagedUmlPath.t;
  manifest : ProfileManifest.t;
  cpu_profile : Cpu.CpuProfile;
  memory_policy : Memory.MemoryPolicy;
  guard : VerifiedArtifact.t;
  uml : VerifiedArtifact.t;
  skopeo : VerifiedArtifact.t;
  network_helper : VerifiedArtifact.t;
  registry_ca_bundle : VerifiedArtifact.t;
  initramfs : VerifiedArtifact.t;
  builder_initramfs : VerifiedArtifact.t;
  validator_initramfs : VerifiedArtifact.t;
  mke2fs : VerifiedArtifact.t;
  resize2fs : VerifiedArtifact.t;
  debugfs : VerifiedArtifact.t;
  e2fsck : VerifiedArtifact.t;
  mke2fs_config : VerifiedArtifact.t;
  e2fsck_config : VerifiedArtifact.t;
  kernel_config : VerifiedArtifact.t;
}.
End VerifiedProfile.

(** ** Paths *)

(** [==] of two absolute paths compares their components. *)
Definition path_eq (a b : bytes) : Prop := components a = components b.
#[export] Instance path_eq_dec a b : Decision (path_eq a b).
Proof. unfold path_eq. apply _. Defined.

(** [Path::starts_with] *)
Definition path_starts_with (path base : bytes) : Prop := components base `prefix_of` components path.
#[export] Instance path_starts_with_dec path base : Decision (path_starts_with path base).
Proof. unfold path_starts_with. apply _. Defined.

(** Some component of a relative path is not [Component::Normal]: a dot only counts at
    the start. *)
Definition abnormal_component (path : bytes) : Prop :=
  head (split x2f path) = Some (bs ".") ∨ bs ".." ∈ split x2f path.
#[export] Instance abnormal_component_dec path : Decision (abnormal_component path).
Proof. unfold abnormal_component. apply _. Defined.

Definition validate_relative_artifact_path (path : bytes) : mresult () :=
  if decide (path = [] ∨ is_absolute path)
  then Err (ManifestError.ArtifactPath path "must be non-empty and relative") else
  if decide (160 < len path ∨ Exists is_whitespace (chars path) ∨ x2c ∈ path ∨ x3a ∈ path ∨ x00 ∈ path)%N
  then Err (ManifestError.ArtifactPath path "contains a reserved character or is too long") else
  if decide (abnormal_component path)
  then Err (ManifestError.ArtifactPath path "contains a dot, parent, root, or prefix component") else
  Ok ().

(** ** Reading an artifact *)

(** What the reads of [hash_reader] deliver: full buffers, then the rest. *)
Fixpoint pieces (fuel n : nat) (b : bytes) : list bytes :=
  match fuel, b with
  | S fuel, _ :: _ => take n b :: pieces fuel n (drop n b)
  | _, _ => []
  end.

Section bundle.
Context {sha : Sha2} {hex : Hex} {json : ProfileJson} (fs : Files.t).

Definition profile_digest_text (d : Digest) : bytes := bs "sha256:" ++ hex_encode d.

(** [digest_type!]: the text of a digest in the manifest *)
Definition profile_digest_from_str (name : string) (value : bytes) : mresult Digest :=
  let expected := ManifestError.InvalidField name (bs "expected sha256:<64 lowercase hexadecimal characters>") in
  encoded ← ok_or (strip_prefix (bs "sha256:") value) expected;
  if decide (¬ is_hex64 encoded) then Err expected else
  decoded ← map_err (ManifestError.InvalidField name) (hex_decode encoded);
  if decide (length decoded ≠ 32) then ManifestError.invalid name (bs "digest is not 32 bytes") else
  Ok decoded.

Definition computed_revision (m : ProfileManifest.t) : mresult Digest :=
  match canonical_json (CanonicalManifest.canonical m) with
  | inl error => ManifestError.invalid "profile_revision" (bs "canonicalization failed: " ++ error)
  | inr encoded => Ok (hasher_finalize (foldl hasher_update hasher_new [PROFILE_REVISION_DOMAIN; encoded]))
  end.

Definition validate_exact_directory (path : bytes) : mresult () :=
  canonical ← manifest_io "canonicalize profile directory" path (Files.canonicalize fs path);
  if decide (¬ path_eq canonical path) then Err (ManifestError.ArtifactResolution path) else
  metadata ← manifest_io "inspect profile directory" path (Files.symlink_metadata fs path);
  if decide (Metadata.is_dir metadata = false) then Err (ManifestError.ArtifactType path) else
  if decide (has_bits (Metadata.mode metadata) SHARED_WRITE)
  then Err (ManifestError.ArtifactMode path (Metadata.mode metadata) "bundle directory must not be group- or world-writable")
  else Ok ().

Definition reject_file_capability (file : OpenedFile.t) (path : bytes) : mresult () :=
  match OpenedFile.capability file with
  | inr _ => Err (ManifestError.ArtifactCapability path)
  | inl error =>
      if decide (raw_os_error error = Some ENODATA ∨ raw_os_error error = Some ENOTSUP) then Ok () else
      Err (ManifestError.Io "inspect artifact file capabilities" path error)
  end.

Definition hash_reader (file : OpenedFile.t) (path : bytes) : mresult Digest :=
  content ← manifest_io "hash artifact" path (OpenedFile.content file);
  Ok (hasher_finalize (foldl hasher_update hasher_new (pieces (length content) (N.to_nat (128 * 1024)) content))).

Definition check_mode (path : bytes) (mode : N) (role : ArtifactRole) : mresult () :=
  match role with
  | HostExecutable =>
      if decide (¬ has_bits mode EXECUTE ∨ has_bits mode SET_ID)
      then Err (ManifestError.ArtifactMode path mode "host executable needs an execute bit and no set-ID bit") else Ok ()
  | Initramfs | Data | KernelConfig =>
      if decide (has_bits mode EXECUTE ∨ has_bits mode SET_ID)
      then Err (ManifestError.ArtifactMode path mode "data artifact must be non-executable and have no set-ID bit")
      else Ok ()
  end.

Definition verify_artifact_at (path : bytes) (spec : ArtifactSpec.t) (role : ArtifactRole) : mresult () :=
  canonical ← manifest_io "canonicalize artifact" path (Files.canonicalize fs path);
  if decide (¬ path_eq canonical path) then Err (ManifestError.ArtifactResolution path) else
  metadata ← manifest_io "inspect artifact" path (Files.symlink_metadata fs path);
  if decide (Metadata.is_file metadata = false) then Err (ManifestError.ArtifactType path) else
  let mode := Metadata.mode metadata in
  if decide (has_bits mode SHARED_WRITE)
  then Err (ManifestError.ArtifactMode path mode "artifact must not be group- or world-writable") else
  check_mode path mode role;;
  if decide (Metadata.size metadata ≠ ArtifactSpec.size spec)
  then Err (ManifestError.ArtifactSize path (ArtifactSpec.size spec) (Metadata.size metadata)) else
  file ← manifest_io "open artifact" path (Files.open fs path);
  reject_file_capability file path;;
  observed ← hash_reader file path;
  if decide (observed ≠ ArtifactSpec.sha256 spec)
  then Err (ManifestError.ArtifactDigest path (profile_digest_text (ArtifactSpec.sha256 spec)) (profile_digest_text observed)) else
  if decide (role = HostExecutable)
  then content ← manifest_io "read ELF header" path (OpenedFile.content file);
       verify_static_x86_64_elf path content (Metadata.size metadata)
  else Ok ().

Definition verified_artifact (root : ManagedUmlPath.t) (spec : ArtifactSpec.t) (role : ArtifactRole)
    : mresult VerifiedArtifact.t :=
  validate_relative_artifact_path (ArtifactSpec.path spec);;
  let path := path_join (ManagedUmlPath.path_buf root) (ArtifactSpec.path spec) in
  _ ← map_err ManifestError.ManagedPath (ManagedUmlPath.new path);
  canonical ← manifest_io "canonicalize artifact" path (Files.canonicalize fs path);
  if decide (¬ path_eq canonical path ∨ ¬ path_starts_with canonical (ManagedUmlPath.path_buf root))
  then Err (ManifestError.ArtifactResolution path) else
  verify_artifact_at canonical spec role;;
  Ok (VerifiedArtifact.verified_artifact canonical spec role).

(** ** The bundle *)
Definition load (bundle_root : ManagedUmlPath.t) : mresult VerifiedProfile.t :=
  let root := ManagedUmlPath.path_buf bundle_root in
  validate_exact_directory root;;
  let manifest_path := path_join root PROFILE_MANIFEST_FILE in
  text ← read_bounded fs manifest_path MAX_MANIFEST_BYTES;
  manifest ← match profile_of_json text with
             | inl source => Err (ManifestError.Json manifest_path source)
             | inr manifest => Ok manifest
             end;
  '(cpu_profile, memory_policy) ← validate_manifest manifest;
  computed ← computed_revision manifest;
  if decide (computed ≠ ProfileManifest.profile_revision manifest)
  then Err (ManifestError.RevisionMismatch (profile_digest_text (ProfileManifest.profile_revision manifest))
              (profile_digest_text computed)) else
  let artifacts := ProfileManifest.artifacts manifest in
  guard ← verified_artifact bundle_root (ArtifactManifest.guard artifacts) HostExecutable;
  uml ← verified_artifact bundle_root (ArtifactManifest.uml artifacts) HostExecutable;
  skopeo ← verified_artifact bundle_root (ArtifactManifest.skopeo artifacts) HostExecutable;
  network_helper ← verified_artifact bundle_root (ArtifactManifest.network_helper artifacts) HostExecutable;
  registry_ca_bundle ← verified_artifact bundle_root (ArtifactManifest.registry_ca_bundle artifacts) Data;
  initramfs ← verified_artifact bundle_root (ArtifactManifest.workload_initramfs artifacts) Initramfs;
  builder_initramfs ← verified_artifact bundle_root (ArtifactManifest.builder_initramfs artifacts) Initramfs;
  validator_initramfs ← verified_artifact bundle_root (ArtifactManifest.validator_initramfs artifacts) Initramfs;
  mke2fs ← verified_artifact bundle_root (ArtifactManifest.mke2fs artifacts) HostExecutable;
  e2fsck ← verified_artifact bundle_root (ArtifactManifest.e2fsck artifacts) HostExecutable;
  resize2fs ← verified_artifact bundle_root (ArtifactManifest.resize2fs artifacts) HostExecutable;
  debugfs ← verified_artifact bundle_root (ArtifactManifest.debugfs artifacts) HostExecutable;
  mke2fs_config ← verified_artifact bundle_root (ArtifactManifest.mke2fs_config artifacts) Data;
  e2fsck_config ← verified_artifact bundle_root (ArtifactManifest.e2fsck_config artifacts) Data;
  if decide (ArtifactSpec.size (VerifiedArtifact.spec e2fsck_config) ≠ 0%N)
  then ManifestError.invalid "artifacts.e2fsck_config"
         (bs "the supported e2fsck policy is an exact empty configuration file") else
  kernel_config ← verified_artifact bundle_root (ArtifactManifest.normalized_kernel_config artifacts) KernelConfig;
  let artifact_paths := VerifiedArtifact.path <$>
    [guard; uml; skopeo; network_helper; registry_ca_bundle; initramfs; builder_initramfs; validator_initramfs; mke2fs;
     resize2fs; debugfs; e2fsck; mke2fs_config; e2fsck_config; kernel_config] in
  let unique_paths : gset (list bytes) := list_to_set (components <$> artifact_paths) in
  if decide (size unique_paths ≠ length artifact_paths)
  then ManifestError.invalid "artifacts" (bs "artifact roles must resolve to distinct files") else
  validate_kernel_config fs (VerifiedArtifact.path kernel_config) (ProfileManifest.cpu manifest);;
  validate_registry_ca_bundle fs (VerifiedArtifact.path registry_ca_bundle);;
  Ok {|
    VerifiedProfile.root := bundle_root;
    VerifiedProfile.manifest := manifest;
    VerifiedProfile.cpu_profile := cpu_profile;
    VerifiedProfile.memory_policy := memory_policy;
    VerifiedProfile.guard := guard;
    VerifiedProfile.uml := uml;
    VerifiedProfile.skopeo := skopeo;
    VerifiedProfile.network_helper := network_helper;
    VerifiedProfile.registry_ca_bundle := registry_ca_bundle;
    VerifiedProfile.initramfs := initramfs;
    VerifiedProfile.builder_initramfs := builder_initramfs;
    VerifiedProfile.validator_initramfs := validator_initramfs;
    VerifiedProfile.mke2fs := mke2fs;
    VerifiedProfile.resize2fs := resize2fs;
    VerifiedProfile.debugfs := debugfs;
    VerifiedProfile.e2fsck := e2fsck;
    VerifiedProfile.mke2fs_config := mke2fs_config;
    VerifiedProfile.e2fsck_config := e2fsck_config;
    VerifiedProfile.kernel_config := kernel_config;
  |}.

(** The artifacts that [reverify] looks at. *)
Definition reverified (self : VerifiedProfile.t) : list VerifiedArtifact.t :=
  [VerifiedProfile.guard self; VerifiedProfile.uml self; VerifiedProfile.skopeo self; VerifiedProfile.network_helper self;
   VerifiedProfile.registry_ca_bundle self; VerifiedProfile.initramfs self; VerifiedProfile.builder_initramfs self;
   VerifiedProfile.validator_initramfs self; VerifiedProfile.mke2fs self; VerifiedProfile.e2fsck self;
   VerifiedProfile.mke2fs_config self; VerifiedProfile.e2fsck_config self; VerifiedProfile.kernel_config self].

Definition reverify (self : VerifiedProfile.t) : mresult () :=
  validate_exact_directory (ManagedUmlPath.path_buf (VerifiedProfile.root self));;
  each (λ artifact, verify_artifact_at (VerifiedArtifact.path artifact) (VerifiedArtifact.spec artifact)
                      (VerifiedArtifact.role artifact)) (reverified self);;
  validate_kernel_config fs (VerifiedArtifact.path (VerifiedProfile.kernel_config self))
    (ProfileManifest.cpu (VerifiedProfile.manifest self));;
  validate_registry_ca_bundle fs (VerifiedArtifact.path (VerifiedProfile.registry_ca_bundle self)).
End bundle.

(** ** What is accepted *)

(** An artifact as the manifest describes it, at a path that is no alias of another. *)
Definition mode_ok (mode : N) (role : ArtifactRole) : Prop :=
  ¬ has_bits mode SHARED_WRITE ∧ ¬ has_bits mode SET_ID ∧ (role = HostExecutable ↔ has_bits mode EXECUTE).

Record artifact_ok `{Sha2} (fs : Files.t) (path : bytes) (spec : ArtifactSpec.t) (role : ArtifactRole) : Prop := {
  artifact_path : ∃ canonical, Files.canonicalize fs path = inr canonical ∧ path_eq canonical path;
  artifact_content : ∃ metadata file content,
    Files.symlink_metadata fs path = inr metadata ∧ Metadata.is_file metadata = true ∧
    mode_ok (Metadata.mode metadata) role ∧ Metadata.size metadata = ArtifactSpec.size spec ∧
    Files.open fs path = inr file ∧ OpenedFile.content file = inr content ∧
    (∃ error, OpenedFile.capability file = inl error ∧
       (raw_os_error error = Some ENODATA ∨ raw_os_error error = Some ENOTSUP)) ∧
    sha256_digest content = ArtifactSpec.sha256 spec ∧ (role = HostExecutable → static_elf content);
}.

Definition directory_ok (fs : Files.t) (path : bytes) : Prop :=
  (∃ canonical, Files.canonicalize fs path = inr canonical ∧ path_eq canonical path) ∧
  ∃ metadata, Files.symlink_metadata fs path = inr metadata ∧ Metadata.is_dir metadata = true ∧
    ¬ has_bits (Metadata.mode metadata) SHARED_WRITE.

(** The size that [lstat] gives of a plain file is the number of its bytes, a [u64]. *)
Definition sizes_agree (fs : Files.t) : Prop :=
  ∀ path metadata file content, Files.symlink_metadata fs path = inr metadata → Metadata.is_file metadata = true →
    Files.open fs path = inr file → OpenedFile.content file = inr content →
    Metadata.size metadata = len content ∧ (len content < u64_bound)%N.

(** An artifact of the manifest and where it was found. *)
Definition relative_ok (path : bytes) : Prop :=
  path ≠ [] ∧ ¬ is_absolute path ∧ (len path ≤ 160)%N ∧ Forall (λ c, ¬ is_whitespace c) (chars path) ∧
  (x2c ∉ path) ∧ (x3a ∉ path) ∧ (x00 ∉ path) ∧ ¬ abnormal_component path.

Definition placed `{Sha2} (fs : Files.t) (root : ManagedUmlPath.t) (entry : ArtifactSpec.t * ArtifactRole)
    (a : VerifiedArtifact.t) : Prop :=
  let path := path_join (ManagedUmlPath.path_buf root) (ArtifactSpec.path entry.1) in
  VerifiedArtifact.spec a = entry.1 ∧ VerifiedArtifact.role a = entry.2 ∧
  relative_ok (ArtifactSpec.path entry.1) ∧ (∃ managed, ManagedUmlPath.new path = Ok managed) ∧
  Files.canonicalize fs path = inr (VerifiedArtifact.path a) ∧ path_eq (VerifiedArtifact.path a) path ∧
  artifact_ok fs (VerifiedArtifact.path a) entry.1 entry.2.

Lemma concat_pieces fuel n b : 0 < n → length b ≤ fuel → concat (pieces fuel n b) = b.
Proof.
  intros Hn. revert b. induction fuel as [|fuel IH]; intros [|x b] Hl; try done; [simpl in Hl; lia|].
  cbn [pieces concat]. rewrite IH; [apply take_drop|]. rewrite length_drop. simpl in *. lia.
Qed.

Lemma components_join root rel :
  ¬ is_absolute rel → components (path_join root rel) = components root ++ components rel.
Proof.
  intros Hr. unfold path_join, components. rewrite decide_False by done.
  destruct (last root) as [c|] eqn:Hl; [|by apply last_None in Hl as ->].
  apply last_Some in Hl as [r ->]. destruct (decide (c = x2f)) as [->|Hc].
  - rewrite <- app_assoc. change ([x2f] ++ rel) with (x2f :: rel). rewrite !split_app, !filter_app. f_equal.
    symmetry. apply app_nil_r.
  - rewrite <- filter_app, <- split_app. by destruct c.
Qed.

Lemma validate_relative_Ok path : validate_relative_artifact_path path = Ok () ↔ relative_ok path.
Proof.
  unfold validate_relative_artifact_path, relative_ok. rewrite !guard_ok, !not_or_and, N.nlt_ge, <- Forall_Exists_neg. tauto.
Qed.

Lemma check_mode_Ok path mode role :
  ¬ has_bits mode SHARED_WRITE ∧ check_mode path mode role = Ok () ↔ mode_ok mode role.
Proof.
  pose proof (dec_stable (P := has_bits mode EXECUTE)) as Hs.
  unfold mode_ok, check_mode. destruct role; rewrite guard_ok, not_or_and;
    (split; [intros (? & [? ?] & _)|intros (? & ? & [? ?])]); split_and!; (done || tauto || (split; (done || tauto)) || naive_solver).
Qed.

Section facts.
Context `{Sha2Laws} {hex : Hex} (fs : Files.t).

Lemma validate_exact_directory_Ok path : validate_exact_directory fs path = Ok () ↔ directory_ok fs path.
Proof.
  unfold validate_exact_directory, directory_ok. rewrite bind_ok. setoid_rewrite manifest_io_ok. split.
  - intros (c & Hc & [Hp%dec_stable Hm]%guard_ok). apply bind_ok in Hm as (m & Hm%manifest_io_ok & Hg).
    rewrite !guard_ok in Hg. destruct Hg as (Hd & Hw & _). split; [by exists c|]. exists m. split_and!; [done|by destruct (Metadata.is_dir m)|done].
  - intros [(c & Hc & Hp) (m & Hm & Hd & Hw)]. exists c. rewrite guard_ok, bind_ok. split_and!; [done|tauto|]. exists m.
    by rewrite manifest_io_ok, !guard_ok, Hd.
Qed.

Lemma hash_reader_Ok file path d :
  hash_reader file path = Ok d ↔ ∃ content, OpenedFile.content file = inr content ∧ d = sha256_digest content.
Proof.
  unfold hash_reader. rewrite bind_ok. apply exist_proper. intros content.
  rewrite manifest_io_ok, ok_inj, sha256_pieces, concat_pieces by lia. naive_solver.
Qed.

Lemma reject_file_capability_Ok file path :
  reject_file_capability file path = Ok () ↔
  ∃ error, OpenedFile.capability file = inl error ∧ (raw_os_error error = Some ENODATA ∨ raw_os_error error = Some ENOTSUP).
Proof.
  unfold reject_file_capability. destruct (OpenedFile.capability file) as [e|]; [|naive_solver].
  rewrite guard_not_ok. split; [intros [? _]; by exists e|]. intros (? & [= <-] & ?). done.
Qed.

Lemma verify_artifact_at_Ok path spec role :
  sizes_agree fs → verify_artifact_at fs path spec role = Ok () ↔ artifact_ok fs path spec role.
Proof.
  intros Hsizes. unfold verify_artifact_at. rewrite bind_ok. setoid_rewrite manifest_io_ok. split.
  - intros (c & Hc & [Hp%dec_stable H1]%guard_ok). apply bind_ok in H1 as (m & Hm%manifest_io_ok & [Hf H1]%guard_ok).
    cbv zeta in H1. apply guard_ok in H1 as [Hw H1]. apply bind_unit_ok in H1 as [Hmode [Hsize%dec_stable H1]%guard_ok].
    apply bind_ok in H1 as (file & Hopen%manifest_io_ok & H1). apply bind_unit_ok in H1 as [Hcap%reject_file_capability_Ok H1].
    apply bind_ok in H1 as (d & (content & Hcontent & ->)%hash_reader_Ok & [Hd%dec_stable H1]%guard_ok).
    apply not_false_is_true in Hf. destruct (Hsizes _ _ _ _ Hm Hf Hopen Hcontent) as [Hs Hb].
    split; [by exists c|]. exists m, file, content. split_and!; try done; [by apply (check_mode_Ok path)|].
    intros ->. simpl in H1. apply bind_ok in H1 as (content' & Hcontent'%manifest_io_ok & H1).
    rewrite Hcontent in Hcontent'. injection Hcontent' as <-. rewrite Hs in H1. by apply static_elf_exact in H1.
  - intros [(c & Hc & Hp) (m & file & content & Hm & Hf & [Hw Hmode]%(check_mode_Ok path) & Hsize & Hopen & Hcontent & Hcap & Hd & Helf)].
    destruct (Hsizes _ _ _ _ Hm Hf Hopen Hcontent) as [Hs Hb].
    exists c. rewrite guard_ok, bind_ok. split_and!; [done|tauto|]. exists m. rewrite manifest_io_ok, guard_ok, Hf. cbv zeta.
    rewrite guard_ok, bind_unit_ok, guard_ok, bind_ok. split_and!; try (done || tauto). exists file. rewrite manifest_io_ok.
    split; [done|]. apply bind_unit_ok. split; [by apply reject_file_capability_Ok|]. apply bind_ok. eexists.
    split; [apply hash_reader_Ok; by exists content|]. apply guard_ok. split; [tauto|]. case_decide as Hr; [|done].
    apply bind_ok. exists content. rewrite manifest_io_ok, Hs. split; [done|]. apply static_elf_exact; [done|by apply Helf].
Qed.

Lemma verified_artifact_Ok root spec role a :
  sizes_agree fs → verified_artifact fs root spec role = Ok a ↔ placed fs root (spec, role) a.
Proof.
  intros Hsizes. unfold verified_artifact, placed. cbn [fst snd]. cbv zeta. rewrite bind_unit_ok, validate_relative_Ok, bind_ok.
  setoid_rewrite map_err_ok. split.
  - intros (Hr & m & Hm & H1). apply bind_ok in H1 as (c & Hc%manifest_io_ok & [Hp H1]%guard_ok).
    rewrite not_or_and in Hp. destruct Hp as [Hp%dec_stable _]. rewrite bind_unit_ok, verify_artifact_at_Ok in H1 by done.
    destruct H1 as [Hok [= <-]]. simpl. split_and!; try done. by exists m.
  - destruct a as [path spec' role']. simpl. intros (-> & -> & Hr & (m & Hm) & Hc & Hp & Hok). split; [done|]. exists m.
    split; [done|]. apply bind_ok. exists path. rewrite manifest_io_ok, guard_ok, not_or_and, bind_unit_ok, verify_artifact_at_Ok by done.
    split_and!; try (done || tauto). intros Hn. apply Hn. unfold path_starts_with.
    destruct Hr as (_ & Hrel & _). rewrite Hp, components_join by done. by eexists.
Qed.

(** The entries of a manifest and the artifacts of a profile, in one order. *)
Definition entries (m : ProfileManifest.t) : list (ArtifactSpec.t * ArtifactRole) :=
  let a := ProfileManifest.artifacts m in
  [(ArtifactManifest.guard a, HostExecutable); (ArtifactManifest.uml a, HostExecutable);
   (ArtifactManifest.skopeo a, HostExecutable); (ArtifactManifest.network_helper a, HostExecutable);
   (ArtifactManifest.registry_ca_bundle a, Data); (ArtifactManifest.workload_initramfs a, Initramfs);
   (ArtifactManifest.builder_initramfs a, Initramfs); (ArtifactManifest.validator_initramfs a, Initramfs);
   (ArtifactManifest.mke2fs a, HostExecutable); (ArtifactManifest.resize2fs a, HostExecutable);
   (ArtifactManifest.debugfs a, HostExecutable); (ArtifactManifest.e2fsck a, HostExecutable);
   (ArtifactManifest.mke2fs_config a, Data); (ArtifactManifest.e2fsck_config a, Data);
   (ArtifactManifest.normalized_kernel_config a, KernelConfig)].
Definition artifacts (p : VerifiedProfile.t) : list VerifiedArtifact.t :=
  [VerifiedProfile.guard p; VerifiedProfile.uml p; VerifiedProfile.skopeo p; VerifiedProfile.network_helper p;
   VerifiedProfile.registry_ca_bundle p; VerifiedProfile.initramfs p; VerifiedProfile.builder_initramfs p;
   VerifiedProfile.validator_initramfs p; VerifiedProfile.mke2fs p; VerifiedProfile.resize2fs p;
   VerifiedProfile.debugfs p; VerifiedProfile.e2fsck p; VerifiedProfile.mke2fs_config p; VerifiedProfile.e2fsck_config p;
   VerifiedProfile.kernel_config p].

Definition texts_ok (p : VerifiedProfile.t) : Prop :=
  (∃ config, bounded_file fs (VerifiedArtifact.path (VerifiedProfile.kernel_config p)) MAX_CONFIG_BYTES config ∧
     kernel_config_ok (ProfileManifest.cpu (VerifiedProfile.manifest p)) config) ∧
  (∃ bundle, bounded_file fs (VerifiedArtifact.path (VerifiedProfile.registry_ca_bundle p)) MAX_CA_BUNDLE_BYTES bundle ∧
     ca_bundle_ok bundle).

Record loaded `{ProfileJson} (root : ManagedUmlPath.t) (p : VerifiedProfile.t) : Prop := {
  loaded_root : VerifiedProfile.root p = root ∧ directory_ok fs (ManagedUmlPath.path_buf root);
  loaded_manifest : ∃ text,
    bounded_file fs (path_join (ManagedUmlPath.path_buf root) PROFILE_MANIFEST_FILE) MAX_MANIFEST_BYTES text ∧
    profile_of_json text = inr (VerifiedProfile.manifest p);
  loaded_contracts : manifest_ok (VerifiedProfile.manifest p) ∧
    VerifiedProfile.cpu_profile p = cpu_profile_of (ProfileManifest.cpu (VerifiedProfile.manifest p)) ∧
    VerifiedProfile.memory_policy p = memory_policy_of (ProfileManifest.memory (VerifiedProfile.manifest p));
  loaded_revision : ∃ encoded,
    canonical_json (CanonicalManifest.canonical (VerifiedProfile.manifest p)) = inr encoded ∧
    sha256_digest (PROFILE_REVISION_DOMAIN ++ encoded) = ProfileManifest.profile_revision (VerifiedProfile.manifest p);
  loaded_artifacts : Forall2 (placed fs root) (entries (VerifiedProfile.manifest p)) (artifacts p);
  loaded_distinct : NoDup (components <$> (VerifiedArtifact.path <$> artifacts p));
  loaded_policy :
    ArtifactSpec.size (ArtifactManifest.e2fsck_config (ProfileManifest.artifacts (VerifiedProfile.manifest p))) = 0%N;
  loaded_texts : texts_ok p;
}.

Lemma computed_revision_Ok `{ProfileJson} m d :
  computed_revision m = Ok d ↔
  ∃ encoded, canonical_json (CanonicalManifest.canonical m) = inr encoded ∧ d = sha256_digest (PROFILE_REVISION_DOMAIN ++ encoded).
Proof.
  unfold computed_revision. destruct (canonical_json _) as [e|encoded]; [naive_solver|].
  rewrite sha256_pieces, ok_inj. cbn [concat]. rewrite app_nil_r. naive_solver.
Qed.

(** As many different elements as elements. *)
Lemma size_list_to_set_NoDup (l : list (list bytes)) : size (list_to_set l : gset (list bytes)) = length l ↔ NoDup l.
Proof.
  split; [|apply size_list_to_set]. induction l as [|a l IH]; [constructor|]. cbn [list_to_set length]. intros Hs.
  assert (size (list_to_set l : gset (list bytes)) ≤ length l) as Hle.
  { clear. induction l as [|b l IH]; [done|]. cbn [list_to_set length]. rewrite size_union_alt, size_singleton.
    pose proof (subseteq_size (list_to_set l ∖ {[b]} : gset (list bytes)) (list_to_set l) ltac:(set_solver)). lia. }
  destruct (decide (a ∈ l)) as [Hin|Hin].
  - replace ({[a]} ∪ list_to_set l : gset (list bytes)) with (list_to_set l : gset (list bytes)) in Hs by set_solver. lia.
  - constructor; [done|]. apply IH. rewrite size_union, size_singleton in Hs by set_solver. lia.
Qed.

Lemma load_Ok `{ProfileJson} root p : sizes_agree fs → load fs root = Ok p ↔ loaded root p.
Proof.
  intros Hsizes. unfold load. cbv zeta. rewrite bind_unit_ok, validate_exact_directory_Ok, bind_ok. setoid_rewrite read_bounded_Ok. split.
  - intros (Hdir & text & Htext & Hr). apply bind_ok in Hr as (m & Hm & Hr).
    assert (profile_of_json text = inr m) as Hjson by (destruct (profile_of_json text); naive_solver). clear Hm.
    apply bind_ok in Hr as ([cpu memory] & [Hok [= -> ->]]%validate_manifest_Ok & Hr).
    apply bind_ok in Hr as (d & (encoded & Henc & ->)%computed_revision_Ok & [Hrev%dec_stable Hr]%guard_ok).
    do 14 (apply bind_ok in Hr as (? & ?%verified_artifact_Ok & Hr); [|done]).
    apply manifest_guard_ok in Hr as [Hsize%dec_stable Hr].
    apply bind_ok in Hr as (? & ?%verified_artifact_Ok & Hr); [|done].
    rewrite manifest_guard_ok, !bind_unit_ok, validate_kernel_config_Ok, validate_registry_ca_bundle_Ok in Hr.
    destruct Hr as (Hnd%dec_stable & Hconfig & Hca & [= <-]).
    split; simpl; try done.
    + by exists text.
    + by exists encoded.
    + unfold entries, artifacts. simpl. repeat (apply Forall2_cons; split; [done|]). constructor.
    + apply size_list_to_set_NoDup. exact Hnd.
    + match goal with H : placed _ _ (ArtifactManifest.e2fsck_config _, _) _ |- _ => destruct H as (Heq & _) end. cbn [fst] in Heq. by rewrite <- Heq.
  - intros [[<- Hdir] (text & Htext & Hjson) (Hok & Hcpu & Hmem) (encoded & Henc & Hrev) Harts Hnd Hsize [Hconfig Hca]].
    split; [done|]. exists text. split; [done|]. rewrite Hjson. rsimpl.
    apply bind_ok. eexists (_, _). split; [by apply validate_manifest_Ok|]. cbv beta iota.
    apply bind_ok. eexists. split; [apply computed_revision_Ok; by exists encoded|]. apply guard_ok. split; [tauto|].
    destruct p as [root m cpu memory guard uml skopeo helper ca init binit vinit mke resize debug fsck mkecfg fsckcfg kernel].
    simpl in *. unfold entries, artifacts in Harts. simpl in Harts.
    repeat match goal with H : Forall2 _ (_ :: _) (_ :: _) |- _ => apply Forall2_cons in H as [? ?] end.
    do 14 (apply bind_ok; eexists; split; [by apply verified_artifact_Ok|]).
    apply manifest_guard_ok. split.
    { match goal with H : placed _ _ (ArtifactManifest.e2fsck_config _, _) _ |- _ => destruct H as (-> & _) end. cbn [fst]. lia. }
    apply bind_ok. eexists. split; [by apply verified_artifact_Ok|].
    rewrite manifest_guard_ok, !bind_unit_ok, validate_kernel_config_Ok, validate_registry_ca_bundle_Ok.
    split_and!; [|done|done|by subst]. apply size_list_to_set_NoDup in Hnd. intros Hn. by apply Hn.
Qed.

Lemma reverify_Ok p :
  sizes_agree fs →
  reverify fs p = Ok () ↔
  directory_ok fs (ManagedUmlPath.path_buf (VerifiedProfile.root p)) ∧
  Forall (λ a, artifact_ok fs (VerifiedArtifact.path a) (VerifiedArtifact.spec a) (VerifiedArtifact.role a)) (reverified p) ∧
  texts_ok p.
Proof.
  intros Hsizes. unfold reverify, texts_ok.
  rewrite !bind_unit_ok, validate_exact_directory_Ok, each_ok, validate_kernel_config_Ok, validate_registry_ca_bundle_Ok.
  setoid_rewrite verify_artifact_at_Ok; [|done]. tauto.
Qed.
End facts.

(** ** Nothing panics *)
Lemma np_manifest_io {A} operation path (r : io_error + A) : no_panic (manifest_io operation path r).
Proof. by destruct r. Qed.
#[export] Hint Resolve np_manifest_io : no_panic.
Lemma np_read_bounded fs path maximum : no_panic (read_bounded fs path maximum).
Proof. unfold read_bounded. np. Qed.
#[export] Hint Resolve np_read_bounded : no_panic.
Lemma np_require_config path settings setting expected : no_panic (require_config path settings setting expected).
Proof. unfold require_config. np. Qed.
#[export] Hint Resolve np_require_config : no_panic.
Lemma np_validate_kernel_config fs path cpu : no_panic (validate_kernel_config fs path cpu).
Proof. unfold validate_kernel_config, check_kernel_config. np. Qed.
Lemma np_scan_line s line : no_panic (scan_line s line).
Proof. unfold scan_line, ca_invalid. np. Qed.
#[export] Hint Resolve np_scan_line : no_panic.
Lemma np_validate_registry_ca_bundle fs path : no_panic (validate_registry_ca_bundle fs path).
Proof. unfold validate_registry_ca_bundle, ca_invalid. np. Qed.
#[export] Hint Resolve np_validate_kernel_config np_validate_registry_ca_bundle : no_panic.
Lemma np_read_exact_at content offset n : no_panic (read_exact_at content offset n).
Proof. unfold read_exact_at. np. Qed.
#[export] Hint Resolve np_read_exact_at : no_panic.
Lemma np_dynamic_entries path content count offset : no_panic (dynamic_entries path content count offset).
Proof. revert offset. induction count as [|count IH]; intros offset; simpl; unfold elf_io; np. Qed.
#[export] Hint Resolve np_dynamic_entries : no_panic.
Lemma np_verify_dynamic path content size header :
  no_panic (verify_dynamic_table_has_no_needed path content size header).
Proof. unfold verify_dynamic_table_has_no_needed. np. Qed.
#[export] Hint Resolve np_verify_dynamic : no_panic.
Lemma np_program_headers path content size count offset width has_load :
  no_panic (program_headers path content size count offset width has_load).
Proof. revert offset has_load. induction count as [|count IH]; intros offset has_load; simpl; unfold elf_io; np. Qed.
#[export] Hint Resolve np_program_headers : no_panic.
Lemma np_verify_static path content size : no_panic (verify_static_x86_64_elf path content size).
Proof. unfold verify_static_x86_64_elf, elf_io. np. Qed.
#[export] Hint Resolve np_verify_static : no_panic.
Lemma np_managed_path path : no_panic (ManagedUmlPath.new path).
Proof. unfold ManagedUmlPath.new. repeat (case_match; [|try done]); np. Qed.
#[export] Hint Resolve np_managed_path : no_panic.
Lemma np_relative_path path : no_panic (validate_relative_artifact_path path).
Proof. unfold validate_relative_artifact_path. np. Qed.
Lemma np_check_mode path mode role : no_panic (check_mode path mode role).
Proof. destruct role; unfold check_mode; np. Qed.
Lemma np_exact_directory fs path : no_panic (validate_exact_directory fs path).
Proof. unfold validate_exact_directory. np. Qed.
Lemma np_reject_capability file path : no_panic (reject_file_capability file path).
Proof. unfold reject_file_capability. destruct (OpenedFile.capability file); np. Qed.
Lemma np_hash_reader `{Sha2} file path : no_panic (hash_reader file path).
Proof. unfold hash_reader. np. Qed.
#[export] Hint Resolve np_relative_path np_check_mode np_exact_directory np_reject_capability np_hash_reader : no_panic.
Lemma np_verify_artifact_at `{Sha2} `{Hex} fs path spec role : no_panic (verify_artifact_at fs path spec role).
Proof. unfold verify_artifact_at. np. Qed.
#[export] Hint Resolve np_verify_artifact_at : no_panic.
Lemma np_verified_artifact `{Sha2} `{Hex} fs root spec role : no_panic (verified_artifact fs root spec role).
Proof. unfold verified_artifact. np. Qed.
#[export] Hint Resolve np_verified_artifact : no_panic.
Lemma np_load `{Sha2} `{Hex} `{ProfileJson} fs root : no_panic (load fs root).
Proof.
  unfold load, computed_revision. np.
Qed.

(** ** Bundles *)

(** C11: a bundle is loaded exactly when it is a directory of its own whose manifest is
    one for this host and these guests, whose revision is the digest of that manifest,
    and whose fifteen files are distinct, sit inside the directory under the names the
    manifest gives, are not writable by others, and have the sizes and digests the
    manifest gives; executables are static x86_64 programs, the e2fsck policy is empty,
    the kernel configuration has every required setting, and the certificate bundle holds
    a certificate.  Loading always returns. *)
Theorem profile_load_exact `{Sha2Laws} `{Hex} `{ProfileJson} fs root :
  no_panic (load fs root) ∧
  (sizes_agree fs → ∀ p, load fs root = Ok p ↔ loaded fs root p).
Proof. split; [apply np_load|]. intros Hsizes p. by apply load_Ok. Qed.

(** Two files have the same bytes, or their two contents collide. *)
Definition same_contents `{Sha2} (fs fs' : Files.t) (path path' : bytes) : Prop :=
  ∃ b b', contents fs path = inr b ∧ contents fs' path' = inr b' ∧ (b = b' ∨ collides b b').
(** An artifact's bytes, wherever its file is. *)
Definition same_bytes `{Sha2} (fs fs' : Files.t) (a a' : VerifiedArtifact.t) : Prop :=
  same_contents fs fs' (VerifiedArtifact.path a) (VerifiedArtifact.path a').
(** What the revision of a manifest is the digest of *)
Definition revision_preimage `{ProfileJson} (m : ProfileManifest.t) : bytes :=
  PROFILE_REVISION_DOMAIN ++ match canonical_json (CanonicalManifest.canonical m) with inr encoded => encoded | inl _ => [] end.

Lemma same_artifact `{Sha2Laws} fs fs' path path' spec role role' :
  artifact_ok fs path spec role → artifact_ok fs' path' spec role' →
  same_contents fs fs' path path'.
Proof.
  intros [_ (m & f & b & _ & _ & _ & _ & Hf & Hb & _ & Hd & _)] [_ (m' & f' & b' & _ & _ & _ & _ & Hf' & Hb' & _ & Hd' & _)].
  exists b, b'. unfold contents. rewrite Hf, Hf'. split_and!; [done|done|]. apply same_digest. congruence.
Qed.

Lemma Forall2_same_bytes `{Sha2Laws} fs fs' root root' es l l' :
  Forall2 (placed fs root) es l → Forall2 (placed fs' root') es l' → Forall2 (same_bytes fs fs') l l'.
Proof.
  intros Hl. revert l'. induction Hl as [|e a es l Ha Hl IH]; intros l' Hl'; [inversion Hl'; constructor|].
  apply Forall2_cons_inv_l in Hl' as (a' & l'' & Ha' & Hl' & ->). constructor; [|by apply IH].
  destruct Ha as (_ & _ & _ & _ & _ & _ & Ha), Ha' as (_ & _ & _ & _ & _ & _ & Ha'). by eapply same_artifact.
Qed.

(** C20: a revision names one bundle.  When two bundles load with the same revision, on
    whatever hosts, then the two texts that were hashed for the revisions are different
    with the same SHA-256 digest, or the manifests are the same and, file by file, the
    contents on the two hosts are the same bytes or are themselves two different byte
    strings with the same digest. *)
Theorem profile_revision_binds `{Sha2Laws} `{Hex} `{ProfileJsonLaws} fs fs' root root' p p' :
  sizes_agree fs → sizes_agree fs' →
  load fs root = Ok p → load fs' root' = Ok p' →
  ProfileManifest.profile_revision (VerifiedProfile.manifest p) = ProfileManifest.profile_revision (VerifiedProfile.manifest p') →
  collides (revision_preimage (VerifiedProfile.manifest p)) (revision_preimage (VerifiedProfile.manifest p')) ∨
  VerifiedProfile.manifest p = VerifiedProfile.manifest p' ∧ Forall2 (same_bytes fs fs') (artifacts p) (artifacts p').
Proof.
  intros Hs Hs' Hp%load_Ok Hp'%load_Ok Hrev; [|done..].
  destruct (loaded_revision _ _ _ Hp) as (t & Ht & Hd), (loaded_revision _ _ _ Hp') as (t' & Ht' & Hd').
  unfold revision_preimage. rewrite Ht, Ht'.
  destruct (same_digest (PROFILE_REVISION_DOMAIN ++ t) (PROFILE_REVISION_DOMAIN ++ t')) as [Heq%(inj _)|?]; [congruence| |by left].
  right. subst t'. pose proof (canonical_json_inj _ _ _ Ht Ht') as Hc.
  assert (VerifiedProfile.manifest p = VerifiedProfile.manifest p') as Hm.
  { destruct (VerifiedProfile.manifest p), (VerifiedProfile.manifest p'). unfold CanonicalManifest.canonical in Hc. simpl in *.
    injection Hc. intros. by subst. }
  pose proof (loaded_artifacts _ _ _ Hp) as Ha. pose proof (loaded_artifacts _ _ _ Hp') as Ha'. rewrite <- Hm in Ha'.
  split; [done|]. by eapply Forall2_same_bytes.
Qed.

Lemma reverified_artifacts p : reverified p ⊆ artifacts p.
Proof. unfold reverified, artifacts. set_solver. Qed.

(** What is verified again before a launch is what was loaded: when [reverify]
    passes, the guard, User-mode Linux, the guests' file systems, the configurations
    and every other file that it looks at have the bytes they had when the bundle was
    loaded, or bytes that collide with these, and the executables are static programs. *)
Theorem reverify_binds `{Sha2Laws} `{Hex} `{ProfileJson} fs fs' root p :
  sizes_agree fs → sizes_agree fs' →
  load fs root = Ok p → reverify fs' p = Ok () →
  Forall (λ a, same_bytes fs fs' a a ∧
    (VerifiedArtifact.role a = HostExecutable → ∃ b, contents fs' (VerifiedArtifact.path a) = inr b ∧ static_elf b)) (reverified p).
Proof.
  intros Hs Hs' Hp%load_Ok (_ & Hr & _)%reverify_Ok; [|done..].
  assert (Forall (λ a, artifact_ok fs (VerifiedArtifact.path a) (VerifiedArtifact.spec a) (VerifiedArtifact.role a)) (artifacts p)) as Hl.
  { eapply Forall2_Forall_r; [exact (loaded_artifacts _ _ _ Hp)|]. apply Forall_forall.
    intros [spec role] _ a (-> & -> & _ & _ & _ & _ & Ha). done. }
  pose proof (reverified_artifacts p) as Hsub. revert Hr Hsub. generalize (reverified p). intros l Hr Hsub.
  induction Hr as [|a l Ha Hr IH]; [done|]. rewrite Forall_forall in Hl.
  constructor; [|by apply IH; set_solver]. split; [eapply same_artifact; [apply Hl; set_solver|done]|]. intros Hrole. destruct Ha as [_ (m & f & b & _ & _ & _ & _ & Hf & Hb' & _ & _ & He)].
  exists b. unfold contents. rewrite Hf. split; [done|by apply He].
Qed.
