(* ===== verification/ProfileSample.v ===== *)
(** * A profile bundle

    A bundle with its fifteen files on a host's file system: it is loaded, verified
    again, and verified again after two of its tools were replaced. *)

From stdpp Require Import gmap.
From S2P Require Import Prelude RustStr Utf8 ByteOrder ManagedPath Memory Cpu ProtocolError Frame Payload BuilderMessage NoPanic Sha256.
From S2P Require Import StoreCodec HexText HostError HostFiles Profile Elf ProfileText ProfileFiles.

Module SampleBundle.
Import SampleHash SampleHex SampleElf.

Definition root_path : bytes := bs "/opt/pocket/profile".
Definition root : ManagedUmlPath.t := ManagedUmlPath.ManagedUmlPath root_path.

Definition line (s : bytes) : bytes := s ++ [x0a].
Definition config_line (entry : bytes * bytes) : bytes :=
  if decide (entry.2 = bs "n") then line (bs "# " ++ entry.1 ++ bs " is not set") else line (entry.1 ++ x3d :: entry.2).
(** [CONFIG_SECCOMP_FILTER] is required twice and set once. *)
Definition kernel_config : bytes := concat (config_line <$> remove_dups (required_of false)).
Definition ca_bundle : bytes := line (bs "a root") ++ line BEGIN ++ line (bs "QUJD") ++ line (bs "QQ==") ++ line END.

(** Name, mode and bytes of the files; [tool] is what resize2fs and debugfs hold. *)
Definition table (tool : bytes) : list (string * (N * bytes)) :=
  [("guard", (493%N, program)); ("uml", (493%N, program)); ("skopeo", (493%N, program)); ("passt", (493%N, program));
   ("ca.pem", (420%N, ca_bundle)); ("workload.img", (420%N, bs "w")); ("builder.img", (420%N, bs "b"));
   ("validator.img", (420%N, bs "v")); ("mke2fs", (493%N, program)); ("resize2fs", (493%N, tool));
   ("debugfs", (493%N, tool)); ("e2fsck", (493%N, program)); ("mke2fs.conf", (420%N, bs "c")); ("e2fsck.conf", (420%N, []));
   ("kernel.config", (420%N, kernel_config)); ("profile.json", (420%N, bs "{}"))]%string.

Definition found (tool path : bytes) : option (N * bytes) :=
  snd <$> List.find (λ e, bool_decide (path = path_join root_path (bs e.1))) (table tool).

Definition missing : io_error := io_error_of NotFound None.
Definition no_data : io_error := io_error_of OtherKind (Some ENODATA).

Definition host (tool : bytes) : Files.t :=
  let stat path :=
    if decide (path = root_path) then inr (Metadata.metadata false true 493 2 0 0) else
    match found tool path with
    | Some (mode, b) => inr (Metadata.metadata true false mode 1 (len b) 0)
    | None => inl missing
    end in
  Files.files stat stat (λ path, inr path)
    (λ path, match found tool path with
             | Some (_, b) => inr (OpenedFile.opened_file (inr b) (inl no_data))
             | None => inl missing
             end).

Definition spec (name : string) : ArtifactSpec.t :=
  let b := default [] (snd <$> found program (path_join root_path (bs name))) in
  ArtifactSpec.artifact_spec (bs name) (sha256_digest b) (len b).

Definition hex_id : bytes := replicate 64 x61.
Definition contract (features : list bytes) : HelloContract.t := HelloContract.hello_contract hex_id hex_id hex_id features.
Definition MIB_ : N := 1048576.

Definition manifest : ProfileManifest.t := {|
  ProfileManifest.schema_version := 3;
  ProfileManifest.profile_id := bs "sample";
  ProfileManifest.profile_revision := sha256_digest (PROFILE_REVISION_DOMAIN ++ bs "canonical");
  ProfileManifest.maturity := ProfileMaturity.Experimental;
  ProfileManifest.host_architecture := bs "x86_64";
  ProfileManifest.host_elf_machine := 62;
  ProfileManifest.oci_os := bs "linux";
  ProfileManifest.oci_architecture := bs "amd64";
  ProfileManifest.accepted_oci_variants := [None; Some (bs "v1")];
  ProfileManifest.uml_subarchitecture := bs "x86_64";
  ProfileManifest.guest_page_size := 4096;
  ProfileManifest.cpu := CpuManifest.cpu_manifest false 1 None 1;
  ProfileManifest.memory := MemoryManifest.memory_manifest (64 * MIB_) (256 * MIB_) (4096 * MIB_) (1024 * MIB_) (512 * MIB_)
    (512 * MIB_) 4096;
  ProfileManifest.contracts := SUPPORTED_CONTRACTS;
  ProfileManifest.hello := contract WORKLOAD_GUEST_FEATURES;
  ProfileManifest.builder := BuilderContract.builder_contract (contract BUILDER_GUEST_FEATURES) (bs "pocket-fs-manifest-v1")
    [BuilderToolContract.builder_tool_contract (bs "umoci") hex_id (bs "0.5.0")] 1700000000;
  ProfileManifest.validator := ValidatorContract.validator_contract (contract VALIDATOR_GUEST_FEATURES) (bs "pocket-fs-manifest-v1");
  ProfileManifest.launch := SUPPORTED_LAUNCH;
  ProfileManifest.artifacts := ArtifactManifest.artifact_manifest (spec "guard") (spec "uml") (spec "skopeo") (spec "passt")
    (spec "ca.pem") (spec "workload.img") (spec "builder.img") (spec "validator.img") (spec "mke2fs") (spec "e2fsck")
    (spec "resize2fs") (spec "debugfs") (spec "mke2fs.conf") (spec "e2fsck.conf") (spec "kernel.config");
|}.

#[local] Instance maturity_dec : EqDecision ProfileMaturity.t.
Proof. solve_decision. Defined.
#[local] Instance spec_dec : EqDecision ArtifactSpec.t.
Proof. solve_decision. Defined.
#[local] Instance cpu_dec : EqDecision CpuManifest.t.
Proof. solve_decision. Defined.
#[local] Instance memory_dec : EqDecision MemoryManifest.t.
Proof. solve_decision. Defined.
#[local] Instance contracts_dec : EqDecision Contracts.t.
Proof. solve_decision. Defined.
#[local] Instance hello_dec : EqDecision HelloContract.t.
Proof. solve_decision. Defined.
#[local] Instance tool_dec : EqDecision BuilderToolContract.t.
Proof. solve_decision. Defined.
#[local] Instance builder_dec : EqDecision BuilderContract.t.
Proof. solve_decision. Defined.
#[local] Instance validator_dec : EqDecision ValidatorContract.t.
Proof. solve_decision. Defined.
#[local] Instance launch_dec : EqDecision LaunchContract.t.
Proof. solve_decision. Defined.
#[local] Instance artifacts_dec : EqDecision ArtifactManifest.t.
Proof. solve_decision. Defined.
#[local] Instance canonical_dec : EqDecision CanonicalManifest.t.
Proof. solve_decision. Defined.

#[export] Instance sample_json : ProfileJson := {|
  profile_of_json _ := inr manifest;
  canonical_json c := if decide (c = CanonicalManifest.canonical manifest) then inr (bs "canonical") else inl [];
|}.
#[export] Instance sample_json_laws : ProfileJsonLaws.
Proof. split. intros a b t. simpl. repeat case_decide; congruence. Qed.

Lemma table_sizes tool :
  (len tool < u64_bound)%N → Forall (λ e : string * (N * bytes), (len e.2.2 < u64_bound)%N) (table tool).
Proof.
  intros Ht. unfold table. rewrite !Forall_cons.
  split_and!; lazymatch goal with |- context [tool] => exact Ht | |- Forall _ _ => constructor | _ => vm_compute; reflexivity end.
Qed.

Lemma host_sizes tool : (len tool < u64_bound)%N → sizes_agree (host tool).
Proof.
  intros Ht path m f c Hm Hf Ho Hc. unfold host in Hm, Ho. cbn [Files.symlink_metadata Files.open] in Hm, Ho.
  case_decide; [by injection Hm as <-|]. destruct (found tool path) as [[mode b]|] eqn:Hb; [|done].
  injection Hm as <-. injection Ho as <-. cbn [OpenedFile.content] in Hc. injection Hc as <-.
  split; [done|]. unfold found in Hb. apply fmap_Some in Hb as (e & [Hin _]%List.find_some & He).
  pose proof (table_sizes tool Ht) as Hall. rewrite List.Forall_forall in Hall. specialize (Hall e Hin). by rewrite <- He in Hall.
Qed.

Lemma kernel_config_text : kernel_config_ok (ProfileManifest.cpu manifest) kernel_config.
Proof. apply (check_kernel_config_Ok []). by vm_compute. Qed.

(** The bundle as it is loaded. *)
Definition bundle : mresult VerifiedProfile.t := Eval vm_compute in load (host program) root.

Lemma bundle_loads : load (host program) root = bundle.
Proof. vm_compute. reflexivity. Qed.

Lemma program_size : (len program < u64_bound)%N ∧ (len linked_program < u64_bound)%N.
Proof. split; vm_compute; reflexivity. Qed.

Lemma profile_load_exact_witness :
  match bundle with Ok p => loaded (host program) root p | _ => False end.
Proof.
  destruct (profile_load_exact (host program) root) as [_ Hiff]. specialize (Hiff (host_sizes _ (proj1 program_size))).
  apply Hiff. exact bundle_loads.
Defined.

(** Another program that the sample hash does not tell apart from the first. *)
Definition twin_program : bytes := take 200 program ++ to_le 8 1.
Lemma twin_loads : load (host twin_program) root = bundle.
Proof. vm_compute. reflexivity. Qed.

Lemma profile_revision_binds_witness :
  match bundle with
  | Ok p => program ≠ twin_program ∧
      (collides (revision_preimage (VerifiedProfile.manifest p)) (revision_preimage (VerifiedProfile.manifest p)) ∨
       Forall2 (same_bytes (host program) (host twin_program)) (artifacts p) (artifacts p))
  | _ => False
  end.
Proof.
  pose proof (host_sizes _ (proj1 program_size)) as Hs.
  assert (sizes_agree (host twin_program)) as Hs' by (apply host_sizes; vm_compute; reflexivity).
  split; [intros Heq; apply (f_equal (λ b, b !! 200)) in Heq; vm_compute in Heq; discriminate Heq|].
  destruct (profile_revision_binds (host program) (host twin_program) root root _ _ Hs Hs' bundle_loads twin_loads eq_refl) as [?|[_ ?]];
    [by left|by right].
Defined.

(** The two tools that [reverify] does not look at are replaced by a program that is
    linked to a library: the bundle would not be loaded any more, and passes. *)
Lemma reverify_overlooks_tools :
  match bundle with
  | Ok p =>
      reverify (host linked_program) p = Ok () ∧
      contents (host linked_program) (VerifiedArtifact.path (VerifiedProfile.resize2fs p)) = inr linked_program ∧
      contents (host linked_program) (VerifiedArtifact.path (VerifiedProfile.debugfs p)) = inr linked_program ∧
      load (host linked_program) root = Err (ManifestError.Elf (path_join root_path (bs "resize2fs"))
        (bs "profile declares static linkage but ELF contains DT_NEEDED"))
  | _ => False
  end.
Proof. vm_compute. split_and!; reflexivity. Qed.

Lemma reverify_binds_witness :
  match bundle with
  | Ok p => Forall (λ a, same_bytes (host program) (host linked_program) a a) (reverified p)
  | _ => False
  end.
Proof.
  destruct program_size as [Hs Hs'].
  pose proof (reverify_binds (host program) (host linked_program) root _ (host_sizes _ Hs) (host_sizes _ Hs') bundle_loads
    (proj1 reverify_overlooks_tools)) as Hl.
  eapply Forall_impl; [exact Hl|]. by intros a [? _].
Defined.
End SampleBundle.
