(* ===== verification/Launch.v ===== *)
(** * Launch plans: crates/pocket-runtime/src/launch.rs and builder.rs

    The command that the guard runs for a workload, a builder or a validator guest, and
    the arguments of the guard itself.  The theorems relate the command lines to the
    programs that read them (GuestConfig): whatever UML does with its own options, a
    guest that sees the [pocket.] parameters of the plan accepts them and takes from them
    the identities, sizes and policies of the profile. *)

From stdpp Require Import gmap.
From S2P Require Import Prelude RustStr Utf8 ByteOrder ManagedPath Memory Cpu ProtocolError Payload Message NoPanic InitError GuestErrors HexText.
From S2P Require Import HostError HostFiles Parameters GuestConfig Profile ProfileFiles.

#[local] Arguments bs : simpl never.
#[local] Arguments len : simpl never.

Definition LEASE_FD : N := 8.
Definition LIVENESS_FD : N := 9.
Definition CONTROL_FD : N := 10.
Definition STDOUT_FD : N := 11.
Definition STDERR_FD : N := 12.
Definition STDIN_FD : N := 13.
Definition CONSOLE_FD : N := 14.
Definition EXTRA_CONSOLE_FD_BASE : N := 15.

(** [Duration::as_millis], of a duration in nanoseconds *)
Definition as_millis (duration : N) : N := duration / 1000000.

Module RunPaths.
Record t : Set := mk {
  uml_dir : bytes;
  tmp_dir : bytes;
  cow : bytes;
  network_socket : bytes;
  umid : bytes;
}.
End RunPaths.

Module LaunchInputs.
Record t : Set := mk {
  profile : VerifiedProfile.t;
  extra_consoles : N;
  paths : RunPaths.t;
  base : bytes;
  cpus : Cpu.ValidatedCpuRequest;
  memory : Memory.ValidatedMemory;
  guard_term_timeout : N;
  verbose_console : bool;
  network : bool;
}.
End LaunchInputs.

Module LaunchPlan.
Record t : Set := mk {
  guard_program : bytes;
  guard_arguments : list bytes;
  uml_command : list bytes;
  environment : gmap bytes bytes;
  extra_consoles : N;
}.
End LaunchPlan.

(** The paths of a run or build are [OsStr]s; [to_str] needs UTF-8. *)
Definition path_text (field : string) (path : bytes) : result RuntimeError.t bytes :=
  if decide (¬ valid_utf8 path) then RuntimeError.invalid field (bs "path is not UTF-8") else Ok path.

Definition serial_line (line fd : N) : bytes :=
  bs "ssl" ++ to_decimal line ++ bs "=fd:" ++ to_decimal fd ++ bs ",fd:" ++ to_decimal fd.

(** [0..count] *)
Definition range (count : N) : list N := N.of_nat <$> seq 0 (N.to_nat count).

Definition inherit_fd (fd : N) : list bytes := [bs "--inherit-fd"; to_decimal fd].

Definition run_environment (tmp_dir : bytes) : gmap bytes bytes :=
  list_to_map [(bs "HOME", bs "/"); (bs "LANG", bs "C"); (bs "LC_ALL", bs "C"); (bs "PATH", bs "/usr/bin:/bin");
               (bs "TZ", bs "UTC0"); (bs "TMPDIR", tmp_dir); (bs "TMP", tmp_dir); (bs "TEMP", tmp_dir)].

Section plan.
Context (supervisor_pid : N).

Definition build_launch_plan (inputs : LaunchInputs.t) : result RuntimeError.t LaunchPlan.t :=
  let profile := LaunchInputs.profile inputs in
  let paths := LaunchInputs.paths inputs in
  let manifest := VerifiedProfile.manifest profile in
  let launch := ProfileManifest.launch manifest in
  let hello := ProfileManifest.hello manifest in
  let contracts := ProfileManifest.contracts manifest in
  cow ← path_text "cow" (RunPaths.cow paths);
  base ← path_text "base" (LaunchInputs.base inputs);
  uml_dir ← path_text "uml_dir" (RunPaths.uml_dir paths);
  initramfs ← path_text "initramfs" (VerifiedArtifact.path (VerifiedProfile.initramfs profile));
  if decide (LaunchContract.max_ubd_path_bytes launch < len cow ∨ LaunchContract.max_ubd_path_bytes launch < len base)%N
  then RuntimeError.invalid "ubd0" (bs "COW or backing path exceeds the profile limit") else
  if decide (LaunchContract.max_umid_bytes launch < len (RunPaths.umid paths))%N
  then RuntimeError.invalid "umid" (bs "generated UML identifier exceeds the profile limit") else
  if decide (LaunchContract.max_unix_path_bytes launch < len uml_dir)%N
  then RuntimeError.invalid "uml_dir" (bs "runtime UML directory exceeds the profile Unix-path limit") else
  network_socket ← path_text "network_socket" (RunPaths.network_socket paths);
  if decide (LaunchInputs.network inputs = true ∧ (LaunchContract.max_unix_path_bytes launch < len network_socket)%N)
  then RuntimeError.invalid "network_socket" (bs "network socket path exceeds the profile Unix-path limit") else
  let uml_command :=
    [VerifiedArtifact.path (VerifiedProfile.uml profile); bs "mem=" ++ Memory.uml_value (LaunchInputs.memory inputs)] ++
    match Cpu.kernel_ncpus (LaunchInputs.cpus inputs) with Some cpus => [bs "ncpus=" ++ to_decimal cpus] | None => [] end ++
    [bs "seccomp=on"; bs "umid=" ++ RunPaths.umid paths; bs "uml_dir=" ++ uml_dir; bs "initrd=" ++ initramfs;
     bs "rdinit=/init"; bs "rootfstype=ramfs"; bs "ubd0=" ++ cow ++ bs "," ++ base; bs "con=null"; bs "con0=fd:14,fd:14";
     bs "ssl=null"; bs "ssl0=fd:10,fd:10"; bs "ssl1=fd:13,fd:13"; bs "ssl2=fd:11,fd:11"; bs "ssl3=fd:12,fd:12"] ++
    ((λ index, serial_line (index + 4) (EXTRA_CONSOLE_FD_BASE + index)) <$> range (LaunchInputs.extra_consoles inputs)) ++
    [bs "pocket.guest_contract_id=" ++ HelloContract.guest_contract_id hello;
     bs "pocket.init_build_id=" ++ HelloContract.init_build_id hello;
     bs "pocket.kernel_build_id=" ++ HelloContract.kernel_build_id hello;
     bs "pocket.expected_cpus=" ++ to_decimal (Cpu.requested (LaunchInputs.cpus inputs));
     bs "pocket.expected_memory_bytes=" ++ to_decimal (Memory.parsed_bytes (Memory.validated (LaunchInputs.memory inputs)));
     bs "pocket.expected_architecture=amd64";
     bs "pocket.cpu_state_hwcap_policy=" ++ Contracts.cpu_state_hwcap_policy contracts;
     bs "pocket.guest_capability_policy=" ++ Contracts.guest_capability_policy contracts;
     bs "pocket.root_layout=" ++ Contracts.root_layout contracts;
     bs "pocket.filesystem_contract=" ++ Contracts.filesystem contracts;
     (if LaunchInputs.verbose_console inputs then bs "loglevel=7" else bs "quiet"); bs "noreboot"; bs "panic=1"] ++
    (if LaunchInputs.network inputs then [bs "vec0:transport=bess,dst=" ++ network_socket ++ bs ",depth=128,gro=1"] else []) in
  if decide (¬ (as_millis (LaunchInputs.guard_term_timeout inputs) < u64_bound)%N)
  then RuntimeError.invalid "guard_term_timeout" (bs "milliseconds do not fit u64") else
  let timeout_ms := as_millis (LaunchInputs.guard_term_timeout inputs) in
  let guard_arguments :=
    [bs "--supervisor-pid"; to_decimal supervisor_pid; bs "--liveness-fd"; to_decimal LIVENESS_FD;
     bs "--lease-fd"; to_decimal LEASE_FD] ++
    ([CONTROL_FD; STDOUT_FD; STDERR_FD; STDIN_FD; CONSOLE_FD] ≫= inherit_fd) ++
    (range (LaunchInputs.extra_consoles inputs) ≫= λ index, inherit_fd (EXTRA_CONSOLE_FD_BASE + index)) ++
    (if LaunchInputs.network inputs
     then [VerifiedArtifact.path (VerifiedProfile.network_helper profile); bs "--target-type=bess"; network_socket]
            ≫= λ argument, [bs "--network-helper-arg"; argument]
     else []) ++
    [bs "--term-timeout-ms"; to_decimal timeout_ms; bs "--uml-personality"; bs "--"] ++ uml_command in
  Ok (LaunchPlan.mk (VerifiedArtifact.path (VerifiedProfile.guard profile)) guard_arguments uml_command
        (run_environment (RunPaths.tmp_dir paths)) (LaunchInputs.extra_consoles inputs)).
End plan.

(** ** The guests of a build *)
Module BuildPaths.
Record t : Set := mk {
  uml_dir : bytes;
  tmp_dir : bytes;
  blkid_file : bytes;
  payload : bytes;
  initramfs : bytes;
  validator_initramfs : bytes;
  umid : bytes;
  validator_umid : bytes;
}.
End BuildPaths.

Module BuilderLaunchPlan.
Record t : Set := mk {
  guard_program : bytes;
  guard_arguments : list bytes;
  uml_command : list bytes;
  environment : gmap bytes bytes;
}.
End BuilderLaunchPlan.

Definition sanitized_environment (tmp : bytes) : gmap bytes bytes :=
  list_to_map [(bs "HOME", bs "/"); (bs "LANG", bs "C"); (bs "LC_ALL", bs "C"); (bs "PATH", bs "/usr/bin:/bin");
               (bs "TEMP", tmp); (bs "TMP", tmp); (bs "TMPDIR", tmp); (bs "TZ", bs "UTC0")].

Definition build_path_text (field : string) (path : bytes) : result HostBuildError.t bytes :=
  if decide (¬ valid_utf8 path) then HostBuildError.invalid field (bs "path is not UTF-8") else Ok path.

(** What both plans end with: the arguments of the guard and the plan *)
Definition guarded_plan (supervisor_pid : N) (profile : VerifiedProfile.t) (paths : BuildPaths.t) (guard_term_timeout : N)
    (uml_command : list bytes) : result HostBuildError.t BuilderLaunchPlan.t :=
  if decide (¬ (as_millis guard_term_timeout < u64_bound)%N)
  then HostBuildError.invalid "guard_term_timeout" (bs "milliseconds do not fit u64") else
  let guard_arguments :=
    [bs "--supervisor-pid"; to_decimal supervisor_pid; bs "--liveness-fd"; to_decimal LIVENESS_FD;
     bs "--lease-fd"; to_decimal LEASE_FD] ++
    ([CONTROL_FD; CONSOLE_FD] ≫= inherit_fd) ++
    [bs "--term-timeout-ms"; to_decimal (as_millis guard_term_timeout); bs "--uml-personality"; bs "--"] ++ uml_command in
  Ok (BuilderLaunchPlan.mk (VerifiedArtifact.path (VerifiedProfile.guard profile)) guard_arguments uml_command
        (sanitized_environment (BuildPaths.tmp_dir paths))).

Definition build_builder_launch_plan (supervisor_pid : N) (profile : VerifiedProfile.t) (paths : BuildPaths.t)
    (target : bytes) (guard_term_timeout : N) : result HostBuildError.t BuilderLaunchPlan.t :=
  let manifest := VerifiedProfile.manifest profile in
  let launch := ProfileManifest.launch manifest in
  let contracts := ProfileManifest.contracts manifest in
  let builder := ProfileManifest.builder manifest in
  payload ← build_path_text "payload" (BuildPaths.payload paths);
  target ← build_path_text "target" target;
  uml_dir ← build_path_text "uml_dir" (BuildPaths.uml_dir paths);
  initramfs ← build_path_text "builder_initramfs" (BuildPaths.initramfs paths);
  each (λ '(field, value),
          if decide (LaunchContract.max_ubd_path_bytes launch < len value)%N
          then HostBuildError.invalid field (bs "UBD path exceeds the profile limit") else Ok ())
    [("payload", payload); ("target", target)]%string;;
  if decide (LaunchContract.max_unix_path_bytes launch < len uml_dir)%N
  then HostBuildError.invalid "uml_dir" (bs "UML directory exceeds the profile Unix-path limit") else
  let memory := MemoryManifest.builder_memory_bytes (ProfileManifest.memory manifest) in
  let uml_command :=
    [VerifiedArtifact.path (VerifiedProfile.uml profile); bs "mem=" ++ to_decimal memory] ++
    (if CpuManifest.smp_enabled (ProfileManifest.cpu manifest) then [bs "ncpus=1"] else []) ++
    [bs "seccomp=on"; bs "umid=" ++ BuildPaths.umid paths; bs "uml_dir=" ++ uml_dir; bs "initrd=" ++ initramfs;
     bs "rdinit=/init"; bs "rootfstype=ramfs"; bs "ubd0r=" ++ payload; bs "ubd1=" ++ target; bs "con=null";
     bs "con0=fd:14,fd:14"; bs "ssl=null"; bs "ssl0=fd:10,fd:10";
     bs "pocket.builder.guest_contract_id=" ++ HelloContract.guest_contract_id (BuilderContract.hello builder);
     bs "pocket.builder.init_build_id=" ++ HelloContract.init_build_id (BuilderContract.hello builder);
     bs "pocket.builder.kernel_build_id=" ++ HelloContract.kernel_build_id (BuilderContract.hello builder);
     bs "pocket.builder.expected_cpus=1";
     bs "pocket.builder.expected_memory_bytes=" ++ to_decimal memory;
     bs "pocket.builder.expected_page_size=" ++ to_decimal (ProfileManifest.guest_page_size manifest);
     bs "pocket.builder.expected_architecture=amd64";
     bs "pocket.builder.cpu_state_hwcap_policy=" ++ Contracts.cpu_state_hwcap_policy contracts;
     bs "pocket.builder.root_layout=" ++ Contracts.root_layout contracts;
     bs "pocket.builder.filesystem_contract=" ++ Contracts.filesystem contracts;
     bs "pocket.builder.manifest_schema=" ++ BuilderContract.manifest_schema builder;
     bs "quiet"; bs "noreboot"; bs "panic=1"] in
  guarded_plan supervisor_pid profile paths guard_term_timeout uml_command.

Definition build_validator_launch_plan (supervisor_pid : N) (profile : VerifiedProfile.t) (paths : BuildPaths.t)
    (target : bytes) (guard_term_timeout : N) : result HostBuildError.t BuilderLaunchPlan.t :=
  let manifest := VerifiedProfile.manifest profile in
  let launch := ProfileManifest.launch manifest in
  let contracts := ProfileManifest.contracts manifest in
  let validator := ProfileManifest.validator manifest in
  target ← build_path_text "validation_target" target;
  uml_dir ← build_path_text "uml_dir" (BuildPaths.uml_dir paths);
  initramfs ← build_path_text "validator_initramfs" (BuildPaths.validator_initramfs paths);
  if decide (LaunchContract.max_ubd_path_bytes launch < len target)%N
  then HostBuildError.invalid "validation_target" (bs "UBD path exceeds the profile limit") else
  if decide (LaunchContract.max_unix_path_bytes launch < len uml_dir)%N
  then HostBuildError.invalid "uml_dir" (bs "UML directory exceeds the profile Unix-path limit") else
  let memory := MemoryManifest.validator_memory_bytes (ProfileManifest.memory manifest) in
  let uml_command :=
    [VerifiedArtifact.path (VerifiedProfile.uml profile); bs "mem=" ++ to_decimal memory] ++
    (if CpuManifest.smp_enabled (ProfileManifest.cpu manifest) then [bs "ncpus=1"] else []) ++
    [bs "seccomp=on"; bs "umid=" ++ BuildPaths.validator_umid paths; bs "uml_dir=" ++ uml_dir; bs "initrd=" ++ initramfs;
     bs "rdinit=/init"; bs "rootfstype=ramfs"; bs "ubd0r=" ++ target; bs "con=null"; bs "con0=fd:14,fd:14"; bs "ssl=null";
     bs "ssl0=fd:10,fd:10";
     bs "pocket.validator.guest_contract_id=" ++ HelloContract.guest_contract_id (ValidatorContract.hello validator);
     bs "pocket.validator.init_build_id=" ++ HelloContract.init_build_id (ValidatorContract.hello validator);
     bs "pocket.validator.kernel_build_id=" ++ HelloContract.kernel_build_id (ValidatorContract.hello validator);
     bs "pocket.validator.expected_cpus=1";
     bs "pocket.validator.expected_memory_bytes=" ++ to_decimal memory;
     bs "pocket.validator.expected_page_size=" ++ to_decimal (ProfileManifest.guest_page_size manifest);
     bs "pocket.validator.expected_architecture=amd64";
     bs "pocket.validator.cpu_state_hwcap_policy=" ++ Contracts.cpu_state_hwcap_policy contracts;
     bs "pocket.validator.root_layout=" ++ Contracts.root_layout contracts;
     bs "pocket.validator.filesystem_contract=" ++ Contracts.filesystem contracts;
     bs "pocket.validator.manifest_schema=" ++ ValidatorContract.manifest_schema validator;
     bs "quiet"; bs "noreboot"; bs "panic=1"] in
  guarded_plan supervisor_pid profile paths guard_term_timeout uml_command.

(** ** The parameters of a plan *)

(** A word that starts otherwise is not a parameter. *)
Lemma parameter_head prefix word : head word ≠ head prefix → prefix ≠ [] → parameter prefix word = None.
Proof.
  intros Hh Hp. destruct (parameter prefix word) as [[key value]|] eqn:H; [|done].
  apply parameter_Some in H as (-> & Hk & rest & ->). by destruct prefix.
Qed.

Lemma omap_none {A B} (f : A → option B) x l : f x = None → omap f (x :: l) = omap f l.
Proof. intros H. simpl. by rewrite H. Qed.
Lemma omap_some {A B} (f : A → option B) x y l : f x = Some y → omap f (x :: l) = y :: omap f l.
Proof. intros H. simpl. by rewrite H. Qed.

Ltac plan_parameters :=
  repeat first
    [ rewrite omap_none by (apply parameter_head; done)
    | rewrite omap_none by reflexivity
    | erewrite omap_some by reflexivity ].

Definition workload_parameters (manifest : ProfileManifest.t) (cpus memory : N) : list (bytes * bytes) :=
  let hello := ProfileManifest.hello manifest in
  let contracts := ProfileManifest.contracts manifest in
  [(bs "pocket.guest_contract_id", HelloContract.guest_contract_id hello);
   (bs "pocket.init_build_id", HelloContract.init_build_id hello);
   (bs "pocket.kernel_build_id", HelloContract.kernel_build_id hello);
   (bs "pocket.expected_cpus", to_decimal cpus);
   (bs "pocket.expected_memory_bytes", to_decimal memory);
   (bs "pocket.expected_architecture", bs "amd64");
   (bs "pocket.cpu_state_hwcap_policy", Contracts.cpu_state_hwcap_policy contracts);
   (bs "pocket.guest_capability_policy", Contracts.guest_capability_policy contracts);
   (bs "pocket.root_layout", Contracts.root_layout contracts);
   (bs "pocket.filesystem_contract", Contracts.filesystem contracts)].

Lemma serial_lines_skip prefix l : head prefix ≠ Some x73 → prefix ≠ [] →
  omap (parameter prefix) ((λ index, serial_line (index + 4) (EXTRA_CONSOLE_FD_BASE + index)) <$> l) = [].
Proof.
  intros Hh Hp. induction l as [|index l IH]; [done|]. cbn [fmap list_fmap].
  rewrite omap_none; [done|]. apply parameter_head; [|done]. intros H. by rewrite <- H in Hh.
Qed.

Lemma launch_plan_parameters pid inputs plan :
  is_absolute (VerifiedArtifact.path (VerifiedProfile.uml (LaunchInputs.profile inputs))) →
  build_launch_plan pid inputs = Ok plan →
  omap (parameter (bs "pocket.")) (LaunchPlan.uml_command plan) =
  workload_parameters (VerifiedProfile.manifest (LaunchInputs.profile inputs)) (Cpu.requested (LaunchInputs.cpus inputs))
    (Memory.parsed_bytes (Memory.validated (LaunchInputs.memory inputs))).
Proof.
  intros Habs H. unfold build_launch_plan in H.
  apply bind_ok in H as (cow & _ & (base & _ & (uml_dir & _ & (initramfs & _ & H)%bind_ok)%bind_ok)%bind_ok).
  apply runtime_guard_ok in H as [_ [_ [_ (socket & _ & [_ [_ <-%ok_inj]%runtime_guard_ok]%runtime_guard_ok)%bind_ok]%runtime_guard_ok]%runtime_guard_ok].
  cbn [LaunchPlan.uml_command]. rewrite !omap_app, serial_lines_skip by done.
  unfold is_absolute in Habs.
  rewrite (omap_none _ (VerifiedArtifact.path _)) by (apply parameter_head; [by rewrite Habs|done]).
  assert (omap (parameter (bs "pocket.")) match Cpu.kernel_ncpus (LaunchInputs.cpus inputs) with
            Some cpus => [bs "ncpus=" ++ to_decimal cpus] | None => [] end = []) as ->
    by (destruct (Cpu.kernel_ncpus _); [by rewrite omap_none by (by apply parameter_head)|done]).
  destruct (LaunchInputs.verbose_console inputs), (LaunchInputs.network inputs); plan_parameters; reflexivity.
Qed.

(** *** The guests of a build *)
Definition sealed_parameters (prefix : string) (manifest : ProfileManifest.t) (hello : HelloContract.t) (memory : N) (schema : bytes) :
    list (bytes * bytes) :=
  let contracts := ProfileManifest.contracts manifest in
  [(bs (prefix +:+ "guest_contract_id"), HelloContract.guest_contract_id hello);
   (bs (prefix +:+ "init_build_id"), HelloContract.init_build_id hello);
   (bs (prefix +:+ "kernel_build_id"), HelloContract.kernel_build_id hello);
   (bs (prefix +:+ "expected_cpus"), bs "1");
   (bs (prefix +:+ "expected_memory_bytes"), to_decimal memory);
   (bs (prefix +:+ "expected_page_size"), to_decimal (ProfileManifest.guest_page_size manifest));
   (bs (prefix +:+ "expected_architecture"), bs "amd64");
   (bs (prefix +:+ "cpu_state_hwcap_policy"), Contracts.cpu_state_hwcap_policy contracts);
   (bs (prefix +:+ "root_layout"), Contracts.root_layout contracts);
   (bs (prefix +:+ "filesystem_contract"), Contracts.filesystem contracts);
   (bs (prefix +:+ "manifest_schema"), schema)].

Lemma guarded_command pid profile paths timeout command plan :
  guarded_plan pid profile paths timeout command = Ok plan → BuilderLaunchPlan.uml_command plan = command.
Proof. unfold guarded_plan. by intros [_ <-%ok_inj]%build_guard_ok. Qed.

Section build_plans.
Context (pid : N) (profile : VerifiedProfile.t) (paths : BuildPaths.t) (target : bytes) (timeout : N) (plan : BuilderLaunchPlan.t).
Let manifest := VerifiedProfile.manifest profile.
Hypothesis Habs : is_absolute (VerifiedArtifact.path (VerifiedProfile.uml profile)).

Lemma builder_plan_parameters :
  build_builder_launch_plan pid profile paths target timeout = Ok plan →
  omap (parameter (bs "pocket.builder.")) (BuilderLaunchPlan.uml_command plan) =
  sealed_parameters "pocket.builder." manifest (BuilderContract.hello (ProfileManifest.builder manifest))
    (MemoryManifest.builder_memory_bytes (ProfileManifest.memory manifest))
    (BuilderContract.manifest_schema (ProfileManifest.builder manifest)).
Proof using Habs.
  unfold build_builder_launch_plan. intros H.
  apply bind_ok in H as (payload & _ & (target' & _ & (uml_dir & _ & (initramfs & _ & H)%bind_ok)%bind_ok)%bind_ok).
  apply bind_unit_ok in H as [_ [_ ->%guarded_command]%build_guard_ok]. rewrite !omap_app.
  unfold is_absolute in Habs.
  rewrite (omap_none _ (VerifiedArtifact.path _)) by (apply parameter_head; [by rewrite Habs|done]).
  fold manifest. destruct (CpuManifest.smp_enabled (ProfileManifest.cpu manifest)); plan_parameters; reflexivity.
Qed.

Lemma validator_plan_parameters :
  build_validator_launch_plan pid profile paths target timeout = Ok plan →
  omap (parameter (bs "pocket.validator.")) (BuilderLaunchPlan.uml_command plan) =
  sealed_parameters "pocket.validator." manifest (ValidatorContract.hello (ProfileManifest.validator manifest))
    (MemoryManifest.validator_memory_bytes (ProfileManifest.memory manifest))
    (ValidatorContract.manifest_schema (ProfileManifest.validator manifest)).
Proof using Habs.
  unfold build_validator_launch_plan. intros H.
  apply bind_ok in H as (target' & _ & (uml_dir & _ & (initramfs & _ & H)%bind_ok)%bind_ok).
  apply build_guard_ok in H as [_ [_ ->%guarded_command]%build_guard_ok]. rewrite !omap_app.
  unfold is_absolute in Habs.
  rewrite (omap_none _ (VerifiedArtifact.path _)) by (apply parameter_head; [by rewrite Habs|done]).
  fold manifest. destruct (CpuManifest.smp_enabled (ProfileManifest.cpu manifest)); plan_parameters; reflexivity.
Qed.
End build_plans.

(** ** The guests accept their plans *)
Lemma setting_inj given key fallback v v' :
  NoDup given.*1 → setting given key fallback v → setting given key fallback v' → v = v'.
Proof.
  intros Hnd H H'. apply (default_setting given Hnd) in H as ->. by apply (default_setting given Hnd) in H'.
Qed.
Lemma setting_or_inj given key compiled v v' :
  NoDup given.*1 → setting_or given key compiled v → setting_or given key compiled v' → v = v'.
Proof.
  intros Hnd H H'. apply (given_or_compiled_Ok given Hnd (λ _, tt) _ _ []) in H.
  apply (given_or_compiled_Ok given Hnd (λ _, tt) _ _ []) in H'. congruence.
Qed.
Lemma given_inj (given : list (bytes * bytes)) key v v' : NoDup given.*1 → (key, v) ∈ given → (key, v') ∈ given → v = v'.
Proof. intros Hnd H H'. apply (given_lookup given Hnd) in H, H'. congruence. Qed.

(** The parameters determine the configuration. *)
Lemma guest_boots_inj option_env target_arch given c c' :
  guest_boots option_env target_arch given c → guest_boots option_env target_arch given c' → c = c'.
Proof.
  intros [Hnd ? ? ? ? ? ? ? ? _ _ [? _] [? _] [? _] (ct & Hct & _ & _ & Hcpus & _) (mt & Hmt & _ & _ & Hmem & _) [? _] [? _] [? _] ? ?].
  intros [_ ? ? ? ? ? ? ? ? _ _ [? _] [? _] [? _] (ct' & Hct' & _ & _ & Hcpus' & _) (mt' & Hmt' & _ & _ & Hmem' & _) [? _] [? _] [? _] ? ?].
  assert (ct = ct') as <- by (by eapply given_inj). assert (mt = mt') as <- by (by eapply given_inj).
  destruct c as [[] ? ? ? ? ? ? ? ? ? ? ? ? ?], c' as [[] ? ? ? ? ? ? ? ? ? ? ? ? ?]. cbn in *.
  f_equal; first [f_equal|idtac]; first [by eapply setting_inj | by eapply setting_or_inj | congruence].
Qed.

Ltac given_in := repeat (apply elem_of_cons; first [left; reflexivity | right]).
(** The keys of a plan are literals. *)
Ltac keys_decide := apply (bool_decide_unpack _); vm_compute; exact I.

Definition workload_config (manifest : ProfileManifest.t) (cpus memory : N) : GuestConfig.t :=
  let hello := ProfileManifest.hello manifest in
  let contracts := ProfileManifest.contracts manifest in
  GuestConfig.mk (TtyPaths.mk (bs "/dev/ttyS0") (bs "/dev/ttyS1") (bs "/dev/ttyS2") (bs "/dev/ttyS3"))
    (bs "/dev/ubda") (bs "/volume") (bs "/newroot") (HelloContract.guest_contract_id hello)
    (HelloContract.init_build_id hello) (HelloContract.kernel_build_id hello) cpus memory (bs "amd64")
    (Contracts.cpu_state_hwcap_policy contracts) (Contracts.guest_capability_policy contracts)
    (Contracts.root_layout contracts) (Contracts.filesystem contracts).

Definition workload_keys : list bytes :=
  bs <$> ["pocket.guest_contract_id"; "pocket.init_build_id"; "pocket.kernel_build_id"; "pocket.expected_cpus";
   "pocket.expected_memory_bytes"; "pocket.expected_architecture"; "pocket.cpu_state_hwcap_policy";
   "pocket.guest_capability_policy"; "pocket.root_layout"; "pocket.filesystem_contract"]%string.

Section workload.
Context (option_env : string → option bytes) (manifest : ProfileManifest.t) (cpus memory : N).
Context (Hids : hello_ok (ProfileManifest.hello manifest) WORKLOAD_GUEST_FEATURES).
Context (Hcontracts : ProfileManifest.contracts manifest = SUPPORTED_CONTRACTS).
Context (Hcpus : (1 ≤ cpus ≤ 64)%N) (Hmemory : (0 < memory < u64_bound)%N).

Lemma workload_keys_eq : (workload_parameters manifest cpus memory).*1 = workload_keys.
Proof. reflexivity. Qed.

Lemma workload_boots :
  is_multiple_of memory 4096 →
  guest_boots option_env "x86_64" (workload_parameters manifest cpus memory) (workload_config manifest cpus memory).
Proof.
  intros Ha. destruct Hids as [Hhex _]. rewrite !Forall_cons in Hhex. destruct Hhex as (Hc & Hi & Hk & _).
  assert (∀ key d, bs key ∉ workload_keys → setting (workload_parameters manifest cpus memory) key d d) as Hdefault.
  { intros key d Hkey. right. by rewrite workload_keys_eq. }
  split; rewrite ?workload_keys_eq.
  1,2: keys_decide.
  1-7: apply Hdefault; keys_decide.
  - cbn. split; [|keys_decide]. repeat constructor; apply (guest_path_Ok ""); by vm_compute.
  - cbn. split; [|by vm_compute]. repeat constructor; apply (guest_path_Ok ""); by vm_compute.
  - split; [left; given_in|done].
  - split; [left; given_in|done].
  - split; [left; given_in|done].
  - exists (to_decimal cpus). split; [given_in|]. split_and!; try apply Hcpus; [apply to_decimal_not_nil|apply to_decimal_digits|apply dec_value_to_decimal].
  - exists (to_decimal memory). split; [given_in|].
    split_and!; try apply Hmemory; [apply to_decimal_not_nil|apply to_decimal_digits|apply dec_value_to_decimal|done].
  - split; [left; given_in|]. cbn. rewrite Hcontracts. unfold token_bounded. keys_decide.
  - split; [left; given_in|]. cbn. rewrite Hcontracts. unfold token_bounded. keys_decide.
  - split; [left; given_in|done].
  - left; given_in.
  - left; given_in.
Qed.

Lemma workload_boots_only config :
  guest_boots option_env "x86_64" (workload_parameters manifest cpus memory) config →
  is_multiple_of memory 4096 ∧ config = workload_config manifest cpus memory.
Proof.
  intros H. assert (is_multiple_of memory 4096) as Ha.
  { destruct (guest_memory _ _ _ _ H) as (text & Hin & _ & _ & Hv & _ & Hm).
    assert (text = to_decimal memory) as -> by (eapply given_inj; [apply H|exact Hin|given_in]).
    by rewrite <- Hv, dec_value_to_decimal in Hm. }
  split; [done|]. by eapply guest_boots_inj, workload_boots.
Qed.
End workload.

Lemma sealed_boots_inj prefix env known option_env target_arch given c c' :
  sealed_boots prefix env known option_env target_arch given c →
  sealed_boots prefix env known option_env target_arch given c' → c = c'.
Proof.
  intros [Hnd _ _ [? _] [? _] [? _] [? _] [? _] (pt & Hpt & Hp & _) (mt & Hmt & Hm & _) [? _] [? _] [? _] [? _]].
  intros [_ _ _ [? _] [? _] [? _] [? _] [? _] (pt' & Hpt' & Hp' & _) (mt' & Hmt' & Hm' & _) [? _] [? _] [? _] [? _]].
  assert (pt = pt') as <- by (by eapply given_inj). assert (mt = mt') as <- by (by eapply given_inj).
  destruct c, c'. cbn in *. f_equal; first [by eapply setting_inj | by eapply setting_or_inj | congruence].
Qed.

Definition sealed_of (manifest : ProfileManifest.t) (hello : HelloContract.t) (memory : N) (schema : bytes) : SealedConfig :=
  let contracts := ProfileManifest.contracts manifest in
  sealed_config (bs "/dev/ttyS0") (HelloContract.guest_contract_id hello) (HelloContract.init_build_id hello)
    (HelloContract.kernel_build_id hello) (bs "amd64") (ProfileManifest.guest_page_size manifest) memory
    (Contracts.cpu_state_hwcap_policy contracts) (Contracts.root_layout contracts) (Contracts.filesystem contracts) schema.

(** The sizes that the guests of a build can be given *)
Definition build_memory_ok (memory : N) : Prop :=
  (64 * 1024 * 1024 ≤ memory ≤ 1024 * 1024 * 1024 * 1024)%N ∧ is_multiple_of memory 4096.

Section sealed_plan.
Context (prefix env : string) (known : list string) (option_env : string → option bytes).
Context (manifest : ProfileManifest.t) (hello : HelloContract.t) (memory : N) (schema : bytes) (features : list bytes).
Let given := sealed_parameters prefix manifest hello memory schema.
Context (Hids : hello_ok hello features) (Hcontracts : ProfileManifest.contracts manifest = SUPPORTED_CONTRACTS).
Context (Hpage : ProfileManifest.guest_page_size manifest = 4096%N) (Hschema : schema = bs "pocket-fs-manifest-v1").
Context (Hmemory : (memory < u64_bound)%N).
Context (Hkeys : NoDup given.*1) (Hknown : given.*1 ⊆ bs <$> known) (Hcontrol : bs (prefix +:+ "control") ∉ given.*1).

Lemma sealed_plan_boots :
  build_memory_ok memory → sealed_boots prefix env known option_env "x86_64" given (sealed_of manifest hello memory schema).
Proof using Hids Hcontracts Hpage Hschema Hmemory Hkeys Hknown Hcontrol.
  intros [Hr Ha]. destruct Hids as [Hhex _]. rewrite !Forall_cons in Hhex. destruct Hhex as (Hc & Hi & Hk & _).
  split; [done|done|given_in|..].
  - split; [by right|]. split; [keys_decide|]. exists (bs "dev/ttyS0"). split; [done|]. keys_decide.
  - split; [left; given_in|done].
  - split; [left; given_in|done].
  - split; [left; given_in|done].
  - split; [left; given_in|done].
  - exists (to_decimal (ProfileManifest.guest_page_size manifest)). split; [given_in|]. cbn [sealed_page_size sealed_of].
    rewrite Hpage. split; [apply parse_uint_to_decimal; unfold u32_bound; lia|]. split; [lia|done].
  - exists (to_decimal memory). split; [given_in|]. split; [by apply parse_uint_to_decimal|done].
  - split; [left; given_in|]. cbn. rewrite Hcontracts. unfold token_bounded. keys_decide.
  - split; [left; given_in|]. cbn. rewrite Hcontracts. unfold token_bounded. keys_decide.
  - split; [left; given_in|]. cbn. rewrite Hcontracts. unfold token_bounded. keys_decide.
  - split; [left; given_in|]. cbn. rewrite Hschema. unfold token_bounded. keys_decide.
Qed.

Lemma sealed_plan_boots_only config :
  sealed_boots prefix env known option_env "x86_64" given config ↔
  build_memory_ok memory ∧ config = sealed_of manifest hello memory schema.
Proof using Hids Hcontracts Hpage Hschema Hmemory Hkeys Hknown Hcontrol.
  split; [|intros [Hm ->]; by apply sealed_plan_boots]. intros H.
  assert (build_memory_ok memory) as Ha; [|split; [done|]; by eapply sealed_boots_inj, sealed_plan_boots].
  destruct (boot_memory _ _ _ _ _ _ _ H) as (text & Hin & Hv & Hr & Hm).
  assert (text = to_decimal memory) as -> by (eapply given_inj; [apply H|exact Hin|given_in]).
  rewrite parse_uint_to_decimal in Hv by done. injection Hv as Hv. by rewrite <- Hv in Hr, Hm.
Qed.
End sealed_plan.

(** The parameters with the prefix reach the guest unchanged and in order; of its own
    options UML may pass on what it likes. *)
Definition carries (prefix : string) (line : bytes) (command : list bytes) : Prop :=
  omap (parameter (bs prefix)) (split_ascii_whitespace line) = omap (parameter (bs prefix)) command.

Lemma workload_line_accepted option_env debug manifest cpus memory line config :
  hello_ok (ProfileManifest.hello manifest) WORKLOAD_GUEST_FEATURES →
  ProfileManifest.contracts manifest = SUPPORTED_CONTRACTS → (1 ≤ cpus ≤ 64)%N → (0 < memory < u64_bound)%N →
  omap (parameter (bs "pocket.")) (split_ascii_whitespace line) = workload_parameters manifest cpus memory →
  GuestConfig.parse_cmdline option_env "x86_64" debug line = Ok config ↔
  Forall (λ word, ¬ GuestConfig.is_leaked word) (split_ascii_whitespace line) ∧
  is_multiple_of memory 4096 ∧ config = workload_config manifest cpus memory.
Proof.
  intros Hids Hcontracts Hcpus Hmemory Hline. rewrite guest_cmdline_Ok, Hline. split.
  - intros [Hleak H]. split; [done|]. by eapply workload_boots_only.
  - intros (Hleak & Ha & ->). split; [done|]. by apply workload_boots.
Qed.

Lemma admitted_cpus manifest n cpus :
  cpu_ok (ProfileManifest.cpu manifest) →
  Cpu.validate_request (cpu_profile_of (ProfileManifest.cpu manifest)) n = Ok cpus → (1 ≤ Cpu.requested cpus ≤ 64)%N.
Proof.
  unfold Cpu.validate_request. intros [Hp Hc] [Hn [Hmax <-%ok_inj]%guard_ok]%guard_ok. cbn in *.
  destruct (CpuManifest.smp_enabled _); [destruct Hc as (compiled & _ & ? & Heq)|destruct Hc as (_ & _ & Heq)]; lia.
Qed.

Lemma admitted_memory manifest parsed memory :
  memory_ok (ProfileManifest.memory manifest) →
  Memory.validate (memory_policy_of (ProfileManifest.memory manifest)) parsed = Ok memory →
  (0 < Memory.parsed_bytes (Memory.validated memory) ≤
   MemoryManifest.effective_max_memory_bytes (ProfileManifest.memory manifest))%N.
Proof.
  unfold Memory.validate. cbv zeta. intros [Hmin _] [? [? [_ <-%ok_inj]%guard_ok]%guard_ok]%guard_ok. cbn in *. lia.
Qed.

Section agree.
Context (pid : N) (option_env : string → option bytes) (debug : bytes → bytes) (profile : VerifiedProfile.t).
Let manifest := VerifiedProfile.manifest profile.
Let memory := ProfileManifest.memory manifest.

(** C12: host and guests agree on every boot.  For a profile that [validate_manifest]
    accepts, with an absolute path to User-mode Linux, and for CPUs and memory that the
    profile admits, let the [pocket.] parameters of a launch plan reach the command line of
    a guest that was built for x86_64: then the workload guest accepts the line if and only if no word of it is an [ncpus=] or
    [mem=] option of User-mode Linux and the memory is a multiple of 4096 bytes, the builder and the validator if and only if theirs is also within
    64 MiB and 1 TiB, and what they read are the identities, CPUs, memory, page size,
    policies and contracts of the profile and the request, whatever the init programs were
    built with. *)
Theorem boot_contracts_agree :
  validate_manifest manifest = Ok (VerifiedProfile.cpu_profile profile, VerifiedProfile.memory_policy profile) →
  is_absolute (VerifiedArtifact.path (VerifiedProfile.uml profile)) →
  (MemoryManifest.effective_max_memory_bytes memory < u64_bound)%N →
  (∀ inputs plan n parsed line config,
     LaunchInputs.profile inputs = profile →
     Cpu.validate_request (VerifiedProfile.cpu_profile profile) n = Ok (LaunchInputs.cpus inputs) →
     Memory.validate (VerifiedProfile.memory_policy profile) parsed = Ok (LaunchInputs.memory inputs) →
     build_launch_plan pid inputs = Ok plan → carries "pocket." line (LaunchPlan.uml_command plan) →
     let bytes := Memory.parsed_bytes (Memory.validated (LaunchInputs.memory inputs)) in
     GuestConfig.parse_cmdline option_env "x86_64" debug line = Ok config ↔
     Forall (λ word, ¬ GuestConfig.is_leaked word) (split_ascii_whitespace line) ∧ is_multiple_of bytes 4096 ∧
     config = workload_config manifest (Cpu.requested (LaunchInputs.cpus inputs)) bytes) ∧
  (∀ paths target timeout plan line config,
     build_builder_launch_plan pid profile paths target timeout = Ok plan →
     carries "pocket.builder." line (BuilderLaunchPlan.uml_command plan) →
     BuilderConfig.parse_cmdline option_env "x86_64" debug line = Ok config ↔
     build_memory_ok (MemoryManifest.builder_memory_bytes memory) ∧
     of_builder config = sealed_of manifest (BuilderContract.hello (ProfileManifest.builder manifest))
       (MemoryManifest.builder_memory_bytes memory) (BuilderContract.manifest_schema (ProfileManifest.builder manifest))) ∧
  (∀ paths target timeout plan line config,
     build_validator_launch_plan pid profile paths target timeout = Ok plan →
     carries "pocket.validator." line (BuilderLaunchPlan.uml_command plan) →
     ValidatorConfig.parse_cmdline option_env "x86_64" line = Ok config ↔
     build_memory_ok (MemoryManifest.validator_memory_bytes memory) ∧
     of_validator config = sealed_of manifest (ValidatorContract.hello (ProfileManifest.validator manifest))
       (MemoryManifest.validator_memory_bytes memory) (ValidatorContract.manifest_schema (ProfileManifest.validator manifest))).
Proof.
  intros [Hok [= Hcpu Hmem]]%validate_manifest_Ok Habs Hmax. fold memory in Hmem.
  pose proof (ok_memory _ Hok) as Hsizes. destruct Hsizes as (_ & _ & _ & _ & _ & Hsizes). rewrite !Forall_cons in Hsizes.
  destruct Hsizes as (_ & _ & _ & [[_ Hb] _] & [[_ Hv] _] & _). fold memory in Hb, Hv. split_and!.
  - intros inputs plan n parsed line config Hp Hn Hparsed Hplan Hcarries bytes. rewrite Hcpu in Hn. rewrite Hmem in Hparsed.
    apply admitted_cpus in Hn; [|apply Hok]. apply admitted_memory in Hparsed; [|apply Hok]. fold memory bytes in Hparsed.
    apply workload_line_accepted; [apply Hok|apply Hok|done|lia|].
    unfold carries in Hcarries. rewrite Hcarries, (launch_plan_parameters pid inputs plan) by (rewrite ?Hp; done). by rewrite Hp.
  - intros paths target timeout plan line config Hplan Hcarries. rewrite builder_cmdline_Ok. unfold carries in Hcarries.
    rewrite Hcarries, (builder_plan_parameters pid profile paths target timeout plan Habs Hplan). fold manifest memory.
    apply (sealed_plan_boots_only _ _ _ _ _ _ _ _ BUILDER_GUEST_FEATURES); try apply Hok; [lia|..]; keys_decide.
  - intros paths target timeout plan line config Hplan Hcarries. rewrite validator_cmdline_Ok. unfold carries in Hcarries.
    rewrite Hcarries, (validator_plan_parameters pid profile paths target timeout plan Habs Hplan). fold manifest memory.
    apply (sealed_plan_boots_only _ _ _ _ _ _ _ _ VALIDATOR_GUEST_FEATURES); try apply Hok; [lia|..]; keys_decide.
Qed.
End agree.
