(* ===== verification/LaunchSample.v ===== *)
(** * A profile is launched

    The plan for the bundle of ProfileSample, the command line that the workload guest
    sees, and the agreement of host and guests applied there. *)

From stdpp Require Import gmap.
From S2P Require Import Prelude RustStr Utf8 ByteOrder ManagedPath Memory Cpu ProtocolError Payload HexText.
From S2P Require Import HostError HostFiles Parameters GuestConfig Profile ProfileFiles ProfileSample Launch.

Module SampleLaunch.
Definition profile : VerifiedProfile.t :=
  match SampleBundle.bundle as b return match b with Ok _ => VerifiedProfile.t | _ => unit end with
  | Ok p => p
  | _ => tt
  end.

Definition paths : RunPaths.t :=
  RunPaths.mk (bs "/run/pocket/uml") (bs "/run/pocket/tmp") (bs "/run/pocket/root.cow") (bs "/run/pocket/net") (bs "run-1").

Definition memory : Memory.ParsedMemory := Memory.parsed_memory (256 * 1048576).

Definition inputs : LaunchInputs.t :=
  LaunchInputs.mk profile 2 paths (bs "/store/base.ext4") (Cpu.validated_cpu_request 1 false) (Memory.validated_memory memory)
    5000000000 false true.

Definition plan : option LaunchPlan.t := match build_launch_plan 42 inputs with Ok plan => Some plan | _ => None end.

Definition command : list bytes := from_option LaunchPlan.uml_command [] plan.

(** What is left of the command when UML has taken its sizes *)
Definition line : bytes := join x20 (filter (λ word, ¬ GuestConfig.is_leaked word) (drop 1 command)).

Lemma boot_contracts_agree_witness :
  ∃ p, build_launch_plan 42 inputs = Ok p ∧ bs "ssl5=fd:16,fd:16" ∈ LaunchPlan.uml_command p ∧
  GuestConfig.parse_cmdline (λ _, None) "x86_64" id line =
  Ok (workload_config (VerifiedProfile.manifest profile) 1 (256 * 1048576)).
Proof.
  assert (is_Some plan) as [p Hp] by (apply (bool_decide_unpack _); vm_compute; exact I). unfold plan in Hp.
  destruct (build_launch_plan 42 inputs) as [p'| |] eqn:Hplan; [|done..]. injection Hp as ->.
  exists p. assert (LaunchPlan.uml_command p = command) as Hcommand by (unfold command, plan; by rewrite Hplan).
  split; [done|]. split; [rewrite Hcommand; apply (bool_decide_unpack _); vm_compute; exact I|].
  assert (validate_manifest (VerifiedProfile.manifest profile) =
    Ok (VerifiedProfile.cpu_profile profile, VerifiedProfile.memory_policy profile)) as Hm by (vm_compute; reflexivity).
  assert (is_absolute (VerifiedArtifact.path (VerifiedProfile.uml profile))) as Ha by reflexivity.
  assert (MemoryManifest.effective_max_memory_bytes (ProfileManifest.memory (VerifiedProfile.manifest profile)) < u64_bound)%N as Hs
    by (vm_compute; reflexivity).
  destruct (boot_contracts_agree 42 (λ _, None) id profile Hm Ha Hs) as [H _].
  apply (H inputs p 1%N memory line (workload_config (VerifiedProfile.manifest profile) 1 (256 * 1048576)));
    [reflexivity|vm_compute; reflexivity|vm_compute; reflexivity|exact Hplan| |].
  - unfold carries. rewrite Hcommand. vm_compute. reflexivity.
  - split; [apply (bool_decide_unpack _); vm_compute; exact I|]. split; [vm_compute; reflexivity|reflexivity].
Defined.
End SampleLaunch.
