(* ===== verification/Guard.v ===== *)
(** * The process guard: crates/pocket-guard/src/lib.rs

    The engine that supervises one process tree: it reaps, forwards signals, starts a
    shutdown, signals children that it adopts, and escalates to SIGKILL at a deadline.
    The kernel answers every call anew: [history] gives the answers and the time at each
    tick of a clock that every call advances.  The functions of linux.rs are such calls,
    with the ESRCH of [kill] that they ignore.  What the engine sends and sees is kept as
    a list of events. *)

From stdpp Require Import gmap.
From S2P Require Import Prelude RustStr ProtocolError NoPanic HostFiles Parameters.

#[local] Arguments bs : simpl never.

Definition SIGHUP : Z := 1.
Definition SIGINT : Z := 2.
Definition SIGQUIT : Z := 3.
Definition SIGKILL : Z := 9.
Definition SIGTERM : Z := 15.
Definition SIGCHLD : Z := 17.
Definition ESRCH : Z := 3.

Definition POLLIN : N := 1.
Definition POLLERR : N := 8.
Definition POLLHUP : N := 16.
Definition POLLNVAL : N := 32.
Definition READY : N := N.lor POLLIN (N.lor POLLHUP POLLERR).

Definition I32_MAX : N := 2 ^ 31 - 1.
Definition MAX_TERM_TIMEOUT : N := 600 * 1000000000.

(** [i32::to_string] *)
Definition int_text (z : Z) : bytes := if decide (z < 0)%Z then bs "-" ++ to_decimal (Z.to_N (- z)) else to_decimal (Z.to_N z).

Module GuardError.
Inductive t : Set :=
| InvalidConfiguration (reason : bytes)
| System (operation : string) (source : io_error)
| Spawn (program : bytes) (source : io_error)
| Lifecycle (reason : bytes).

(** [Display]; [{:?}] of an [OsString] is an argument *)
Definition to_string (io_text : io_error → bytes) (debug : bytes → bytes) (self : t) : bytes :=
  match self with
  | InvalidConfiguration reason => bs "invalid guard configuration: " ++ reason
  | System operation source => bs operation ++ bs ": " ++ io_text source
  | Spawn program source => bs "could not execute child program " ++ debug program ++ bs ": " ++ io_text source
  | Lifecycle reason => bs "guard lifecycle failure: " ++ reason
  end.
End GuardError.

Module ChildOutcome.
Inductive t : Set := Exited (code : N) | Signaled (signal : Z).

Definition conventional_exit_code (self : t) : Z :=
  match self with Exited code => Z.of_N code | Signaled signal => 128 + signal end.

(** [WIFEXITED], [WEXITSTATUS], [WIFSIGNALED] and [WTERMSIG] of Linux, on a status of 32
    bits; [status:#x] of the error text is an argument *)
Definition from_wait_status (hex : N → bytes) (status : N) : result GuardError.t t :=
  if decide (N.land status 127 = 0%N) then Ok (Exited (N.land (N.shiftr status 8) 255)) else
  if decide (N.land status 127 ≠ 127%N) then Ok (Signaled (Z.of_N (N.land status 127))) else
  Err (GuardError.Lifecycle (bs "child produced non-terminal wait status " ++ hex status)).
End ChildOutcome.

Module GuardOptions.
Record t : Set := mk {
  supervisor_pid : Z;
  liveness_fd : option Z;
  lease_fd : option Z;
  inherited_fds : list Z;
  term_timeout : N;
  uml_personality : bool;
  network_helper : list bytes;
  command : list bytes;
}.
End GuardOptions.

Definition validate_supervisor_pid (supervisor_pid : Z) : result GuardError.t () :=
  if decide (supervisor_pid ≤ 0)%Z then Err (GuardError.InvalidConfiguration (bs "--supervisor-pid must be positive")) else Ok ().

(** The descriptors with their roles, in the order of the chain *)
Definition roles (options : GuardOptions.t) : list (string * Z) :=
  ((λ fd, ("liveness"%string, fd)) <$> option_list (GuardOptions.liveness_fd options)) ++
  ((λ fd, ("lease"%string, fd)) <$> option_list (GuardOptions.lease_fd options)) ++
  ((λ fd, ("inherited"%string, fd)) <$> GuardOptions.inherited_fds options).

(** One round of the loop over the descriptors; [fd_is_open] is [fcntl(fd, F_GETFD)] *)
Definition check_fd (fd_is_open : Z → option io_error) (seen : gset Z) (entry : string * Z) : result GuardError.t (gset Z) :=
  let '(role, fd) := entry in
  if decide (fd < 3)%Z
  then Err (GuardError.InvalidConfiguration (bs role ++ bs " FD " ++ int_text fd ++
              bs " must be at least 3; standard streams are inherited automatically")) else
  if decide (fd ∈ seen)
  then Err (GuardError.InvalidConfiguration (bs "FD " ++ int_text fd ++ bs " is assigned more than once")) else
  match fd_is_open fd with
  | Some error => Err (GuardError.System "an inherited guard FD is not open" error)
  | None => Ok ({[fd]} ∪ seen)
  end.

Definition validate_options (fd_is_open : Z → option io_error) (options : GuardOptions.t) : result GuardError.t () :=
  validate_supervisor_pid (GuardOptions.supervisor_pid options);;
  if decide (GuardOptions.command options = [] ∨ head (GuardOptions.command options) = Some [])
  then Err (GuardError.InvalidConfiguration (bs "a non-empty program must follow `--`")) else
  if decide (MAX_TERM_TIMEOUT < GuardOptions.term_timeout options)%N
  then Err (GuardError.InvalidConfiguration (bs "termination timeout exceeds " ++ to_decimal (MAX_TERM_TIMEOUT / 1000000) ++ bs " milliseconds")) else
  _ ← fold_result (check_fd fd_is_open) ∅ (roles options);
  Ok ().

(** ** The kernel *)
Module ReapedChild.
Inductive t : Set := Exited (pid : Z) (status : N) | NoExitedChild | NoChildren.
End ReapedChild.

(** [revents] of the descriptors that were polled *)
Module Polled.
Record t : Set := mk { signal_fd : N; liveness : N; pidfd : N }.
End Polled.

(** What each call would be answered at one moment *)
Module Moment.
Record t : Set := mk {
  now : N;
  reap_one : io_error + ReapedChild.t;
  reap_blocking : io_error + bool; (* whether a child was reaped, or none was left *)
  reap_specific : io_error + bool;
  children_file : io_error + bytes; (* /proc/self/task/<pid>/children *)
  kill : option io_error;
  poll : io_error + Polled.t;
  read_pending : io_error + list Z;
  read_liveness : io_error + bool;
}.
End Moment.

Inductive Target : Set := Group (pid : Z) | Process (pid : Z).

(** What the engine has sent and seen *)
Inductive Event : Set :=
| Sent (target : Target) (signal : Z)
| Listed (children : list Z)
| Reaped (pid : Z) (status : N)
| NoneLeft
| Handled (signal : Z) (* a pending signal that was read *)
| Waits (call : nat) (timeout_ms : Z). (* [poll], as the call with that number *)

Module Shutdown.
Record t : Set := mk {
  graceful_signal : Z;
  deadline : N;
  escalated : bool;
  signaled_children : gset Z;
}.
End Shutdown.

Module Engine.
Record t : Set := mk {
  network_pid : option Z;
  child_pid : Z;
  direct_outcome : option ChildOutcome.t;
  pidfd : bool;
  liveness : bool;
  term_timeout : N;
  shutdown : option Shutdown.t;
  infrastructure_failure : option bytes;
}.
End Engine.

Record State : Set := state { engine : Engine.t; clock : nat; events : list Event }.

(** Fields of the engine that change *)
Definition set_outcome (o : ChildOutcome.t) (s : State) : State :=
  state (Engine.mk (Engine.network_pid (engine s)) (Engine.child_pid (engine s)) (Some o) false (Engine.liveness (engine s)) (Engine.term_timeout (engine s)) (Engine.shutdown (engine s)) (Engine.infrastructure_failure (engine s)))
    (clock s) (events s).
Definition set_shutdown (d : option Shutdown.t) (s : State) : State :=
  state (Engine.mk (Engine.network_pid (engine s)) (Engine.child_pid (engine s)) (Engine.direct_outcome (engine s)) (Engine.pidfd (engine s)) (Engine.liveness (engine s)) (Engine.term_timeout (engine s)) d (Engine.infrastructure_failure (engine s)))
    (clock s) (events s).
Definition set_failure (f : option bytes) (s : State) : State :=
  state (Engine.mk (Engine.network_pid (engine s)) (Engine.child_pid (engine s)) (Engine.direct_outcome (engine s)) (Engine.pidfd (engine s)) (Engine.liveness (engine s)) (Engine.term_timeout (engine s)) (Engine.shutdown (engine s)) f)
    (clock s) (events s).
Definition take_liveness (s : State) : State :=
  state (Engine.mk (Engine.network_pid (engine s)) (Engine.child_pid (engine s)) (Engine.direct_outcome (engine s)) (Engine.pidfd (engine s)) false (Engine.term_timeout (engine s)) (Engine.shutdown (engine s)) (Engine.infrastructure_failure (engine s)))
    (clock s) (events s).
Definition take_pidfd (s : State) : State :=
  state (Engine.mk (Engine.network_pid (engine s)) (Engine.child_pid (engine s)) (Engine.direct_outcome (engine s)) false (Engine.liveness (engine s)) (Engine.term_timeout (engine s)) (Engine.shutdown (engine s)) (Engine.infrastructure_failure (engine s)))
    (clock s) (events s).
Definition take_network (s : State) : State :=
  state (Engine.mk None (Engine.child_pid (engine s)) (Engine.direct_outcome (engine s)) (Engine.pidfd (engine s)) (Engine.liveness (engine s)) (Engine.term_timeout (engine s)) (Engine.shutdown (engine s)) (Engine.infrastructure_failure (engine s)))
    (clock s) (events s).

Definition record_failure (failure : bytes) (s : State) : State :=
  match Engine.infrastructure_failure (engine s) with None => set_failure (Some failure) s | Some _ => s end.

(** [str::parse::<i32>] *)
Definition parse_i32 (s : bytes) : option Z :=
  match s with
  | x2d :: digits => if decide (digits = []) then None else (λ n, - Z.of_N n)%Z <$> parse_digits (2 ^ 31 + 1) 0 digits
  | _ => Z.of_N <$> parse_uint (2 ^ 31) s
  end.

Section supervise.
Context (io_text : io_error → bytes) (hex : N → bytes) (history : nat → Moment.t).

(** The next call *)
Definition tick (s : State) : Moment.t * State := (history (clock s), state (engine s) (S (clock s)) (events s)).
Definition see (e : Event) (s : State) : State := state (engine s) (clock s) (events s ++ [e]).

(** [send_signal_to_group] and [send_signal_to_process] *)
Definition send (target : Target) (signal : Z) (s : State) : option io_error * State :=
  let (m, s) := tick s in
  (match Moment.kill m with
   | Some e => if decide (raw_os_error e = Some ESRCH) then None else Some e
   | None => None
   end, see (Sent target signal) s).

Definition read_immediate_children (s : State) : (io_error + list Z) * State :=
  let (m, s) := tick s in
  match Moment.children_file m with
  | inl e => (inl e, s)
  | inr contents =>
      match mapM parse_i32 (split_ascii_whitespace contents) with
      | Some children => (inr children, see (Listed children) s)
      | None => (inl data_error, s)
      end
  end.

(** One round of the loop over the children *)
Definition signal_child (signal : Z) (acc : gset Z * State) (pid : Z) : gset Z * State :=
  let (signaled, s) := acc in
  if decide (pid ∈ signaled) then acc else
  let (error, s) := send (Process pid) signal s in
  ({[pid]} ∪ signaled,
   match error with
   | Some error => record_failure (bs "could not send signal " ++ int_text signal ++ bs " to adopted child " ++
                                   int_text pid ++ bs ": " ++ io_text error) s
   | None => s
   end).

Definition signal_of (d : Shutdown.t) : Z := if Shutdown.escalated d then SIGKILL else Shutdown.graceful_signal d.

Definition signal_immediate_children (d : Shutdown.t) (s : State) : Shutdown.t * State :=
  match read_immediate_children s with
  | (inl error, s) => (d, record_failure (bs "could not enumerate adopted children: " ++ io_text error) s)
  | (inr children, s) =>
      let (signaled, s) := foldl (signal_child (signal_of d)) (Shutdown.signaled_children d, s) children in
      (Shutdown.mk (Shutdown.graceful_signal d) (Shutdown.deadline d) (Shutdown.escalated d) signaled, s)
  end.

(** A signal to the group of the child; a failure is recorded with its text *)
Definition signal_group (signal : Z) (text : bytes) (s : State) : State :=
  let child := Engine.child_pid (engine s) in
  match send (Group child) signal s with
  | (Some error, s) => record_failure (text ++ int_text child ++ bs ": " ++ io_text error) s
  | (None, s) => s
  end.

Definition escalate (s : State) : State :=
  match Engine.shutdown (engine s) with
  | None => s
  | Some d =>
      if Shutdown.escalated d then s else
      let d := Shutdown.mk (Shutdown.graceful_signal d) (Shutdown.deadline d) true ∅ in
      let s := signal_group SIGKILL (bs "could not send SIGKILL to child process group ") s in
      let (d, s) := signal_immediate_children d s in
      set_shutdown (Some d) s
  end.

Definition begin_shutdown (graceful_signal : Z) (s : State) : State :=
  match Engine.shutdown (engine s) with
  | Some _ => s
  | None =>
      let (m, s) := tick s in
      let d := Shutdown.mk graceful_signal (Moment.now m + Engine.term_timeout (engine s)) false ∅ in
      let s := signal_group graceful_signal
        (bs "could not forward signal " ++ int_text graceful_signal ++ bs " to child process group ") s in
      let (d, s) := signal_immediate_children d s in
      let s := set_shutdown (Some d) s in
      if decide (Engine.term_timeout (engine s) = 0%N) then escalate s else s
  end.

Definition signal_newly_adopted_children (s : State) : State :=
  match Engine.shutdown (engine s) with
  | None => s
  | Some d => let (d, s) := signal_immediate_children d s in set_shutdown (Some d) s
  end.

(** [Instant::now] is called when there is a deadline that has not been acted on. *)
Definition maybe_escalate (s : State) : State :=
  match Engine.shutdown (engine s) with
  | None => s
  | Some d =>
      if Shutdown.escalated d then s else
      let (m, s) := tick s in
      if decide (Shutdown.deadline d ≤ Moment.now m)%N then escalate s else s
  end.

Definition poll_timeout_ms (s : State) : Z * State :=
  match Engine.shutdown (engine s) with
  | None => ((-1)%Z, s)
  | Some d =>
      if Shutdown.escalated d then ((-1)%Z, s) else
      let (m, s) := tick s in
      let remaining := (Shutdown.deadline d - Moment.now m)%N in
      if decide (remaining = 0%N) then (0%Z, s) else (Z.of_N (N.min (remaining / 1000000) I32_MAX), s)
  end.

(** Until there is no further child that has exited; [None] when the fuel runs out *)
Fixpoint reap_all (fuel : nat) (s : State) : option (result GuardError.t bool * State) :=
  match fuel with
  | O => None
  | S fuel =>
      let (m, s) := tick s in
      match Moment.reap_one m with
      | inl error => Some (Err (GuardError.System "waitpid failed" error), s)
      | inr (ReapedChild.Exited pid status) =>
          let s := see (Reaped pid status) s in
          if decide (pid = Engine.child_pid (engine s)) then
            match ChildOutcome.from_wait_status hex status with
            | Ok outcome => reap_all fuel (set_outcome outcome s)
            | Err error => Some (Err error, s)
            | Panic => Some (Panic, s)
            end
          else reap_all fuel s
      | inr ReapedChild.NoExitedChild => Some (Ok false, s)
      | inr ReapedChild.NoChildren => Some (Ok true, see NoneLeft s)
      end
  end.

Definition is_termination (signal : Z) : Prop := signal = SIGTERM ∨ signal = SIGINT ∨ signal = SIGHUP ∨ signal = SIGQUIT.
#[global] Instance is_termination_dec signal : Decision (is_termination signal).
Proof. unfold is_termination. apply _. Defined.

(** One round of the loop over the pending signals *)
Definition handle_signal (s : State) (signal : Z) : State :=
  let s := see (Handled signal) s in
  if decide (signal = SIGCHLD) then s else
  if decide (is_termination signal) then
    match Engine.shutdown (engine s) with
    | None => begin_shutdown signal s
    | Some d => if Shutdown.escalated d then s else escalate s
    end
  else
    begin_shutdown SIGTERM
      (record_failure (bs "received unexpected signal " ++ int_text signal ++ bs " through signalfd") s).

Definition handle_signals (s : State) : result GuardError.t () * State :=
  let (m, s) := tick s in
  match Moment.read_pending m with
  | inl error => (Err (GuardError.System "signalfd read failed" error), s)
  | inr signals => (Ok (), foldl handle_signal s signals)
  end.

(** What became of the liveness descriptor *)
Definition handle_liveness (revents : N) (s : State) : State :=
  if decide (has_bits revents POLLNVAL) then
    begin_shutdown SIGTERM (take_liveness (record_failure (bs "liveness FD became invalid") s))
  else if decide (has_bits revents READY) then
    let (m, s) := tick s in
    match Moment.read_liveness m with
    | inr true => begin_shutdown SIGTERM (take_liveness s)
    | inr false => s
    | inl error => begin_shutdown SIGTERM (take_liveness (record_failure (bs "liveness FD read failed: " ++ io_text error) s))
    end
  else s.

(** The part of a round after the wait for events *)
Definition handle_events (polled : Polled.t) (had_liveness had_pidfd : bool) (s : State) : result GuardError.t () * State :=
  let (r, s) := if decide (has_bits (Polled.signal_fd polled) READY) then handle_signals s else (Ok (), s) in
  match r with
  | Ok () =>
      let s := if had_liveness then handle_liveness (Polled.liveness polled) s else s in
      let s := if decide (had_pidfd = true ∧ has_bits (Polled.pidfd polled) (N.lor READY POLLNVAL)) then take_pidfd s else s in
      (Ok (), s)
  | Err e => (Err e, s)
  | Panic => (Panic, s)
  end.

Inductive Round : Set :=
| Continue (s : State)
| Return (r : result GuardError.t ChildOutcome.t) (s : State).

(** One round of [Engine::run] *)
Definition round (fuel : nat) (s : State) : option Round :=
  '(reaped, s) ← reap_all fuel s;
  match reaped with
  | Err e => Some (Return (Err e) s)
  | Panic => Some (Return Panic s)
  | Ok no_children =>
      let s := match Engine.direct_outcome (engine s), Engine.shutdown (engine s) with
               | Some _, None => if (no_children : bool) then s else begin_shutdown SIGTERM s
               | _, _ => s
               end in
      match Engine.direct_outcome (engine s), (no_children : bool) with
      | Some outcome, true =>
          Some (match Engine.infrastructure_failure (engine s) with
                | Some failure => Return (Err (GuardError.Lifecycle failure)) (set_failure None s)
                | None => Return (Ok outcome) s
                end)
      | None, true => Some (Return (Err (GuardError.Lifecycle (bs "direct child disappeared without a wait status"))) s)
      | _, false =>
          let s := maybe_escalate (signal_newly_adopted_children s) in
          let (timeout_ms, s) := poll_timeout_ms s in
          let had_liveness := Engine.liveness (engine s) in
          let had_pidfd := Engine.pidfd (engine s) in
          let (m, s) := tick (see (Waits (clock s) timeout_ms) s) in
          Some (match Moment.poll m with
                | inl error => Return (Err (GuardError.System "poll failed" error)) s
                | inr polled =>
                    match handle_events polled had_liveness had_pidfd s with
                    | (Ok (), s) => Continue s
                    | (Err e, s) => Return (Err e) s
                    | (Panic, s) => Return Panic s
                    end
                end)
      end
  end.

Fixpoint run (fuel : nat) (s : State) : option (result GuardError.t ChildOutcome.t * State) :=
  match fuel with
  | O => None
  | S rest =>
      step ← round fuel s;
      match step with Continue s => run rest s | Return r s => Some (r, s) end
  end.

(** One round of the emergency loop over the children *)
Definition kill_child (acc : list bytes * State) (pid : Z) : list bytes * State :=
  let (failures, s) := acc in
  match send (Process pid) SIGKILL s with
  | (Some error, s) => (failures ++ [bs "could not send SIGKILL to child " ++ int_text pid ++
                                     bs " during emergency cleanup: " ++ io_text error], s)
  | (None, s) => (failures, s)
  end.

Fixpoint kill_loop (fuel : nat) (failures : list bytes) (s : State) : option (list bytes * State) :=
  match fuel with
  | O => None
  | S fuel =>
      match read_immediate_children s with
      | (inl error, s) =>
          Some (failures ++ [bs "could not enumerate children during emergency cleanup: " ++ io_text error], s)
      | (inr children, s) =>
          let (failures, s) := foldl kill_child (failures, s) children in
          let (m, s) := tick s in
          match Moment.reap_blocking m with
          | inr true => kill_loop fuel failures s
          | inr false => Some (failures, see NoneLeft s)
          | inl error => Some (failures ++ [bs "waitpid failed during emergency cleanup: " ++ io_text error], s)
          end
      end
  end.

Fixpoint join_failures (failures : list bytes) : bytes :=
  match failures with [] => [] | [f] => f | f :: rest => f ++ bs "; " ++ join_failures rest end.

Definition kill_and_reap_after_failure (fuel : nat) (s : State) : option (option bytes * State) :=
  let child := Engine.child_pid (engine s) in
  let (failures, s) :=
    match send (Group child) SIGKILL s with
    | (Some error, s) => ([bs "could not send SIGKILL to child process group " ++ int_text child ++ bs ": " ++ io_text error], s)
    | (None, s) => ([], s)
    end in
  '(failures, s) ← kill_loop fuel failures s;
  Some (if decide (failures = []) then None else Some (join_failures failures), s).

(** The loop that waits for the helper until the deadline: whether it may still be there *)
Fixpoint await_helper (fuel : nat) (deadline : N) (s : State) : option (bool * State) :=
  match fuel with
  | O => None
  | S fuel =>
      let (m, s) := tick s in
      match Moment.reap_specific m with
      | inr true | inl _ => Some (false, s)
      | inr false =>
          let (m, s) := tick s in
          if decide (deadline ≤ Moment.now m)%N then Some (true, s) else await_helper fuel deadline s
      end
  end.

Definition terminate_network_helper (fuel : nat) (s : State) : option State :=
  match Engine.network_pid (engine s) with
  | None => Some s
  | Some pid =>
      let (_, s) := send (Group pid) SIGTERM (take_network s) in
      let (m, s) := tick s in
      '(remains, s) ← await_helper fuel (Moment.now m + 2000000000) s;
      Some (if (remains : bool) then (tick (send (Group pid) SIGKILL s).2).2 else s)
  end.

(** The end of [run_guard], after the child was spawned *)
Definition supervise (error_text : GuardError.t → bytes) (fuel : nat) (s : State) :
    option (result GuardError.t ChildOutcome.t * State) :=
  '(r, s) ← run fuel s;
  '(r, s) ← match r with
            | Err error =>
                '(cleanup, s) ← kill_and_reap_after_failure fuel s;
                Some (Err (match cleanup with
                           | None => error
                           | Some cleanup_error =>
                               GuardError.Lifecycle (error_text error ++ bs "; emergency child cleanup also failed: " ++ cleanup_error)
                           end), s)
            | r => Some (r, s)
            end;
  s ← terminate_network_helper fuel s;
  Some (r, s).
End supervise.

(** ** What one call does *)

(** Everything but the recorded failure *)
Definition core (e : Engine.t) : option Z * Z * option ChildOutcome.t * bool * bool * N * option Shutdown.t :=
  (Engine.network_pid e, Engine.child_pid e, Engine.direct_outcome e, Engine.pidfd e, Engine.liveness e,
   Engine.term_timeout e, Engine.shutdown e).

(** [s'] is [s] after some calls that added these events *)
Record after (s s' : State) (new : list Event) : Prop := {
  after_core : core (engine s') = core (engine s);
  after_events : events s' = events s ++ new;
  after_clock : clock s ≤ clock s';
}.

Lemma after_refl s : after s s [].
Proof. split; [done|by rewrite app_nil_r|done]. Qed.
Lemma after_trans s1 s2 s3 new new' : after s1 s2 new → after s2 s3 new' → after s1 s3 (new ++ new').
Proof. intros [H1 H2 H3] [H4 H5 H6]. split; [congruence|by rewrite H5, H2, (assoc_L (++))|lia]. Qed.
Lemma after_failure f s : after s (record_failure f s) [].
Proof. unfold record_failure. destruct (Engine.infrastructure_failure (engine s)); [apply after_refl|]. split; [done|by rewrite app_nil_r|done]. Qed.

Section calls.
Context (io_text : io_error → bytes) (hex : N → bytes) (history : nat → Moment.t).

Lemma after_tick s : after s (tick history s).2 [].
Proof. split; [done|by rewrite app_nil_r|cbn; lia]. Qed.
Lemma after_send target signal s : after s (send history target signal s).2 [Sent target signal].
Proof. split; [done|done|cbn; lia]. Qed.

Lemma signal_group_after signal text s :
  after s (signal_group io_text history signal text s) [Sent (Group (Engine.child_pid (engine s))) signal].
Proof.
  unfold signal_group. pose proof (after_send (Group (Engine.child_pid (engine s))) signal s) as H.
  destruct (send history _ signal s) as [[error|] s']; [|done]. rewrite <- (app_nil_r [_]).
  eapply after_trans; [exact H|apply after_failure].
Qed.

(** A loop over children signals those that were not signalled before. *)
Lemma signal_children_after signal l signaled s signaled' s' :
  foldl (signal_child io_text history signal) (signaled, s) l = (signaled', s') →
  ∃ new, after s s' new ∧ Forall (λ e, ∃ p, e = Sent (Process p) signal) new ∧
    (∀ p, p ∈ signaled' ↔ p ∈ signaled ∨ p ∈ l) ∧
    (∀ p, p ∈ signaled' → p ∈ signaled ∨ Sent (Process p) signal ∈ new).
Proof.
  revert signaled s. induction l as [|pid l IH]; intros signaled s; cbn [foldl].
  { intros [= <- <-]. exists []. split_and!; [apply after_refl|done|set_solver|set_solver]. }
  unfold signal_child at 2. case_decide as Hp.
  { intros (new & H1 & H2 & H3 & H4)%IH. exists new. split_and!; [done|done|set_solver|done]. }
  pose proof (after_send (Process pid) signal s) as Hs. destruct (send history (Process pid) signal s) as [error s1].
  cbn [snd] in Hs. intros (new & H1 & H2 & H3 & H4)%IH. exists (Sent (Process pid) signal :: new). split_and!.
  - apply (after_trans s s1 s' [Sent (Process pid) signal]); [done|].
    destruct error; [|done]. eapply (after_trans _ _ _ [] new); [apply after_failure|exact H1].
  - constructor; [by exists pid|done].
  - intros p. rewrite H3. set_solver.
  - intros p [Hin|Hin]%H4; [|set_solver]. apply elem_of_union in Hin as [->%elem_of_singleton|Hin]; [right; by left|by left].
Qed.

Lemma signal_immediate_after d s d' s' :
  signal_immediate_children io_text history d s = (d', s') →
  ∃ new, after s s' new ∧
    Forall (λ e, (∃ l, e = Listed l) ∨ ∃ p, e = Sent (Process p) (signal_of d)) new ∧
    Shutdown.graceful_signal d' = Shutdown.graceful_signal d ∧ Shutdown.deadline d' = Shutdown.deadline d ∧
    Shutdown.escalated d' = Shutdown.escalated d ∧
    (∀ p, p ∈ Shutdown.signaled_children d' → p ∈ Shutdown.signaled_children d ∨ Sent (Process p) (signal_of d) ∈ new) ∧
    (∀ l p, Listed l ∈ new → p ∈ l → p ∈ Shutdown.signaled_children d').
Proof.
  unfold signal_immediate_children, read_immediate_children. destruct (tick history s) as [m s0] eqn:Ht.
  pose proof (after_tick s) as H0. rewrite Ht in H0. cbn [snd] in H0.
  destruct (Moment.children_file m) as [error|contents]; [|destruct (mapM parse_i32 _) as [children|]].
  - intros [= <- <-]. exists []. split_and!; try done; [|by left|set_solver].
    eapply (after_trans _ _ _ [] []); [exact H0|apply after_failure].
  - destruct (foldl _ _ children) as [signaled s1] eqn:Hf. intros [= <- <-].
    apply signal_children_after in Hf as (new & H1 & H2 & H3 & H4). exists (Listed children :: new).
    split_and!; try done.
    + change (Listed children :: new) with ([] ++ [Listed children] ++ new). eapply after_trans; [exact H0|].
      eapply after_trans; [|exact H1]. split; [done|done|done].
    + constructor; [left; by exists children|]. eapply Forall_impl; [exact H2|]. intros e He. by right.
    + cbn. intros p [Hp|Hp]%H4; [by left|right; by right].
    + cbn. intros l p [[= ->]|Hl]%elem_of_cons Hp; [apply H3; by right|].
      rewrite Forall_forall in H2. by destruct (H2 _ Hl).
  - intros [= <- <-]. exists []. split_and!; try done; [|by left|set_solver].
    eapply (after_trans _ _ _ [] []); [exact H0|apply after_failure].
Qed.
End calls.

(** ** The invariant of the engine *)
Section invariant.
Context (io_text : io_error → bytes) (hex : N → bytes) (history : nat → Moment.t) (child : Z) (network : option Z).

(** What a shutdown has sent *)
Definition shutdown_sent (seen : list Event) (shutdown : option Shutdown.t) : Prop :=
  match shutdown with
  | None => ∀ target signal, Sent target signal ∉ seen
  | Some d =>
      Sent (Group child) (Shutdown.graceful_signal d) ∈ seen ∧
      (if Shutdown.escalated d then Sent (Group child) SIGKILL ∈ seen else ∀ target, Sent target SIGKILL ∉ seen) ∧
      ∀ p, p ∈ Shutdown.signaled_children d → Sent (Process p) (signal_of d) ∈ seen
  end.

(** [since]: a number of calls that have been made *)
Record guarded (since : nat) (s : State) : Prop := {
  guarded_since : since ≤ clock s;
  guarded_child : Engine.child_pid (engine s) = child;
  guarded_network : Engine.network_pid (engine s) = network;
  guarded_outcome : ∀ o, Engine.direct_outcome (engine s) = Some o →
    ∃ status, Reaped child status ∈ events s ∧ ChildOutcome.from_wait_status hex status = Ok o;
  guarded_listed : ∀ l p, Listed l ∈ events s → p ∈ l → ∃ signal, Sent (Process p) signal ∈ events s;
  guarded_shutdown : shutdown_sent (events s) (Engine.shutdown (engine s));
  guarded_graceful : ∀ d, Engine.shutdown (engine s) = Some d → Shutdown.graceful_signal d ≠ SIGKILL;
}.

Lemma core_fields e e' :
  core e = core e' →
  Engine.child_pid e = Engine.child_pid e' ∧ Engine.direct_outcome e = Engine.direct_outcome e' ∧
  Engine.shutdown e = Engine.shutdown e' ∧ Engine.network_pid e = Engine.network_pid e'.
Proof. unfold core. naive_solver. Qed.

Lemma guarded_quiet since s s' : after s s' [] → guarded since s → guarded since s'.
Proof.
  intros [Hc He Ht] [H0 H1 H2 H3 H4 H5 H6]. apply core_fields in Hc as (Hc1 & Hc2 & Hc3 & Hc4). rewrite app_nil_r in He.
  split; rewrite ?Hc1, ?Hc2, ?Hc3, ?Hc4, ?He; try done. lia.
Qed.

(** Signals of a phase, and the children that are listed in it *)
Lemma guarded_phase since s s1 s2 d d2 signal new :
  guarded since s → after s s1 [Sent (Group child) signal] → after s1 s2 new → signal = signal_of d →
  Forall (λ e, (∃ l, e = Listed l) ∨ ∃ p, e = Sent (Process p) signal) new →
  (∀ p, p ∈ Shutdown.signaled_children d2 → Sent (Process p) signal ∈ new) →
  (∀ l p, Listed l ∈ new → p ∈ l → p ∈ Shutdown.signaled_children d2) →
  Shutdown.graceful_signal d2 = Shutdown.graceful_signal d → Shutdown.escalated d2 = Shutdown.escalated d →
  Shutdown.graceful_signal d ≠ SIGKILL →
  (if Shutdown.escalated d then Sent (Group child) (Shutdown.graceful_signal d) ∈ events s
   else Engine.shutdown (engine s) = None) →
  guarded since (set_shutdown (Some d2) s2).
Proof.
  intros [Hsi Hch Hnet Ho Hl Hs Hg] [Hc1 He1 Ht1] [Hc2 He2 Ht2] Hsig Hnew Hsent Hlisted Hgr Hesc Hng Hcase.
  apply core_fields in Hc1 as (Hch1 & Hout1 & Hsh1 & Hn1). apply core_fields in Hc2 as (Hch2 & Hout2 & Hsh2 & Hn2).
  assert (events s2 = events s ++ [Sent (Group child) signal] ++ new) as He by (by rewrite He2, He1, <- (assoc_L (++))).
  assert (signal_of d2 = signal) as Hsig2 by (unfold signal_of in *; by rewrite Hgr, Hesc).
  split; unfold set_shutdown; cbn [engine clock events Engine.child_pid Engine.network_pid Engine.direct_outcome Engine.shutdown];
    rewrite ?Hch2, ?Hch1, ?Hn2, ?Hn1, ?Hout2, ?Hout1, ?He; [lia|done|done| | | |].
  - intros o Ho'. destruct (Ho o Ho') as (status & Hin & Hst). exists status. split; [set_solver|done].
  - intros l p Hin Hp. rewrite !elem_of_app in Hin. destruct Hin as [Hin|[Hin|Hin]].
    + destruct (Hl l p Hin Hp) as [g Hg']. exists g. set_solver.
    + by apply list_elem_of_singleton in Hin.
    + exists signal. apply elem_of_app; right; apply elem_of_app; right. by eapply Hsent, Hlisted.
  - unfold shutdown_sent. rewrite Hsig2, Hgr, Hesc. split_and!.
    + destruct (Shutdown.escalated d) eqn:Hd; [set_solver|]. unfold signal_of in Hsig. rewrite Hd in Hsig. subst signal. set_solver.
    + destruct (Shutdown.escalated d) eqn:Hd; unfold signal_of in Hsig; rewrite Hd in Hsig; subst signal; [set_solver|].
      rewrite Hcase in Hs. intros target Hin. rewrite !elem_of_app, list_elem_of_singleton in Hin. destruct Hin as [Hin|[Heq|Hin]].
      * by apply Hs in Hin.
      * congruence.
      * rewrite Forall_forall in Hnew. destruct (Hnew _ Hin) as [[l ?]|[p ?]]; congruence.
    + intros p Hp. set_solver.
  - intros d' [= <-]. by rewrite Hgr.
Qed.

Lemma escalate_guarded since s : guarded since s → guarded since (escalate io_text history s).
Proof.
  intros Hs. unfold escalate. destruct (Engine.shutdown (engine s)) as [d|] eqn:Hd; [|done].
  destruct (Shutdown.escalated d) eqn:He; [done|].
  set (d1 := Shutdown.mk _ _ true ∅). pose proof (signal_group_after io_text history SIGKILL (bs "could not send SIGKILL to child process group ") s) as H1.
  rewrite (guarded_child _ _ Hs) in H1.
  destruct (signal_immediate_children _ _ d1 _) as [d2 s2] eqn:H2. apply signal_immediate_after in H2 as (new & H2 & Hn & Hgr & _ & Hesc & Hsent & Hlisted).
  pose proof (guarded_shutdown _ _ Hs) as Hsent0. rewrite Hd in Hsent0. destruct Hsent0 as (Hgroup & _ & _).
  eapply (guarded_phase since s _ s2 d1 d2 SIGKILL new); try done; [|exact (guarded_graceful _ _ Hs d Hd)].
  intros p Hp. destruct (Hsent p Hp) as [?|?]; [set_solver|done].
Qed.

Lemma begin_shutdown_guarded signal since s : signal ≠ SIGKILL → guarded since s → guarded since (begin_shutdown io_text history signal s).
Proof.
  intros Hsig Hs. unfold begin_shutdown. destruct (Engine.shutdown (engine s)) as [d|] eqn:Hd; [done|].
  destruct (tick history s) as [m s0] eqn:Ht. pose proof (after_tick history s) as H0. rewrite Ht in H0. cbn [snd] in H0.
  assert (guarded since s0) as Hs0 by (by eapply guarded_quiet).
  assert (Engine.shutdown (engine s0) = None) as Hd0 by (destruct H0 as [Hc _ _]; apply core_fields in Hc as (_ & _ & -> & _); done).
  set (d1 := Shutdown.mk _ _ false ∅).
  match goal with |- context [signal_group io_text history signal ?t s0] => pose proof (signal_group_after io_text history signal t s0) as H1; set (s1 := signal_group io_text history signal t s0) in * end.
  rewrite (guarded_child _ _ Hs0) in H1.
  destruct (signal_immediate_children _ _ d1 _) as [d2 s2] eqn:H2. apply signal_immediate_after in H2 as (new & H2 & Hn & Hgr & _ & Hesc & Hsent & Hlisted).
  assert (guarded since (set_shutdown (Some d2) s2)) as Hg.
  { eapply (guarded_phase since s0 s1 s2 d1 d2 signal new); try done.
    intros p Hp. destruct (Hsent p Hp) as [?|?]; [set_solver|done]. }
  case_decide; [by apply escalate_guarded|done].
Qed.

Lemma adopt_guarded since s : guarded since s → guarded since (signal_newly_adopted_children io_text history s).
Proof.
  intros Hs. unfold signal_newly_adopted_children. destruct (Engine.shutdown (engine s)) as [d|] eqn:Hd; [|done].
  destruct (signal_immediate_children _ _ d s) as [d2 s2] eqn:H2. apply signal_immediate_after in H2 as (new & [Hc He Ht] & Hn & Hgr & _ & Hesc & Hsent & Hlisted).
  pose proof Hs as [Hsi Hch0 Hnet Ho Hl Hsh Hg]. rewrite Hd in Hsh. destruct Hsh as (Hgroup & Hkill & Hchildren).
  apply core_fields in Hc as (Hch & Hout & _ & Hnet').
  assert (signal_of d2 = signal_of d) as Hsig by (unfold signal_of; by rewrite Hgr, Hesc).
  assert (∀ p, p ∈ Shutdown.signaled_children d2 → Sent (Process p) (signal_of d) ∈ events s ++ new) as Hall.
  { intros p [Hp|Hp]%Hsent; [apply elem_of_app; left; by apply Hchildren|set_solver]. }
  split; unfold set_shutdown; cbn [engine clock events Engine.child_pid Engine.network_pid Engine.direct_outcome Engine.shutdown];
    rewrite ?Hch, ?Hnet', ?Hout, ?He; [lia|done|done| | | |].
  - intros o Ho'. destruct (Ho o Ho') as (status & Hin & Hst). exists status. split; [set_solver|done].
  - intros l p [Hin|Hin]%elem_of_app Hp; [destruct (Hl l p Hin Hp) as [g ?]; exists g; set_solver|].
    exists (signal_of d). by eapply Hall, Hlisted.
  - unfold shutdown_sent. rewrite Hsig, Hgr, Hesc. split_and!; [set_solver| |done].
    destruct (Shutdown.escalated d) eqn:Hd2; [set_solver|]. intros target [Hin|Hin]%elem_of_app; [by apply Hkill in Hin|].
    rewrite Forall_forall in Hn. unfold signal_of in Hn. rewrite Hd2 in Hn. specialize (Hg d Hd).
    destruct (Hn _ Hin) as [[l ?]|[p ?]]; congruence.
  - intros d' [= <-]. rewrite Hgr. by apply Hg.
Qed.

Lemma see_guarded e since s :
  match e with Sent _ _ | Listed _ => False | _ => True end → guarded since s → guarded since (see e s).
Proof.
  intros He [Hsi Hch Hnet Ho Hl Hs Hg]. split; cbn [see engine clock events]; [done|done|done| | | |done].
  - intros o (status & ? & ?)%Ho. exists status. split; [set_solver|done].
  - intros l p [Hin|<-%list_elem_of_singleton]%elem_of_app Hp; [|done]. destruct (Hl l p Hin Hp) as [g ?]. exists g. set_solver.
  - unfold shutdown_sent in *. assert (∀ target signal, Sent target signal ∈ events s ++ [e] → Sent target signal ∈ events s) as Hback.
    { intros target signal [?|<-%list_elem_of_singleton]%elem_of_app; done. }
    destruct (Engine.shutdown (engine s)) as [d|]; [|by intros ? ? ?%Hback%Hs].
    destruct Hs as (H1 & H2 & H3). split_and!; [set_solver| |intros p Hp; apply elem_of_app; left; by apply H3].
    destruct (Shutdown.escalated d); [set_solver|by intros ? ?%Hback%H2].
Qed.

Lemma tick_guarded since s : guarded since s → guarded since (tick history s).2.
Proof. apply guarded_quiet, after_tick. Qed.
Lemma failure_guarded f since s : guarded since s → guarded since (record_failure f s).
Proof. apply guarded_quiet, after_failure. Qed.
Lemma liveness_guarded since s : guarded since s → guarded since (take_liveness s).
Proof. intros []. by split. Qed.
Lemma pidfd_guarded since s : guarded since s → guarded since (take_pidfd s).
Proof. intros []. by split. Qed.

(** A call and what depends on its answer *)
Lemma tick_then since (f : Moment.t → State → State) s :
  guarded since s → (∀ m s', guarded since s' → guarded since (f m s')) →
  guarded since (let (m, s') := tick history s in f m s').
Proof. intros Hs Hf. apply tick_guarded in Hs. destruct (tick history s) as [m s']. by apply Hf. Qed.

Lemma maybe_escalate_guarded since s : guarded since s → guarded since (maybe_escalate io_text history s).
Proof.
  intros Hs. unfold maybe_escalate. destruct (Engine.shutdown (engine s)) as [d|]; [|done].
  destruct (Shutdown.escalated d); [done|].
  apply (tick_then since (λ m s, if decide (Shutdown.deadline d ≤ Moment.now m)%N then escalate io_text history s else s)); [done|].
  intros m s' Hs'. case_decide; [by apply escalate_guarded|done].
Qed.

Lemma poll_timeout_guarded since s : guarded since s → guarded since (poll_timeout_ms history s).2.
Proof.
  intros Hs. unfold poll_timeout_ms. destruct (Engine.shutdown (engine s)) as [d|]; [|done].
  destruct (Shutdown.escalated d); [done|]. apply tick_guarded in Hs. destruct (tick history s) as [m s0]. by case_decide.
Qed.

Lemma handle_signal_guarded signal since s : guarded since s → guarded since (handle_signal io_text history s signal).
Proof.
  intros Hs. apply (see_guarded (Handled signal)) in Hs; [|done]. unfold handle_signal. cbv zeta.
  set (s0 := see _ s) in *. case_decide; [done|]. case_decide as Ht.
  - destruct (Engine.shutdown (engine s0)) as [d|].
    + destruct (Shutdown.escalated d); [done|by apply escalate_guarded].
    + apply begin_shutdown_guarded; [|done]. by destruct Ht as [->|[->|[->| ->]]].
  - by apply begin_shutdown_guarded, failure_guarded.
Qed.

Lemma handle_signals_guarded since s : guarded since s → guarded since (handle_signals io_text history s).2.
Proof.
  intros Hs. unfold handle_signals. apply tick_guarded in Hs. destruct (tick history s) as [m s0]. cbn [snd] in Hs.
  destruct (Moment.read_pending m) as [e|signals]; [done|]. cbn [snd]. revert s0 Hs.
  induction signals as [|signal signals IH]; intros s0 Hs; [done|]. by apply IH, handle_signal_guarded.
Qed.

Lemma handle_liveness_guarded revents since s : guarded since s → guarded since (handle_liveness io_text history revents s).
Proof.
  intros Hs. unfold handle_liveness. case_decide; [by apply begin_shutdown_guarded, liveness_guarded, failure_guarded|].
  case_decide; [|done]. apply tick_guarded in Hs. destruct (tick history s) as [m s0]. cbn [snd] in Hs.
  destruct (Moment.read_liveness m) as [e|[]]; [by apply begin_shutdown_guarded, liveness_guarded, failure_guarded| |done].
  by apply begin_shutdown_guarded, liveness_guarded.
Qed.

Lemma handle_events_guarded polled l p since s : guarded since s → guarded since (handle_events io_text history polled l p s).2.
Proof.
  intros Hs. unfold handle_events.
  assert (guarded since (if decide (has_bits (Polled.signal_fd polled) READY) then handle_signals io_text history s else (Ok (), s)).2) as H1.
  { case_decide; [by apply handle_signals_guarded|done]. }
  destruct (if decide _ then handle_signals _ _ _ else _) as [[[]|e|] s1]; [|done|done]. cbn [snd] in *.
  assert (guarded since (if l then handle_liveness io_text history (Polled.liveness polled) s1 else s1)) as H2.
  { destruct l; [by apply handle_liveness_guarded|done]. }
  case_decide; [by apply pidfd_guarded|done].
Qed.

(** ** Reaping and the loop *)
Lemma tick_advances since s : guarded since s → guarded (S since) (tick history s).2.
Proof. intros Hs. pose proof (tick_guarded _ _ Hs) as [_ ? ? ? ? ? ?]. split; [|done..]. destruct Hs as [Hsi _ _ _ _ _ _]. cbn. lia. Qed.
Lemma guarded_weaken since s : guarded (S since) s → guarded since s.
Proof. intros [Hsi ? ? ? ? ? ?]. split; [lia|done..]. Qed.

Lemma outcome_guarded o status since s :
  Reaped child status ∈ events s → ChildOutcome.from_wait_status hex status = Ok o → guarded since s → guarded since (set_outcome o s).
Proof. intros Hin Hst [Hsi Hch Hnet Ho Hl Hs Hg]. split; [done|done|done| |done|done|done]. intros o' [= <-]. by exists status. Qed.

Lemma reap_all_guarded fuel since s r s' :
  guarded since s → reap_all hex history fuel s = Some (r, s') →
  guarded (S since) s' ∧ r ≠ Panic ∧ (r = Ok true → NoneLeft ∈ events s').
Proof.
  revert since s. induction fuel as [|fuel IH]; intros since s Hs; [done|]. cbn [reap_all]. apply tick_advances in Hs.
  destruct (tick history s) as [m s0]. cbn [snd] in Hs. destruct (Moment.reap_one m) as [e|[pid status| |]].
  - intros [= <- <-]. done.
  - pose proof (see_guarded (Reaped pid status) _ _ I Hs) as Hs1. case_decide as Hp.
    + destruct (ChildOutcome.from_wait_status hex status) as [o|e|] eqn:Ho.
      * intros H. apply (IH (S since)) in H as (H1 & H2 & H3); [split; [by apply guarded_weaken|done]|].
        apply (outcome_guarded o status); [|done..]. rewrite Hp, (guarded_child _ _ Hs1). set_solver.
      * intros [= <- <-]. done.
      * exfalso. revert Ho. unfold ChildOutcome.from_wait_status. repeat case_match; done.
    + intros H. apply (IH (S since)) in H as (H1 & H2 & H3); [split; [by apply guarded_weaken|done]|done].
  - intros [= <- <-]. done.
  - intros [= <- <-]. split_and!; [by apply see_guarded|done|]. cbn [see events]. set_solver.
Qed.

(** What a round leaves *)
Definition round_left (since : nat) (step : Round) : Prop :=
  match step with
  | Continue s => guarded (S since) s
  | Return r s =>
      guarded since s ∧ r ≠ Panic ∧
      ∀ o, r = Ok o → Engine.direct_outcome (engine s) = Some o ∧ Engine.infrastructure_failure (engine s) = None ∧ NoneLeft ∈ events s
  end.

Lemma handle_events_no_panic polled l p s : (handle_events io_text history polled l p s).1 ≠ Panic.
Proof.
  unfold handle_events, handle_signals. case_decide; [|by case_decide]. destruct (tick history s) as [m s0].
  destruct (Moment.read_pending m); [done|]. by case_decide.
Qed.

(** The rest of a round that found children *)
Lemma wait_left since s :
  guarded (S since) s →
  round_left since
    (let s := maybe_escalate io_text history (signal_newly_adopted_children io_text history s) in
     let (timeout_ms, s) := poll_timeout_ms history s in
     let had_liveness := Engine.liveness (engine s) in
     let had_pidfd := Engine.pidfd (engine s) in
     let (m, s) := tick history (see (Waits (clock s) timeout_ms) s) in
     match Moment.poll m with
     | inl error => Return (Err (GuardError.System "poll failed" error)) s
     | inr polled =>
         match handle_events io_text history polled had_liveness had_pidfd s with
         | (Ok (), s) => Continue s
         | (Err e, s) => Return (Err e) s
         | (Panic, s) => Return Panic s
         end
     end).
Proof.
  intros Hs. cbv zeta. apply adopt_guarded, maybe_escalate_guarded, poll_timeout_guarded in Hs.
  destruct (poll_timeout_ms history _) as [timeout_ms s1]. cbn [snd] in Hs.
  apply (see_guarded (Waits (clock s1) timeout_ms)), tick_guarded in Hs; [|done].
  destruct (tick history (see _ s1)) as [m s2]. cbn [snd] in Hs. destruct (Moment.poll m) as [e|polled]; [split_and!; [by apply guarded_weaken|done..]|].
  pose proof (handle_events_guarded polled (Engine.liveness (engine s1)) (Engine.pidfd (engine s1)) _ _ Hs) as H3.
  pose proof (handle_events_no_panic polled (Engine.liveness (engine s1)) (Engine.pidfd (engine s1)) s2) as H4.
  destruct (handle_events io_text history polled _ _ s2) as [[[]|e|] s3]; [done|split_and!; [by apply guarded_weaken|done..]|done].
Qed.

Lemma round_guarded fuel since s step :
  guarded since s → round io_text hex history fuel s = Some step → round_left since step.
Proof.
  intros Hs. unfold round. destruct (reap_all hex history fuel s) as [[reaped s1]|] eqn:Hr; [|done]. cbn [mbind option_bind].
  apply (reap_all_guarded fuel since) in Hr as (H1 & H2 & H3); [|done]. destruct reaped as [no_children|e|]; [|intros [= <-]|done].
  2: { split_and!; [by apply guarded_weaken|done|done]. }
  destruct no_children.
  - destruct (Engine.direct_outcome (engine s1)) as [o|] eqn:Ho.
    + replace (match Engine.shutdown (engine s1) with Some _ => s1 | None => s1 end) with s1 by (by destruct (Engine.shutdown (engine s1))).
      rewrite Ho. intros [= <-]. apply guarded_weaken in H1. destruct (Engine.infrastructure_failure (engine s1)) eqn:Hf.
      * split_and!; [destruct H1; by split|done|done].
      * split_and!; [done|done|]. intros o' [= <-]. split_and!; [done|done|by apply H3].
    + rewrite Ho. intros [= <-]. split_and!; [by apply guarded_weaken|done|done].
  - set (s2 := match Engine.direct_outcome (engine s1), Engine.shutdown (engine s1) with Some _, None => begin_shutdown io_text history SIGTERM s1 | _, _ => s1 end).
    assert (guarded (S since) s2) as H4.
    { unfold s2. destruct (Engine.direct_outcome (engine s1)), (Engine.shutdown (engine s1)); try done. by apply begin_shutdown_guarded. }
    apply wait_left in H4. revert H4. cbv zeta.
    destruct (Engine.direct_outcome (engine s2)); destruct (poll_timeout_ms history _) as [timeout_ms s3]; destruct (tick history (see _ s3)); by intros ? [= <-].
Qed.

Lemma run_guarded fuel since s r s' :
  guarded since s → run io_text hex history fuel s = Some (r, s') → round_left since (Return r s').
Proof.
  revert since s. induction fuel as [|fuel IH]; intros since s Hs; [done|]. cbn [run].
  destruct (round io_text hex history (S fuel) s) as [step|] eqn:Hr; [|done]. cbn [mbind option_bind].
  apply (round_guarded _ since) in Hr; [|done]. destruct step as [s1|r1 s1]; [|by intros [= <- <-]].
  intros (H1 & H2)%(IH (S since)); [|done]. split; [by apply guarded_weaken|done].
Qed.

(** ** After the loop *)

(** Later calls that keep that every listed child has been sent a signal *)
Definition swept (s s' : State) : Prop :=
  ∃ new, after s s' new ∧ ∀ l p, Listed l ∈ new → p ∈ l → ∃ signal, Sent (Process p) signal ∈ new.

Lemma swept_refl s : swept s s.
Proof. exists []. split; [apply after_refl|set_solver]. Qed.
Lemma swept_trans s1 s2 s3 : swept s1 s2 → swept s2 s3 → swept s1 s3.
Proof.
  intros (new & H1 & H2) (new' & H3 & H4). exists (new ++ new'). split; [by eapply after_trans|].
  intros l p [Hin|Hin]%elem_of_app Hp; [destruct (H2 l p Hin Hp) as [signal ?]|destruct (H4 l p Hin Hp) as [signal ?]]; exists signal; set_solver.
Qed.
Lemma swept_call s s' new : after s s' new → (∀ l, Listed l ∉ new) → swept s s'.
Proof. intros H1 H2. exists new. split; [done|]. by intros l p ?%H2. Qed.
Lemma swept_tick s : swept s (tick history s).2.
Proof. eapply swept_call; [apply after_tick|set_solver]. Qed.
Lemma swept_send target signal s : swept s (send history target signal s).2.
Proof. eapply swept_call; [apply after_send|set_solver]. Qed.
Lemma swept_events s s' e : swept s s' → e ∈ events s → e ∈ events s'.
Proof. intros (new & [_ -> _] & _). set_solver. Qed.
Lemma swept_clock s s' : swept s s' → clock s ≤ clock s'.
Proof. by intros (new & [_ _ ?] & _). Qed.

Lemma kill_children_after l failures s failures' s' :
  foldl (kill_child io_text history) (failures, s) l = (failures', s') →
  ∃ new, after s s' new ∧ (∀ l, Listed l ∉ new) ∧ (∀ p, p ∈ l → Sent (Process p) SIGKILL ∈ new) ∧ failures `prefix_of` failures'.
Proof.
  revert failures s. induction l as [|pid l IH]; intros failures s; cbn [foldl].
  { intros [= <- <-]. exists []. split_and!; [apply after_refl|set_solver|set_solver|done]. }
  unfold kill_child at 2. pose proof (after_send history (Process pid) SIGKILL s) as Hs.
  destruct (send history (Process pid) SIGKILL s) as [error s1]. cbn [snd] in Hs.
  intros H. assert (∃ f, foldl (kill_child io_text history) (f, s1) l = (failures', s') ∧ failures `prefix_of` f) as (f & H0 & Hf).
  { destruct error; eexists; (split; [exact H|]); [by eexists|done]. }
  apply IH in H0 as (new & H1 & H2 & H3 & H4). exists (Sent (Process pid) SIGKILL :: new). split_and!.
  - exact (after_trans s s1 s' [_] new Hs H1).
  - set_solver.
  - intros p [->|Hp]%elem_of_cons; [by left|right; by apply H3].
  - by transitivity f.
Qed.

Lemma kill_loop_swept fuel failures s failures' s' :
  kill_loop io_text history fuel failures s = Some (failures', s') →
  swept s s' ∧ (NoneLeft ∈ events s' ∨ failures' ≠ []).
Proof.
  revert failures s. induction fuel as [|fuel IH]; intros failures s; [done|]. cbn [kill_loop]. unfold read_immediate_children.
  pose proof (after_tick history s) as H0. destruct (tick history s) as [m s0]. cbn [snd] in H0.
  assert (swept s s0) as Hs0 by (eapply swept_call; [done|set_solver]).
  destruct (Moment.children_file m) as [e|contents]; [intros [= <- <-]; split; [done|right; by destruct failures]|].
  destruct (mapM parse_i32 (split_ascii_whitespace contents)) as [children|]; [|intros [= <- <-]; split; [done|right; by destruct failures]].
  destruct (foldl (kill_child io_text history) (failures, see (Listed children) s0) children) as [failures1 s1] eqn:Hf.
  apply kill_children_after in Hf as (new & H1 & H2 & H3 & _).
  assert (swept s0 s1) as Hs1.
  { exists ([Listed children] ++ new). split; [eapply after_trans, H1; by split|].
    intros l p [[= ->]%list_elem_of_singleton|Hin]%elem_of_app Hp; [exists SIGKILL; set_solver|by apply H2 in Hin]. }
  pose proof (swept_tick s1) as Hs2. destruct (tick history s1) as [m1 s2]. cbn [snd] in Hs2.
  assert (swept s s2) as Hs by eauto using swept_trans.
  destruct (Moment.reap_blocking m1) as [e|[]].
  - intros [= <- <-]. split; [done|right; by destruct failures1].
  - intros (H4 & H5)%IH. split; [by eapply swept_trans|done].
  - intros [= <- <-]. split; [eapply swept_trans; [exact Hs|]|left; cbn; set_solver].
    exists [NoneLeft]. split; [by split|set_solver].
Qed.

Lemma await_helper_swept fuel deadline s remains s' : await_helper history fuel deadline s = Some (remains, s') → swept s s'.
Proof.
  revert s. induction fuel as [|fuel IH]; intros s; [done|]. cbn [await_helper].
  pose proof (swept_tick s) as H0. destruct (tick history s) as [m s0]. cbn [snd] in H0.
  destruct (Moment.reap_specific m) as [e|[]]; [by intros [= <- <-]..|].
  pose proof (swept_tick s0) as H1. destruct (tick history s0) as [m1 s1]. cbn [snd] in H1.
  case_decide; [intros [= <- <-]; by eapply swept_trans|]. intros H2%IH. eauto using swept_trans.
Qed.

Lemma kill_and_reap_swept fuel s cleanup s' :
  Engine.child_pid (engine s) = child → kill_and_reap_after_failure io_text history fuel s = Some (cleanup, s') →
  swept s s' ∧ Sent (Group child) SIGKILL ∈ events s' ∧ (NoneLeft ∈ events s' ∨ cleanup ≠ None).
Proof.
  intros Hch. unfold kill_and_reap_after_failure. rewrite Hch. pose proof (after_send history (Group child) SIGKILL s) as H0.
  destruct (send history (Group child) SIGKILL s) as [error s0]. cbn [snd] in H0.
  assert (swept s s0) as Hs0 by (eapply swept_call; [done|set_solver]).
  assert (Sent (Group child) SIGKILL ∈ events s0) as Hin by (destruct H0 as [_ -> _]; set_solver).
  assert (∀ failures, ('(failures, s1) ← kill_loop io_text history fuel failures s0;
    Some (if decide (failures = []) then None else Some (join_failures failures), s1)) = Some (cleanup, s') →
    swept s s' ∧ Sent (Group child) SIGKILL ∈ events s' ∧ (NoneLeft ∈ events s' ∨ cleanup ≠ None)) as Hrest.
  { intros failures. destruct (kill_loop io_text history fuel failures s0) as [[failures1 s1]|] eqn:Hk; [|done].
    apply kill_loop_swept in Hk as (H1 & H2). intros [= <- <-].
    split_and!; [by eapply swept_trans|by eapply swept_events|]. destruct H2 as [?|?]; [by left|right]. by rewrite decide_False. }
  destruct error; apply Hrest.
Qed.

Lemma terminate_helper_swept fuel s s' :
  terminate_network_helper history fuel s = Some s' →
  (∃ s0, events s0 = events s ∧ swept s0 s') ∧
  ∀ helper, Engine.network_pid (engine s) = Some helper → Sent (Group helper) SIGTERM ∈ events s'.
Proof.
  unfold terminate_network_helper. destruct (Engine.network_pid (engine s)) as [pid|] eqn:Hp.
  2: { intros [= <-]. split; [exists s; split; [done|apply swept_refl]|done]. }
  pose proof (after_send history (Group pid) SIGTERM (take_network s)) as H0.
  pose proof (swept_send (Group pid) SIGTERM (take_network s)) as H1.
  destruct (send history (Group pid) SIGTERM (take_network s)) as [error s0]. cbn [snd] in H0, H1.
  pose proof (swept_tick s0) as H2. destruct (tick history s0) as [m s1]. cbn [snd] in H2.
  destruct (await_helper history fuel (Moment.now m + 2000000000) s1) as [[remains s2]|] eqn:Ha; [|done].
  apply await_helper_swept in Ha. intros [= <-].
  assert (swept s0 (if remains then (tick history (send history (Group pid) SIGKILL s2).2).2 else s2)) as H3.
  { apply (swept_trans _ s1); [done|]. apply (swept_trans _ s2); [done|].
    destruct remains; [|apply swept_refl]. eapply swept_trans; [apply swept_send|apply swept_tick]. }
  split; [exists (take_network s); split; [done|by eapply swept_trans]|].
  intros helper [= <-]. eapply swept_events; [exact H3|]. destruct H0 as [_ -> _]. set_solver.
Qed.

(** ** The calls return *)
Section returns.
Context (T : nat).
Hypothesis Hgone : ∀ k, T ≤ k →
  Moment.reap_one (history k) = inr ReapedChild.NoChildren ∧ Moment.reap_blocking (history k) = inr false ∧
  Moment.reap_specific (history k) = inr true.

Lemma reap_all_gone fuel s : T ≤ clock s → reap_all hex history (S fuel) s = Some (Ok true, see NoneLeft (tick history s).2).
Proof. intros Hc. cbn [reap_all]. unfold tick. cbn [snd]. by destruct (Hgone _ Hc) as (-> & _). Qed.

Lemma reap_all_returns fuel s : 1 ≤ fuel → T < fuel + clock s → is_Some (reap_all hex history fuel s).
Proof.
  revert s. induction fuel as [|fuel IH]; intros s Hf Hc; [lia|].
  destruct (decide (T ≤ clock s)); [rewrite reap_all_gone by done; by eexists|].
  assert (∀ s', clock s' = S (clock s) → is_Some (reap_all hex history fuel s')) as Hnext by (intros s' Hs'; apply IH; lia).
  cbn [reap_all]. unfold tick. destruct (Moment.reap_one (history (clock s))) as [e|[pid status| |]]; [by eexists| |by eexists..].
  case_decide; [|by apply Hnext]. destruct (ChildOutcome.from_wait_status hex status); [by apply Hnext|by eexists..].
Qed.

Lemma round_gone fuel s : T ≤ clock s → ∃ r s', round io_text hex history (S fuel) s = Some (Return r s').
Proof.
  intros Hc. unfold round. rewrite reap_all_gone by done. cbn [mbind option_bind].
  set (s1 := see NoneLeft (tick history s).2). destruct (Engine.direct_outcome (engine s1)) eqn:Ho; [|rewrite Ho; eauto].
  destruct (Engine.shutdown (engine s1)); rewrite Ho; destruct (Engine.infrastructure_failure (engine s1)); eauto.
Qed.

Lemma round_returns fuel s : 1 ≤ fuel → T < fuel + clock s → is_Some (round io_text hex history fuel s).
Proof.
  intros Hf Hc. unfold round. destruct (reap_all_returns fuel s Hf Hc) as [[reaped s1] ->]. cbn [mbind option_bind].
  destruct reaped as [[]|e|]; [|..|by eexists|by eexists].
  - destruct (Engine.direct_outcome (engine s1)) eqn:Ho; [|rewrite Ho; by eexists]. destruct (Engine.shutdown (engine s1)); rewrite Ho; by eexists.
  - cbv zeta. match goal with |- context [Engine.direct_outcome (engine ?x)] => destruct (Engine.direct_outcome (engine x)) end;
      destruct (poll_timeout_ms history _) as [timeout_ms s3]; destruct (tick history (see _ s3)); by eexists.
Qed.

Lemma run_returns fuel s : guarded (clock s) s → 1 ≤ fuel → T < fuel + clock s → is_Some (run io_text hex history fuel s).
Proof.
  revert s. induction fuel as [|fuel IH]; intros s Hg Hf Hc; [lia|]. cbn [run]. destruct (decide (T ≤ clock s)) as [Ht|Ht].
  { destruct (round_gone fuel s Ht) as (r & s' & ->). by eexists. }
  destruct (round_returns (S fuel) s Hf Hc) as [[s1|r s1] Hr]; rewrite Hr; [|by eexists]. cbn [mbind option_bind].
  apply (round_guarded _ _ _ _ Hg) in Hr. pose proof (guarded_since _ _ Hr). apply IH; [|lia..].
  destruct Hr. by split.
Qed.

Lemma kill_loop_returns fuel failures s : 1 ≤ fuel → T < fuel + clock s → is_Some (kill_loop io_text history fuel failures s).
Proof.
  revert failures s. induction fuel as [|fuel IH]; intros failures s Hf Hc; [lia|]. cbn [kill_loop]. unfold read_immediate_children.
  pose proof (after_clock _ _ _ (after_tick history s)) as H0. assert (clock (tick history s).2 = S (clock s)) as Hs0 by done.
  destruct (tick history s) as [m s0]. cbn [snd] in *.
  destruct (Moment.children_file m) as [e|contents]; [by eexists|].
  destruct (mapM parse_i32 (split_ascii_whitespace contents)) as [children|]; [|by eexists].
  destruct (foldl (kill_child io_text history) (failures, see (Listed children) s0) children) as [failures1 s1] eqn:Hk.
  apply kill_children_after in Hk as (new & [_ _ H1] & _). cbn [see clock] in H1. unfold tick.
  destruct (decide (T ≤ clock s1)) as [Ht|Ht]; [destruct (Hgone _ Ht) as (_ & -> & _); by eexists|].
  destruct (Moment.reap_blocking (history (clock s1))) as [e|[]]; [by eexists| |by eexists]. apply IH; cbn [clock]; lia.
Qed.

Lemma await_helper_returns fuel deadline s : 1 ≤ fuel → T < fuel + clock s → is_Some (await_helper history fuel deadline s).
Proof.
  revert s. induction fuel as [|fuel IH]; intros s Hf Hc; [lia|]. cbn [await_helper]. unfold tick. cbn [clock].
  destruct (decide (T ≤ clock s)) as [Ht|Ht]; [destruct (Hgone _ Ht) as (_ & _ & ->); by eexists|].
  destruct (Moment.reap_specific (history (clock s))) as [e|[]]; [by eexists..|]. case_decide; [by eexists|]. apply IH; cbn [clock]; lia.
Qed.

Lemma terminate_helper_returns fuel s : T < fuel → is_Some (terminate_network_helper history fuel s).
Proof.
  intros Hf. unfold terminate_network_helper. destruct (Engine.network_pid (engine s)); [|by eexists].
  destruct (send history _ _ _) as [error s0]. destruct (tick history s0) as [m s1].
  destruct (await_helper_returns fuel (Moment.now m + 2000000000) s1) as [[remains s2] ->]; [lia..|]. by eexists.
Qed.

Lemma kill_and_reap_returns fuel s : T < fuel → is_Some (kill_and_reap_after_failure io_text history fuel s).
Proof.
  intros Hf. unfold kill_and_reap_after_failure. 
  assert (∀ failures s0, is_Some (kill_loop io_text history fuel failures s0)) as Hk by (intros; apply kill_loop_returns; lia).
  destruct (send history _ _ _) as [[error|] s0].
  - edestruct Hk as [[failures s1] Hs1]. rewrite Hs1. by eexists.
  - destruct (Hk [] s0) as [[failures s1] ->]. by eexists.
Qed.
End returns.


(** The engine that [run_guard] starts with *)
Definition started (pidfd liveness : bool) (term_timeout : N) : State :=
  state (Engine.mk network child None pidfd liveness term_timeout None None) 0 [].

Lemma started_guarded pidfd liveness term_timeout : guarded 0 (started pidfd liveness term_timeout).
Proof. split; [done|done|done|done|set_solver|set_solver|done]. Qed.

(** What the calls of a guard show about a result *)
Definition supervised (error_text : GuardError.t → bytes) (r : result GuardError.t ChildOutcome.t) (seen : list Event) : Prop :=
  match r with
  | Ok o => (∃ status, Reaped child status ∈ seen ∧ ChildOutcome.from_wait_status hex status = Ok o) ∧ NoneLeft ∈ seen
  | Err e =>
      Sent (Group child) SIGKILL ∈ seen ∧
      (NoneLeft ∈ seen ∨
       ∃ error cleanup, e = GuardError.Lifecycle (error_text error ++ bs "; emergency child cleanup also failed: " ++ cleanup))
  | Panic => False
  end.

Lemma supervised_mono error_text r seen seen' : seen ⊆ seen' → supervised error_text r seen → supervised error_text r seen'.
Proof. unfold supervised. destruct r; set_solver. Qed.

(** Until the helper is terminated *)
Lemma cleanup_supervised error_text fuel since r s r' s' :
  round_left since (Return r s) →
  match r with
  | Err error =>
      '(cleanup, s) ← kill_and_reap_after_failure io_text history fuel s;
      Some (Err (match cleanup with
                 | None => error
                 | Some cleanup_error =>
                     GuardError.Lifecycle (error_text error ++ bs "; emergency child cleanup also failed: " ++ cleanup_error)
                 end), s)
  | r => Some (r, s)
  end = Some (r', s') →
  swept s s' ∧ supervised error_text r' (events s').
Proof.
  intros (Hg & Hp & Ho). destruct r as [o|error|]; [| |done].
  - intros [= <- <-]. split; [apply swept_refl|]. destruct (Ho o eq_refl) as (Hd & _ & Hn).
    split; [by eapply guarded_outcome|done].
  - destruct (kill_and_reap_after_failure io_text history fuel s) as [[cleanup s1]|] eqn:Hk; [|done].
    apply kill_and_reap_swept in Hk as (H1 & H2 & H3); [|by eapply guarded_child].
    cbn [mbind option_bind]. intros [= <- <-]. split; [done|]. split; [done|]. destruct H3 as [?|?]; [by left|right].
    destruct cleanup as [cleanup|]; [|done]. by exists error, cleanup.
Qed.

Lemma supervise_parts error_text fuel pidfd liveness term_timeout r s' :
  supervise io_text hex history error_text fuel (started pidfd liveness term_timeout) = Some (r, s') →
  supervised error_text r (events s') ∧
  (∀ l p, Listed l ∈ events s' → p ∈ l → ∃ signal, Sent (Process p) signal ∈ events s') ∧
  ∀ helper, network = Some helper → Sent (Group helper) SIGTERM ∈ events s'.
Proof.
  unfold supervise. destruct (run io_text hex history fuel _) as [[r0 s0]|] eqn:Hr; [|done]. cbn [mbind option_bind].
  apply (run_guarded _ 0) in Hr; [|apply started_guarded]. destruct (match r0 with Err _ => _ | _ => _ end) as [[r1 s1]|] eqn:Hc; [|done].
  pose proof Hr as (Hg & _). apply (cleanup_supervised error_text fuel 0) in Hc as ((new & Ha & Hnew) & H2); [|done].
  cbn [mbind option_bind]. destruct (terminate_network_helper history fuel s1) as [s2|] eqn:Ht; [|done].
  apply terminate_helper_swept in Ht as ((s3 & He & new' & [_ Hb _] & Hnew') & H3). cbn [mbind option_bind]. intros [= <- <-].
  destruct Ha as [Hcore Ha _]. apply core_fields in Hcore as (_ & _ & _ & Hnet). rewrite He, Ha in Hb.
  split_and!.
  - eapply supervised_mono, H2. rewrite Hb, Ha. set_solver.
  - rewrite Hb. intros l p Hin Hp. rewrite !elem_of_app in Hin. destruct Hin as [[Hin|Hin]|Hin].
    + destruct (guarded_listed _ _ Hg l p Hin Hp) as [signal ?]. exists signal. set_solver.
    + destruct (Hnew l p Hin Hp) as [signal ?]. exists signal. set_solver.
    + destruct (Hnew' l p Hin Hp) as [signal ?]. exists signal. set_solver.
  - intros helper Hh. apply H3. by rewrite Hnet, (guarded_network _ _ Hg).
Qed.

Lemma supervise_returns error_text T fuel pidfd liveness term_timeout :
  (∀ k, T ≤ k →
     Moment.reap_one (history k) = inr ReapedChild.NoChildren ∧ Moment.reap_blocking (history k) = inr false ∧
     Moment.reap_specific (history k) = inr true) →
  T < fuel → is_Some (supervise io_text hex history error_text fuel (started pidfd liveness term_timeout)).
Proof.
  intros Hgone Hf. unfold supervise.
  destruct (run_returns T Hgone fuel (started pidfd liveness term_timeout)) as [[r0 s0] ->]; [apply started_guarded|lia|cbn; lia|].
  cbn [mbind option_bind].
  assert (is_Some (match r0 with
    | Err error => '(cleanup, s) ← kill_and_reap_after_failure io_text history fuel s0;
        Some (Err (E:=GuardError.t) (A:=ChildOutcome.t) (match cleanup with
                   | None => error
                   | Some cleanup_error => GuardError.Lifecycle (error_text error ++ bs "; emergency child cleanup also failed: " ++ cleanup_error)
                   end), s)
    | r => Some (r, s0) end)) as [[r1 s1] ->].
  { destruct r0; [by eexists| |by eexists]. destruct (kill_and_reap_returns T Hgone fuel s0 Hf) as [[cleanup s1] ->]. by eexists. }
  cbn [mbind option_bind]. destruct (terminate_helper_returns T Hgone fuel s1 Hf) as [s2 ->]. by eexists.
Qed.
(** ** The deadline *)
Section deadline.
Context (timeout : N).
Let now (k : nat) : N := Moment.now (history k).

Definition nothing_sent (seen : list Event) : Prop := ∀ target signal, Sent target signal ∉ seen.

(** A wait after the events [before], when a shutdown starts with the call [start]: without end before the
    shutdown and after SIGKILL; in between it begins before the deadline and does not reach past it *)
Definition wait_ok (start : option nat) (before : list Event) (call : nat) (timeout_ms : Z) : Prop :=
  timeout_ms = (-1)%Z ∧ nothing_sent before ∧ (∀ k, start = Some k → call < k) ∨
  ∃ k, start = Some k ∧
    (timeout_ms = (-1)%Z ∧ Sent (Group child) SIGKILL ∈ before ∨
     (∀ target, Sent target SIGKILL ∉ before) ∧
     ∃ c, call = S (S c) ∧ k < c ∧ (now c < now k + timeout)%N ∧ (0 ≤ timeout_ms ≤ Z.of_N I32_MAX)%Z ∧
       (Z.of_N (now (S c)) + 1000000 * timeout_ms ≤ Z.max (Z.of_N (now (S c))) (Z.of_N (now k + timeout)))%Z).

(** Why the group may have been sent SIGKILL: the deadline has passed, there was no time to give, or a
    termination signal came when the shutdown was under way *)
Definition kill_due (k : nat) (s : State) : Prop :=
  (∃ c, k < c < clock s ∧ (now k + timeout ≤ now c)%N) ∨ timeout = 0%N ∨
  ∃ i signal, events s !! i = Some (Handled signal) ∧ is_termination signal ∧ ¬ nothing_sent (take i (events s)).

Record timely (start : option nat) (s : State) : Prop := {
  timely_timeout : Engine.term_timeout (engine s) = timeout;
  timely_start : Shutdown.deadline <$> Engine.shutdown (engine s) = (λ k, now k + timeout)%N <$> start;
  timely_called : ∀ k, start = Some k → k < clock s;
  timely_waits : ∀ i call timeout_ms, events s !! i = Some (Waits call timeout_ms) →
    call < clock s ∧ wait_ok start (take i (events s)) call timeout_ms;
  timely_kill : Sent (Group child) SIGKILL ∈ events s → ∃ k, start = Some k ∧ kill_due k s;
}.

Lemma kill_due_grows k s s' new : events s' = events s ++ new → clock s ≤ clock s' → kill_due k s → kill_due k s'.
Proof.
  intros He Hc [(c & Hk & Hd)|[Ht|(i & signal & Hi & Hsig)]]; [left; exists c; split; [lia|done]|by right; left|].
  right; right. exists i, signal. rewrite He. pose proof (lookup_lt_Some _ _ _ Hi).
  by rewrite lookup_app_l, take_app_le by lia.
Qed.

(** Events other than waits *)
Lemma timely_grows start s s' new :
  timely start s → events s' = events s ++ new → clock s ≤ clock s' → (∀ call t, Waits call t ∉ new) →
  Engine.term_timeout (engine s') = Engine.term_timeout (engine s) →
  Shutdown.deadline <$> Engine.shutdown (engine s') = Shutdown.deadline <$> Engine.shutdown (engine s) →
  (Sent (Group child) SIGKILL ∈ new → ∃ k, start = Some k ∧ kill_due k s') → timely start s'.
Proof.
  intros [H1 H2 H3 H4 H5] He Hc Hn Ht Hd Hk. split; [congruence|congruence| | |].
  - intros k ?%H3. lia.
  - intros i call t. rewrite He. intros [Hi|[_ Hi]]%lookup_app_Some; [|by apply list_elem_of_lookup_2, Hn in Hi].
    pose proof (lookup_lt_Some _ _ _ Hi). apply H4 in Hi as [? ?]. split; [lia|]. by rewrite take_app_le by lia.
  - rewrite He, elem_of_app. intros [Hin|Hin]; [|by apply Hk]. destruct (H5 Hin) as (k & ? & ?).
    exists k. split; [done|]. by eapply kill_due_grows.
Qed.

Lemma timely_after start s s' new :
  timely start s → after s s' new → (∀ call t, Waits call t ∉ new) → Sent (Group child) SIGKILL ∉ new → timely start s'.
Proof.
  intros Hs [Hc He Ht] Hn Hk. unfold core in Hc. eapply timely_grows; eauto; [congruence|f_equal; congruence|naive_solver].
Qed.
Lemma timely_quiet start s s' : timely start s → after s s' [] → timely start s'.
Proof. intros Hs Ha. eapply timely_after; [done..|set_solver|set_solver]. Qed.

(** What a phase of a shutdown adds has no waits. *)
Definition phase_event (signal : Z) (e : Event) : Prop := (∃ l, e = Listed l) ∨ ∃ p, e = Sent (Process p) signal.
Lemma phase_no_wait signal new call t : Forall (phase_event signal) new → Waits call t ∉ new.
Proof. rewrite Forall_forall. intros H Hin. destruct (H _ Hin) as [[? ?]|[? ?]]; done. Qed.
Lemma phase_no_kill signal new pid : Forall (phase_event signal) new → Sent (Group pid) SIGKILL ∉ new.
Proof. rewrite Forall_forall. intros H Hin. destruct (H _ Hin) as [[? ?]|[? ?]]; done. Qed.

(** A signal to the group and to the children, and the shutdown that is set then *)
Lemma phase_after signal text d s d' s' :
  signal_immediate_children io_text history d (signal_group io_text history signal text s) = (d', s') →
  ∃ new, after s s' (Sent (Group (Engine.child_pid (engine s))) signal :: new) ∧ Forall (phase_event (signal_of d)) new ∧
    Shutdown.deadline d' = Shutdown.deadline d ∧ Shutdown.escalated d' = Shutdown.escalated d.
Proof.
  intros (new & H & Hn & _ & Hd & He & _)%signal_immediate_after. exists new. split_and!; [|done..].
  exact (after_trans _ _ _ [_] new (signal_group_after io_text history signal text s) H).
Qed.

Lemma escalate_timely start s :
  timely start s → (∀ k, start = Some k → kill_due k s) → timely start (escalate io_text history s).
Proof.
  intros Hs Hk. unfold escalate. destruct (Engine.shutdown (engine s)) as [d|] eqn:Hd; [|done].
  destruct (Shutdown.escalated d) eqn:He; [done|]. cbv zeta.
  destruct (signal_immediate_children _ _ _ _) as [d2 s2] eqn:H2. apply phase_after in H2 as (new & [Hc Hev Hcl] & Hn & Hdl & _).
  unfold core in Hc. eapply (timely_grows start s _ _ Hs); [exact Hev|exact Hcl| | | |].
  - intros call t [?|?]%elem_of_cons; [done|by eapply phase_no_wait].
  - cbn. congruence.
  - cbn. by rewrite Hd, Hdl.
  - intros _. pose proof (timely_start _ _ Hs) as Hst. rewrite Hd in Hst. destruct start as [k|]; [|done].
    exists k. split; [done|]. eapply kill_due_grows; [exact Hev|exact Hcl|by apply Hk].
Qed.

Lemma begin_shutdown_timely signal since s start :
  signal ≠ SIGKILL → guarded since s → timely start s → ∃ start', timely start' (begin_shutdown io_text history signal s).
Proof.
  intros Hsig Hg Hs. unfold begin_shutdown. destruct (Engine.shutdown (engine s)) as [d|] eqn:Hd; [by exists start|].
  exists (Some (clock s)). unfold tick. cbn [engine]. set (s0 := state (engine s) (S (clock s)) (events s)).
  destruct (signal_immediate_children _ _ _ _) as [d2 s2] eqn:H2. apply phase_after in H2 as (new & [Hc Hev Hcl] & Hn & Hdl & _).
  unfold core in Hc. cbn [s0 engine events clock] in Hc, Hev, Hcl. cbn [Shutdown.deadline] in Hdl.
  assert (Engine.term_timeout (engine s2) = timeout) as Ht by (pose proof (timely_timeout _ _ Hs); congruence).
  pose proof (guarded_shutdown _ _ Hg) as Hsent. rewrite Hd in Hsent. cbn [shutdown_sent] in Hsent.
  assert (Sent (Group child) SIGKILL ∉ events s2) as Hnk.
  { rewrite Hev. intros [?%Hsent|[[= _ ?]|?]%elem_of_cons]%elem_of_app; [done|congruence|by eapply phase_no_kill]. }
  assert (timely (Some (clock s)) (set_shutdown (Some d2) s2)) as Hend.
  { split; cbn [set_shutdown engine Engine.term_timeout Engine.shutdown events clock].
    - done.
    - cbn. by rewrite Hdl, (timely_timeout _ _ Hs).
    - intros k [= <-]. lia.
    - intros i call t. rewrite Hev. intros [Hi|[_ [?|?]%list_elem_of_lookup_2%elem_of_cons]]%lookup_app_Some;
        [|done|by exfalso; eapply phase_no_wait].
      pose proof (lookup_lt_Some _ _ _ Hi). apply (timely_waits _ _ Hs) in Hi as [Hcall Hw]. split; [lia|].
      rewrite take_app_le by lia. left. destruct Hw as [(-> & Hw & _)|(k & -> & _)]; [|by pose proof (timely_start _ _ Hs) as Hst; rewrite Hd in Hst].
      split_and!; [done|done|intros k [= <-]; done].
    - done. }
  cbn [set_shutdown engine Engine.term_timeout]. case_decide as Hz; [|done].
  apply escalate_timely; [done|]. intros k _. right; left. congruence.
Qed.

Lemma adopt_timely start s : timely start s → timely start (signal_newly_adopted_children io_text history s).
Proof.
  intros Hs. unfold signal_newly_adopted_children. destruct (Engine.shutdown (engine s)) as [d|] eqn:Hd; [|done].
  destruct (signal_immediate_children _ _ d s) as [d2 s2] eqn:H2. apply signal_immediate_after in H2 as (new & [Hc He Ht] & Hn & _ & Hdl & _).
  unfold core in Hc. eapply (timely_grows start s); [done|exact He|done| | | |].
  - intros call t. by eapply phase_no_wait.
  - cbn. congruence.
  - cbn. by rewrite Hd, Hdl.
  - intros Hin. by eapply phase_no_kill in Hin.
Qed.

Lemma poll_timeout_bound s d :
  Engine.shutdown (engine s) = Some d → Shutdown.escalated d = false →
  after s (poll_timeout_ms history s).2 [] ∧ clock (poll_timeout_ms history s).2 = S (clock s) ∧
  (0 ≤ (poll_timeout_ms history s).1 ≤ Z.of_N I32_MAX)%Z ∧
  (Z.of_N (now (clock s)) + 1000000 * (poll_timeout_ms history s).1 ≤
   Z.max (Z.of_N (now (clock s))) (Z.of_N (Shutdown.deadline d)))%Z.
Proof.
  intros Hd He. unfold poll_timeout_ms. rewrite Hd, He. pose proof (after_tick history s) as Ha. unfold tick, now in *.
  cbn [snd] in Ha. split; [by case_decide|]. split; [by case_decide|]. set (t0 := Moment.now (history (clock s))). cbn [fst].
  case_decide as Hr; cbn [fst]; [unfold I32_MAX; lia|].
  assert (1000000 * ((Shutdown.deadline d - t0) / 1000000) ≤ Shutdown.deadline d - t0)%N as Hdiv by (by apply N.Div0.mul_div_le).
  generalize dependent ((Shutdown.deadline d - t0) / 1000000)%N. intros ms Hms. assert (0 < I32_MAX)%N by (by unfold I32_MAX). split; lia.
Qed.

(** Before the wait: no time is left only when SIGKILL has been sent. *)
Lemma maybe_escalate_timely start s :
  timely start s → timely start (maybe_escalate io_text history s) ∧
  ∀ d, Engine.shutdown (engine (maybe_escalate io_text history s)) = Some d → Shutdown.escalated d = false →
    ∃ c, clock (maybe_escalate io_text history s) = S c ∧ (now c < Shutdown.deadline d)%N ∧ ∀ k, start = Some k → k < c.
Proof.
  intros Hs. unfold maybe_escalate. destruct (Engine.shutdown (engine s)) as [d|] eqn:Hd; [|split; [done|congruence]].
  destruct (Shutdown.escalated d) eqn:He; [split; [done|congruence]|]. unfold tick.
  assert (timely start (state (engine s) (S (clock s)) (events s))) as Hs0 by (by eapply timely_quiet, (after_tick history)).
  pose proof (timely_start _ _ Hs) as Hst. rewrite Hd in Hst. case_decide as Hl.
  - split.
    + apply escalate_timely; [done|]. intros k ->. left. exists (clock s). injection Hst as Hst. cbn [clock].
      pose proof (timely_called _ _ Hs k eq_refl). unfold now in *. split; [lia|]. by rewrite <- Hst.
    + intros d' Hd' He'. exfalso. revert Hd'. unfold escalate. cbn [engine]. rewrite Hd, He. cbv zeta.
      destruct (signal_immediate_children _ _ _ _) as [d2 s2] eqn:H2. apply phase_after in H2 as (_ & _ & _ & _ & H2). cbn in H2.
      cbn. congruence.
  - split; [done|]. cbn [engine]. intros d' Hd' _. rewrite Hd in Hd'. injection Hd' as <-. exists (clock s).
    split_and!; [done|unfold now; lia|]. intros k Hk. by apply (timely_called _ _ Hs).
Qed.

(** The wait of a round *)
Lemma wait_timely since start s :
  guarded since s → timely start s →
  (∀ d, Engine.shutdown (engine s) = Some d → Shutdown.escalated d = false →
     ∃ c, clock s = S c ∧ (now c < Shutdown.deadline d)%N ∧ ∀ k, start = Some k → k < c) →
  timely start (let (timeout_ms, s) := poll_timeout_ms history s in (tick history (see (Waits (clock s) timeout_ms) s)).2).
Proof.
  intros Hg Hs Hd.
  assert (∀ timeout_ms s', after s s' [] → wait_ok start (events s) (clock s') timeout_ms →
    timely start (tick history (see (Waits (clock s') timeout_ms) s')).2) as Hwait.
  { intros timeout_ms s' Ha Hw. pose proof (timely_quiet _ _ _ Hs Ha) as [H1 H2 H3 H4 H5]. destruct Ha as [_ He _].
    rewrite app_nil_r in He. split; cbn [tick see snd engine events clock]; [done|done|intros k ?%H3; lia| |].
    - intros i call t [Hi|[Hlen Hi]]%lookup_app_Some.
      + pose proof (lookup_lt_Some _ _ _ Hi). apply H4 in Hi as [? ?]. split; [lia|]. by rewrite take_app_le by lia.
      + apply list_lookup_singleton_Some in Hi as [Hi [= <- <-]]. split; [lia|]. by rewrite take_app_length', He by lia.
    - intros [Hin| [=]%list_elem_of_singleton]%elem_of_app. destruct (H5 Hin) as (k & ? & ?).
      exists k. split; [done|]. eapply (kill_due_grows k s'); [done|cbn; lia|done]. }
  pose proof (guarded_shutdown _ _ Hg) as Hsent. pose proof (timely_start _ _ Hs) as Hst. unfold poll_timeout_ms.
  destruct (Engine.shutdown (engine s)) as [d|] eqn:Hshut; [destruct (Shutdown.escalated d) eqn:He|].
  - destruct Hsent as (_ & Hkill & _). rewrite He in Hkill. apply Hwait; [apply after_refl|]. right.
    destruct start as [k|]; [|done]. exists k. split; [done|]. by left.
  - destruct Hsent as (_ & Hkill & _). rewrite He in Hkill. destruct (Hd d eq_refl He) as (c & Hc & Hn & Hk).
    destruct start as [k|]; [|done]. injection Hst as Hst.
    destruct (poll_timeout_bound s d Hshut He) as (Ha & Hcl & Hb1 & Hb2). rewrite Hc in Hcl, Hb2. rewrite Hst in Hn, Hb2.
    unfold poll_timeout_ms in *. rewrite Hshut, He in *. destruct (tick history s) as [m s0].
    destruct (if decide _ then _ else _) as [t s']. cbn [fst snd] in *. apply Hwait; [done|]. right. exists k. split; [done|]. right.
    split; [done|]. exists c. rewrite Hcl. split_and!; [done|by apply Hk|done|lia|lia|done].
  - apply Hwait; [apply after_refl|]. left. split_and!; [done|done|]. by destruct start.
Qed.

(** Handling what a wait has shown *)
Definition timed (s : State) : Prop := ∃ start, timely start s.

Lemma timed_after s s' new : timed s → after s s' new → (∀ call t, Waits call t ∉ new) → Sent (Group child) SIGKILL ∉ new → timed s'.
Proof. intros [start Hs] ???. exists start. by eapply timely_after. Qed.
Lemma timed_fields s s' :
  timed s → events s' = events s → clock s' = clock s → Engine.term_timeout (engine s') = Engine.term_timeout (engine s) →
  Engine.shutdown (engine s') = Engine.shutdown (engine s) → timed s'.
Proof.
  intros [start Hs] He Hc Ht Hd. exists start. eapply (timely_grows start s s' []); [done|by rewrite He, app_nil_r|lia|set_solver|done|by rewrite Hd|set_solver].
Qed.
Lemma begin_shutdown_timed signal since s :
  signal ≠ SIGKILL → guarded since s → timed s → timed (begin_shutdown io_text history signal s).
Proof. intros ? ? [start ?]. by eapply begin_shutdown_timely. Qed.

Lemma handle_signal_timed signal since s : guarded since s → timed s → timed (handle_signal io_text history s signal).
Proof.
  intros Hg [start Hs].
  assert (timely start (see (Handled signal) s)) as Hs0.
  { eapply (timely_grows start s _ [Handled signal]); [done|done|done|set_solver|done|done|set_solver]. }
  pose proof (guarded_shutdown _ _ Hg) as Hsent. pose proof (see_guarded (Handled signal) _ _ I Hg) as Hg0.
  unfold handle_signal. cbv zeta. case_decide; [by exists start|]. case_decide as Ht.
  - change (Engine.shutdown (engine (see (Handled signal) s))) with (Engine.shutdown (engine s)).
    destruct (Engine.shutdown (engine s)) as [d|].
    + destruct (Shutdown.escalated d); [by exists start|]. exists start. apply escalate_timely; [done|]. intros k _. right; right.
      exists (length (events s)), signal. cbn [see events]. rewrite list_lookup_middle, take_app_length by done.
      split_and!; [done|done|]. intros Hn. destruct Hsent as [Hsent _]. by apply Hn in Hsent.
    + eapply begin_shutdown_timed; [|done|by exists start]. by destruct Ht as [->|[->|[->| ->]]].
  - eapply begin_shutdown_timed; [done|by apply failure_guarded|].
    eapply timed_after; [by exists start|apply after_failure|set_solver|set_solver].
Qed.

Lemma handle_signals_timed since s : guarded since s → timed s → timed (handle_signals io_text history s).2.
Proof.
  intros Hg Hs. unfold handle_signals. apply tick_guarded in Hg.
  assert (timed (tick history s).2) as Hs0 by (eapply timed_after; [done|apply after_tick|set_solver|set_solver]).
  destruct (tick history s) as [m s0]. cbn [snd] in *. destruct (Moment.read_pending m) as [e|signals]; [done|]. cbn [snd].
  clear Hs. revert s0 Hg Hs0. induction signals as [|signal signals IH]; intros s0 Hg Hs0; [done|].
  apply IH; [by apply handle_signal_guarded|by eapply handle_signal_timed].
Qed.

Lemma handle_liveness_timed revents since s : guarded since s → timed s → timed (handle_liveness io_text history revents s).
Proof.
  assert (∀ f s', guarded since s' → timed s' → timed (begin_shutdown io_text history SIGTERM (take_liveness (record_failure f s')))) as Hfail.
  { intros f s' Hg Hs. eapply begin_shutdown_timed; [done|by apply liveness_guarded, failure_guarded|].
    eapply (timed_fields (record_failure f s')); try done. eapply timed_after; [done|apply after_failure|set_solver|set_solver]. }
  intros Hg Hs. unfold handle_liveness. case_decide; [by apply Hfail|]. case_decide; [|done].
  assert (timed (tick history s).2) as Hs0 by (eapply timed_after; [done|apply after_tick|set_solver|set_solver]).
  apply tick_guarded in Hg. destruct (tick history s) as [m s0]. cbn [snd] in *.
  destruct (Moment.read_liveness m) as [e|[]]; [by apply Hfail| |done].
  eapply begin_shutdown_timed; [done|by apply liveness_guarded|by eapply (timed_fields s0)].
Qed.

Lemma handle_events_timed polled l p since s : guarded since s → timed s → timed (handle_events io_text history polled l p s).2.
Proof.
  intros Hg Hs. unfold handle_events.
  pose proof (handle_signals_guarded _ _ Hg) as Hg'. pose proof (handle_signals_timed _ _ Hg Hs) as Hs'.
  assert (∀ s1, guarded since s1 → timed s1 →
    timed (let s := if l then handle_liveness io_text history (Polled.liveness polled) s1 else s1 in
           if decide (p = true ∧ has_bits (Polled.pidfd polled) (N.lor READY POLLNVAL)) then take_pidfd s else s)) as Hrest.
  { intros s1 Hg1 Hs1. cbv zeta.
    assert (timed (if l then handle_liveness io_text history (Polled.liveness polled) s1 else s1)) as Hl
      by (destruct l; [by eapply handle_liveness_timed|done]).
    case_decide; [|done]. by eapply timed_fields. }
  destruct (decide (has_bits (Polled.signal_fd polled) READY)); [|by apply Hrest]. destruct (handle_signals io_text history s) as [[[]|e|] s1]; [by apply Hrest|done..].
Qed.

Lemma reap_all_timed fuel s r s' : timed s → reap_all hex history fuel s = Some (r, s') → timed s'.
Proof.
  revert s. induction fuel as [|fuel IH]; intros s Hs; [done|]. cbn [reap_all].
  assert (timed (tick history s).2) as Hs0 by (eapply timed_after; [done|apply after_tick|set_solver|set_solver]).
  destruct (tick history s) as [m s0]. cbn [snd] in Hs0.
  assert (∀ e, (∀ target signal, e ≠ Sent target signal) → (∀ call t, e ≠ Waits call t) → timed (see e s0)) as Hsee.
  { intros e H1 H2. apply (timed_after s0 _ [e]); [done|by split|..]; set_solver. }
  destruct (Moment.reap_one m) as [e|[pid status| |]]; [by intros [= <- <-]| |by intros [= <- <-]|intros [= <- <-]; by apply Hsee].
  specialize (Hsee (Reaped pid status)). case_decide; [|by apply IH, Hsee].
  destruct (ChildOutcome.from_wait_status hex status) as [o|e|]; [|intros [= <- <-]; by apply Hsee..].
  apply IH. eapply timed_fields; [by apply Hsee|done..].
Qed.

(** ** The rounds *)
Definition round_state (step : Round) : State := match step with Continue s => s | Return _ s => s end.

Lemma round_timed fuel since s step :
  guarded since s → timed s → round io_text hex history fuel s = Some step → timed (round_state step).
Proof.
  intros Hg Hs. unfold round. destruct (reap_all hex history fuel s) as [[reaped s1]|] eqn:Hr; [|done]. cbn [mbind option_bind].
  pose proof (reap_all_timed _ _ _ _ Hs Hr) as Hs1. apply (reap_all_guarded fuel since) in Hr as (Hg1 & _); [|done].
  destruct reaped as [no_children|e|]; [|by intros [= <-]..]. cbv zeta.
  set (s2 := match Engine.direct_outcome (engine s1), Engine.shutdown (engine s1) with
             | Some _, None => if no_children then s1 else begin_shutdown io_text history SIGTERM s1 | _, _ => s1 end).
  assert (guarded (S since) s2 ∧ timed s2) as [Hg2 Hs2].
  { unfold s2. destruct (Engine.direct_outcome (engine s1)), (Engine.shutdown (engine s1)), no_children; try done.
    split; [by apply begin_shutdown_guarded|by eapply begin_shutdown_timed]. }
  destruct no_children.
  { destruct (Engine.direct_outcome (engine s2)); [|by intros [= <-]].
    destruct (Engine.infrastructure_failure (engine s2)); intros [= <-]; [by eapply timed_fields|done]. }
  destruct Hs2 as [start Hs2%adopt_timely]. apply adopt_guarded, maybe_escalate_guarded in Hg2.
  destruct (maybe_escalate_timely _ _ Hs2) as [Hs3 Hd]. pose proof (wait_timely _ _ _ Hg2 Hs3 Hd) as Hs4.
  apply poll_timeout_guarded in Hg2. clearbody s2.
  destruct (poll_timeout_ms history _) as [timeout_ms s4]. cbn [snd] in Hg2.
  apply (see_guarded (Waits (clock s4) timeout_ms)), tick_guarded in Hg2; [|done].
  destruct (tick history (see _ s4)) as [m s5]. cbn [snd] in Hg2, Hs4.
  assert (timed s5) as Hs5 by (by exists start).
  assert (∀ l p polled, timed (round_state match handle_events io_text history polled l p s5 with
    | (Ok (), s) => Continue s | (Err e, s) => Return (Err e) s | (Panic, s) => Return Panic s end)) as Hend.
  { intros l p polled. pose proof (handle_events_timed polled l p _ _ Hg2 Hs5) as H.
    by destruct (handle_events io_text history polled l p s5) as [[[]|e|] s6]. }
  destruct (Engine.direct_outcome (engine s2)); intros [= <-]; destruct (Moment.poll m) as [e|polled]; done || apply Hend.
Qed.
End deadline.

(** A state at the head of the loop after some rounds *)
Inductive reached (s0 : State) : State → Prop :=
| reached_start : reached s0 s0
| reached_round fuel s s' : reached s0 s → round io_text hex history fuel s = Some (Continue s') → reached s0 s'.

Lemma started_timely pidfd liveness term_timeout : timely term_timeout None (started pidfd liveness term_timeout).
Proof. split; [done|done|done|set_solver|set_solver]. Qed.

Lemma reached_timed pidfd liveness term_timeout s :
  reached (started pidfd liveness term_timeout) s → guarded 0 s ∧ timed term_timeout s.
Proof.
  induction 1 as [|fuel s s' _ [Hg Hs] Hr]; [split; [apply started_guarded|eexists; apply started_timely]|].
  split; [by apply (round_guarded _ 0), guarded_weaken in Hr|by eapply (round_timed _ _ 0) in Hr].
Qed.

Lemma run_rounds fuel s r s' :
  run io_text hex history fuel s = Some (r, s') → ∃ fuel' s1, reached s s1 ∧ round io_text hex history fuel' s1 = Some (Return r s').
Proof.
  assert (∀ s0, reached s s0 → run io_text hex history fuel s0 = Some (r, s') →
    ∃ fuel' s1, reached s s1 ∧ round io_text hex history fuel' s1 = Some (Return r s')) as H; [|apply H, reached_start].
  induction fuel as [|fuel IH]; intros s0 H0; [done|]. cbn [run].
  destruct (round io_text hex history (S fuel) s0) as [[s1|r1 s1]|] eqn:Hr; [|intros [= <- <-]; eauto|done].
  apply IH. by eapply reached_round.
Qed.
End invariant.

(** ** The options *)
Lemma check_fd_ok fd_is_open seen entry seen' :
  check_fd fd_is_open seen entry = Ok seen' ↔
    (3 ≤ entry.2)%Z ∧ (entry.2 ∉ seen) ∧ fd_is_open entry.2 = None ∧ seen' = {[entry.2]} ∪ seen.
Proof. destruct entry as [role fd]. unfold check_fd. cbn [snd]. repeat case_decide; [naive_solver lia|naive_solver|]. destruct (fd_is_open fd); naive_solver lia. Qed.

Lemma check_fds_ok fd_is_open entries seen :
  (∃ seen', fold_result (check_fd fd_is_open) seen entries = Ok seen') ↔
    NoDup (entries.*2) ∧ (∀ fd, fd ∈ entries.*2 → (3 ≤ fd)%Z ∧ (fd ∉ seen) ∧ fd_is_open fd = None).
Proof.
  revert seen. induction entries as [|entry entries IH]; intros seen; cbn [fold_result fmap list_fmap].
  { split; [intros _; split; [constructor|set_solver]|by eexists]. }
  setoid_rewrite bind_ok. setoid_rewrite check_fd_ok. rewrite NoDup_cons. setoid_rewrite elem_of_cons. split.
  - intros (seen' & seen1 & (H1 & H2 & H3 & ->) & H4). destruct (proj1 (IH _) (ex_intro _ _ H4)) as (H5 & H6).
    split_and!; [intros Hin; destruct (H6 _ Hin); set_solver|done|]. intros fd [->|Hin]; [done|]. destruct (H6 _ Hin) as (? & ? & ?). set_solver.
  - intros ((H1 & H2) & H3). destruct (H3 entry.2) as (H4 & H5 & H6); [by left|].
    destruct (proj2 (IH ({[entry.2]} ∪ seen))) as [seen' H7]; [|by exists seen', ({[entry.2]} ∪ seen)].
    split; [done|]. intros fd Hin. destruct (H3 fd) as (? & ? & ?); [by right|]. split_and!; [done|set_solver|done].
Qed.

Lemma roles_fds options :
  (roles options).*2 = option_list (GuardOptions.liveness_fd options) ++ option_list (GuardOptions.lease_fd options) ++ GuardOptions.inherited_fds options.
Proof. unfold roles. rewrite !fmap_app, <- !list_fmap_compose. by rewrite !list_fmap_id. Qed.

(** The options that are accepted name a program, a timeout of at most ten minutes, and open descriptors from 3
    on of which no two are the same, whatever their roles. *)
Theorem guard_options_exact fd_is_open options :
  validate_options fd_is_open options = Ok () ↔
    (0 < GuardOptions.supervisor_pid options)%Z ∧
    (∃ program arguments, GuardOptions.command options = program :: arguments ∧ program ≠ []) ∧
    (GuardOptions.term_timeout options ≤ MAX_TERM_TIMEOUT)%N ∧
    NoDup (option_list (GuardOptions.liveness_fd options) ++ option_list (GuardOptions.lease_fd options) ++ GuardOptions.inherited_fds options) ∧
    ∀ fd, fd ∈ option_list (GuardOptions.liveness_fd options) ++ option_list (GuardOptions.lease_fd options) ++ GuardOptions.inherited_fds options →
      (3 ≤ fd)%Z ∧ fd_is_open fd = None.
Proof.
  unfold validate_options, validate_supervisor_pid. rewrite bind_unit_ok, !guard_ok, bind_ok.
  pose proof (check_fds_ok fd_is_open (roles options) ∅) as Hf. rewrite roles_fds in Hf. split.
  - intros ((H1 & _) & H2 & H3 & seen & Hseen & _). destruct (proj1 Hf (ex_intro _ _ Hseen)) as (H4 & H5).
    split_and!; [lia| |lia|done|intros fd Hin; by destruct (H5 fd Hin) as (? & _ & ?)].
    destruct (GuardOptions.command options) as [|program arguments]; [by exfalso; apply H2; left|].
    exists program, arguments. split; [done|]. intros ->. apply H2. by right.
  - intros (H1 & (program & arguments & -> & Hp) & H3 & H4 & H5). split_and!; [lia|done| |lia|].
    + intros [?|[= ?]]; done.
    + destruct (proj2 Hf) as [seen Hseen]; [|by exists seen]. split; [done|]. intros fd Hin. destruct (H5 fd Hin). set_solver.
Qed.

(** C17: a guard that is started over a child supervises it to the end.  When it returns an outcome, that is
    the outcome of the wait status with which the direct child was reaped, and the kernel has said that no child
    is left; when it returns an error, the process group of the child has been sent SIGKILL, and either no child
    is left or the error says that the cleanup failed too.  Whatever it returns, every process that was ever
    listed as a child of the guard has been sent a signal, and the group of the network helper SIGTERM. *)
Theorem guard_supervises io_text hex history error_text fuel child network pidfd liveness term_timeout r s :
  supervise io_text hex history error_text fuel (started child network pidfd liveness term_timeout) = Some (r, s) →
  supervised hex child error_text r (events s) ∧
  (∀ l p, Listed l ∈ events s → p ∈ l → ∃ signal, Sent (Process p) signal ∈ events s) ∧
  ∀ helper, network = Some helper → Sent (Group helper) SIGTERM ∈ events s.
Proof. apply supervise_parts. Qed.

(** C18: a guard returns.  Whatever the calls answer before, and in whatever order signals, exits of children and
    the end of the liveness pipe arrive: when from some call on the kernel says that there is no child, the guard
    returns with fuel for that many calls, and never with a panic. *)
Theorem guard_returns io_text hex history error_text child network pidfd liveness term_timeout T fuel :
  (∀ k, T ≤ k →
     Moment.reap_one (history k) = inr ReapedChild.NoChildren ∧ Moment.reap_blocking (history k) = inr false ∧
     Moment.reap_specific (history k) = inr true) →
  T < fuel →
  ∃ r s, supervise io_text hex history error_text fuel (started child network pidfd liveness term_timeout) = Some (r, s) ∧ r ≠ Panic.
Proof.
  intros Hgone Hf. destruct (supervise_returns io_text hex history child network error_text T fuel pidfd liveness term_timeout Hgone Hf) as [[r s] Hs].
  exists r, s. split; [done|]. apply supervise_parts in Hs as (Hr & _). by intros ->.
Qed.

(** C19: the deadline of a shutdown is kept, in every round the guard ever makes and so in every run that
    returns.  The deadline is the configured time after the call at which the shutdown started.  The guard waits
    without a limit only while it has sent no signal, or when it has sent SIGKILL to the process group of the
    child; during a shutdown in which SIGKILL has not been sent, it begins to wait only when it has read a time
    before the deadline, and for a time that does not reach past the deadline, which is zero
    when the deadline passes meanwhile.  The group is sent SIGKILL only
    when the deadline has passed, when the configured time is zero, or when a termination signal was read after
    the shutdown had sent its first signal. *)
Theorem guard_deadline_kept io_text hex history child network pidfd liveness term_timeout :
  (∀ s fuel step, reached io_text hex history (started child network pidfd liveness term_timeout) s →
     round io_text hex history fuel s = Some step →
     ∃ start, timely history child term_timeout start (round_state step)) ∧
  ∀ fuel r s, run io_text hex history fuel (started child network pidfd liveness term_timeout) = Some (r, s) →
    ∃ start, timely history child term_timeout start s.
Proof.
  assert (∀ s fuel step, reached io_text hex history (started child network pidfd liveness term_timeout) s →
    round io_text hex history fuel s = Some step → ∃ start, timely history child term_timeout start (round_state step)) as H.
  { intros s fuel step [Hg Hs]%reached_timed Hr. by eapply round_timed. }
  split; [exact H|]. intros fuel r s (fuel' & s1 & H1 & H2)%run_rounds. exact (H _ _ _ H1 H2).
Qed.

(** ** A guard of a small tree *)
Module SampleGuard.

(** The direct child 7 exits with 3, its descendant 9 is adopted, told to stop, and killed at the deadline. *)
Definition history (k : nat) : Moment.t :=
  Moment.mk (N.of_nat k * 1000000000)
    (inr (if decide (k = 0) then ReapedChild.Exited 7 768 else
          if decide (k < 24) then ReapedChild.NoExitedChild else
          if decide (k = 24) then ReapedChild.Exited 9 9 else ReapedChild.NoChildren))
    (inr false) (inr true) (inr (bs "9 ")) None (inr (Polled.mk 0 0 0)) (inr []) (inr false).

Definition guard : State := started 7 (Some 9%Z) true true 10000000000.

Lemma guard_gone k : 25 ≤ k →
  Moment.reap_one (history k) = inr ReapedChild.NoChildren ∧ Moment.reap_blocking (history k) = inr false ∧
  Moment.reap_specific (history k) = inr true.
Proof.
  intros Hk. unfold history. cbn [Moment.reap_one Moment.reap_blocking Moment.reap_specific].
  by rewrite !decide_False by lia.
Qed.

(** The child that exited with 3 is reported, after its descendant was killed. *)
Lemma guard_supervises_witness :
  ∃ s, supervise (λ _, []) (λ _, []) history (GuardError.to_string (λ _, []) id) 26 guard = Some (Ok (ChildOutcome.Exited 3), s) ∧
    supervised (λ _, []) 7 (GuardError.to_string (λ _, []) id) (Ok (ChildOutcome.Exited 3)) (events s) ∧
    Sent (Process 9) SIGKILL ∈ events s ∧ Sent (Group 9) SIGTERM ∈ events s.
Proof.
  destruct (supervise (λ _, []) (λ _, []) history (GuardError.to_string (λ _, []) id) 26 guard) as [[r s]|] eqn:Hs; [|by vm_compute in Hs].
  assert (r = Ok (ChildOutcome.Exited 3)) as -> by (vm_compute in Hs; by injection Hs).
  destruct (guard_supervises _ _ _ _ _ _ _ _ _ _ _ _ Hs) as (H1 & H2 & H3).
  exists s. split; [done|]. split; [done|]. split; [|by apply H3].
  clear H1 H2 H3. vm_compute in Hs. injection Hs as <-. cbn [events].
  repeat (apply elem_of_cons; first [left; reflexivity|right]).
Defined.

Lemma guard_returns_witness :
  ∃ r s, supervise (λ _, []) (λ _, []) history (GuardError.to_string (λ _, []) id) 26 guard = Some (r, s) ∧ r ≠ Panic.
Proof. apply (guard_returns _ _ _ _ _ _ _ _ _ 25); [exact guard_gone|lia]. Defined.

(** A wait of four seconds before the deadline, and the group killed after it *)
Lemma guard_deadline_kept_witness :
  ∃ s start, run (λ _, []) (λ _, []) history 26 guard = Some (Ok (ChildOutcome.Exited 3), s) ∧
    timely history 7 10000000000 start s ∧ Waits 9 4000 ∈ events s ∧ Sent (Group 7) SIGKILL ∈ events s.
Proof.
  destruct (run (λ _, []) (λ _, []) history 26 guard) as [[r s]|] eqn:Hs; [|by vm_compute in Hs].
  assert (r = Ok (ChildOutcome.Exited 3)) as -> by (vm_compute in Hs; by injection Hs).
  destruct (guard_deadline_kept (λ _, []) (λ _, []) history 7 (Some 9%Z) true true 10000000000) as [_ H].
  destruct (H 26 _ _ Hs) as [start Ht]. exists s, start. split; [done|]. split; [done|].
  clear H Ht. vm_compute in Hs. injection Hs as <-. cbn [events].
  split; repeat (apply elem_of_cons; first [left; reflexivity|right]).
Defined.
End SampleGuard.
