(* ===== verification/ManifestTree.v ===== *)
(** * The metadata manifest of a file system: crates/pocket-builder-init/src/manifest.rs
    and crates/pocket-validator-init/src/manifest.rs

    Two guests walk the same file system with code of their own.  The builder streams the
    canonical entries to the host in chunks; the validator, which mounts the finished image
    again, only hashes them.  What the kernel answers about the mounted file system is a
    [Tree.t]: nothing writes to it while it is walked, but the order in which a directory
    or the attributes of a file are listed, the pieces in which a file is read and the
    numbers of inodes are the kernel's. *)

From stdpp Require Import gmap.
From S2P Require Import Prelude RustStr ByteOrder ErrorCode ManagedPath ProtocolError Payload Sha256 BuilderManifest BuilderMessage GuestErrors.

#[local] Arguments bs : simpl never.

Module FileType.
Inductive t : Set := File | Dir | Symlink | CharDevice | BlockDevice | Fifo | Socket | Other.
#[global] Instance eq_dec : EqDecision t.
Proof. solve_decision. Defined.
End FileType.

Module NodeMetadata.
Record t : Set := mk {
  file_type : FileType.t;
  dev : N;
  ino : N;
  nlink : N;
  mode : N;
  uid : N;
  gid : N;
  size : N;
  rdev : N;
  mtime : Z;
  mtime_nsec : Z;
}.
End NodeMetadata.

(** What the calls answer: [lstat], [readdir], [readlink], the reads of an opened file up to
    its end, the sizes and values of [llistxattr] and [lgetxattr]; [last_os_error] where the
    code reports it although the call did not fail *)
Module Tree.
Record t : Type := mk {
  symlink_metadata : bytes → io_error + NodeMetadata.t;
  read_dir : bytes → io_error + list (io_error + bytes);
  read_link : bytes → io_error + bytes;
  open : bytes → io_error + list (io_error + bytes);
  xattr_names_size : bytes → io_error + N;
  xattr_names : bytes → io_error + bytes;
  xattr_value_size : bytes → bytes → io_error + N;
  xattr_value : bytes → bytes → io_error + bytes;
  last_os_error : io_error;
}.
End Tree.

(** [u32::try_from] of an [i64] *)
Definition u32_of (z : Z) : option N := if decide (0 ≤ z < 2 ^ 32)%Z then Some (Z.to_N z) else None.

(** [if !child_relative.is_empty() { child_relative.push(b'/') }; child_relative.extend_from_slice(..)] *)
Definition child_relative (relative name : bytes) : bytes :=
  match relative with [] => name | _ => relative ++ [x2f] ++ name end.

Definition path_from_relative (root relative : bytes) : bytes :=
  match relative with [] => root | _ => path_join root relative end.

(** The number of a kind of file *)
Definition kind_of (file_type : FileType.t) : option N :=
  match file_type with
  | FileType.File => Some 1
  | FileType.Dir => Some 2
  | FileType.Symlink => Some 3
  | FileType.CharDevice => Some 4
  | FileType.BlockDevice => Some 5
  | FileType.Fifo => Some 6
  | FileType.Socket => Some 7
  | FileType.Other => None
  end%N.

Definition is_device (file_type : FileType.t) : Prop := file_type = FileType.CharDevice ∨ file_type = FileType.BlockDevice.
#[export] Instance is_device_dec file_type : Decision (is_device file_type).
Proof. unfold is_device. apply _. Defined.

(** [bytes.is_empty() || bytes.contains(&0) || matches!(bytes, b"." | b"..")] *)
Definition invalid_name (name : bytes) : Prop := name = [] ∨ x00 ∈ name ∨ name = bs "." ∨ name = bs "..".
#[export] Instance invalid_name_dec name : Decision (invalid_name name).
Proof. unfold invalid_name. apply _. Defined.

(** ** The builder *)
Module BuilderWalk.
Abbreviation bresult := (result BuilderError.t).
Definition manifest_error {A} (diagnostic : bytes) : bresult A := Err (BuilderError.Manifest "manifest" diagnostic).
Definition manifest_io {A} (r : io_error + A) : bresult A :=
  match r with inl e => Err (BuilderError.Io "manifest" e) | inr a => Ok a end.
Definition manifest_protocol {A} (r : result ProtocolError A) : bresult A := map_err (BuilderError.Protocol "manifest") r.

Section walk.
Context {sha : Sha2} {codec : Cbor ManifestEntry.t} {E : Type} (emit : E → BuilderMessage.t → bresult E) (tree : Tree.t).

Record Walker : Type := walker {
  root : bytes;
  limits : ManifestLimits.t;
  stream_id : bytes;
  emitter : E;
  hardlinks : gmap (N * N) bytes;
  hardlink_path_bytes : N;
  chunk : bytes;
  chunk_entries : N;
  chunk_first_entry : N;
  chunk_sequence : N;
  entry_count : N;
  byte_count : N;
  manifest_hasher : hasher;
}.

(** [self.hardlink_path_bytes = ..; self.hardlinks.insert(..)] *)
Definition set_hardlinks (links : gmap (N * N) bytes) (path_bytes : N) (self : Walker) : Walker :=
  walker (root self) (limits self) (stream_id self) (emitter self) links path_bytes (chunk self) (chunk_entries self)
    (chunk_first_entry self) (chunk_sequence self) (entry_count self) (byte_count self) (manifest_hasher self).

(** The loop that reads a file; a read of no bytes is the end *)
Fixpoint hash_loop (h : hasher) (reads : list (io_error + bytes)) : bresult hasher :=
  match reads with
  | [] | inr [] :: _ => Ok h
  | inl e :: _ => Err (BuilderError.Io "manifest" e)
  | inr piece :: reads => hash_loop (hasher_update h piece) reads
  end.

Definition hash_regular_file (path : bytes) : bresult bytes :=
  reads ← manifest_io (Tree.open tree path);
  h ← hash_loop hasher_new reads;
  Ok (hasher_finalize h).

(** One round of the loop over the names of attributes *)
Definition read_xattr (limits : ManifestLimits.t) (path : bytes) (acc : list ManifestXattr.t * N) (name : bytes) :
    bresult (list ManifestXattr.t * N) :=
  let '(attributes, total) := acc in
  if decide (name = []) then manifest_error (bs "xattr list contains an empty name") else
  if decide (ManifestLimits.max_xattrs_per_entry limits ≤ len attributes)%N
  then manifest_error (bs "xattr count exceeds negotiated limit") else
  if decide (x00 ∈ name) then manifest_error (bs "xattr name contains NUL") else
  value_len ← manifest_io (Tree.xattr_value_size tree path name);
  total ← ok_or (checked_add total (len name) ≫= λ value, checked_add value value_len)
            (BuilderError.Manifest "manifest" (bs "xattr byte-count overflow"));
  if decide (ManifestLimits.max_xattr_bytes_per_entry limits < total)%N
  then manifest_error (bs "xattr bytes exceed negotiated limit") else
  value ← manifest_io (Tree.xattr_value tree path name);
  if decide (len value ≠ value_len) then Err (BuilderError.Io "manifest" (Tree.last_os_error tree)) else
  Ok (attributes ++ [ManifestXattr.manifest_xattr name value], total).

Definition list_xattrs (path : bytes) (limits : ManifestLimits.t) : bresult (list ManifestXattr.t) :=
  if decide (x00 ∈ path) then manifest_error (bs "filesystem path contains NUL") else
  name_bytes ← manifest_io (Tree.xattr_names_size tree path);
  let maximum_names := N.min (saturating_mul (ManifestLimits.max_xattrs_per_entry limits) 256)
                             (ManifestLimits.max_xattr_bytes_per_entry limits) in
  if decide (maximum_names < name_bytes)%N then manifest_error (bs "xattr names exceed negotiated limit") else
  if decide (name_bytes = 0%N) then Ok [] else
  names ← manifest_io (Tree.xattr_names tree path);
  if decide (len names ≠ name_bytes ∨ last names ≠ Some x00)
  then manifest_error (bs "xattr-name list changed or is malformed") else
  '(attributes, _) ← fold_result (read_xattr limits path) ([], 0%N) (split x00 (removelast names));
  Ok (sort_by ManifestXattr.name attributes).

(** The digest of a regular file, or the path it is another link of *)
Definition file_evidence (self : Walker) (path relative : bytes) (metadata : NodeMetadata.t) :
    bresult (option bytes * option bytes * Walker) :=
  if decide (NodeMetadata.file_type metadata = FileType.File) then
    let key := (NodeMetadata.dev metadata, NodeMetadata.ino metadata) in
    if decide (1 < NodeMetadata.nlink metadata)%N then
      match hardlinks self !! key with
      | Some first_path => Ok (None, Some first_path, self)
      | None =>
          if decide (ManifestLimits.max_hardlink_groups (limits self) ≤ N.of_nat (size (hardlinks self)))%N
          then manifest_error (bs "hardlink groups exceed negotiated limit") else
          path_bytes ← ok_or (checked_add (hardlink_path_bytes self) (len relative))
                         (BuilderError.Manifest "manifest" (bs "hardlink path byte count overflow"));
          if decide (ManifestLimits.max_hardlink_path_bytes (limits self) < path_bytes)%N
          then manifest_error (bs "hardlink paths exceed negotiated memory bound") else
          let self := set_hardlinks (<[key := relative]> (hardlinks self)) path_bytes self in
          digest ← hash_regular_file path;
          Ok (Some digest, None, self)
      end
    else
      digest ← hash_regular_file path;
      Ok (Some digest, None, self)
  else Ok (None, None, self).

Definition make_entry (self : Walker) (path relative : bytes) (metadata : NodeMetadata.t) : bresult (ManifestEntry.t * Walker) :=
  let file_type := NodeMetadata.file_type metadata in
  match kind_of file_type with
  | None => manifest_error (bs "filesystem entry has an unknown type")
  | Some kind =>
      symlink_target ← (if decide (file_type = FileType.Symlink)
                        then target ← manifest_io (Tree.read_link tree path); Ok (Some target) else Ok None);
      '(content_sha256, hardlink_target, self) ← file_evidence self path relative metadata;
      mtime_nanoseconds ← ok_or (u32_of (NodeMetadata.mtime_nsec metadata))
                            (BuilderError.Manifest "manifest" (bs "negative or oversized mtime nanoseconds"));
      xattrs ← list_xattrs path (limits self);
      let entry := ManifestEntry.manifest_entry relative kind (N.land (NodeMetadata.mode metadata) 4095)
        (NodeMetadata.uid metadata) (NodeMetadata.gid metadata) (NodeMetadata.size metadata)
        (if decide (is_device file_type) then NodeMetadata.rdev metadata else 0%N)
        (NodeMetadata.mtime metadata) mtime_nanoseconds symlink_target content_sha256 hardlink_target xattrs in
      manifest_protocol (validate entry);;
      Ok (entry, self)
  end.

Definition flush_chunk (self : Walker) : bresult Walker :=
  if decide (chunk self = []) then Ok self else
  let bytes := chunk self in
  byte_count ← ok_or (checked_add (byte_count self) (len bytes))
                 (BuilderError.Manifest "manifest" (bs "manifest byte-count overflow"));
  if decide (ManifestLimits.max_total_bytes (limits self) < byte_count)%N
  then manifest_error (bs "manifest bytes exceed negotiated limit") else
  let hash := hasher_update (manifest_hasher self) bytes in
  emitter ← emit (emitter self) (BuilderMessage.ManifestChunk
    (ManifestChunk.manifest_chunk (stream_id self) (chunk_sequence self) (chunk_first_entry self) (chunk_entries self) bytes));
  chunk_sequence ← ok_or (checked_add (chunk_sequence self) 1)
                     (BuilderError.Manifest "manifest" (bs "chunk sequence overflow"));
  Ok (walker (root self) (limits self) (stream_id self) emitter (hardlinks self) (hardlink_path_bytes self) [] 0
        (chunk_first_entry self) chunk_sequence (entry_count self) byte_count hash).

(** The rest of [push_entry], after a full chunk was flushed *)
Definition add_to_chunk (self : Walker) (encoded : bytes) (framed_len : N) : bresult Walker :=
  if decide (ManifestLimits.max_chunk_bytes (limits self) < framed_len)%N
  then manifest_error (bs "entry cannot fit in one negotiated chunk") else
  let first_entry := if decide (chunk self = []) then entry_count self else chunk_first_entry self in
  if decide (u32_bound ≤ len encoded)%N then manifest_error (bs "entry length does not fit protocol field") else
  chunk_entries ← ok_or (if decide (chunk_entries self + 1 < u32_bound)%N then Some (chunk_entries self + 1)%N else None)
                    (BuilderError.Manifest "manifest" (bs "chunk entry-count overflow"));
  count ← ok_or (checked_add (entry_count self) 1) (BuilderError.Manifest "manifest" (bs "manifest entry-count overflow"));
  Ok (walker (root self) (limits self) (stream_id self) (emitter self) (hardlinks self) (hardlink_path_bytes self)
        (chunk self ++ to_be 4 (len encoded) ++ encoded) chunk_entries first_entry (chunk_sequence self) count
        (byte_count self) (manifest_hasher self)).

Definition push_entry (self : Walker) (entry : ManifestEntry.t) : bresult Walker :=
  if decide (ManifestLimits.max_entries (limits self) ≤ entry_count self)%N
  then manifest_error (bs "entry count exceeds negotiated limit") else
  encoded ← manifest_protocol (encode_payload entry);
  if decide (encoded = [] ∨ (ManifestLimits.max_entry_bytes (limits self) < len encoded)%N)
  then manifest_error (bs "canonical entry exceeds negotiated limit") else
  framed_len ← ok_or (checked_add (len encoded) 4)
                 (BuilderError.Manifest "manifest" (bs "length-prefixed entry size overflow"));
  self ← (if decide (chunk self ≠ [] ∧ (ManifestLimits.max_chunk_bytes (limits self) < saturating_add (len (chunk self)) framed_len)%N)
          then flush_chunk self else Ok self);
  add_to_chunk self encoded framed_len.

(** One round of the loop over a directory *)
Definition read_child (self : Walker) (acc : list bytes * N) (child : io_error + bytes) : bresult (list bytes * N) :=
  let '(children, child_name_bytes) := acc in
  name ← manifest_io child;
  if decide (invalid_name name) then manifest_error (bs "directory contains an invalid name") else
  child_name_bytes ← ok_or (checked_add child_name_bytes (len name))
                       (BuilderError.Manifest "manifest" (bs "directory-name byte count overflow"));
  if decide (ManifestLimits.max_directory_name_bytes (limits self) < child_name_bytes)%N
  then manifest_error (bs "directory names exceed negotiated memory bound") else
  let children := children ++ [name] in
  if decide (ManifestLimits.max_directory_entries (limits self) < len children)%N
  then manifest_error (bs "one directory exceeds negotiated entry bound") else
  if decide (ManifestLimits.max_entries (limits self) < saturating_add (entry_count self) (len children))%N
  then manifest_error (bs "directory entries exceed negotiated total") else
  Ok (children, child_name_bytes).

(** A level per directory; [visit_returns] shows that the depth limit is fuel enough. *)
Fixpoint visit (fuel : nat) (self : Walker) (relative : bytes) (depth : N) : bresult Walker :=
  match fuel with
  | O => Panic
  | S fuel =>
      if decide (ManifestLimits.max_depth (limits self) < depth)%N
      then manifest_error (bs "directory depth exceeds negotiated limit") else
      if decide (ManifestLimits.max_path_bytes (limits self) < len relative)%N
      then manifest_error (bs "path exceeds negotiated limit") else
      let path := path_from_relative (root self) relative in
      metadata ← manifest_io (Tree.symlink_metadata tree path);
      '(entry, self) ← make_entry self path relative metadata;
      self ← push_entry self entry;
      if decide (NodeMetadata.file_type metadata ≠ FileType.Dir) then Ok self else
      listing ← manifest_io (Tree.read_dir tree path);
      '(children, _) ← fold_result (read_child self) ([], 0%N) listing;
      fold_result (λ self child,
        if decide (depth + 1 < u16_bound)%N then visit fuel self (child_relative relative child) (depth + 1) else Panic)
        self (sort children)
  end.

Definition stream_id_of (derivation_key schema : bytes) : bytes :=
  hex_lower (hasher_finalize (foldl hasher_update hasher_new
    [bs "pocket-builder-manifest-stream" ++ [x00] ++ bs "v1" ++ [x00]; derivation_key; [x00]; schema])).

Record ManifestSummary : Set := manifest_summary {
  summary_stream_id : bytes;
  summary_sha256 : bytes;
  summary_entry_count : N;
  summary_byte_count : N;
}.

Definition emit_manifest (root schema : bytes) (limits : ManifestLimits.t) (derivation_key : bytes) (emitter0 : E) :
    bresult (ManifestSummary * E) :=
  manifest_protocol (validate limits);;
  metadata ← manifest_io (Tree.symlink_metadata tree root);
  if decide (NodeMetadata.file_type metadata ≠ FileType.Dir)
  then manifest_error (bs "manifest root is not a directory") else
  let stream := stream_id_of derivation_key schema in
  emitter0 ← emit emitter0 (BuilderMessage.ManifestBegin (ManifestBegin.manifest_begin schema stream));
  let self := walker root limits stream emitter0 ∅ 0 [] 0 0 0 0 0 hasher_new in
  self ← visit (N.to_nat (ManifestLimits.max_depth limits) + 2) self [] 0;
  self ← flush_chunk self;
  let digest := hex_lower (hasher_finalize (manifest_hasher self)) in
  emitter ← emit (emitter self) (BuilderMessage.ManifestEnd
    (ManifestEnd.manifest_end stream (entry_count self) (byte_count self) digest));
  Ok (manifest_summary stream digest (entry_count self) (byte_count self), emitter).
End walk.
End BuilderWalk.

(** ** The validator *)
Module ValidatorWalk.
Abbreviation vresult := (result ValidatorError.t).

Section walk.
Context {texts : ErrorTexts} {sha : Sha2} {codec : Cbor ManifestEntry.t} (tree : Tree.t).

Definition manifest_failure (diagnostic : bytes) : ValidatorError.t :=
  ValidatorError.Failure "manifest" ErrorCode.ValidatorManifest None diagnostic.
Definition manifest_error {A} (diagnostic : bytes) : vresult A := Err (manifest_failure diagnostic).
Definition io_manifest (error : io_error) : ValidatorError.t :=
  ValidatorError.reclassify (ValidatorError.Io "manifest" error) ErrorCode.ValidatorManifest.
Definition protocol_manifest (error : ProtocolError) : ValidatorError.t :=
  ValidatorError.reclassify (ValidatorError.Protocol "manifest" error) ErrorCode.ValidatorManifest.

(** [.map_err(io_manifest)?] *)
Definition manifest_io {A} (r : io_error + A) : vresult A :=
  match r with inl e => Err (io_manifest e) | inr a => Ok a end.

Record Walker : Type := walker {
  root : bytes;
  limits : ManifestLimits.t;
  hardlinks : gmap (N * N) bytes;
  hardlink_path_bytes : N;
  entry_count : N;
  byte_count : N;
  manifest_hasher : hasher;
}.

Definition set_hardlinks (links : gmap (N * N) bytes) (path_bytes : N) (self : Walker) : Walker :=
  walker (root self) (limits self) links path_bytes (entry_count self) (byte_count self) (manifest_hasher self).

Fixpoint hash_loop (h : hasher) (reads : list (io_error + bytes)) : vresult hasher :=
  match reads with
  | [] | inr [] :: _ => Ok h
  | inl e :: _ => Err (io_manifest e)
  | inr piece :: reads => hash_loop (hasher_update h piece) reads
  end.

Definition hash_regular_file (path : bytes) : vresult bytes :=
  reads ← manifest_io (Tree.open tree path);
  h ← hash_loop hasher_new reads;
  Ok (hasher_finalize h).

Definition read_xattr (limits : ManifestLimits.t) (path : bytes) (acc : list ManifestXattr.t * N) (name : bytes) :
    vresult (list ManifestXattr.t * N) :=
  let '(attributes, total) := acc in
  if decide (name = []) then manifest_error (bs "xattr list contains an empty name") else
  if decide (ManifestLimits.max_xattrs_per_entry limits ≤ len attributes)%N
  then manifest_error (bs "xattr count exceeds negotiated limit") else
  if decide (x00 ∈ name) then manifest_error (bs "xattr name contains NUL") else
  value_len ← manifest_io (Tree.xattr_value_size tree path name);
  total ← ok_or (checked_add total (len name) ≫= λ value, checked_add value value_len)
            (manifest_failure (bs "xattr byte-count overflow"));
  if decide (ManifestLimits.max_xattr_bytes_per_entry limits < total)%N
  then manifest_error (bs "xattr bytes exceed negotiated limit") else
  value ← manifest_io (Tree.xattr_value tree path name);
  if decide (len value ≠ value_len) then Err (io_manifest (Tree.last_os_error tree)) else
  Ok (attributes ++ [ManifestXattr.manifest_xattr name value], total).

Definition list_xattrs (path : bytes) (limits : ManifestLimits.t) : vresult (list ManifestXattr.t) :=
  if decide (x00 ∈ path) then manifest_error (bs "filesystem path contains NUL") else
  name_bytes ← manifest_io (Tree.xattr_names_size tree path);
  let maximum_names := N.min (saturating_mul (ManifestLimits.max_xattrs_per_entry limits) 256)
                             (ManifestLimits.max_xattr_bytes_per_entry limits) in
  if decide (maximum_names < name_bytes)%N then manifest_error (bs "xattr names exceed negotiated limit") else
  if decide (name_bytes = 0%N) then Ok [] else
  names ← manifest_io (Tree.xattr_names tree path);
  if decide (len names ≠ name_bytes ∨ last names ≠ Some x00)
  then manifest_error (bs "xattr-name list changed or is malformed") else
  '(attributes, _) ← fold_result (read_xattr limits path) ([], 0%N) (split x00 (removelast names));
  Ok (sort_by ManifestXattr.name attributes).

Definition file_evidence (self : Walker) (path relative : bytes) (metadata : NodeMetadata.t) :
    vresult (option bytes * option bytes * Walker) :=
  if decide (NodeMetadata.file_type metadata = FileType.File) then
    let key := (NodeMetadata.dev metadata, NodeMetadata.ino metadata) in
    if decide (1 < NodeMetadata.nlink metadata)%N then
      match hardlinks self !! key with
      | Some first_path => Ok (None, Some first_path, self)
      | None =>
          if decide (ManifestLimits.max_hardlink_groups (limits self) ≤ N.of_nat (size (hardlinks self)))%N
          then manifest_error (bs "hardlink groups exceed negotiated limit") else
          path_bytes ← ok_or (checked_add (hardlink_path_bytes self) (len relative))
                         (manifest_failure (bs "hardlink path byte count overflow"));
          if decide (ManifestLimits.max_hardlink_path_bytes (limits self) < path_bytes)%N
          then manifest_error (bs "hardlink paths exceed negotiated limit") else
          let self := set_hardlinks (<[key := relative]> (hardlinks self)) path_bytes self in
          digest ← hash_regular_file path;
          Ok (Some digest, None, self)
      end
    else
      digest ← hash_regular_file path;
      Ok (Some digest, None, self)
  else Ok (None, None, self).

Definition make_entry (self : Walker) (path relative : bytes) (metadata : NodeMetadata.t) : vresult (ManifestEntry.t * Walker) :=
  let file_type := NodeMetadata.file_type metadata in
  match kind_of file_type with
  | None => manifest_error (bs "filesystem entry has an unknown type")
  | Some kind =>
      symlink_target ← (if decide (file_type = FileType.Symlink)
                        then target ← manifest_io (Tree.read_link tree path); Ok (Some target) else Ok None);
      '(content_sha256, hardlink_target, self) ← file_evidence self path relative metadata;
      mtime_nanoseconds ← ok_or (u32_of (NodeMetadata.mtime_nsec metadata)) (manifest_failure (bs "invalid mtime nanoseconds"));
      xattrs ← list_xattrs path (limits self);
      let entry := ManifestEntry.manifest_entry relative kind (N.land (NodeMetadata.mode metadata) 4095)
        (NodeMetadata.uid metadata) (NodeMetadata.gid metadata) (NodeMetadata.size metadata)
        (if decide (is_device file_type) then NodeMetadata.rdev metadata else 0%N)
        (NodeMetadata.mtime metadata) mtime_nanoseconds symlink_target content_sha256 hardlink_target xattrs in
      map_err protocol_manifest (validate entry);;
      Ok (entry, self)
  end.

Definition push_entry (self : Walker) (entry : ManifestEntry.t) : vresult Walker :=
  if decide (ManifestLimits.max_entries (limits self) ≤ entry_count self)%N
  then manifest_error (bs "entry count exceeds negotiated limit") else
  encoded ← map_err protocol_manifest (encode_payload entry);
  if decide (encoded = [] ∨ (ManifestLimits.max_entry_bytes (limits self) < len encoded)%N)
  then manifest_error (bs "canonical entry exceeds negotiated limit") else
  framed_len ← ok_or (checked_add (len encoded) 4) (manifest_failure (bs "length-prefixed entry size overflow"));
  if decide (ManifestLimits.max_chunk_bytes (limits self) < framed_len)%N
  then manifest_error (bs "entry cannot fit in one negotiated chunk") else
  if decide (u32_bound ≤ len encoded)%N then manifest_error (bs "entry length does not fit protocol field") else
  new_byte_count ← ok_or (checked_add (byte_count self) framed_len) (manifest_failure (bs "manifest byte-count overflow"));
  if decide (ManifestLimits.max_total_bytes (limits self) < new_byte_count)%N
  then manifest_error (bs "manifest bytes exceed negotiated limit") else
  let hash := hasher_update (hasher_update (manifest_hasher self) (to_be 4 (len encoded))) encoded in
  count ← ok_or (checked_add (entry_count self) 1) (manifest_failure (bs "manifest entry-count overflow"));
  Ok (walker (root self) (limits self) (hardlinks self) (hardlink_path_bytes self) count new_byte_count hash).

Definition read_child (self : Walker) (acc : list bytes * N) (child : io_error + bytes) : vresult (list bytes * N) :=
  let '(children, child_name_bytes) := acc in
  name ← manifest_io child;
  if decide (invalid_name name) then manifest_error (bs "directory contains an invalid name") else
  child_name_bytes ← ok_or (checked_add child_name_bytes (len name))
                       (manifest_failure (bs "directory-name byte count overflow"));
  if decide (ManifestLimits.max_directory_name_bytes (limits self) < child_name_bytes)%N
  then manifest_error (bs "directory names exceed negotiated limit") else
  let children := children ++ [name] in
  if decide (ManifestLimits.max_directory_entries (limits self) < len children)%N
  then manifest_error (bs "one directory exceeds negotiated entry limit") else
  if decide (ManifestLimits.max_entries (limits self) < saturating_add (entry_count self) (len children))%N
  then manifest_error (bs "directory entries exceed negotiated total") else
  Ok (children, child_name_bytes).

Fixpoint visit (fuel : nat) (self : Walker) (relative : bytes) (depth : N) : vresult Walker :=
  match fuel with
  | O => Panic
  | S fuel =>
      if decide (ManifestLimits.max_depth (limits self) < depth)%N
      then manifest_error (bs "directory depth exceeds negotiated limit") else
      if decide (ManifestLimits.max_path_bytes (limits self) < len relative)%N
      then manifest_error (bs "path exceeds negotiated limit") else
      let path := path_from_relative (root self) relative in
      metadata ← manifest_io (Tree.symlink_metadata tree path);
      '(entry, self) ← make_entry self path relative metadata;
      self ← push_entry self entry;
      if decide (NodeMetadata.file_type metadata ≠ FileType.Dir) then Ok self else
      listing ← manifest_io (Tree.read_dir tree path);
      '(children, _) ← fold_result (read_child self) ([], 0%N) listing;
      fold_result (λ self child,
        if decide (depth + 1 < u16_bound)%N then visit fuel self (child_relative relative child) (depth + 1) else Panic)
        self (sort children)
  end.

Record ManifestSummary : Set := manifest_summary {
  summary_sha256 : bytes;
  summary_entry_count : N;
  summary_byte_count : N;
}.

Definition validate_manifest (root : bytes) (limits : ManifestLimits.t) : vresult ManifestSummary :=
  map_err protocol_manifest (validate limits);;
  metadata ← manifest_io (Tree.symlink_metadata tree root);
  if decide (NodeMetadata.file_type metadata ≠ FileType.Dir)
  then manifest_error (bs "manifest root is not a directory") else
  self ← visit (N.to_nat (ManifestLimits.max_depth limits) + 2) (walker root limits ∅ 0 0 0 hasher_new) [] 0;
  Ok (manifest_summary (hex_lower (hasher_finalize (manifest_hasher self))) (entry_count self) (byte_count self)).
End walk.
End ValidatorWalk.
