(* ===== verification/ManifestChunks.v ===== *)
(** * The chunks of the builder's manifest

    What [push_entry] and [flush_chunk] of the builder keep: the open chunk is made of
    complete entries, the counters are those of the entries, and everything that was put in
    is either hashed and sent or in the open chunk. *)

From stdpp Require Import gmap.
From S2P Require Import Prelude RustStr ByteOrder ProtocolError Payload Sha256 BuilderManifest BuilderMessage GuestErrors ManifestTree.

#[local] Arguments bs : simpl never.

Section chunks.
Context {sha : Sha2} {codec : Cbor ManifestEntry.t} {E : Type} (emit : E → BuilderMessage.t → BuilderWalk.bresult E).
Import BuilderWalk.
Abbreviation Walker := (BuilderWalk.Walker (E:=E)).

(** The entries of the open chunk are [pending]. *)
Record sound (L : ManifestLimits.t) (b : Walker) (pending : list bytes) : Prop := {
  sound_ok : limits_ok L;
  sound_limits : limits b = L;
  sound_chunk : chunk b = framed pending;
  sound_fits : Forall (entry_fits (ManifestLimits.max_entry_bytes L)) pending;
  sound_size : (len (chunk b) ≤ ManifestLimits.max_chunk_bytes L)%N;
  sound_entries : chunk_entries b = len pending;
  sound_first : pending ≠ [] → (chunk_first_entry b + len pending = entry_count b)%N;
  sound_sequence : (chunk_sequence b + len pending ≤ entry_count b)%N;
  sound_count : (entry_count b ≤ ManifestLimits.max_entries L)%N;
  sound_bytes : (byte_count b ≤ ManifestLimits.max_total_bytes L)%N;
}.

(** Sent or in the open chunk *)
Definition total (b : Walker) : N := byte_count b + len (chunk b).

Lemma len_framed_cons e es : len (framed (e :: es)) = (4 + len e + len (framed es))%N.
Proof. rewrite framed_cons, !len_app, len_to_be. lia. Qed.

Lemma len_framed max es : Forall (entry_fits max) es → (5 * len es ≤ len (framed es))%N.
Proof.
  induction 1 as [|e es He Hes IH]; [done|]. rewrite len_framed_cons, len_cons. unfold entry_fits in He. lia.
Qed.

Lemma framed_nil es : framed es = [] ↔ es = [].
Proof. split; [|by intros ->]. destruct es as [|e es]; [done|]. rewrite framed_cons. done. Qed.

Lemma framed_snoc es e : framed (es ++ [e]) = framed es ++ to_be 4 (len e) ++ e.
Proof. unfold framed. rewrite fmap_app, concat_app. simpl. by rewrite app_nil_r. Qed.

(** The walker after its chunk was sent *)
Definition flushed (b : Walker) (e : E) : Walker :=
  walker (root b) (limits b) (stream_id b) e (hardlinks b) (hardlink_path_bytes b) [] 0 (chunk_first_entry b)
    (chunk_sequence b + 1) (entry_count b) (total b) (hasher_update (manifest_hasher b) (chunk b)).

Definition chunk_message (b : Walker) : BuilderMessage.t :=
  BuilderMessage.ManifestChunk (ManifestChunk.manifest_chunk (stream_id b) (chunk_sequence b) (chunk_first_entry b) (chunk_entries b) (chunk b)).

(** The bounds on which no counter overflows *)
Lemma sound_bounds L b pending :
  sound L b pending →
  (total b < u64_bound - 2 ^ 32)%N ∧ (entry_count b + 1 < u64_bound)%N ∧ (chunk_sequence b + 1 < u64_bound)%N ∧
  (chunk_entries b + 1 < u32_bound)%N ∧ (ManifestLimits.max_entry_bytes L + 4 ≤ ManifestLimits.max_chunk_bytes L)%N ∧
  (ManifestLimits.max_chunk_bytes L < u32_bound)%N.
Proof.
  intros [Hok Hl Hc Hf Hs He _ Hq Hn Hb]. pose proof (len_framed _ _ Hf) as Hlen. rewrite <- Hc in Hlen.
  unfold limits_ok, MAX_MANIFEST_CHUNK_BYTES, MAX_MANIFEST_ENTRIES, MAX_MANIFEST_BYTES in Hok. unfold total, u64_bound, u32_bound in *. lia.
Qed.

Lemma flush_Ok L b pending b' :
  sound L b pending → chunk b ≠ [] →
  flush_chunk emit b = Ok b' ↔
    (total b ≤ ManifestLimits.max_total_bytes L)%N ∧ ∃ e, emit (emitter b) (chunk_message b) = Ok e ∧ b' = flushed b e.
Proof.
  intros Hs Hne. pose proof (sound_bounds _ _ _ Hs) as (Hb1 & Hb2 & Hb3 & _). destruct Hs as [_ Hl _ _ _ _ _ _ _ _].
  unfold flush_chunk, manifest_error. rewrite decide_False by done. cbv zeta.
  rewrite (checked_add_fits (byte_count b)) by (unfold total, u64_bound in *; lia). rewrite (checked_add_fits (chunk_sequence b)) by done.
  cbn [ok_or mbind result_bind]. rewrite guard_ok, N.nlt_ge, Hl.
  change (byte_count b + len (chunk b))%N with (total b). fold (chunk_message b).
  apply and_iff_compat_l. rewrite bind_ok. cbn [ok_or mbind result_bind]. setoid_rewrite ok_inj. unfold flushed. rewrite Hl.
  split; intros (e & He & Hw); exists e; done.
Qed.

Lemma flushed_sound L b pending e :
  sound L b pending → (total b ≤ ManifestLimits.max_total_bytes L)%N → pending ≠ [] → sound L (flushed b e) [].
Proof.
  intros [Hok Hl Hc Hf Hs He Hfi Hq Hn Hb] Ht Hp. destruct pending as [|p pending]; [done|]. rewrite len_cons in Hq.
  split; try done; cbn [flushed chunk_sequence entry_count chunk]; rewrite len_nil; lia.
Qed.

(** The walker after an entry was added to its chunk *)
Definition added (b : Walker) (encoded : bytes) : Walker :=
  walker (root b) (limits b) (stream_id b) (emitter b) (hardlinks b) (hardlink_path_bytes b)
    (chunk b ++ to_be 4 (len encoded) ++ encoded) (chunk_entries b + 1)
    (if decide (chunk b = []) then entry_count b else chunk_first_entry b) (chunk_sequence b) (entry_count b + 1)
    (byte_count b) (manifest_hasher b).

Lemma add_Ok L b pending encoded b' :
  sound L b pending → entry_fits (ManifestLimits.max_entry_bytes L) encoded →
  add_to_chunk b encoded (len encoded + 4) = Ok b' ↔ b' = added b encoded.
Proof.
  intros Hs He. pose proof (sound_bounds _ _ _ Hs) as (_ & Hb2 & _ & Hb4 & Hb5 & Hb6). destruct Hs as [_ Hl _ _ _ _ _ _ _ _].
  unfold entry_fits in He. unfold add_to_chunk, manifest_error. rewrite Hl, !decide_False by lia. cbv zeta. destruct (decide (chunk_entries b + 1 < u32_bound)%N); [|done].
  cbn [ok_or mbind result_bind]. rewrite checked_add_fits by done. cbn [ok_or mbind result_bind]. rewrite ok_inj. unfold added. rewrite Hl. split; by intros ->.
Qed.

Lemma added_sound L b pending encoded :
  sound L b pending → entry_fits (ManifestLimits.max_entry_bytes L) encoded →
  (len (chunk b) + (len encoded + 4) ≤ ManifestLimits.max_chunk_bytes L)%N →
  (entry_count b < ManifestLimits.max_entries L)%N →
  sound L (added b encoded) (pending ++ [encoded]).
Proof.
  intros [Hok Hl Hc Hf Hs He Hfi Hq Hn Hb] Hfit Hsize Hcount.
  split; cbn [added limits chunk chunk_entries chunk_first_entry chunk_sequence entry_count byte_count]; rewrite ?len_app, ?len_cons, ?len_nil, ?len_to_be; try done.
  - by rewrite Hc, framed_snoc.
  - apply Forall_app. split; [done|by constructor].
  - lia.
  - lia.
  - intros _. case_decide as Hz; rewrite Hc, framed_nil in Hz; [subst; rewrite len_nil; lia|]. specialize (Hfi Hz). lia.
  - lia.
  - lia.
Qed.

(** The entry passes the limits that do not depend on the walker. *)
Definition encodes (L : ManifestLimits.t) (entry : ManifestEntry.t) (encoded : bytes) : Prop :=
  encode_payload entry = Ok encoded ∧ entry_fits (ManifestLimits.max_entry_bytes L) encoded.

(** The walker that adds an entry: itself, or after its full chunk was sent *)
Definition ready (L : ManifestLimits.t) (b : Walker) (encoded : bytes) (b1 : Walker) : Prop :=
  if decide (chunk b ≠ [] ∧ (ManifestLimits.max_chunk_bytes L < len (chunk b) + (len encoded + 4))%N)
  then (total b ≤ ManifestLimits.max_total_bytes L)%N ∧ ∃ e, emit (emitter b) (chunk_message b) = Ok e ∧ b1 = flushed b e
  else b1 = b.

Lemma ready_sound L b pending encoded b1 :
  sound L b pending → entry_fits (ManifestLimits.max_entry_bytes L) encoded → ready L b encoded b1 →
  ∃ pending', sound L b1 pending' ∧ (len (chunk b1) + (len encoded + 4) ≤ ManifestLimits.max_chunk_bytes L)%N ∧
    entry_count b1 = entry_count b ∧ total b1 = total b.
Proof.
  intros Hs Hfit. pose proof (sound_bounds _ _ _ Hs) as (_ & _ & _ & _ & Hb5 & _). unfold entry_fits in Hfit. unfold ready. case_decide as Hd.
  - intros (Ht & e & _ & ->). exists []. split_and!; [|cbn [flushed chunk]; rewrite len_nil; lia|done|].
    + eapply flushed_sound; [done..|]. destruct Hd as [Hne _]. by rewrite (sound_chunk _ _ _ Hs), framed_nil in Hne.
    + unfold total. cbn [flushed byte_count chunk]. rewrite len_nil. unfold total. lia.
  - intros ->. exists pending. split_and!; [done| |done|done]. destruct (decide (chunk b = [])) as [Hz|Hz]; [rewrite Hz, len_nil; lia|].
    destruct (decide (ManifestLimits.max_chunk_bytes L < len (chunk b) + (len encoded + 4))%N); [tauto|lia].
Qed.

Lemma push_Ok L b pending entry b' :
  sound L b pending →
  push_entry emit b entry = Ok b' ↔
    (entry_count b < ManifestLimits.max_entries L)%N ∧
    ∃ encoded b1, encodes L entry encoded ∧ ready L b encoded b1 ∧ b' = added b1 encoded.
Proof.
  intros Hs. pose proof (sound_limits _ _ _ Hs) as Hl. pose proof (sound_bounds _ _ _ Hs) as (Hb1 & _ & _ & _ & Hb5 & Hb6).
  unfold push_entry, manifest_error. rewrite guard_ok, N.nle_gt, Hl, bind_ok. apply and_iff_compat_l. unfold manifest_protocol. setoid_rewrite map_err_ok.
  apply exist_proper. intros encoded. unfold encodes. rewrite guard_ok.
  assert (¬ (encoded = [] ∨ (ManifestLimits.max_entry_bytes L < len encoded)%N) ↔ entry_fits (ManifestLimits.max_entry_bytes L) encoded) as ->.
  { unfold entry_fits. rewrite <- len_zero. lia. }
  assert (∀ fits : entry_fits (ManifestLimits.max_entry_bytes L) encoded,
    (framed_len ← ok_or (checked_add (len encoded) 4) (BuilderError.Manifest "manifest" (bs "length-prefixed entry size overflow"));
     b1 ← (if decide (chunk b ≠ [] ∧ (ManifestLimits.max_chunk_bytes L < saturating_add (len (chunk b)) framed_len)%N)
           then flush_chunk emit b else Ok b);
     add_to_chunk b1 encoded framed_len) = Ok b' ↔ ∃ b1, ready L b encoded b1 ∧ b' = added b1 encoded) as Hpush.
  { intros Hfit. pose proof Hfit as Hfit'. unfold entry_fits in Hfit'.
    rewrite checked_add_fits by (unfold u64_bound, u32_bound in *; lia). cbn [ok_or mbind result_bind].
    unfold saturating_add. rewrite N.min_l by (unfold total, u64_bound, u32_bound in *; lia). rewrite bind_ok. unfold ready.
    apply exist_proper. intros b1. case_decide as Hd.
    - rewrite (flush_Ok _ _ _ _ Hs (proj1 Hd)). split; intros (Hr & Ha); (split; [done|]);
        destruct (ready_sound L b pending encoded b1 Hs Hfit) as (pending' & Hs1 & _); [unfold ready; by rewrite decide_True| |unfold ready; by rewrite decide_True|];
        by apply (add_Ok _ _ _ _ _ Hs1 Hfit).
    - rewrite ok_inj. split; (intros (-> & Ha); split; [done|]); by apply (add_Ok _ _ _ _ _ Hs Hfit). }
  split.
  - intros (Henc & Hfit & (b1 & Hr & ->)%Hpush); [|done]. by exists b1.
  - intros (b1 & (Henc & Hfit) & Hr & ->). split_and!; [done|done|]. apply Hpush; [done|]. by exists b1.
Qed.
End chunks.
