(* ===== verification/ManifestReturns.v ===== *)
(** * Both walks return

    The walks of ManifestTree recurse once per level of directories, and the limit on the
    depth is fuel enough: they return an entry stream or an error, never a panic. *)

From stdpp Require Import gmap.
From S2P Require Import Prelude RustStr ByteOrder ProtocolError Payload Sha256 BuilderManifest BuilderMessage NoPanic GuestErrors ManifestTree.

#[local] Arguments bs : simpl never.

(** A result that is no panic and whose value has a property *)
Definition returns {E A} (P : A → Prop) (r : result E A) : Prop := no_panic r ∧ ∀ a, r = Ok a → P a.

Lemma returns_ok {E A} (P : A → Prop) (a : A) : P a → returns P (Ok a : result E A).
Proof. intros Ha. split; [done|]. by intros b <-%ok_inj. Qed.
Lemma returns_err {E A} (P : A → Prop) (e : E) : returns P (Err e : result E A).
Proof. done. Qed.
Lemma returns_then {E A B} (P : B → Prop) (r : result E A) (f : A → result E B) :
  no_panic r → (∀ a, r = Ok a → returns P (f a)) → returns P (r ≫= f).
Proof. intros Hr Hf. destruct r; [by apply Hf|done|done]. Qed.
Lemma returns_fold {E S A} (P : S → Prop) (f : S → A → result E S) s l :
  P s → (∀ s a, P s → returns P (f s a)) → returns P (fold_result f s l).
Proof.
  intros Hs Hf. revert s Hs. induction l as [|a l IH]; intros s Hs; cbn [fold_result]; [by apply returns_ok|].
  destruct (Hf s a Hs) as (H1 & H2). apply returns_then; [done|]. intros s1 Hs1. by apply IH, H2.
Qed.

Lemma np_builder_io {A} (x : io_error + A) : no_panic (BuilderWalk.manifest_io x).
Proof. by destruct x. Qed.
Lemma np_builder_error {A} d : no_panic (@BuilderWalk.manifest_error A d).
Proof. done. Qed.
Lemma np_builder_protocol {A} (r : result ProtocolError A) : no_panic r → no_panic (BuilderWalk.manifest_protocol r).
Proof. apply np_map_err. Qed.
#[local] Hint Resolve np_builder_io np_builder_error np_builder_protocol : no_panic.

Section builder.
Context {sha : Sha2} {codec : Cbor ManifestEntry.t} {codec_laws : CborLaws ManifestEntry.t} {E : Type}.
Context (emit : E → BuilderMessage.t → BuilderWalk.bresult E) (Hemit : ∀ e m, no_panic (emit e m)) (T : Tree.t).
Import BuilderWalk.
Abbreviation Walker := (BuilderWalk.Walker (E:=E)).
#[local] Hint Resolve Hemit : no_panic.

Lemma np_hash path : no_panic (hash_regular_file T path).
Proof.
  unfold hash_regular_file. apply np_bind; [apply np_builder_io|]. intros reads _. apply np_bind; [|done].
  generalize hasher_new. induction reads as [|[e|[|b piece]] reads IH]; intros h; simpl; done || apply IH.
Qed.

Lemma np_xattr_round limits path acc name : no_panic (read_xattr T limits path acc name).
Proof. destruct acc. unfold read_xattr. np. Qed.
#[local] Hint Resolve np_hash np_xattr_round : no_panic.

Lemma np_xattrs path limits : no_panic (list_xattrs T path limits).
Proof. unfold list_xattrs. np. Qed.

Lemma np_evidence (self : Walker) path rel m : no_panic (file_evidence T self path rel m).
Proof. unfold file_evidence. np. Qed.
#[local] Hint Resolve np_xattrs np_evidence : no_panic.

Lemma np_entry (self : Walker) path rel m : no_panic (make_entry T self path rel m).
Proof. unfold make_entry. destruct (kind_of _); np. Qed.

Lemma np_flush (self : Walker) : no_panic (flush_chunk emit self).
Proof. unfold flush_chunk. np. Qed.
Lemma np_add (self : Walker) encoded n : no_panic (add_to_chunk self encoded n).
Proof. unfold add_to_chunk. np. Qed.
#[local] Hint Resolve np_entry np_flush np_add : no_panic.
Lemma np_push (self : Walker) e : no_panic (push_entry emit self e).
Proof. unfold push_entry. np. Qed.
Lemma np_child (self : Walker) acc child : no_panic (read_child self acc child).
Proof. destruct acc. unfold read_child. np. Qed.
#[local] Hint Resolve np_push np_child : no_panic.

Lemma entry_limits (self : Walker) path rel m e self' : make_entry T self path rel m = Ok (e, self') → limits self' = limits self.
Proof.
  unfold make_entry. destruct (kind_of _) as [kind|]; [|done]. intros (target & _ & Hr)%bind_ok.
  apply bind_ok in Hr as ([[content link] b1] & Hev & Hr). apply bind_ok in Hr as (ns & _ & Hr). apply bind_ok in Hr as (xattrs & _ & Hr).
  cbv zeta in Hr. apply bind_unit_ok in Hr as (_ & [= _ <-]). unfold file_evidence in Hev.
  case_decide; [|by simplify_eq]. cbv zeta in Hev. case_decide; [|by apply bind_ok in Hev as (digest & _ & [= _ _ <-])].
  destruct (hardlinks self !! _); [by simplify_eq|]. apply guard_ok in Hev as (_ & Hev). apply bind_ok in Hev as (n & _ & Hev).
  apply guard_ok in Hev as (_ & Hev). by apply bind_ok in Hev as (digest & _ & [= _ _ <-]).
Qed.

Lemma flush_limits (self self' : Walker) : flush_chunk emit self = Ok self' → limits self' = limits self.
Proof.
  unfold flush_chunk. case_decide; [by intros <-%ok_inj|]. intros (n & _ & (_ & (e & _ & (q & _ & <-%ok_inj)%bind_ok)%bind_ok)%guard_ok)%bind_ok. done.
Qed.

Lemma push_limits (self : Walker) e self' : push_entry emit self e = Ok self' → limits self' = limits self.
Proof.
  unfold push_entry. intros (_ & (encoded & _ & (_ & (n & _ & (b1 & Hf & Ha)%bind_ok)%bind_ok)%guard_ok)%bind_ok)%guard_ok.
  assert (limits b1 = limits self) as <-.
  { case_decide; [by apply flush_limits|by apply ok_inj in Hf as ->]. }
  unfold add_to_chunk in Ha. apply guard_ok in Ha as (_ & Ha). cbv zeta in Ha. apply guard_ok in Ha as (_ & Ha).
  apply bind_ok in Ha as (k & _ & Ha). by apply bind_ok in Ha as (c & _ & <-%ok_inj).
Qed.

(** The fuel is enough below the limit on the depth. *)
Lemma builder_visit_returns L fuel self rel depth :
  (ManifestLimits.max_depth L ≤ MAX_MANIFEST_DEPTH)%N → limits self = L →
  (N.of_nat fuel + depth = ManifestLimits.max_depth L + 2)%N → 1 ≤ fuel →
  returns (λ self', limits self' = L) (visit emit T fuel self rel depth).
Proof.
  intros HL. revert self rel depth. induction fuel as [|fuel IH]; intros self rel depth Hl Hd Hf; [lia|]. cbn [visit]. rewrite Hl.
  case_decide as Hdepth; [done|]. case_decide; [done|]. cbv zeta. apply returns_then; [np|]. intros m _.
  apply returns_then; [np|]. intros [e b1] He. apply entry_limits in He. apply returns_then; [np|]. intros b2 Hb2. apply push_limits in Hb2.
  case_decide; [apply returns_ok; congruence|]. apply returns_then; [np|]. intros listing _. apply returns_then; [np|]. intros [children n] _.
  apply returns_fold; [congruence|]. intros b3 child Hb3. rewrite decide_True by (unfold MAX_MANIFEST_DEPTH, u16_bound in *; lia). apply IH; [done|lia..].
Qed.

Lemma builder_returns root schema L key e : no_panic (emit_manifest emit T root schema L key e).
Proof.
  unfold emit_manifest. apply np_seq; [np|]. intros Hv. apply map_err_ok, limits_validate_Ok in Hv.
  apply np_bind; [np|]. intros m _. case_decide; [done|]. cbv zeta. apply np_bind; [np|]. intros e1 _.
  apply np_bind; [|intros; np]. apply (builder_visit_returns L); [apply Hv|done|lia|lia].
Qed.
End builder.

Section validator.
Context {texts : ErrorTexts} {sha : Sha2} {codec : Cbor ManifestEntry.t} {codec_laws : CborLaws ManifestEntry.t} (T : Tree.t).
Import ValidatorWalk.

Lemma np_validator_io {A} (x : io_error + A) : no_panic (manifest_io x).
Proof. by destruct x. Qed.
Lemma np_validator_error {A} d : no_panic (@manifest_error A d).
Proof. done. Qed.
#[local] Hint Resolve np_validator_io np_validator_error : no_panic.

Lemma np_validator_hash path : no_panic (hash_regular_file T path).
Proof.
  unfold hash_regular_file. apply np_bind; [apply np_validator_io|]. intros reads _. apply np_bind; [|done].
  generalize hasher_new. induction reads as [|[e|[|b piece]] reads IH]; intros h; simpl; done || apply IH.
Qed.
Lemma np_validator_xattr limits path acc name : no_panic (read_xattr T limits path acc name).
Proof. destruct acc. unfold read_xattr. np. Qed.
#[local] Hint Resolve np_validator_hash np_validator_xattr : no_panic.
Lemma np_validator_xattrs path limits : no_panic (list_xattrs T path limits).
Proof. unfold list_xattrs. np. Qed.
Lemma np_validator_evidence self path rel m : no_panic (file_evidence T self path rel m).
Proof. unfold file_evidence. np. Qed.
#[local] Hint Resolve np_validator_xattrs np_validator_evidence : no_panic.
Lemma np_validator_entry self path rel m : no_panic (make_entry T self path rel m).
Proof. unfold make_entry. destruct (kind_of _); np. Qed.
Lemma np_validator_push self e : no_panic (push_entry self e).
Proof. unfold push_entry. np. Qed.
Lemma np_validator_child self acc child : no_panic (read_child self acc child).
Proof. destruct acc. unfold read_child. np. Qed.
#[local] Hint Resolve np_validator_entry np_validator_push np_validator_child : no_panic.

Lemma validator_entry_limits self path rel m e self' : make_entry T self path rel m = Ok (e, self') → limits self' = limits self.
Proof.
  unfold make_entry. destruct (kind_of _) as [kind|]; [|done]. intros (target & _ & Hr)%bind_ok.
  apply bind_ok in Hr as ([[content link] b1] & Hev & Hr). apply bind_ok in Hr as (ns & _ & Hr). apply bind_ok in Hr as (xattrs & _ & Hr).
  cbv zeta in Hr. apply bind_unit_ok in Hr as (_ & [= _ <-]). unfold file_evidence in Hev.
  case_decide; [|by simplify_eq]. cbv zeta in Hev. case_decide; [|by apply bind_ok in Hev as (digest & _ & [= _ _ <-])].
  destruct (hardlinks self !! _); [by simplify_eq|]. apply guard_ok in Hev as (_ & Hev). apply bind_ok in Hev as (n & _ & Hev).
  apply guard_ok in Hev as (_ & Hev). by apply bind_ok in Hev as (digest & _ & [= _ _ <-]).
Qed.

Lemma validator_push_limits self e self' : push_entry self e = Ok self' → limits self' = limits self.
Proof.
  unfold push_entry. intros (_ & (encoded & _ & (_ & (n & _ & (_ & (_ & (k & _ & (_ & Hr)%guard_ok)%bind_ok)%guard_ok)%guard_ok)%bind_ok)%guard_ok)%bind_ok)%guard_ok.
  cbv zeta in Hr. by apply bind_ok in Hr as (c & _ & <-%ok_inj).
Qed.

Lemma validator_visit_returns L fuel self rel depth :
  (ManifestLimits.max_depth L ≤ MAX_MANIFEST_DEPTH)%N → limits self = L →
  (N.of_nat fuel + depth = ManifestLimits.max_depth L + 2)%N → 1 ≤ fuel →
  returns (λ self', limits self' = L) (visit T fuel self rel depth).
Proof.
  intros HL. revert self rel depth. induction fuel as [|fuel IH]; intros self rel depth Hl Hd Hf; [lia|]. cbn [visit]. rewrite Hl.
  case_decide as Hdepth; [done|]. case_decide; [done|]. cbv zeta. apply returns_then; [np|]. intros m _.
  apply returns_then; [np|]. intros [e b1] He. apply validator_entry_limits in He. apply returns_then; [np|]. intros b2 Hb2. apply validator_push_limits in Hb2.
  case_decide; [apply returns_ok; congruence|]. apply returns_then; [np|]. intros listing _. apply returns_then; [np|]. intros [children n] _.
  apply returns_fold; [congruence|]. intros b3 child Hb3. rewrite decide_True by (unfold MAX_MANIFEST_DEPTH, u16_bound in *; lia). apply IH; [done|lia..].
Qed.

Lemma validator_returns root L : no_panic (validate_manifest T root L).
Proof.
  unfold validate_manifest. apply np_seq; [np|]. intros Hv. apply map_err_ok, limits_validate_Ok in Hv.
  apply np_bind; [np|]. intros m _. case_decide; [done|]. apply np_bind; [|done].
  apply (validator_visit_returns L); [apply Hv|done|lia|lia].
Qed.
End validator.
