(* ===== verification/ManifestWalk.v ===== *)
(** * The two walks agree

    The builder and the validator of ManifestTree, over the same file system as two mounts
    show it: directories and attributes may be listed in another order, files read in other
    pieces and inodes numbered differently.  Both walks then succeed or both fail, and their
    digests and counts are the same. *)

From stdpp Require Import gmap.
From S2P Require Import Prelude RustStr ByteOrder ErrorCode ManagedPath ProtocolError Payload Sha256 BuilderManifest BuilderMessage NoPanic GuestErrors Agree ManifestTree ManifestChunks ManifestReturns.

#[local] Arguments bs : simpl never.

(** ** Two views of one file system *)
Definition io_alike {A B} (R : A → B → Prop) (x : io_error + A) (y : io_error + B) : Prop :=
  match x, y with inr a, inr b => R a b | inl _, inl _ => True | _, _ => False end.

(** What the reads of a file deliver, unless one of them fails *)
Fixpoint content_of (reads : list (io_error + bytes)) : option bytes :=
  match reads with
  | [] | inr [] :: _ => Some []
  | inl _ :: _ => None
  | inr piece :: reads => app piece <$> content_of reads
  end.

Definition inode (m : NodeMetadata.t) : N * N := (NodeMetadata.dev m, NodeMetadata.ino m).

(** The same node, with another inode number *)
Definition same_node (m n : NodeMetadata.t) : Prop :=
  n = NodeMetadata.mk (NodeMetadata.file_type m) (NodeMetadata.dev n) (NodeMetadata.ino n) (NodeMetadata.nlink m)
        (NodeMetadata.mode m) (NodeMetadata.uid m) (NodeMetadata.gid m) (NodeMetadata.size m) (NodeMetadata.rdev m)
        (NodeMetadata.mtime m) (NodeMetadata.mtime_nsec m).

(** The same names in some order, or an error in both listings *)
Definition same_listing (l k : list (io_error + bytes)) : Prop :=
  (∃ names names', l = inr <$> names ∧ k = inr <$> names' ∧ names ≡ₚ names') ∨
  ((∀ names, l ≠ inr <$> names) ∧ ∀ names, k ≠ inr <$> names).

Definition same_names (a b : bytes) : Prop :=
  len a = len b ∧ last a = last b ∧ split x00 (removelast a) ≡ₚ split x00 (removelast b).

Record same_tree (F G : Tree.t) (rootF rootG : bytes) : Prop := {
  st_roots : (x00 ∉ rootF) ∧ x00 ∉ rootG;
  st_metadata rel : io_alike same_node (Tree.symlink_metadata F (path_from_relative rootF rel)) (Tree.symlink_metadata G (path_from_relative rootG rel));
  st_inodes rel rel' m m' n n' :
    Tree.symlink_metadata F (path_from_relative rootF rel) = inr m → Tree.symlink_metadata F (path_from_relative rootF rel') = inr m' →
    Tree.symlink_metadata G (path_from_relative rootG rel) = inr n → Tree.symlink_metadata G (path_from_relative rootG rel') = inr n' →
    inode m = inode m' ↔ inode n = inode n';
  st_listing rel : io_alike same_listing (Tree.read_dir F (path_from_relative rootF rel)) (Tree.read_dir G (path_from_relative rootG rel));
  st_target rel : io_alike (=) (Tree.read_link F (path_from_relative rootF rel)) (Tree.read_link G (path_from_relative rootG rel));
  st_content rel :
    io_alike (λ r s, content_of r = content_of s) (Tree.open F (path_from_relative rootF rel)) (Tree.open G (path_from_relative rootG rel));
  st_names_size rel : io_alike (=) (Tree.xattr_names_size F (path_from_relative rootF rel)) (Tree.xattr_names_size G (path_from_relative rootG rel));
  st_names rel : io_alike same_names (Tree.xattr_names F (path_from_relative rootF rel)) (Tree.xattr_names G (path_from_relative rootG rel));
  st_value_size rel name :
    io_alike (=) (Tree.xattr_value_size F (path_from_relative rootF rel) name) (Tree.xattr_value_size G (path_from_relative rootG rel) name);
  st_value rel name :
    io_alike (=) (Tree.xattr_value F (path_from_relative rootF rel) name) (Tree.xattr_value G (path_from_relative rootG rel) name);
}.

(** ** Sorting what another order lists *)
Section sorting.
Context {A : Type} (key : A → bytes).

Lemma sorted_unique l k :
  (∀ a b, a ∈ l → b ∈ l → key a = key b → a = b) → sorted_by key l → sorted_by key k → l ≡ₚ k → l = k.
Proof.
  unfold sorted_by. revert k. induction l as [|a l IH]; intros k Hinj Hl Hk Hp; [by apply Permutation_nil_l in Hp|].
  destruct k as [|b k]; [by apply Permutation_nil_r in Hp|]. simpl in *.
  inversion Hl as [|? ? Hl' Hal]; inversion Hk as [|? ? Hk' Hbk]; subst.
  assert (a ∈ b :: k) as Ha by (rewrite <- Hp; left). assert (b ∈ a :: l) as Hb by (rewrite Hp; left).
  assert (a = b) as <-.
  { apply Hinj; [by left|done|]. rewrite Forall_fmap, Forall_forall in Hal, Hbk.
    apply elem_of_cons in Ha as [->|Ha]; [done|]. apply elem_of_cons in Hb as [->|Hb]; [done|].
    apply (anti_symm bytes_le); [by apply Hal|by apply Hbk]. }
  f_equal. apply IH; [|done|done|by apply Permutation_cons_inv in Hp]. intros c d Hc Hd. apply Hinj; by right.
Qed.

Lemma sort_by_order l k : (∀ a b, a ∈ l → b ∈ l → key a = key b → a = b) → l ≡ₚ k → sort_by key l = sort_by key k.
Proof.
  intros Hinj Hp. apply sorted_unique; [|apply sort_by_sorted..|by rewrite !sort_by_perm].
  intros a b. rewrite !sort_by_perm. apply Hinj.
Qed.
End sorting.

Lemma sort_order l k : l ≡ₚ k → sort l = sort k.
Proof. intros Hp. by apply (sort_by_order id). Qed.

(** ** What the builder reads *)
Section builder.
Context {sha : Sha2} {laws : Sha2Laws} (F : Tree.t).

Lemma hash_loop_content h reads :
  match content_of reads with
  | Some content => ∃ pieces, BuilderWalk.hash_loop h reads = Ok (foldl hasher_update h pieces) ∧ concat pieces = content
  | None => ∃ e, BuilderWalk.hash_loop h reads = Err e
  end.
Proof.
  revert h. induction reads as [|[e|[|b piece]] reads IH]; intros h; simpl; [by exists []|by eexists|by exists []|].
  specialize (IH (hasher_update h (b :: piece))). destruct (content_of reads) as [content|]; [|done].
  destruct IH as (pieces & -> & <-). by exists ((b :: piece) :: pieces).
Qed.

Lemma hash_file_content path :
  BuilderWalk.hash_regular_file F path =
    match Tree.open F path with
    | inl e => Err (BuilderError.Io "manifest" e)
    | inr reads => match content_of reads with Some content => Ok (sha256_digest content) | None => BuilderWalk.hash_regular_file F path end
    end.
Proof.
  unfold BuilderWalk.hash_regular_file. destruct (Tree.open F path) as [e|reads]; [done|]. simpl.
  pose proof (hash_loop_content hasher_new reads) as H. destruct (content_of reads) as [content|]; [|done].
  destruct H as (pieces & -> & <-). simpl. by rewrite sha256_pieces.
Qed.

(** The attribute of a name, when its size and its value are consistent *)
Definition attribute_of (path name : bytes) : option ManifestXattr.t :=
  match Tree.xattr_value_size F path name, Tree.xattr_value F path name with
  | inr n, inr value => if decide (len value = n) then Some (ManifestXattr.manifest_xattr name value) else None
  | _, _ => None
  end.

Definition within_attributes (limits : ManifestLimits.t) (attributes : list ManifestXattr.t) (total : N) : Prop :=
  (len attributes ≤ ManifestLimits.max_xattrs_per_entry limits)%N ∧
  (total ≤ ManifestLimits.max_xattr_bytes_per_entry limits)%N ∧ (total < u64_bound)%N.

Lemma read_xattr_Ok limits path attributes total name r :
  BuilderWalk.read_xattr F limits path (attributes, total) name = Ok r ↔
  ∃ x, attribute_of path name = Some x ∧ name ≠ [] ∧ (x00 ∉ name) ∧ r = (attributes ++ [x], total + xattr_bytes [x])%N ∧
    within_attributes limits r.1 r.2.
Proof.
  unfold BuilderWalk.read_xattr, attribute_of, within_attributes, BuilderWalk.manifest_error. rewrite !guard_ok, bind_ok. setoid_rewrite bind_ok.
  setoid_rewrite guard_ok. setoid_rewrite bind_ok. setoid_rewrite guard_ok. setoid_rewrite ok_or_ok. setoid_rewrite checked_add2_Some. split.
  - intros (Hne & Hc & Hnul & n & Hn & t & (-> & Hb) & Ht & value & Hv & Hl%dec_stable & <-%ok_inj).
    destruct (Tree.xattr_value_size F path name); [done|]. destruct (Tree.xattr_value F path name); [done|].
    apply ok_inj in Hn as ->, Hv as ->. rewrite decide_True by done. exists (ManifestXattr.manifest_xattr name value). cbn [fst snd]. rewrite len_app.
    unfold sum_of. cbn [foldr ManifestXattr.name ManifestXattr.value]. change (len [_]) with 1%N. split_and!; [done|done|done|f_equal; lia|lia..].
  - intros (x & Hx & Hne & Hnul & -> & H1 & H2 & H3). cbn [fst snd] in *. rewrite len_app in H1. change (len [_]) with 1%N in H1.
    destruct (Tree.xattr_value_size F path name) as [|n]; [done|]. destruct (Tree.xattr_value F path name) as [|value]; [done|].
    case_decide as Hl; [|done]. injection Hx as <-. unfold sum_of in *. simpl in *. split_and!; [done|lia|done|].
    exists n. split; [done|]. eexists. split; [split; [reflexivity|lia]|]. split; [lia|]. exists value. split_and!; [done|tauto|].
    f_equal. f_equal. lia.
Qed.

(** The loop accepts the names whose attributes are within the limits, in any order. *)
Lemma read_xattrs_Ok limits path names attributes total r :
  (names = [] → within_attributes limits attributes total) →
  fold_result (BuilderWalk.read_xattr F limits path) (attributes, total) names = Ok r ↔
  ∃ xs, mapM (attribute_of path) names = Some xs ∧ Forall (λ name, name ≠ [] ∧ x00 ∉ name) names ∧
    r = (attributes ++ xs, total + xattr_bytes xs)%N ∧ within_attributes limits r.1 r.2.
Proof.
  revert attributes total. induction names as [|name names IH]; intros attributes total Hw; cbn [fold_result mapM].
  - split.
    + intros <-%ok_inj. exists []. rewrite app_nil_r, N.add_0_r. split_and!; [done|constructor|done|by apply Hw].
    + intros (xs & [= <-] & _ & -> & _). by rewrite app_nil_r, N.add_0_r.
  - rewrite bind_ok. setoid_rewrite read_xattr_Ok. split.
    + intros (r1 & (x & Hx & Hne & Hnul & -> & Hw1) & Hf). cbn [fst snd] in *.
      apply IH in Hf as (xs & Hxs & Hall & -> & Hw2); [|done]. cbn [fst snd] in *. exists (x :: xs).
      rewrite Hx, Hxs, <- (assoc_L (++)) in *. split_and!; [done|by constructor| |]; unfold sum_of in *; simpl in *.
      * f_equal; lia.
      * revert Hw2. unfold within_attributes. rewrite N.add_0_r. done.
    + intros (xs & Hm & Hall & -> & Hw2). apply bind_Some in Hm as (x & Hx & Hm). apply bind_Some in Hm as (xs' & Hxs & [= <-]).
      apply Forall_cons in Hall as ((Hne & Hnul) & Hall). cbn [fst snd] in *.
      assert (total + xattr_bytes (x :: xs') = total + xattr_bytes [x] + xattr_bytes xs')%N as Hsum by (unfold sum_of; simpl; lia).
      assert (within_attributes limits (attributes ++ [x]) (total + xattr_bytes [x])) as Hw1.
      { unfold within_attributes in *. rewrite !len_app, len_cons in *. unfold len at 2. simpl length. lia. }
      eexists. split; [by exists x|]. apply IH; [done|]. exists xs'. cbn [fst snd]. rewrite <- (assoc_L (++)). rewrite Hsum in Hw2 |- *. done.
Qed.

(** The names of a directory, and what is known of them *)
Definition within_directory (limits : ManifestLimits.t) (count : N) (children : list bytes) (total : N) : Prop :=
  (total ≤ ManifestLimits.max_directory_name_bytes limits)%N ∧ (total < u64_bound)%N ∧
  (len children ≤ ManifestLimits.max_directory_entries limits)%N ∧
  (saturating_add count (len children) ≤ ManifestLimits.max_entries limits)%N.

Context {codec : Cbor ManifestEntry.t} {E : Type}.

Lemma read_child_Ok (self : BuilderWalk.Walker (E:=E)) children total child r :
  BuilderWalk.read_child self (children, total) child = Ok r ↔
  ∃ name, child = inr name ∧ ¬ invalid_name name ∧ r = (children ++ [name], total + len name)%N ∧
    within_directory (BuilderWalk.limits self) (BuilderWalk.entry_count self) r.1 r.2.
Proof.
  unfold BuilderWalk.read_child, within_directory, BuilderWalk.manifest_error. destruct child as [e|name]; [naive_solver|].
  cbn [BuilderWalk.manifest_io mbind result_bind]. cbv zeta. rewrite guard_ok, bind_ok. setoid_rewrite ok_or_ok. setoid_rewrite checked_add_Some.
  split.
  - intros (Hn & t & (-> & Hb) & Hr). rewrite !guard_ok, !N.nlt_ge in Hr. destruct Hr as (H1 & H2 & H3 & <-%ok_inj). exists name. done.
  - intros (name' & [= <-] & Hn & -> & H1 & H2 & H3 & H4). cbn [fst snd] in *. split; [done|]. eexists. split; [done|].
    by rewrite !guard_ok, !N.nlt_ge.
Qed.

Lemma saturating_mono a b c : (b ≤ c)%N → (saturating_add a b ≤ saturating_add a c)%N.
Proof. unfold saturating_add. lia. Qed.

Lemma read_children_Ok (self : BuilderWalk.Walker (E:=E)) listing children total r :
  fold_result (BuilderWalk.read_child self) (children, total) listing = Ok r ↔
  ∃ names, listing = inr <$> names ∧ Forall (λ name, ¬ invalid_name name) names ∧
    r = (children ++ names, total + sum_of len names)%N ∧
    (names ≠ [] → within_directory (BuilderWalk.limits self) (BuilderWalk.entry_count self) r.1 r.2).
Proof.
  revert children total. induction listing as [|child listing IH]; intros children total; cbn [fold_result].
  - split.
    + intros <-%ok_inj. exists []. rewrite app_nil_r, N.add_0_r. split_and!; [done|constructor|done|done].
    + intros ([|] & [=] & _ & -> & _). by rewrite app_nil_r, N.add_0_r.
  - rewrite bind_ok. setoid_rewrite read_child_Ok. split.
    + intros (r1 & (name & -> & Hn & -> & Hw1) & (names & -> & Hall & -> & Hw2)%IH). cbn [fst snd] in *.
      exists (name :: names). split_and!; [done|by constructor|rewrite <- (assoc_L (++)); f_equal; unfold sum_of; cbn [foldr]; lia|].
      intros _. destruct names as [|name' names]; [by rewrite app_nil_r, N.add_0_r|by apply Hw2].
    + intros ([|name names] & [=-> ->] & [Hn Hall]%Forall_cons & -> & Hw). specialize (Hw ltac:(done)). cbn [fst snd] in *.
      assert (total + sum_of len (name :: names) = total + len name + sum_of len names)%N as Hsum by (unfold sum_of; cbn [foldr]; lia).
      rewrite Hsum in *. eexists. split; [exists name; split_and!; [done|done|reflexivity|]|].
      * cbn [fst snd]. unfold within_directory in *. rewrite !len_app, len_cons, len_nil in *.
        pose proof (saturating_mono (BuilderWalk.entry_count self) (len children + (1 + 0)) (len children + (1 + len names))). lia.
      * apply IH. exists names. rewrite <- (assoc_L (++)). by split_and!.
Qed.
End builder.

(** ** Lists in another order *)
Lemma sum_of_order {A} (f : A → N) l k : l ≡ₚ k → sum_of f l = sum_of f k.
Proof. unfold sum_of. induction 1; simpl; lia || congruence. Qed.
Lemma len_order {A} (l k : list A) : l ≡ₚ k → len l = len k.
Proof. intros Hp. unfold len. by rewrite Hp. Qed.

Lemma mapM_pointwise {A B} (f g : A → option B) l : (∀ a, f a = g a) → mapM f l = mapM g l.
Proof. intros H. induction l as [|a l IH]; simpl; [done|]. by rewrite H, IH. Qed.

Lemma mapM_order {A B} (f : A → option B) l k xs :
  l ≡ₚ k → mapM f l = Some xs → ∃ ys, mapM f k = Some ys ∧ xs ≡ₚ ys.
Proof.
  intros Hp. revert xs. induction Hp as [|a l k Hp IH|a b l|l k n _ IH1 _ IH2]; intros xs; rewrite ?mapM_Some.
  - intros ->%Forall2_nil_inv_l. by exists [].
  - intros (x & xs' & Hx & Hl & ->)%Forall2_cons_inv_l. apply mapM_Some, IH in Hl as (ys & Hk & Hys).
    exists (x :: ys). split; [by apply mapM_Some; constructor; [|apply mapM_Some]|by constructor].
  - intros (y & ys & Hy & (x & xs' & Hx & Hl & ->)%Forall2_cons_inv_l & ->)%Forall2_cons_inv_l.
    exists (x :: y :: xs'). split; [apply mapM_Some; by repeat constructor|constructor].
  - intros Hm. apply mapM_Some, IH1 in Hm as (ys & Hk & Hp1). apply IH2 in Hk as (zs & Hn & Hp2). exists zs. split; [done|by etrans].
Qed.

(** ** Both guests read the same *)
Section agree.
Context {texts : ErrorTexts} {sha : Sha2} {laws : Sha2Laws} {codec : Cbor ManifestEntry.t} {E : Type}.
Context (F G : Tree.t) (rootF rootG : bytes) (Hsame : same_tree F G rootF rootG).

Lemma nul_in_path root rel : x00 ∉ root → x00 ∈ path_from_relative root rel ↔ x00 ∈ rel.
Proof.
  intros Hr. unfold path_from_relative. destruct rel as [|b rel]; [split; [done|set_solver]|]. unfold path_join.
  case_decide; [done|]. repeat case_match; set_solver.
Qed.

Lemma same_io {A} (x y : io_error + A) : io_alike (=) x y → same (BuilderWalk.manifest_io x) (ValidatorWalk.manifest_io y).
Proof. by destruct x, y. Qed.

Lemma same_hash_loop h reads : same (BuilderWalk.hash_loop h reads) (ValidatorWalk.hash_loop h reads).
Proof. revert h. induction reads as [|[e|[|b piece]] reads IH]; intros h; simpl; done || apply IH. Qed.

Lemma same_hash rel :
  same (BuilderWalk.hash_regular_file F (path_from_relative rootF rel)) (ValidatorWalk.hash_regular_file G (path_from_relative rootG rel)).
Proof.
  eapply (same_trans _ (BuilderWalk.hash_regular_file G (path_from_relative rootG rel))).
  - pose proof (st_content _ _ _ _ Hsame rel) as Hc. unfold BuilderWalk.hash_regular_file, io_alike in *.
    destruct (Tree.open F _) as [|reads], (Tree.open G _) as [|reads']; try done. simpl.
    pose proof (hash_loop_content hasher_new reads) as H1. pose proof (hash_loop_content hasher_new reads') as H2.
    rewrite <- Hc in H2. destruct (content_of reads).
    + destruct H1 as (pieces & -> & Hp), H2 as (pieces' & -> & Hp'). simpl. by rewrite !sha256_pieces, Hp, Hp'.
    + destruct H1 as (? & ->), H2 as (? & ->). done.
  - apply same_bind; [by destruct (Tree.open G _)|]. intros reads. apply same_bind; [apply same_hash_loop|]. done.
Qed.

Lemma same_attribute rel name :
  attribute_of F (path_from_relative rootF rel) name = attribute_of G (path_from_relative rootG rel) name.
Proof.
  unfold attribute_of. pose proof (st_value_size _ _ _ _ Hsame rel name) as H1. pose proof (st_value _ _ _ _ Hsame rel name) as H2.
  unfold io_alike in *. repeat case_match; naive_solver.
Qed.

Lemma attribute_name T path name x : attribute_of T path name = Some x → ManifestXattr.name x = name.
Proof. unfold attribute_of. repeat case_match; naive_solver. Qed.

Lemma same_xattr_loop T limits path acc names :
  same (fold_result (BuilderWalk.read_xattr T limits path) acc names) (fold_result (ValidatorWalk.read_xattr T limits path) acc names).
Proof.
  apply alike_fold; [done|]. intros [attributes total] ? name _ <-. do 3 (apply same_guard; [done|]).
  apply same_bind; [by destruct (Tree.xattr_value_size _ _ _)|]. intros n. apply same_bind; [apply same_ok_or|]. intros t.
  apply same_guard; [done|]. apply same_bind; [by destruct (Tree.xattr_value _ _ _)|]. intros value. by apply same_guard.
Qed.

Lemma np_xattr_loop T limits path acc names : no_panic (fold_result (BuilderWalk.read_xattr T limits path) acc names).
Proof.
  revert acc. induction names as [|name names IH]; intros acc; cbn [fold_result]; [done|]. apply np_bind; [|done].
  destruct acc as [attributes total]. unfold BuilderWalk.read_xattr, BuilderWalk.manifest_error. repeat (case_decide; [done|]).
  destruct (Tree.xattr_value_size _ _ _) as [|n]; [done|]. simpl. destruct (checked_add _ _ ≫= _); [|done]. simpl. case_decide; [done|].
  destruct (Tree.xattr_value _ _ _); [done|]. simpl. by case_decide.
Qed.

(** The same attributes in two orders *)
Lemma same_attributes rel limits names names' :
  names ≡ₚ names' →
  alike (λ r s, sort_by ManifestXattr.name r.1 = sort_by ManifestXattr.name s.1)
    (fold_result (BuilderWalk.read_xattr F limits (path_from_relative rootF rel)) ([], 0%N) names)
    (fold_result (BuilderWalk.read_xattr G limits (path_from_relative rootG rel)) ([], 0%N) names').
Proof.
  intros Hp. assert (within_attributes limits [] 0) as H0 by (unfold within_attributes; rewrite len_nil; unfold u64_bound; lia).
  assert (∀ xs, mapM (attribute_of F (path_from_relative rootF rel)) names = Some xs →
    ∀ a b, a ∈ xs → b ∈ xs → ManifestXattr.name a = ManifestXattr.name b → a = b) as Hinj.
  { intros xs Hxs a b Ha Hb Hab. rewrite mapM_Some in Hxs.
    assert (∀ x, x ∈ xs → attribute_of F (path_from_relative rootF rel) (ManifestXattr.name x) = Some x) as Hx.
    { intros x Hin. apply list_elem_of_lookup_1 in Hin as [i Hi]. destruct (Forall2_lookup_r _ _ _ _ _ Hxs Hi) as (name & _ & Hname).
      by rewrite (attribute_name _ _ _ _ Hname). }
    apply Hx in Ha, Hb. congruence. }
  apply alike_intro; [apply np_xattr_loop..| |].
  - intros r (xs & Hxs & Hn & -> & Hw)%read_xattrs_Ok; [|done]. pose proof (Hinj _ Hxs) as Hx.
    destruct (mapM_order _ _ _ _ Hp Hxs) as (ys & Hys & Hxy). exists (ys, xattr_bytes ys). split; [|by apply sort_by_order].
    apply read_xattrs_Ok; [done|]. exists ys. split_and!; [|by rewrite <- Hp|done|].
    + rewrite <- Hys. apply mapM_pointwise. intros. symmetry. apply same_attribute.
    + revert Hw. unfold within_attributes. simpl. by rewrite (len_order _ _ Hxy), (sum_of_order _ _ _ Hxy).
  - intros r (ys & Hys & Hn & -> & Hw)%read_xattrs_Ok; [|done].
    assert (mapM (attribute_of F (path_from_relative rootF rel)) names' = Some ys) as Hys'.
    { rewrite <- Hys. apply mapM_pointwise. intros. apply same_attribute. }
    destruct (mapM_order _ _ _ _ (symmetry Hp) Hys') as (xs & Hxs & Hyx). symmetry in Hyx. exists (xs, xattr_bytes xs).
    split; [|apply sort_by_order; [by apply Hinj|done]]. apply read_xattrs_Ok; [done|]. exists xs. split_and!; [done|by rewrite Hp|done|].
    revert Hw. unfold within_attributes. simpl. by rewrite (len_order _ _ Hyx), (sum_of_order _ _ _ Hyx).
Qed.

Lemma same_xattrs rel limits :
  same (BuilderWalk.list_xattrs F (path_from_relative rootF rel) limits) (ValidatorWalk.list_xattrs G (path_from_relative rootG rel) limits).
Proof.
  destruct (st_roots _ _ _ _ Hsame) as [HF HG]. unfold BuilderWalk.list_xattrs, ValidatorWalk.list_xattrs.
  apply same_guard; [by rewrite !nul_in_path|]. apply same_bind; [apply same_io, Hsame|]. intros n. cbv zeta.
  apply same_guard; [done|]. case_decide; [done|].
  eapply alike_bind; [instantiate (1 := same_names); pose proof (st_names _ _ _ _ Hsame rel); by destruct (Tree.xattr_names F _), (Tree.xattr_names G _)|].
  intros names names' (Hl & Hlast & Hp). apply same_guard; [by rewrite Hl, Hlast|].
  eapply (alike_bind (λ r s : list ManifestXattr.t * N, sort_by ManifestXattr.name r.1 = sort_by ManifestXattr.name s.1)); [|intros [a t] [b u] Hab; exact Hab].
  pose proof (same_attributes rel limits _ _ Hp) as H1.
  pose proof (same_xattr_loop G limits (path_from_relative rootG rel) ([], 0%N) (split x00 (removelast names'))) as H2.
  revert H1 H2. generalize (fold_result (BuilderWalk.read_xattr F limits (path_from_relative rootF rel)) ([], 0%N) (split x00 (removelast names))).
  intros r. destruct r, (fold_result (BuilderWalk.read_xattr G _ _) _ _), (fold_result (ValidatorWalk.read_xattr G _ _) _ _); try done.
  intros Hr <-. exact Hr.
Qed.

(** The first paths of inodes, under the numbers of either mount *)
Definition links_alike (l k : gmap (N * N) bytes) : Prop :=
  size l = size k ∧
  ∀ rel m n, Tree.symlink_metadata F (path_from_relative rootF rel) = inr m →
    Tree.symlink_metadata G (path_from_relative rootG rel) = inr n → l !! inode m = k !! inode n.

Lemma links_alike_insert l k rel m n path :
  Tree.symlink_metadata F (path_from_relative rootF rel) = inr m →
  Tree.symlink_metadata G (path_from_relative rootG rel) = inr n →
  l !! inode m = None → links_alike l k → links_alike (<[inode m := path]> l) (<[inode n := path]> k).
Proof.
  intros Hm Hn Hl [Hsize Hlk]. pose proof Hl as Hk. rewrite (Hlk _ _ _ Hm Hn) in Hk. split.
  - rewrite !map_size_insert, Hl, Hk. by rewrite Hsize.
  - intros rel' m' n' Hm' Hn'. pose proof (st_inodes _ _ _ _ Hsame rel rel' m m' n n' Hm Hm' Hn Hn') as Hi.
    destruct (decide (inode m = inode m')) as [He|He].
    + rewrite <- He, <- (proj1 Hi He), !lookup_insert_eq. done.
    + rewrite !lookup_insert_ne by tauto. by eapply Hlk.
Qed.

(** The walkers of both guests at the same point *)
Record together (limits : ManifestLimits.t) (b : BuilderWalk.Walker (E:=E)) (v : ValidatorWalk.Walker) : Prop := {
  together_roots : BuilderWalk.root b = rootF ∧ ValidatorWalk.root v = rootG;
  together_limits : BuilderWalk.limits b = limits ∧ ValidatorWalk.limits v = limits;
  together_count : BuilderWalk.entry_count b = ValidatorWalk.entry_count v;
  together_links : links_alike (BuilderWalk.hardlinks b) (ValidatorWalk.hardlinks v);
  together_link_bytes : BuilderWalk.hardlink_path_bytes b = ValidatorWalk.hardlink_path_bytes v;
  together_bytes : ValidatorWalk.byte_count v = (BuilderWalk.byte_count b + len (BuilderWalk.chunk b))%N;
  together_bound : (ValidatorWalk.byte_count v ≤ ManifestLimits.max_total_bytes limits)%N;
  together_hashed : ∃ ps qs, BuilderWalk.manifest_hasher b = foldl hasher_update hasher_new ps ∧
    ValidatorWalk.manifest_hasher v = foldl hasher_update hasher_new qs ∧ concat ps ++ BuilderWalk.chunk b = concat qs;
}.

Lemma together_insert limits b v rel m n path path_bytes :
  Tree.symlink_metadata F (path_from_relative rootF rel) = inr m →
  Tree.symlink_metadata G (path_from_relative rootG rel) = inr n →
  BuilderWalk.hardlinks b !! inode m = None → together limits b v →
  together limits (BuilderWalk.set_hardlinks (<[inode m := path]> (BuilderWalk.hardlinks b)) path_bytes b)
    (ValidatorWalk.set_hardlinks (<[inode n := path]> (ValidatorWalk.hardlinks v)) path_bytes v).
Proof. intros Hm Hn Hl []. split; try done. by apply (links_alike_insert _ _ rel). Qed.

Lemma same_evidence limits b v rel m n :
  Tree.symlink_metadata F (path_from_relative rootF rel) = inr m →
  Tree.symlink_metadata G (path_from_relative rootG rel) = inr n →
  together limits b v →
  alike (λ x y, x.1 = y.1 ∧ together limits x.2 y.2)
    (BuilderWalk.file_evidence F b (path_from_relative rootF rel) rel m)
    (ValidatorWalk.file_evidence G v (path_from_relative rootG rel) rel n).
Proof.
  intros Hm Hn Ht. pose proof (st_metadata _ _ _ _ Hsame rel) as Hmn. rewrite Hm, Hn in Hmn. unfold io_alike, same_node in Hmn.
  unfold BuilderWalk.file_evidence, ValidatorWalk.file_evidence.
  change (NodeMetadata.dev m, NodeMetadata.ino m) with (inode m). change (NodeMetadata.dev n, NodeMetadata.ino n) with (inode n).
  assert (NodeMetadata.file_type n = NodeMetadata.file_type m ∧ NodeMetadata.nlink n = NodeMetadata.nlink m) as [Hft Hnl] by (by rewrite Hmn).
  rewrite Hft, Hnl. case_decide; [|done].
  assert (∀ b v, together limits b v → alike (λ x y, x.1 = y.1 ∧ together limits x.2 y.2)
    (digest ← BuilderWalk.hash_regular_file F (path_from_relative rootF rel); Ok (Some digest, None : option bytes, b))
    (digest ← ValidatorWalk.hash_regular_file G (path_from_relative rootG rel); Ok (Some digest, None : option bytes, v))) as Hhash.
  { intros b' v' Ht'. apply same_bind; [apply same_hash|]. done. }
  case_decide; [|by apply Hhash]. pose proof Ht as [_ [Hlb Hlv] _ [Hsize Hlinks] Hbytes _ _ _].
  pose proof (Hlinks _ _ _ Hm Hn) as Hlk. rewrite <- Hlk. destruct (BuilderWalk.hardlinks b !! inode m) as [first_path|] eqn:Hlook; [done|].
  rewrite Hlb, Hlv, <- Hsize, <- Hbytes. apply same_guard; [done|]. apply same_bind; [apply same_ok_or|]. intros path_bytes.
  apply same_guard; [done|]. apply Hhash. by apply (together_insert _ _ _ rel).
Qed.

Lemma same_entry limits b v rel m n :
  Tree.symlink_metadata F (path_from_relative rootF rel) = inr m →
  Tree.symlink_metadata G (path_from_relative rootG rel) = inr n →
  together limits b v →
  alike (λ x y, x.1 = y.1 ∧ together limits x.2 y.2)
    (BuilderWalk.make_entry F b (path_from_relative rootF rel) rel m)
    (ValidatorWalk.make_entry G v (path_from_relative rootG rel) rel n).
Proof.
  intros Hm Hn Ht. pose proof (same_evidence _ _ _ _ _ _ Hm Hn Ht) as Hev.
  pose proof (st_metadata _ _ _ _ Hsame rel) as Hmn. rewrite Hm, Hn in Hmn. unfold io_alike, same_node in Hmn.
  unfold BuilderWalk.make_entry, ValidatorWalk.make_entry.
  assert (NodeMetadata.file_type n = NodeMetadata.file_type m) as Hft by (by rewrite Hmn). rewrite Hft.
  destruct (kind_of (NodeMetadata.file_type m)) as [kind|]; [|done].
  apply same_bind.
  { case_decide; [|done]. apply same_bind; [apply same_io, Hsame|]. done. }
  intros target. eapply alike_bind; [exact Hev|]. intros [[content link] b'] [[content' link'] v'] ([= <- <-] & Ht').
  assert (NodeMetadata.mtime_nsec n = NodeMetadata.mtime_nsec m) as -> by (by rewrite Hmn).
  apply same_bind; [apply same_ok_or|]. intros nanoseconds. cbn [snd] in Ht'. pose proof Ht' as [_ [-> ->] _ _ _ _ _ _].
  apply same_bind; [apply same_xattrs|]. intros xattrs. cbv zeta. rewrite Hmn.
  cbn [NodeMetadata.mode NodeMetadata.uid NodeMetadata.gid NodeMetadata.size NodeMetadata.rdev NodeMetadata.mtime].
  apply same_bind; [apply same_map_err, same_map_err_r, same_refl|]. by intros [].
Qed.

Lemma np_children (b : BuilderWalk.Walker (E:=E)) acc listing : no_panic (fold_result (BuilderWalk.read_child b) acc listing).
Proof.
  revert acc. induction listing as [|child listing IH]; intros acc; cbn [fold_result]; [done|]. apply np_bind; [|done].
  destruct acc as [children total]. unfold BuilderWalk.read_child, BuilderWalk.manifest_error. destruct child; [done|]. simpl. case_decide; [done|].
  destruct (checked_add _ _); [|done]. simpl. by repeat case_decide.
Qed.

Lemma same_child_loop limits b v acc listing :
  together limits b v → same (fold_result (BuilderWalk.read_child b) acc listing) (fold_result (ValidatorWalk.read_child v) acc listing).
Proof.
  intros [_ [Hlb Hlv] Hc _ _ _ _ _]. apply alike_fold; [done|]. intros [children total] ? child _ <-.
  unfold BuilderWalk.read_child, ValidatorWalk.read_child. rewrite Hlb, Hlv, Hc.
  apply same_bind; [by destruct child|]. intros name. apply same_guard; [done|]. apply same_bind; [apply same_ok_or|]. intros t.
  do 3 (apply same_guard; [done|]). done.
Qed.

Lemma children_order (b : BuilderWalk.Walker (E:=E)) names names' r :
  names ≡ₚ names' → fold_result (BuilderWalk.read_child b) ([], 0%N) (inr <$> names) = Ok r →
  ∃ s, fold_result (BuilderWalk.read_child b) ([], 0%N) (inr <$> names') = Ok s ∧ r.1 ≡ₚ s.1.
Proof.
  intros Hp (l & Hl & Hn & -> & Hw)%read_children_Ok. apply (inj (fmap inr)) in Hl as <-.
  exists (names', sum_of len names'). split; [|done]. apply read_children_Ok. exists names'. split_and!; [done|by rewrite <- Hp|done|].
  intros Hne. cbn [fst snd app] in *. rewrite <- (sum_of_order _ _ _ Hp). unfold within_directory in *. rewrite <- (len_order _ _ Hp).
  apply Hw. intros ->. by apply Permutation_nil_l in Hp.
Qed.

Lemma same_children limits b v l k :
  same_listing l k → together limits b v →
  alike (λ x y, sort x.1 = sort y.1) (fold_result (BuilderWalk.read_child b) ([], 0%N) l) (fold_result (ValidatorWalk.read_child v) ([], 0%N) k).
Proof.
  intros Hlk Ht. pose proof (same_child_loop limits b v ([], 0%N) k Ht) as H2.
  assert (alike (λ x y, sort x.1 = sort y.1) (fold_result (BuilderWalk.read_child b) ([], 0%N) l)
    (fold_result (BuilderWalk.read_child b) ([], 0%N) k)) as H1.
  { apply alike_intro; [apply np_children..| |].
    - intros r Hr. destruct Hlk as [(names & names' & -> & -> & Hp)|[Hl _]].
      + destruct (children_order b _ _ _ Hp Hr) as (s & Hs & Hrs). exists s. split; [done|by apply sort_order].
      + apply read_children_Ok in Hr as (names & Hl' & _). by apply Hl in Hl'.
    - intros s Hs. destruct Hlk as [(names & names' & -> & -> & Hp)|[_ Hk]].
      + destruct (children_order b _ _ _ (symmetry Hp) Hs) as (r & Hr & Hrs). exists r. split; [done|symmetry; by apply sort_order].
      + apply read_children_Ok in Hs as (names & Hk' & _). by apply Hk in Hk'. }
  revert H1 H2. destruct (fold_result (BuilderWalk.read_child b) ([], 0%N) l), (fold_result (BuilderWalk.read_child b) ([], 0%N) k),
    (fold_result (ValidatorWalk.read_child v) ([], 0%N) k); try done. intros Hr <-. exact Hr.
Qed.

(** *** Adding an entry *)
Context (emit : E → BuilderMessage.t → BuilderWalk.bresult E) (Hemit : ∀ e m, ∃ e', emit e m = Ok e').

Definition pushed (v : ValidatorWalk.Walker) (encoded : bytes) : ValidatorWalk.Walker :=
  ValidatorWalk.walker (ValidatorWalk.root v) (ValidatorWalk.limits v) (ValidatorWalk.hardlinks v) (ValidatorWalk.hardlink_path_bytes v)
    (ValidatorWalk.entry_count v + 1) (ValidatorWalk.byte_count v + (len encoded + 4))
    (hasher_update (hasher_update (ValidatorWalk.manifest_hasher v) (to_be 4 (len encoded))) encoded).

Lemma validator_push_Ok L v entry v' :
  limits_ok L → ValidatorWalk.limits v = L →
  ValidatorWalk.push_entry v entry = Ok v' ↔
    (ValidatorWalk.entry_count v < ManifestLimits.max_entries L)%N ∧
    ∃ encoded, encodes L entry encoded ∧
      (ValidatorWalk.byte_count v + (len encoded + 4) ≤ ManifestLimits.max_total_bytes L)%N ∧ v' = pushed v encoded.
Proof.
  intros Hok Hl. unfold limits_ok, MAX_MANIFEST_ENTRY_BYTES, MAX_MANIFEST_CHUNK_BYTES, MAX_MANIFEST_ENTRIES, MAX_MANIFEST_BYTES in Hok.
  unfold ValidatorWalk.push_entry, ValidatorWalk.manifest_error. rewrite guard_ok, N.nle_gt, Hl, bind_ok.
  split; intros (Hc & encoded & He).
  - rewrite map_err_ok, guard_ok in He. destruct He as (He & Hfit & Hr). split; [done|]. exists encoded.
    assert (entry_fits (ManifestLimits.max_entry_bytes L) encoded) as Hf by (unfold entry_fits; rewrite <- len_zero in Hfit; lia).
    split; [done|]. unfold entry_fits in Hf. rewrite (checked_add_fits (len encoded)) in Hr by (unfold u64_bound; lia). cbn [ok_or mbind result_bind] in Hr.
    rewrite !decide_False in Hr by (unfold u32_bound; lia). apply bind_ok in Hr as (n & (-> & _)%ok_or_ok%checked_add_Some & Hr).
    rewrite guard_ok, N.nlt_ge in Hr. destruct Hr as (Hn & Hr). cbv zeta in Hr.
    rewrite checked_add_fits in Hr by (unfold u64_bound; lia). cbn [ok_or mbind result_bind] in Hr. apply ok_inj in Hr as <-.
    split; [done|]. unfold pushed. by rewrite Hl.
  - destruct He as ((He & Hf) & Hn & ->). split; [done|]. exists encoded. rewrite map_err_ok. split; [done|].
    unfold entry_fits in Hf. rewrite decide_False by (rewrite <- len_zero; lia).
    rewrite (checked_add_fits (len encoded)) by (unfold u64_bound; lia). cbn [ok_or mbind result_bind]. rewrite !decide_False by (unfold u32_bound; lia).
    rewrite (checked_add_fits (ValidatorWalk.byte_count v)) by (unfold u64_bound; lia). cbn [ok_or mbind result_bind]. rewrite decide_False by lia.
    cbv zeta. rewrite checked_add_fits by (unfold u64_bound; lia). unfold pushed. by rewrite Hl.
Qed.

(** Both walkers after the same entry *)
Lemma together_added L b v encoded b1 :
  together L b v → ready emit L b encoded b1 →
  (ValidatorWalk.byte_count v + (len encoded + 4) ≤ ManifestLimits.max_total_bytes L)%N → together L (added b1 encoded) (pushed v encoded).
Proof.
  intros [[Hr1 Hr2] [Hl1 Hl2] Hc Hlk Hlb Hb Hbound (ps & qs & Hps & Hqs & Hpq)] Hready Hmax.
  assert (together L b1 v) as [[Hr1' _] [Hl1' _] Hc' Hlk' Hlb' Hb' _ (ps' & qs' & Hps' & Hqs' & Hpq')].
  { unfold ready in Hready. case_decide.
    - destruct Hready as (_ & e & _ & ->). split; try done.
      + cbn [flushed BuilderWalk.byte_count BuilderWalk.chunk]. rewrite len_nil. unfold total. lia.
      + exists (ps ++ [BuilderWalk.chunk b]), qs. cbn [flushed BuilderWalk.manifest_hasher BuilderWalk.chunk].
        rewrite foldl_app, <- Hps, concat_app, app_nil_r. simpl. by rewrite app_nil_r.
    - subst b1. split; try done. by exists ps, qs. }
  split; cbn [added pushed BuilderWalk.byte_count BuilderWalk.chunk BuilderWalk.root BuilderWalk.limits BuilderWalk.entry_count
    ValidatorWalk.root ValidatorWalk.limits ValidatorWalk.entry_count ValidatorWalk.byte_count]; try done.
  - by rewrite Hc'.
  - rewrite Hb', !len_app, len_to_be. lia.
  - exists ps', (qs' ++ [to_be 4 (len encoded); encoded]). cbn [added pushed BuilderWalk.manifest_hasher ValidatorWalk.manifest_hasher].
    rewrite foldl_app, <- Hqs', concat_app, <- Hpq'. simpl. by rewrite app_nil_r, <- !(assoc_L (++)).
Qed.

Lemma total_added (b : BuilderWalk.Walker (E:=E)) encoded : total (added b encoded) = (total b + (len encoded + 4))%N.
Proof. unfold total. cbn [added BuilderWalk.byte_count BuilderWalk.chunk]. rewrite !len_app, len_to_be. lia. Qed.

(** What an entry that the builder adds leaves *)
Lemma push_sound L b pending entry b' :
  sound L b pending → BuilderWalk.push_entry emit b entry = Ok b' → (∃ pending', sound L b' pending') ∧ (total b ≤ total b')%N.
Proof.
  intros Hs (Hc & encoded & b1 & (_ & Hfit) & Hr & ->)%(push_Ok emit L b pending); [|done].
  destruct (ready_sound _ _ _ _ _ _ Hs Hfit Hr) as (pending' & Hs1 & Hlen & Hcount & Ht). split.
  - exists (pending' ++ [encoded]). apply added_sound; [done..|by rewrite Hcount].
  - rewrite total_added, Ht. lia.
Qed.

Lemma push_forward L b v pending entry b' :
  together L b v → sound L b pending → BuilderWalk.push_entry emit b entry = Ok b' →
  (∃ v', ValidatorWalk.push_entry v entry = Ok v' ∧ together L b' v') ∨ (ManifestLimits.max_total_bytes L < total b')%N.
Proof.
  intros Ht Hs (Hc & encoded & b1 & Henc & Hr & ->)%(push_Ok emit L b pending); [|done].
  destruct (ready_sound _ _ _ _ _ _ Hs (proj2 Henc) Hr) as (_ & _ & _ & _ & Htot). rewrite total_added, Htot.
  destruct (decide (total b + (len encoded + 4) ≤ ManifestLimits.max_total_bytes L)%N) as [Hn|Hn]; [left|right; lia].
  pose proof Ht as [_ [_ Hlv] Hcv _ _ Hbv _ _]. exists (pushed v encoded). split; [|apply (together_added L b); [done..|by rewrite Hbv]].
  apply (validator_push_Ok L); [apply Hs|done|]. rewrite <- Hcv. split; [done|]. exists encoded. rewrite Hbv. done.
Qed.

Lemma push_back L b v pending entry v' :
  together L b v → sound L b pending → ValidatorWalk.push_entry v entry = Ok v' →
  ∃ b', BuilderWalk.push_entry emit b entry = Ok b' ∧ together L b' v'.
Proof.
  intros Ht Hs Hv. pose proof Ht as [_ [_ Hlv] Hcv _ _ Hbv _ _].
  apply (validator_push_Ok L) in Hv as (Hc & encoded & Henc & Hn & ->); [|apply Hs|done]. rewrite <- Hcv in Hc.
  assert (∃ b1, ready emit L b encoded b1) as [b1 Hr].
  { unfold ready. case_decide; [|by eexists]. destruct (Hemit (BuilderWalk.emitter b) (chunk_message b)) as [e He].
    exists (flushed b e). split; [rewrite Hbv in Hn; unfold total; lia|by exists e]. }
  exists (added b1 encoded). split; [|by apply (together_added L b)]. apply (push_Ok emit L b pending); [done|]. split; [done|]. by exists encoded, b1.
Qed.

(** *** Visiting a tree *)

(** A walker of the builder and what it becomes *)
Definition keeps (L : ManifestLimits.t) (b b' : BuilderWalk.Walker (E:=E)) : Prop :=
  (∃ pending, sound L b' pending) ∧ (total b ≤ total b')%N.

Lemma hardlinks_sound L links n (b : BuilderWalk.Walker (E:=E)) pending : sound L b pending → sound L (BuilderWalk.set_hardlinks links n b) pending.
Proof. intros []. by split. Qed.

Lemma make_entry_keeps L T (b : BuilderWalk.Walker (E:=E)) pending path rel m e b' :
  sound L b pending → BuilderWalk.make_entry T b path rel m = Ok (e, b') → sound L b' pending ∧ total b' = total b.
Proof.
  intros Hs. unfold BuilderWalk.make_entry. destruct (kind_of _) as [kind|]; [|done]. intros (target & _ & Hr)%bind_ok.
  apply bind_ok in Hr as ([[content link] b1] & Hev & Hr). apply bind_ok in Hr as (ns & _ & Hr). apply bind_ok in Hr as (xattrs & _ & Hr).
  cbv zeta in Hr. apply bind_unit_ok in Hr as (_ & [= _ <-]). unfold BuilderWalk.file_evidence in Hev.
  case_decide; [|by simplify_eq]. cbv zeta in Hev. case_decide; [|by apply bind_ok in Hev as (digest & _ & [= _ _ <-])].
  destruct (BuilderWalk.hardlinks b !! _); [by simplify_eq|]. apply guard_ok in Hev as (_ & Hev). apply bind_ok in Hev as (n & _ & Hev).
  apply guard_ok in Hev as (_ & Hev). apply bind_ok in Hev as (digest & _ & [= _ _ <-]). split; [by apply hardlinks_sound|done].
Qed.

Lemma fold_keeps L (f : BuilderWalk.Walker (E:=E) → bytes → BuilderWalk.bresult (BuilderWalk.Walker (E:=E))) children b pending b' :
  (∀ b pending child b', sound L b pending → f b child = Ok b' → keeps L b b') →
  sound L b pending → fold_result f b children = Ok b' → keeps L b b'.
Proof.
  intros Hf. revert b pending. induction children as [|child children IH]; intros b pending Hs; cbn [fold_result].
  - intros <-%ok_inj. split; [by eexists|done].
  - intros (b1 & H1 & H2)%bind_ok. destruct (Hf _ _ _ _ Hs H1) as ([pending1 Hs1] & Ht1). destruct (IH _ _ Hs1 H2) as (H3 & Ht2).
    split; [done|lia].
Qed.

Lemma visit_keeps L T fuel b pending rel depth b' :
  sound L b pending → BuilderWalk.visit emit T fuel b rel depth = Ok b' → keeps L b b'.
Proof.
  revert b pending rel depth b'. induction fuel as [|fuel IH]; intros b pending rel depth b' Hs; [done|]. cbn [BuilderWalk.visit].
  intros (_ & (_ & (m & _ & Hr)%bind_ok)%guard_ok)%guard_ok. cbv zeta in Hr. apply bind_ok in Hr as ([e b1] & He & Hr).
  apply (make_entry_keeps L) with (pending := pending) in He as (Hs1 & Ht1); [|done]. apply bind_ok in Hr as (b2 & Hp & Hr).
  destruct (push_sound L _ _ _ _ Hs1 Hp) as ([pending2 Hs2] & Ht2).
  case_decide; [apply ok_inj in Hr as <-; split; [by eexists|lia]|]. apply bind_ok in Hr as (listing & _ & Hr).
  apply bind_ok in Hr as ([children n] & _ & Hr). eapply fold_keeps in Hr as (Hs3 & Ht3); [split; [done|lia]| |exact Hs2].
  intros b3 p3 child b4 Hs3 Hv. case_decide; [|done]. by eapply IH.
Qed.

(** The limit on bytes is passed, which the builder notices when it sends the chunk. *)
Definition doomed (L : ManifestLimits.t) (b : BuilderWalk.Walker (E:=E)) : Prop := (ManifestLimits.max_total_bytes L < total b)%N.

Lemma fold_forward L (f : BuilderWalk.Walker (E:=E) → bytes → BuilderWalk.bresult (BuilderWalk.Walker (E:=E)))
    (g : ValidatorWalk.Walker → bytes → ValidatorWalk.vresult ValidatorWalk.Walker) children b v pending b' :
  (∀ b pending child b', sound L b pending → f b child = Ok b' → keeps L b b') →
  (∀ b v pending child b', together L b v → sound L b pending → f b child = Ok b' →
     (∃ v', g v child = Ok v' ∧ together L b' v') ∨ doomed L b') →
  together L b v → sound L b pending → fold_result f b children = Ok b' →
  (∃ v', fold_result g v children = Ok v' ∧ together L b' v') ∨ doomed L b'.
Proof.
  intros Hk Hf. revert b v pending. induction children as [|child children IH]; intros b v pending Ht Hs; cbn [fold_result].
  - intros <-%ok_inj. left. by exists v.
  - intros (b1 & H1 & H2)%bind_ok. destruct (Hk _ _ _ _ Hs H1) as ([pending1 Hs1] & _).
    destruct (Hf _ _ _ _ _ Ht Hs H1) as [(v1 & -> & Ht1)|Hd]; [by eapply IH|right].
    destruct (fold_keeps L f children b1 pending1 b' Hk Hs1 H2) as (_ & Hle). unfold doomed in *. lia.
Qed.

(** The builder's walk is the validator's, unless it is beyond the limit on bytes. *)
Lemma visit_forward L fuel b v pending rel depth b' :
  together L b v → sound L b pending → BuilderWalk.visit emit F fuel b rel depth = Ok b' →
  (∃ v', ValidatorWalk.visit G fuel v rel depth = Ok v' ∧ together L b' v') ∨ doomed L b'.
Proof.
  revert b v pending rel depth b'. induction fuel as [|fuel IH]; intros b v pending rel depth b' Ht Hs Hv; [done|].
  cbn [BuilderWalk.visit] in Hv. cbn [ValidatorWalk.visit].
  apply guard_ok in Hv as (Hd & Hv). apply guard_ok in Hv as (Hl & Hv). cbv zeta in *. apply bind_ok in Hv as (m & Hm & Hv).
  pose proof Ht as [[HrF HrG] [HlF HlG] _ _ _ _ _ _]. rewrite HrF, ?HlF in *. rewrite HrG, HlG, !decide_False by done.
  pose proof (st_metadata _ _ _ _ Hsame rel) as Hmn. destruct (Tree.symlink_metadata F _) as [|m0] eqn:HmF; [done|]. apply ok_inj in Hm as ->.
  destruct (Tree.symlink_metadata G _) as [|n] eqn:HmG; [done|]. cbn [ValidatorWalk.manifest_io mbind result_bind].
  apply bind_ok in Hv as ([e b1] & He & Hv). pose proof (make_entry_keeps L _ _ _ _ _ _ _ _ Hs He) as (Hs1 & Ht1).
  destruct (alike_ok _ _ _ _ (same_entry _ _ _ _ _ _ HmF HmG Ht) He) as ([e' v1] & -> & [= <-] & Htog1). cbn [mbind result_bind snd] in *.
  apply bind_ok in Hv as (b2 & Hp & Hv). destruct (push_sound L _ _ _ _ Hs1 Hp) as ([pending2 Hs2] & Ht2).
  assert (NodeMetadata.file_type n = NodeMetadata.file_type m) as -> by (by rewrite Hmn).
  pose proof (push_forward _ _ _ _ _ _ Htog1 Hs1 Hp) as Hpush.
  assert (∀ b3 p3 child b4, sound L b3 p3 → (if decide (depth + 1 < u16_bound)%N
    then BuilderWalk.visit emit F fuel b3 (child_relative rel child) (depth + 1) else Panic) = Ok b4 → keeps L b3 b4) as Hkeep.
  { intros b3 p3 child b4 Hs3 Hv3. case_decide; [|done]. by eapply visit_keeps. }
  destruct (decide (NodeMetadata.file_type m ≠ FileType.Dir)).
  { apply ok_inj in Hv as <-. destruct Hpush as [(v2 & -> & Htog2)|Hdoom]; [|by right]. left. by exists v2. }
  apply bind_ok in Hv as (listing & Hls & Hv). apply bind_ok in Hv as ([children total'] & Hch & Hv).
  destruct Hpush as [(v2 & -> & Htog2)|Hdoom]; cbn [mbind result_bind].
  - pose proof (st_listing _ _ _ _ Hsame rel) as Hlist. destruct (Tree.read_dir F _) as [|l]; [done|]. apply ok_inj in Hls as ->.
    destruct (Tree.read_dir G _) as [|k]; [done|]. cbn [ValidatorWalk.manifest_io mbind result_bind].
    destruct (alike_ok _ _ _ _ (same_children L _ _ _ _ Hlist Htog2) Hch) as ([children' total''] & -> & Hsort). cbn [mbind result_bind fst] in *.
    rewrite <- Hsort. eapply fold_forward; [exact Hkeep| |exact Htog2|exact Hs2|exact Hv].
    intros b3 v3 p3 child b4 Ht3 Hs3 Hv3. case_decide; [|done]. by eapply IH.
  - right. destruct (fold_keeps L _ _ _ _ _ Hkeep Hs2 Hv) as (_ & Hle). unfold doomed in *. lia.
Qed.

Lemma fold_back L (f : BuilderWalk.Walker (E:=E) → bytes → BuilderWalk.bresult (BuilderWalk.Walker (E:=E)))
    (g : ValidatorWalk.Walker → bytes → ValidatorWalk.vresult ValidatorWalk.Walker) children b v pending v' :
  (∀ b pending child b', sound L b pending → f b child = Ok b' → keeps L b b') →
  (∀ b v pending child v', together L b v → sound L b pending → g v child = Ok v' → ∃ b', f b child = Ok b' ∧ together L b' v') →
  together L b v → sound L b pending → fold_result g v children = Ok v' →
  ∃ b', fold_result f b children = Ok b' ∧ together L b' v'.
Proof.
  intros Hk Hf. revert b v pending. induction children as [|child children IH]; intros b v pending Ht Hs; cbn [fold_result].
  - intros <-%ok_inj. by exists b.
  - intros (v1 & H1 & H2)%bind_ok. destruct (Hf _ _ _ _ _ Ht Hs H1) as (b1 & Hb1 & Ht1). rewrite Hb1. cbn [mbind result_bind].
    destruct (Hk _ _ _ _ Hs Hb1) as ([pending1 Hs1] & _). by eapply IH.
Qed.

Lemma visit_back L fuel b v pending rel depth v' :
  together L b v → sound L b pending → ValidatorWalk.visit G fuel v rel depth = Ok v' →
  ∃ b', BuilderWalk.visit emit F fuel b rel depth = Ok b' ∧ together L b' v'.
Proof.
  revert b v pending rel depth v'. induction fuel as [|fuel IH]; intros b v pending rel depth v' Ht Hs Hv; [done|].
  cbn [ValidatorWalk.visit] in Hv. cbn [BuilderWalk.visit].
  apply guard_ok in Hv as (Hd & Hv). apply guard_ok in Hv as (Hl & Hv). cbv zeta in *. apply bind_ok in Hv as (n & Hn & Hv).
  pose proof Ht as [[HrF HrG] [HlF HlG] _ _ _ _ _ _]. rewrite HrG, ?HlG in *. rewrite HrF, HlF, !decide_False by done.
  pose proof (st_metadata _ _ _ _ Hsame rel) as Hmn. destruct (Tree.symlink_metadata G _) as [|n0] eqn:HmG; [done|]. apply ok_inj in Hn as ->.
  destruct (Tree.symlink_metadata F _) as [|m] eqn:HmF; [done|]. cbn [BuilderWalk.manifest_io mbind result_bind].
  apply bind_ok in Hv as ([e v1] & He & Hv).
  destruct (alike_ok_r _ _ _ _ (same_entry _ _ _ _ _ _ HmF HmG Ht) He) as ([e' b1] & Hb1 & [= ->] & Htog1). rewrite Hb1. cbn [mbind result_bind snd] in *.
  pose proof (make_entry_keeps L _ _ _ _ _ _ _ _ Hs Hb1) as (Hs1 & Ht1).
  apply bind_ok in Hv as (v2 & Hp & Hv). destruct (push_back _ _ _ _ _ _ Htog1 Hs1 Hp) as (b2 & Hb2 & Htog2). rewrite Hb2. cbn [mbind result_bind].
  destruct (push_sound L _ _ _ _ Hs1 Hb2) as ([pending2 Hs2] & Ht2).
  assert (NodeMetadata.file_type n = NodeMetadata.file_type m) as Hft by (by rewrite Hmn). rewrite Hft in Hv.
  case_decide; [apply ok_inj in Hv as <-; by exists b2|].
  apply bind_ok in Hv as (listing & Hls & Hv). apply bind_ok in Hv as ([children total'] & Hch & Hv).
  pose proof (st_listing _ _ _ _ Hsame rel) as Hlist. destruct (Tree.read_dir G _) as [|k]; [done|]. apply ok_inj in Hls as ->.
  destruct (Tree.read_dir F _) as [|l]; [done|]. cbn [BuilderWalk.manifest_io mbind result_bind].
  destruct (alike_ok_r _ _ _ _ (same_children L _ _ _ _ Hlist Htog2) Hch) as ([children' total''] & -> & Hsort). cbn [mbind result_bind fst] in *.
  rewrite Hsort. eapply fold_back; [| |exact Htog2|exact Hs2|exact Hv].
  - intros b3 p3 child b4 Hs3 Hv3. case_decide; [|done]. by eapply visit_keeps.
  - intros b3 v3 p3 child v4 Ht3 Hs3 Hv3. case_decide; [|done]. by eapply IH.
Qed.

(** *** The whole walk *)
Lemma together_start L stream e :
  together L (BuilderWalk.walker rootF L stream e ∅ 0 [] 0 0 0 0 0 hasher_new) (ValidatorWalk.walker rootG L ∅ 0 0 0 hasher_new).
Proof. split; try done; [cbn; lia|]. by exists [], []. Qed.

Lemma sound_start L root stream (e : E) : limits_ok L → sound L (BuilderWalk.walker root L stream e ∅ 0 [] 0 0 0 0 0 hasher_new) [].
Proof. intros Hok. split; try done; cbn; rewrite ?len_nil; lia. Qed.

(** What the last flush leaves, and that it needs the limit on bytes *)
Lemma last_flush L b pending b' :
  sound L b pending → BuilderWalk.flush_chunk emit b = Ok b' →
  ¬ doomed L b ∧ BuilderWalk.entry_count b' = BuilderWalk.entry_count b ∧ BuilderWalk.byte_count b' = total b ∧
  ∃ pieces, BuilderWalk.manifest_hasher b' = foldl hasher_update (BuilderWalk.manifest_hasher b) pieces ∧ concat pieces = BuilderWalk.chunk b.
Proof.
  intros Hs Hf. unfold doomed. destruct (decide (BuilderWalk.chunk b = [])) as [Hz|Hz].
  - unfold BuilderWalk.flush_chunk in Hf. rewrite decide_True in Hf by done. apply ok_inj in Hf as <-. unfold total. rewrite Hz, len_nil.
    pose proof (sound_bytes _ _ _ Hs). split_and!; [lia|done|lia|]. by exists [].
  - apply (flush_Ok emit L b pending) in Hf as (Ht & e & _ & ->); [|done..]. split_and!; [lia|done|done|].
    exists [BuilderWalk.chunk b]. cbn. by rewrite app_nil_r.
Qed.

Lemma digests_agree L b v b' pending :
  together L b v → sound L b pending → BuilderWalk.flush_chunk emit b = Ok b' →
  hasher_finalize (BuilderWalk.manifest_hasher b') = hasher_finalize (ValidatorWalk.manifest_hasher v) ∧
  BuilderWalk.entry_count b' = ValidatorWalk.entry_count v ∧ BuilderWalk.byte_count b' = ValidatorWalk.byte_count v.
Proof.
  intros [_ _ Hc _ _ Hb _ (ps & qs & Hps & Hqs & Hpq)] Hs Hf. destruct (last_flush _ _ _ _ Hs Hf) as (_ & Hc' & Hb' & pieces & Hh & Hp).
  split_and!; [|congruence|rewrite Hb', Hb; done]. rewrite Hqs, Hh, Hps, <- foldl_app, !sha256_pieces, concat_app, Hp. by rewrite Hpq.
Qed.

Definition same_summary (x : BuilderWalk.ManifestSummary) (y : ValidatorWalk.ManifestSummary) : Prop :=
  ValidatorWalk.summary_sha256 y = BuilderWalk.summary_sha256 x ∧
  ValidatorWalk.summary_entry_count y = BuilderWalk.summary_entry_count x ∧
  ValidatorWalk.summary_byte_count y = BuilderWalk.summary_byte_count x.

Lemma walk_forward schema L key e0 summary e :
  BuilderWalk.emit_manifest emit F rootF schema L key e0 = Ok (summary, e) →
  ∃ summary', ValidatorWalk.validate_manifest G rootG L = Ok summary' ∧ same_summary summary summary'.
Proof.
  unfold BuilderWalk.emit_manifest, ValidatorWalk.validate_manifest. intros (Hv & Hr)%bind_unit_ok. apply map_err_ok in Hv. rewrite Hv.
  apply limits_validate_Ok in Hv. cbn [map_err mbind result_bind]. apply bind_ok in Hr as (m & Hm & Hr).
  pose proof (st_metadata _ _ _ _ Hsame []) as Hmn. cbn [path_from_relative] in Hmn. destruct (Tree.symlink_metadata F rootF); [done|]. apply ok_inj in Hm as ->.
  destruct (Tree.symlink_metadata G rootG) as [|n]; [done|]. cbn [ValidatorWalk.manifest_io mbind result_bind].
  assert (NodeMetadata.file_type n = NodeMetadata.file_type m) as -> by (by rewrite Hmn). apply guard_ok in Hr as (Hd & Hr). rewrite decide_False by done.
  cbv zeta in Hr. apply bind_ok in Hr as (e1 & _ & Hr). apply bind_ok in Hr as (b & Hb & Hr). apply bind_ok in Hr as (b' & Hf & Hr).
  apply bind_ok in Hr as (e2 & _ & [= <- _]). pose proof (sound_start L rootF (BuilderWalk.stream_id_of key schema) e1 Hv) as Hs.
  destruct (visit_keeps _ _ _ _ _ _ _ _ Hs Hb) as ([pending Hsb] & _).
  destruct (visit_forward _ _ _ _ _ _ _ _ (together_start L _ e1) Hs Hb) as [(v & -> & Ht)|Hdoom]; [|by destruct (last_flush _ _ _ _ Hsb Hf)].
  cbn [mbind result_bind]. eexists. split; [done|]. destruct (digests_agree _ _ _ _ _ Ht Hsb Hf) as (H1 & H2 & H3).
  unfold same_summary. cbn. by rewrite H1, H2, H3.
Qed.

Lemma walk_back schema L key e0 summary' :
  ValidatorWalk.validate_manifest G rootG L = Ok summary' →
  ∃ r, BuilderWalk.emit_manifest emit F rootF schema L key e0 = Ok r ∧ same_summary r.1 summary'.
Proof.
  unfold BuilderWalk.emit_manifest, ValidatorWalk.validate_manifest. intros (Hv & Hr)%bind_unit_ok. apply map_err_ok in Hv.
  unfold BuilderWalk.manifest_protocol. rewrite Hv. apply limits_validate_Ok in Hv. cbn [map_err mbind result_bind]. apply bind_ok in Hr as (n & Hn & Hr).
  pose proof (st_metadata _ _ _ _ Hsame []) as Hmn. cbn [path_from_relative] in Hmn. destruct (Tree.symlink_metadata G rootG) as [|n0]; [done|]. apply ok_inj in Hn as ->.
  destruct (Tree.symlink_metadata F rootF) as [|m]; [done|]. cbn [BuilderWalk.manifest_io mbind result_bind].
  assert (NodeMetadata.file_type n = NodeMetadata.file_type m) as Hft by (by rewrite Hmn). apply guard_ok in Hr as (Hd & Hr). rewrite Hft in Hd. rewrite decide_False by done.
  apply bind_ok in Hr as (v & Hvis & <-%ok_inj). cbv zeta. destruct (Hemit e0 (BuilderMessage.ManifestBegin (ManifestBegin.manifest_begin schema (BuilderWalk.stream_id_of key schema)))) as [e1 ->].
  cbn [mbind result_bind]. pose proof (sound_start L rootF (BuilderWalk.stream_id_of key schema) e1 Hv) as Hs.
  destruct (visit_back _ _ _ _ _ _ _ _ (together_start L _ e1) Hs Hvis) as (b & Hb & Ht). rewrite Hb. cbn [mbind result_bind].
  destruct (visit_keeps _ _ _ _ _ _ _ _ Hs Hb) as ([pending Hsb] & _).
  assert (∃ b', BuilderWalk.flush_chunk emit b = Ok b') as [b' Hf].
  { destruct (decide (BuilderWalk.chunk b = [])) as [Hz|Hz]; [exists b; unfold BuilderWalk.flush_chunk; by rewrite decide_True|].
    destruct (Hemit (BuilderWalk.emitter b) (chunk_message b)) as [e He]. exists (flushed b e). apply (flush_Ok emit L b pending); [done..|].
    pose proof Ht as [_ _ _ _ _ Hbv Hmax _]. unfold total. rewrite <- Hbv. split; [done|by exists e]. }
  rewrite Hf. cbn [mbind result_bind]. destruct (digests_agree _ _ _ _ _ Ht Hsb Hf) as (H1 & H2 & H3).
  destruct (Hemit (BuilderWalk.emitter b') (BuilderMessage.ManifestEnd (ManifestEnd.manifest_end (BuilderWalk.stream_id_of key schema)
    (BuilderWalk.entry_count b') (BuilderWalk.byte_count b') (hex_lower (hasher_finalize (BuilderWalk.manifest_hasher b')))))) as [e2 ->].
  cbn [mbind result_bind]. eexists. split; [done|]. unfold same_summary. cbn. by rewrite H1, H2, H3.
Qed.
End agree.

(** C15: the builder's stream and the validator's second walk agree.  Over one file system as two mounts show it
    (whatever the order of listings, the pieces of reads and the numbers of inodes), and whatever its limits: the
    builder's walk, with an emitter that accepts its messages, succeeds exactly when the validator's does, neither
    panics, and the digest, the number of entries and the number of bytes are the same. *)
Theorem manifest_walks_agree {texts : ErrorTexts} {sha : Sha2} {laws : Sha2Laws} {codec : Cbor ManifestEntry.t}
    {codec_laws : CborLaws ManifestEntry.t} {E : Type} (emit : E → BuilderMessage.t → BuilderWalk.bresult E)
    (F G : Tree.t) rootF rootG schema L key e0 :
  (∀ e m, ∃ e', emit e m = Ok e') → same_tree F G rootF rootG →
  alike (λ x y, same_summary x.1 y) (BuilderWalk.emit_manifest emit F rootF schema L key e0) (ValidatorWalk.validate_manifest G rootG L).
Proof.
  intros Hemit Hsame. apply alike_intro.
  - apply builder_returns. intros e m. by destruct (Hemit e m) as [e' ->].
  - apply validator_returns.
  - intros [summary e] Hb. by eapply walk_forward.
  - intros summary Hv. by eapply walk_back.
Qed.
