(* ===== verification/HostManifest.v ===== *)
(** * What the host checks of a manifest stream: crates/pocket-runtime/src/builder.rs

    [ManifestStructuralVerifier], which follows the entries of the chunks that the builder
    guest sends: they are in the order of a depth-first walk, and the file system has a
    generation marker and a rootfs and nothing else. *)

From S2P Require Import Prelude RustStr ByteOrder ProtocolError Payload Sha256 BuilderManifest HexText NoPanic HostError.

#[local] Arguments bs : simpl never.

Abbreviation hresult := (result HostBuildError.t).

Fixpoint compare_components (left_components right_components : list bytes) : comparison :=
  match left_components, right_components with
  | [], [] => Eq
  | [], _ :: _ => Lt
  | _ :: _, [] => Gt
  | a :: l, b :: r => match bytes_compare a b with Eq => compare_components l r | ordering => ordering end
  end.

Definition manifest_path_order (l r : bytes) : comparison := compare_components (split x2f l) (split x2f r).

Section verifier.
Context {hex : Hex}.

Definition manifest_path_diagnostic (path : bytes) : bytes :=
  let MAXIMUM_BYTES := 128%N in
  let prefix := take (N.to_nat (N.min (len path) MAXIMUM_BYTES)) path in
  let suffix := if decide (MAXIMUM_BYTES < len path)%N
                then bs "...(+" ++ to_decimal (len path - MAXIMUM_BYTES) ++ bs " bytes)" else [] in
  bs "hex:" ++ hex_encode prefix ++ suffix.

Definition compare_evidence (field : string) (expected actual : bytes) : hresult () :=
  if decide (expected ≠ actual) then Err (HostBuildError.EvidenceMismatch field expected actual) else Ok ().
End verifier.

Definition MARKER_PATH : bytes := bs ".pocket-generation.cbor".

Module ManifestStructuralVerifier.
Record t : Set := mk {
  previous_path : option bytes;
  saw_root : bool;
  saw_rootfs : bool;
  marker_digest : option bytes;
}.

Definition default : t := mk None false false None.

Section verifier.
Context {hex : Hex} {codec : Cbor ManifestEntry.t}.

(** The paths are not in order. *)
Definition out_of_order (self : t) (path : bytes) : Prop :=
  is_some_and (λ previous, manifest_path_order previous path ≠ Lt) (previous_path self).
#[export] Instance out_of_order_dec self path : Decision (out_of_order self path).
Proof. unfold out_of_order. apply _. Defined.

Definition accept_entry (self : t) (entry : ManifestEntry.t) : hresult t :=
  let path := ManifestEntry.path entry in
  if decide (out_of_order self path)
  then HostBuildError.invalid "metadata.manifest"
         (bs "paths are not strictly increasing: " ++ manifest_path_diagnostic (match previous_path self with Some previous => previous | None => [] end) ++
          bs " then " ++ manifest_path_diagnostic path) else
  self ← (if decide (path = []) then
            if decide (saw_root self = true ∨ ManifestEntry.kind entry ≠ 2%N)
            then HostBuildError.invalid "metadata.manifest" (bs "root entry is duplicated or not a directory")
            else Ok (mk (previous_path self) true (saw_rootfs self) (marker_digest self))
          else if decide (path = MARKER_PATH) then
            if decide (ManifestEntry.kind entry ≠ 1%N ∨ is_Some (marker_digest self))
            then HostBuildError.invalid "metadata.manifest" (bs "generation marker is duplicated or not a regular file")
            else Ok (mk (previous_path self) (saw_root self) (saw_rootfs self) (hex_encode <$> ManifestEntry.content_sha256 entry))
          else if decide (path = bs "rootfs") then
            if decide (saw_rootfs self = true ∨ ManifestEntry.kind entry ≠ 2%N)
            then HostBuildError.invalid "metadata.manifest" (bs "rootfs entry is duplicated or not a directory")
            else Ok (mk (previous_path self) (saw_root self) true (marker_digest self))
          else if decide (¬ bs "rootfs/" `prefix_of` path)
            then HostBuildError.invalid "metadata.manifest" (bs "entry escapes the rootfs plus marker layout")
            else Ok self);
  Ok (mk (Some path) (saw_root self) (saw_rootfs self) (marker_digest self)).

(** The [while] loop; every round takes at least four bytes, so the length is fuel enough. *)
Fixpoint chunk_loop (fuel : nat) (self : t) (remaining : bytes) : hresult t :=
  match fuel with
  | O => Panic
  | S fuel =>
      if decide (remaining = []) then Ok self else
      if decide (len remaining < 4)%N then HostBuildError.invalid "metadata.manifest" (bs "truncated entry length") else
      let length := from_be (take 4 remaining) in
      if decide (len remaining < 4 + length)%N then HostBuildError.invalid "metadata.manifest" (bs "truncated entry") else
      let payload := take (N.to_nat length) (drop 4 remaining) in
      entry ← map_err HostBuildError.Protocol (decode_payload payload);
      map_err HostBuildError.Protocol (validate (entry : ManifestEntry.t));;
      self ← accept_entry self entry;
      chunk_loop fuel self (drop (4 + N.to_nat length) remaining)
  end.

Definition accept_chunk (self : t) (chunk : ManifestChunk.t) : hresult t :=
  chunk_loop (S (length (ManifestChunk.bytes chunk))) self (ManifestChunk.bytes chunk).

Definition marker_sha256 (self : t) : hresult bytes :=
  ok_or (marker_digest self) (HostBuildError.InvalidConfiguration "metadata.manifest" (bs "missing generation marker digest")).

Definition finish (self : t) : hresult () :=
  if decide (saw_root self = false ∨ saw_rootfs self = false ∨ marker_digest self = None)
  then HostBuildError.invalid "metadata.manifest" (bs "missing root, rootfs, or generation marker evidence") else Ok ().
End verifier.
End ManifestStructuralVerifier.

(** ** The order of paths *)
Lemma compare_components_eq l r : compare_components l r = Eq ↔ l = r.
Proof.
  revert r. induction l as [|a l IH]; intros [|b r]; simpl; [done..|].
  destruct (bytes_compare a b) eqn:Hab.
  - apply bytes_compare_eq in Hab as ->. rewrite IH. naive_solver.
  - split; [done|]. intros [= -> ->]. by rewrite (proj2 (bytes_compare_eq b b)) in Hab.
  - split; [done|]. intros [= -> ->]. by rewrite (proj2 (bytes_compare_eq b b)) in Hab.
Qed.

Definition components_lt (l r : list bytes) : Prop := compare_components l r = Lt.
Definition path_lt (a b : bytes) : Prop := manifest_path_order a b = Lt.

#[export] Instance components_lt_trans : Transitive components_lt.
Proof.
  unfold components_lt. intros l. induction l as [|a l IH]; intros [|b r] [|c k]; simpl; try done.
  destruct (bytes_compare a b) eqn:Hab; [| |done].
  - apply bytes_compare_eq in Hab as ->. destruct (bytes_compare b c); [apply IH|done..].
  - intros _. destruct (bytes_compare b c) eqn:Hbc; [|intros _|done].
    + apply bytes_compare_eq in Hbc as <-. by rewrite Hab.
    + assert (bytes_lt a c) as -> by (by trans b). done.
Qed.
#[export] Instance path_lt_trans : Transitive path_lt.
Proof. intros a b c. apply components_lt_trans. Qed.
#[export] Instance path_lt_irreflexive : Irreflexive path_lt.
Proof. intros a Ha. unfold complement, path_lt, manifest_path_order in *. by rewrite (proj2 (compare_components_eq _ _)) in Ha. Qed.

(** A prefix of components comes first; below equal components the rest decides. *)
Lemma components_lt_app l a r : components_lt l (l ++ a :: r).
Proof. unfold components_lt. induction l as [|b l IH]; simpl; [done|]. by rewrite (proj2 (bytes_compare_eq b b)). Qed.
Lemma components_lt_under l k r : components_lt (l ++ k) (l ++ r) ↔ components_lt k r.
Proof. unfold components_lt. induction l as [|b l IH]; simpl; [done|]. by rewrite (proj2 (bytes_compare_eq b b)). Qed.
Lemma components_lt_head a b l r : bytes_lt a b → components_lt (a :: l) (b :: r).
Proof. unfold components_lt, bytes_lt. simpl. by intros ->. Qed.

Lemma path_order_not_lt a b : manifest_path_order a b ≠ Lt ↔ ¬ path_lt a b.
Proof. done. Qed.

Lemma sorted_snoc {A} (R : A → A → Prop) l a : StronglySorted R (l ++ [a]) ↔ StronglySorted R l ∧ Forall (λ x, R x a) l.
Proof.
  induction l as [|b l IH]; simpl.
  - split; [intros _; split; constructor|]. intros _. by repeat constructor.
  - split.
    + intros H. inversion H as [|? ? Hs Hall]; subst. apply IH in Hs as [Hs Hl]. apply Forall_app in Hall as [Hall [Hb _]%Forall_cons].
      split; by constructor.
    + intros [H [Hb Hl]%Forall_cons]. inversion H as [|? ? Hs Hall]; subst. constructor; [by apply IH|].
      apply Forall_app. split; [done|by constructor].
Qed.

Lemma last_bounds {A} (R : A → A → Prop) `{!Transitive R} l a :
  StronglySorted R l → (∀ x, last l = Some x → R x a) → Forall (λ x, R x a) l.
Proof.
  intros Hs Hl. destruct (last l) as [p|] eqn:Hp; [|apply last_None in Hp as ->; constructor].
  apply last_Some in Hp as [l' ->]. apply sorted_snoc in Hs as [_ Hall]. specialize (Hl p eq_refl).
  apply Forall_app. split; [|by constructor]. eapply Forall_impl; [exact Hall|]. intros x Hx. by trans p.
Qed.

(** ** What the verifier accepts *)
Section accepts.
Context {hex : Hex} {codec : Cbor ManifestEntry.t}.
Import ManifestStructuralVerifier.

(** Where an entry may be *)
Definition placed (e : ManifestEntry.t) : Prop :=
  (ManifestEntry.path e = [] ∧ ManifestEntry.kind e = 2%N) ∨
  (ManifestEntry.path e = MARKER_PATH ∧ ManifestEntry.kind e = 1%N) ∨
  (ManifestEntry.path e = bs "rootfs" ∧ ManifestEntry.kind e = 2%N) ∨
  bs "rootfs/" `prefix_of` ManifestEntry.path e.

(** The verifier after some entries *)
Record seen (es : list ManifestEntry.t) (v : t) : Prop := {
  seen_sorted : StronglySorted path_lt (ManifestEntry.path <$> es);
  seen_previous : previous_path v = last (ManifestEntry.path <$> es);
  seen_root : saw_root v = true ↔ [] ∈ ManifestEntry.path <$> es;
  seen_rootfs : saw_rootfs v = true ↔ bs "rootfs" ∈ ManifestEntry.path <$> es;
  seen_marker d : marker_digest v = Some d ↔
    ∃ e, e ∈ es ∧ ManifestEntry.path e = MARKER_PATH ∧ hex_encode <$> ManifestEntry.content_sha256 e = Some d;
}.

Lemma seen_start : seen [] ManifestStructuralVerifier.default.
Proof. split; [constructor|done|set_solver|set_solver|]. intros d. split; [done|]. intros (e & He & _). set_solver. Qed.

(** A path in order is new. *)
Lemma in_order_new es v path :
  seen es v → ¬ out_of_order v path → Forall (λ p, path_lt p path) (ManifestEntry.path <$> es) ∧ path ∉ ManifestEntry.path <$> es.
Proof.
  intros [Hs Hp _ _ _] Ho. assert (Forall (λ p, path_lt p path) (ManifestEntry.path <$> es)) as Hall.
  { apply (last_bounds path_lt); [done|]. intros x Hx. unfold out_of_order in Ho. rewrite Hp, Hx in Ho. cbn in Ho.
    unfold path_lt. destruct (manifest_path_order x path); [exfalso; by apply Ho|done|exfalso; by apply Ho]. }
  split; [done|]. intros Hin. rewrite Forall_forall in Hall. by apply (irreflexivity path_lt path), Hall.
Qed.

Lemma in_order_iff es v path :
  seen es v → ¬ out_of_order v path ↔ StronglySorted path_lt ((ManifestEntry.path <$> es) ++ [path]).
Proof.
  intros Hs. rewrite sorted_snoc. split.
  - intros Ho. split; [apply Hs|by eapply in_order_new].
  - intros [_ Hall] Ho. unfold out_of_order in Ho. rewrite (seen_previous _ _ Hs) in Ho. destruct (last _) as [p|] eqn:Hp; [|done].
    cbn in Ho. apply Ho. apply last_Some in Hp as [l' Hl]. rewrite Hl in Hall. by apply Forall_app in Hall as [_ [Hx _]%Forall_cons].
Qed.

Lemma marker_not_rootfs : MARKER_PATH ≠ bs "rootfs" ∧ MARKER_PATH ≠ [] ∧ bs "rootfs" ≠ [].
Proof. done. Qed.
Lemma below_rootfs p : bs "rootfs/" `prefix_of` p → p ≠ [] ∧ p ≠ MARKER_PATH ∧ p ≠ bs "rootfs".
Proof. intros [k ->]. done. Qed.

Lemma seen_snoc es v e root rootfs marker :
  seen es v → StronglySorted path_lt ((ManifestEntry.path <$> es) ++ [ManifestEntry.path e]) →
  (root = true ↔ saw_root v = true ∨ ManifestEntry.path e = []) →
  (rootfs = true ↔ saw_rootfs v = true ∨ ManifestEntry.path e = bs "rootfs") →
  (∀ d, marker = Some d ↔ marker_digest v = Some d ∨ (ManifestEntry.path e = MARKER_PATH ∧ hex_encode <$> ManifestEntry.content_sha256 e = Some d)) →
  seen (es ++ [e]) (mk (Some (ManifestEntry.path e)) root rootfs marker).
Proof.
  intros [_ _ Hroot Hrootfs Hmarker] Hs H1 H2 H3. split; cbn [previous_path saw_root saw_rootfs marker_digest]; rewrite ?fmap_app; cbn [fmap list_fmap].
  - done.
  - by rewrite last_snoc.
  - rewrite H1, Hroot. set_solver.
  - rewrite H2, Hrootfs. set_solver.
  - intros d. rewrite H3, Hmarker. setoid_rewrite elem_of_app. setoid_rewrite list_elem_of_singleton. naive_solver.
Qed.

(** What an accepted entry shows *)
Lemma accept_entry_seen es v e v' :
  seen es v → accept_entry v e = Ok v' →
  StronglySorted path_lt ((ManifestEntry.path <$> es) ++ [ManifestEntry.path e]) ∧ placed e ∧ seen (es ++ [e]) v'.
Proof.
  intros Hs. unfold accept_entry. cbv zeta. intros (Ho & (v1 & Hv1 & <-%ok_inj)%bind_ok)%build_guard_ok.
  pose proof (proj1 (in_order_iff _ _ _ Hs) Ho) as Hsorted. split; [done|]. pose proof marker_not_rootfs as (Hm1 & Hm2 & Hm3).
  destruct (decide (ManifestEntry.path e = [])) as [Hp|Hp].
  { apply build_guard_ok in Hv1 as ((_ & Hk%dec_stable)%not_or_and & <-%ok_inj). split; [by left|].
    apply (seen_snoc es v); [done|done|naive_solver|rewrite Hp; naive_solver|intros d; rewrite Hp; naive_solver]. }
  destruct (decide (ManifestEntry.path e = MARKER_PATH)) as [Hp'|Hp'].
  { apply build_guard_ok in Hv1 as ((Hk%dec_stable & Hm)%not_or_and & <-%ok_inj). split; [by right; left|].
    apply eq_None_not_Some in Hm. apply (seen_snoc es v); [done|done|naive_solver|rewrite Hp'; naive_solver|intros d; rewrite Hm; naive_solver]. }
  destruct (decide (ManifestEntry.path e = bs "rootfs")) as [Hq|Hq].
  { apply build_guard_ok in Hv1 as ((_ & Hk%dec_stable)%not_or_and & <-%ok_inj). split; [by right; right; left|].
    apply (seen_snoc es v); [done|done|rewrite Hq; naive_solver|naive_solver|intros d; rewrite Hq; naive_solver]. }
  apply build_guard_ok in Hv1 as (Hpre%dec_stable & <-%ok_inj). split; [by right; right; right|].
  apply (seen_snoc es v); [done|done|naive_solver..].
Qed.

Lemma accept_entry_placed es v e :
  seen es v → StronglySorted path_lt ((ManifestEntry.path <$> es) ++ [ManifestEntry.path e]) → placed e → ∃ v', accept_entry v e = Ok v'.
Proof.
  intros Hs Hsorted Hpl. pose proof (proj2 (in_order_iff _ _ _ Hs) Hsorted) as Ho. pose proof (in_order_new _ _ _ Hs Ho) as (_ & Hnew).
  pose proof Hs as [_ _ Hroot Hrootfs Hmarker]. pose proof marker_not_rootfs as (Hm1 & Hm2 & Hm3).
  unfold accept_entry. rewrite decide_False by done. destruct Hpl as [(Hp & Hk)|[(Hp & Hk)|[(Hp & Hk)|Hp]]].
  - rewrite Hp in *. rewrite decide_True by done. rewrite decide_False by (rewrite Hroot; naive_solver). by eexists.
  - rewrite Hp in *. rewrite decide_False, decide_True by done. rewrite decide_False; [by eexists|]. intros [?|[d (e' & He' & Hp' & _)%Hmarker]]; [done|].
    apply Hnew. rewrite <- Hp'. by apply list_elem_of_fmap_2.
  - rewrite Hp in *. rewrite !decide_False, decide_True by done. rewrite decide_False by (rewrite Hrootfs; naive_solver). by eexists.
  - destruct (below_rootfs _ Hp) as (? & ? & ?). rewrite !decide_False by (done || tauto). by eexists.
Qed.

(** A list of entries is accepted exactly when it is in order and every entry is where it may be. *)
Lemma accept_entries_from es v new :
  seen es v →
  (∃ v', fold_result accept_entry v new = Ok v') ↔
  StronglySorted path_lt ((ManifestEntry.path <$> es) ++ (ManifestEntry.path <$> new)) ∧ Forall placed new.
Proof.
  revert es v. induction new as [|e new IH]; intros es v Hs; cbn [fold_result fmap list_fmap].
  - rewrite app_nil_r. split; [intros _; split; [apply Hs|constructor]|by eexists].
  - rewrite (cons_middle (ManifestEntry.path e)), (assoc_L (++)). split.
    + intros (v' & (v1 & H1 & H2)%bind_ok). destruct (accept_entry_seen _ _ _ _ Hs H1) as (_ & Hp & Hs1).
      destruct (proj1 (IH _ _ Hs1) (ex_intro _ _ H2)) as (Hsort & Hall). rewrite fmap_app in Hsort. split; [done|by constructor].
    + intros (Hsort & [Hp Hall]%Forall_cons). destruct (accept_entry_placed es v e Hs) as [v1 Hv1]; [|done|].
      { by apply StronglySorted_app_1_l in Hsort. }
      rewrite Hv1. destruct (accept_entry_seen _ _ _ _ Hs Hv1) as (_ & _ & Hs1). apply (IH _ _ Hs1). by rewrite fmap_app.
Qed.

Lemma accept_entries_seen es v new v' : seen es v → fold_result accept_entry v new = Ok v' → seen (es ++ new) v'.
Proof.
  revert es v. induction new as [|e new IH]; intros es v Hs; cbn [fold_result]; [intros <-%ok_inj; by rewrite app_nil_r|].
  intros (v1 & H1 & H2)%bind_ok. destruct (accept_entry_seen _ _ _ _ Hs H1) as (_ & _ & Hs1).
  rewrite (cons_middle e), (assoc_L (++)). by eapply IH.
Qed.

(** *** The chunks *)

(** A chunk of these entries *)
Definition holds (chunk : ManifestChunk.t) (es : list ManifestEntry.t) : Prop :=
  ∃ payloads, ManifestChunk.bytes chunk = framed payloads ∧ Forall (entry_fits MAX_MANIFEST_ENTRY_BYTES) payloads ∧
    Forall2 (λ payload e, decode_payload payload = Ok e) payloads es.

Lemma chunk_loop_framed fuel v payloads es :
  Forall (entry_fits MAX_MANIFEST_ENTRY_BYTES) payloads → Forall2 (λ payload e, decode_payload payload = Ok e) payloads es →
  length (framed payloads) < fuel → chunk_loop fuel v (framed payloads) = fold_result accept_entry v es.
Proof.
  intros Hfit Hdec. revert fuel v. induction Hdec as [|payload e payloads es He Hdec IH]; intros fuel v Hf; (destruct fuel as [|fuel]; [simpl in Hf; lia|]); [done|].
  apply Forall_cons in Hfit as [Hp Hfit]. unfold entry_fits, MAX_MANIFEST_ENTRY_BYTES in Hp. rewrite framed_cons in *. rewrite !length_app, length_to_be in Hf.
  cbn [chunk_loop fold_result]. rewrite decide_False by (intros Hz; apply (f_equal length) in Hz; rewrite length_app, length_to_be in Hz; done).
  rewrite decide_False by (rewrite !len_app, len_to_be; lia). rewrite take_app_length' by (by rewrite length_to_be).
  rewrite from_to_be by (change (256 ^ N.of_nat 4)%N with (2^32)%N; lia). cbv zeta. rewrite decide_False by (rewrite !len_app, len_to_be; lia).
  rewrite <- drop_drop, drop_app_length' by (by rewrite length_to_be). unfold len. rewrite Nat2N.id, take_app_length, drop_app_length.
  rewrite He. cbn [map_err mbind result_bind]. rewrite (decode_payload_validated _ _ He). cbn [map_err mbind result_bind].
  destruct (accept_entry v e) as [v'| |]; cbn [mbind result_bind]; [|done..]. apply IH; [done|lia].
Qed.

Lemma accept_chunk_holds v chunk es : holds chunk es → accept_chunk v chunk = fold_result accept_entry v es.
Proof. intros (payloads & Hb & Hfit & Hdec). unfold accept_chunk. rewrite Hb. by apply chunk_loop_framed; [..|lia]. Qed.

Lemma accept_chunks_hold v chunks ess :
  Forall2 holds chunks ess → fold_result accept_chunk v chunks = fold_result accept_entry v (concat ess).
Proof.
  intros Hall. revert v. induction Hall as [|chunk es chunks ess Hc Hall IH]; intros v; [done|]. cbn [fold_result concat].
  rewrite fold_result_app, (accept_chunk_holds _ _ _ Hc). by destruct (fold_result accept_entry v es); cbn [mbind result_bind].
Qed.

(** What the entries show: strictly increasing paths, among them the root, the rootfs and
    the marker with the digest [d], and nothing outside.  That every directory on the way
    to an entry has one of its own is not part of it. *)
Record root_and_marker (es : list ManifestEntry.t) (d : bytes) : Prop := {
  shown_sorted : StronglySorted path_lt (ManifestEntry.path <$> es);
  shown_placed : Forall placed es;
  shown_root : [] ∈ ManifestEntry.path <$> es;
  shown_rootfs : bs "rootfs" ∈ ManifestEntry.path <$> es;
  shown_marker : ∃ e, e ∈ es ∧ ManifestEntry.path e = MARKER_PATH ∧ hex_encode <$> ManifestEntry.content_sha256 e = Some d;
}.

Lemma finish_Ok v : finish v = Ok () ↔ saw_root v = true ∧ saw_rootfs v = true ∧ is_Some (marker_digest v).
Proof.
  unfold finish. rewrite build_guard_ok. destruct (saw_root v), (saw_rootfs v), (marker_digest v); naive_solver.
Qed.

Lemma verified_entries chunks ess d :
  Forall2 holds chunks ess →
  (∃ v, fold_result accept_chunk ManifestStructuralVerifier.default chunks = Ok v ∧ finish v = Ok () ∧ marker_sha256 v = Ok d) ↔
  root_and_marker (concat ess) d.
Proof.
  intros Hall. rewrite (accept_chunks_hold _ _ _ Hall). pose proof (accept_entries_from [] _ (concat ess) seen_start) as Hfrom. simpl in Hfrom.
  unfold marker_sha256. setoid_rewrite finish_Ok. setoid_rewrite ok_or_ok. split.
  - intros (v & Hf & (H1 & H2 & _) & H3). destruct (proj1 Hfrom (ex_intro _ _ Hf)) as (Hs & Hp).
    destruct (accept_entries_seen [] _ _ _ seen_start Hf) as [_ _ Hr Hrf Hm]. split; [done|done|by apply Hr|by apply Hrf|by apply Hm].
  - intros [Hs Hp Hr Hrf Hm]. destruct (proj2 Hfrom (conj Hs Hp)) as [v Hf]. destruct (accept_entries_seen [] _ _ _ seen_start Hf) as [_ _ Hr' Hrf' Hm'].
    exists v. split; [done|]. apply Hm' in Hm. rewrite Hm. split_and!; [by apply Hr'|by apply Hrf'|by eexists|done].
Qed.
End accepts.
