(* ===== verification/ManifestStream.v ===== *)
(** * From the builder's walk to the host's checks

    What the builder guest streams is what the host accepts: the messages that
    [emit_manifest] (crates/pocket-builder-init/src/manifest.rs) sends pass the session of the
    build protocol (crates/pocket-protocol/src/builder.rs) one after another, and the entries
    come in the order that [ManifestStructuralVerifier]
    (crates/pocket-runtime/src/builder.rs) asks for. *)

From stdpp Require Import gmap.
From S2P Require Import Prelude RustStr ByteOrder ManagedPath ProtocolError Payload Sha256 BuilderManifest BuilderMessage Session BuilderSession GuestErrors.
From S2P Require Import HexText HostError ManifestTree ManifestChunks ManifestWalk HostManifest.

#[local] Arguments bs : simpl never.

(** ** The order of a walk *)

(** The names on the way to a path *)
Definition comps (path : bytes) : list bytes := match path with [] => [] | _ => split x2f path end.

Definition file_name_ok (name : bytes) : Prop := name ≠ [] ∧ x2f ∉ name.

Lemma comps_child rel name : file_name_ok name → comps (child_relative rel name) = comps rel ++ [name].
Proof.
  intros [Hne Hs]. unfold child_relative. destruct rel as [|b rel]; cbn [comps].
  - unfold comps. destruct name; [done|]. by rewrite split_no_sep.
  - rewrite <- app_comm_cons. unfold comps. rewrite app_comm_cons. cbn [app]. change (b :: rel ++ x2f :: name) with ((b :: rel) ++ x2f :: name).
    by rewrite split_app, (split_no_sep _ name).
Qed.

Lemma comps_lt a b : Forall (.≠ []) (comps b) → components_lt (comps a) (comps b) → path_lt a b.
Proof.
  unfold path_lt, manifest_path_order, components_lt. destruct a as [|x a], b as [|y b]; cbn [comps]; try done.
  - intros Hne _. change (split x2f []) with [[] : bytes]. destruct (split x2f (y :: b)) as [|c r] eqn:Hs; [by destruct (split_not_nil x2f (y :: b))|].
    apply Forall_cons in Hne as [Hc _]. destruct c; [done|]. done.
  - intros _. destruct (split x2f (x :: a)) eqn:Hs; [by destruct (split_not_nil x2f (x :: a))|]. done.
Qed.

(** The paths of one subtree in the order of a walk: the path itself, and below it the
    subtrees of its children by name *)
Record subtree (rel : bytes) (paths : list bytes) : Prop := {
  subtree_head : head paths = Some rel;
  subtree_below p : p ∈ paths → ∃ k, comps p = comps rel ++ k ∧ Forall (.≠ []) k;
  subtree_sorted : StronglySorted (λ a b, components_lt (comps a) (comps b)) paths;
}.

(** The subtrees of children *)
Record children_paths (rel : bytes) (names : list bytes) (paths : list bytes) : Prop := {
  children_below p : p ∈ paths → ∃ name k, name ∈ names ∧ comps p = comps rel ++ name :: k ∧ Forall (.≠ []) (name :: k);
  children_sorted : StronglySorted (λ a b, components_lt (comps a) (comps b)) paths;
}.

Lemma children_nil rel : children_paths rel [] [].
Proof. split; [set_solver|constructor]. Qed.

Lemma children_cons rel name names paths rest :
  file_name_ok name → Forall (bytes_lt name) names → subtree (child_relative rel name) paths → children_paths rel names rest →
  children_paths rel (name :: names) (paths ++ rest).
Proof.
  intros Hn Hlt [_ Hb Hs] [Hb' Hs']. rewrite (comps_child rel name Hn) in Hb. destruct Hn as [Hne _].
  assert (∀ p, p ∈ paths → ∃ k, comps p = comps rel ++ name :: k ∧ Forall (.≠ []) (name :: k)) as Hp.
  { intros p (k & -> & Hk)%Hb. exists k. rewrite <- (assoc_L (++)). split; [done|by constructor]. }
  split.
  - intros p [(k & ? & ?)%Hp|(name' & k & ? & ? & ?)%Hb']%elem_of_app; [exists name, k|exists name', k]; set_solver.
  - apply StronglySorted_app_2; [|done..]. intros p q (k & -> & _)%Hp (name' & k' & Hin & -> & _)%Hb'.
    apply components_lt_under, components_lt_head. rewrite Forall_forall in Hlt. by apply Hlt.
Qed.

Lemma subtree_children rel names paths : children_paths rel names paths → subtree rel (rel :: paths).
Proof.
  intros [Hb Hs]. split; [done| |].
  - intros p [->|(name & k & _ & Hp & Hne)%Hb]%elem_of_cons; [exists []; rewrite app_nil_r; by split|by exists (name :: k)].
  - constructor; [done|]. apply Forall_forall. intros p (name & k & _ & -> & _)%Hb. apply components_lt_app.
Qed.

Lemma subtree_root paths : subtree [] paths → StronglySorted path_lt paths.
Proof.
  intros [_ Hb Hs]. assert (Forall (λ p, Forall (.≠ []) (comps p)) paths) as Hne.
  { apply Forall_forall. intros p (k & -> & Hk)%Hb. done. }
  clear Hb. induction Hs as [|p paths Hs IH Hall]; [constructor|]. apply Forall_cons in Hne as [_ Hne]. constructor; [by apply IH|].
  apply Forall_forall. intros q Hq. rewrite Forall_forall in Hall, Hne. apply comps_lt; [by apply Hne|by apply Hall].
Qed.

(** Distinct names are sorted strictly. *)
Lemma sort_distinct l : NoDup l → StronglySorted bytes_lt (sort l) ∧ sort l ≡ₚ l.
Proof.
  intros Hd. pose proof (sort_by_perm id l) as Hp. split; [|done]. pose proof (sort_by_sorted id l) as Hs. unfold sorted_by in Hs. rewrite list_fmap_id in Hs.
  assert (NoDup (sort l)) as Hn by (unfold sort; by rewrite Hp). revert Hn. unfold sort in *. clear Hd Hp. induction Hs as [|a k Hs IH Hall]; [constructor|].
  intros [Ha Hk]%NoDup_cons. constructor; [by apply IH|]. rewrite Forall_forall in Hall |- *. intros b Hb.
  destruct (proj1 (bytes_le_lt_eq _ _) (Hall b Hb)) as [?| ->]; done.
Qed.

(** ** The messages and the session that accepts them *)
Section stream.
Context {sha : Sha2} {codecs : BuilderMessage.Codecs}.
Abbreviation Walker := (BuilderWalk.Walker (E:=list BuilderMessage.t)).

(** The emitter that keeps the messages *)
Definition collect (sent : list BuilderMessage.t) (message : BuilderMessage.t) : BuilderWalk.bresult (list BuilderMessage.t) :=
  Ok (sent ++ [message]).

(** The session that takes messages of the guest one after another *)
Definition deliver (s : BuilderSession.t) (message : BuilderMessage.t) : result ProtocolError BuilderSession.t :=
  let '(s', r) := BuilderSession.accept s Direction.GuestToHost message (BuilderSession.next_guest_sequence s) in
  r;; Ok s'.

(** The chunks among messages *)
Definition chunk_of (message : BuilderMessage.t) : option ManifestChunk.t :=
  match message with BuilderMessage.ManifestChunk chunk => Some chunk | _ => None end.

(** The stream that is sent *)
Context (stream : bytes).

(** The session keeps pace with the walker. *)
Record in_step (L : ManifestLimits.t) (waiting : N) (b : Walker) (s : BuilderSession.t) : Prop := {
  step_state : BuilderSession.state s = BuilderState.StreamingManifest;
  step_limits : BuilderSession.manifest_limits s = Some L;
  step_stream : BuilderSession.stream_id s = Some (BuilderWalk.stream_id b);
  step_stream_ok : sha256_ok (BuilderWalk.stream_id b);
  step_id : BuilderWalk.stream_id b = stream;
  step_sequence : BuilderSession.next_chunk_sequence s = BuilderWalk.chunk_sequence b;
  step_entry : (BuilderSession.next_entry s + waiting = BuilderWalk.entry_count b)%N;
  step_bytes : BuilderSession.byte_count s = BuilderWalk.byte_count b;
  step_hasher : BuilderSession.manifest_hasher s = BuilderWalk.manifest_hasher b;
  step_frames : BuilderSession.next_guest_sequence s = (2 + BuilderWalk.chunk_sequence b)%N;
  step_pieces : ∃ pieces, BuilderWalk.manifest_hasher b = foldl hasher_update hasher_new pieces;
}.

(** Of the entries [es] that the walker took, those sent are in the chunks that the session
    accepted, and the others wait in the open chunk. *)
Definition streamed (L : ManifestLimits.t) (s0 : BuilderSession.t) (b : Walker) (es : list ManifestEntry.t) : Prop :=
  len es = BuilderWalk.entry_count b ∧
  ∃ s sent waiting payloads, es = concat sent ++ waiting ∧ fold_result deliver s0 (BuilderWalk.emitter b) = Ok s ∧
    in_step L (len waiting) b s ∧ sound L b payloads ∧ Forall2 (encodes L) waiting payloads ∧
    Forall (BuilderSession.entry_accepted L) payloads ∧ Forall2 holds (omap chunk_of (BuilderWalk.emitter b)) sent.

Lemma limits_entry_bytes L : limits_ok L → (ManifestLimits.max_entry_bytes L ≤ MAX_MANIFEST_ENTRY_BYTES)%N ∧
  (ManifestLimits.max_chunk_bytes L ≤ MAX_MANIFEST_CHUNK_BYTES)%N.
Proof. unfold limits_ok. intros. destruct_and!. done. Qed.

Lemma fits_weaken a b ps : (a ≤ b)%N → Forall (entry_fits a) ps → Forall (entry_fits b) ps.
Proof. intros Hab Hps. eapply Forall_impl; [exact Hps|]. intros p. unfold entry_fits. lia. Qed.

(** The message of an open chunk is valid. *)
Lemma chunk_message_valid L (b : Walker) payloads :
  sound L b payloads → sha256_ok (BuilderWalk.stream_id b) → BuilderWalk.chunk b ≠ [] → BuilderMessage.validate (chunk_message b) = Ok ().
Proof.
  intros [Hok Hl Hc Hf Hs He _ _ _ _] Hst Hne. pose proof (limits_entry_bytes _ Hok) as [H1 H2].
  unfold chunk_message, BuilderMessage.validate. unfold Payload.validate, ManifestChunk.validate. cbn [ManifestChunk.stream_id ManifestChunk.entry_count ManifestChunk.bytes].
  assert (payloads ≠ []) as Hp by (by rewrite <- framed_nil, <- Hc).
  assert (len payloads ≠ 0)%N as Hlen by (by rewrite len_zero).
  rewrite bind_unit_ok, validate_sha256_Ok, invalid_guard_ok, bind_unit_ok, validate_count_Ok, invalid_guard_ok, bind_ok.
  split_and!; [done|by rewrite He|lia|done|]. exists (len payloads). rewrite invalid_guard_ok. split; [|split; [rewrite He; tauto|done]].
  apply count_entries_Ok; [done|unfold MAX_MANIFEST_CHUNK_BYTES, u64_bound in *; lia|]. exists payloads. split_and!; [done| |done].
  by eapply fits_weaken.
Qed.

Lemma deliver_Ok s m s' :
  deliver s m = Ok s' ↔ BuilderMessage.validate m = Ok () ∧ (BuilderSession.next_guest_sequence s + 1 < u64_bound)%N ∧
    ∃ next, BuilderSession.accept_inner s Direction.GuestToHost m = (next, Ok ()) ∧
      s' = BuilderSession.set_next_guest_sequence (BuilderSession.next_guest_sequence s + 1) next.
Proof.
  unfold deliver. destruct (BuilderSession.accept s _ m _) as [s1 r] eqn:Ha. rewrite bind_unit_ok, ok_inj. split.
  - intros (-> & <-). apply BuilderSession.builder_accept_Ok in Ha as (_ & ? & ? & next & ? & ->). split_and!; [done..|]. by exists next.
  - intros (Hv & Hb & next & Hn & ->). assert (BuilderSession.accept s Direction.GuestToHost m (BuilderSession.next_guest_sequence s) =
      (BuilderSession.set_next_guest_sequence (BuilderSession.next_guest_sequence s + 1) next, Ok ())) as Heq.
    { apply BuilderSession.builder_accept_Ok. split_and!; [done..|]. by exists next. }
    rewrite Ha in Heq. by injection Heq as -> ->.
Qed.

(** The session accepts an open chunk. *)
Lemma deliver_chunk L b s payloads e :
  in_step L (len payloads) b s → sound L b payloads → Forall (BuilderSession.entry_accepted L) payloads →
  BuilderWalk.chunk b ≠ [] → (total b ≤ ManifestLimits.max_total_bytes L)%N →
  ∃ s', deliver s (chunk_message b) = Ok s' ∧ in_step L 0 (flushed b e) s'.
Proof.
  intros [H1 H2 H3 H4 Hid H5 H6 H7 H8 H9 [pieces H10]] Hs Hacc Hne Ht. pose proof (chunk_message_valid _ _ _ Hs H4 Hne) as Hv.
  pose proof (sound_bounds _ _ _ Hs) as (_ & _ & Hb3 & _). destruct Hs as [Hok Hl Hc Hf Hsz He Hfi Hq Hn Hby].
  assert (payloads ≠ []) as Hp by (by rewrite <- framed_nil, <- Hc). specialize (Hfi Hp).
  assert (BuilderSession.check_chunk s (ManifestChunk.manifest_chunk (BuilderWalk.stream_id b) (BuilderWalk.chunk_sequence b)
    (BuilderWalk.chunk_first_entry b) (BuilderWalk.chunk_entries b) (BuilderWalk.chunk b)) =
    Ok (BuilderSession.next_entry s + BuilderWalk.chunk_entries b, BuilderSession.byte_count s + len (BuilderWalk.chunk b))%N) as Hchk.
  { apply (BuilderSession.check_chunk_Ok s L); [done|done|]. split; [|done]. exists (BuilderWalk.stream_id b). split; [done|].
    split; cbn [ManifestChunk.stream_id ManifestChunk.sequence ManifestChunk.first_entry ManifestChunk.entry_count ManifestChunk.bytes]; try done.
    - lia.
    - by exists payloads.
    - lia.
    - rewrite H7. done. }
  eexists. split.
  - apply deliver_Ok. split; [done|]. split; [rewrite H9; unfold limits_ok, MAX_MANIFEST_ENTRIES, u64_bound in *; lia|].
    unfold BuilderSession.accept_inner, chunk_message. rewrite H1. unfold BuilderSession.accept_chunk. rewrite Hchk. cbn [try_with].
    cbn [BuilderSession.next_chunk_sequence BuilderSession.set_manifest_hasher]. rewrite H5, (checked_add_fits (BuilderWalk.chunk_sequence b)) by done.
    cbn [ok_or try_with]. by eexists.
  - split; cbn; try (done || congruence || unfold total; lia). exists (pieces ++ [BuilderWalk.chunk b]). by rewrite foldl_app, <- H10.
Qed.

(** What the walker did to its links does not matter here. *)
Lemma streamed_hardlinks L s0 b es links n : streamed L s0 b es → streamed L s0 (BuilderWalk.set_hardlinks links n b) es.
Proof.
  intros (Hcnt & s & sent & waiting & payloads & Hes & Hf & Hstep & Hs & H). split; [done|]. exists s, sent, waiting, payloads. split_and!; [done|done| | |apply H..].
  - destruct Hstep. by split.
  - by apply hardlinks_sound.
Qed.

Lemma decoded {laws : CborLaws ManifestEntry.t} L waiting payloads :
  Forall2 (encodes L) waiting payloads → Forall2 (λ payload e, decode_payload payload = Ok e) payloads waiting.
Proof.
  induction 1 as [|e p waiting payloads [He _] _ IH]; constructor; [by apply encode_decode_payload|done].
Qed.

(** Sending the open chunk *)
Lemma streamed_flushed {laws : CborLaws ManifestEntry.t} L s0 b es :
  streamed L s0 b es → BuilderWalk.chunk b ≠ [] → (total b ≤ ManifestLimits.max_total_bytes L)%N →
  streamed L s0 (flushed b (BuilderWalk.emitter b ++ [chunk_message b])) es.
Proof.
  intros (Hcnt & s & sent & waiting & payloads & -> & Hf & Hstep & Hs & Henc & Hacc & Hsent) Hne Ht.
  assert (len waiting = len payloads) as Hlen by (unfold len; by rewrite (Forall2_length _ _ _ Henc)). rewrite Hlen in Hstep.
  destruct (deliver_chunk _ _ _ _ (BuilderWalk.emitter b ++ [chunk_message b]) Hstep Hs Hacc Hne Ht) as (s' & Hd & Hstep').
  split; [done|]. exists s', (sent ++ [waiting]), [], []. cbn [flushed BuilderWalk.emitter]. split_and!; [| |done| |constructor|constructor|].
  - rewrite concat_app. cbn [concat]. by rewrite !app_nil_r.
  - rewrite fold_result_app, Hf. cbn [mbind result_bind fold_result]. by rewrite Hd.
  - eapply flushed_sound; [done..|]. by rewrite <- framed_nil, <- (sound_chunk _ _ _ Hs).
  - rewrite omap_app. apply Forall2_app; [done|]. constructor; [|constructor]. exists payloads.
    split_and!; [apply Hs| |by eapply decoded]. eapply fits_weaken; [|apply Hs]. apply limits_entry_bytes, Hs.
Qed.

(** The limits that an entry is held to *)
Definition entry_within (L : ManifestLimits.t) (e : ManifestEntry.t) : Prop :=
  (len (ManifestEntry.path e) ≤ ManifestLimits.max_path_bytes L)%N ∧
  (len (ManifestEntry.xattrs e) ≤ ManifestLimits.max_xattrs_per_entry L)%N ∧
  (xattr_bytes (ManifestEntry.xattrs e) ≤ ManifestLimits.max_xattr_bytes_per_entry L)%N.

Lemma streamed_added {laws : CborLaws ManifestEntry.t} L s0 b es e encoded :
  streamed L s0 b es → encodes L e encoded → entry_within L e →
  (len (BuilderWalk.chunk b) + (len encoded + 4) ≤ ManifestLimits.max_chunk_bytes L)%N →
  (BuilderWalk.entry_count b < ManifestLimits.max_entries L)%N →
  streamed L s0 (added b encoded) (es ++ [e]).
Proof.
  intros (Hcnt & s & sent & waiting & payloads & -> & Hf & Hstep & Hs & Henc & Hacc & Hsent) He Hw Hroom Hcount.
  split; [cbn [added BuilderWalk.entry_count]; rewrite <- Hcnt; rewrite !len_app, len_cons, len_nil; lia|].
  exists s, sent, (waiting ++ [e]), (payloads ++ [encoded]). split_and!; [by rewrite (assoc_L (++))|done| | | | |done].
  - destruct Hstep. rewrite len_app, len_cons, len_nil. split; cbn; (done || lia).
  - apply added_sound; [done|apply He|done..].
  - apply Forall2_app; [done|]. constructor; [done|constructor].
  - apply Forall_app. split; [done|]. constructor; [|constructor]. exists e. split; [by apply encode_decode_payload, He|done].
Qed.

Lemma streamed_push {laws : CborLaws ManifestEntry.t} L s0 b es e b' :
  streamed L s0 b es → entry_within L e → BuilderWalk.push_entry collect b e = Ok b' → streamed L s0 b' (es ++ [e]).
Proof.
  intros Hst Hw Hp. pose proof Hst as (_ & s & sent & waiting & payloads & _ & _ & _ & Hs & _).
  apply (push_Ok collect L b payloads) in Hp as (Hc & encoded & b1 & Henc & Hr & ->); [|done].
  destruct (ready_sound collect L b payloads encoded b1 Hs (proj2 Henc) Hr) as (_ & _ & Hroom & Hcount & _).
  apply streamed_added; [|done..|by rewrite Hcount]. unfold ready in Hr. case_decide as Hd; [|by subst].
  destruct Hr as (Ht & e' & [= <-] & ->). by apply streamed_flushed; [|apply Hd|].
Qed.

(** ** What the walk puts in an entry *)
Lemma list_xattrs_within T path L xattrs :
  BuilderWalk.list_xattrs T path L = Ok xattrs →
  (len xattrs ≤ ManifestLimits.max_xattrs_per_entry L)%N ∧ (xattr_bytes xattrs ≤ ManifestLimits.max_xattr_bytes_per_entry L)%N.
Proof.
  unfold BuilderWalk.list_xattrs, BuilderWalk.manifest_error. intros (_ & (n & _ & Hr)%bind_ok)%guard_ok. cbv zeta in Hr. apply guard_ok in Hr as (_ & Hr).
  case_decide; [apply ok_inj in Hr as <-; split; [rewrite len_nil|change (xattr_bytes []) with 0%N]; lia|]. apply bind_ok in Hr as (names & _ & Hr). apply guard_ok in Hr as (_ & Hr).
  apply bind_ok in Hr as ([attributes t] & Hx & <-%ok_inj).
  apply read_xattrs_Ok in Hx as (xs & _ & _ & [= -> ->] & H1 & H2 & _); [|by intros ?%split_not_nil]. cbn [fst snd app] in *.
  rewrite (len_order _ _ (sort_by_perm _ _)), (sum_of_order _ _ _ (sort_by_perm _ _)). done.
Qed.

Lemma make_entry_Ok T (b : Walker) path rel m e b' :
  BuilderWalk.make_entry T b path rel m = Ok (e, b') →
  ManifestEntry.path e = rel ∧ kind_of (NodeMetadata.file_type m) = Some (ManifestEntry.kind e) ∧
  (len (ManifestEntry.xattrs e) ≤ ManifestLimits.max_xattrs_per_entry (BuilderWalk.limits b))%N ∧
  (xattr_bytes (ManifestEntry.xattrs e) ≤ ManifestLimits.max_xattr_bytes_per_entry (BuilderWalk.limits b))%N ∧
  ∃ links n, b' = BuilderWalk.set_hardlinks links n b.
Proof.
  unfold BuilderWalk.make_entry. destruct (kind_of _) as [kind|]; [|done]. intros (target & _ & Hr)%bind_ok.
  apply bind_ok in Hr as ([[content link] b1] & Hev & Hr). apply bind_ok in Hr as (ns & _ & Hr). apply bind_ok in Hr as (xattrs & Hx & Hr).
  cbv zeta in Hr. apply bind_unit_ok in Hr as (_ & [= <- <-]).
  assert (∃ links n, b1 = BuilderWalk.set_hardlinks links n b) as Hb1.
  { unfold BuilderWalk.file_evidence in Hev. assert (b = BuilderWalk.set_hardlinks (BuilderWalk.hardlinks b) (BuilderWalk.hardlink_path_bytes b) b) as Hsame by (by destruct b).
    case_decide; [|simplify_eq; by eexists _, _]. cbv zeta in Hev. case_decide; [|apply bind_ok in Hev as (digest & _ & [= _ _ <-]); by eexists _, _].
    destruct (BuilderWalk.hardlinks b !! _); [simplify_eq; by eexists _, _|]. apply guard_ok in Hev as (_ & Hev). apply bind_ok in Hev as (n & _ & Hev).
    apply guard_ok in Hev as (_ & Hev). apply bind_ok in Hev as (digest & _ & [= _ _ <-]). by eexists _, _. }
  split_and!; [done|done| | |done]; destruct Hb1 as (links & n & ->); apply list_xattrs_within in Hx as [H1 H2]; done.
Qed.

(** ** The walk *)

(** A directory lists a name once, and a name has no slash. *)
Definition names_ok (T : Tree.t) : Prop :=
  ∀ path names, Tree.read_dir T path = inr (inr <$> names) → NoDup names ∧ Forall (λ name, x2f ∉ name) names.

Lemma fold_streamed L s0 (f : Walker → bytes → BuilderWalk.bresult Walker) rel names b es b' :
  (∀ name b es b', name ∈ names → streamed L s0 b es → f b name = Ok b' →
     ∃ new, streamed L s0 b' (es ++ new) ∧ subtree (child_relative rel name) (ManifestEntry.path <$> new)) →
  Forall file_name_ok names → StronglySorted bytes_lt names → streamed L s0 b es → fold_result f b names = Ok b' →
  ∃ new, streamed L s0 b' (es ++ new) ∧ children_paths rel names (ManifestEntry.path <$> new).
Proof.
  intros Hf. revert b es. induction names as [|name names IH]; intros b es Hok Hsort Hs; cbn [fold_result].
  - intros <-%ok_inj. exists []. rewrite app_nil_r. split; [done|apply children_nil].
  - apply Forall_cons in Hok as [Hn Hok]. inversion Hsort as [|? ? Hsort' Hlt]; subst. intros (b1 & H1 & H2)%bind_ok.
    destruct (Hf name b es b1) as (new1 & Hs1 & Ht1); [set_solver|done..|].
    destruct (IH (λ name b es b' Hin, Hf name b es b' (list_elem_of_further _ _ _ Hin)) b1 (es ++ new1)) as (new2 & Hs2 & Ht2); [done..|].
    exists (new1 ++ new2). rewrite (assoc_L (++)), fmap_app. split; [done|by apply children_cons].
Qed.

Context {laws : CborLaws ManifestEntry.t} (T : Tree.t) (Hnames : names_ok T).

Lemma visit_streamed L s0 fuel b rel depth es b' :
  streamed L s0 b es → BuilderWalk.visit collect T fuel b rel depth = Ok b' →
  ∃ new, streamed L s0 b' (es ++ new) ∧ subtree rel (ManifestEntry.path <$> new).
Proof.
  revert b rel depth es b'. induction fuel as [|fuel IH]; intros b rel depth es b' Hs; [done|]. cbn [BuilderWalk.visit].
  assert (BuilderWalk.limits b = L) as HL by (destruct Hs as (_ & s & sent & waiting & payloads & _ & _ & _ & Hs & _); apply Hs).
  unfold BuilderWalk.manifest_error. rewrite HL. intros (_ & (Hlen%N.nlt_ge & (m & _ & Hr)%bind_ok)%guard_ok)%guard_ok. cbv zeta in Hr. apply bind_ok in Hr as ([e b1] & He & Hr).
  apply make_entry_Ok in He as (Hpath & _ & Hx1 & Hx2 & links & n & ->). rewrite HL in *. apply (streamed_hardlinks _ _ _ _ links n) in Hs.
  apply bind_ok in Hr as (b2 & Hp & Hr). apply (streamed_push L s0 _ es) in Hp; [|done|by unfold entry_within; rewrite Hpath].
  case_decide.
  { apply ok_inj in Hr as <-. exists [e]. split; [done|]. cbn [fmap list_fmap]. rewrite Hpath. by apply (subtree_children rel []), children_nil. }
  apply bind_ok in Hr as (listing & Hdir & Hr). destruct (Tree.read_dir T _) as [|l] eqn:Hl; [done|]. apply ok_inj in Hdir as ->.
  apply bind_ok in Hr as ([children t] & (names & -> & Hvalid & [= -> ->] & _)%read_children_Ok & Hr). cbn [app] in Hr.
  destruct (Hnames _ _ Hl) as [Hdistinct Hslash]. destruct (sort_distinct names Hdistinct) as [Hsorted Hperm].
  apply (fold_streamed L s0 _ rel _ _ (es ++ [e])) in Hr as (new & Hs' & Hc); [|..|done|done].
  - exists (e :: new). rewrite (cons_middle e), (assoc_L (++)). split; [done|]. cbn [fmap list_fmap]. rewrite Hpath. by eapply subtree_children.
  - intros name b3 es3 b4 _ Hs3 Hv. case_decide; [|done]. by eapply IH.
  - rewrite Hperm. apply Forall_forall. intros name Hin. rewrite Forall_forall in Hvalid, Hslash. split; [|by apply Hslash].
    intros ->. eapply Hvalid; [done|by left].
Qed.

(** ** The whole stream *)

(** The session that asked for this manifest *)
Record awaits (schema : bytes) (L : ManifestLimits.t) (s : BuilderSession.t) : Prop := {
  awaits_state : BuilderSession.state s = BuilderState.AwaitManifestBegin;
  awaits_schema : BuilderSession.manifest_schema s = Some schema;
  awaits_limits : BuilderSession.manifest_limits s = Some L;
  awaits_sequence : BuilderSession.next_guest_sequence s = 1%N;
  awaits_token : token_ok schema MAX_ID_LENGTH;
}.

Context {sha_laws : Sha2Laws}.

Lemma finalized_ok pieces : sha256_ok (hex_lower (hasher_finalize (foldl hasher_update hasher_new pieces))).
Proof. rewrite sha256_pieces. apply sha256_hex_ok. Qed.

Lemma streamed_start root schema L key s0 :
  awaits schema L s0 → limits_ok L → stream = BuilderWalk.stream_id_of key schema →
  streamed L s0 (BuilderWalk.walker root L (BuilderWalk.stream_id_of key schema)
    [BuilderMessage.ManifestBegin (ManifestBegin.manifest_begin schema (BuilderWalk.stream_id_of key schema))] ∅ 0 [] 0 0 0 0 0 hasher_new) [].
Proof.
  intros [H1 H2 H3 H4 H5] Hok Hid. assert (sha256_ok (BuilderWalk.stream_id_of key schema)) as Hst by apply finalized_ok.
  split; [done|]. eexists _, [], [], []. split_and!; [done| | |by apply sound_start|constructor|constructor|constructor].
  - cbn [fold_result BuilderWalk.emitter]. apply bind_ok. eexists. split; [|done]. apply deliver_Ok. split_and!; [| |eexists; split; [|done]].
    + unfold BuilderMessage.validate, Payload.validate, ManifestBegin.validate. rewrite bind_unit_ok, validate_token_Ok, validate_sha256_Ok. by split.
    + by rewrite H4.
    + unfold BuilderSession.accept_inner. rewrite H1. rewrite decide_False by (rewrite H2; tauto). done.
  - split; cbn; try done.
    + by rewrite H4.
    + by exists [].
Qed.

(** After the last chunk nothing waits. *)
Lemma streamed_last L s0 b es b' :
  streamed L s0 b es → BuilderWalk.flush_chunk collect b = Ok b' → streamed L s0 b' es ∧ BuilderWalk.chunk b' = [].
Proof.
  intros Hst Hf. pose proof Hst as (_ & s & sent & waiting & payloads & _ & _ & _ & Hs & _).
  destruct (decide (BuilderWalk.chunk b = [])) as [Hz|Hz].
  - unfold BuilderWalk.flush_chunk in Hf. rewrite decide_True in Hf by done. by apply ok_inj in Hf as <-.
  - apply (flush_Ok collect L b payloads) in Hf as (Ht & e & [= <-] & ->); [|done..]. split; [by apply streamed_flushed|done].
Qed.

(** The session accepts the end of the stream. *)
Lemma deliver_end L b s :
  in_step L 0 b s → (BuilderWalk.chunk_sequence b + 3 < u64_bound)%N →
  ∃ s', deliver s (BuilderMessage.ManifestEnd (ManifestEnd.manifest_end (BuilderWalk.stream_id b) (BuilderWalk.entry_count b) (BuilderWalk.byte_count b)
          (hex_lower (hasher_finalize (BuilderWalk.manifest_hasher b))))) = Ok s' ∧
    BuilderSession.state s' = BuilderState.AwaitAccountDb ∧ BuilderSession.next_entry s' = BuilderWalk.entry_count b ∧
    BuilderSession.byte_count s' = BuilderWalk.byte_count b ∧
    BuilderSession.manifest_sha256 s' = Some (hex_lower (hasher_finalize (BuilderWalk.manifest_hasher b))).
Proof.
  intros [H1 H2 H3 H4 Hid H5 H6 H7 H8 H9 [pieces H10]] Hb. eexists. split.
  - apply deliver_Ok. split_and!; [| |eexists; split; [|done]].
    + unfold BuilderMessage.validate, Payload.validate, ManifestEnd.validate. rewrite bind_unit_ok, !validate_sha256_Ok.
      split; [done|]. cbn. rewrite H10. apply finalized_ok.
    + rewrite H9. lia.
    + unfold BuilderSession.accept_inner. rewrite H1. cbn [ManifestEnd.stream_id ManifestEnd.entry_count ManifestEnd.byte_count ManifestEnd.sha256].
      rewrite H8, !decide_False; [done|tauto|rewrite H7; lia|rewrite H3; tauto].
  - cbn. split_and!; [done|lia|done|done].
Qed.

End stream.

Section delivered.
Context {sha : Sha2} {sha_laws : Sha2Laws} {codecs : BuilderMessage.Codecs} {laws : CborLaws ManifestEntry.t} (T : Tree.t) (Hnames : names_ok T).

(** The entries of a walk, and the session that accepted all its messages *)
Lemma manifest_delivered root schema L key s0 summary messages :
  awaits schema L s0 → BuilderWalk.emit_manifest collect T root schema L key [] = Ok (summary, messages) →
  ∃ s ess, fold_result deliver s0 messages = Ok s ∧ Forall2 holds (omap chunk_of messages) ess ∧
    subtree [] (ManifestEntry.path <$> concat ess) ∧ len (concat ess) = BuilderWalk.summary_entry_count summary ∧
    BuilderSession.state s = BuilderState.AwaitAccountDb ∧
    BuilderSession.manifest_sha256 s = Some (BuilderWalk.summary_sha256 summary) ∧
    BuilderSession.next_entry s = BuilderWalk.summary_entry_count summary ∧
    BuilderSession.byte_count s = BuilderWalk.summary_byte_count summary.
Proof.
  intros Haw. unfold BuilderWalk.emit_manifest. intros (Hv & Hr)%bind_unit_ok. apply map_err_ok, limits_validate_Ok in Hv.
  apply bind_ok in Hr as (m & _ & Hr). apply guard_ok in Hr as (_ & Hr). cbv zeta in Hr. cbn [collect app mbind result_bind] in Hr.
  apply bind_ok in Hr as (b & Hb & Hr). apply bind_ok in Hr as (b' & Hf & [= <- <-]).
  destruct (visit_streamed _ T Hnames _ _ _ _ _ _ _ _ (streamed_start _ root schema L key s0 Haw Hv eq_refl) Hb) as (new & Hs & Ht). cbn [app] in Hs.
  destruct (streamed_last _ _ _ _ _ _ Hs Hf) as ((Hcnt & s & sent & waiting & payloads & -> & Hd & Hstep & Hsound & Henc & _ & Hsent) & Hz).
  rewrite (sound_chunk _ _ _ Hsound) in Hz. apply framed_nil in Hz as ->. apply Forall2_nil_inv_r in Henc as ->. rewrite app_nil_r in Ht.
  pose proof (sound_bounds _ _ _ Hsound) as (_ & _ & _ & _ & Hmax & Hmax').
  destruct (deliver_end _ _ _ _ Hstep) as (s' & He & Hst & Hn & Hby & Hsha).
  { pose proof (sound_sequence _ _ _ Hsound). pose proof (sound_count _ _ _ Hsound). unfold limits_ok, MAX_MANIFEST_ENTRIES, u64_bound in *. lia. }
  rewrite (step_id _ _ _ _ _ Hstep) in He. exists s', sent. split_and!; [| |done| |done..].
  - rewrite fold_result_app, Hd. cbn [mbind result_bind fold_result]. by rewrite He.
  - rewrite omap_app. by rewrite app_nil_r.
  - cbn. by rewrite <- Hcnt, app_nil_r.
Qed.
End delivered.

(** C14: what the builder streams is what the host checks.  Over any file system whose directories list a name once
    and whose names have no slash, every message of a finished walk is accepted by the session that asked for the
    manifest, which then knows the digest and the totals of the summary; the entries of the chunks are in the strict
    depth-first order of their path components; and the host's verifier accepts the chunks, and reports the digest [d]
    of the marker, exactly when there is nothing but the marker, which is a file of that digest, and a rootfs. *)
Theorem manifest_stream_accepted {sha : Sha2} {sha_laws : Sha2Laws} {codecs : BuilderMessage.Codecs} {laws : CborLaws ManifestEntry.t}
    {hex : Hex} (T : Tree.t) root schema L key s0 summary messages :
  names_ok T → awaits schema L s0 → BuilderWalk.emit_manifest collect T root schema L key [] = Ok (summary, messages) →
  ∃ s ess, fold_result deliver s0 messages = Ok s ∧ BuilderSession.state s = BuilderState.AwaitAccountDb ∧
    BuilderSession.manifest_sha256 s = Some (BuilderWalk.summary_sha256 summary) ∧
    BuilderSession.next_entry s = BuilderWalk.summary_entry_count summary ∧
    BuilderSession.byte_count s = BuilderWalk.summary_byte_count summary ∧
    Forall2 holds (omap chunk_of messages) ess ∧ len (concat ess) = BuilderWalk.summary_entry_count summary ∧
    StronglySorted path_lt (ManifestEntry.path <$> concat ess) ∧
    ∀ d, (∃ v, fold_result ManifestStructuralVerifier.accept_chunk ManifestStructuralVerifier.default (omap chunk_of messages) = Ok v ∧
               ManifestStructuralVerifier.finish v = Ok () ∧ ManifestStructuralVerifier.marker_sha256 v = Ok d) ↔
         Forall placed (concat ess) ∧ bs "rootfs" ∈ ManifestEntry.path <$> concat ess ∧
         ∃ e, e ∈ concat ess ∧ ManifestEntry.path e = MARKER_PATH ∧ hex_encode <$> ManifestEntry.content_sha256 e = Some d.
Proof.
  intros Hn Haw Hm. destruct (manifest_delivered T Hn _ _ _ _ _ _ _ Haw Hm) as (s & ess & Hd & Hh & Ht & Hlen & H1 & H2 & H3 & H4).
  pose proof (subtree_root _ Ht) as Hsorted. exists s, ess. split_and!; [done..|]. intros d. rewrite (verified_entries _ _ _ Hh). split.
  - intros []. by split_and!.
  - intros (Hp & Hr & Hk). split; [done|done| |done|done]. destruct Ht as [Hhead _ _].
    destruct (ManifestEntry.path <$> concat ess); [done|]. injection Hhead as ->. set_solver.
Qed.
