(* ===== verification/ManifestSample.v ===== *)
(** * A small file system is walked

    A root with a generation marker and an empty rootfs, as two mounts show it, and the
    theorems on manifests applied there. *)

From stdpp Require Import gmap.
From S2P Require Import Prelude RustStr ByteOrder ManagedPath ProtocolError Payload Sha256 BuilderManifest BuilderMessage Session BuilderSession GuestErrors Agree.
From S2P Require Import HexText HostError ManifestTree ManifestChunks ManifestWalk HostManifest ManifestStream.

#[local] Arguments bs : simpl never.

(** A codec of some values: the number of the value in one byte *)
Section table.
Context {T : Type} `{EqDecision T} (values : list T).

Definition table_codec : Cbor T := {|
  cbor_to_vec m := match list_find (m =.) values with
                   | Some (i, _) => if decide (i < 256) then Ok (to_be 1 (N.of_nat i)) else Err (bs "unsupported")
                   | None => Err (bs "unsupported")
                   end;
  cbor_decode p := match p with
                   | b :: _ => match values !! N.to_nat (from_be [b]) with Some m => Ok (m, 1%N) | None => Err (bs "unsupported") end
                   | [] => Err (bs "unsupported")
                   end;
|}.

Lemma table_codec_laws : @CborLaws T table_codec.
Proof.
  split; cbn [cbor_to_vec cbor_decode table_codec].
  - intros m p. destruct (list_find _ values) as [[i m']|] eqn:Hf; [|done]. apply list_find_Some in Hf as (Hi & <- & _).
    case_decide as Hb; [|done]. intros <-%ok_inj. pose proof (length_to_be 1 (N.of_nat i)) as Hl. destruct (to_be 1 (N.of_nat i)) as [|b [|]] eqn:Hbe; [done| |done].
    rewrite <- Hbe, from_to_be by (change (256 ^ N.of_nat 1)%N with 256%N; lia). rewrite Nat2N.id, Hi. done.
  - intros [|b p] m n; [done|]. destruct (values !! _); [|done]. intros [= _ <-]. rewrite len_cons. lia.
  - intros m. destruct (list_find _ values) as [[]|]; [by case_decide|done].
  - intros [|b p]; [done|]. by destruct (values !! _).
Qed.
End table.

Module SampleTree.
Import SampleCodecs.
#[local] Existing Instances SampleHash.sample_sha2 SampleHash.sample_sha2_laws SampleHex.sample_hex.

Definition missing : io_error := io_error_of NotFound None.

Definition root : bytes := bs "/t".
Definition marker : bytes := path_join root MARKER_PATH.
Definition rootfs : bytes := path_join root (bs "rootfs").

Definition node (file_type : FileType.t) (ino size : N) : NodeMetadata.t :=
  NodeMetadata.mk file_type 64 ino 1 420 0 0 size 0 1700000000 0.

(** The order of the listing, the pieces of the file and the first inode are the mount's. *)
Definition view (names pieces : list bytes) (first : N) : Tree.t := {|
  Tree.symlink_metadata path :=
    if decide (path = root) then inr (node FileType.Dir first 4096)
    else if decide (path = marker) then inr (node FileType.File (first + 1) 3)
    else if decide (path = rootfs) then inr (node FileType.Dir (first + 2) 4096) else inl missing;
  Tree.read_dir path :=
    if decide (path = root) then inr (inr <$> names) else if decide (path = rootfs) then inr [] else inl missing;
  Tree.read_link path := inl missing;
  Tree.open path := if decide (path = marker) then inr (inr <$> pieces) else inl missing;
  Tree.xattr_names_size path := inr 0%N;
  Tree.xattr_names path := inl missing;
  Tree.xattr_value_size path name := inl missing;
  Tree.xattr_value path name := inl missing;
  Tree.last_os_error := missing;
|}.

Definition built : Tree.t := view [bs "rootfs"; MARKER_PATH] [bs "ab"; bs "c"] 11.
Definition mounted : Tree.t := view [MARKER_PATH; bs "rootfs"] [bs "abc"] 20.

Definition entry (path : bytes) (kind size : N) (content : option bytes) : ManifestEntry.t :=
  ManifestEntry.manifest_entry path kind 420 0 0 size 0 1700000000 0 None content None [].
Definition entries : list ManifestEntry.t :=
  [entry [] 2 4096 None; entry MARKER_PATH 1 3 (Some (sha256_digest (bs "abc"))); entry (bs "rootfs") 2 4096 None].

#[local] Instance entry_eq_dec : EqDecision ManifestEntry.t.
Proof. assert (EqDecision ManifestXattr.t) by solve_decision. solve_decision. Defined.
#[local] Instance entry_codec : Cbor ManifestEntry.t := table_codec entries.
#[local] Instance entry_codec_laws : CborLaws ManifestEntry.t := table_codec_laws entries.
#[local] Instance texts : ErrorTexts :=
  {| io_error_text _ := bs "error"; errno_text _ := bs "errno"; protocol_error_text _ := bs "protocol" |}.

Lemma same_views names pieces first names' pieces' first' :
  names ≡ₚ names' → content_of (inr <$> pieces) = content_of (inr <$> pieces') →
  same_tree (view names pieces first) (view names' pieces' first') root root.
Proof.
  intros Hn Hc. split; try done.
  - split; apply (bool_decide_unpack _); vm_compute; exact I.
  - intros rel. cbn [Tree.symlink_metadata view]. repeat case_decide; done.
  - intros rel rel' m m' n n'. cbn [Tree.symlink_metadata view]. unfold inode. repeat case_decide; intros; simplify_eq; cbn; split; intros [=]; f_equal; lia.
  - intros rel. cbn [Tree.read_dir view]. repeat case_decide; [| |done].
    + left. by exists names, names'.
    + left. by exists [], [].
  - intros rel. cbn [Tree.open view]. by case_decide.
Qed.

#[local] Instance codecs : BuilderMessage.Codecs := {|
  BuilderMessage.hello_cbor := no_codec _;
  BuilderMessage.start_cbor := no_codec _;
  BuilderMessage.begin_cbor := no_codec _;
  BuilderMessage.chunk_cbor := no_codec _;
  BuilderMessage.end_cbor := no_codec _;
  BuilderMessage.account_cbor := no_codec _;
  BuilderMessage.done_cbor := no_codec _;
  BuilderMessage.build_error_cbor := no_codec _;
  BuilderMessage.database_cbor := no_codec _;
  BuilderMessage.entry_cbor := entry_codec;
|}.

Definition schema : bytes := bs "m1".
Definition key : bytes := replicate 64 x61.

Definition walked : BuilderWalk.bresult (BuilderWalk.ManifestSummary * list BuilderMessage.t) :=
  BuilderWalk.emit_manifest collect built root schema ManifestLimits.default key [].
Definition summary : BuilderWalk.ManifestSummary :=
  match walked with Ok (summary, _) => summary | _ => BuilderWalk.manifest_summary [] [] 0 0 end.
Definition messages : list BuilderMessage.t := match walked with Ok (_, messages) => messages | _ => [] end.

Lemma walked_Ok : walked = Ok (summary, messages).
Proof. vm_compute. reflexivity. Qed.

(** The session after the start of the build *)
Definition session : BuilderSession.t :=
  BuilderSession.set_state BuilderState.AwaitManifestBegin
    (BuilderSession.set_manifest_limits (Some ManifestLimits.default)
    (BuilderSession.set_manifest_schema (Some schema) (BuilderSession.set_next_guest_sequence 1 BuilderSession.new))).

Lemma built_names : names_ok built.
Proof.
  intros path names. cbn [Tree.read_dir built view]. repeat case_decide; [| |done].
  - destruct names as [|a [|b [|]]]; try done. intros [= <- <-]. split; apply (bool_decide_unpack _); vm_compute; exact I.
  - destruct names; [|done]. intros _. by split; constructor.
Qed.

Lemma manifest_walks_agree_witness :
  ∃ x y, BuilderWalk.emit_manifest collect built root schema ManifestLimits.default key [] = Ok x ∧
    ValidatorWalk.validate_manifest mounted root ManifestLimits.default = Ok y ∧ same_summary x.1 y ∧
    ValidatorWalk.summary_entry_count y = 3%N.
Proof.
  pose proof (manifest_walks_agree (codec_laws := entry_codec_laws) collect built mounted root root schema ManifestLimits.default key []
    (λ e m, ex_intro _ _ eq_refl) (same_views [bs "rootfs"; MARKER_PATH] [bs "ab"; bs "c"] 11 [MARKER_PATH; bs "rootfs"] [bs "abc"] 20
       (perm_swap _ _ _) eq_refl)) as H.
  fold walked in H |- *. rewrite walked_Ok in *. destruct (ValidatorWalk.validate_manifest _ _ _) as [y| |] eqn:Hy; [|done..].
  exists (summary, messages), y. split_and!; [done|done|exact H|]. destruct H as (_ & -> & _). vm_compute. reflexivity.
Defined.

Lemma manifest_stream_accepted_witness :
  ∃ s, fold_result deliver session messages = Ok s ∧ BuilderSession.state s = BuilderState.AwaitAccountDb ∧
    length (omap chunk_of messages) = 1 ∧
    ∃ v, fold_result ManifestStructuralVerifier.accept_chunk ManifestStructuralVerifier.default (omap chunk_of messages) = Ok v ∧
      ManifestStructuralVerifier.marker_sha256 v = Ok (sha256_hex (bs "abc")).
Proof.
  destruct (manifest_stream_accepted (codecs := codecs) (laws := entry_codec_laws) built root schema ManifestLimits.default key session summary messages) as
    (s & ess & Hd & Hs & _ & _ & _ & _ & _ & _ & _); [exact built_names| |exact walked_Ok|].
  - split; try reflexivity. apply (bool_decide_unpack _). vm_compute. exact I.
  - exists s. split_and!; [done|done|vm_compute; reflexivity|]. eexists. split; vm_compute; reflexivity.
Defined.
End SampleTree.
