(* ===== verification/HostBuild.v ===== *)
(** * The host's side of a build: crates/pocket-runtime/src/builder.rs

    The control connections to the builder and to the validator guest ([BuilderControl],
    [ValidatorControl]), the checks of the two announcements and the two protocols
    ([run_builder_protocol], [run_validator_protocol]).  The deadlines of [DeadlineIo] decide
    which reads and writes fail, which the transports of Frame say already. *)

From S2P Require Import Prelude RustStr ByteOrder ProtocolError Frame Payload Message Session Sha256 BuilderManifest AccountDatabase.
From S2P Require Import BuilderMessage BuilderSession Validator ValidatorSession NoPanic HexText HostError Profile HostManifest.

#[local] Arguments bs : simpl never.

Module BuilderPolicy.
Record t : Set := mk {
  startup_timeout : N;
  build_timeout : N;
  validation_timeout : N;
  helper_timeout : N;
  helper_timeout_per_gib : N;
  guard_term_timeout : N;
  guard_exit_timeout : N;
  maximum_log_bytes : N;
}.

Definition from_secs (seconds : N) : N := seconds * 1000000000.

Definition default : t :=
  mk (from_secs 30) (from_secs (30 * 60)) (from_secs (30 * 60)) (from_secs (5 * 60)) (from_secs (5 * 60)) (from_secs 5) (from_secs 10)
    (8 * 1024 * 1024).
End BuilderPolicy.

Module BuildControl.
Definition classify_protocol (error : ProtocolError) (stage : string) (timeout : N) : HostBuildError.t :=
  match error with
  | Io source =>
      if decide (io_kind source = TimedOut ∨ io_kind source = WouldBlock)
      then HostBuildError.Timeout stage timeout else HostBuildError.Protocol error
  | _ => HostBuildError.Protocol error
  end.

(** What [BuilderControl] and [ValidatorControl] share *)
Section control.
Context {S M W : Type} `{!Session S M} `{!Write W}.
Context (decode : RawFrame → result ProtocolError M) (encode : M → result ProtocolError bytes) (kind : M → MessageKind.t).

Record t : Type := control {
  incoming : reader;
  outgoing : W;
  session : S;
}.

Definition new (incoming : reader) (outgoing : W) : t := control incoming outgoing session_new.

Definition receive (self : t) (timeout : N) (stage : string) : t * hresult M :=
  let sequence := session_next_sequence (session self) Direction.GuestToHost in
  try_with self (map_err HostBuildError.Protocol (reader_with_limits (incoming self) sequence MAX_CONTROL_PAYLOAD)) (λ frames,
  let '(frames, frame) := read_frame frames in
  let self := control (reader_inner frames) (outgoing self) (session self) in
  try_with self (map_err (λ error, classify_protocol error stage timeout) frame) (λ frame,
  try_with self (map_err HostBuildError.Protocol (decode frame)) (λ message,
  let '(candidate, accepted) := session_accept (session self) Direction.GuestToHost message (Frame.sequence (header frame)) in
  try_with self (map_err HostBuildError.Protocol accepted) (λ _,
  (control (incoming self) (outgoing self) candidate, Ok message))))).

Definition send (self : t) (message : M) (timeout : N) (stage : string) : t * hresult () :=
  try_with self (map_err HostBuildError.Protocol (encode message)) (λ payload,
  let sequence := session_next_sequence (session self) Direction.HostToGuest in
  let '(candidate, accepted) := session_accept (session self) Direction.HostToGuest message sequence in
  try_with self (map_err HostBuildError.Protocol accepted) (λ _,
  try_with self (map_err HostBuildError.Protocol (writer_with_limits (outgoing self) sequence MAX_CONTROL_PAYLOAD)) (λ frames,
  let '(frames, written) := write_frame frames (kind message) payload in
  let self := control (incoming self) (writer_inner frames) (session self) in
  try_with self (map_err (λ error, classify_protocol error stage timeout) written) (λ _,
  let '(frames, flushed) := writer_flush frames in
  let self := control (incoming self) (writer_inner frames) (session self) in
  try_with self (map_err (λ error, classify_protocol error stage timeout) flushed) (λ _,
  (control (incoming self) (outgoing self) candidate, Ok ())))))).
End control.
Arguments t : clear implicits.
End BuildControl.

Module BuilderControl.
Section control.
Context {sha : Sha2} {codecs : BuilderMessage.Codecs} {W : Type} `{!Write W}.
Definition t : Type := BuildControl.t BuilderSession.t W.
Definition new : reader → W → t := BuildControl.new.
Definition receive : t → N → string → t * hresult BuilderMessage.t := BuildControl.receive BuilderMessage.decode_builder_message.
Definition send : t → BuilderMessage.t → N → string → t * hresult () := BuildControl.send BuilderMessage.encode_payload BuilderMessage.kind.
End control.
End BuilderControl.

Module ValidatorControl.
Section control.
Context {sha : Sha2} {codecs : ValidatorMessage.Codecs} {W : Type} `{!Write W}.
Definition t : Type := BuildControl.t ValidatorSession.t W.
Definition new : reader → W → t := BuildControl.new.
Definition receive : t → N → string → t * hresult ValidatorMessage.t := BuildControl.receive ValidatorMessage.decode_validator_message.
Definition send : t → ValidatorMessage.t → N → string → t * hresult () := BuildControl.send ValidatorMessage.encode_payload ValidatorMessage.kind.
End control.
End ValidatorControl.

(** ** The announcements *)
Section hello.
(** The [{:?}] texts *)
Context (debug_kind : MessageKind.t → bytes) (debug_tools : list ToolIdentity.t → bytes) (debug_features : list bytes → bytes).

Definition unexpected_builder (expected : string) (actual : MessageKind.t) : HostBuildError.t :=
  HostBuildError.EvidenceMismatch "builder_message_kind" (bs expected) (debug_kind actual).
Definition unexpected_validator (expected : string) (actual : MessageKind.t) : HostBuildError.t :=
  HostBuildError.EvidenceMismatch "validator_message_kind" (bs expected) (debug_kind actual).

(** The rounds of the two loops of comparisons *)
Definition hello_text (row : string * bytes * bytes) : hresult () :=
  let '(field, expected, actual) := row in
  if decide (expected ≠ actual) then Err (HostBuildError.HelloMismatch field expected actual) else Ok ().
Definition hello_number (row : string * N * N) : hresult () :=
  let '(field, expected, actual) := row in
  if decide (expected ≠ actual) then Err (HostBuildError.HelloMismatch field (to_decimal expected) (to_decimal actual)) else Ok ().

Definition tool_identity_of (tool : BuilderToolContract.t) : ToolIdentity.t :=
  ToolIdentity.tool_identity (BuilderToolContract.role tool) (BuilderToolContract.sha256 tool) (BuilderToolContract.version tool).

Definition verify_builder_hello (manifest : ProfileManifest.t) (hello : BuilderHello.t) : hresult () :=
  let builder := ProfileManifest.builder manifest in
  let contract := BuilderContract.hello builder in
  each hello_text
    [("guest_contract_id", HelloContract.guest_contract_id contract, BuilderHello.guest_contract_id hello);
     ("init_build_id", HelloContract.init_build_id contract, BuilderHello.init_build_id hello);
     ("kernel_build_id", HelloContract.kernel_build_id contract, BuilderHello.kernel_build_id hello);
     ("guest_uts_machine", bs "x86_64", BuilderHello.guest_uts_machine hello);
     ("cpu_state_hwcap_policy", Contracts.cpu_state_hwcap_policy (ProfileManifest.contracts manifest), BuilderHello.cpu_state_hwcap_policy hello)];;
  each hello_number
    [("host_elf_machine", ProfileManifest.host_elf_machine manifest, BuilderHello.host_elf_machine hello);
     ("guest_page_size", ProfileManifest.guest_page_size manifest, BuilderHello.guest_page_size hello);
     ("online_cpus", 1%N, BuilderHello.online_cpus hello)];;
  let floor := MemoryManifest.builder_memory_bytes (ProfileManifest.memory manifest) in
  if decide (BuilderHello.accepted_physmem_bytes hello < floor)%N
  then Err (HostBuildError.HelloMismatch "accepted_physmem_bytes" (bs "at least " ++ to_decimal floor)
              (to_decimal (BuilderHello.accepted_physmem_bytes hello))) else
  let expected_tools := tool_identity_of <$> BuilderContract.required_tools builder in
  if decide (BuilderHello.builder_tools hello ≠ expected_tools)
  then Err (HostBuildError.HelloMismatch "builder_tools" (debug_tools expected_tools) (debug_tools (BuilderHello.builder_tools hello))) else
  each (λ required,
    if decide (¬ Exists (λ feature, feature = required) (BuilderHello.features hello))
    then Err (HostBuildError.HelloMismatch "features" required (debug_features (BuilderHello.features hello))) else Ok ())
    (HelloContract.required_features contract).

Definition verify_validator_hello (manifest : ProfileManifest.t) (hello : ValidatorHello.t) : hresult () :=
  let contract := ValidatorContract.hello (ProfileManifest.validator manifest) in
  each hello_text
    [("validator.guest_contract_id", HelloContract.guest_contract_id contract, ValidatorHello.guest_contract_id hello);
     ("validator.init_build_id", HelloContract.init_build_id contract, ValidatorHello.init_build_id hello);
     ("validator.kernel_build_id", HelloContract.kernel_build_id contract, ValidatorHello.kernel_build_id hello);
     ("validator.guest_uts_machine", bs "x86_64", ValidatorHello.guest_uts_machine hello);
     ("validator.cpu_state_hwcap_policy", Contracts.cpu_state_hwcap_policy (ProfileManifest.contracts manifest), ValidatorHello.cpu_state_hwcap_policy hello)];;
  each hello_number
    [("validator.host_elf_machine", ProfileManifest.host_elf_machine manifest, ValidatorHello.host_elf_machine hello);
     ("validator.guest_page_size", ProfileManifest.guest_page_size manifest, ValidatorHello.guest_page_size hello);
     ("validator.online_cpus", 1%N, ValidatorHello.online_cpus hello)];;
  let floor := MemoryManifest.validator_memory_bytes (ProfileManifest.memory manifest) in
  if decide (ValidatorHello.accepted_physmem_bytes hello < floor)%N
  then Err (HostBuildError.HelloMismatch "validator.accepted_physmem_bytes" (bs "at least " ++ to_decimal floor)
              (to_decimal (ValidatorHello.accepted_physmem_bytes hello))) else
  if decide (ValidatorHello.features hello ≠ HelloContract.required_features contract)
  then Err (HostBuildError.HelloMismatch "validator.features" (debug_features (HelloContract.required_features contract))
              (debug_features (ValidatorHello.features hello))) else
  Ok ().

(** ** The protocols *)

(** [match message { .. => .., Error(message) => return Err(..), message => return Err(..) }] *)
Definition expect {A} (select : BuilderMessage.t → option A) (stage expected : string) (message : BuilderMessage.t) : hresult A :=
  match select message, message with
  | Some a, _ => Ok a
  | None, BuilderMessage.Error error => Err (HostBuildError.Guest stage error)
  | None, _ => Err (unexpected_builder expected (BuilderMessage.kind message))
  end.
Definition expect_validator {A} (select : ValidatorMessage.t → option A) (stage : string) (message : ValidatorMessage.t) : hresult A :=
  match select message, message with
  | Some a, _ => Ok a
  | None, ValidatorMessage.Error error => Err (HostBuildError.Guest stage error)
  | None, _ => Err (unexpected_validator stage (ValidatorMessage.kind message))
  end.

Section builder.
Context {sha : Sha2} {hex : Hex} {codecs : BuilderMessage.Codecs} {W F : Type} `{!Write W} `{!Write F}.

(** A file of the generation: [write_all(..).map_err(|error| HostBuildError::io(..))] *)
Definition write_evidence (operation : string) (name : bytes) (file : F) (b : bytes) : F * hresult () :=
  let '(file, written) := write_all file b in
  (file, map_err (HostBuildError.Io operation name) written).

(** The loop over the chunks.  Every frame takes bytes from the connection, so they are fuel
    enough ([manifest_loop_returns]). *)
Fixpoint manifest_loop (fuel : nat) (timeout : N) (control : BuilderControl.t (W:=W)) (verifier : ManifestStructuralVerifier.t) (metadata_manifest : F)
    : (BuilderControl.t (W:=W) * F) * hresult ManifestStructuralVerifier.t :=
  match fuel with
  | O => ((control, metadata_manifest), Panic)
  | S fuel =>
      let '(control, message) := BuilderControl.receive control timeout "metadata manifest" in
      try_with (control, metadata_manifest) message (λ message,
      match message with
      | BuilderMessage.ManifestChunk chunk =>
          try_with (control, metadata_manifest) (ManifestStructuralVerifier.accept_chunk verifier chunk) (λ verifier,
          let '(metadata_manifest, written) :=
            write_evidence "write metadata manifest" (bs "<metadata.manifest>") metadata_manifest (ManifestChunk.bytes chunk) in
          try_with (control, metadata_manifest) written (λ _,
          manifest_loop fuel timeout control verifier metadata_manifest))
      | BuilderMessage.ManifestEnd _ => ((control, metadata_manifest), Ok verifier)
      | BuilderMessage.Error error => ((control, metadata_manifest), Err (HostBuildError.Guest "metadata manifest" error))
      | message => ((control, metadata_manifest), Err (unexpected_builder "MANIFEST_CHUNK/END" (BuilderMessage.kind message)))
      end)
  end.

(** What is left to read *)
Definition unread (r : reader) : nat := length r + length (content r).

(** The connection, the metadata manifest and the accounts file after the protocol *)
Record Outcome : Type := outcome { control : BuilderControl.t (W:=W); metadata_manifest : F; accounts : F }.

Definition run_builder_protocol (self : Outcome) (start : BuilderStart.t) (manifest : ProfileManifest.t) (policy : BuilderPolicy.t)
    : Outcome * hresult BuilderDone.t :=
  let startup_timeout := BuilderPolicy.startup_timeout policy in
  let build_timeout := BuilderPolicy.build_timeout policy in
  let metadata := metadata_manifest self in
  let accounts := accounts self in
  let '(control, message) := BuilderControl.receive (control self) startup_timeout "BUILD_HELLO" in
  let self := outcome control metadata accounts in
  try_with self (message ← message; expect (λ m, match m with BuilderMessage.Hello hello => Some hello | _ => None end) "BUILD_HELLO" "BUILD_HELLO" message) (λ hello,
  try_with self (verify_builder_hello manifest hello) (λ _,
  let '(control, sent) := BuilderControl.send control (BuilderMessage.Start start) startup_timeout "BUILD_START" in
  let self := outcome control metadata accounts in
  try_with self sent (λ _,
  let '(control, message) := BuilderControl.receive control build_timeout "MANIFEST_BEGIN" in
  let self := outcome control metadata accounts in
  try_with self (message ← message; expect (λ m, match m with BuilderMessage.ManifestBegin begin => Some begin | _ => None end) "MANIFEST_BEGIN" "MANIFEST_BEGIN" message) (λ _,
  let '((control, metadata), verifier) :=
    manifest_loop (S (unread (BuildControl.incoming control))) build_timeout control ManifestStructuralVerifier.default metadata in
  let self := outcome control metadata accounts in
  try_with self verifier (λ verifier,
  try_with self (ManifestStructuralVerifier.finish verifier) (λ _,
  let '(control, message) := BuilderControl.receive control build_timeout "ACCOUNT_DB" in
  let self := outcome control metadata accounts in
  try_with self (message ← message; expect (λ m, match m with BuilderMessage.AccountDb account_db => Some account_db | _ => None end) "ACCOUNT_DB" "ACCOUNT_DB" message) (λ account_db,
  try_with self (map_err HostBuildError.Protocol (validate account_db)) (λ _,
  let '(accounts, written) := write_evidence "write accounts.cbor" (bs "<accounts.cbor>") accounts (AccountDb.canonical_bytes account_db) in
  let self := outcome control metadata accounts in
  try_with self written (λ _,
  let '(control, message) := BuilderControl.receive control build_timeout "BUILD_DONE" in
  let self := outcome control metadata accounts in
  try_with self (message ← message; expect (λ m, match m with BuilderMessage.Done done' => Some done' | _ => None end) "BUILD_DONE" "BUILD_DONE" message) (λ done',
  (self,
   compare_evidence "account_db_sha256" (AccountDb.sha256 account_db) (BuilderDone.account_db_sha256 done');;
   marker ← ManifestStructuralVerifier.marker_sha256 verifier;
   compare_evidence "generation_marker_sha256" marker (BuilderDone.generation_marker_sha256 done');;
   Ok done'))))))))))).
End builder.

Section validator.
Context {sha : Sha2} {codecs : ValidatorMessage.Codecs} {W : Type} `{!Write W}.

Definition run_validator_protocol (control : ValidatorControl.t (W:=W)) (start : ValidatorStart.t) (manifest : ProfileManifest.t) (policy : BuilderPolicy.t)
    : ValidatorControl.t (W:=W) * hresult ValidatorDone.t :=
  let startup_timeout := BuilderPolicy.startup_timeout policy in
  let '(control, message) := ValidatorControl.receive control startup_timeout "VALIDATE_HELLO" in
  try_with control (message ← message; expect_validator (λ m, match m with ValidatorMessage.Hello hello => Some hello | _ => None end) "VALIDATE_HELLO" message) (λ hello,
  try_with control (verify_validator_hello manifest hello) (λ _,
  let '(control, sent) := ValidatorControl.send control (ValidatorMessage.Start start) startup_timeout "VALIDATE_START" in
  try_with control sent (λ _,
  let '(control, message) := ValidatorControl.receive control (BuilderPolicy.validation_timeout policy) "VALIDATE_DONE" in
  (control, message ← message; expect_validator (λ m, match m with ValidatorMessage.Done done' => Some done' | _ => None end) "VALIDATE_DONE" message)))).
End validator.
End hello.

(** ** Messages that arrive and leave *)
Lemma try_with_ok {S E A B} (s : S) (r : result E A) (k : A → S * result E B) s' b :
  try_with s r k = (s', Ok b) ↔ ∃ a, r = Ok a ∧ k a = (s', Ok b).
Proof. destruct r; naive_solver. Qed.

(** Reading uses the transport up. *)
Lemma read_loop_unread r part expected need received r' res :
  read_loop r part expected need received = (r', res) →
  unread r' ≤ unread r ∧ (need ≠ 0 → ∀ b, res = Ok b → unread r' < unread r).
Proof.
  unfold unread. revert need received. induction r as [|event r IH]; intros need received; cbn [read_loop].
  { case_decide; intros [= <- <-]; split; (done || lia). }
  destruct (decide (need = 0)) as [->|Hn]; [intros [= <- <-]; split; [done|lia]|]. destruct event as [arrived|e].
  - change (content (Data arrived :: r)) with (arrived ++ content r). rewrite length_app. cbn [length].
    destruct arrived as [|b arrived]; [intros [= <- <-]; split; [simpl; lia|done]|]. case_decide as Hle.
    + intros [H1 _]%IH. cbn [length] in *. split; [lia|]. intros _ ? _. lia.
    + intros [= <- <-]. change (content (Data ?a :: r)) with (a ++ content r). cbn [length]. rewrite length_app, length_drop. cbn [length] in *. split; lia.
  - change (content (Failure e :: r)) with (content r). cbn [length]. case_decide; [intros [H1 _]%IH; split; [lia|]; intros; lia|].
    intros [= <- <-]. split; [lia|done].
Qed.

Lemma read_frame_unread R R' f :
  read_frame R = (R', Ok f) → unread (reader_inner R') < unread (reader_inner R).
Proof.
  unfold read_frame, read_exact_classified. destruct (read_loop (reader_inner R) _ _ _ _) as [r1 hb] eqn:H1. intros Hf.
  case_match eqn:Hc; [|done..]. case_match; subst. apply bind_ok in Hc as (b & -> & _).
  apply read_loop_unread in H1 as [_ H1]. specialize (H1 ltac:(done) _ eq_refl).
  destruct (read_loop r1 _ _ _ _) as [r2 p] eqn:H2. apply read_loop_unread in H2 as [H2 _].
  destruct p; [|done..]. injection Hf as <- <-. cbn [reader_inner]. lia.
Qed.

Section control.
Context {S M W : Type} `{!Session S M} `{!Write W}.
Context (decode : RawFrame → result ProtocolError M) (encode : M → result ProtocolError bytes) (kind : M → MessageKind.t).
Import BuildControl.

(** A message that arrives is accepted by the session. *)
Lemma receive_Ok (self : BuildControl.t S W) timeout stage self' m :
  receive decode self timeout stage = (self', Ok m) →
  outgoing self' = outgoing self ∧ unread (incoming self') < unread (incoming self) ∧
  ∃ n, session_accept (session self) Direction.GuestToHost m n = (session self', Ok ()).
Proof.
  unfold receive. intros (frames & Hl & Hr)%try_with_ok. apply map_err_ok in Hl. unfold reader_with_limits in Hl. apply guard_ok in Hl as (_ & <-%ok_inj).
  destruct (read_frame _) as [frames res] eqn:Hf. apply try_with_ok in Hr as (f & Hres & Hr). apply map_err_ok in Hres as ->.
  apply read_frame_unread in Hf. apply try_with_ok in Hr as (message & _ & Hr).
  cbn [session outgoing incoming] in Hr. destruct (session_accept _ _ _ _) as [candidate accepted] eqn:Ha. apply try_with_ok in Hr as ([] & Hacc & [= <- <-]).
  apply map_err_ok in Hacc as ->. split_and!; [done|done|by eexists].
Qed.

Lemma send_accepts (self : BuildControl.t S W) m timeout stage self' :
  send encode kind self m timeout stage = (self', Ok ()) → ∃ n, session_accept (session self) Direction.HostToGuest m n = (session self', Ok ()).
Proof.
  unfold send. intros (payload & _ & Hr)%try_with_ok. destruct (session_accept _ _ _ _) as [candidate accepted] eqn:Ha.
  apply try_with_ok in Hr as ([] & Hacc & Hr). apply map_err_ok in Hacc as ->. apply try_with_ok in Hr as (frames & _ & Hr).
  destruct (write_frame _ _ _). apply try_with_ok in Hr as (q & _ & Hr). destruct (writer_flush _). apply try_with_ok in Hr as ([] & _ & [= <-]). by eexists.
Qed.

(** A message that leaves was accepted by the session, and it is one frame. *)
Lemma send_Ok `{!WriteLaws W} (self : BuildControl.t S W) m timeout stage self' :
  (∀ w w', flush_inner w = (w', Ok ()) → written w' = written w) →
  send encode kind self m timeout stage = (self', Ok ()) →
  incoming self' = incoming self ∧ ∃ n payload, encode m = Ok payload ∧
    session_accept (session self) Direction.HostToGuest m n = (session self', Ok ()) ∧
    written (outgoing self') = written (outgoing self) ++ to_bytes (frame_header (kind m) 0 (len payload) n) ++ payload.
Proof.
  intros Hflush. unfold send. intros (payload & Hp & Hr)%try_with_ok. apply map_err_ok in Hp.
  destruct (session_accept _ _ _ _) as [candidate accepted] eqn:Ha. apply try_with_ok in Hr as ([] & Hacc & Hr). apply map_err_ok in Hacc as ->.
  apply try_with_ok in Hr as (frames & Hl & Hr). apply map_err_ok in Hl. unfold writer_with_limits in Hl. apply guard_ok in Hl as (_ & <-%ok_inj).
  destruct (write_frame _ _ _) as [frames wr] eqn:Hw. apply try_with_ok in Hr as (q & Hwr & Hr). apply map_err_ok in Hwr as ->.
  apply write_frame_Ok in Hw as (-> & _ & _ & _ & _ & _ & Hw). unfold writer_flush in Hr. destruct (flush_inner _) as [w' fl] eqn:Hfl.
  apply try_with_ok in Hr as ([] & Hfr & [= <-]). apply map_err_ok, map_err_ok in Hfr as ->. cbn [incoming outgoing session writer_inner] in *.
  split; [done|]. eexists _, payload. split; [done|]. split; [exact Ha|]. by rewrite (Hflush _ _ Hfl), Hw.
Qed.
End control.

(** The messages that come from a connection: the frames read one after another, with the
    sequence numbers from [n] on, decode to them, and leave [r']. *)
Section arrives.
Context {S M W : Type} `{!Session S M} `{!SessionLaws S M} `{!Write W}.
Context (decode : RawFrame → result ProtocolError M) (encode : M → result ProtocolError bytes) (kind : M → MessageKind.t).
Import BuildControl.

Fixpoint arrives (r : reader) (n : N) (ms : list M) (r' : reader) : Prop :=
  match ms with
  | [] => r' = r
  | m :: ms => ∃ R f, read_frame (frame_reader r n MAX_CONTROL_PAYLOAD) = (R, Ok f) ∧ decode f = Ok m ∧
                 arrives (reader_inner R) (n + 1) ms r'
  end.

(** The same of a control connection, whose session counts the frames *)
Definition received (c : BuildControl.t S W) (ms : list M) (c' : BuildControl.t S W) : Prop :=
  arrives (incoming c) (session_next_sequence (session c) Direction.GuestToHost) ms (incoming c') ∧
  session_next_sequence (session c') Direction.GuestToHost = (session_next_sequence (session c) Direction.GuestToHost + len ms)%N.

Lemma arrives_app r n ms r1 ks r' : arrives r n ms r1 → arrives r1 (n + len ms) ks r' → arrives r n (ms ++ ks) r'.
Proof.
  revert r n. induction ms as [|m ms IH]; intros r n; cbn [app arrives]; [intros ->; by rewrite len_nil, N.add_0_r|].
  intros (R & f & Hf & Hm & Hms) Hks. exists R, f. split_and!; [done|done|]. apply IH; [done|].
  by rewrite len_cons, N.add_assoc in Hks.
Qed.

Lemma received_app c ms c1 ks c' : received c ms c1 → received c1 ks c' → received c (ms ++ ks) c'.
Proof. intros [H1 H2] [H3 H4]. split; [eapply arrives_app; [done|by rewrite <- H2]|]. rewrite H4, H2, len_app. lia. Qed.

Lemma receive_received c timeout stage c' m : receive decode c timeout stage = (c', Ok m) → received c [m] c'.
Proof.
  unfold receive. intros (frames & Hl & Hr)%try_with_ok. apply map_err_ok in Hl. unfold reader_with_limits in Hl. apply guard_ok in Hl as (_ & <-%ok_inj).
  destruct (read_frame _) as [frames res] eqn:Hf. apply try_with_ok in Hr as (f & Hres & Hr). apply map_err_ok in Hres as ->.
  apply try_with_ok in Hr as (message & Hm%map_err_ok & Hr). cbn [session outgoing incoming] in Hr.
  destruct (session_accept _ _ _ _) as [candidate accepted] eqn:Ha. apply try_with_ok in Hr as ([] & Hacc & [= <- <-]).
  apply map_err_ok in Hacc as ->. split; [by exists frames, f|]. pose proof (accept_sequence _ _ _ _ _ Ha) as Hn.
  apply accept_next in Ha as (_ & Ha & _). cbn [session]. rewrite Ha, Hn. done.
Qed.

Lemma send_received c m timeout stage c' : send encode kind c m timeout stage = (c', Ok ()) → received c [] c'.
Proof.
  unfold send. intros (payload & _ & Hr)%try_with_ok. destruct (session_accept _ _ _ _) as [candidate accepted] eqn:Ha.
  apply try_with_ok in Hr as ([] & Hacc & Hr). apply map_err_ok in Hacc as ->. apply try_with_ok in Hr as (frames & _ & Hr).
  destruct (write_frame _ _ _). apply try_with_ok in Hr as (q & _ & Hr). destruct (writer_flush _). apply try_with_ok in Hr as ([] & _ & [= <-]).
  split; [done|]. apply accept_next in Ha as (_ & _ & Ha). cbn [session]. rewrite Ha by done. by rewrite len_nil, N.add_0_r.
Qed.
End arrives.

(** The session took these messages one after another. *)
Section follows.
Context {S M : Type} `{!Session S M}.

Definition follows (s : S) (h : list (Direction.t * M)) (s' : S) : Prop := ∃ l, fst <$> l = h ∧ accept_all s l = Some s'.

Lemma follows_nil s : follows s [] s.
Proof. by exists []. Qed.

Lemma follows_cons s d m n s1 h s' :
  session_accept s d m n = (s1, Ok ()) → follows s1 h s' → follows s ((d, m) :: h) s'.
Proof. intros Ha (l & <- & Hl). exists ((d, m, n) :: l). split; [done|]. apply accept_all_cons. by exists s1. Qed.

Lemma follows_app s h s1 k s' : follows s h s1 → follows s1 k s' → follows s (h ++ k) s'.
Proof.
  intros (l & <- & Hl) Hk. revert s Hl. induction l as [|[[d m] n] l IH]; intros s Hl; [by injection Hl as <-|].
  apply accept_all_cons in Hl as (s2 & Ha & Hl). cbn [fmap list_fmap fst app]. eapply follows_cons; [exact Ha|by apply IH].
Qed.
End follows.

Section protocol.
Context (debug_kind : MessageKind.t → bytes) (debug_tools : list ToolIdentity.t → bytes) (debug_features : list bytes → bytes).

Lemma np_try_with {S E A B} (s : S) (r : result E A) (k : A → S * result E B) :
  no_panic r → (∀ a, r = Ok a → no_panic (k a).2) → no_panic (try_with s r k).2.
Proof. destruct r; intros Hr Hk; [by apply Hk|done|done]. Qed.

Lemma write_frame_returns {W} `{!Write W} (Hout : ∀ (w : W) b, no_panic (write_all w b).2) (w : FrameWriter W) k p : no_panic (write_frame w k p).2.
Proof.
  unfold write_frame. case_match eqn:Hc; [case_match; subst| |].
  - pose proof (Hout (writer_inner w) (to_bytes f)) as H1. destruct (write_all (writer_inner w) _) as [w1 r1]. destruct r1 as [[]| |]; [|done..].
    cbn [map_err]. pose proof (Hout w1 p) as H2. destruct (write_all w1 p) as [w2 r2]. by destruct r2 as [[]| |].
  - done.
  - exfalso. revert Hc. cbv zeta. unfold header_new, ensure_payload_cap.
    match goal with |- ?r = Panic → _ => change (no_panic r) end. np.
Qed.

(** *** The manifest *)
Section builder.
Context {sha : Sha2} {hex : Hex} {codecs : BuilderMessage.Codecs} {W F : Type} `{!Write W} `{!Write F}.
Import BuilderSession.

Lemma write_evidence_Ok `{!WriteLaws F} operation name (file file' : F) b :
  write_evidence operation name file b = (file', Ok ()) → written file' = written file ++ b.
Proof.
  unfold write_evidence. destruct (write_all file b) as [f r] eqn:Hw. intros [= <- Hr]. apply map_err_ok in Hr as ->. by apply written_write_all.
Qed.

(** What the loop did: chunks and the end of the stream, checked and written *)
Lemma manifest_loop_Ok `{!WriteLaws F} fuel timeout (c : BuilderControl.t (W:=W)) v (f : F) c' f' v' :
  manifest_loop debug_kind fuel timeout c v f = ((c', f'), Ok v') →
  ∃ chunks end', follows (BuildControl.session c)
      (((λ chunk, from_guest (BuilderMessage.ManifestChunk chunk)) <$> chunks) ++ [from_guest (BuilderMessage.ManifestEnd end')]) (BuildControl.session c') ∧
    received BuilderMessage.decode_builder_message c ((BuilderMessage.ManifestChunk <$> chunks) ++ [BuilderMessage.ManifestEnd end']) c' ∧
    fold_result ManifestStructuralVerifier.accept_chunk v chunks = Ok v' ∧
    written f' = written f ++ concat (ManifestChunk.bytes <$> chunks) ∧ BuildControl.outgoing c' = BuildControl.outgoing c.
Proof.
  revert c v f. induction fuel as [|fuel IH]; intros c v f; [done|]. cbn [manifest_loop].
  destruct (BuilderControl.receive c timeout "metadata manifest") as [c1 message] eqn:Hr. intros (m & -> & Hm)%try_with_ok.
  pose proof (receive_received _ _ _ _ _ _ Hr) as Hin. apply receive_Ok in Hr as (Ho & _ & n & Ha). destruct m as [| | |chunk|end'| | |]; try done.
  - apply try_with_ok in Hm as (v1 & Hv & Hm). destruct (write_evidence _ _ f _) as [f1 wr] eqn:Hw. apply try_with_ok in Hm as ([] & -> & Hm).
    apply write_evidence_Ok in Hw. apply IH in Hm as (chunks & end' & Hf & Hrec & Hfold & Hwr & Ho'). exists (chunk :: chunks), end'.
    split_and!; [by eapply follows_cons|exact (received_app _ _ [_] _ _ _ Hin Hrec)|cbn [fold_result]; by rewrite Hv| |congruence].
    rewrite Hwr, Hw. cbn [fmap list_fmap concat]. by rewrite (assoc_L (++)).
  - injection Hm as <- <- <-. exists [], end'. split_and!; [eapply follows_cons; [done|apply follows_nil]|done|done|by rewrite app_nil_r|done].
Qed.

(** *** The announcements *)
Lemma hello_text_ok row : hello_text row = Ok () ↔ row.1.2 = row.2.
Proof. destruct row as [[f e] a]. unfold hello_text. rewrite guard_ok. cbn. split; [by intros [?%dec_stable _]|intros ->; split; [tauto|done]]. Qed.
Lemma hello_number_ok row : hello_number row = Ok () ↔ row.1.2 = row.2.
Proof. destruct row as [[f e] a]. unfold hello_number. rewrite guard_ok. cbn. split; [by intros [?%dec_stable _]|intros ->; split; [tauto|done]]. Qed.

(** The guest is the one that the profile names. *)
Record builder_announced (manifest : ProfileManifest.t) (hello : BuilderHello.t) : Prop := {
  announced_contract : HelloContract.guest_contract_id (BuilderContract.hello (ProfileManifest.builder manifest)) = BuilderHello.guest_contract_id hello;
  announced_init : HelloContract.init_build_id (BuilderContract.hello (ProfileManifest.builder manifest)) = BuilderHello.init_build_id hello;
  announced_kernel : HelloContract.kernel_build_id (BuilderContract.hello (ProfileManifest.builder manifest)) = BuilderHello.kernel_build_id hello;
  announced_machine : bs "x86_64" = BuilderHello.guest_uts_machine hello;
  announced_policy : Contracts.cpu_state_hwcap_policy (ProfileManifest.contracts manifest) = BuilderHello.cpu_state_hwcap_policy hello;
  announced_elf : ProfileManifest.host_elf_machine manifest = BuilderHello.host_elf_machine hello;
  announced_page : ProfileManifest.guest_page_size manifest = BuilderHello.guest_page_size hello;
  announced_cpus : 1%N = BuilderHello.online_cpus hello;
  announced_memory : (MemoryManifest.builder_memory_bytes (ProfileManifest.memory manifest) ≤ BuilderHello.accepted_physmem_bytes hello)%N;
  announced_tools : BuilderHello.builder_tools hello = tool_identity_of <$> BuilderContract.required_tools (ProfileManifest.builder manifest);
  announced_features : HelloContract.required_features (BuilderContract.hello (ProfileManifest.builder manifest)) ⊆ BuilderHello.features hello;
}.

Lemma verify_builder_hello_Ok manifest hello :
  verify_builder_hello debug_tools debug_features manifest hello = Ok () ↔ builder_announced manifest hello.
Proof.
  unfold verify_builder_hello. cbv zeta. rewrite !bind_unit_ok, !guard_ok, N.nlt_ge, !each_ok.
  assert (∀ l k : list bytes, Forall (λ r, (if decide (¬ Exists (λ f, f = r) k)
     then Err (HostBuildError.HelloMismatch "features" r (debug_features k)) else Ok ()) = Ok ()) l ↔ l ⊆ k) as ->.
  { intros l k. rewrite Forall_forall. setoid_rewrite guard_ok. split.
    - intros H r Hr. destruct (H r Hr) as [Hx _]. by apply dec_stable, Exists_exists in Hx as (x & Hx & ->).
    - intros H r Hr. split; [|done]. intros Hn. apply Hn, Exists_exists. exists r. split; [by apply H|done]. }
  rewrite !Forall_cons, !hello_text_ok, !hello_number_ok. cbn [fst snd]. split.
  - intros ((? & ? & ? & ? & ? & _) & (? & ? & ? & _) & ? & Ht%dec_stable & ?). by split.
  - intros []. split_and!; try done; [by constructor..|]. tauto.
Qed.

(** The checks of the messages by their kind *)
Lemma expect_Ok {A} (select : BuilderMessage.t → option A) stage expected m a :
  expect debug_kind select stage expected m = Ok a ↔ select m = Some a.
Proof. unfold expect. destruct (select m); [naive_solver|]. by destruct m. Qed.

(** A step of the protocol that receives a message *)
Lemma receive_expect_Ok {A} (select : BuilderMessage.t → option A) (c : BuilderControl.t (W:=W)) timeout stage c1 r stage' expected a :
  BuilderControl.receive c timeout stage = (c1, r) → (message ← r; expect debug_kind select stage' expected message) = Ok a →
  BuildControl.outgoing c1 = BuildControl.outgoing c ∧
  ∃ m n, select m = Some a ∧ session_accept (BuildControl.session c) Direction.GuestToHost m n = (BuildControl.session c1, Ok ()) ∧
    received BuilderMessage.decode_builder_message c [m] c1.
Proof.
  intros Hr (m & -> & Hm%expect_Ok)%bind_ok. pose proof (receive_received _ _ _ _ _ _ Hr) as Hin.
  apply receive_Ok in Hr as (Ho & _ & n & Ha). split; [done|]. by exists m, n.
Qed.

Lemma result_completes s d n s' :
  session_accept s Direction.GuestToHost (BuilderMessage.Done d) n = (s', Ok ()) → state s' = BuilderState.Completed.
Proof.
  intros (_ & _ & _ & next & Ha & ->)%builder_accept_Ok. unfold accept_inner in Ha. destruct (state s); try done.
  repeat (case_decide; [done|]). by injection Ha as <-.
Qed.

(** What a guest sends in a finished protocol *)
Definition guest_messages (hello : BuilderHello.t) (begin : ManifestBegin.t) (chunks : list ManifestChunk.t) (end' : ManifestEnd.t)
    (account : AccountDb.t) (done' : BuilderDone.t) : list BuilderMessage.t :=
  BuilderMessage.Hello hello :: BuilderMessage.ManifestBegin begin :: (BuilderMessage.ManifestChunk <$> chunks) ++
    [BuilderMessage.ManifestEnd end'; BuilderMessage.AccountDb account; BuilderMessage.Done done'].

(** The messages of a finished protocol, and the files *)
Lemma run_builder_Ok `{!WriteLaws W} `{!WriteLaws F} (Hkeep : ∀ w w' : W, flush_inner w = (w', Ok ()) → written w' = written w)
    (o : Outcome (W:=W) (F:=F)) start manifest policy o' done' :
  run_builder_protocol debug_kind debug_tools debug_features o start manifest policy = (o', Ok done') →
  ∃ hello begin chunks end' account verifier payload n,
    follows (BuildControl.session (control o))
      (opening hello start ++ stream begin chunks ++
       [from_guest (BuilderMessage.ManifestEnd end'); from_guest (BuilderMessage.AccountDb account); from_guest (BuilderMessage.Done done')])
      (BuildControl.session (control o')) ∧
    received BuilderMessage.decode_builder_message (control o) (guest_messages hello begin chunks end' account done') (control o') ∧
    state (BuildControl.session (control o')) = BuilderState.Completed ∧
    builder_announced manifest hello ∧
    fold_result ManifestStructuralVerifier.accept_chunk ManifestStructuralVerifier.default chunks = Ok verifier ∧
    ManifestStructuralVerifier.finish verifier = Ok () ∧
    ManifestStructuralVerifier.marker_sha256 verifier = Ok (BuilderDone.generation_marker_sha256 done') ∧
    validate account = Ok () ∧
    written (metadata_manifest o') = written (metadata_manifest o) ++ concat (ManifestChunk.bytes <$> chunks) ∧
    written (accounts o') = written (accounts o) ++ AccountDb.canonical_bytes account ∧
    BuilderMessage.encode_payload (BuilderMessage.Start start) = Ok payload ∧
    written (BuildControl.outgoing (control o')) =
      written (BuildControl.outgoing (control o)) ++ to_bytes (frame_header MessageKind.BuildStart 0 (len payload) n) ++ payload.
Proof.
  unfold run_builder_protocol. cbv zeta.
  destruct (BuilderControl.receive (control o) _ _) as [c1 r1] eqn:H1. intros (hello & Hh & Hr)%try_with_ok.
  destruct (receive_expect_Ok _ _ _ _ _ _ _ _ _ H1 Hh) as (Ho1 & m1 & n1 & Hm1 & Ha1 & Hr1). destruct m1; try done. injection Hm1 as ->. clear H1 Hh.
  apply try_with_ok in Hr as ([] & Hv%verify_builder_hello_Ok & Hr).
  destruct (BuilderControl.send c1 _ _ _) as [c2 r2] eqn:H2. apply try_with_ok in Hr as ([] & -> & Hr).
  pose proof (send_received BuilderMessage.decode_builder_message _ _ _ _ _ _ _ H2) as Hr2.
  apply (send_Ok _ _ _ _ _ _ _ Hkeep) in H2 as (_ & n2 & payload & Hp & Ha2 & Ho2).
  destruct (BuilderControl.receive c2 _ _) as [c3 r3] eqn:H3. apply try_with_ok in Hr as (begin & Hb & Hr).
  destruct (receive_expect_Ok _ _ _ _ _ _ _ _ _ H3 Hb) as (Ho3 & m3 & n3 & Hm3 & Ha3 & Hr3). destruct m3; try done. injection Hm3 as ->. clear H3 Hb.
  destruct (manifest_loop _ _ _ _ _ _) as [[c4 metadata] r4] eqn:H4. apply try_with_ok in Hr as (verifier & -> & Hr).
  apply manifest_loop_Ok in H4 as (chunks & end' & Hf4 & Hr4 & Hfold & Hmeta & Ho4). apply try_with_ok in Hr as ([] & Hfin & Hr).
  destruct (BuilderControl.receive c4 _ _) as [c5 r5] eqn:H5. apply try_with_ok in Hr as (account & Hac & Hr).
  destruct (receive_expect_Ok _ _ _ _ _ _ _ _ _ H5 Hac) as (Ho5 & m5 & n5 & Hm5 & Ha5 & Hr5). destruct m5; try done. injection Hm5 as ->. clear H5 Hac.
  apply try_with_ok in Hr as ([] & Hval%map_err_ok & Hr). destruct (write_evidence _ _ (accounts o) _) as [acc r6] eqn:H6.
  apply try_with_ok in Hr as ([] & -> & Hr). apply write_evidence_Ok in H6.
  destruct (BuilderControl.receive c5 _ _) as [c7 r7] eqn:H7. apply try_with_ok in Hr as (d & Hd & Hr).
  destruct (receive_expect_Ok _ _ _ _ _ _ _ _ _ H7 Hd) as (Ho7 & m7 & n7 & Hm7 & Ha7 & Hr7). destruct m7; try done. injection Hm7 as ->. clear H7 Hd.
  injection Hr as <- Hr. apply bind_unit_ok in Hr as (_ & Hr). apply bind_ok in Hr as (marker & Hmark & Hr). apply bind_unit_ok in Hr as (Heq & [= ->]).
  unfold compare_evidence in Heq. apply guard_ok in Heq as (->%dec_stable & _).
  exists hello, begin, chunks, end', account, verifier, payload, n2. cbn [control metadata_manifest accounts]. split_and!; try done.
  - unfold opening, stream, from_guest, from_host. cbn [app]. eapply follows_cons; [exact Ha1|]. eapply follows_cons; [exact Ha2|]. eapply follows_cons; [exact Ha3|].
    rewrite cons_middle, (assoc_L (++)). eapply follows_app; [exact Hf4|]. eapply follows_cons; [exact Ha5|]. eapply follows_cons; [exact Ha7|apply follows_nil].
  - unfold guest_messages. apply (received_app _ _ [_] _ _ _ Hr1), (received_app _ _ [] _ _ _ Hr2), (received_app _ _ [_] _ _ _ Hr3).
    rewrite cons_middle, (assoc_L (++)). apply (received_app _ _ _ _ _ _ Hr4). exact (received_app _ _ [_] _ [_] _ Hr5 Hr7).
  - by eapply result_completes.
  - rewrite Ho7, Ho5, Ho4, Ho3, Ho2, Ho1. done.
Qed.

(** A transcript determines its messages. *)
Lemma transcript_inj hello start begin chunks end' account done' hello2 start2 begin2 chunks2 end2 account2 done2 :
  opening hello start ++ stream begin chunks ++
    [from_guest (BuilderMessage.ManifestEnd end'); from_guest (BuilderMessage.AccountDb account); from_guest (BuilderMessage.Done done')] =
  opening hello2 start2 ++ stream begin2 chunks2 ++
    [from_guest (BuilderMessage.ManifestEnd end2); from_guest (BuilderMessage.AccountDb account2); from_guest (BuilderMessage.Done done2)] →
  hello = hello2 ∧ start = start2 ∧ begin = begin2 ∧ chunks = chunks2 ∧ end' = end2 ∧ account = account2 ∧ done' = done2.
Proof.
  unfold opening, stream, from_guest, from_host. cbn [app]. intros [= -> -> -> Heq].
  apply app_inj_2 in Heq as [Hc [= -> -> ->]]; [|done]. split_and!; try done. revert Hc. apply list_fmap_eq_inj. by intros ? ? [=].
Qed.

(** Chunks that a session accepted are chunks of as many entries as they say. *)
Lemma accepted_holds start begin chunks :
  limits_ok (BuilderStart.manifest_limits start) → stream_accepted start begin chunks →
  ∃ ess, Forall2 holds chunks ess ∧ sum_of ManifestChunk.entry_count chunks = len (concat ess).
Proof.
  intros Hl [_ Hc]. assert (Forall (λ c, ∃ es, holds c es ∧ ManifestChunk.entry_count c = len es) chunks) as Hall.
  { apply Forall_lookup. intros i c Hi. destruct (Hc _ _ Hi) as [_ _ _ (ps & Hb & Hn & Hfit & Hacc) _ _ _].
    assert (∃ es, Forall2 (λ payload e, decode_payload (T:=ManifestEntry.t) payload = Ok e) ps es) as [es Hes].
    { clear -Hacc. induction Hacc as [|p ps (e & He & _) _ [es IH]]; [by exists []|]. exists (e :: es). by constructor. }
    exists es. split; [|rewrite Hn; unfold len; by rewrite (Forall2_length _ _ _ Hes)]. exists ps. split_and!; [done| |done].
    eapply Forall_impl; [exact Hfit|]. intros p. unfold entry_fits, limits_ok in *. lia. }
  clear Hc. induction Hall as [|c chunks (es & He & Hn) _ (ess & IH & Hsum)]; [by exists []|]. exists (es :: ess). split; [by constructor|].
  cbn [concat]. rewrite len_app, <- Hsum, <- Hn. done.
Qed.

Lemma len_concat {A} (f : A → bytes) l : sum_of (λ a, len (f a)) l = len (concat (f <$> l)).
Proof. induction l as [|a l IH]; [done|]. cbn [fmap list_fmap concat]. rewrite len_app, <- IH. done. Qed.

(** *** Nothing panics *)
Context {laws : BuilderMessage.CodecsLaws}.
Context (Hout : ∀ (w : W) b, no_panic (write_all w b).2) (Hflush : ∀ w : W, no_panic (flush_inner w).2) (Hfile : ∀ (f : F) b, no_panic (write_all f b).2).

Lemma builder_receive_returns (c : BuilderControl.t (W:=W)) timeout stage :
  limits_valid (BuildControl.session c) → no_panic (BuilderControl.receive c timeout stage).2.
Proof.
  intros Hl. unfold BuilderControl.receive, BuildControl.receive. apply np_try_with; [by apply np_map_err|]. intros R _.
  destruct (read_frame R) as [R' f] eqn:Hf. apply read_frame_exact in Hf as (_ & Hf & _). apply np_try_with; [by apply np_map_err|]. intros frame _.
  apply np_try_with; [apply np_map_err; unfold BuilderMessage.decode_builder_message; np|]. intros m _. cbn [BuildControl.session].
  pose proof (np_builder_accept (BuildControl.session c) Direction.GuestToHost m (Frame.sequence (header frame)) Hl) as Ha.
  change (session_accept (BuildControl.session c)) with (BuilderSession.accept (BuildControl.session c)).
  destruct (BuilderSession.accept _ _ _ _) as [candidate accepted]. apply np_try_with; [by apply np_map_err|done].
Qed.

Lemma builder_received_limits (c : BuilderControl.t (W:=W)) timeout stage c' m :
  limits_valid (BuildControl.session c) → BuilderControl.receive c timeout stage = (c', Ok m) → limits_valid (BuildControl.session c').
Proof. intros Hl (_ & _ & n & Ha)%receive_Ok. by eapply accept_limits_valid. Qed.

Lemma builder_send_returns (c : BuilderControl.t (W:=W)) m timeout stage :
  limits_valid (BuildControl.session c) → no_panic (BuilderControl.send c m timeout stage).2.
Proof.
  intros Hl. unfold BuilderControl.send, BuildControl.send. apply np_try_with; [apply np_map_err; unfold BuilderMessage.encode_payload; np|]. intros p _.
  pose proof (np_builder_accept (BuildControl.session c) Direction.HostToGuest m (BuilderSession.next_sequence (BuildControl.session c) Direction.HostToGuest) Hl) as Ha.
  change (session_accept (BuildControl.session c)) with (BuilderSession.accept (BuildControl.session c)).
  change (session_next_sequence (BuildControl.session c)) with (BuilderSession.next_sequence (BuildControl.session c)).
  destruct (BuilderSession.accept _ _ _ _) as [candidate accepted]. apply np_try_with; [by apply np_map_err|]. intros _ _.
  apply np_try_with; [by apply np_map_err|]. intros frames _. pose proof (write_frame_returns Hout frames (BuilderMessage.kind m) p) as Hw.
  destruct (write_frame frames _ p) as [frames' wr]. apply np_try_with; [by apply np_map_err|]. intros _ _. unfold writer_flush.
  pose proof (Hflush (writer_inner frames')) as Hf. destruct (flush_inner _) as [w' r]. apply np_try_with; [by apply np_map_err, np_map_err|done].
Qed.

Lemma chunk_loop_returns fuel v b : length b < fuel → no_panic (ManifestStructuralVerifier.chunk_loop fuel v b).
Proof.
  revert v b. induction fuel as [|fuel IH]; intros v b Hb; [lia|]. cbn [ManifestStructuralVerifier.chunk_loop].
  case_decide as Hn; [done|]. case_decide as H4; [done|]. cbv zeta. case_decide; [done|].
  apply np_bind; [apply np_map_err; np|]. intros e _. apply np_seq; [apply np_map_err; np|]. intros _.
  apply np_bind; [unfold ManifestStructuralVerifier.accept_entry; np|]. intros v' _. apply IH. rewrite length_drop. unfold len in H4. lia.
Qed.

(** The fuel is enough. *)
Lemma manifest_loop_returns fuel timeout (c : BuilderControl.t (W:=W)) v (f : F) :
  limits_valid (BuildControl.session c) → unread (BuildControl.incoming c) < fuel → no_panic (manifest_loop debug_kind fuel timeout c v f).2.
Proof.
  revert c v f. induction fuel as [|fuel IH]; intros c v f Hl Hu; [lia|]. cbn [manifest_loop].
  pose proof (builder_receive_returns c timeout "metadata manifest" Hl) as Hr.
  destruct (BuilderControl.receive c timeout "metadata manifest") as [c1 message] eqn:Heq. apply np_try_with; [done|]. intros m ->.
  pose proof (builder_received_limits _ _ _ _ _ Hl Heq) as Hl1. apply receive_Ok in Heq as (_ & Hlt & _).
  destruct m as [| | |chunk| | | |]; try done. apply np_try_with; [apply chunk_loop_returns; lia|]. intros v1 _.
  unfold write_evidence. pose proof (Hfile f (ManifestChunk.bytes chunk)) as Hw. destruct (write_all f _) as [f1 wr].
  apply np_try_with; [by apply np_map_err|]. intros _ _. apply IH; [done|lia].
Qed.

(** The whole protocol returns. *)
Lemma receive_step_returns {A B S} (select : BuilderMessage.t → option A) (c : BuilderControl.t (W:=W)) timeout stage stage' expected
    (f : BuilderControl.t (W:=W) → S) (k : BuilderControl.t (W:=W) → A → S * hresult B) :
  limits_valid (BuildControl.session c) → (∀ c1 a, limits_valid (BuildControl.session c1) → no_panic (k c1 a).2) →
  no_panic (let '(c1, r) := BuilderControl.receive c timeout stage in
            try_with (f c1) (message ← r; expect debug_kind select stage' expected message) (k c1)).2.
Proof.
  intros Hl Hk. pose proof (builder_receive_returns c timeout stage Hl) as Hr. destruct (BuilderControl.receive c timeout stage) as [c1 r] eqn:H1.
  apply np_try_with.
  - apply np_bind; [done|]. intros m _. unfold expect. destruct (select m); [done|]. by destruct m.
  - intros a (m & -> & _)%bind_ok. apply Hk. by eapply builder_received_limits.
Qed.

Lemma manifest_loop_limits fuel timeout (c : BuilderControl.t (W:=W)) v (f : F) c' f' v' :
  limits_valid (BuildControl.session c) → manifest_loop debug_kind fuel timeout c v f = ((c', f'), Ok v') → limits_valid (BuildControl.session c').
Proof.
  revert c v f. induction fuel as [|fuel IH]; intros c v f Hl; [done|]. cbn [manifest_loop].
  destruct (BuilderControl.receive c timeout "metadata manifest") as [c1 message] eqn:Hr. intros (m & -> & Hm)%try_with_ok.
  pose proof (builder_received_limits _ _ _ _ _ Hl Hr) as Hl1. destruct m as [| | |chunk| | | |]; try done.
  - apply try_with_ok in Hm as (v1 & _ & Hm). destruct (write_evidence _ _ f _) as [f1 wr]. apply try_with_ok in Hm as ([] & _ & Hm). by eapply IH.
  - by injection Hm as <- _ _.
Qed.

Lemma run_builder_returns (o : Outcome (W:=W) (F:=F)) start manifest policy :
  limits_valid (BuildControl.session (control o)) →
  no_panic (run_builder_protocol debug_kind debug_tools debug_features o start manifest policy).2.
Proof.
  intros Hl. unfold run_builder_protocol. cbv zeta. apply receive_step_returns; [done|]. intros c1 hello Hl1.
  apply np_try_with; [unfold verify_builder_hello, hello_text, hello_number; np|]. intros _ _.
  pose proof (builder_send_returns c1 (BuilderMessage.Start start) (BuilderPolicy.startup_timeout policy) "BUILD_START" Hl1) as P2.
  destruct (BuilderControl.send c1 _ _ _) as [c2 r2] eqn:H2. apply np_try_with; [done|]. intros [] ->.
  assert (limits_valid (BuildControl.session c2)) as Hl2 by (apply send_accepts in H2 as [n Ha]; by eapply accept_limits_valid).
  apply receive_step_returns; [done|]. intros c3 begin Hl3.
  pose proof (manifest_loop_returns (S (unread (BuildControl.incoming c3))) (BuilderPolicy.build_timeout policy) c3
    ManifestStructuralVerifier.default (metadata_manifest o) Hl3 ltac:(lia)) as P4.
  destruct (manifest_loop _ _ _ _ _ _) as [[c4 metadata] r4] eqn:H4. apply np_try_with; [done|]. intros v ->.
  apply manifest_loop_limits in H4; [|done]. apply np_try_with; [unfold ManifestStructuralVerifier.finish; np|]. intros _ _.
  apply receive_step_returns; [done|]. intros c5 account Hl5. apply np_try_with; [apply np_map_err; np|]. intros _ _.
  unfold write_evidence. pose proof (Hfile (accounts o) (AccountDb.canonical_bytes account)) as Hw. destruct (write_all (accounts o) _) as [acc r6].
  apply np_try_with; [by apply np_map_err|]. intros _ _. apply receive_step_returns; [done|]. intros c7 done' _. cbn [snd].
  unfold compare_evidence, ManifestStructuralVerifier.marker_sha256. np.
Qed.
End builder.

(** *** The validator *)
Section validator.
Context {sha : Sha2} {codecs : ValidatorMessage.Codecs} {W : Type} `{!Write W}.
Import ValidatorSession.

Record validator_announced (manifest : ProfileManifest.t) (hello : ValidatorHello.t) : Prop := {
  validated_contract : HelloContract.guest_contract_id (ValidatorContract.hello (ProfileManifest.validator manifest)) = ValidatorHello.guest_contract_id hello;
  validated_init : HelloContract.init_build_id (ValidatorContract.hello (ProfileManifest.validator manifest)) = ValidatorHello.init_build_id hello;
  validated_kernel : HelloContract.kernel_build_id (ValidatorContract.hello (ProfileManifest.validator manifest)) = ValidatorHello.kernel_build_id hello;
  validated_machine : bs "x86_64" = ValidatorHello.guest_uts_machine hello;
  validated_policy : Contracts.cpu_state_hwcap_policy (ProfileManifest.contracts manifest) = ValidatorHello.cpu_state_hwcap_policy hello;
  validated_elf : ProfileManifest.host_elf_machine manifest = ValidatorHello.host_elf_machine hello;
  validated_page : ProfileManifest.guest_page_size manifest = ValidatorHello.guest_page_size hello;
  validated_cpus : 1%N = ValidatorHello.online_cpus hello;
  validated_memory : (MemoryManifest.validator_memory_bytes (ProfileManifest.memory manifest) ≤ ValidatorHello.accepted_physmem_bytes hello)%N;
  validated_features : ValidatorHello.features hello = HelloContract.required_features (ValidatorContract.hello (ProfileManifest.validator manifest));
}.

Lemma verify_validator_hello_Ok manifest hello :
  verify_validator_hello debug_features manifest hello = Ok () ↔ validator_announced manifest hello.
Proof.
  unfold verify_validator_hello. cbv zeta. rewrite !bind_unit_ok, !guard_ok, N.nlt_ge, !each_ok, !Forall_cons, !hello_text_ok, !hello_number_ok. cbn [fst snd]. split.
  - intros ((? & ? & ? & ? & ? & _) & (? & ? & ? & _) & ? & Ht%dec_stable & _). by split.
  - intros []. split_and!; try done; [by constructor..|tauto].
Qed.

Lemma expect_validator_Ok {A} (select : ValidatorMessage.t → option A) stage m a :
  expect_validator debug_kind select stage m = Ok a ↔ select m = Some a.
Proof. unfold expect_validator. destruct (select m); [naive_solver|]. by destruct m. Qed.

Lemma validation_result_completes s d n s' :
  session_accept s Direction.GuestToHost (ValidatorMessage.Done d) n = (s', Ok ()) → state s' = ValidatorState.Completed.
Proof.
  intros (_ & _ & _ & next & Ha & ->)%validator_accept_Ok. unfold accept_inner in Ha. destruct (state s); try done.
  unfold try_with in Ha. destruct (ok_or _ _); [|done..]. cbv zeta in Ha. case_decide; [done|]. by injection Ha as <-.
Qed.

Lemma run_validator_Ok (c : ValidatorControl.t (W:=W)) start manifest policy c' done' :
  run_validator_protocol debug_kind debug_features c start manifest policy = (c', Ok done') →
  ∃ hello, validator_announced manifest hello ∧
    follows (BuildControl.session c) (opening hello start ++ [(Direction.GuestToHost, ValidatorMessage.Done done')]) (BuildControl.session c') ∧
    received ValidatorMessage.decode_validator_message c [ValidatorMessage.Hello hello; ValidatorMessage.Done done'] c' ∧
    state (BuildControl.session c') = ValidatorState.Completed.
Proof.
  unfold run_validator_protocol. cbv zeta. destruct (ValidatorControl.receive c _ _) as [c1 r1] eqn:H1. intros (hello & (m1 & -> & Hm1%expect_validator_Ok)%bind_ok & Hr)%try_with_ok.
  pose proof (receive_received _ _ _ _ _ _ H1) as Hr1. apply receive_Ok in H1 as (_ & _ & n1 & Ha1). destruct m1; try done. injection Hm1 as ->. apply try_with_ok in Hr as ([] & Hv%verify_validator_hello_Ok & Hr).
  destruct (ValidatorControl.send c1 _ _ _) as [c2 r2] eqn:H2. apply try_with_ok in Hr as ([] & -> & Hr).
  pose proof (send_received ValidatorMessage.decode_validator_message _ _ _ _ _ _ _ H2) as Hr2. apply send_accepts in H2 as [n2 Ha2].
  destruct (ValidatorControl.receive c2 _ _) as [c3 r3] eqn:H3. injection Hr as <- Hr. apply bind_ok in Hr as (m3 & -> & Hm3%expect_validator_Ok).
  pose proof (receive_received _ _ _ _ _ _ H3) as Hr3. apply receive_Ok in H3 as (_ & _ & n3 & Ha3). destruct m3; try done. injection Hm3 as ->. exists hello.
  split; [done|]. split; [|split; [|by eapply validation_result_completes]].
  2: { apply (received_app _ _ [_] _ _ _ Hr1). exact (received_app _ _ [] _ [_] _ Hr2 Hr3). }
  unfold opening. cbn [app]. eapply follows_cons; [exact Ha1|]. eapply follows_cons; [exact Ha2|]. eapply follows_cons; [exact Ha3|apply follows_nil].
Qed.

Lemma validator_transcript hello start done' s :
  follows new (opening hello start ++ [(Direction.GuestToHost, ValidatorMessage.Done done')]) s → state s = ValidatorState.Completed →
  opened hello start ∧ done' = expected_done start.
Proof.
  intros (l & Hl & Ha) Hst. pose proof (validator_accept_all_history new l s [] eq_refl Ha) as Hh. rewrite app_nil_l, Hl in Hh.
  unfold history in Hh. rewrite Hst in Hh. destruct Hh as (hello' & start' & Ho & [= -> -> ->]). done.
Qed.
End validator.
End protocol.

(** Nothing that a guest sends, and nothing that its connection does, makes the host's side of the protocol panic or loop,
    whatever the state of the files, as long as writing does not. *)
Theorem build_protocol_returns {sha : Sha2} {hex : Hex} {codecs : BuilderMessage.Codecs} {laws : BuilderMessage.CodecsLaws} {W F : Type} `{!Write W} `{!Write F}
    debug_kind debug_tools debug_features (r : reader) (w : W) (metadata accounts : F) start manifest policy :
  (∀ (w : W) b, no_panic (write_all w b).2) → (∀ w : W, no_panic (flush_inner w).2) → (∀ (f : F) b, no_panic (write_all f b).2) →
  no_panic (run_builder_protocol debug_kind debug_tools debug_features (outcome (BuilderControl.new r w) metadata accounts) start manifest policy).2.
Proof. intros Hw Hf Hfile. by apply run_builder_returns. Qed.

(** C13: what a finished build protocol leaves on the host.  When [run_builder_protocol] returns a result, whatever the
    connection delivered and in whatever pieces: the frames read from the connection, numbered from 0, decode to one
    announcement, the begin, the chunks and the end of the manifest, the accounts and this result; the one frame sent is
    the request; the announcement received is that of the profile's guest, its tools and at least its memory; the bytes added to the metadata manifest are those of the chunks, and their digest and
    length are the result's; the bytes added to the accounts file are a canonical account database with the result's digest;
    the entries in the chunks have strictly increasing paths, are as many as the result says, and are those of the root, of
    the rootfs and what is below it, and of a generation marker with the result's digest, and nothing else; and the result repeats the tools and the user of the request. *)
Theorem build_protocol_binds {sha : Sha2} {sha_laws : Sha2Laws} {hex : Hex} {codecs : BuilderMessage.Codecs} {laws : CborLaws AccountDatabase.t}
    {W F : Type} `{!Write W} `{!WriteLaws W} `{!Write F} `{!WriteLaws F}
    debug_kind debug_tools debug_features (r : reader) (w : W) (metadata accounts : F) start manifest policy o done' :
  (∀ w w' : W, flush_inner w = (w', Ok ()) → written w' = written w) →
  run_builder_protocol debug_kind debug_tools debug_features (outcome (BuilderControl.new r w) metadata accounts) start manifest policy = (o, Ok done') →
  ∃ hello begin chunks end' account ess (database : AccountDatabase.t) payload n,
    arrives BuilderMessage.decode_builder_message r 0 (guest_messages hello begin chunks end' account done') (BuildControl.incoming (control o)) ∧
    BuilderMessage.encode_payload (BuilderMessage.Start start) = Ok payload ∧
    written (BuildControl.outgoing (control o)) = written w ++ to_bytes (frame_header MessageKind.BuildStart 0 (len payload) n) ++ payload ∧
    builder_announced manifest hello ∧ BuilderSession.agreed hello start ∧
    written (metadata_manifest o) = written metadata ++ concat (ManifestChunk.bytes <$> chunks) ∧
    BuilderDone.manifest_sha256 done' = sha256_hex (concat (ManifestChunk.bytes <$> chunks)) ∧
    BuilderDone.byte_count done' = len (concat (ManifestChunk.bytes <$> chunks)) ∧ BuilderDone.entry_count done' = len (concat ess) ∧
    (∃ b, encode_payload database = Ok b ∧ written (HostBuild.accounts o) = written accounts ++ b ∧ BuilderDone.account_db_sha256 done' = sha256_hex b) ∧
    Forall2 holds chunks ess ∧ root_and_marker (concat ess) (BuilderDone.generation_marker_sha256 done') ∧
    BuilderDone.observed_tools done' = BuilderStart.expected_tools start ∧ BuilderDone.original_user done' = BuilderStart.original_user start.
Proof.
  intros Hkeep Hrun. apply (run_builder_Ok _ _ _ Hkeep) in Hrun as
    (hello & begin & chunks & end' & account & verifier & payload & n & (l & Hl & Ha) & [Hrec _] & Hst & Hann & Hfold & Hfin & Hmark & Hval & Hmeta & Hacc & Hp & Hout).
  destruct (BuilderSession.builder_accept_all_history _ _ Ha) as [Hh Hv]. rewrite Hl in Hh, Hv. unfold BuilderSession.history in Hh. rewrite Hst in Hh.
  destruct Hh as (hello' & start' & begin' & chunks' & end2 & account' & done2 & Heq & Hagree & Hstream & (_ & He1 & He2 & He3) & (Hd1 & Hd2 & Hd3 & Hd4 & Hd5 & Hd6)).
  apply transcript_inj in Heq as (<- & <- & <- & <- & <- & <- & <-). apply BuilderSession.validated_start in Hv as Hlim.
  destruct (accepted_holds _ _ _ Hlim Hstream) as (ess & Hess & Hcount). apply account_db_validate_Ok in Hval as (database & (b & Hb & _ & Hdb)%from_database_Ok).
  exists hello, begin, chunks, end', account, ess, database, payload, n. split_and!; try done; try congruence.
  - by rewrite Hd3, He2, len_concat.
  - exists b. rewrite Hacc, Hdb. split_and!; [done|done|]. by rewrite Hd5, Hdb.
  - apply (verified_entries chunks ess); [done|]. by exists verifier.
Qed.

(** C16: what a finished validation proves.  When [run_validator_protocol] returns a result it is the one result that the
    request asks for, digests, totals and file system, with every mount flag set and the request's challenge; the frames
    read from the connection, numbered 0 and 1, decode to an announcement and this result, and that announcement is the
    profile's validator's, with exactly its features and at least its memory. *)
Theorem validation_protocol_binds {sha : Sha2} {codecs : ValidatorMessage.Codecs} {W : Type} `{!Write W}
    debug_kind debug_features (r : reader) (w : W) start manifest policy c done' :
  run_validator_protocol debug_kind debug_features (ValidatorControl.new r w) start manifest policy = (c, Ok done') →
  done' = ValidatorSession.expected_done start ∧
  ∃ hello, arrives ValidatorMessage.decode_validator_message r 0 [ValidatorMessage.Hello hello; ValidatorMessage.Done done'] (BuildControl.incoming c) ∧
    validator_announced manifest hello ∧ ValidatorSession.opened hello start.
Proof.
  intros (hello & Hann & Hf & [Hrec _] & Hst)%run_validator_Ok. destruct (validator_transcript _ _ _ _ Hf Hst) as (Ho & ->). split; [done|]. by exists hello.
Qed.
