(* ===== verification/HostBuildSample.v ===== *)
(** * A build and a validation that finish

    The frames of a builder guest that walked the file system of ManifestSample, and of a
    validator guest, as a connection delivers them in pieces; the theorems on the host's
    protocols applied there. *)

From stdpp Require Import gmap.
From S2P Require Import Prelude RustStr ByteOrder ProtocolError Frame Payload Message Session Sha256 BuilderManifest AccountDatabase BuilderMessage BuilderSession.
From S2P Require Import Validator ValidatorSession NoPanic HexText HostError Profile ProfileSample ManifestTree HostManifest ManifestStream ManifestSample HostBuild.

#[local] Arguments bs : simpl never.

Module SampleProtocol.
Import SampleCodecs.
#[local] Existing Instances SampleHash.sample_sha2 SampleHash.sample_sha2_laws SampleHex.sample_hex.

(** The profile of the builder's tools *)
Definition profile : ProfileManifest.t :=
  let m := SampleBundle.manifest in
  ProfileManifest.profile_manifest (ProfileManifest.schema_version m) (ProfileManifest.profile_id m) (ProfileManifest.profile_revision m)
    (ProfileManifest.maturity m) (ProfileManifest.host_architecture m) (ProfileManifest.host_elf_machine m) (ProfileManifest.oci_os m)
    (ProfileManifest.oci_architecture m) (ProfileManifest.accepted_oci_variants m) (ProfileManifest.uml_subarchitecture m)
    (ProfileManifest.guest_page_size m) (ProfileManifest.cpu m) (ProfileManifest.memory m) (ProfileManifest.contracts m) (ProfileManifest.hello m)
    (BuilderContract.builder_contract (SampleBundle.contract BUILDER_GUEST_FEATURES) (bs "m1")
       [BuilderToolContract.builder_tool_contract (bs "mkfs") SampleStart.digest (bs "1.47")] 1700000000)
    (ProfileManifest.validator m) (ProfileManifest.launch m) (ProfileManifest.artifacts m).

Definition hello : BuilderHello.t := {|
  BuilderHello.guest_contract_id := SampleBundle.hex_id;
  BuilderHello.init_build_id := SampleBundle.hex_id;
  BuilderHello.kernel_build_id := SampleBundle.hex_id;
  BuilderHello.host_elf_machine := 62;
  BuilderHello.guest_uts_machine := bs "x86_64";
  BuilderHello.guest_page_size := 4096;
  BuilderHello.cpu_state_hwcap_policy := Contracts.cpu_state_hwcap_policy SUPPORTED_CONTRACTS;
  BuilderHello.online_cpus := 1;
  BuilderHello.builder_tools := BuilderStart.expected_tools SampleStart.sample;
  BuilderHello.features := BUILDER_GUEST_FEATURES;
  BuilderHello.accepted_physmem_bytes := 512 * 1048576;
|}.

Definition account : AccountDb.t :=
  AccountDb.account_db ACCOUNT_DB_SCHEMA 3 (sha256_hex SampleAccountCodec.sample_bytes) SampleAccountCodec.sample_bytes.

Definition result_message : BuilderDone.t := {|
  BuilderDone.status := 0;
  BuilderDone.manifest_sha256 := BuilderWalk.summary_sha256 SampleTree.summary;
  BuilderDone.entry_count := BuilderWalk.summary_entry_count SampleTree.summary;
  BuilderDone.byte_count := BuilderWalk.summary_byte_count SampleTree.summary;
  BuilderDone.generation_marker_sha256 := sha256_hex (bs "abc");
  BuilderDone.original_user := [];
  BuilderDone.user_resolution := UserResolution.unresolved;
  BuilderDone.observed_tools := BuilderStart.expected_tools SampleStart.sample;
  BuilderDone.filesystem_status := FilesystemStatus.filesystem_status true true true;
  BuilderDone.account_db_sha256 := AccountDb.sha256 account;
|}.

(** The messages of the walk *)
Definition begin : ManifestBegin.t :=
  match SampleTree.messages with BuilderMessage.ManifestBegin begin :: _ => begin | _ => ManifestBegin.manifest_begin [] [] end.
Definition chunk : ManifestChunk.t :=
  match SampleTree.messages with [_; BuilderMessage.ManifestChunk chunk; _] => chunk | _ => ManifestChunk.manifest_chunk [] 0 0 0 [] end.
Definition end_message : ManifestEnd.t :=
  match SampleTree.messages with [_; _; BuilderMessage.ManifestEnd end'] => end' | _ => ManifestEnd.manifest_end [] 0 0 [] end.

#[local] Instance platform_dec : EqDecision Platform.t.
Proof. solve_decision. Defined.
#[local] Instance descriptor_dec : EqDecision OciDescriptor.t.
Proof. solve_decision. Defined.
#[local] Instance layer_dec : EqDecision BuilderLayerDescriptor.t.
Proof. solve_decision. Defined.
#[local] Instance limits_dec : EqDecision ManifestLimits.t.
Proof. solve_decision. Defined.
#[local] Instance start_dec : EqDecision BuilderStart.t.
Proof. solve_decision. Defined.
#[local] Instance hello_dec : EqDecision BuilderHello.t.
Proof. solve_decision. Defined.
#[local] Instance begin_dec : EqDecision ManifestBegin.t.
Proof. solve_decision. Defined.
#[local] Instance chunk_dec : EqDecision ManifestChunk.t.
Proof. solve_decision. Defined.
#[local] Instance end_dec : EqDecision ManifestEnd.t.
Proof. solve_decision. Defined.
#[local] Instance account_dec : EqDecision AccountDb.t.
Proof. solve_decision. Defined.
#[local] Instance user_dec : EqDecision UserResolution.t.
Proof. solve_decision. Defined.
#[local] Instance status_dec : EqDecision FilesystemStatus.t.
Proof. solve_decision. Defined.
#[local] Instance done_dec : EqDecision BuilderDone.t.
Proof. solve_decision. Defined.

#[local] Instance codecs : BuilderMessage.Codecs := {|
  BuilderMessage.hello_cbor := one_codec hello (bs "hello");
  BuilderMessage.start_cbor := one_codec SampleStart.sample (bs "start");
  BuilderMessage.begin_cbor := one_codec begin (bs "begin");
  BuilderMessage.chunk_cbor := one_codec chunk (bs "chunk");
  BuilderMessage.end_cbor := one_codec end_message (bs "end");
  BuilderMessage.account_cbor := one_codec account (bs "account");
  BuilderMessage.done_cbor := one_codec result_message (bs "done");
  BuilderMessage.build_error_cbor := no_codec _;
  BuilderMessage.database_cbor := SampleAccountCodec.sample_codec;
  BuilderMessage.entry_cbor := SampleTree.entry_codec;
|}.

(** What the guest sends, in three pieces with an interruption *)
Definition frame_of (n : N) (m : BuilderMessage.t) : bytes :=
  match BuilderMessage.encode_payload m with
  | Ok payload => match encode_frame (BuilderMessage.kind m) n payload with Ok b => b | _ => [] end
  | _ => []
  end.
Definition wire : bytes :=
  frame_of 0 (BuilderMessage.Hello hello) ++ frame_of 1 (BuilderMessage.ManifestBegin begin) ++ frame_of 2 (BuilderMessage.ManifestChunk chunk) ++
  frame_of 3 (BuilderMessage.ManifestEnd end_message) ++ frame_of 4 (BuilderMessage.AccountDb account) ++ frame_of 5 (BuilderMessage.Done result_message).
Definition connection : reader :=
  [Data (take 10 wire); Failure (io_error_of Interrupted None); Data (take 70 (drop 10 wire)); Data (drop 80 wire)].

Definition debug_kind (kind : MessageKind.t) : bytes := to_decimal (MessageKind.as_u16 kind).

Definition run : Outcome (W:=bytes) (F:=bytes) * hresult BuilderDone.t :=
  run_builder_protocol debug_kind (λ _, []) (λ _, []) (outcome (BuilderControl.new connection []) [] []) SampleStart.sample profile BuilderPolicy.default.

Lemma run_finishes : run = (run.1, Ok result_message).
Proof. vm_compute. reflexivity. Qed.

Lemma build_protocol_binds_witness :
  run.2 = Ok result_message ∧ metadata_manifest run.1 = ManifestChunk.bytes chunk ∧ HostBuild.accounts run.1 = SampleAccountCodec.sample_bytes ∧
  BuilderDone.manifest_sha256 result_message = sha256_hex (metadata_manifest run.1) ∧
  ∃ h begin chunks end' account, builder_announced profile h ∧
    arrives BuilderMessage.decode_builder_message connection 0 (guest_messages h begin chunks end' account result_message)
      (BuildControl.incoming (control run.1)).
Proof.
  destruct (build_protocol_binds (codecs := codecs) (laws := SampleAccountCodec.sample_codec_laws) debug_kind (λ _, []) (λ _, []) connection ([] : bytes) ([] : bytes) []
    SampleStart.sample profile BuilderPolicy.default run.1 result_message) as (h & begin & chunks & end' & account & ess & db & p & n & Hin & _ & _ & Hann & _ & Hmeta & Hsha & _).
  - intros w w' [= <-]. done.
  - exact run_finishes.
  - split; [rewrite run_finishes; reflexivity|]. split; [vm_compute; reflexivity|]. split; [vm_compute; reflexivity|].
    split; [rewrite Hsha; f_equal; rewrite app_nil_l in Hmeta; by symmetry|]. exists h, begin, chunks, end', account. split; [exact Hann|exact Hin].
Defined.

(** ** A validation *)
Definition validator_hello : ValidatorHello.t := {|
  ValidatorHello.guest_contract_id := SampleBundle.hex_id;
  ValidatorHello.init_build_id := SampleBundle.hex_id;
  ValidatorHello.kernel_build_id := SampleBundle.hex_id;
  ValidatorHello.host_elf_machine := 62;
  ValidatorHello.guest_uts_machine := bs "x86_64";
  ValidatorHello.guest_page_size := 4096;
  ValidatorHello.cpu_state_hwcap_policy := Contracts.cpu_state_hwcap_policy SUPPORTED_CONTRACTS;
  ValidatorHello.online_cpus := 1;
  ValidatorHello.accepted_physmem_bytes := 512 * 1048576;
  ValidatorHello.features := VALIDATOR_GUEST_FEATURES;
|}.
Definition validated : ValidatorDone.t := ValidatorSession.expected_done SampleValidation.start.

#[local] Instance validator_hello_dec : EqDecision ValidatorHello.t.
Proof. solve_decision. Defined.
#[local] Instance evidence_dec : EqDecision ValidatorEvidence.t.
Proof. solve_decision. Defined.
#[local] Instance validated_dec : EqDecision ValidatorDone.t.
Proof. solve_decision. Defined.
#[local] Instance marker_dec : EqDecision GenerationMarker.t.
Proof. solve_decision. Defined.
#[local] Instance validator_start_dec : EqDecision ValidatorStart.t.
Proof. solve_decision. Defined.

#[local] Instance validator_codecs : ValidatorMessage.Codecs := {|
  ValidatorMessage.validate_hello_cbor := one_codec validator_hello (bs "hello");
  ValidatorMessage.validate_start_cbor := one_codec SampleValidation.start (bs "start");
  ValidatorMessage.validate_done_cbor := one_codec validated (bs "done");
  ValidatorMessage.validate_error_cbor := no_codec _;
  ValidatorMessage.validate_database_cbor := SampleAccountCodec.sample_codec;
|}.

Definition validator_frame (n : N) (m : ValidatorMessage.t) : bytes :=
  match ValidatorMessage.encode_payload m with
  | Ok payload => match encode_frame (ValidatorMessage.kind m) n payload with Ok b => b | _ => [] end
  | _ => []
  end.
Definition validator_connection : reader :=
  [Data (validator_frame 0 (ValidatorMessage.Hello validator_hello)); Data (validator_frame 1 (ValidatorMessage.Done validated))].

Definition validation : ValidatorControl.t (W:=bytes) * hresult ValidatorDone.t :=
  run_validator_protocol debug_kind (λ _, []) (ValidatorControl.new validator_connection []) SampleValidation.start profile BuilderPolicy.default.

Lemma validation_protocol_binds_witness :
  validation.2 = Ok validated ∧ validated = ValidatorSession.expected_done SampleValidation.start ∧
  ∃ h, validator_announced profile h ∧
    arrives ValidatorMessage.decode_validator_message validator_connection 0 [ValidatorMessage.Hello h; ValidatorMessage.Done validated]
      (BuildControl.incoming validation.1).
Proof.
  assert (validation = (validation.1, Ok validated)) as Hv by (vm_compute; reflexivity). split; [rewrite Hv; reflexivity|].
  destruct (validation_protocol_binds debug_kind (λ _, []) validator_connection ([] : bytes) SampleValidation.start profile BuilderPolicy.default
    validation.1 validated Hv) as [Hd (h & Hin & Hann & _)]. split; [exact Hd|]. exists h. split; [exact Hann|exact Hin].
Defined.
End SampleProtocol.
