(* ===== verification/ControlChannel.v ===== *)
(** * The host's end of the control channel: crates/pocket-runtime/src/protocol.rs

    [ControlChannel] reads one frame at a time under a deadline and keeps what it has
    of an incomplete frame across timeouts; it sends and receives through a
    [WorkloadSession].  [verify_hello] compares the guest's announcement with the
    profile.

    The clock and the socket are scripted: each time the loop needs bytes, either the
    deadline has passed, or setting the read timeout fails, or a read happens. *)

From S2P Require Import Profile.
From S2P Require Import Prelude RustStr Memory Cpu ProtocolError Frame Payload Message Session.
From S2P Require Import WorkloadSession NoPanic InitControl StoreCodec HostError.

Definition classify_protocol (error : ProtocolError) (stage : string) (timeout : N) : RuntimeError.t :=
  match error with
  | Io source =>
      if decide (io_kind source = TimedOut ∨ io_kind source = WouldBlock)
      then RuntimeError.Timeout stage timeout else RuntimeError.Protocol error
  | _ => RuntimeError.Protocol error
  end.

(** [unexpected("HELLO" | "READY" | "EXIT", ..)] *)
Definition unexpected (expected : string) (actual : MessageKind.t) : RuntimeError.t :=
  RuntimeError.Protocol (MessageKindMismatch
    (if decide (expected = "HELLO") then MessageKind.as_u16 MessageKind.Hello else
     if decide (expected = "READY") then MessageKind.as_u16 MessageKind.Ready else
     if decide (expected = "EXIT") then MessageKind.as_u16 MessageKind.Exit else 0)
    (MessageKind.as_u16 actual)).

Inductive wait : Set :=
| Expired
| NoTimeout (error : io_error)
| Ready (event : read_event).

Abbreviation script := (list wait).

(** A read that happens. *)
Definition read_ready (s : script) (n : N) : script * result io_error bytes :=
  match s with
  | Ready event :: s =>
      let '(r, outcome) := read [event] (N.to_nat n) in ((Ready <$> r) ++ s, outcome)
  | _ => (s, Ok [])
  end.

Definition READ_CHUNK : N := 8 * 1024.

(** How many bytes are wanted: the header, or the frame its header announces. *)
Definition expected_total (pending : bytes) (expected_sequence : N) : result ProtocolError N :=
  if decide (len pending < HEADER_LEN)%N then Ok HEADER_LEN else
  header ← slice_range pending 0 HEADER_LEN ≫= from_bytes;
  if decide (sequence header ≠ expected_sequence)
  then Err (SequenceMismatch expected_sequence (sequence header)) else
  ok_or (checked_add HEADER_LEN (payload_len header))
        (PayloadTooLarge (payload_len header) MAX_CONTROL_PAYLOAD).

(** The stream ended inside a frame. *)
Definition end_of_stream (pending : bytes) : result ProtocolError RawFrame :=
  if decide (len pending < HEADER_LEN)%N then Err (UnexpectedEof Header HEADER_LEN (len pending)) else
  header ← slice_range pending 0 HEADER_LEN ≫= from_bytes;
  Err (UnexpectedEof Payload (payload_len header) (len pending - HEADER_LEN)).

Section read_frame.
Context (stage : string) (timeout expected_sequence : N).

(** The [loop] of [read_frame].  A round that goes on uses up part of the script, so
    as many rounds as it has entries and bytes are enough; running out would be
    [Panic], which [read_rounds_safe] excludes. *)
Fixpoint read_rounds (fuel : nat) (pending : bytes) (s : script)
    : (bytes * script) * result RuntimeError.t RawFrame :=
  match fuel with
  | O => ((pending, s), Panic)
  | S fuel =>
      try_with (pending, s) (map_err RuntimeError.Protocol (expected_total pending expected_sequence)) (λ total,
      if decide (len pending = total)
      then (([], s), map_err RuntimeError.Protocol (decode_frame_exact pending expected_sequence)) else
      if decide (total < len pending)%N
      then ((pending, s), Err (RuntimeError.Protocol (TrailingData (len pending - total)))) else
      match s with
      | Expired :: s => ((pending, s), Err (RuntimeError.Timeout stage timeout))
      | NoTimeout e :: s => ((pending, s), Err (classify_protocol (Io e) stage timeout))
      | _ =>
          let requested := N.min (total - len pending) READ_CHUNK in
          let '(s, outcome) := read_ready s requested in
          match outcome with
          | Ok [] => ((pending, s), map_err RuntimeError.Protocol (end_of_stream pending))
          | Ok count => read_rounds fuel (pending ++ count) s
          | Err e =>
              if decide (io_kind e = Interrupted) then read_rounds fuel pending s
              else ((pending, s), Err (classify_protocol (Io e) stage timeout))
          | Panic => ((pending, s), Panic)
          end
      end)
  end.
End read_frame.

(** The bytes a script delivers. *)
Definition delivered (s : script) : bytes :=
  s ≫= λ w, match w with Ready (Data arrived) => arrived | _ => [] end.

Definition read_frame (stage : string) (timeout expected_sequence : N) (pending : bytes) (s : script)
    : (bytes * script) * result RuntimeError.t RawFrame :=
  read_rounds stage timeout expected_sequence (S (length s + length (delivered s))) pending s.

(** ** The channel *)
Module ControlChannel.
Section channel.
Context {W : Type} `{!Write W} {codecs : WorkloadMessage.Codecs}.

Record t : Type := control_channel {
  incoming : script;
  outgoing : W;
  session : WorkloadSession.t;
  receive_pending : bytes;
}.

Definition new (incoming : script) (outgoing : W) : t :=
  control_channel incoming outgoing WorkloadSession.new [].

Definition receive (self : t) (stage : string) (timeout : N) : t * result RuntimeError.t WorkloadMessage.t :=
  let expected := WorkloadSession.next_sequence (session self) Direction.GuestToHost in
  let '((pending, s), frame) := read_frame stage timeout expected (receive_pending self) (incoming self) in
  let self := control_channel s (outgoing self) (session self) pending in
  try_with self frame (λ frame,
  try_with self (map_err RuntimeError.Protocol (WorkloadMessage.decode_workload_message frame)) (λ message,
  let '(candidate, accepted) :=
    WorkloadSession.accept (session self) Direction.GuestToHost (kind (header frame)) (sequence (header frame)) in
  try_with self (map_err RuntimeError.Protocol accepted) (λ _,
  (control_channel s (outgoing self) candidate pending, Ok message)))).

Definition receive_hello (self : t) (timeout : N) : t * result RuntimeError.t Hello.t :=
  let '(self, message) := receive self "guest HELLO" timeout in
  try_with self message (λ message,
  match message with
  | WorkloadMessage.Hello hello => (self, Ok hello)
  | WorkloadMessage.Error message => (self, Err (RuntimeError.Guest "HELLO" message))
  | message => (self, Err (unexpected "HELLO" (WorkloadMessage.kind message)))
  end).

Definition receive_ready (self : t) (timeout : N) : t * result RuntimeError.t Message.Ready.t :=
  let '(self, message) := receive self "guest READY" timeout in
  try_with self message (λ message,
  match message with
  | WorkloadMessage.Ready ready => (self, Ok ready)
  | WorkloadMessage.Error message => (self, Err (RuntimeError.Guest "READY" message))
  | message => (self, Err (unexpected "READY" (WorkloadMessage.kind message)))
  end).

Definition receive_terminal (self : t) (timeout : N) : t * result RuntimeError.t Exit.t :=
  let '(self, message) := receive self "guest EXIT" timeout in
  try_with self message (λ message,
  match message with
  | WorkloadMessage.Exit exit => (self, Ok exit)
  | WorkloadMessage.Error message => (self, Err (RuntimeError.Guest "RUNNING" message))
  | message => (self, Err (unexpected "EXIT" (WorkloadMessage.kind message)))
  end).

Definition send (self : t) (message : WorkloadMessage.t) (timeout : N) (stage : string)
    : t * result RuntimeError.t () :=
  let kind := WorkloadMessage.kind message in
  try_with self (map_err RuntimeError.Protocol (WorkloadMessage.encode_payload message)) (λ payload,
  let sequence := WorkloadSession.next_sequence (session self) Direction.HostToGuest in
  let '(candidate, accepted) := WorkloadSession.accept (session self) Direction.HostToGuest kind sequence in
  try_with self (map_err RuntimeError.Protocol accepted) (λ _,
  try_with self (map_err RuntimeError.Protocol (writer_with_limits (outgoing self) sequence MAX_CONTROL_PAYLOAD)) (λ frames,
  let '(frames, written) := write_frame frames kind payload in
  let self := control_channel (incoming self) (writer_inner frames) (session self) (receive_pending self) in
  try_with self (map_err (λ e, classify_protocol e stage timeout) written) (λ _,
  let '(frames, flushed) := writer_flush frames in
  let self := control_channel (incoming self) (writer_inner frames) (session self) (receive_pending self) in
  try_with self (map_err (λ e, classify_protocol e stage timeout) flushed) (λ _,
  (control_channel (incoming self) (outgoing self) candidate (receive_pending self), Ok ())))))).

Definition send_start (self : t) (start : Start.t) (timeout : N) : t * result RuntimeError.t () :=
  send self (WorkloadMessage.Start start) timeout "guest START".
Definition send_resize (self : t) (resize : Resize.t) (timeout : N) : t * result RuntimeError.t () :=
  send self (WorkloadMessage.Resize resize) timeout "guest RESIZE".
Definition send_signal (self : t) (signal timeout : N) : t * result RuntimeError.t () :=
  send self (WorkloadMessage.Signal (Signal.signal_message signal)) timeout "guest SIGNAL".
Definition send_shutdown (self : t) (grace_ms timeout : N) : t * result RuntimeError.t () :=
  send self (WorkloadMessage.Shutdown (Shutdown.shutdown grace_ms)) timeout "guest SHUTDOWN".
End channel.
Arguments t : clear implicits.
End ControlChannel.

(** ** The guest's announcement *)

Definition compare (field : string) (expected actual : bytes) : result RuntimeError.t () :=
  if decide (expected ≠ actual) then Err (RuntimeError.HelloMismatch field expected actual) else Ok ().

(** [debug] is the [{:?}] text of the feature list. *)
Definition verify_hello (debug : list bytes → bytes) (manifest : ProfileManifest.t) (cpus : Cpu.ValidatedCpuRequest)
    (memory : Memory.ValidatedMemory) (hello : Hello.t) : result RuntimeError.t () :=
  compare "guest_contract_id" (HelloContract.guest_contract_id (ProfileManifest.hello manifest)) (Hello.guest_contract_id hello);;
  compare "init_build_id" (HelloContract.init_build_id (ProfileManifest.hello manifest)) (Hello.init_build_id hello);;
  compare "kernel_build_id" (HelloContract.kernel_build_id (ProfileManifest.hello manifest)) (Hello.kernel_build_id hello);;
  compare "host_elf_machine" (to_decimal (ProfileManifest.host_elf_machine manifest))
    (to_decimal (Hello.host_elf_machine hello));;
  compare "guest_uts_machine" (bs "x86_64") (Hello.guest_uts_machine hello);;
  compare "guest_page_size" (to_decimal (ProfileManifest.guest_page_size manifest))
    (to_decimal (Hello.guest_page_size hello));;
  compare "cpu_state_hwcap_policy" (Contracts.cpu_state_hwcap_policy (ProfileManifest.contracts manifest)) (Hello.cpu_state_hwcap_policy hello);;
  compare "guest_capability_policy" (Contracts.guest_capability_policy (ProfileManifest.contracts manifest))
    (Hello.guest_capability_policy hello);;
  map_err RuntimeError.Cpu (Cpu.verify_online cpus (Hello.online_cpus hello));;
  let bytes := Memory.parsed_bytes (Memory.validated memory) in
  if decide (Hello.accepted_physmem_bytes hello < bytes)%N
  then Err (RuntimeError.HelloMismatch "accepted_physmem_bytes" (bs "at least " ++ to_decimal bytes)
              (to_decimal (Hello.accepted_physmem_bytes hello))) else
  each (λ required,
    if decide (¬ Exists (λ feature, feature = required) (Hello.features hello))
    then Err (RuntimeError.HelloMismatch "features" required (debug (Hello.features hello))) else Ok ())
    (HelloContract.required_features (ProfileManifest.hello manifest)).

(** ** Reading resumes after a timeout *)
Definition waiting (s : script) : nat := length s + length (delivered s).

Definition timed_out (e : io_error) : Prop := io_kind e = TimedOut ∨ io_kind e = WouldBlock.

(** A transport that may be slow and interrupted but neither fails nor ends before
    its script does. *)
Definition healthy (s : script) : Prop :=
  Forall (λ w, match w with
               | Expired => True
               | NoTimeout e => timed_out e
               | Ready (Data arrived) => arrived ≠ []
               | Ready (Failure e) => io_kind e = Interrupted ∨ timed_out e
               end) s.

Lemma delivered_data a s : delivered (Ready (Data a) :: s) = a ++ delivered s.
Proof. done. Qed.

(** What the next step of the transport is, when bytes are wanted. *)
Lemma read_ready_data a s n :
  0 < n → a ≠ [] →
  ∃ got s', read_ready (Ready (Data a) :: s) (N.of_nat n) = (s', Ok got) ∧ got ≠ [] ∧ length got ≤ n ∧
    a ++ delivered s = got ++ delivered s' ∧ waiting s' < waiting (Ready (Data a) :: s) ∧
    length s' ≤ S (length s) ∧ (healthy s → healthy s').
Proof.
  intros Hn Ha. unfold read_ready, read, waiting. rewrite Nat2N.id, delivered_data. case_decide as Hl.
  - exists a, s. simpl. rewrite length_app. split_and!; (done || lia).
  - assert (drop n a ≠ []) as Hd.
    { intros Hd%(f_equal length). rewrite length_drop in Hd. simpl in Hd. lia. }
    exists (take n a), (Ready (Data (drop n a)) :: s). split_and!.
    + done.
    + intros Ht%(f_equal length). rewrite length_take in Ht. destruct a; [done|]. simpl in *. lia.
    + rewrite length_take. lia.
    + by rewrite delivered_data, app_assoc, take_drop.
    + rewrite delivered_data, !length_cons, !length_app, length_drop. lia.
    + done.
    + intros Hh. by constructor.
Qed.

(** The bytes wanted at any point inside the frame that is due. *)
Lemma expected_total_inside f b q q' pending rest more :
  frame_at q f b q' → pending ++ more = b ++ rest → (len pending ≤ len b)%N →
  ∃ total, expected_total pending q = Ok total ∧ (total ≤ len b)%N ∧
    (len pending < len b → len pending < total)%N ∧ (len pending = len b → total = len b).
Proof.
  intros Hf Heq Hl. pose proof (frame_at_bytes _ _ _ _ Hf) as (Hwf & Hb & Hp & Hs).
  assert (len b = HEADER_LEN + payload_len (header f))%N as Hlb by (rewrite Hb, len_app, len_to_bytes; lia).
  unfold expected_total. case_decide as Hsh; [exists HEADER_LEN; split_and!; (done || lia)|].
  assert (N.to_nat HEADER_LEN ≤ length pending) as Hl' by (unfold len in Hsh; lia).
  rewrite header_slice by lia. simpl.
  assert (from_bytes (take (N.to_nat HEADER_LEN) pending) = Ok (header f)) as ->.
  { rewrite <- (take_app_le pending more), Heq, Hb, <- app_assoc by done. by apply decode_header_of_frame. }
  simpl. rewrite decide_False by tauto. rewrite header_total by done. simpl.
  exists (HEADER_LEN + payload_len (header f))%N. split_and!; (done || lia).
Qed.

Section resume.
Context (stage : string) (timeout : N).

(** Where a call of [read_frame] may stop: with the frame, or at a timeout with
    nothing lost. *)
Definition resumes (f : RawFrame) (b rest : bytes) (s : script)
    (out : (bytes * script) * result RuntimeError.t RawFrame) : Prop :=
  let '((pending', s'), res) := out in
  healthy s' ∧
  ((res = Ok f ∧ pending' = [] ∧ delivered s' = rest) ∨
   (res = Err (RuntimeError.Timeout stage timeout) ∧ pending' ++ delivered s' = b ++ rest ∧ (len pending' < len b)%N ∧
    length s' < length s)).

Lemma resumes_later f b rest s s' out :
  length s' ≤ length s → resumes f b rest s' out → resumes f b rest s out.
Proof. intros Hs. destruct out as [[p' t'] res]. unfold resumes. naive_solver lia. Qed.

Lemma classify_timeout e : timed_out e → classify_protocol (Io e) stage timeout = RuntimeError.Timeout stage timeout.
Proof. intros He. simpl. by rewrite decide_True. Qed.

Lemma read_rounds_resumes fuel f b q q' pending s rest :
  waiting s < fuel → healthy s → frame_at q f b q' → pending ++ delivered s = b ++ rest →
  (len pending ≤ len b)%N →
  resumes f b rest s (read_rounds stage timeout q fuel pending s).
Proof.
  revert pending s; induction fuel as [|fuel IH]; intros pending s Hf Hh Hat Heq Hl; [lia|].
  destruct (expected_total_inside f b q q' pending rest (delivered s) Hat Heq Hl) as (total & Ht & Htl & Hin & Hout).
  cbn [read_rounds]. rewrite Ht. cbn [map_err try_with]. destruct (decide (len pending = len b)) as [Hfull|Hpart].
  { rewrite (Hout Hfull), decide_True by done. apply app_inj_1 in Heq as [-> Hr]; [|unfold len in Hfull; lia].
    destruct Hat as [-> _]. simpl. split; [done|]. by left. }
  assert (len pending < total)%N as Hlt by (apply Hin; lia).
  rewrite !decide_False by lia. destruct s as [|[|e|[a|e]] s].
  - exfalso. apply (f_equal len) in Heq. cbn in Heq. rewrite !len_app, len_nil in Heq. lia.
  - apply Forall_cons in Hh as [_ Hh]. split; [done|]. right. split_and!; [done|done|lia|simpl; lia].
  - apply Forall_cons in Hh as [He Hh]. rewrite classify_timeout by done.
    split; [done|]. right. split_and!; [done|done|lia|simpl; lia].
  - apply Forall_cons in Hh as [Ha Hh].
    destruct (read_ready_data a s (N.to_nat (N.min (total - len pending) READ_CHUNK)))
      as (got & s' & Hr & Hne & Hgl & Hd & Hw & Hls & Hhs); [unfold READ_CHUNK; lia|done|].
    rewrite N2Nat.id in Hr. rewrite Hr. destruct got as [|c got]; [done|].
    apply (resumes_later _ _ _ _ s'); [done|]. apply IH; [lia|by apply Hhs|done| |].
    + by rewrite <- app_assoc, <- Hd.
    + rewrite len_app. unfold len in *. lia.
  - apply Forall_cons in Hh as [He Hh]. change (read_ready _ _) with (s, @Err io_error bytes e). cbn iota.
    destruct (decide (io_kind e = Interrupted)) as [Hi|Hi].
    + apply (resumes_later _ _ _ _ s); [simpl; lia|]. apply IH; try done.
      change (waiting (Ready (Failure e) :: s)) with (S (waiting s)) in Hf. lia.
    + rewrite classify_timeout by tauto. split; [done|]. right. split_and!; [done|done|lia|simpl; lia].
Qed.
End resume.

(** ** Any transport *)

(** The most one frame can be. *)
Definition MAX_FRAME : N := HEADER_LEN + MAX_CONTROL_PAYLOAD.

Lemma np_from_bytes b : no_panic (from_bytes b).
Proof. apply from_bytes_no_panic. Qed.

Lemma expected_total_safe pending q :
  no_panic (expected_total pending q) ∧
  ∀ total, expected_total pending q = Ok total → (total ≤ MAX_FRAME)%N.
Proof.
  unfold expected_total. case_decide as Hs; [split; [done|]; intros ? [= <-]; done|].
  rewrite header_slice by lia. simpl. pose proof (np_from_bytes (take (N.to_nat HEADER_LEN) pending)) as Hnp.
  destruct (from_bytes _) as [h| |] eqn:Hh; simpl; [|done..].
  apply from_bytes_Ok in Hh as [_ Hwf]. case_decide; [done|]. rewrite header_total by done. split; [done|].
  intros ? [= <-]. destruct Hwf as [_ ? _]. unfold MAX_FRAME. lia.
Qed.

Lemma np_end_of_stream pending : no_panic (end_of_stream pending).
Proof.
  unfold end_of_stream. case_decide; [done|]. rewrite header_slice by lia. simpl.
  pose proof (np_from_bytes (take (N.to_nat HEADER_LEN) pending)). by destruct (from_bytes _).
Qed.

Lemma np_decode_frame b q : no_panic (decode_frame_exact b q).
Proof.
  unfold decode_frame_exact. pose proof (np_from_bytes (take (N.to_nat HEADER_LEN) b)).
  unfold ensure_payload_cap, ensure_sequence. np; done.
Qed.

(** A read gives at most what was asked for, and uses up part of the script unless
    the stream has ended. *)
Lemma read_ready_safe s n :
  let '(s', r) := read_ready s n in
  match r with
  | Ok got => (len got ≤ n)%N ∧ (got ≠ [] → waiting s' < waiting s)
  | Err _ => waiting s' < waiting s
  | Panic => False
  end.
Proof.
  destruct s as [|[|e|[a|e]] s]; simpl; try (split; [unfold len; simpl; lia|done]);
    [|change (waiting (Ready (Failure e) :: s)) with (S (waiting s)); lia].
  case_decide as Ha; simpl.
  - split; [unfold len; lia|]. intros _. unfold waiting. rewrite delivered_data, length_app, length_cons. lia.
  - split; [unfold len; rewrite length_take; lia|]. intros Hne. unfold waiting.
    rewrite !delivered_data, !length_app, !length_cons, length_drop. destruct (N.to_nat n); [done|]. lia.
Qed.

Lemma read_rounds_safe stage timeout q fuel pending s :
  waiting s < fuel → (len pending ≤ MAX_FRAME)%N →
  let '((pending', s'), r) := read_rounds stage timeout q fuel pending s in
  no_panic r ∧ (len pending' ≤ MAX_FRAME)%N.
Proof.
  revert pending s; induction fuel as [|fuel IH]; intros pending s Hf Hl; [lia|]. cbn [read_rounds].
  destruct (expected_total_safe pending q) as [Hnp Htot].
  destruct (expected_total pending q) as [total| |]; simpl; [|done..]. specialize (Htot total eq_refl).
  destruct (decide (len pending = total)); [split; [apply np_map_err, np_decode_frame|done]|].
  destruct (decide (total < len pending)%N); [done|].
  pose proof (read_ready_safe s (N.min (total - len pending) READ_CHUNK)) as Hr.
  destruct s as [|[| |event] s]; [by split; [apply np_map_err, np_end_of_stream|]|done|done|].
  destruct (read_ready _ _) as [s' [[|c got]|e|]].
  - split; [apply np_map_err, np_end_of_stream|done].
  - destruct Hr as [Hg Hw]. apply IH; [specialize (Hw ltac:(done)); lia|]. rewrite len_app. lia.
  - destruct (decide (io_kind e = Interrupted)); [apply IH; [lia|done]|done].
  - done.
Qed.

(** ** The channel as its callers use it *)
Section channel.
Context {W : Type} `{!Write W} {codecs : WorkloadMessage.Codecs}.
Import ControlChannel.

(** Waits again after every timeout, as the escalation of a graceful stop does. *)
Fixpoint receive_patiently (attempts : nat) (self : t W) (stage : string) (timeout : N)
    : t W * result RuntimeError.t WorkloadMessage.t :=
  match attempts with
  | O => receive self stage timeout
  | S attempts =>
      let '(self', message) := receive self stage timeout in
      match message with
      | Err (RuntimeError.Timeout _ _) => receive_patiently attempts self' stage timeout
      | _ => (self', message)
      end
  end.

(** What [receive] does with a frame that is due and acceptable. *)
Lemma receive_due (self : t W) stage timeout f b q' rest m s1 :
  let q := WorkloadSession.next_sequence (session self) Direction.GuestToHost in
  healthy (incoming self) → frame_at q f b q' →
  receive_pending self ++ delivered (incoming self) = b ++ rest → (len (receive_pending self) < len b)%N →
  WorkloadMessage.decode_workload_message f = Ok m →
  WorkloadSession.accept (session self) Direction.GuestToHost (kind (header f)) q = (s1, Ok ()) →
  ∃ pending s, healthy s ∧
    ((receive self stage timeout = (control_channel s (outgoing self) s1 [], Ok m) ∧ delivered s = rest) ∨
     (receive self stage timeout =
        (control_channel s (outgoing self) (session self) pending, Err (RuntimeError.Timeout stage timeout)) ∧
      pending ++ delivered s = b ++ rest ∧ (len pending < len b)%N ∧ length s < length (incoming self))).
Proof.
  intros q Hh Hat Heq Hl Hm Ha. unfold receive. fold q.
  assert (sequence (header f) = q) as Hs by by apply frame_at_bytes in Hat as (_ & _ & _ & ?).
  pose proof (read_rounds_resumes stage timeout (S (waiting (incoming self))) f b q q' (receive_pending self)
    (incoming self) rest) as Hr. unfold resumes, waiting in Hr. unfold read_frame.
  destruct (read_rounds _ _ _ _ _ _) as [[pending s] res].
  destruct Hr as [Hhs [(-> & -> & Hd)|(-> & Hp & Hpl & Hlen)]]; [lia|done|done|done|lia|..].
  - exists [], s. split; [done|]. left. cbn [try_with]. rewrite Hm. cbn [map_err try_with session]. by rewrite Hs, Ha.
  - exists pending, s. split; [done|]. by right.
Qed.
End channel.

(** C33: nothing is lost to a timeout.  While the guest's next frame is due and
    acceptable, however slowly its bytes come, however they are cut, and however
    often the deadline passes in between, waiting again after each timeout yields
    exactly that message: the session has accepted it once, nothing of it is left
    pending, and the bytes after it are still to be read. *)
Theorem control_channel_resumes {W} `{!Write W} `{!WorkloadMessage.Codecs} attempts (self : ControlChannel.t W)
    stage timeout f b q' rest m s1 :
  let q := WorkloadSession.next_sequence (ControlChannel.session self) Direction.GuestToHost in
  length (ControlChannel.incoming self) ≤ attempts → healthy (ControlChannel.incoming self) →
  frame_at q f b q' →
  ControlChannel.receive_pending self ++ delivered (ControlChannel.incoming self) = b ++ rest →
  (len (ControlChannel.receive_pending self) < len b)%N →
  WorkloadMessage.decode_workload_message f = Ok m →
  WorkloadSession.accept (ControlChannel.session self) Direction.GuestToHost (kind (header f)) q = (s1, Ok ()) →
  ∃ s, receive_patiently attempts self stage timeout
         = (ControlChannel.control_channel s (ControlChannel.outgoing (W:=W) self) s1 [], Ok m) ∧
       healthy s ∧ delivered s = rest.
Proof.
  intros q. revert self q. induction attempts as [|attempts IH]; intros self q Hn Hh Hat Heq Hl Hm Ha;
    destruct (receive_due self stage timeout f b q' rest m s1) as (pending & s & Hs & [[Hr Hd]|(Hr & Hp & Hpl & Hlen)]);
    try done; cbn [receive_patiently]; rewrite Hr; [by exists s|lia|by exists s|].
  apply (IH (ControlChannel.control_channel s (ControlChannel.outgoing self) (ControlChannel.session self) pending));
    try done. simpl. lia.
Qed.

(** A receive is safe on every transport, whatever the guest sends.  It never
    panics and holds back at most one frame; a message is returned only when a frame
    with the sequence that was due decoded to it and the session accepted it; on any
    error the session is as it was. *)
Theorem receive_safe {W} `{!Write W} `{!WorkloadMessage.Codecs} `{!WorkloadMessage.CodecsLaws}
    (self : ControlChannel.t W) stage timeout :
  (len (ControlChannel.receive_pending self) ≤ MAX_FRAME)%N →
  let '(self', r) := ControlChannel.receive self stage timeout in
  no_panic r ∧ (len (ControlChannel.receive_pending self') ≤ MAX_FRAME)%N ∧
  ControlChannel.outgoing self' = ControlChannel.outgoing self ∧
  match r with
  | Ok m => ∃ f, WorkloadMessage.decode_workload_message f = Ok m ∧
      WorkloadSession.accept (ControlChannel.session self) Direction.GuestToHost (kind (header f))
        (sequence (header f)) = (ControlChannel.session self', Ok ())
  | _ => ControlChannel.session self' = ControlChannel.session self
  end.
Proof.
  intros Hl. unfold ControlChannel.receive, read_frame.
  set (q := WorkloadSession.next_sequence _ _).
  pose proof (read_rounds_safe stage timeout q (S (waiting (ControlChannel.incoming self)))
    (ControlChannel.receive_pending self) (ControlChannel.incoming self) ltac:(lia) Hl) as Hs.
  unfold waiting in Hs. destruct (read_rounds _ _ _ _ _ _) as [[pending s] [f| |]]; [|by destruct Hs..].
  destruct Hs as [_ Hp]. cbn [try_with].
  assert (no_panic (WorkloadMessage.decode_workload_message f)) as Hd
    by (unfold WorkloadMessage.decode_workload_message; np).
  destruct (WorkloadMessage.decode_workload_message f) as [m| |] eqn:Hm; [|done..].
  cbn [map_err try_with ControlChannel.session].
  pose proof (np_workload_accept (ControlChannel.session self) Direction.GuestToHost (kind (header f))
    (sequence (header f))) as Ha.
  destruct (WorkloadSession.accept _ _ _ _) as [s1 [[]| |]] eqn:Hacc; [|done..].
  simpl. split_and!; [done|done|done|]. by exists f.
Qed.

Lemma to_decimal_inj a b : to_decimal a = to_decimal b → a = b.
Proof. intros H%(f_equal dec_value). by rewrite !dec_value_to_decimal in H. Qed.

Lemma compare_Ok field expected actual : compare field expected actual = Ok () ↔ actual = expected.
Proof. unfold compare. case_decide; naive_solver. Qed.

Lemma compare_decimal_Ok field a b : compare field (to_decimal a) (to_decimal b) = Ok () ↔ b = a.
Proof. rewrite compare_Ok. split; [by intros <-%to_decimal_inj|by intros ->]. Qed.

(** The guest is started only in the world the profile promises.
    [verify_hello] passes exactly when the guest's contract and build identities,
    machine, page size and policies are the manifest's, its online CPUs are the
    admitted count, its memory is at least what was admitted, and every required
    feature is announced. *)
Theorem verify_hello_exact debug m cpus memory h :
  verify_hello debug m cpus memory h = Ok () ↔
  Hello.guest_contract_id h = HelloContract.guest_contract_id (ProfileManifest.hello m) ∧
  Hello.init_build_id h = HelloContract.init_build_id (ProfileManifest.hello m) ∧
  Hello.kernel_build_id h = HelloContract.kernel_build_id (ProfileManifest.hello m) ∧
  Hello.host_elf_machine h = ProfileManifest.host_elf_machine m ∧
  Hello.guest_uts_machine h = bs "x86_64" ∧
  Hello.guest_page_size h = ProfileManifest.guest_page_size m ∧
  Hello.cpu_state_hwcap_policy h = Contracts.cpu_state_hwcap_policy (ProfileManifest.contracts m) ∧
  Hello.guest_capability_policy h = Contracts.guest_capability_policy (ProfileManifest.contracts m) ∧
  Hello.online_cpus h = Cpu.requested cpus ∧
  (Memory.parsed_bytes (Memory.validated memory) ≤ Hello.accepted_physmem_bytes h)%N ∧
  HelloContract.required_features (ProfileManifest.hello m) ⊆ Hello.features h.
Proof.
  unfold verify_hello, Cpu.verify_online. cbv zeta. rewrite !bind_unit_ok, !compare_decimal_Ok, !compare_Ok.
  rewrite map_err_ok, !guard_ok, each_ok. setoid_rewrite guard_ok.
  assert (∀ l, Forall (λ required, ¬ ¬ Exists (λ feature, feature = required) l ∧ @Ok RuntimeError.t () () = Ok ())
                 (HelloContract.required_features (ProfileManifest.hello m)) ↔ HelloContract.required_features (ProfileManifest.hello m) ⊆ l) as ->.
  { intros l. rewrite Forall_forall. apply forall_proper. intros x. rewrite Exists_exists. split; intros H Hin.
    - destruct (H Hin) as [Hx _]. apply dec_stable. intros Hn. apply Hx. naive_solver.
    - naive_solver. }
  rewrite N.nlt_ge. assert (∀ a b : N, ¬ a ≠ b ↔ a = b) as -> by (intros; lia). naive_solver.
Qed.

(** ** A guest that exits while the deadline keeps passing *)
Module SampleChannel.
Import SampleCodecs.

Definition exit_message : Exit.t := Exit.exit (Some 0%N) None 5 true.
#[local] Instance exit_eq_dec : EqDecision Exit.t.
Proof. solve_decision. Defined.
Definition exit_payload : bytes := bs "exit".

#[export] Instance codecs : WorkloadMessage.Codecs := {|
  WorkloadMessage.hello_cbor := no_codec _;
  WorkloadMessage.start_cbor := no_codec _;
  WorkloadMessage.ready_cbor := no_codec _;
  WorkloadMessage.exit_cbor := one_codec exit_message exit_payload;
  WorkloadMessage.error_cbor := no_codec _;
  WorkloadMessage.signal_cbor := no_codec _;
  WorkloadMessage.resize_cbor := no_codec _;
  WorkloadMessage.shutdown_cbor := no_codec _;
|}.

#[export] Instance codecs_laws : WorkloadMessage.CodecsLaws.
Proof. split; first [apply no_codec_laws | apply one_codec_laws]. Qed.

Definition frame : RawFrame := raw_frame (frame_header MessageKind.Exit 0 4 2) exit_payload.
Definition wire : bytes := to_bytes (header frame) ++ exit_payload.

(** The header is cut, the deadline passes twice, one read is interrupted. *)
Definition transport : script :=
  [Ready (Data (take 9 wire)); Expired; Ready (Failure (io_error_of Interrupted None));
   Ready (Data (take 17 (drop 9 wire))); NoTimeout (io_error_of TimedOut None);
   Ready (Data (drop 26 wire ++ bs "next"))].

Definition channel : ControlChannel.t bytes :=
  ControlChannel.control_channel transport [] (WorkloadSession.workload_session WorkloadState.Running 1 2) [].

Lemma control_channel_resumes_witness :
  ∃ s, receive_patiently 6 channel "guest EXIT" 1000 =
         (ControlChannel.control_channel s [] (WorkloadSession.workload_session WorkloadState.Exited 1 3) [],
          Ok (WorkloadMessage.Exit exit_message)) ∧
       healthy s ∧ delivered s = bs "next".
Proof.
  apply (control_channel_resumes 6 channel "guest EXIT" 1000 frame wire 3 (bs "next")).
  - simpl. lia.
  - repeat (constructor; [first [done | by left | by right]|]). constructor.
  - split; [by vm_compute|]. by vm_compute.
  - by vm_compute.
  - by vm_compute.
  - by vm_compute.
  - by vm_compute.
Defined.

Lemma receive_safe_witness :
  let '(self', r) := ControlChannel.receive channel "guest EXIT" 1000 in
  r = Err (RuntimeError.Timeout "guest EXIT" 1000) ∧
  no_panic r ∧ (len (ControlChannel.receive_pending self') ≤ MAX_FRAME)%N ∧
  ControlChannel.outgoing self' = [] ∧
  ControlChannel.session self' = ControlChannel.session channel.
Proof.
  split; [by vm_compute|]. apply (receive_safe channel "guest EXIT" 1000). by vm_compute.
Defined.
End SampleChannel.
