(* ===== verification/StoreIdentity.v ===== *)
(** * Identities of the image store: crates/pocket-store/src/identity.rs

    Digests and their text, the hashed identifiers and their file names, sidecars,
    platforms, the immutable inputs of a generation and the keys of aliases, each
    with its validation and its canonical encoding.

    The [hex] crate is an interface: [HexLaws] states what it documents. *)

From S2P Require Import Prelude RustStr Utf8 ByteOrder ProtocolError Sha256 StoreCodec HexText.

#[local] Arguments to_be : simpl never.
#[local] Arguments bs : simpl never.
#[local] Arguments len : simpl never.

Definition MAX_ID_TEXT : N := 128.
Definition MAX_REFERENCE_TEXT : N := 1024.
Definition MAX_PLATFORM_FEATURES : N := 32.
Definition MAX_LAYERS : N := 512.
Definition MAX_GENERATION_SIDECARS : N := 64.
Definition MAX_SIDECAR_NAME_BYTES : N := 128.

Definition invalid_input {A} (field : string) (reason : bytes) : sresult A :=
  Err (StoreError.InvalidInput field reason).

(** ** Text of digests and identifiers *)

Section text.
Context {hex : Hex}.

Definition digest_to_string (d : Digest) : bytes := bs "sha256:" ++ hex_encode d.

Definition digest_from_str (value : bytes) : sresult Digest :=
  encoded ← ok_or (strip_prefix (bs "sha256:") value)
    (StoreError.InvalidInput "digest" (bs "expected sha256:<64 lowercase hexadecimal characters>"));
  if decide (¬ is_hex64 encoded)
  then invalid_input "digest" (bs "expected 64 lowercase hexadecimal characters") else
  decoded ← map_err (StoreError.InvalidInput "digest") (hex_decode encoded);
  if decide (len decoded ≠ 32%N) then invalid_input "digest" (bs "decoded digest is not 32 bytes") else
  Ok decoded.

(** The [hash_id!] macro. *)
Definition parse_filename (prefix value : bytes) : option Digest :=
  encoded ← strip_prefix prefix value;
  if decide (¬ is_hex64 encoded) then None else
  match hex_decode encoded with
  | Ok decoded => if decide (len decoded = 32%N) then Some decoded else None
  | _ => None
  end.

Definition id_to_string (prefix : bytes) (id : Digest) : bytes := prefix ++ hex_encode id.

Definition id_from_str (name : string) (prefix value : bytes) : sresult Digest :=
  ok_or (parse_filename prefix value)
    (StoreError.InvalidInput name
       (bs "expected " ++ prefix ++ bs " followed by 64 lowercase hexadecimal characters")).
End text.

Definition GENERATION_PREFIX : bytes := bs "pkvm-gen-v1-".
Definition DERIVATION_PREFIX : bytes := bs "pkvm-der-v1-".
Definition ALIAS_PREFIX : bytes := bs "pkvm-alias-v1-".
Definition RETAINED_PREFIX : bytes := bs "pkvm-cow-v1-".
Definition INSTANCE_PREFIX : bytes := bs "pkvm-inst-v1-".

(** ** Field checks *)
Definition sidecar_byte (b : byte) : Prop := is_ascii_alphanumeric b ∨ b ∈ bs "._-".
#[export] Instance sidecar_byte_dec b : Decision (sidecar_byte b).
Proof. unfold sidecar_byte. apply _. Defined.

Definition RESERVED_NAMES : list bytes :=
  [bs "."; bs ".."; bs "base.ext4"; bs "generation.meta"; bs "staging.meta"].

Definition validate_sidecar_name (value : bytes) : sresult bytes :=
  if decide (value = [] ∨ (MAX_SIDECAR_NAME_BYTES < len value)%N ∨ value ∈ RESERVED_NAMES ∨
             starts_with x2e value ∨ ¬ Forall sidecar_byte value)
  then invalid_input "sidecar.name"
         (bs "must be a non-reserved ASCII basename using letters, digits, '.', '_', or '-'") else
  Ok value.

Definition identifier_byte (b : byte) : Prop := is_ascii_alphanumeric b ∨ b ∈ bs "-_.+/".
#[export] Instance identifier_byte_dec b : Decision (identifier_byte b).
Proof. unfold identifier_byte. apply _. Defined.

Definition validate_identifier (field : string) (value : bytes) : sresult bytes :=
  if decide (value = [] ∨ (MAX_ID_TEXT < len value)%N)
  then invalid_input field (bs "must contain 1..=" ++ to_decimal MAX_ID_TEXT ++ bs " bytes") else
  if decide (¬ Forall identifier_byte value)
  then invalid_input field (bs "must contain only ASCII letters, digits, '.', '_', '+', '-', or '/'") else
  Ok value.

Definition validate_text (field : string) (value : bytes) (maximum : N) : sresult bytes :=
  if decide (value = [] ∨ (maximum < len value)%N)
  then invalid_input field (bs "must contain 1..=" ++ to_decimal maximum ++ bs " bytes") else
  if decide (Exists is_char_control (chars value))
  then invalid_input field (bs "must not contain control characters") else
  Ok value.

(** [value.map(check).transpose()] *)
Definition transpose (check : bytes → sresult bytes) (value : option bytes) : sresult (option bytes) :=
  match value with Some v => Some <$> check v | None => Ok None end.

Definition validate_optional_identifier (field : string) (value : option bytes) : sresult (option bytes) :=
  transpose (validate_identifier field) value.
Definition validate_optional_text (field : string) (value : option bytes) (maximum : N) : sresult (option bytes) :=
  transpose (λ v, validate_text field v maximum) value.

(** [windows(2).any(..)] *)
Fixpoint any_pair {A} (P : A → A → Prop) (l : list A) : Prop :=
  match l with
  | a :: (b :: _) as l => P a b ∨ any_pair P l
  | _ => False
  end.
#[export] Instance any_pair_dec {A} (P : A → A → Prop) `{!∀ a b, Decision (P a b)} l : Decision (any_pair P l).
Proof. induction l as [|a [|b l] IH]; simpl in *; apply _. Defined.

Definition read_digest : parser Digest := Reader.take_array 32 "invalid digest".
Definition read_derivation_key : parser Digest := Reader.take_array 32 "invalid derivation key".

(** ** Sidecars *)
Module ImmutableSidecar.
Record t : Set := immutable_sidecar { name : bytes; digest : Digest; size : N }.
#[global] Instance eq_dec : EqDecision t.
Proof. solve_decision. Defined.

Definition new (name : bytes) (digest : Digest) (size : N) : sresult t :=
  name ← validate_sidecar_name name; Ok (immutable_sidecar name digest size).

Definition encode (self : t) : sresult bytes :=
  cat [put_text (name self); Ok (digest self); put_u64 (size self)].

Definition decode : parser t :=
  name ← Reader.text MAX_SIDECAR_NAME_BYTES; digest ← read_digest; size ← Reader.u64;
  lift (new name digest size).
End ImmutableSidecar.

Definition validate_canonical_sidecars (sidecars : list ImmutableSidecar.t) : sresult () :=
  if decide (MAX_GENERATION_SIDECARS < len sidecars)%N
  then invalid_input "sidecars" (bs "at most " ++ to_decimal MAX_GENERATION_SIDECARS ++ bs " entries are allowed") else
  if decide (any_pair (λ a b, bytes_le (ImmutableSidecar.name b) (ImmutableSidecar.name a)) sidecars)
  then invalid_input "sidecars" (bs "entries must be strictly ordered by canonical byte name") else
  Ok ().

(** A string literal with a NUL after each word. *)
Definition domain (words : list string) : bytes := words ≫= λ w, bs w ++ [x00].

Module GenerationId.
Section derive.
Context {sha : Sha2}.

Definition derive (derivation_key base_digest : Digest) (base_size : N) (sidecars : list ImmutableSidecar.t)
    : sresult Digest :=
  validate_canonical_sidecars sidecars;;
  b ← cat ([Ok (domain ["pocket-final-generation-identity"; "v1"]); Ok derivation_key; Ok base_digest;
            put_u64 base_size; put_count (len sidecars)] ++ (ImmutableSidecar.encode <$> sidecars));
  Ok (sha256_digest b).
End derive.
End GenerationId.

(** ** Platforms *)
Module Platform.
Record t : Set := platform {
  os : bytes;
  architecture : bytes;
  variant : option bytes;
  os_version : option bytes;
  os_features : list bytes;
}.
#[global] Instance eq_dec : EqDecision t.
Proof. solve_decision. Defined.

Definition new (os architecture : bytes) (variant os_version : option bytes) (os_features : list bytes)
    : sresult t :=
  os ← validate_identifier "platform.os" os;
  architecture ← validate_identifier "platform.architecture" architecture;
  variant ← validate_optional_identifier "platform.variant" variant;
  os_version ← validate_optional_text "platform.os_version" os_version MAX_ID_TEXT;
  if decide (MAX_PLATFORM_FEATURES < len os_features)%N
  then invalid_input "platform.os_features"
         (bs "at most " ++ to_decimal MAX_PLATFORM_FEATURES ++ bs " entries are allowed") else
  os_features ← map_result (validate_identifier "platform.os_features") os_features;
  let os_features := sort os_features in
  if decide (any_pair (=) os_features) then invalid_input "platform.os_features" (bs "duplicate entry") else
  Ok (platform os architecture variant os_version os_features).

Definition canonical_text (self : t) : bytes :=
  os self ++ bs "/" ++ architecture self ++
  match variant self with Some variant => bs "/" ++ variant | None => [] end ++
  match os_version self with Some version => bs ":osversion=" ++ version | None => [] end ++
  (os_features self ≫= λ feature, bs ":osfeature=" ++ feature).

Definition encode (self : t) : sresult bytes :=
  cat ([put_text (os self); put_text (architecture self); put_optional_text (variant self);
        put_optional_text (os_version self); put_count (len (os_features self))]
       ++ (put_text <$> os_features self)).

Definition decode : parser t :=
  os ← Reader.text MAX_ID_TEXT;
  architecture ← Reader.text MAX_ID_TEXT;
  variant ← Reader.optional_text MAX_ID_TEXT;
  os_version ← Reader.optional_text MAX_ID_TEXT;
  feature_count ← Reader.u16;
  if decide (MAX_PLATFORM_FEATURES < feature_count)%N
  then lift (metadata MetadataKind.Generation MEMORY (bs "too many OS features")) else
  features ← read_many (N.to_nat feature_count) (Reader.text MAX_ID_TEXT);
  lift (new os architecture variant os_version features).
End Platform.

Definition merged_optional_platform_field (field : string) (descriptor config : option bytes)
    : sresult (option bytes) :=
  match descriptor, config with
  | Some a, Some b =>
      if decide (a ≠ b) then invalid_input field (bs "descriptor and config values disagree")
      else Ok (Some a)
  | Some value, None | None, Some value => Ok (Some value)
  | None, None => Ok None
  end.

Definition validate_platform_contract (descriptor : option Platform.t) (config effective : Platform.t)
    : sresult () :=
  if decide (Platform.os config ≠ Platform.os effective)
  then invalid_input "platform.os" (bs "config and effective values disagree") else
  if decide (Platform.architecture config ≠ Platform.architecture effective)
  then invalid_input "platform.architecture" (bs "config and effective values disagree") else
  if decide (is_some_and (λ d, Platform.os d ≠ Platform.os config ∨
                               Platform.architecture d ≠ Platform.architecture config) descriptor)
  then invalid_input "descriptor_platform" (bs "descriptor and config OS/architecture disagree") else
  effective_variant ← merged_optional_platform_field "platform.variant"
                        (descriptor ≫= Platform.variant) (Platform.variant config);
  if decide (Platform.variant effective ≠ effective_variant)
  then invalid_input "effective_platform.variant" (bs "does not equal the reconciled descriptor/config value") else
  effective_os_version ← merged_optional_platform_field "platform.os_version"
                           (descriptor ≫= Platform.os_version) (Platform.os_version config);
  if decide (Platform.os_version effective ≠ effective_os_version)
  then invalid_input "effective_platform.os_version" (bs "does not equal the reconciled descriptor/config value") else
  let descriptor_features := match descriptor with Some d => Platform.os_features d | None => [] end in
  let config_features := Platform.os_features config in
  effective_features ←
    (if decide (descriptor_features = []) then Ok config_features else
     if decide (config_features = [] ∨ config_features = descriptor_features) then Ok descriptor_features else
     invalid_input "platform.os_features" (bs "descriptor and config values disagree"));
  if decide (Platform.os_features effective ≠ effective_features)
  then invalid_input "effective_platform.os_features" (bs "does not equal the reconciled descriptor/config value") else
  Ok ().

(** ** The immutable inputs of a generation *)
Module GenerationSpec.
Record t : Set := generation_spec {
  selected_manifest_digest : Digest;
  config_digest : Digest;
  layer_digests : list Digest;
  diff_ids : list Digest;
  descriptor_platform : option Platform.t;
  config_platform : Platform.t;
  effective_platform : Platform.t;
  selector_policy_id : bytes;
  profile_id : bytes;
  profile_revision : Digest;
  root_layout_contract : bytes;
  filesystem_contract : bytes;
  build_contract_digest : Digest;
}.
#[global] Instance eq_dec : EqDecision t.
Proof. solve_decision. Defined.

(** [new], from the fields of the value it would build. *)
Definition new (s : t) : sresult t :=
  if decide (MAX_LAYERS < len (layer_digests s))%N
  then invalid_input "layer_digests" (bs "at most " ++ to_decimal MAX_LAYERS ++ bs " layers are allowed") else
  if decide (len (layer_digests s) ≠ len (diff_ids s))
  then invalid_input "diff_ids" (bs "layer digest and DiffID counts must match") else
  validate_platform_contract (descriptor_platform s) (config_platform s) (effective_platform s);;
  selector_policy_id ← validate_identifier "selector_policy_id" (selector_policy_id s);
  profile_id ← validate_identifier "profile_id" (profile_id s);
  root_layout_contract ← validate_identifier "root_layout_contract" (root_layout_contract s);
  filesystem_contract ← validate_identifier "filesystem_contract" (filesystem_contract s);
  Ok (generation_spec (selected_manifest_digest s) (config_digest s) (layer_digests s) (diff_ids s)
        (descriptor_platform s) (config_platform s) (effective_platform s) selector_policy_id profile_id
        (profile_revision s) root_layout_contract filesystem_contract (build_contract_digest s)).

Definition encode_descriptor (platform : option Platform.t) : sresult bytes :=
  match platform with
  | Some platform => cat [put_u8 1; Platform.encode platform]
  | None => put_u8 0
  end.

Definition encode (self : t) : sresult bytes :=
  cat ([Ok (selected_manifest_digest self); Ok (config_digest self); put_count (len (layer_digests self))]
       ++ (Ok <$> layer_digests self)
       ++ [put_count (len (diff_ids self))] ++ (Ok <$> diff_ids self)
       ++ [encode_descriptor (descriptor_platform self); Platform.encode (config_platform self);
           Platform.encode (effective_platform self); put_text (selector_policy_id self);
           put_text (profile_id self); Ok (profile_revision self); put_text (root_layout_contract self);
           put_text (filesystem_contract self); Ok (build_contract_digest self)]).

Definition decode_descriptor : parser (option Platform.t) :=
  tag ← Reader.u8;
  if decide (tag = 0%N) then mret None else
  if decide (tag = 1%N) then platform ← Platform.decode; mret (Some platform) else
  lift (metadata MetadataKind.Generation MEMORY
          (bs "invalid descriptor-platform option discriminant " ++ to_decimal tag)).

Definition too_many {A} (what : string) : parser A :=
  lift (metadata MetadataKind.Generation MEMORY (bs "too many " ++ bs what)).

Definition decode : parser t :=
  selected_manifest_digest ← read_digest;
  config_digest ← read_digest;
  layer_count ← Reader.u16;
  if decide (MAX_LAYERS < layer_count)%N then too_many "layers" else
  layers ← read_many (N.to_nat layer_count) read_digest;
  diff_count ← Reader.u16;
  if decide (MAX_LAYERS < diff_count)%N then too_many "DiffIDs" else
  diff_ids ← read_many (N.to_nat diff_count) read_digest;
  descriptor_platform ← decode_descriptor;
  config_platform ← Platform.decode;
  effective_platform ← Platform.decode;
  selector_policy_id ← Reader.text MAX_ID_TEXT;
  profile_id ← Reader.text MAX_ID_TEXT;
  profile_revision ← read_digest;
  root_layout_contract ← Reader.text MAX_ID_TEXT;
  filesystem_contract ← Reader.text MAX_ID_TEXT;
  build_contract_digest ← read_digest;
  lift (new (generation_spec selected_manifest_digest config_digest layers diff_ids descriptor_platform
               config_platform effective_platform selector_policy_id profile_id profile_revision
               root_layout_contract filesystem_contract build_contract_digest)).

Definition derivation_key `{Sha2} (self : t) : sresult Digest :=
  b ← cat [Ok (domain ["pocket-generation-derivation"; "v1"]); encode self];
  Ok (sha256_digest b).
End GenerationSpec.

(** ** Aliases and retained overlays *)
Module AliasKey.
Record t : Set := alias_key {
  profile_id : bytes;
  profile_revision : Digest;
  reference : bytes;
  requested_platform : Platform.t;
  selector_policy_id : bytes;
}.
#[global] Instance eq_dec : EqDecision t.
Proof. solve_decision. Defined.

(** [new], from the fields of the value it would build. *)
Definition new (k : t) : sresult t :=
  profile_id ← validate_identifier "alias.profile_id" (profile_id k);
  reference ← validate_text "alias.reference" (reference k) MAX_REFERENCE_TEXT;
  selector_policy_id ← validate_identifier "alias.selector_policy_id" (selector_policy_id k);
  Ok (alias_key profile_id (profile_revision k) reference (requested_platform k) selector_policy_id).

Definition encode (self : t) : sresult bytes :=
  cat [put_text (profile_id self); Ok (profile_revision self); put_text (reference self);
       Platform.encode (requested_platform self); put_text (selector_policy_id self)].

Definition decode : parser t :=
  profile_id ← Reader.text MAX_ID_TEXT;
  profile_revision ← read_digest;
  reference ← Reader.text MAX_REFERENCE_TEXT;
  requested_platform ← Platform.decode;
  selector_policy_id ← Reader.text MAX_ID_TEXT;
  lift (new (alias_key profile_id profile_revision reference requested_platform selector_policy_id)).

Definition id `{Sha2} (self : t) : sresult Digest :=
  b ← cat [Ok (domain ["pocket-alias-identity"; "v1"]); encode self];
  Ok (sha256_digest b).
End AliasKey.

Module RetainedCowState.
Inductive t : Set := Clean | CrashDirty.
#[global] Instance eq_dec : EqDecision t.
Proof. solve_decision. Defined.

Definition encode (self : t) : N := match self with Clean => 0 | CrashDirty => 1 end.
Definition decode (value : N) : sresult t :=
  if decide (value = 0%N) then Ok Clean else
  if decide (value = 1%N) then Ok CrashDirty else
  metadata MetadataKind.RetainedCow MEMORY (bs "invalid retained-COW state " ++ to_decimal value).
End RetainedCowState.

(** ** Names and digests *)
Section text_facts.
Context `{HexLaws}.

(** A file name parses exactly as the identifier it prints. *)
Lemma parse_filename_Some prefix value d :
  parse_filename prefix value = Some d ↔ value = id_to_string prefix d ∧ is_digest d.
Proof.
  unfold parse_filename, id_to_string. rewrite hex_encode_lower, bind_Some.
  setoid_rewrite strip_prefix_Some. split.
  - intros (e & -> & He). case_decide as Hx; [done|]. apply is_hex64_iff in Hx as (c & -> & Hc).
    rewrite hex_decode_lower in He. case_decide; naive_solver.
  - intros [-> Hd]. exists (hex_lower d). split; [done|].
    rewrite decide_False by (intros []; apply is_hex64_iff; eauto).
    rewrite hex_decode_lower. by rewrite decide_True by by apply digest_len.
Qed.

Lemma digest_from_str_Ok value d :
  digest_from_str value = Ok d ↔ value = digest_to_string d ∧ is_digest d.
Proof.
  unfold digest_from_str, digest_to_string, invalid_input. rewrite hex_encode_lower, bind_ok.
  setoid_rewrite ok_or_ok. setoid_rewrite strip_prefix_Some. split.
  - intros (e & -> & He). apply guard_ok in He as [Hx He]. apply dec_stable, is_hex64_iff in Hx as (c & -> & Hc).
    rewrite hex_decode_lower in He. simpl in He. case_decide; naive_solver.
  - intros [-> Hd]. exists (hex_lower d). split; [done|].
    rewrite decide_False by (intros []; apply is_hex64_iff; eauto).
    rewrite hex_decode_lower. simpl. by rewrite decide_False by (rewrite digest_len in Hd; tauto).
Qed.

Lemma id_to_string_inj prefix a b : id_to_string prefix a = id_to_string prefix b → a = b.
Proof. unfold id_to_string. rewrite !hex_encode_lower. by intros ?%(inj _)%(inj _). Qed.
End text_facts.

(** ** Field checks *)
Definition identifier_ok (v : bytes) : Prop := v ≠ [] ∧ (len v ≤ MAX_ID_TEXT)%N ∧ Forall identifier_byte v.
Definition text_ok (maximum : N) (v : bytes) : Prop :=
  v ≠ [] ∧ (len v ≤ maximum)%N ∧ Forall (λ c, ¬ is_char_control c) (chars v).
Definition sidecar_name_ok (v : bytes) : Prop :=
  v ≠ [] ∧ (len v ≤ MAX_SIDECAR_NAME_BYTES)%N ∧ (v ∉ RESERVED_NAMES) ∧ (¬ starts_with x2e v) ∧ Forall sidecar_byte v.

Lemma validate_identifier_Ok f v v' : validate_identifier f v = Ok v' ↔ v' = v ∧ identifier_ok v.
Proof.
  unfold validate_identifier, identifier_ok, invalid_input. rewrite !guard_ok, ok_inj, not_or_and, N.nlt_ge.
  split; [|naive_solver]. intros ((? & ?) & Hb & <-). apply dec_stable in Hb. done.
Qed.

Lemma validate_store_text_Ok f v m v' : validate_text f v m = Ok v' ↔ v' = v ∧ text_ok m v.
Proof.
  unfold validate_text, text_ok, invalid_input. rewrite !guard_ok, ok_inj, not_or_and, N.nlt_ge.
  rewrite <- List.Forall_Exists_neg. naive_solver.
Qed.

Lemma validate_sidecar_name_Ok v v' : validate_sidecar_name v = Ok v' ↔ v' = v ∧ sidecar_name_ok v.
Proof.
  unfold validate_sidecar_name, sidecar_name_ok, invalid_input.
  rewrite guard_ok, ok_inj, !not_or_and, N.nlt_ge. split; [|naive_solver].
  intros ((? & ? & ? & ? & Hb) & <-). apply dec_stable in Hb. done.
Qed.

Lemma transpose_Ok check (P : bytes → Prop) v v' :
  (∀ a b, check a = Ok b ↔ b = a ∧ P a) → transpose check v = Ok v' ↔ v' = v ∧ (∀ a, v = Some a → P a).
Proof.
  intros Hc. destruct v as [v|]; simpl; [|naive_solver].
  rewrite fmap_ok. setoid_rewrite Hc. naive_solver.
Qed.

Lemma identifier_byte_ascii : ∀ b, identifier_byte b → (code b < 128)%N.
Proof. by_bytes. Qed.
Lemma sidecar_byte_ascii : ∀ b, sidecar_byte b → (code b < 128)%N.
Proof. by_bytes. Qed.

Lemma ascii_utf8 (P : byte → Prop) v : (∀ b, P b → (code b < 128)%N) → Forall P v → valid_utf8 v.
Proof. intros HP Hv. eexists. apply decode_utf8_ascii. by eapply Forall_impl. Qed.

Lemma identifier_utf8 v : identifier_ok v → valid_utf8 v.
Proof. intros (_ & _ & Hb). by eapply ascii_utf8, Hb; apply identifier_byte_ascii. Qed.
Lemma sidecar_name_utf8 v : sidecar_name_ok v → valid_utf8 v.
Proof. intros (_ & _ & _ & _ & Hb). by eapply ascii_utf8, Hb; apply sidecar_byte_ascii. Qed.

(** No pair of neighbours is out of order: the list is strictly sorted. *)
Lemma any_pair_sorted {A} (key : A → bytes) l :
  ¬ any_pair (λ a b, bytes_le (key b) (key a)) l ↔ strictly_sorted_by key l.
Proof.
  unfold strictly_sorted_by. assert (∀ a b, ¬ bytes_le (key b) (key a) ↔ bytes_lt (key a) (key b)) as Hlt
    by (intros; symmetry; apply bytes_lt_not_le).
  induction l as [|a [|b l] IH]; simpl in *.
  - split; [constructor|tauto].
  - split; [repeat constructor|tauto].
  - rewrite not_or_and, IH, Hlt. split.
    + intros [Hab Hs]. constructor; [done|]. inversion Hs as [|? ? _ Hall]; subst. constructor; [done|].
      eapply Forall_impl; [done|]. intros c Hc. by etrans.
    + intros Hs. inversion Hs as [|? ? Hs' Hall]; subst. split; [by inversion Hall|done].
Qed.

Lemma any_pair_eq_sorted l :
  StronglySorted bytes_le l → ¬ any_pair (=) l ↔ StronglySorted bytes_lt l.
Proof.
  intros Hs. rewrite <- (list_fmap_id l) at 2. fold (strictly_sorted_by id l). rewrite <- any_pair_sorted.
  induction Hs as [|a l Hs IH Hall]; [done|]. destruct l as [|b l]; simpl in *; [done|].
  rewrite !not_or_and, IH. apply Forall_cons in Hall as [Hab _]. unfold id.
  assert (¬ a = b ↔ ¬ bytes_le b a) as ->; [|done]. split.
  - intros Hne Hba. by apply Hne, (anti_symm bytes_le).
  - intros Hn ->. by apply Hn.
Qed.

(** ** What valid values are, and that they are read back as written *)
Definition platform_ok (p : Platform.t) : Prop :=
  identifier_ok (Platform.os p) ∧ identifier_ok (Platform.architecture p) ∧
  (∀ v, Platform.variant p = Some v → identifier_ok v) ∧
  (∀ v, Platform.os_version p = Some v → text_ok MAX_ID_TEXT v ∧ valid_utf8 v) ∧
  (len (Platform.os_features p) ≤ MAX_PLATFORM_FEATURES)%N ∧
  Forall identifier_ok (Platform.os_features p) ∧ StronglySorted bytes_lt (Platform.os_features p).

Lemma map_identity (f : bytes → sresult bytes) (P : bytes → Prop) l k :
  (∀ a b, f a = Ok b ↔ b = a ∧ P a) → map_result f l = Ok k ↔ k = l ∧ Forall P l.
Proof.
  intros Hf. revert k; induction l as [|a l IH]; intros k; simpl.
  { rewrite ok_inj, Forall_nil. naive_solver. }
  rewrite bind_ok, Forall_cons. setoid_rewrite bind_ok. setoid_rewrite Hf. setoid_rewrite IH.
  setoid_rewrite ok_inj. naive_solver.
Qed.

Lemma optional_identifier_Ok f v v' :
  validate_optional_identifier f v = Ok v' ↔ v' = v ∧ (∀ a, v = Some a → identifier_ok a).
Proof. apply transpose_Ok. intros. apply validate_identifier_Ok. Qed.
Lemma optional_text_Ok f v m v' :
  validate_optional_text f v m = Ok v' ↔ v' = v ∧ (∀ a, v = Some a → text_ok m a).
Proof. apply transpose_Ok. intros. apply validate_store_text_Ok. Qed.
Lemma features_Ok f l k : map_result (validate_identifier f) l = Ok k ↔ k = l ∧ Forall identifier_ok l.
Proof. apply map_identity. intros. apply validate_identifier_Ok. Qed.

(** Turns every passed field check into what it says of the field. *)
Ltac checked :=
  repeat match goal with
  | H : validate_identifier _ _ = Ok _ |- _ => apply validate_identifier_Ok in H as [-> ?]
  | H : validate_text _ _ _ = Ok _ |- _ => apply validate_store_text_Ok in H as [-> ?]
  | H : validate_optional_identifier _ _ = Ok _ |- _ => apply optional_identifier_Ok in H as [-> ?]
  | H : validate_optional_text _ _ _ = Ok _ |- _ => apply optional_text_Ok in H as [-> ?]
  | H : map_result (validate_identifier _) _ = Ok _ |- _ => apply features_Ok in H as [-> ?]
  end.

Lemma platform_new_Ok os arch variant version features p :
  Platform.new os arch variant version features = Ok p ↔
  p = Platform.platform os arch variant version (sort features) ∧
  identifier_ok os ∧ identifier_ok arch ∧ (∀ v, variant = Some v → identifier_ok v) ∧
  (∀ v, version = Some v → text_ok MAX_ID_TEXT v) ∧ (len features ≤ MAX_PLATFORM_FEATURES)%N ∧
  Forall identifier_ok features ∧ StronglySorted bytes_lt (sort features).
Proof.
  assert (∀ l, StronglySorted bytes_le (sort l)) as Hs
    by (intros; pose proof (sort_by_sorted id l) as H; unfold sorted_by in H; by rewrite list_fmap_id in H).
  unfold Platform.new, invalid_input. cbv zeta. split.
  - intros H. ok_inv. checked. rename select (¬ any_pair _ _) into Hp. apply any_pair_eq_sorted in Hp; [|done].
    split_and!; (done || lia).
  - intros (-> & Ho & Ha & Hv & Hver & Hl & Hf & Hst).
    rewrite (proj2 (validate_identifier_Ok _ os os)) by done. simpl.
    rewrite (proj2 (validate_identifier_Ok _ arch arch)) by done. simpl.
    rewrite (proj2 (optional_identifier_Ok _ variant variant)) by done. simpl.
    rewrite (proj2 (optional_text_Ok _ version _ version)) by done. simpl.
    rewrite decide_False by lia. rewrite (proj2 (features_Ok _ features features)) by done. simpl.
    by rewrite decide_False by by apply any_pair_eq_sorted.
Qed.

Lemma sort_strictly_sorted l : StronglySorted bytes_lt l → sort l = l.
Proof.
  intros Hs. symmetry. apply (strictly_sorted_unique id).
  - unfold strictly_sorted_by. by rewrite list_fmap_id.
  - apply sort_by_sorted.
  - symmetry. apply sort_by_perm.
Qed.

Lemma platform_new_id p :
  platform_ok p → Platform.new (Platform.os p) (Platform.architecture p) (Platform.variant p)
                    (Platform.os_version p) (Platform.os_features p) = Ok p.
Proof.
  intros (? & ? & ? & Hv & ? & ? & Hs). apply platform_new_Ok. rewrite sort_strictly_sorted by done.
  split_and!; try done; [by destruct p|]. intros v Hv'. by apply Hv.
Qed.

Create HintDb sound discriminated.
#[export] Hint Resolve sound_ret sound_u8 sound_u16 sound_u64 sound_count sound_array : sound.

(** One part of an encoder and the step of the decoder that reads it. *)
Ltac part a := eapply (sound_cons _ _ _ _ a); [solve [eauto with sound]|]; cbv beta.

Lemma sound_identifier v : identifier_ok v → sound (put_text v) (Reader.text MAX_ID_TEXT) v.
Proof. intros Hv. apply sound_text; [by apply identifier_utf8|apply Hv|done]. Qed.

Lemma sound_digest d : is_digest d → sound (Ok d) read_digest d.
Proof. intros Hd. by apply sound_array, digest_len. Qed.
Lemma sound_derivation_key d : is_digest d → sound (Ok d) read_derivation_key d.
Proof. intros Hd. by apply sound_array, digest_len. Qed.
#[export] Hint Resolve sound_identifier sound_digest sound_derivation_key : sound.

Lemma sound_optional_identifier v :
  (∀ t, v = Some t → identifier_ok t) → sound (put_optional_text v) (Reader.optional_text MAX_ID_TEXT) v.
Proof.
  intros Hv. apply sound_optional_text; [|done]. intros t Ht.
  split; [by apply identifier_utf8, Hv|by apply Hv].
Qed.

Lemma sound_platform p : platform_ok p → sound (Platform.encode p) Platform.decode p.
Proof.
  intros Hok. pose proof (platform_new_id p Hok) as Hn. destruct Hok as (Ho & Ha & Hv & Hver & Hl & Hf & _).
  assert (len (Platform.os_features p) < u16_bound)%N as Hc
    by (unfold MAX_PLATFORM_FEATURES, u16_bound in *; lia).
  unfold Platform.encode, Platform.decode. rewrite <- app_comm_cons. part (Platform.os p).
  part (Platform.architecture p).
  eapply sound_cons; [by apply sound_optional_identifier|]. cbv beta.
  eapply sound_cons; [apply sound_optional_text; [|done]; intros t Ht; split; apply (Hver t Ht)|]. cbv beta.
  part (len (Platform.os_features p)). rewrite decide_False by lia.
  unfold len. rewrite Nat2N.id, <- (app_nil_r (put_text <$> _)).
  eapply sound_app; [apply sound_many; intros a Hin; apply sound_identifier|by apply sound_lift].
  rewrite Forall_forall in Hf. by apply Hf.
Qed.
#[export] Hint Resolve sound_platform : sound.

Definition spec_ok (s : GenerationSpec.t) : Prop :=
  is_digest (GenerationSpec.selected_manifest_digest s) ∧ is_digest (GenerationSpec.config_digest s) ∧
  Forall is_digest (GenerationSpec.layer_digests s) ∧ Forall is_digest (GenerationSpec.diff_ids s) ∧
  (∀ p, GenerationSpec.descriptor_platform s = Some p → platform_ok p) ∧
  platform_ok (GenerationSpec.config_platform s) ∧ platform_ok (GenerationSpec.effective_platform s) ∧
  is_digest (GenerationSpec.profile_revision s) ∧ is_digest (GenerationSpec.build_contract_digest s) ∧
  GenerationSpec.new s = Ok s.

Lemma spec_new_Ok s s' :
  GenerationSpec.new s = Ok s' ↔
  s' = s ∧ (len (GenerationSpec.layer_digests s) ≤ MAX_LAYERS)%N ∧
  len (GenerationSpec.layer_digests s) = len (GenerationSpec.diff_ids s) ∧
  validate_platform_contract (GenerationSpec.descriptor_platform s) (GenerationSpec.config_platform s)
    (GenerationSpec.effective_platform s) = Ok () ∧
  identifier_ok (GenerationSpec.selector_policy_id s) ∧ identifier_ok (GenerationSpec.profile_id s) ∧
  identifier_ok (GenerationSpec.root_layout_contract s) ∧ identifier_ok (GenerationSpec.filesystem_contract s).
Proof.
  unfold GenerationSpec.new, invalid_input. split.
  - intros H. ok_inv. checked. destruct s. split_and!; (done || lia).
  - intros (-> & ? & Heq & Hc & Hs & Hp & Hr & Hf). rewrite decide_False by lia. rewrite decide_False by tauto.
    rewrite Hc. simpl. rewrite (proj2 (validate_identifier_Ok _ _ _) (conj eq_refl Hs)). simpl.
    rewrite (proj2 (validate_identifier_Ok _ _ _) (conj eq_refl Hp)). simpl.
    rewrite (proj2 (validate_identifier_Ok _ _ _) (conj eq_refl Hr)). simpl.
    rewrite (proj2 (validate_identifier_Ok _ _ _) (conj eq_refl Hf)). simpl. by destruct s.
Qed.

Lemma sound_descriptor o :
  (∀ p, o = Some p → platform_ok p) → sound (GenerationSpec.encode_descriptor o) GenerationSpec.decode_descriptor o.
Proof.
  intros Ho. unfold GenerationSpec.encode_descriptor, GenerationSpec.decode_descriptor. destruct o as [p|].
  - eapply sound_cons; [by apply (sound_u8 1)|]. rewrite decide_False, decide_True by done.
    part p. apply sound_ret.
  - eapply sound_last; [by apply (sound_u8 0)|]. rewrite decide_True by done. apply sound_ret.
Qed.
#[export] Hint Resolve sound_descriptor : sound.

Lemma sound_digests l : Forall is_digest l → sound (cat (Ok <$> l)) (read_many (length l) read_digest) l.
Proof. intros Hl. apply sound_many. intros a Ha. rewrite Forall_forall in Hl. by apply sound_digest, Hl. Qed.

Lemma sound_spec s : spec_ok s → sound (GenerationSpec.encode s) GenerationSpec.decode s.
Proof.
  intros (Hm & Hc & Hl & Hd & Hdp & Hcp & Hep & Hpr & Hbc & Hn). pose proof Hn as Hn'.
  apply spec_new_Ok in Hn' as (_ & Hlen & Heq & _ & ? & ? & ? & ?).
  assert (len (GenerationSpec.layer_digests s) < u16_bound)%N as Hc1 by (unfold MAX_LAYERS, u16_bound in *; lia).
  assert (len (GenerationSpec.diff_ids s) < u16_bound)%N as Hc2 by lia.
  unfold GenerationSpec.encode, GenerationSpec.decode. rewrite <- app_comm_cons.
  part (GenerationSpec.selected_manifest_digest s). part (GenerationSpec.config_digest s).
  part (len (GenerationSpec.layer_digests s)). rewrite decide_False by lia.
  replace (N.to_nat (len (GenerationSpec.layer_digests s))) with (length (GenerationSpec.layer_digests s))
    by (unfold len; lia).
  eapply sound_app; [by apply sound_digests|]. part (len (GenerationSpec.diff_ids s)). rewrite decide_False by lia.
  replace (N.to_nat (len (GenerationSpec.diff_ids s))) with (length (GenerationSpec.diff_ids s))
    by (unfold len; lia).
  eapply sound_app; [by apply sound_digests|].
  part (GenerationSpec.descriptor_platform s). part (GenerationSpec.config_platform s).
  part (GenerationSpec.effective_platform s). part (GenerationSpec.selector_policy_id s).
  part (GenerationSpec.profile_id s). part (GenerationSpec.profile_revision s).
  part (GenerationSpec.root_layout_contract s). part (GenerationSpec.filesystem_contract s).
  part (GenerationSpec.build_contract_digest s). apply sound_lift. destruct s. exact Hn.
Qed.

Definition alias_key_ok (k : AliasKey.t) : Prop :=
  is_digest (AliasKey.profile_revision k) ∧ valid_utf8 (AliasKey.reference k) ∧
  platform_ok (AliasKey.requested_platform k) ∧ AliasKey.new k = Ok k.

Lemma alias_new_Ok k k' :
  AliasKey.new k = Ok k' ↔
  k' = k ∧ identifier_ok (AliasKey.profile_id k) ∧ text_ok MAX_REFERENCE_TEXT (AliasKey.reference k) ∧
  identifier_ok (AliasKey.selector_policy_id k).
Proof.
  unfold AliasKey.new. split.
  - intros H. ok_inv. checked. by destruct k.
  - intros (-> & Hp & Hr & Hs). rewrite (proj2 (validate_identifier_Ok _ _ _) (conj eq_refl Hp)). simpl.
    rewrite (proj2 (validate_store_text_Ok _ _ _ _) (conj eq_refl Hr)). simpl.
    rewrite (proj2 (validate_identifier_Ok _ _ _) (conj eq_refl Hs)). simpl. by destruct k.
Qed.

Lemma sound_alias_key k : alias_key_ok k → sound (AliasKey.encode k) AliasKey.decode k.
Proof.
  intros (Hr & Hu & Hp & Hn). pose proof Hn as Hn'. apply alias_new_Ok in Hn' as (_ & ? & [_ [? _]] & ?).
  assert (sound (put_text (AliasKey.reference k)) (Reader.text MAX_REFERENCE_TEXT) (AliasKey.reference k))
    by by apply sound_text.
  unfold AliasKey.encode, AliasKey.decode. part (AliasKey.profile_id k). part (AliasKey.profile_revision k).
  part (AliasKey.reference k). part (AliasKey.requested_platform k). part (AliasKey.selector_policy_id k).
  apply sound_lift. destruct k. exact Hn.
Qed.

Definition sidecar_ok (s : ImmutableSidecar.t) : Prop :=
  sidecar_name_ok (ImmutableSidecar.name s) ∧ is_digest (ImmutableSidecar.digest s) ∧
  (ImmutableSidecar.size s < u64_bound)%N.

Lemma sound_sidecar s : sidecar_ok s → sound (ImmutableSidecar.encode s) ImmutableSidecar.decode s.
Proof.
  intros (Hn & Hd & Hs).
  assert (sound (put_text (ImmutableSidecar.name s)) (Reader.text MAX_SIDECAR_NAME_BYTES) (ImmutableSidecar.name s))
    by (apply sound_text; [by apply sidecar_name_utf8|apply Hn|done]).
  unfold ImmutableSidecar.encode, ImmutableSidecar.decode. part (ImmutableSidecar.name s).
  part (ImmutableSidecar.digest s). part (ImmutableSidecar.size s). apply sound_lift.
  unfold ImmutableSidecar.new. rewrite (proj2 (validate_sidecar_name_Ok _ _) (conj eq_refl Hn)). simpl.
  by destruct s.
Qed.

Lemma validate_canonical_sidecars_Ok l :
  validate_canonical_sidecars l = Ok () ↔
  (len l ≤ MAX_GENERATION_SIDECARS)%N ∧ strictly_sorted_by ImmutableSidecar.name l.
Proof.
  unfold validate_canonical_sidecars, invalid_input. rewrite !guard_ok, N.nlt_ge, any_pair_sorted. naive_solver.
Qed.

(** ** Lengths of encodings *)
Definition part_le (k : N) (c : sresult bytes) : Prop := ∀ b, c = Ok b → (len b ≤ k)%N.

Lemma part_le_mono k k' c : part_le k c → (k ≤ k')%N → part_le k' c.
Proof. intros Hc Hk b Hb. specialize (Hc b Hb). lia. Qed.

Lemma part_le_cat k parts : Forall (part_le k) parts → part_le (len parts * k) (cat parts).
Proof.
  induction 1 as [|c parts Hc Hp IH]; intros b Hb; simpl in Hb; [injection Hb as <-; rewrite len_nil; lia|].
  apply bind_ok in Hb as (x & -> & (y & Hy & ->)%fmap_ok). specialize (Hc x eq_refl). specialize (IH y Hy).
  rewrite len_app, len_cons. lia.
Qed.

Lemma part_le_text k v : (len v ≤ k)%N → part_le (4 + k) (put_text v).
Proof.
  intros Hv b. unfold put_text, put_bytes, put_u32. case_decide; [|done].
  rewrite fmap_ok. intros (h & <-%ok_inj & ->). rewrite len_app, len_to_be. lia.
Qed.
Lemma part_le_identifier v : identifier_ok v → part_le 132 (put_text v).
Proof. intros (_ & Hv & _). by apply (part_le_text 128). Qed.
Lemma part_le_optional k v : (∀ t, v = Some t → len t ≤ k)%N → part_le (5 + k) (put_optional_text v).
Proof.
  intros Hv b. destruct v as [v|]; unfold put_optional_text; [|intros [= <-]; rewrite len_cons, len_nil; lia].
  cbn [cat put_u8]. intros (y & (z & Ht & (? & [= <-] & ->)%fmap_ok)%bind_ok & ->)%fmap_ok.
  apply (part_le_text k) in Ht; [|by apply Hv]. rewrite !len_app, len_cons, !len_nil. lia.
Qed.
Lemma part_le_digest d : is_digest d → part_le 32 (Ok d).
Proof. intros Hd b [= <-]. apply digest_len in Hd. lia. Qed.
Lemma part_le_count n : part_le 2 (put_count n).
Proof. intros b. unfold put_count, put_u16. case_decide; [|done]. rewrite ok_inj. intros <-. by rewrite len_to_be. Qed.

(** Shows a list of parts to be below a bound one by one. *)
Ltac part_bounds :=
  repeat first
    [ apply Forall_nil; exact I
    | apply Forall_cons; split
    | eapply part_le_mono; [first [by apply part_le_identifier | by apply part_le_digest | apply part_le_count]|done] ].

Lemma part_le_platform p : platform_ok p → part_le 7104 (Platform.encode p).
Proof.
  intros (Ho & Ha & Hv & Hver & Hl & Hf & _). unfold Platform.encode.
  eapply part_le_mono; [apply (part_le_cat 133)|].
  - rewrite Forall_app. split.
    + part_bounds; [apply (part_le_optional 128); intros t Ht; apply (Hv t Ht)
                   |apply (part_le_optional 128); intros t Ht; apply (Hver t Ht)].
    + rewrite Forall_fmap. eapply Forall_impl; [done|]. intros v Hid. simpl.
      eapply part_le_mono; [by apply part_le_identifier|done].
  - rewrite len_app. unfold len in *. rewrite length_fmap. simpl. unfold MAX_PLATFORM_FEATURES in Hl. lia.
Qed.

Lemma part_le_spec s : spec_ok s → part_le 8388608 (GenerationSpec.encode s).
Proof.
  intros (Hm & Hc & Hl & Hd & Hdp & Hcp & Hep & Hpr & Hbc & Hn).
  apply spec_new_Ok in Hn as (_ & Hlen & Heq & _ & ? & ? & ? & ?). unfold GenerationSpec.encode.
  assert (∀ l, Forall is_digest l → Forall (part_le 7106) (Ok <$> l)) as Hds.
  { intros l Hall. rewrite Forall_fmap. eapply Forall_impl; [done|]. intros d ?.
    by eapply part_le_mono; [apply part_le_digest|]. }
  eapply part_le_mono; [apply (part_le_cat 7106)|].
  - rewrite !Forall_app. split_and!; [part_bounds|by apply Hds|part_bounds|by apply Hds|].
    apply Forall_cons. split.
    { unfold GenerationSpec.encode_descriptor. destruct (GenerationSpec.descriptor_platform s) as [p|] eqn:Hp.
      - cbn [cat put_u8]. intros b (y & (z & Hz & (? & [= <-] & ->)%fmap_ok)%bind_ok & ->)%fmap_ok.
        apply part_le_platform in Hz; [|by apply Hdp]. rewrite !len_app, len_cons, !len_nil. lia.
      - intros b [= <-]. rewrite len_cons, len_nil. lia. }
    apply Forall_cons. split; [by eapply part_le_mono; [apply part_le_platform|]|].
    apply Forall_cons. split; [by eapply part_le_mono; [apply part_le_platform|]|]. part_bounds.
  - rewrite !len_app. unfold len in *. rewrite !length_fmap. simpl. unfold MAX_LAYERS in Hlen. lia.
Qed.

(** ** Identities commit to what they name *)
Section binding.
Context {sha : Sha2}.

Lemma hash_binds {A} c c' (p : parser A) (d : bytes) a a' e e' :
  sound c p a → sound c' p a' → c = Ok e → c' = Ok e' → (len e < 2^63)%N →
  sha256_digest (d ++ e) = sha256_digest (d ++ e') → a = a' ∨ collides (d ++ e) (d ++ e').
Proof.
  intros Ha Ha' -> -> Hl Hh. destruct (decide (d ++ e = d ++ e')) as [Heq|]; [left|by right].
  apply (inj (app d)) in Heq as <-. by eapply sound_inj.
Qed.

(** What is hashed, behind its domain. *)
Definition encoded (c : sresult bytes) : bytes := match c with Ok b => b | _ => [] end.
Definition derivation_preimage (s : GenerationSpec.t) : bytes :=
  domain ["pocket-generation-derivation"; "v1"] ++ encoded (GenerationSpec.encode s).

Record outputs : Set := generation_outputs {
  key : Digest;
  base_digest : Digest;
  base_size : N;
  sidecars : list ImmutableSidecar.t;
}.
Definition encode_outputs (o : outputs) : sresult bytes :=
  cat ([Ok (key o); Ok (base_digest o); put_u64 (base_size o); put_count (len (sidecars o))]
       ++ (ImmutableSidecar.encode <$> sidecars o)).
Definition decode_outputs : parser outputs :=
  key ← read_derivation_key; base_digest ← read_digest; base_size ← Reader.u64; count ← Reader.u16;
  sidecars ← read_many (N.to_nat count) ImmutableSidecar.decode;
  mret (generation_outputs key base_digest base_size sidecars).
Definition outputs_ok (o : outputs) : Prop :=
  is_digest (key o) ∧ is_digest (base_digest o) ∧ (base_size o < u64_bound)%N ∧
  Forall sidecar_ok (sidecars o) ∧ (len (sidecars o) ≤ MAX_GENERATION_SIDECARS)%N ∧
  strictly_sorted_by ImmutableSidecar.name (sidecars o).
Definition outputs_preimage (o : outputs) : bytes :=
  domain ["pocket-final-generation-identity"; "v1"] ++ encoded (encode_outputs o).

Lemma sound_outputs o : outputs_ok o → sound (encode_outputs o) decode_outputs o.
Proof.
  intros (Hk & Hb & Hs & Hl & Hc & _).
  assert (len (sidecars o) < u16_bound)%N by (unfold MAX_GENERATION_SIDECARS, u16_bound in *; lia).
  unfold encode_outputs, decode_outputs. rewrite <- app_comm_cons.
  part (key o). part (base_digest o). part (base_size o). part (len (sidecars o)).
  unfold len. rewrite Nat2N.id, <- (app_nil_r (ImmutableSidecar.encode <$> _)).
  eapply sound_app; [apply sound_many; intros a Ha|].
  - rewrite Forall_forall in Hl. by apply sound_sidecar, Hl.
  - destruct o. apply sound_ret.
Qed.

Lemma part_le_outputs o : outputs_ok o → part_le 65536 (encode_outputs o).
Proof.
  intros (Hk & Hb & _ & Hl & Hc & _). unfold encode_outputs. eapply part_le_mono; [apply (part_le_cat 600)|].
  - rewrite Forall_app. split.
    + part_bounds. intros b. unfold put_u64. rewrite ok_inj. intros <-. by rewrite len_to_be.
    + rewrite Forall_fmap. eapply Forall_impl; [done|]. intros s (Hn & Hd & _). unfold ImmutableSidecar.encode.
      eapply part_le_mono; [apply (part_le_cat 132)|done].
      apply Forall_cons. split; [apply (part_le_text 128), Hn|]. part_bounds.
      intros b. unfold put_u64. rewrite ok_inj. intros <-. by rewrite len_to_be.
  - rewrite len_app. unfold len in *. rewrite length_fmap. simpl. unfold MAX_GENERATION_SIDECARS in Hc. lia.
Qed.

Lemma derivation_key_preimage s :
  spec_ok s → GenerationSpec.derivation_key s = Ok (sha256_digest (derivation_preimage s)).
Proof.
  intros Hs. destruct (sound_spec s Hs) as (e & He & _). unfold GenerationSpec.derivation_key, derivation_preimage.
  simpl. rewrite He. simpl. by rewrite app_nil_r.
Qed.

Lemma derive_preimage o :
  outputs_ok o →
  GenerationId.derive (key o) (base_digest o) (base_size o) (sidecars o)
  = Ok (sha256_digest (outputs_preimage o)).
Proof.
  intros Ho. destruct (sound_outputs o Ho) as (e & He & _).
  unfold GenerationId.derive, outputs_preimage. destruct Ho as (_ & _ & _ & _ & Hc & Hs).
  rewrite (proj2 (validate_canonical_sidecars_Ok _) (conj Hc Hs)). rsimpl.
  change ([?a; ?b; ?c; ?d; ?f] ++ ?l) with (a :: [b; c; d; f] ++ l).
  cbn [cat]. fold (encode_outputs o). rewrite He. done.
Qed.

(** Equal identifiers come from the same inputs and outputs, or two of the encodings collide. *)
Lemma identity_binds s s' o o' :
  spec_ok s → spec_ok s' → outputs_ok o → outputs_ok o' →
  GenerationSpec.derivation_key s = Ok (key o) → GenerationSpec.derivation_key s' = Ok (key o') →
  GenerationId.derive (key o) (base_digest o) (base_size o) (sidecars o)
  = GenerationId.derive (key o') (base_digest o') (base_size o') (sidecars o') →
  (s = s' ∧ o = o') ∨ collides (derivation_preimage s) (derivation_preimage s') ∨
  collides (outputs_preimage o) (outputs_preimage o').
Proof.
  intros Hs Hs' Ho Ho' Hk Hk' Hid. rewrite derivation_key_preimage in Hk, Hk' by done.
  rewrite !derive_preimage in Hid by done. rewrite ok_inj in Hk, Hk', Hid.
  pose proof (sound_outputs o Ho) as So. pose proof (sound_outputs o' Ho') as So'.
  pose proof (sound_spec s Hs) as Ss. pose proof (sound_spec s' Hs') as Ss'.
  pose proof (part_le_outputs o Ho) as Lo. pose proof (part_le_spec s Hs) as Ls.
  unfold outputs_preimage, derivation_preimage in *.
  destruct So as (e & He & Pe), So' as (e' & He' & Pe'), Ss as (f & Hf & Pf), Ss' as (f' & Hf' & Pf').
  specialize (Lo _ He). specialize (Ls _ Hf). rewrite He, He', Hf, Hf' in *. cbn [encoded] in *.
  assert (∀ A (p : parser A) b a, parses p b a → sound (Ok b) p a) as Hsnd by (intros; by eexists).
  destruct (hash_binds _ _ _ _ _ _ _ _ (Hsnd _ _ _ _ Pe) (Hsnd _ _ _ _ Pe') eq_refl eq_refl ltac:(lia) Hid)
    as [<-|]; [|by right; right].
  assert (sha256_digest (domain ["pocket-generation-derivation"; "v1"] ++ f)
          = sha256_digest (domain ["pocket-generation-derivation"; "v1"] ++ f')) as Hd by congruence.
  destruct (hash_binds _ _ _ _ _ _ _ _ (Hsnd _ _ _ _ Pf) (Hsnd _ _ _ _ Pf') eq_refl eq_refl ltac:(lia) Hd)
    as [<-|]; [by left|by right; left].
Qed.

(** What a generation of this base image is identified by *)
Definition outputs_of (key : Digest) (image : bytes) (l : list ImmutableSidecar.t) : outputs :=
  generation_outputs key (sha256_digest image) (len image) l.
Definition sidecars_ok (l : list ImmutableSidecar.t) : Prop :=
  Forall sidecar_ok l ∧ (len l ≤ MAX_GENERATION_SIDECARS)%N ∧ strictly_sorted_by ImmutableSidecar.name l.

Context {sha_laws : Sha2Laws}.

Lemma outputs_of_ok key image l :
  is_digest key → (len image < u64_bound)%N → sidecars_ok l → outputs_ok (outputs_of key image l).
Proof. intros ? ? (? & ? & ?). split_and!; [done|apply sha256_length|done..]. Qed.

(** C31: a generation identifier commits to everything it stands for.  For two valid
    specifications, two base images of less than 2^64 bytes and two valid lists of
    sidecars, both derivation keys
    and both identifiers exist.  If the identifiers are equal then the specifications
    (image, layers, platforms and contracts), the bytes of the base images, and the names,
    digests and sizes of the sidecars are equal, or the two strings that were hashed for
    the keys, the two that were hashed for the identifiers, or the two base images are
    different with the same SHA-256 digest. *)
Theorem generation_identity_binds s s' image image' l l' :
  spec_ok s → spec_ok s' → (len image < u64_bound)%N → (len image' < u64_bound)%N → sidecars_ok l → sidecars_ok l' →
  ∃ key key' id id',
    GenerationSpec.derivation_key s = Ok key ∧ GenerationSpec.derivation_key s' = Ok key' ∧
    GenerationId.derive key (sha256_digest image) (len image) l = Ok id ∧
    GenerationId.derive key' (sha256_digest image') (len image') l' = Ok id' ∧
    (id = id' →
     (s = s' ∧ image = image' ∧ l = l') ∨
     collides (derivation_preimage s) (derivation_preimage s') ∨
     collides (outputs_preimage (outputs_of key image l)) (outputs_preimage (outputs_of key' image' l')) ∨
     collides image image').
Proof.
  intros Hs Hs' Hi Hi' Hl Hl'.
  assert (∀ t, spec_ok t → is_digest (sha256_digest (derivation_preimage t))) as Hkey by (intros; apply sha256_length).
  pose proof (outputs_of_ok _ image l (Hkey s Hs) Hi Hl) as Ho. pose proof (outputs_of_ok _ image' l' (Hkey s' Hs') Hi' Hl') as Ho'.
  pose proof (derive_preimage _ Ho) as Hd. pose proof (derive_preimage _ Ho') as Hd'.
  do 4 eexists. split; [by apply derivation_key_preimage|]. split; [by apply derivation_key_preimage|].
  split; [exact Hd|]. split; [exact Hd'|]. intros Hid.
  destruct (identity_binds s s' _ _ Hs Hs' Ho Ho' (derivation_key_preimage s Hs) (derivation_key_preimage s' Hs')) as [[<- Heq]|[?|?]];
    [by rewrite Hd, Hd', Hid| |by right; left|by right; right; left].
  injection Heq as Hdig _ <-. destruct (same_digest _ _ Hdig) as [<-|?]; [by left|by right; right; right].
Qed.
End binding.

(** ** The effective platform *)

(** Two optional values agree where both are given, and the third is whichever is. *)
Definition reconciled (descriptor config effective : option bytes) : Prop :=
  (∀ a b, descriptor = Some a → config = Some b → a = b) ∧
  effective = match descriptor with Some a => Some a | None => config end.

Lemma merged_Ok f d c e : merged_optional_platform_field f d c = Ok e ↔ reconciled d c e.
Proof.
  unfold merged_optional_platform_field, reconciled, invalid_input.
  destruct d as [a|], c as [b|]; [case_decide|..]; naive_solver.
Qed.

Definition descriptor_features (d : option Platform.t) : list bytes :=
  match d with Some d => Platform.os_features d | None => [] end.

Lemma platform_contract_Ok d c e :
  validate_platform_contract d c e = Ok () ↔
  Platform.os e = Platform.os c ∧ Platform.architecture e = Platform.architecture c ∧
  (∀ p, d = Some p → Platform.os p = Platform.os c ∧ Platform.architecture p = Platform.architecture c) ∧
  reconciled (d ≫= Platform.variant) (Platform.variant c) (Platform.variant e) ∧
  reconciled (d ≫= Platform.os_version) (Platform.os_version c) (Platform.os_version e) ∧
  (descriptor_features d = [] ∨ Platform.os_features c = [] ∨ Platform.os_features c = descriptor_features d) ∧
  Platform.os_features e = (if decide (descriptor_features d = []) then Platform.os_features c
                            else descriptor_features d).
Proof.
  unfold validate_platform_contract, invalid_input. fold (descriptor_features d). cbv zeta.
  rewrite !guard_ok, bind_ok. setoid_rewrite guard_ok. setoid_rewrite bind_ok. setoid_rewrite guard_ok.
  setoid_rewrite bind_ok. setoid_rewrite guard_ok. setoid_rewrite merged_Ok.
  assert (¬ is_some_and (λ d, Platform.os d ≠ Platform.os c ∨ Platform.architecture d ≠ Platform.architecture c) d ↔
          ∀ p, d = Some p → Platform.os p = Platform.os c ∧ Platform.architecture p = Platform.architecture c) as ->.
  { destruct d as [p|]; simpl; [|naive_solver]. split.
    - intros Hn q [= <-]. split; apply dec_stable; tauto.
    - intros Hall. destruct (Hall p eq_refl). tauto. }
  split.
  - intros (Ho%dec_stable & Ha%dec_stable & Hp & v & Hv & He%dec_stable & w & Hw & Hew%dec_stable & fs & Hf & Hef & _).
    apply dec_stable in Hef. subst. split_and!; try done; destruct (decide (descriptor_features d = [])) as [Hd|Hd].
    + by left.
    + right. case_decide; [done|done].
    + by injection Hf as <-.
    + case_decide; [by injection Hf as <-|done].
  - intros (Ho & Ha & Hp & Hv & Hw & Hd & Hf). split_and!; [intros []; congruence|intros []; congruence|done|].
    exists (Platform.variant e). split; [done|]. split; [tauto|]. exists (Platform.os_version e).
    split; [done|]. split; [tauto|]. exists (Platform.os_features e). rewrite Hf.
    destruct (decide (descriptor_features d = [])) as [|Hne]; [tauto|]. rewrite decide_True by tauto. tauto.
Qed.

(** A generation records one effective platform.  [GenerationSpec::new]
    accepts a selection exactly when the platform it is filed under is the one its
    descriptor and its configuration determine together: they agree on operating
    system and architecture and on every optional field both give, and the effective
    platform takes each optional field from whichever gives it. *)
Theorem effective_platform_exact d c e :
  validate_platform_contract d c e = Ok () ↔
  Platform.os e = Platform.os c ∧ Platform.architecture e = Platform.architecture c ∧
  (∀ p, d = Some p → Platform.os p = Platform.os c ∧ Platform.architecture p = Platform.architecture c) ∧
  reconciled (d ≫= Platform.variant) (Platform.variant c) (Platform.variant e) ∧
  reconciled (d ≫= Platform.os_version) (Platform.os_version c) (Platform.os_version e) ∧
  (descriptor_features d = [] ∨ Platform.os_features c = [] ∨ Platform.os_features c = descriptor_features d) ∧
  Platform.os_features e = (if decide (descriptor_features d = []) then Platform.os_features c
                            else descriptor_features d).
Proof. apply platform_contract_Ok. Qed.

(** Names are canonical.  A digest, and each kind of identifier, parses from
    exactly the one text it prints as: the prefix and 64 lower-case hexadecimal
    digits. *)
Theorem identifier_text_exact `{HexLaws} prefix value d :
  (digest_from_str value = Ok d ↔ value = digest_to_string d ∧ is_digest d) ∧
  (parse_filename prefix value = Some d ↔ value = id_to_string prefix d ∧ is_digest d).
Proof. split; [apply digest_from_str_Ok|apply parse_filename_Some]. Qed.

(** A platform does not depend on the order in which its features were
    listed: permuting them gives the same platform or the same refusal. *)
Theorem platform_features_canonical os arch variant version features features' p :
  features ≡ₚ features' →
  Platform.new os arch variant version features = Ok p ↔
  Platform.new os arch variant version features' = Ok p.
Proof.
  intros Hp. rewrite !platform_new_Ok.
  assert (∀ l k : list bytes, l ≡ₚ k → StronglySorted bytes_lt (sort l) → sort k = sort l) as Hs.
  { intros l k Hlk Hl. symmetry. apply (strictly_sorted_unique id).
    - unfold strictly_sorted_by. by rewrite list_fmap_id.
    - apply sort_by_sorted.
    - unfold sort. by rewrite !sort_by_perm. }
  assert (len features' = len features) as Hl by (unfold len; by rewrite Hp).
  assert (Forall identifier_ok features ↔ Forall identifier_ok features') as Hf by by rewrite Hp.
  rewrite Hl, Hf. split; intros (-> & ? & ? & ? & ? & ? & ? & Hsort).
  - rewrite (Hs _ _ Hp Hsort). by split_and!.
  - assert (sort features = sort features') as -> by (by apply Hs; [symmetry|]). by split_and!.
Qed.

Lemma platform_new_ok os arch variant version features p :
  Platform.new os arch variant version features = Ok p → (∀ v, version = Some v → valid_utf8 v) → platform_ok p.
Proof.
  intros (-> & ? & ? & ? & Hv & ? & Hf & ?)%platform_new_Ok Hu. unfold platform_ok. simpl.
  split_and!; try done; [by intros v Hver; split; [apply Hv|apply Hu]|..].
  - unfold len, sort in *. by rewrite sort_by_perm.
  - unfold sort. by rewrite sort_by_perm.
Qed.

(** ** A generation of one layer *)
Module SampleGeneration.
#[local] Existing Instances SampleHex.sample_hex SampleHex.sample_hex_laws.
#[local] Existing Instances SampleHash.sample_sha2 SampleHash.sample_sha2_laws.
Definition sample_platform : Platform.t :=
  Platform.platform (bs "linux") (bs "amd64") (Some (bs "v1")) None [bs "sse2"; bs "sse4"].

Lemma sample_platform_ok : platform_ok sample_platform.
Proof.
  apply (platform_new_ok (bs "linux") (bs "amd64") (Some (bs "v1")) None [bs "sse4"; bs "sse2"]);
    [by vm_compute|done].
Qed.

Definition digest (b : byte) : Digest := replicate 32 b.
Definition sample_spec : GenerationSpec.t :=
  GenerationSpec.generation_spec (digest x01) (digest x02) [digest x03] [digest x04] None sample_platform
    sample_platform (bs "oci-selector-v1") (bs "x86_64-smp-p4k") (digest x05) (bs "rootfs-dir-v1")
    (bs "ext4-v1-b4096") (digest x06).

Lemma sample_spec_ok : spec_ok sample_spec.
Proof.
  split_and!; [done|done|by repeat constructor|by repeat constructor|done|apply sample_platform_ok
              |apply sample_platform_ok|done|done|by vm_compute].
Qed.

Definition sample_outputs : outputs :=
  generation_outputs (sha256_digest (derivation_preimage sample_spec))
    (digest x07) 4096 [ImmutableSidecar.immutable_sidecar (bs "image-config.json") (digest x08) 10].

Lemma sample_outputs_ok : outputs_ok sample_outputs.
Proof.
  split_and!; [by vm_compute|done|done| |done|repeat constructor].
  constructor; [|constructor]. split_and!; [|done|done]. apply (validate_sidecar_name_Ok _ (bs "image-config.json")).
  by vm_compute.
Qed.

(** Another image with the same layers; the sample hash does not look far enough to tell them apart. *)
Definition other_spec : GenerationSpec.t :=
  GenerationSpec.generation_spec (digest x01) (digest x09) [digest x03] [digest x04] None sample_platform
    sample_platform (bs "oci-selector-v1") (bs "x86_64-smp-p4k") (digest x05) (bs "rootfs-dir-v1")
    (bs "ext4-v1-b4096") (digest x06).

Lemma other_spec_ok : spec_ok other_spec.
Proof.
  split_and!; [done|done|by repeat constructor|by repeat constructor|done|apply sample_platform_ok
              |apply sample_platform_ok|done|done|by vm_compute].
Qed.

Lemma generation_identity_binds_witness :
  ∃ key key' id, GenerationSpec.derivation_key sample_spec = Ok key ∧ GenerationSpec.derivation_key other_spec = Ok key' ∧
    GenerationId.derive key (sha256_digest (bs "ext4")) 4 (sidecars sample_outputs) = Ok id ∧
    GenerationId.derive key' (sha256_digest (bs "EXT4")) 4 [] = Ok id ∧
    (collides (derivation_preimage sample_spec) (derivation_preimage other_spec) ∨
     collides (outputs_preimage (outputs_of key (bs "ext4") (sidecars sample_outputs)))
       (outputs_preimage (outputs_of key' (bs "EXT4") [])) ∨
     collides (bs "ext4") (bs "EXT4")).
Proof.
  destruct (generation_identity_binds sample_spec other_spec (bs "ext4") (bs "EXT4") (sidecars sample_outputs) [])
    as (key & key' & id & id' & Hk & Hk' & Hid & Hid' & Hbinds);
    [apply sample_spec_ok|apply other_spec_ok|vm_compute; reflexivity..| | |].
  { destruct sample_outputs_ok as (_ & _ & _ & H1 & H2 & H3). exact (conj H1 (conj H2 H3)). }
  { split; [constructor|]. split; [vm_compute; discriminate|constructor]. }
  assert (key = key') as <-.
  { enough (Ok (E:=StoreError.t) key = Ok key') as [= ->] by reflexivity. rewrite <- Hk, <- Hk'. vm_compute. reflexivity. }
  assert (id = id') as <-.
  { vm_compute in Hk. injection Hk as <-. enough (Ok (E:=StoreError.t) id = Ok id') as [= ->] by reflexivity.
    rewrite <- Hid, <- Hid'. vm_compute. reflexivity. }
  exists key, key, id. split; [exact Hk|]. split; [exact Hk'|]. split; [exact Hid|]. split; [exact Hid'|].
  destruct (Hbinds eq_refl) as [[Heq _]|H]; [discriminate Heq|exact H].
Defined.

Lemma identifier_text_exact_witness :
  digest_from_str (digest_to_string (digest xab)) = Ok (digest xab) ∧
  parse_filename GENERATION_PREFIX (id_to_string GENERATION_PREFIX (digest xab)) = Some (digest xab).
Proof.
  split; apply (identifier_text_exact GENERATION_PREFIX); split; reflexivity.
Defined.

Lemma platform_features_canonical_witness :
  Platform.new (bs "linux") (bs "amd64") (Some (bs "v1")) None [bs "sse2"; bs "sse4"] = Ok sample_platform.
Proof.
  apply (platform_features_canonical _ _ _ _ [bs "sse4"; bs "sse2"] [bs "sse2"; bs "sse4"]);
    [constructor|by vm_compute].
Defined.
End SampleGeneration.
