(* ===== verification/StoreRecords.v ===== *)
(** * The records of the image store: crates/pocket-store/src/store.rs

    Every metadata file: generation manifests, staging marks, aliases, retained
    overlays, derivation lookups, named instances, lock and lease files, with their
    encoders, decoders and file names. *)

From S2P Require Import Prelude RustStr Utf8 ByteOrder ManagedPath ProtocolError Sha256 StoreCodec HexText StoreIdentity.

#[local] Arguments to_be : simpl never.
#[local] Arguments bs : simpl never.
#[local] Arguments len : simpl never.

Definition STORE_MAGIC : bytes := bs "PKVMSTR2".
Definition GENERATION_MAGIC : bytes := bs "PKVMGEN2".
Definition STAGING_MAGIC : bytes := bs "PKVMSTG2".
Definition DERIVATION_MAGIC : bytes := bs "PKVMDER2".
Definition ALIAS_MAGIC : bytes := bs "PKVMALS2".
Definition LEASE_MAGIC : bytes := bs "PKVMLES2".
Definition RETAINED_MAGIC : bytes := bs "PKVMRET2".
Definition INSTANCE_MAGIC : bytes := bs "PKVMINS2".
Definition LOCK_MAGIC : bytes := bs "PKVMLCK2".

Definition MAX_INSTANCE_NAME_BYTES : N := 64.
Definition MAX_INSTANCE_COMMAND_BYTES : N := 4096.
Definition MAX_INSTANCE_ARGV : N := 1024.

Definition read_generation_id : parser Digest := Reader.take_array 32 "invalid generation ID".
Definition read_alias_id : parser Digest := Reader.take_array 32 "invalid alias ID".
Definition read_retained_id : parser Digest := Reader.take_array 32 "invalid retained-COW ID".

(** [result.map_err(|error| contextualize(error, kind, path))] *)
Definition in_file {A} (kind : MetadataKind.t) (path : bytes) (r : sresult A) : sresult A :=
  map_err (λ e, contextualize e kind path) r.

(** [if encode() != bytes { return Err(..) }] *)
Definition canonical (encode : sresult bytes) (b : bytes) (kind : MetadataKind.t) (path : bytes) (reason : string)
    : sresult () :=
  e ← encode; if decide (e ≠ b) then metadata kind path (bs reason) else Ok ().

(** ** Generations *)
Module GenerationManifest.
Record t : Set := generation_manifest {
  id : Digest;
  derivation_key : Digest;
  spec : GenerationSpec.t;
  base_digest : Digest;
  base_size : N;
  sidecars : list ImmutableSidecar.t;
}.
#[global] Instance eq_dec : EqDecision t.
Proof. solve_decision. Defined.

Section codec.
Context {sha : Sha2}.

Definition recompute_id (self : t) : sresult Digest :=
  GenerationId.derive (derivation_key self) (base_digest self) (base_size self) (sidecars self).

Definition fields (self : t) : list (sresult bytes) :=
  [Ok (id self); Ok (derivation_key self); GenerationSpec.encode (spec self); Ok (base_digest self);
   put_u64 (base_size self); put_count (len (sidecars self))] ++ (ImmutableSidecar.encode <$> sidecars self).

Definition encode (self : t) : sresult bytes :=
  finish_record <$> cat (start_record GENERATION_MAGIC :: fields self).

Definition read_fields (path : bytes) : parser t :=
  id ← read_generation_id;
  derivation_key ← read_derivation_key;
  spec ← GenerationSpec.decode;
  base_digest ← read_digest;
  base_size ← Reader.u64;
  sidecar_count ← Reader.u16;
  if decide (MAX_GENERATION_SIDECARS < sidecar_count)%N
  then lift (metadata MetadataKind.Generation path (bs "too many immutable sidecars")) else
  sidecars ← read_many (N.to_nat sidecar_count) ImmutableSidecar.decode;
  mret (generation_manifest id derivation_key spec base_digest base_size sidecars).

Definition check (b path : bytes) (manifest : t) : sresult t :=
  validate_canonical_sidecars (sidecars manifest);;
  key ← GenerationSpec.derivation_key (spec manifest);
  if decide (key ≠ derivation_key manifest)
  then metadata MetadataKind.Generation path (bs "derivation key does not match canonical immutable inputs") else
  found ← recompute_id manifest;
  if decide (found ≠ id manifest)
  then metadata MetadataKind.Generation path (bs "generation ID does not match completed immutable outputs") else
  canonical (encode manifest) b MetadataKind.Generation path "record is not in canonical encoding";;
  Ok manifest.

Definition decode (b path : bytes) : sresult t :=
  in_file MetadataKind.Generation path
    (run_record b GENERATION_MAGIC MetadataKind.Generation (read_fields path) (check b path)).
End codec.
End GenerationManifest.

Module StagingRecord.
Record t : Set := staging_record { derivation_key : Digest }.

Section codec.
Context {sha : Sha2}.

Definition encode (self : t) : sresult bytes :=
  finish_record <$> cat [start_record STAGING_MAGIC; Ok (derivation_key self)].

Definition read_fields : parser t := key ← read_derivation_key; mret (staging_record key).

Definition check (b path : bytes) (record : t) : sresult t :=
  canonical (encode record) b MetadataKind.Staging path "record is not in canonical encoding";; Ok record.

Definition decode (b path : bytes) : sresult t :=
  in_file MetadataKind.Staging path (run_record b STAGING_MAGIC MetadataKind.Staging read_fields (check b path)).
End codec.
End StagingRecord.

(** ** Roots: aliases and retained overlays *)
Module AliasRecord.
Record t : Set := alias_record { id : Digest; key : AliasKey.t; generation_id : Digest }.

Section codec.
Context {sha : Sha2}.

Definition new (key : AliasKey.t) (generation_id : Digest) : sresult t :=
  id ← AliasKey.id key; Ok (alias_record id key generation_id).

Definition encode (self : t) : sresult bytes :=
  finish_record <$>
    cat [start_record ALIAS_MAGIC; Ok (id self); AliasKey.encode (key self); Ok (generation_id self)].

Definition read_fields : parser t :=
  id ← read_alias_id; key ← AliasKey.decode; generation_id ← read_generation_id;
  mret (alias_record id key generation_id).

Definition check (b path : bytes) (record : t) : sresult t :=
  found ← AliasKey.id (key record);
  if decide (found ≠ id record)
  then metadata MetadataKind.Alias path (bs "alias ID or encoding is not canonical") else
  canonical (encode record) b MetadataKind.Alias path "alias ID or encoding is not canonical";;
  Ok record.

Definition decode (b path : bytes) : sresult t :=
  in_file MetadataKind.Alias path (run_record b ALIAS_MAGIC MetadataKind.Alias read_fields (check b path)).
End codec.
End AliasRecord.

(** [Display] of [ManagedUmlPathError]; the [{:?}] of a character is of one of the
    three reserved ones. *)
Definition path_error_text (e : ManagedUmlPath.ManagedUmlPathError) : bytes :=
  match e with
  | ManagedUmlPath.NotAbsolute => bs "managed UML path must be absolute"
  | ManagedUmlPath.NotUtf8 => bs "managed UML path must be valid UTF-8"
  | ManagedUmlPath.ContainsWhitespace => bs "managed UML path contains whitespace"
  | ManagedUmlPath.ContainsReservedCharacter c =>
      bs "managed UML path contains reserved character " ++
      (if decide (c = 44%N) then bs "','" else if decide (c = 58%N) then bs "':'" else bs "'\0'")
  | ManagedUmlPath.NotNormalized => bs "managed UML path is not in normalized lexical form"
  | ManagedUmlPath.TooBroad components minimum =>
      bs "managed UML path has only " ++ to_decimal components ++ bs " components; at least "
        ++ to_decimal minimum ++ bs " are required"
  | ManagedUmlPath.TooLong actual maximum =>
      bs "managed UML path is " ++ to_decimal actual ++ bs " bytes; maximum is " ++ to_decimal maximum
  end.

Module RetainedCow.
Record t : Set := retained_cow {
  id : Digest;
  generation_id : Digest;
  cow_path : bytes;
  cow_digest : Digest;
  cow_size : N;
  state : RetainedCowState.t;
}.
#[global] Instance eq_dec : EqDecision t.
Proof. solve_decision. Defined.

Section codec.
Context {sha : Sha2}.

Definition derive_id (generation_id : Digest) (cow_path : bytes) (cow_digest : Digest) (cow_size : N)
    (state : RetainedCowState.t) : sresult Digest :=
  b ← cat [Ok (domain ["pocket-retained-cow-identity"; "v1"]); Ok generation_id; put_text cow_path;
           Ok cow_digest; put_u64 cow_size; put_u8 (RetainedCowState.encode state)];
  Ok (sha256_digest b).

Definition encode (self : t) : sresult bytes :=
  finish_record <$>
    cat [start_record RETAINED_MAGIC; Ok (id self); Ok (generation_id self); put_text (cow_path self);
         Ok (cow_digest self); put_u64 (cow_size self); put_u8 (RetainedCowState.encode (state self))].

Definition read_fields (path : bytes) : parser t :=
  id ← read_retained_id;
  generation_id ← read_generation_id;
  cow_text ← Reader.text ManagedUmlPath.MAX_MANAGED_UML_PATH_BYTES;
  cow_path ← lift (match ManagedUmlPath.new cow_text with
                   | Ok p => Ok (ManagedUmlPath.path_buf p)
                   | Err e => metadata MetadataKind.RetainedCow path (path_error_text e)
                   | Panic => Panic
                   end);
  cow_digest ← read_digest;
  cow_size ← Reader.u64;
  tag ← Reader.u8;
  state ← lift (RetainedCowState.decode tag);
  mret (retained_cow id generation_id cow_path cow_digest cow_size state).

Definition check (b path : bytes) (retained : t) : sresult t :=
  found ← derive_id (generation_id retained) (cow_path retained) (cow_digest retained) (cow_size retained)
            (state retained);
  if decide (found ≠ id retained)
  then metadata MetadataKind.RetainedCow path (bs "retained-COW ID does not match canonical record") else
  canonical (encode retained) b MetadataKind.RetainedCow path "record is not in canonical encoding";;
  Ok retained.

Definition decode (b path : bytes) : sresult t :=
  in_file MetadataKind.RetainedCow path
    (run_record b RETAINED_MAGIC MetadataKind.RetainedCow (read_fields path) (check b path)).
End codec.
End RetainedCow.

(** ** The lookup from inputs to outputs *)

(** [binary_search] in a strictly sorted list: the position of the element, or the
    one where it belongs. *)
Definition position (id : Digest) (l : list Digest) : nat :=
  length (filter (λ other, bytes_lt other id) l).

Module DerivationRecord.
Record t : Set := derivation_record {
  derivation_key : Digest;
  winner : Digest;
  alternatives : list Digest;
}.

Definition new (derivation_key winner : Digest) : t := derivation_record derivation_key winner [].

Definition insert (self : t) (generation_id : Digest) : t :=
  if decide (generation_id = winner self ∨ generation_id ∈ alternatives self) then self else
  let at_ := position generation_id (alternatives self) in
  derivation_record (derivation_key self) (winner self)
    (take at_ (alternatives self) ++ generation_id :: drop at_ (alternatives self)).

(** The record after the removal, and whether one remains. *)
Definition remove (self : t) (generation_id : Digest) : t * bool :=
  if decide (generation_id = winner self) then
    match alternatives self with
    | [] => (self, false)
    | first :: rest => (derivation_record (derivation_key self) first rest, true)
    end
  else if decide (generation_id ∈ alternatives self) then
    (derivation_record (derivation_key self) (winner self)
       (delete (position generation_id (alternatives self)) (alternatives self)), true)
  else (self, true).

Definition ids (self : t) : list Digest := winner self :: alternatives self.

Definition validate (self : t) : sresult () :=
  if decide (u16_bound - 1 ≤ len (alternatives self))%N
  then metadata MetadataKind.Derivation MEMORY (bs "too many alternative generation IDs") else
  if decide (winner self ∈ alternatives self ∨ any_pair (λ a b, bytes_le b a) (alternatives self))
  then metadata MetadataKind.Derivation MEMORY (bs "alternative generation IDs are not canonical") else
  Ok ().

Section codec.
Context {sha : Sha2}.

Definition fields (self : t) : list (sresult bytes) :=
  [Ok (derivation_key self); Ok (winner self); put_count (len (alternatives self))]
  ++ (Ok <$> alternatives self).

Definition encode (self : t) : sresult bytes :=
  finish_record <$> cat (start_record DERIVATION_MAGIC :: fields self).

Definition read_fields : parser t :=
  key ← read_derivation_key; winner ← read_generation_id; count ← Reader.u16;
  alternatives ← read_many (N.to_nat count) read_generation_id;
  mret (derivation_record key winner alternatives).

Definition check (b path : bytes) (record : t) : sresult t :=
  validate record;;
  canonical (encode record) b MetadataKind.Derivation path "record is not in canonical encoding";;
  Ok record.

Definition decode (b path : bytes) : sresult t :=
  in_file MetadataKind.Derivation path
    (run_record b DERIVATION_MAGIC MetadataKind.Derivation read_fields (check b path)).
End codec.
End DerivationRecord.

(** ** Named instances *)
Module InstanceOutcome.
Inductive t : Set := Unknown | Exited (code : N) | Signalled (signal : N).
#[global] Instance eq_dec : EqDecision t.
Proof. solve_decision. Defined.

Definition encode (self : t) : N * N :=
  match self with
  | Unknown => (0, 0)
  | Exited code => (1, code)
  | Signalled signal => (2, signal)
  end%N.

Definition decode (tag value : N) : sresult t :=
  if decide (tag = 0%N) then Ok Unknown else
  if decide (tag = 1%N) then
    if decide (value < u8_bound)%N then Ok (Exited value)
    else metadata MetadataKind.Instance MEMORY (bs "exit code out of range") else
  if decide (tag = 2%N) then Ok (Signalled value) else
  metadata MetadataKind.Instance MEMORY (bs "invalid instance outcome " ++ to_decimal tag).
End InstanceOutcome.

Module Instance_.
Record t : Set := instance {
  id : Digest;
  name : bytes;
  generation_id : Digest;
  retained_id : Digest;
  image_reference : bytes;
  argv : list bytes;
  command : bytes;
  created_unix : N;
  finished_unix : N;
  outcome : InstanceOutcome.t;
}.

Section codec.
Context {sha : Sha2}.

Definition derive_id (name : bytes) : sresult Digest :=
  b ← cat [Ok (domain ["pocket-instance-identity"; "v1"]); put_text name];
  Ok (sha256_digest b).

Definition fields (self : t) : list (sresult bytes) :=
  [Ok (id self); put_text (name self); Ok (generation_id self); Ok (retained_id self);
   put_text (image_reference self); put_count (len (argv self))] ++ (put_text <$> argv self) ++
  [put_text (command self); put_u64 (created_unix self); put_u64 (finished_unix self);
   put_u8 (InstanceOutcome.encode (outcome self)).1; put_u16 (InstanceOutcome.encode (outcome self)).2].

Definition encode (self : t) : sresult bytes :=
  finish_record <$> cat (start_record INSTANCE_MAGIC :: fields self).

(** The outcome is decoded after [finish]; until then it is its tag and value. *)
Definition read_fields : parser ((InstanceOutcome.t → t) * (N * N)) :=
  id ← Reader.take_array 32 "invalid instance ID";
  name ← Reader.text MAX_INSTANCE_NAME_BYTES;
  generation_id ← Reader.take_array 32 "invalid generation ID";
  retained_id ← Reader.take_array 32 "invalid retained-COW ID";
  image_reference ← Reader.text MAX_INSTANCE_COMMAND_BYTES;
  argv_len ← Reader.u16;
  argv ← read_many (N.to_nat argv_len) (Reader.text MAX_INSTANCE_COMMAND_BYTES);
  command ← Reader.text MAX_INSTANCE_COMMAND_BYTES;
  created_unix ← Reader.u64;
  finished_unix ← Reader.u64;
  tag ← Reader.u8;
  value ← Reader.u16;
  mret (instance id name generation_id retained_id image_reference argv command created_unix finished_unix,
        (tag, value)).

Definition check (b path : bytes) (found : (InstanceOutcome.t → t) * (N * N)) : sresult t :=
  let '(build, (tag, value)) := found in
  outcome ← InstanceOutcome.decode tag value;
  let self := build outcome in
  derived ← derive_id (name self);
  if decide (derived ≠ id self)
  then metadata MetadataKind.Instance path (bs "instance ID does not match its name") else
  canonical (encode self) b MetadataKind.Instance path "instance record is not canonical";;
  Ok self.

Definition decode (b path : bytes) : sresult t :=
  in_file MetadataKind.Instance path
    (run_record b INSTANCE_MAGIC MetadataKind.Instance read_fields (check b path)).
End codec.
End Instance_.

Definition instance_name_byte (b : byte) : Prop := is_ascii_alphanumeric b ∨ b ∈ bs "-_.".
#[export] Instance instance_name_byte_dec b : Decision (instance_name_byte b).
Proof. unfold instance_name_byte. apply _. Defined.

Definition validate_instance_name (name : bytes) : sresult () :=
  if decide (name = [] ∨ (MAX_INSTANCE_NAME_BYTES < len name)%N)
  then metadata MetadataKind.Instance (bs "<name>")
         (bs "name must be 1 to " ++ to_decimal MAX_INSTANCE_NAME_BYTES ++ bs " bytes") else
  if decide (¬ Forall instance_name_byte name ∨ starts_with x2e name)
  then metadata MetadataKind.Instance (bs "<name>")
         (bs "name may use only letters, digits, '-', '_' and '.', and may not start with '.'") else
  Ok ().

(** ** Fixed records: the store header, locks and leases *)
Section fixed.
Context {sha : Sha2}.

Definition store_header : sresult bytes := finish_record <$> start_record STORE_MAGIC.

Definition lock_record (derivation_key : option Digest) : sresult bytes :=
  finish_record <$>
    cat (start_record LOCK_MAGIC ::
         match derivation_key with Some key => [put_u8 1; Ok key] | None => [put_u8 0] end).

Definition validate_lock_record (b : bytes) (expected_key : option Digest) (path : bytes) : sresult () :=
  in_file MetadataKind.Lock path
    (run_record b LOCK_MAGIC MetadataKind.Lock
       (tag ← Reader.u8;
        if decide (tag = 0%N) then mret None else
        if decide (tag = 1%N) then key ← read_derivation_key; mret (Some key) else
        lift (metadata MetadataKind.Lock path (bs "invalid lock kind " ++ to_decimal tag)))
       (λ actual_key,
        if decide (actual_key ≠ expected_key)
        then metadata MetadataKind.Lock path (bs "lock identity or encoding differs") else
        canonical (lock_record actual_key) b MetadataKind.Lock path "lock identity or encoding differs")).

Definition lease_record (id : Digest) : sresult bytes :=
  finish_record <$> cat [start_record LEASE_MAGIC; Ok id].

Definition validate_lease_record (b : bytes) (expected_id : Digest) (path : bytes) : sresult () :=
  in_file MetadataKind.Lease path
    (run_record b LEASE_MAGIC MetadataKind.Lease read_generation_id
       (λ actual_id,
        if decide (actual_id ≠ expected_id)
        then metadata MetadataKind.Lease path (bs "lease identity or encoding differs") else
        canonical (lease_record actual_id) b MetadataKind.Lease path "lease identity or encoding differs")).
End fixed.

(** ** File names *)
Definition GENERATION_TEMP_PREFIX : bytes := bs ".tmp-generation-".
Definition FIXED_TEMP_PREFIX : bytes := bs ".tmp-fixed-".

(** [str::strip_suffix] *)
Definition strip_suffix (suffix value : bytes) : option bytes :=
  reverse <$> strip_prefix (reverse suffix) (reverse value).

Section names.
Context {hex : Hex}.

Definition generation_name (id : Digest) : bytes := id_to_string GENERATION_PREFIX id.
Definition alias_filename (id : Digest) : bytes := id_to_string ALIAS_PREFIX id ++ bs ".meta".
Definition derivation_filename (key : Digest) : bytes := id_to_string DERIVATION_PREFIX key ++ bs ".meta".
Definition instance_filename (id : Digest) : bytes := id_to_string INSTANCE_PREFIX id ++ bs ".meta".
Definition instance_directory_name (id : Digest) : bytes := id_to_string INSTANCE_PREFIX id ++ bs ".d".
Definition retained_filename (id : Digest) : bytes := id_to_string RETAINED_PREFIX id ++ bs ".meta".
Definition derivation_lock_filename (key : Digest) : bytes := id_to_string DERIVATION_PREFIX key ++ bs ".lock".
Definition lease_filename (id : Digest) : bytes := id_to_string GENERATION_PREFIX id ++ bs ".lock".

Definition parse_alias_filename (value : bytes) : option Digest :=
  strip_suffix (bs ".meta") value ≫= parse_filename ALIAS_PREFIX.
Definition parse_retained_filename (value : bytes) : option Digest :=
  strip_suffix (bs ".meta") value ≫= parse_filename RETAINED_PREFIX.
Definition parse_instance_filename (value : bytes) : option Digest :=
  strip_suffix (bs ".meta") value ≫= parse_filename INSTANCE_PREFIX.

(** The slices are of a string of ASCII length 97 whose byte 64 is a hyphen. *)
Definition parse_staging_name (value : bytes) : option Digest :=
  value ← strip_prefix (bs "stage-") value;
  if decide (len value ≠ (64 + 1 + 32)%N ∨ value !! 64 ≠ Some x2d) then None else
  let id_hex := take 64 value in
  let suffix := drop 65 value in
  if decide (¬ Forall is_lower_hex (id_hex ++ suffix)) then None else
  parse_filename DERIVATION_PREFIX (bs "pkvm-der-v1-" ++ id_hex).

Definition parse_generation_temp_name (value : bytes) : option Digest :=
  strip_prefix GENERATION_TEMP_PREFIX value ≫= parse_staging_name.
End names.

(** [validate_alias_target]: may this alias point at that generation? *)
Definition validate_alias_target `{Hex} (key : AliasKey.t) (manifest : GenerationManifest.t) : sresult () :=
  let spec := GenerationManifest.spec manifest in
  let id := GenerationManifest.id manifest in
  if decide (GenerationSpec.profile_id spec ≠ AliasKey.profile_id key ∨
             GenerationSpec.profile_revision spec ≠ AliasKey.profile_revision key)
  then invalid_input "alias target"
         (bs "generation " ++ generation_name id ++ bs " belongs to " ++ GenerationSpec.profile_id spec ++ bs "@"
          ++ digest_to_string (GenerationSpec.profile_revision spec) ++ bs ", not " ++ AliasKey.profile_id key
          ++ bs "@" ++ digest_to_string (AliasKey.profile_revision key)) else
  if decide (GenerationSpec.selector_policy_id spec ≠ AliasKey.selector_policy_id key)
  then invalid_input "alias target"
         (bs "generation " ++ generation_name id ++ bs " uses selector policy "
          ++ GenerationSpec.selector_policy_id spec ++ bs ", not " ++ AliasKey.selector_policy_id key) else
  let requested := AliasKey.requested_platform key in
  let effective := GenerationSpec.effective_platform spec in
  if decide (Platform.os requested ≠ Platform.os effective ∨
             Platform.architecture requested ≠ Platform.architecture effective ∨
             is_some_and (λ variant, Platform.variant effective ≠ Some variant) (Platform.variant requested) ∨
             is_some_and (λ version, Platform.os_version effective ≠ Some version) (Platform.os_version requested) ∨
             (Platform.os_features requested ≠ [] ∧
              Platform.os_features requested ≠ Platform.os_features effective))
  then invalid_input "alias target"
         (bs "generation " ++ generation_name id
          ++ bs " effective platform is incompatible with the requested alias selector") else
  Ok ().

(** ** What decoders yield *)
Definition yields {A} (p : parser A) (P : A → Prop) : Prop := ∀ r a r', p r = Ok (a, r') → P a.

Lemma yields_bind {A B} (p : parser A) (k : A → parser B) P Q :
  yields p P → (∀ a, P a → yields (k a) Q) → yields (p ≫= k) Q.
Proof.
  intros Hp Hk r b r' H. rewrite bind_run in H. apply bind_ok in H as ([a r1] & Ha & H).
  by eapply Hk; [eapply Hp|].
Qed.
Lemma yields_ret {A} (a : A) (P : A → Prop) : P a → yields (mret a) P.
Proof. intros Ha r b r' [= <- _]. done. Qed.
Lemma yields_lift {A} (x : sresult A) (P : A → Prop) : (∀ a, x = Ok a → P a) → yields (lift x) P.
Proof. intros Hx r a r' (b & Hb & [= <- _])%fmap_ok. by apply Hx. Qed.
Lemma yields_any {A} (p : parser A) : yields p (λ _, True).
Proof. done. Qed.
Lemma yields_guard {A} (C : Prop) `{Decision C} (x : sresult A) (k : parser A) P :
  (∀ a, x ≠ Ok a) → (¬ C → yields k P) → yields (if decide C then lift x else k) P.
Proof. intros Hx Hk. case_decide; [|by apply Hk]. apply yields_lift. intros a Ha. by destruct (Hx a). Qed.

Lemma yields_array n reason : yields (Reader.take_array n reason) (λ b, len b = n).
Proof.
  eapply yields_bind; [apply yields_any|]. intros b _. apply yields_lift. intros a. case_decide; [|done].
  by intros [= <-].
Qed.
Lemma yields_digest_array reason : yields (Reader.take_array 32 reason) is_digest.
Proof. intros r a r' H. by apply digest_len, (yields_array 32 reason r a r'). Qed.

Lemma yields_be w reason :
  yields (b ← Reader.take_array (N.of_nat w) reason; mret (from_be b)) (λ n, n < 256 ^ N.of_nat w)%N.
Proof.
  eapply yields_bind; [apply yields_array|]. intros b Hb. apply yields_ret. rewrite <- Hb. apply from_be_bound.
Qed.
Lemma yields_u16 : yields Reader.u16 (λ n, n < u16_bound)%N.
Proof. apply (yields_be 2). Qed.
Lemma yields_u64 : yields Reader.u64 (λ n, n < u64_bound)%N.
Proof. apply (yields_be 8). Qed.

Lemma take_len n r b r' : Reader.take n r = Ok (b, r') → (len b ≤ n)%N.
Proof.
  unfold Reader.take, store_error, metadata. intros H. apply bind_ok in H as (e & _ & H). case_decide; [|done].
  injection H as <- _. unfold len. rewrite length_take. lia.
Qed.
Lemma yields_text maximum : yields (Reader.text maximum) (λ v, valid_utf8 v ∧ (len v ≤ maximum)%N).
Proof.
  eapply (yields_bind _ _ (λ v, len v ≤ maximum)%N).
  - eapply yields_bind; [apply yields_any|]. intros n _. apply yields_guard; [done|].
    intros Hn r a r' H. apply take_len in H. lia.
  - intros v Hv. apply yields_lift. intros a. case_decide; [|done]. by intros [= <-].
Qed.
Lemma yields_optional_text maximum :
  yields (Reader.optional_text maximum) (λ o, ∀ v, o = Some v → valid_utf8 v ∧ (len v ≤ maximum)%N).
Proof.
  eapply yields_bind; [apply yields_any|]. intros tag _. case_decide; [by apply yields_ret|].
  case_decide; [|by apply yields_lift]. eapply yields_bind; [apply yields_text|].
  intros v Hv. apply yields_ret. by intros ? [= <-].
Qed.
Lemma yields_many {A} n (p : parser A) P :
  yields p P → yields (read_many n p) (λ l, Forall P l ∧ length l = n).
Proof.
  intros Hp. induction n as [|n IH]; simpl; [by apply yields_ret|].
  eapply yields_bind; [done|]. intros a Ha. eapply yields_bind; [done|]. intros l [Hl Hn].
  apply yields_ret. split; [by constructor|simpl; by rewrite Hn].
Qed.

(** [yield x] goes past a step of a decoder whose result is irrelevant or known. *)
Create HintDb yields discriminated.
#[export] Hint Resolve yields_u16 yields_u64 yields_text yields_optional_text yields_digest_array : yields.
Ltac yield x := eapply yields_bind; [solve [eauto with yields]|]; intros x; cbv beta.

Lemma yields_platform : yields Platform.decode platform_ok.
Proof.
  unfold Platform.decode. yield os. intros _. yield arch. intros _. yield variant. intros _.
  yield version. intros Hver. yield count. intros _. apply yields_guard; [done|]. intros _.
  eapply yields_bind; [apply yields_any|]. intros features _. apply yields_lift. intros p Hp.
  eapply platform_new_ok; [done|]. intros v Hv. by apply Hver.
Qed.
#[export] Hint Resolve yields_platform : yields.

Lemma yields_digests n : yields (read_many n read_digest) (λ l, Forall is_digest l ∧ length l = n).
Proof. apply yields_many, yields_digest_array. Qed.
#[export] Hint Resolve yields_digests : yields.

Lemma yields_descriptor : yields GenerationSpec.decode_descriptor (λ o, ∀ p, o = Some p → platform_ok p).
Proof.
  unfold GenerationSpec.decode_descriptor. eapply yields_bind; [apply yields_any|]. intros tag _.
  case_decide; [by apply yields_ret|]. case_decide; [|by apply yields_lift].
  yield p. intros Hp. apply yields_ret. by intros ? [= <-].
Qed.
#[export] Hint Resolve yields_descriptor : yields.

Lemma yields_spec : yields GenerationSpec.decode spec_ok.
Proof.
  unfold GenerationSpec.decode, read_digest. yield a. intros Ha. yield b. intros Hb. yield n. intros _.
  apply yields_guard; [done|]. intros _. fold read_digest. yield layers. intros [Hl _]. yield m. intros _.
  apply yields_guard; [done|]. intros _. yield diffs. intros [Hd _]. unfold read_digest.
  yield dp. intros Hdp. yield cp. intros Hcp. yield ep. intros Hep. yield sel. intros _. yield pid. intros _.
  yield revision. intros Hrev. yield lay. intros _. yield fs. intros _. yield bc. intros Hbc.
  apply yields_lift. intros s Hs. pose proof Hs as (-> & _)%spec_new_Ok. by split_and!.
Qed.
#[export] Hint Resolve yields_spec : yields.

Lemma yields_sidecar : yields ImmutableSidecar.decode sidecar_ok.
Proof.
  unfold ImmutableSidecar.decode, read_digest. yield name. intros _. yield d. intros Hd. yield n. intros Hn.
  apply yields_lift. intros s. unfold ImmutableSidecar.new. intros (v & [-> Hv]%validate_sidecar_name_Ok & Hs)%bind_ok.
  by injection Hs as <-.
Qed.

Lemma yields_alias_key : yields AliasKey.decode alias_key_ok.
Proof.
  unfold AliasKey.decode, read_digest. yield pid. intros _. yield revision. intros Hrev. yield ref. intros [Href _].
  yield pl. intros Hpl. yield sel. intros _. apply yields_lift. intros k Hk.
  pose proof Hk as (-> & _)%alias_new_Ok. by split_and!.
Qed.
#[export] Hint Resolve yields_sidecar yields_alias_key : yields.

(** ** Records and their bytes determine each other *)
Lemma canonical_Ok enc b kind path reason : canonical enc b kind path reason = Ok () ↔ enc = Ok b.
Proof.
  unfold canonical, metadata. rewrite bind_ok. setoid_rewrite guard_ok. split.
  - by intros (e & -> & ->%dec_stable & _).
  - intros ->. exists b. tauto.
Qed.

Section exact.
Context {sha : Sha2} {laws : Sha2Laws}.

Lemma verify_record_bound b magic kind r : verify_record b magic kind = Ok r → (len b ≤ MAX_METADATA_BYTES)%N.
Proof. unfold verify_record. intros H. apply guard_ok in H as [H _]. lia. Qed.

Lemma run_record_inv {A B} b magic kind (p : parser A) (f : A → sresult B) a :
  run_record b magic kind p f = Ok a →
  ∃ x r r', p r = Ok (x, r') ∧ f x = Ok a ∧ (len b ≤ MAX_METADATA_BYTES)%N.
Proof.
  unfold run_record. intros (r & Hv & ([a' r'] & Hr & ->)%fmap_ok)%bind_ok. simpl.
  apply verify_record_bound in Hv. rewrite bind_run in Hr. apply bind_ok in Hr as ([x r1] & Hx & Hr).
  rewrite bind_run in Hr. apply bind_ok in Hr as ([u r2] & _ & (a2 & Ha & [= -> _])%fmap_ok). by exists x, r, r1.
Qed.

(** A record type: its parts, the fields a reader finds, the checks on them, and
    which values are well formed. *)
Lemma record_exact {A X} magic kind path (p : parser X) (check : bytes → X → sresult A)
    (encode : A → sresult bytes) (parts : A → list (sresult bytes)) (ok : A → Prop) (fields : A → X) b a :
  len magic = 8%N →
  (∀ a, encode a = finish_record <$> cat (start_record magic :: parts a)) →
  (∀ a, ok a → sound (cat (parts a)) p (fields a)) →
  (∀ a b, ok a → encode a = Ok b → check b (fields a) = Ok a) →
  (∀ r x r' a, p r = Ok (x, r') → check b x = Ok a → ok a ∧ encode a = Ok b) →
  in_file kind path (run_record b magic kind p (check b)) = Ok a ↔
  ok a ∧ encode a = Ok b ∧ (len b ≤ MAX_METADATA_BYTES)%N.
Proof.
  intros Hm Henc Hsound Hcheck Hyield. unfold in_file. rewrite map_err_ok. split.
  - intros (x & r & r' & Hx & Ha & Hl)%run_record_inv. destruct (Hyield _ _ _ _ Hx Ha). done.
  - intros (Hok & He & Hl). specialize (Hcheck a b Hok He). pose proof (Hsound a Hok) as Hs.
    rewrite Henc, record_parts in He. apply fmap_ok in He as (e & He & ->).
    by erewrite run_record_sound.
Qed.

Lemma sound_id reason d : is_digest d → sound (Ok d) (Reader.take_array 32 reason) d.
Proof. intros Hd. by apply sound_array, digest_len. Qed.
#[local] Hint Resolve sound_id sound_spec sound_alias_key sound_sidecar sound_descriptor : sound.

(** *** Generation manifests *)
Definition manifest_outputs (m : GenerationManifest.t) : outputs :=
  generation_outputs (GenerationManifest.derivation_key m) (GenerationManifest.base_digest m)
    (GenerationManifest.base_size m) (GenerationManifest.sidecars m).

Definition manifest_ok (m : GenerationManifest.t) : Prop :=
  spec_ok (GenerationManifest.spec m) ∧ outputs_ok (manifest_outputs m) ∧ is_digest (GenerationManifest.id m) ∧
  GenerationSpec.derivation_key (GenerationManifest.spec m) = Ok (GenerationManifest.derivation_key m) ∧
  GenerationManifest.recompute_id m = Ok (GenerationManifest.id m).

Lemma manifest_sound m path :
  manifest_ok m → sound (cat (GenerationManifest.fields m)) (GenerationManifest.read_fields path) m.
Proof.
  intros (Hs & (Hk & Hb & Hsz & Hl & Hc & _) & Hid & _). simpl in Hk, Hb, Hsz, Hl, Hc.
  assert (len (GenerationManifest.sidecars m) < u16_bound)%N
    by (unfold MAX_GENERATION_SIDECARS, u16_bound in *; lia).
  unfold GenerationManifest.fields, GenerationManifest.read_fields, read_generation_id. rewrite <- app_comm_cons.
  part (GenerationManifest.id m). part (GenerationManifest.derivation_key m). part (GenerationManifest.spec m).
  part (GenerationManifest.base_digest m). part (GenerationManifest.base_size m).
  part (len (GenerationManifest.sidecars m)). rewrite decide_False by lia.
  unfold len. rewrite Nat2N.id, <- (app_nil_r (ImmutableSidecar.encode <$> _)).
  eapply sound_app; [apply sound_many; intros a Ha|].
  - rewrite Forall_forall in Hl. by apply sound_sidecar, Hl.
  - destruct m. apply sound_ret.
Qed.

Lemma manifest_exact b path m :
  GenerationManifest.decode b path = Ok m ↔
  manifest_ok m ∧ GenerationManifest.encode m = Ok b ∧ (len b ≤ MAX_METADATA_BYTES)%N.
Proof.
  apply (record_exact _ _ _ _ (λ b, GenerationManifest.check b path) _ GenerationManifest.fields manifest_ok id);
    [done|done|intros; by apply manifest_sound|..].
  - intros a b' (Hs & (Hk & Hb & Hsz & Hl & Hc & Hst) & _ & Hdk & Hid) He. unfold GenerationManifest.check, id.
    rewrite (proj2 (validate_canonical_sidecars_Ok (GenerationManifest.sidecars a)) (conj Hc Hst)).
    rsimpl. rewrite Hdk. rsimpl.
    rewrite decide_False by tauto. rewrite Hid. rsimpl. rewrite decide_False by tauto.
    by rewrite (proj2 (canonical_Ok _ _ _ _ _) He).
  - intros r x r' a Hx Hc. unfold GenerationManifest.check, metadata in Hc.
    apply bind_unit_ok in Hc as [[Hn Hst]%validate_canonical_sidecars_Ok Hc].
    apply bind_ok in Hc as (k & Hk & [->%dec_stable Hc]%guard_ok).
    apply bind_ok in Hc as (i & Hi & [->%dec_stable Hc]%guard_ok).
    apply bind_unit_ok in Hc as [He%canonical_Ok <-%ok_inj]. split; [|done].
    assert (yields (GenerationManifest.read_fields path) (λ m,
      spec_ok (GenerationManifest.spec m) ∧ is_digest (GenerationManifest.id m) ∧
      is_digest (GenerationManifest.derivation_key m) ∧ is_digest (GenerationManifest.base_digest m) ∧
      (GenerationManifest.base_size m < u64_bound)%N ∧ Forall sidecar_ok (GenerationManifest.sidecars m))) as Hy.
    { unfold GenerationManifest.read_fields, read_generation_id, read_derivation_key, read_digest.
      yield i. intros ?. yield dk. intros ?. yield sp. intros ?. yield bd. intros ?. yield bz. intros ?.
      yield n. intros ?. apply yields_guard; [done|]. intros ?.
      eapply yields_bind; [apply yields_many, yields_sidecar|]. intros l [Hl _]. by apply yields_ret. }
    destruct (Hy _ _ _ Hx) as (? & ? & ? & ? & ? & ?). by split_and!.
Qed.
(** *** Staging marks, aliases *)
Lemma staging_exact b path r :
  StagingRecord.decode b path = Ok r ↔
  is_digest (StagingRecord.derivation_key r) ∧ StagingRecord.encode r = Ok b ∧ (len b ≤ MAX_METADATA_BYTES)%N.
Proof.
  apply (record_exact _ _ _ _ (λ b, StagingRecord.check b path) _ (λ r, [Ok (StagingRecord.derivation_key r)])
           (λ r, is_digest (StagingRecord.derivation_key r)) id); [done|done|..].
  - intros [k] Hk. unfold StagingRecord.read_fields. part k. apply sound_ret.
  - intros a b' _ He. unfold StagingRecord.check. by rewrite (proj2 (canonical_Ok _ _ _ _ _) He).
  - intros r0 x r' a Hx [He%canonical_Ok <-%ok_inj]%bind_unit_ok. split; [|done].
    assert (yields StagingRecord.read_fields (λ r, is_digest (StagingRecord.derivation_key r))) as Hy
      by (unfold StagingRecord.read_fields, read_derivation_key; yield k; intros ?; by apply yields_ret).
    by apply (Hy _ _ _ Hx).
Qed.

Definition alias_ok (r : AliasRecord.t) : Prop :=
  alias_key_ok (AliasRecord.key r) ∧ is_digest (AliasRecord.id r) ∧ is_digest (AliasRecord.generation_id r) ∧
  AliasKey.id (AliasRecord.key r) = Ok (AliasRecord.id r).

Lemma alias_exact b path r :
  AliasRecord.decode b path = Ok r ↔
  alias_ok r ∧ AliasRecord.encode r = Ok b ∧ (len b ≤ MAX_METADATA_BYTES)%N.
Proof.
  apply (record_exact _ _ _ _ (λ b, AliasRecord.check b path) _
           (λ r, [Ok (AliasRecord.id r); AliasKey.encode (AliasRecord.key r); Ok (AliasRecord.generation_id r)])
           alias_ok id); [done|done|..].
  - intros [i k g] (Hk & Hi & Hg & _). simpl in Hk, Hi, Hg.
    unfold AliasRecord.read_fields, read_alias_id, read_generation_id. part i. part k. part g. apply sound_ret.
  - intros a b' (_ & _ & _ & Hid) He. unfold AliasRecord.check, id. rewrite Hid. rsimpl.
    rewrite decide_False by tauto. by rewrite (proj2 (canonical_Ok _ _ _ _ _) He).
  - intros r0 x r' a Hx Hc. unfold AliasRecord.check, metadata in Hc.
    apply bind_ok in Hc as (i & Hi & [->%dec_stable Hc]%guard_ok).
    apply bind_unit_ok in Hc as [He%canonical_Ok <-%ok_inj]. split; [|done].
    assert (yields AliasRecord.read_fields (λ r, alias_key_ok (AliasRecord.key r) ∧ is_digest (AliasRecord.id r) ∧
              is_digest (AliasRecord.generation_id r))) as Hy.
    { unfold AliasRecord.read_fields, read_alias_id, read_generation_id. yield i. intros ?. yield k. intros ?.
      yield g. intros ?. by apply yields_ret. }
    destruct (Hy _ _ _ Hx) as (? & ? & ?). by split_and!.
Qed.

(** *** Retained overlays *)
Definition retained_ok (r : RetainedCow.t) : Prop :=
  is_digest (RetainedCow.id r) ∧ is_digest (RetainedCow.generation_id r) ∧ is_digest (RetainedCow.cow_digest r) ∧
  (RetainedCow.cow_size r < u64_bound)%N ∧
  ManagedUmlPath.new (RetainedCow.cow_path r) = Ok (ManagedUmlPath.ManagedUmlPath (RetainedCow.cow_path r)) ∧
  RetainedCow.derive_id (RetainedCow.generation_id r) (RetainedCow.cow_path r) (RetainedCow.cow_digest r)
    (RetainedCow.cow_size r) (RetainedCow.state r) = Ok (RetainedCow.id r).

Lemma managed_new_same path p : ManagedUmlPath.new path = Ok p →
  p = ManagedUmlPath.ManagedUmlPath path ∧ valid_utf8 path ∧
  (len path ≤ ManagedUmlPath.MAX_MANAGED_UML_PATH_BYTES)%N.
Proof.
  unfold ManagedUmlPath.new, to_str. intros H. apply guard_ok in H as [_ H]. case_decide as Hu; [|done].
  apply guard_ok in H as [Hl H]. apply guard_ok in H as [_ H]. case_match; [case_match; done|].
  case_match; [|done]. apply guard_ok in H as [_ H]. cbv zeta in H. apply guard_ok in H as [_ H].
  apply guard_ok in H as [_ H]. injection H as <-. split_and!; [done|done|lia].
Qed.

Lemma state_round_trip st : RetainedCowState.decode (RetainedCowState.encode st) = Ok st.
Proof. by destruct st. Qed.

Lemma retained_sound r path :
  retained_ok r →
  sound (cat [Ok (RetainedCow.id r); Ok (RetainedCow.generation_id r); put_text (RetainedCow.cow_path r);
              Ok (RetainedCow.cow_digest r); put_u64 (RetainedCow.cow_size r);
              put_u8 (RetainedCowState.encode (RetainedCow.state r))]) (RetainedCow.read_fields path) r.
Proof.
  intros (Hi & Hg & Hd & Hs & Hp & _). destruct (managed_new_same _ _ Hp) as (_ & Hu & Hl).
  assert (sound (put_text (RetainedCow.cow_path r)) (Reader.text ManagedUmlPath.MAX_MANAGED_UML_PATH_BYTES)
            (RetainedCow.cow_path r)) by by apply sound_text.
  unfold RetainedCow.read_fields, read_retained_id, read_generation_id.
  part (RetainedCow.id r). part (RetainedCow.generation_id r). part (RetainedCow.cow_path r).
  eapply (sound_app [] _); [apply sound_lift; by rewrite Hp|]. cbn [ManagedUmlPath.path_buf].
  part (RetainedCow.cow_digest r). part (RetainedCow.cow_size r).
  eapply sound_cons; [apply sound_u8; by destruct (RetainedCow.state r)|]. cbv beta.
  eapply (sound_app [] _); [apply sound_lift, state_round_trip|]. destruct r. apply sound_ret.
Qed.

Lemma retained_exact b path r :
  RetainedCow.decode b path = Ok r ↔
  retained_ok r ∧ RetainedCow.encode r = Ok b ∧ (len b ≤ MAX_METADATA_BYTES)%N.
Proof.
  apply (record_exact _ _ _ _ (λ b, RetainedCow.check b path) _
           (λ r, [Ok (RetainedCow.id r); Ok (RetainedCow.generation_id r); put_text (RetainedCow.cow_path r);
              Ok (RetainedCow.cow_digest r); put_u64 (RetainedCow.cow_size r);
              put_u8 (RetainedCowState.encode (RetainedCow.state r))]) retained_ok id);
    [done|done|intros; by apply retained_sound|..].
  - intros a b' (_ & _ & _ & _ & _ & Hid) He. unfold RetainedCow.check, id. rewrite Hid. rsimpl.
    rewrite decide_False by tauto. by rewrite (proj2 (canonical_Ok _ _ _ _ _) He).
  - intros r0 x r' a Hx Hc. unfold RetainedCow.check, metadata in Hc.
    apply bind_ok in Hc as (i & Hi & [->%dec_stable Hc]%guard_ok).
    apply bind_unit_ok in Hc as [He%canonical_Ok <-%ok_inj]. split; [|done].
    assert (yields (RetainedCow.read_fields path) (λ r, is_digest (RetainedCow.id r) ∧
      is_digest (RetainedCow.generation_id r) ∧ is_digest (RetainedCow.cow_digest r) ∧
      (RetainedCow.cow_size r < u64_bound)%N ∧
      ManagedUmlPath.new (RetainedCow.cow_path r) = Ok (ManagedUmlPath.ManagedUmlPath (RetainedCow.cow_path r)))) as Hy.
    { unfold RetainedCow.read_fields, read_retained_id, read_generation_id, read_digest. yield i. intros ?.
      yield g. intros ?. yield t. intros ?.
      eapply (yields_bind _ _ (λ c, ManagedUmlPath.new c = Ok (ManagedUmlPath.ManagedUmlPath c))).
      { apply yields_lift. intros c. destruct (ManagedUmlPath.new t) as [p| |] eqn:Hp; [|done..].
        destruct (managed_new_same _ _ Hp) as (-> & _). by intros [= <-]. }
      intros c ?. yield d. intros ?. yield n. intros ?. eapply yields_bind; [apply yields_any|]. intros tag _.
      eapply yields_bind; [apply yields_any|]. intros st _. by apply yields_ret. }
    destruct (Hy _ _ _ Hx) as (? & ? & ? & ? & ?). by split_and!.
Qed.

(** *** Derivation lookups *)
Definition derivation_ok (r : DerivationRecord.t) : Prop :=
  is_digest (DerivationRecord.derivation_key r) ∧ is_digest (DerivationRecord.winner r) ∧
  Forall is_digest (DerivationRecord.alternatives r) ∧
  (len (DerivationRecord.alternatives r) < u16_bound - 1)%N ∧
  (DerivationRecord.winner r ∉ DerivationRecord.alternatives r) ∧
  StronglySorted bytes_lt (DerivationRecord.alternatives r).

Lemma derivation_validate_Ok r :
  DerivationRecord.validate r = Ok () ↔
  (len (DerivationRecord.alternatives r) < u16_bound - 1)%N ∧
  (DerivationRecord.winner r ∉ DerivationRecord.alternatives r) ∧
  StronglySorted bytes_lt (DerivationRecord.alternatives r).
Proof.
  unfold DerivationRecord.validate, metadata. rewrite !guard_ok, not_or_and, (any_pair_sorted id).
  unfold strictly_sorted_by. rewrite list_fmap_id, N.nle_gt. naive_solver.
Qed.

Lemma derivation_exact b path r :
  DerivationRecord.decode b path = Ok r ↔
  derivation_ok r ∧ DerivationRecord.encode r = Ok b ∧ (len b ≤ MAX_METADATA_BYTES)%N.
Proof.
  apply (record_exact _ _ _ _ (λ b, DerivationRecord.check b path) _ DerivationRecord.fields derivation_ok id);
    [done|done|..].
  - intros [k w l] (Hk & Hw & Hl & Hn & _). simpl in Hk, Hw, Hl, Hn.
    assert (len l < u16_bound)%N by lia.
    unfold DerivationRecord.fields, DerivationRecord.read_fields, read_generation_id. rewrite <- app_comm_cons.
    cbn [DerivationRecord.derivation_key DerivationRecord.winner DerivationRecord.alternatives].
    part k. part w. part (len l). unfold len. rewrite Nat2N.id, <- (app_nil_r (Ok <$> _)).
    eapply sound_app; [apply sound_many; intros a Ha|apply sound_ret].
    rewrite Forall_forall in Hl. by apply sound_id, Hl.
  - intros a b' (_ & _ & _ & Hv) He. unfold DerivationRecord.check, id.
    rewrite (proj2 (derivation_validate_Ok a) Hv). rsimpl. by rewrite (proj2 (canonical_Ok _ _ _ _ _) He).
  - intros r0 x r' a Hx Hc. unfold DerivationRecord.check in Hc.
    apply bind_unit_ok in Hc as [Hv%derivation_validate_Ok [He%canonical_Ok <-%ok_inj]%bind_unit_ok].
    split; [|done].
    assert (yields DerivationRecord.read_fields (λ r, is_digest (DerivationRecord.derivation_key r) ∧
      is_digest (DerivationRecord.winner r) ∧ Forall is_digest (DerivationRecord.alternatives r))) as Hy.
    { unfold DerivationRecord.read_fields, read_derivation_key, read_generation_id. yield k. intros ?.
      yield w. intros ?. yield n. intros ?. eapply yields_bind; [apply yields_many, yields_digest_array|].
      intros l [Hl _]. by apply yields_ret. }
    destruct (Hy _ _ _ Hx) as (? & ? & ?). destruct Hv as (? & ? & ?). by split_and!.
Qed.

(** *** Instances *)
Definition outcome_ok (o : InstanceOutcome.t) : Prop :=
  match o with
  | InstanceOutcome.Unknown => True
  | InstanceOutcome.Exited code => (code < u8_bound)%N
  | InstanceOutcome.Signalled signal => (signal < u16_bound)%N
  end.

Definition recorded_text (maximum : N) (v : bytes) : Prop := valid_utf8 v ∧ (len v ≤ maximum)%N.

Definition instance_ok (i : Instance_.t) : Prop :=
  is_digest (Instance_.id i) ∧ recorded_text MAX_INSTANCE_NAME_BYTES (Instance_.name i) ∧
  is_digest (Instance_.generation_id i) ∧ is_digest (Instance_.retained_id i) ∧
  recorded_text MAX_INSTANCE_COMMAND_BYTES (Instance_.image_reference i) ∧
  (len (Instance_.argv i) < u16_bound)%N ∧
  Forall (recorded_text MAX_INSTANCE_COMMAND_BYTES) (Instance_.argv i) ∧
  recorded_text MAX_INSTANCE_COMMAND_BYTES (Instance_.command i) ∧
  (Instance_.created_unix i < u64_bound)%N ∧ (Instance_.finished_unix i < u64_bound)%N ∧
  outcome_ok (Instance_.outcome i) ∧
  Instance_.derive_id (Instance_.name i) = Ok (Instance_.id i).

Definition instance_fields (i : Instance_.t) : (InstanceOutcome.t → Instance_.t) * (N * N) :=
  (Instance_.instance (Instance_.id i) (Instance_.name i) (Instance_.generation_id i) (Instance_.retained_id i)
     (Instance_.image_reference i) (Instance_.argv i) (Instance_.command i) (Instance_.created_unix i)
     (Instance_.finished_unix i), InstanceOutcome.encode (Instance_.outcome i)).

Lemma sound_recorded maximum v :
  recorded_text maximum v → (maximum < u32_bound)%N → sound (put_text v) (Reader.text maximum) v.
Proof. intros [] ?. by apply sound_text. Qed.

Lemma outcome_round_trip o :
  outcome_ok o → InstanceOutcome.decode (InstanceOutcome.encode o).1 (InstanceOutcome.encode o).2 = Ok o.
Proof. destruct o as [|c|s]; intros Ho; [done| |done]. unfold InstanceOutcome.decode. simpl. by rewrite decide_True. Qed.

Lemma outcome_decode_ok tag value o : (value < u16_bound)%N → InstanceOutcome.decode tag value = Ok o → outcome_ok o.
Proof.
  intros Hv. unfold InstanceOutcome.decode, metadata. case_decide; [by intros [= <-]|].
  case_decide; [by case_decide; [intros [= <-]|]|]. case_decide; [by intros [= <-]|done].
Qed.

Lemma instance_sound i :
  instance_ok i → sound (cat (Instance_.fields i)) Instance_.read_fields (instance_fields i).
Proof.
  intros (Hi & Hn & Hg & Hr & Hir & Hl & Ha & Hc & Ht1 & Ht2 & Ho & _).
  assert (∀ v, recorded_text MAX_INSTANCE_COMMAND_BYTES v →
    sound (put_text v) (Reader.text MAX_INSTANCE_COMMAND_BYTES) v) as Htext by (intros; by apply sound_recorded).
  unfold Instance_.fields, Instance_.read_fields. rewrite <- app_comm_cons. part (Instance_.id i).
  eapply sound_cons; [by apply sound_recorded|]. cbv beta. part (Instance_.generation_id i).
  part (Instance_.retained_id i). part (Instance_.image_reference i). part (len (Instance_.argv i)).
  replace (N.to_nat (len (Instance_.argv i))) with (length (Instance_.argv i)) by (unfold len; lia).
  eapply sound_app; [apply sound_many; intros a Hin|].
  { rewrite Forall_forall in Ha. by apply Htext, Ha. }
  part (Instance_.command i). part (Instance_.created_unix i). part (Instance_.finished_unix i).
  eapply sound_cons; [apply sound_u8; by destruct (Instance_.outcome i)|]. cbv beta.
  eapply sound_cons; [apply sound_u16|].
  - destruct (Instance_.outcome i); simpl in *; unfold u16_bound, u8_bound in *; lia.
  - unfold instance_fields. rewrite <- surjective_pairing. apply sound_ret.
Qed.

Lemma instance_exact b path i :
  Instance_.decode b path = Ok i ↔
  instance_ok i ∧ Instance_.encode i = Ok b ∧ (len b ≤ MAX_METADATA_BYTES)%N.
Proof.
  apply (record_exact _ _ _ _ (λ b, Instance_.check b path) _ Instance_.fields instance_ok instance_fields);
    [done|done|intros; by apply instance_sound|..].
  - intros a b' Hok He. destruct Hok as (_ & _ & _ & _ & _ & _ & _ & _ & _ & _ & Ho & Hid).
    unfold Instance_.check, instance_fields. rewrite (surjective_pairing (InstanceOutcome.encode _)).
    rewrite outcome_round_trip by done. rsimpl. cbv zeta.
    replace (Instance_.instance _ _ _ _ _ _ _ _ _ _) with a by by destruct a.
    rewrite Hid. rsimpl. rewrite decide_False by tauto. by rewrite (proj2 (canonical_Ok _ _ _ _ _) He).
  - intros r0 [build [tag value]] r' a Hx Hc. unfold Instance_.check, metadata in Hc. cbv zeta in Hc.
    apply bind_ok in Hc as (o & Ho & Hc). apply bind_ok in Hc as (d & Hd & [->%dec_stable Hc]%guard_ok).
    apply bind_unit_ok in Hc as [He%canonical_Ok <-%ok_inj]. split; [|done].
    assert (yields Instance_.read_fields (λ x, (x.2.2 < u16_bound)%N ∧ ∀ o, outcome_ok o →
      Instance_.derive_id (Instance_.name (x.1 o)) = Ok (Instance_.id (x.1 o)) → instance_ok (x.1 o))) as Hy.
    { unfold Instance_.read_fields. yield id0. intros ?. yield n. intros ?. yield g. intros ?. yield rt. intros ?.
      yield ir. intros ?. yield al. intros Hal. eapply yields_bind; [apply yields_many, yields_text|].
      intros l [Hl Hn]. yield c. intros ?. yield t1. intros ?. yield t2. intros ?.
      eapply yields_bind; [apply yields_any|]. intros tg _. yield v. intros ?. apply yields_ret.
      split; [done|]. intros o' Ho' Hid. simpl in *. split_and!; try done. unfold len. simpl. lia. }
    destruct (Hy _ _ _ Hx) as [Hv Hok]. apply Hok; [by eapply outcome_decode_ok|done].
Qed.

(** *** Locks and leases *)
Lemma lock_exact b key path :
  (∀ k, key = Some k → is_digest k) →
  validate_lock_record b key path = Ok () ↔ lock_record key = Ok b.
Proof.
  intros Hk. unfold validate_lock_record, in_file. rewrite map_err_ok. split.
  - intros (x & r & r' & _ & Hc & _)%run_record_inv. unfold metadata in Hc.
    apply guard_ok in Hc as [->%dec_stable Hc]. by apply canonical_Ok in Hc.
  - intros He. pose proof He as Hb. unfold lock_record in Hb. rewrite record_parts in Hb.
    apply fmap_ok in Hb as (e & Hp & ->).
    erewrite (run_record_sound _ _ _ _ _ key); [|done| |exact Hp|].
    + rewrite decide_False by tauto. by rewrite (proj2 (canonical_Ok _ _ _ _ _) He).
    + destruct key as [k|].
      * eapply sound_cons; [by apply (sound_u8 1)|]. rewrite decide_False, decide_True by done.
        eapply sound_cons; [by apply sound_derivation_key, Hk|]. apply sound_ret.
      * eapply (sound_cons _ []); [by apply (sound_u8 0)|]. rewrite decide_True by done. apply sound_ret.
    + rewrite len_envelope. assert (len e ≤ 64)%N; [|unfold MAX_METADATA_BYTES; change (len LOCK_MAGIC) with 8%N; lia].
      destruct key as [k|]; simpl in Hp; apply ok_inj in Hp as <-; [|done].
      specialize (Hk k eq_refl). apply digest_len in Hk. rewrite app_nil_r, len_cons. lia.
Qed.

Lemma lease_exact b id path :
  is_digest id → validate_lease_record b id path = Ok () ↔ lease_record id = Ok b.
Proof.
  intros Hid. unfold validate_lease_record, in_file. rewrite map_err_ok. split.
  - intros (x & r & r' & _ & Hc & _)%run_record_inv. unfold metadata in Hc.
    apply guard_ok in Hc as [->%dec_stable Hc]. by apply canonical_Ok in Hc.
  - intros He. pose proof He as Hb. unfold lease_record in Hb. rewrite record_parts in Hb.
    apply fmap_ok in Hb as (e & Hp & ->).
    erewrite (run_record_sound _ _ _ _ _ id); [|done| |exact Hp|].
    + rewrite decide_False by tauto. by rewrite (proj2 (canonical_Ok _ _ _ _ _) He).
    + apply (sound_ext _ (Ok id)); [simpl; by rewrite app_nil_r|]. by apply sound_id.
    + rewrite len_envelope. simpl in Hp. apply ok_inj in Hp as <-. rewrite app_nil_r.
      apply digest_len in Hid. rewrite Hid. unfold MAX_METADATA_BYTES. change (len LEASE_MAGIC) with 8%N. lia.
Qed.

(** C32: the records of the store and their files determine each other.  Decoding a
    metadata file succeeds exactly when the file is, byte for byte, the encoding of a
    well-formed record that fits the size limit, and then yields that record: no
    second encoding and no truncated or trailing byte is accepted.  This holds for
    generations, stagings, aliases, retained overlays, derivations and instances.  A lock
    or lease file is accepted exactly when it is the encoding for the key or the
    generation that is expected, so not under another's identity. *)
Theorem store_records_exact b path :
  (∀ m, GenerationManifest.decode b path = Ok m ↔
     manifest_ok m ∧ GenerationManifest.encode m = Ok b ∧ (len b ≤ MAX_METADATA_BYTES)%N) ∧
  (∀ r, StagingRecord.decode b path = Ok r ↔
     is_digest (StagingRecord.derivation_key r) ∧ StagingRecord.encode r = Ok b ∧ (len b ≤ MAX_METADATA_BYTES)%N) ∧
  (∀ r, AliasRecord.decode b path = Ok r ↔
     alias_ok r ∧ AliasRecord.encode r = Ok b ∧ (len b ≤ MAX_METADATA_BYTES)%N) ∧
  (∀ r, RetainedCow.decode b path = Ok r ↔
     retained_ok r ∧ RetainedCow.encode r = Ok b ∧ (len b ≤ MAX_METADATA_BYTES)%N) ∧
  (∀ r, DerivationRecord.decode b path = Ok r ↔
     derivation_ok r ∧ DerivationRecord.encode r = Ok b ∧ (len b ≤ MAX_METADATA_BYTES)%N) ∧
  (∀ i, Instance_.decode b path = Ok i ↔
     instance_ok i ∧ Instance_.encode i = Ok b ∧ (len b ≤ MAX_METADATA_BYTES)%N) ∧
  (∀ key, (∀ k, key = Some k → is_digest k) → validate_lock_record b key path = Ok () ↔ lock_record key = Ok b) ∧
  (∀ id, is_digest id → validate_lease_record b id path = Ok () ↔ lease_record id = Ok b).
Proof.
  split_and!; intros; [apply manifest_exact|apply staging_exact|apply alias_exact|apply retained_exact
                      |apply derivation_exact|apply instance_exact|by apply lock_exact|by apply lease_exact].
Qed.
End exact.

(** ** File names *)
Lemma strip_suffix_Some suffix value rest : strip_suffix suffix value = Some rest ↔ value = rest ++ suffix.
Proof.
  unfold strip_suffix. rewrite fmap_Some. setoid_rewrite strip_prefix_Some. split.
  - intros (x & Hx & ->). by rewrite <- (reverse_involutive value), Hx, reverse_app, reverse_involutive.
  - intros ->. exists (reverse rest). by rewrite reverse_app, reverse_involutive.
Qed.

Section names.
Context {hex : Hex} {laws : HexLaws}.

(** The file names of aliases, retained overlays and instances determine their
    identifiers, and nothing else has such a name. *)
Lemma parse_record_filename prefix value d :
  (strip_suffix (bs ".meta") value ≫= parse_filename prefix) = Some d ↔
  is_digest d ∧ value = id_to_string prefix d ++ bs ".meta".
Proof.
  rewrite bind_Some. setoid_rewrite strip_suffix_Some. setoid_rewrite parse_filename_Some. naive_solver.
Qed.
Lemma parse_alias_filename_Some value d :
  parse_alias_filename value = Some d ↔ is_digest d ∧ value = alias_filename d.
Proof. apply parse_record_filename. Qed.
Lemma parse_retained_filename_Some value d :
  parse_retained_filename value = Some d ↔ is_digest d ∧ value = retained_filename d.
Proof. apply parse_record_filename. Qed.
Lemma parse_instance_filename_Some value d :
  parse_instance_filename value = Some d ↔ is_digest d ∧ value = instance_filename d.
Proof. apply parse_record_filename. Qed.
End names.

Module SampleRecords.
Import SampleHash.

Definition sample_lookup : DerivationRecord.t :=
  DerivationRecord.derivation_record (replicate 32 x01) (replicate 32 x05) [replicate 32 x02; replicate 32 x07].
Definition lookup_file : bytes := match DerivationRecord.encode sample_lookup with Ok b => b | _ => [] end.

Definition lease_file : bytes := match lease_record (replicate 32 x01) with Ok b => b | _ => [] end.
Definition lock_file : bytes := match lock_record (Some (replicate 32 x01)) with Ok b => b | _ => [] end.

Lemma store_records_exact_witness :
  DerivationRecord.decode lookup_file (bs "lookup") = Ok sample_lookup ∧
  DerivationRecord.decode (lookup_file ++ [x00]) (bs "lookup") ≠ Ok sample_lookup ∧
  validate_lease_record lease_file (replicate 32 x01) (bs "lease") = Ok () ∧
  validate_lease_record lease_file (replicate 32 x02) (bs "lease") ≠ Ok () ∧
  validate_lock_record lock_file (Some (replicate 32 x01)) (bs "lock") = Ok () ∧
  validate_lock_record lock_file None (bs "lock") ≠ Ok ().
Proof.
  assert (DerivationRecord.encode sample_lookup = Ok lookup_file) as He by (vm_compute; reflexivity).
  split_and!.
  - destruct (store_records_exact lookup_file (bs "lookup")) as (_ & _ & _ & _ & H & _). apply H.
    split_and!; [apply (bool_decide_unpack _); vm_compute; exact I..|done|apply (bool_decide_unpack _); vm_compute; exact I].
  - destruct (store_records_exact (lookup_file ++ [x00]) (bs "lookup")) as (_ & _ & _ & _ & H & _).
    rewrite H, He. intros (_ & [=] & _).
  - destruct (store_records_exact lease_file (bs "lease")) as (_ & _ & _ & _ & _ & _ & _ & H). apply H; reflexivity.
  - destruct (store_records_exact lease_file (bs "lease")) as (_ & _ & _ & _ & _ & _ & _ & H).
    rewrite H by reflexivity. intros Hl. vm_compute in Hl. discriminate Hl.
  - destruct (store_records_exact lock_file (bs "lock")) as (_ & _ & _ & _ & _ & _ & H & _).
    apply H; [intros k [= <-]|]; reflexivity.
  - destruct (store_records_exact lock_file (bs "lock")) as (_ & _ & _ & _ & _ & _ & H & _).
    rewrite H by discriminate. intros Hl. vm_compute in Hl. discriminate Hl.
Defined.
End SampleRecords.
