(* ===== verification/StoreFs.v ===== *)
(** * Files of the image store: crates/pocket-store/src/fs.rs

    The file system is a tree of inodes below "/".  An operation is a function of the
    [world]: the tree, the locks that are held, and a script that says what each
    system call does: it works, it fails with an error of the kernel, or the process
    is killed in it.  Quantifying over worlds is therefore quantifying over every
    failure and every crash.  [Panic] is the outcome of a process that stops (the
    workspace aborts on a panic, so no destructor runs) or that waits for ever for a
    lock.

    A directory descriptor is the path of the directory; a file descriptor also has
    the number of the inode, which is what a lock is on.  Permission bits are
    recorded and compared by the code, but the kernel's own permission checks are
    left to the script. *)

From S2P Require Import Prelude RustStr ByteOrder ManagedPath ProtocolError Sha256 StoreCodec.

#[local] Arguments bs : simpl never.
#[local] Arguments len : simpl never.

(** ** Inodes *)
Inductive file_kind : Set :=
| RegularFile (content : bytes)
| DirectoryFile
| SymlinkFile (to_directory : bool)
| OtherFile.

Record inode : Set := inode_of {
  ino : N;
  dev : N;
  uid : N;
  mode : N; (* [st_mode & 0o7777] *)
  nlink : N;
  kind : file_kind;
}.

#[local] Unset Elimination Schemes.
Inductive node : Set := Node (status : inode) (entries : gmap bytes node).
#[local] Set Elimination Schemes.
Definition status (n : node) : inode := let 'Node i _ := n in i.
Definition entries (n : node) : gmap bytes node := let 'Node _ e := n in e.

(** Components from "/". *)
Abbreviation location := (list bytes) (only parsing).
Record File : Set := file { at_ : location; file_ino : N }.

Fixpoint find (p : location) (n : node) : option node :=
  match p with
  | [] => Some n
  | name :: p => entries n !! name ≫= find p
  end.

Fixpoint change (f : node → node) (p : location) (n : node) : node :=
  match p with
  | [] => f n
  | name :: p => Node (status n) (alter (change f p) name (entries n))
  end.

Definition set_status (i : inode) (n : node) : node := Node i (entries n).
Definition link (name : bytes) (child n : node) : node := Node (status n) (<[name := child]> (entries n)).
Definition unlink (name : bytes) (n : node) : node := Node (status n) (delete name (entries n)).

Fixpoint depth (n : node) : nat :=
  let 'Node _ e := n in S (map_fold (λ _ child d, max (depth child) d) 0 e).

(** ** The world *)

(** Failures a call can have for reasons outside the tree.  The errors that report
    what the tree is like ([ENOENT], [EEXIST], ..) come from the tree alone. *)
Inductive failure : Set :=
| EPERM | EINTR | EIO | ENOMEM | EACCES | EINVAL | EMFILE | ENOSPC | EROFS | ENOSYS | EOPNOTSUPP | ESTALE | EDQUOT.

Inductive fault : Set :=
| Works
| Fails (written : N) (e : failure) (* [written] bytes reached the file, if the call writes *)
| Killed (written : N).

Inductive lock_mode : Set := Shared | Exclusive.
#[export] Instance lock_mode_eq_dec : EqDecision lock_mode.
Proof. solve_decision. Defined.

Record world : Set := world_of {
  tree : node;
  next_ino : N;
  locks : list (N * lock_mode); (* by inode, of every process *)
  faults : list fault;
  geteuid : N;
  umask : N;
  process_id : N;
  unique_counter : N;
  nanos : N → N; (* the clock at the n-th reading *)
}.

Definition with_tree (t : node) (w : world) : world :=
  world_of t (next_ino w) (locks w) (faults w) (geteuid w) (umask w) (process_id w) (unique_counter w) (nanos w).
Definition with_locks (l : list (N * lock_mode)) (w : world) : world :=
  world_of (tree w) (next_ino w) l (faults w) (geteuid w) (umask w) (process_id w) (unique_counter w) (nanos w).
Definition tick (w : world) : world :=
  world_of (tree w) (next_ino w) (locks w) (tail (faults w)) (geteuid w) (umask w) (process_id w)
    (unique_counter w) (nanos w).
Definition burn_ino (w : world) : world :=
  world_of (tree w) (next_ino w + 1) (locks w) (faults w) (geteuid w) (umask w) (process_id w)
    (unique_counter w) (nanos w).
Definition burn_counter (w : world) : world :=
  world_of (tree w) (next_ino w) (locks w) (faults w) (geteuid w) (umask w) (process_id w)
    ((unique_counter w + 1) mod u64_bound) (nanos w).

(** ** System calls *)
Definition ENOENT : io_error := io_error_of NotFound (Some 2%Z).
Definition EAGAIN : io_error := io_error_of WouldBlock (Some 11%Z).
Definition EEXIST : io_error := io_error_of AlreadyExists (Some 17%Z).
Definition ENOTDIR : io_error := io_error_of OtherKind (Some 20%Z).
Definition EISDIR : io_error := io_error_of OtherKind (Some 21%Z).
Definition ENOTEMPTY : io_error := io_error_of OtherKind (Some 39%Z).
Definition ELOOP : io_error := io_error_of OtherKind (Some 40%Z).

Definition errno (e : failure) : Z :=
  match e with
  | EPERM => 1 | EINTR => 4 | EIO => 5 | ENOMEM => 12 | EACCES => 13 | EINVAL => 22 | EMFILE => 24 | ENOSPC => 28
  | EROFS => 30 | ENOSYS => 38 | EOPNOTSUPP => 95 | ESTALE => 116 | EDQUOT => 122
  end%Z.
Definition failed (e : failure) : io_error :=
  io_error_of (match e with EINTR => Interrupted | _ => OtherKind end) (Some (errno e)).

Definition is_errno (e : io_error) (among : list io_error) : Prop :=
  raw_os_error e ∈ raw_os_error <$> among.
#[export] Instance is_errno_dec e among : Decision (is_errno e among).
Proof. unfold is_errno. apply _. Defined.

Definition sys (A : Type) : Type := world → world * result io_error A.

Definition syscall {A} (run : world → world * result io_error A) : sys A := λ w,
  match faults w with
  | Fails _ e :: _ => (tick w, Err (failed e))
  | Killed _ :: _ => (tick w, Panic)
  | _ => run (tick w)
  end.

(** A call that only looks. *)
Definition observe {A} (look : world → result io_error A) : sys A := syscall (λ w, (w, look w)).

Definition node_at (p : location) (w : world) : option node := find p (tree w).
Definition update (f : node → node) (p : location) (w : world) : world := with_tree (change f p (tree w)) w.

Definition is_dir (i : inode) : Prop := kind i = DirectoryFile.
Definition is_file (i : inode) : Prop := match kind i with RegularFile _ => True | _ => False end.
#[export] Instance is_dir_dec i : Decision (is_dir i).
Proof. unfold is_dir. destruct (kind i); [right|left|right|right]; done. Defined.
#[export] Instance is_file_dec i : Decision (is_file i).
Proof. unfold is_file. destruct (kind i); apply _. Defined.
Definition content (i : inode) : bytes := match kind i with RegularFile b => b | _ => [] end.
(** [Metadata::len] of a regular file. *)
Definition size (i : inode) : N := len (content i).

Definition fsync : sys () := observe (λ _, Ok ()).
Definition dup : sys () := observe (λ _, Ok ()).

Definition fstat (p : location) : sys inode := observe (λ w, ok_or (status <$> node_at p w) ENOENT).

Definition entry (parent : location) (name : bytes) (w : world) : result io_error node :=
  ok_or (node_at (parent ++ [name]) w) ENOENT.

(** [openat] with [DIRECTORY_FLAGS]: anything but a directory is [ENOTDIR]. *)
Definition open_directory (parent : location) (name : bytes) : sys location := observe (λ w,
  n ← entry parent name w;
  if decide (is_dir (status n)) then Ok (parent ++ [name]) else Err ENOTDIR).

(** [openat] with [READ_FLAGS]. *)
Definition open_read (parent : location) (name : bytes) : sys File := observe (λ w,
  n ← entry parent name w;
  match kind (status n) with
  | SymlinkFile _ => Err ELOOP
  | _ => Ok (file (parent ++ [name]) (ino (status n)))
  end).

(** A new inode with this mode and kind, if the name is free. *)
Definition create (parent : location) (name : bytes) (m : N) (k : file_kind) : sys N := syscall (λ w,
  match node_at parent w with
  | None => (w, Err ENOENT)
  | Some d =>
    if decide (¬ is_dir (status d)) then (w, Err ENOTDIR) else
    match entries d !! name with
    | Some _ => (w, Err EEXIST)
    | None =>
      let i := inode_of (next_ino w) (dev (status d)) (geteuid w) (N.ldiff m (umask w)) 1 k in
      (burn_ino (update (link name (Node i ∅)) parent w), Ok (next_ino w))
    end
  end).

Definition mkdirat (parent : location) (name : bytes) (m : N) : sys () := λ w,
  let '(w, r) := create parent name m DirectoryFile w in (w, (λ _, ()) <$> r).

(** [O_RDWR | O_CREAT | O_EXCL | O_NOFOLLOW] *)
Definition open_new (parent : location) (name : bytes) (m : N) : sys File := λ w,
  let '(w, r) := create parent name m (RegularFile []) w in (w, file (parent ++ [name]) <$> r).

Definition fchmod (p : location) (m : N) : sys () := syscall (λ w,
  (update (λ n, let i := status n in
                set_status (inode_of (ino i) (dev i) (uid i) m (nlink i) (kind i)) n) p w, Ok ())).

Definition append (b : bytes) (n : node) : node :=
  let i := status n in
  set_status (inode_of (ino i) (dev i) (uid i) (mode i) (nlink i) (RegularFile (content i ++ b))) n.

(** [write_all]: a failure or a kill can leave a prefix. *)
Definition write_file (p : location) (b : bytes) : sys () := λ w,
  match faults w with
  | Fails written e :: _ => (update (append (take (N.to_nat written) b)) p (tick w), Err (failed e))
  | Killed written :: _ => (update (append (take (N.to_nat written) b)) p (tick w), Panic)
  | _ => (update (append b) p (tick w), Ok ())
  end.

(** [take(limit).read_to_end(..)] from the start of the file *)
Definition read_to_end (f : File) (limit : N) : sys bytes := observe (λ w,
  n ← ok_or (node_at (at_ f) w) ENOENT;
  if decide (is_dir (status n)) then Err EISDIR else
  Ok (take (N.to_nat limit) (content (status n)))).

(** [read_at(&mut buffer, offset)] *)
Definition read_at (f : File) (buffer offset : N) : sys bytes := observe (λ w,
  n ← ok_or (node_at (at_ f) w) ENOENT;
  if decide (is_dir (status n)) then Err EISDIR else
  Ok (take (N.to_nat buffer) (drop (N.to_nat offset) (content (status n))))).

Definition fstatat (parent : location) (name : bytes) : sys inode := fstat (parent ++ [name]).

Definition detach (parent : location) (name : bytes) (w : world) : world := update (unlink name) parent w.
Definition attach (parent : location) (name : bytes) (n : node) (w : world) : world :=
  update (link name n) parent w.

(** [renameat], and [renameat2] with [RENAME_NOREPLACE] when [replace] is false *)
Definition rename (replace : bool) (old_parent : location) (old_name : bytes) (new_parent : location)
    (new_name : bytes) : sys () := syscall (λ w,
  match node_at (old_parent ++ [old_name]) w, node_at new_parent w with
  | Some n, Some d =>
    if decide (¬ is_dir (status d)) then (w, Err ENOTDIR) else
    if decide ((old_parent ++ [old_name]) `prefix_of` new_parent) then (w, Err (failed EINVAL)) else
    let moved := attach new_parent new_name n (detach old_parent old_name w) in
    match entries d !! new_name with
    | None => (moved, Ok ())
    | Some existing =>
      if decide (replace = false) then (w, Err EEXIST) else
      if decide (ino (status existing) = ino (status n)) then (w, Ok ()) else
      if decide (is_dir (status existing)) then
        if decide (¬ is_dir (status n)) then (w, Err EISDIR) else
        if decide (entries existing ≠ ∅) then (w, Err ENOTEMPTY) else (moved, Ok ())
      else if decide (is_dir (status n)) then (w, Err ENOTDIR) else (moved, Ok ())
    end
  | _, _ => (w, Err ENOENT)
  end).

Definition unlinkat (parent : location) (name : bytes) (directory : bool) : sys () := syscall (λ w,
  match entry parent name w with
  | Ok n =>
    if directory then
      if decide (¬ is_dir (status n)) then (w, Err ENOTDIR) else
      if decide (entries n ≠ ∅) then (w, Err ENOTEMPTY) else (detach parent name w, Ok ())
    else if decide (is_dir (status n)) then (w, Err EISDIR) else (detach parent name w, Ok ())
  | Err e => (w, Err e)
  | Panic => (w, Panic)
  end).

Definition entry_names (n : node) : list bytes := elements (dom (entries n) : gset bytes).
(** The names of a directory in the order the kernel has them. *)
Definition getdents (p : location) : sys (list bytes) := observe (λ w,
  n ← ok_or (node_at p w) ENOENT;
  if decide (¬ is_dir (status n)) then Err ENOTDIR else Ok (entry_names n)).

Definition conflicts (f : File) (m : lock_mode) (w : world) : Prop :=
  Exists (λ l, l.1 = file_ino f ∧ (l.2 = Exclusive ∨ m = Exclusive)) (locks w).
#[export] Instance conflicts_dec f m w : Decision (conflicts f m w).
Proof. unfold conflicts. apply _. Defined.

(** [File::try_lock], and [lock] / [lock_shared], which wait *)
Definition flock (f : File) (m : lock_mode) (wait : bool) : sys () := syscall (λ w,
  if decide (conflicts f m w) then (w, if wait then Panic else Err EAGAIN)
  else (with_locks ((file_ino f, m) :: locks w) w, Ok ())).

Definition lock_eq_dec : EqDecision (N * lock_mode) := _.
Fixpoint remove_first (l : N * lock_mode) (ls : list (N * lock_mode)) : list (N * lock_mode) :=
  match ls with
  | [] => []
  | l' :: ls => if decide (l = l') then ls else l' :: remove_first l ls
  end.
(** Closing the descriptor, also when the process ends. *)
Definition funlock (f : File) (m : lock_mode) (w : world) : world :=
  with_locks (remove_first (file_ino f, m) (locks w)) w.

(** ** Operations with errors of the store *)
Definition io (A : Type) : Type := world → world * sresult A.
#[export] Instance io_ret : MRet io := λ A a w, (w, Ok a).
#[export] Instance io_bind : MBind io := λ A B f m w,
  let '(w, r) := m w in
  match r with Ok a => f a w | Err e => (w, Err e) | Panic => (w, Panic) end.

(** A computation that does not look at the world. *)
Definition pure {A} (r : sresult A) : io A := λ w, (w, r).
Definition fail {A} (e : StoreError.t) : io A := pure (Err e).
(** [call.map_err(f)] *)
Definition or_else {A} (f : io_error → StoreError.t) (s : sys A) : io A := λ w,
  let '(w, r) := s w in (w, map_err f r).
(** [call.map_err(|error| StoreError::io(operation, path, error))] *)
Definition io_call {A} (operation : string) (path : bytes) (s : sys A) : io A :=
  or_else (StoreError.Io operation path) s.
(** A call or an operation whose result the code matches on. *)
Definition attempt {E A} (s : world → world * result E A) : io (E + A) := λ w,
  let '(w, r) := s w in
  (w, match r with Ok a => Ok (inr a) | Err e => Ok (inl e) | Panic => Panic end).
(** [let _ = operation;] *)
Definition ignore {A} (m : io A) : io () := attempt m ≫= λ _, mret ().
Definition map_io_err {A} (f : StoreError.t → StoreError.t) (m : io A) : io A := λ w,
  let '(w, r) := m w in (w, map_err f r).

(** A [for] loop that returns early with [?]. *)
Fixpoint for_each {A} (f : A → io ()) (l : list A) : io () :=
  match l with
  | [] => mret ()
  | a :: l => f a;; for_each f l
  end.
(** A [for] loop that threads a state. *)
Fixpoint fold_io {S A} (f : S → A → io S) (s : S) (l : list A) : io S :=
  match l with
  | [] => mret s
  | a :: l => s ← f s a; fold_io f s l
  end.
Definition euid : io N := λ w, (w, Ok (geteuid w)).

(** ** fs.rs *)
Definition PRIVATE_DIR_MODE : N := 448.   (* 0o700 *)
Definition IMMUTABLE_DIR_MODE : N := 320. (* 0o500 *)
Definition PRIVATE_FILE_MODE : N := 384.  (* 0o600 *)
Definition IMMUTABLE_FILE_MODE : N := 256. (* 0o400 *)

(** [Path::parent] and [Path::file_name] of an absolute path *)
Definition path_of_components (l : location) : bytes := x2f :: join x2f l.
Definition parent (path : bytes) : option bytes :=
  match components path with
  | [] => None
  | l => Some (path_of_components (removelast l))
  end.
Definition file_name (path : bytes) : option bytes :=
  match last (components path) with
  | Some name => if decide (name = bs "..") then None else Some name
  | None => None
  end.

Fixpoint walk (path walked : bytes) (current rest : location) : io location :=
  match rest with
  | [] => mret current
  | name :: rest =>
    if decide (name = bs "..") then fail (StoreError.InvalidRoot path (bs "path is not normalized")) else
    let walked := path_join walked name in
    next ← or_else (λ e, if decide (is_errno e [ELOOP; ENOTDIR]) then StoreError.Symlink walked
                         else StoreError.Io "open directory component" path e)
             (open_directory current name);
    walk path walked next rest
  end.

Definition open_absolute_dir_no_symlinks (path : bytes) : io location :=
  if decide (¬ is_absolute path) then fail (StoreError.InvalidRoot path (bs "path is not absolute")) else
  io_call "open filesystem root" (bs "/") (observe (λ _, Ok ()));;
  walk path (bs "/") [] (components path).

Definition open_dir_at (parent : location) (name path : bytes) : io location :=
  or_else (λ e, if decide (is_errno e [ELOOP; ENOTDIR]) then StoreError.Symlink path
                else StoreError.Io "open directory" path e) (open_directory parent name).

Definition open_regular_at (parent : location) (name path : bytes) : io File :=
  or_else (λ e, if decide (is_errno e [ELOOP]) then StoreError.Symlink path
                else StoreError.Io "open regular file" path e) (open_read parent name).

Definition set_mode (f : location) (m : N) (path : bytes) : io () :=
  io_call "set permissions" path (fchmod f m).

Definition create_regular_at (parent : location) (name path : bytes) : io File :=
  f ← io_call "create regular file" path (open_new parent name PRIVATE_FILE_MODE);
  set_mode (at_ f) PRIVATE_FILE_MODE path;;
  mret f.

Definition initialize_absolute_dir_inner (path : bytes) (permit_existing : bool) : io location :=
  parent_path ← pure (ok_or (parent path) (StoreError.InvalidRoot path (bs "store root has no parent")));
  name ← pure (ok_or (file_name path) (StoreError.InvalidRoot path (bs "store root has no final component")));
  parent_fd ← open_absolute_dir_no_symlinks parent_path;
  made ← attempt (mkdirat parent_fd name PRIVATE_DIR_MODE);
  created ← match made with
            | inr _ => mret true
            | inl e =>
              if decide (is_errno e [EEXIST]) then
                if permit_existing then mret false else
                fail (StoreError.InvalidRoot path (bs "store initialization requires an absent root"))
              else fail (StoreError.Io "create store root" path e)
            end;
  root ← open_dir_at parent_fd name path;
  if (created : bool) then
    set_mode root PRIVATE_DIR_MODE path;;
    io_call "sync new store root" path fsync;;
    io_call "sync store parent" parent_path fsync;;
    mret root
  else mret root.

Definition initialize_absolute_dir (path : bytes) : io location := initialize_absolute_dir_inner path true.
Definition initialize_absent_absolute_dir (path : bytes) : io location :=
  initialize_absolute_dir_inner path false.

Definition open_absolute_regular_no_symlinks (path : bytes) : io File :=
  parent_path ← pure (ok_or (parent path) (StoreError.InvalidInput "file path" (bs "path has no parent")));
  name ← pure (ok_or (file_name path) (StoreError.InvalidInput "file path" (bs "path has no final component")));
  parent_fd ← open_absolute_dir_no_symlinks parent_path;
  open_regular_at parent_fd name path.

(** [{:#o}]; a mode has at most twelve bits. *)
Fixpoint octal_digits (fuel : nat) (n : N) : bytes :=
  match fuel with
  | O => []
  | S fuel => (if decide (n < 8)%N then [] else octal_digits fuel (n / 8)) ++ [byte_of_N (48 + n mod 8)]
  end.
Definition to_octal (n : N) : bytes := bs "0o" ++ octal_digits (S (N.to_nat (N.size n))) n.

Definition validate_private_root (f : location) (path : bytes) : io (N * N) :=
  metadata ← io_call "stat store root" path (fstat f);
  if decide (¬ is_dir metadata) then fail (StoreError.InvalidRoot path (bs "root is not a directory")) else
  if decide (mode metadata ≠ PRIVATE_DIR_MODE)
  then fail (StoreError.InvalidRoot path
               (bs "mode is " ++ to_octal (mode metadata) ++ bs "; required mode is "
                ++ to_octal PRIVATE_DIR_MODE)) else
  expected_uid ← euid;
  if decide (uid metadata ≠ expected_uid)
  then fail (StoreError.InvalidRoot path
               (bs "owner UID is " ++ to_decimal (uid metadata) ++ bs "; required effective UID is "
                ++ to_decimal expected_uid)) else
  mret (dev metadata, ino metadata).

Definition validate_common_metadata (metadata : inode) (path : bytes) (device m : N) : io () :=
  if decide (dev metadata ≠ device) then fail (StoreError.CrossDevice path device (dev metadata)) else
  me ← euid;
  if decide (uid metadata ≠ me) then fail (StoreError.UnexpectedEntry path) else
  if decide (mode metadata ≠ m) then fail (StoreError.UnexpectedEntry path) else
  mret ().

Definition validate_directory (f : location) (path : bytes) (device m : N) : io inode :=
  metadata ← io_call "stat directory" path (fstat f);
  if decide (¬ is_dir metadata) then fail (StoreError.UnexpectedEntry path) else
  validate_common_metadata metadata path device m;;
  mret metadata.

Definition validate_regular (f : File) (path : bytes) (device m : N) : io inode :=
  metadata ← io_call "stat regular file" path (fstat (at_ f));
  if decide (¬ is_file metadata ∨ nlink metadata ≠ 1%N) then fail (StoreError.UnexpectedEntry path) else
  validate_common_metadata metadata path device m;;
  mret metadata.

Definition ensure_private_dir (parent : location) (name path : bytes) (device : N) : io location :=
  made ← attempt (mkdirat parent name PRIVATE_DIR_MODE);
  created ← match made with
            | inr _ => mret true
            | inl e => if decide (is_errno e [EEXIST]) then mret false
                       else fail (StoreError.Io "create store directory" path e)
            end;
  directory ← open_dir_at parent name path;
  (if (created : bool) then
     set_mode directory PRIVATE_DIR_MODE path;;
     io_call "sync new store directory" path fsync;;
     io_call "sync store layout" path fsync
   else mret ());;
  validate_directory directory path device PRIVATE_DIR_MODE;;
  mret directory.

Definition create_private_dir (parent : location) (name path : bytes) (device : N) : io location :=
  io_call "create private directory" path (mkdirat parent name PRIVATE_DIR_MODE);;
  directory ← open_dir_at parent name path;
  set_mode directory PRIVATE_DIR_MODE path;;
  validate_directory directory path device PRIVATE_DIR_MODE;;
  io_call "sync parent directory" path fsync;;
  mret directory.

Definition read_bounded (f : File) (path : bytes) (kind : MetadataKind.t) : io bytes :=
  b ← io_call "read metadata" path (read_to_end f (MAX_METADATA_BYTES + 1));
  if decide (MAX_METADATA_BYTES < len b)%N
  then fail (StoreError.MetadataTooLarge kind path MAX_METADATA_BYTES) else
  mret b.

Definition write_new_synced (parent : location) (name path b : bytes) (final_mode : N) : io File :=
  if decide (MAX_METADATA_BYTES < len b)%N
  then fail (StoreError.MetadataTooLarge MetadataKind.Store path MAX_METADATA_BYTES) else
  f ← create_regular_at parent name path;
  io_call "write metadata" path (write_file (at_ f) b);;
  io_call "sync metadata contents" path fsync;;
  set_mode (at_ f) final_mode path;;
  io_call "sync metadata permissions" path fsync;;
  mret f.

Definition lacks_rename_noreplace (e : io_error) : Prop := is_errno e (failed <$> [EINVAL; ENOSYS; EOPNOTSUPP]).
#[export] Instance lacks_rename_noreplace_dec e : Decision (lacks_rename_noreplace e).
Proof. unfold lacks_rename_noreplace. apply _. Defined.

Definition publish_error (path : bytes) : io_error → StoreError.t :=
  StoreError.Io "publish without replacement" path.

Definition rename_checked_noreplace_at (old_parent : location) (old_name : bytes) (new_parent : location)
    (new_name path : bytes) : io () :=
  found ← attempt (fstatat new_parent new_name);
  match found with
  | inr _ => fail (publish_error path EEXIST)
  | inl e =>
    if decide (is_errno e [ENOENT])
    then or_else (publish_error path) (rename true old_parent old_name new_parent new_name)
    else fail (publish_error path e)
  end.

Definition rename_noreplace_at (old_parent : location) (old_name : bytes) (new_parent : location)
    (new_name path : bytes) : io () :=
  renamed ← attempt (rename false old_parent old_name new_parent new_name);
  match renamed with
  | inr _ => mret ()
  | inl e =>
    if decide (lacks_rename_noreplace e)
    then rename_checked_noreplace_at old_parent old_name new_parent new_name path
    else fail (publish_error path e)
  end.

Definition rename_replace_at (old_parent : location) (old_name : bytes) (new_parent : location)
    (new_name path : bytes) : io () :=
  io_call "replace atomically" path (rename true old_parent old_name new_parent new_name).

Definition unlink_file_at (parent : location) (name path : bytes) : io () :=
  io_call "unlink file" path (unlinkat parent name false).

(** The stream rewinds when it is dropped, so that every listing starts at the first
    entry although the duplicated descriptor shares its offset. *)
Definition list_names (directory : location) (path : bytes) : io (list bytes) :=
  io_call "clone directory descriptor" path dup;;
  io_call "open directory stream" path dup;;
  names ← io_call "read directory" path (getdents directory);
  mret (sort (filter (λ name, name ≠ bs "." ∧ name ≠ bs "..") names)).

(** [fuel] bounds the nesting of the tree: see [remove_tree_at]. *)
Fixpoint remove_tree (fuel : nat) (parent : location) (name path : bytes) (device : N) : io () :=
  match fuel with
  | O => pure Panic
  | S fuel =>
    opened ← attempt (open_dir_at parent name path);
    match opened with
    | inr directory =>
      metadata ← io_call "stat removal directory" path (fstat directory);
      me ← euid;
      if decide (dev metadata ≠ device ∨ uid metadata ≠ me) then fail (StoreError.UnexpectedEntry path) else
      set_mode directory PRIVATE_DIR_MODE path;;
      names ← list_names directory path;
      for_each (λ child, remove_tree fuel directory child (path_join path child) device) names;;
      io_call "sync emptied directory" path fsync;;
      io_call "remove directory" path (unlinkat parent name true)
    | inl (StoreError.Symlink _) => unlink_file_at parent name path
    | inl e => fail e
    end;;
    io_call "sync removal parent" path fsync
  end.

(** The recursion goes as deep as the tree. *)
Definition remove_tree_at (parent : location) (name path : bytes) (device : N) : io () := λ w,
  remove_tree (S (default 0 (depth <$> node_at (parent ++ [name]) w))) parent name path device w.

Section hash.
Context {sha : Sha2}.

Definition BUFFER : N := 128 * 1024.

(** Every round but the last reads at least one byte: see [hash_file]. *)
Fixpoint hash_loop (fuel : nat) (f : File) (path : bytes) (h : hasher) (size : N) : io (Digest * N) :=
  match fuel with
  | O => pure Panic
  | S fuel =>
    b ← io_call "hash file" path (read_at f BUFFER size);
    if decide (len b = 0%N) then mret (hasher_finalize h, size) else
    let h := hasher_update h b in
    size ← pure (ok_or (checked_add size (len b))
                   (StoreError.SizeMismatch path (u64_bound - 1) (u64_bound - 1)));
    hash_loop fuel f path h size
  end.

Definition hash_file (f : File) (path : bytes) : io (Digest * N) := λ w,
  hash_loop (S (length (default [] (content ∘ status <$> node_at (at_ f) w)))) f path hasher_new 0 w.
End hash.
