(* ===== verification/FsFacts.v ===== *)
(** * Facts about the file system of the store

    What changes of the tree are seen from where, the places an operation leaves alone
    ([steps], [frame]) whatever fails, what a successful call saw or did, and what the
    calls do when none fails ([quiet]). *)

From S2P Require Import Prelude RustStr ByteOrder ManagedPath ProtocolError Sha256 StoreCodec StoreFs.

#[local] Arguments bs : simpl never.
#[local] Arguments len : simpl never.

(** ** The tree *)
Lemma find_app p q n : find (p ++ q) n = find p n ≫= find q.
Proof.
  revert n. induction p as [|name p IH]; intros n; simpl; [done|].
  destruct (entries n !! name) as [c|]; simpl; [apply IH|done].
Qed.

Lemma find_change_below f p q n : find (p ++ q) (change f p n) = (f <$> find p n) ≫= find q.
Proof.
  revert n. induction p as [|name p IH]; intros n; simpl; [done|].
  rewrite lookup_alter_eq. destruct (entries n !! name) as [c|]; simpl; [apply IH|done].
Qed.

Lemma find_change f p n : find p (change f p n) = f <$> find p n.
Proof. rewrite <- (app_nil_r p) at 1. rewrite find_change_below. by destruct (find p n). Qed.

Lemma find_change_other f p r n :
  ¬ p `prefix_of` r → ¬ r `prefix_of` p → find r (change f p n) = find r n.
Proof.
  revert r n. induction p as [|name p IH]; intros r n Hp Hr; [destruct Hp; apply prefix_nil|].
  destruct r as [|name' r]; [destruct Hr; apply prefix_nil|]. simpl.
  destruct (decide (name = name')) as [<-|Hne].
  - rewrite lookup_alter_eq. destruct (entries n !! name) as [c|]; simpl; [|done].
    apply IH; intros ?; [apply Hp|apply Hr]; by apply prefix_cons.
  - by rewrite lookup_alter_ne.
Qed.

(** A change of the inode alone is seen at the place itself and above. *)
Lemma find_change_status f p r n :
  (∀ m, entries (f m) = entries m) → ¬ r `prefix_of` p → find r (change f p n) = find r n.
Proof.
  intros Hf Hr. destruct (decide (p `prefix_of` r)) as [[q ->]|Hp]; [|by apply find_change_other].
  rewrite find_change_below, find_app. destruct q as [|name q]; [by destruct Hr; rewrite app_nil_r|].
  destruct (find p n) as [m|]; simpl; [|done]. by rewrite Hf.
Qed.

(** [r] is neither at or above [parent] nor at or below the entry [name] of it. *)
Definition outside (r parent : location) (name : bytes) : Prop :=
  ¬ r `prefix_of` parent ∧ ¬ (parent ++ [name]) `prefix_of` r.

Lemma find_change_entry f p name r n :
  (∀ m other, other ≠ name → entries (f m) !! other = entries m !! other) →
  outside r p name → find r (change f p n) = find r n.
Proof.
  intros Hf [Hr Hn]. destruct (decide (p `prefix_of` r)) as [[q ->]|Hp]; [|by apply find_change_other].
  rewrite find_change_below, find_app. destruct q as [|other q]; [by destruct Hr; rewrite app_nil_r|].
  destruct (find p n) as [m|]; simpl; [|done]. rewrite Hf; [done|]. intros ->. destruct Hn.
  exists q. by rewrite <- app_assoc.
Qed.

Lemma prefix_snoc_inv {A} (r p : list A) x : r `prefix_of` p ++ [x] → r `prefix_of` p ∨ r = p ++ [x].
Proof.
  intros [k Hk]. destruct k as [|y k _] using rev_ind; [right; by rewrite app_nil_r in Hk|left].
  rewrite app_assoc in Hk. apply app_inj_tail in Hk as [-> _]. by eexists.
Qed.

Lemma outside_below r p name child : outside r p name → outside r (p ++ [name]) child.
Proof.
  intros [Hr Hn]. split.
  - intros Hp. apply prefix_snoc_inv in Hp as [?| ->]; [done|by destruct Hn].
  - intros Hp. apply Hn. etrans; [by eexists|done].
Qed.

(** ** What operations leave alone *)

(** [R] relates the worlds before and after, whatever the outcome. *)
Definition steps {A} (R : relation world) (m : world → world * A) : Prop := ∀ w, R w (m w).1.

Section steps.
Context (R : relation world) `{!PreOrder R}.

Lemma steps_ret {A} (a : A) : steps R (mret (M:=io) a).
Proof. intros w. simpl. reflexivity. Qed.
Lemma steps_pure {A} (r : sresult A) : steps R (pure r).
Proof. intros w. simpl. reflexivity. Qed.
Lemma steps_fail {A} e : steps R (fail (A:=A) e).
Proof. apply steps_pure. Qed.
Lemma steps_euid : steps R euid.
Proof. intros w. simpl. reflexivity. Qed.

Lemma steps_bind {A B} (m : io A) (f : A → io B) :
  steps R m → (∀ a, steps R (f a)) → steps R (m ≫= f).
Proof.
  intros Hm Hf w. unfold mbind, io_bind. specialize (Hm w). destruct (m w) as [w1 [a|e|]]; simpl in *; [|done..].
  etrans; [done|]. apply Hf.
Qed.

Lemma steps_or_else {A} f (s : sys A) : steps R s → steps R (or_else f s).
Proof. intros Hs w. unfold or_else. specialize (Hs w). by destruct (s w). Qed.
Lemma steps_io_call {A} o path (s : sys A) : steps R s → steps R (io_call o path s).
Proof. apply steps_or_else. Qed.
Lemma steps_attempt {E A} (s : world → world * result E A) : steps R s → steps R (attempt s).
Proof. intros Hs w. unfold attempt. specialize (Hs w). by destruct (s w). Qed.
Lemma steps_map_io_err {A} f (m : io A) : steps R m → steps R (map_io_err f m).
Proof. intros Hs w. unfold map_io_err. specialize (Hs w). by destruct (m w). Qed.
Lemma steps_ignore {A} (m : io A) : steps R m → steps R (ignore m).
Proof. intros Hm. apply steps_bind; [by apply steps_attempt|]. intros a. apply steps_ret. Qed.

Lemma steps_for_each {A} (f : A → io ()) l : (∀ a, a ∈ l → steps R (f a)) → steps R (for_each f l).
Proof.
  induction l as [|a l IH]; intros Hf; simpl; [apply steps_ret|].
  apply steps_bind; [apply Hf; left|]. intros _. apply IH. intros b Hb. apply Hf. by right.
Qed.
Lemma steps_fold_io {S A} (f : S → A → io S) s l :
  (∀ s a, a ∈ l → steps R (f s a)) → steps R (fold_io f s l).
Proof.
  revert s. induction l as [|a l IH]; intros s Hf; simpl; [apply steps_ret|].
  apply steps_bind; [apply Hf; left|]. intros s'. apply IH. intros s'' b Hb. apply Hf. by right.
Qed.
End steps.

(** Nothing but the script, the clock and the counter moved. *)
Definition same (w w' : world) : Prop :=
  tree w' = tree w ∧ locks w' = locks w ∧ geteuid w' = geteuid w ∧ next_ino w' = next_ino w.

#[export] Instance same_preorder : PreOrder same.
Proof. split; [by intros w|]. intros w1 w2 w3 (?&?&?&?) (?&?&?&?). unfold same. split_and!; congruence. Qed.

(** Chains the facts at hand. *)
Ltac same_by :=
  match goal with
  | |- same ?a ?a => reflexivity
  | H : same ?a ?c |- same ?a ?c => exact H
  | H : same ?a ?b |- same ?a ?c => transitivity b; [exact H|]; clear H; same_by
  end.

Class Observing (R : relation world) := {
  observing_preorder :: PreOrder R;
  observing_same w w' : same w w' → R w w';
}.
#[export] Instance same_observing : Observing same.
Proof. split; [apply _|done]. Qed.

Lemma same_tick w : same w (tick w).
Proof. done. Qed.

Lemma steps_observe {A} R `{!Observing R} (look : world → result io_error A) : steps R (observe look).
Proof.
  intros w. unfold observe, syscall. apply observing_same.
  destruct (faults w) as [|[|n e|n] fs]; apply same_tick.
Qed.

(** A call that changes the world: after the script, it does [run] or nothing. *)
Lemma steps_syscall {A} R `{!Observing R} (run : world → world * result io_error A) :
  steps R run → steps R (syscall run).
Proof.
  intros Hr w. unfold syscall. assert (R w (tick w)) by (by apply observing_same).
  destruct (faults w) as [|[|n e|n] fs]; simpl; try done; (etrans; [done|apply Hr]).
Qed.

Create HintDb steps discriminated.
#[export] Hint Resolve steps_ret steps_pure steps_fail steps_euid steps_observe : steps.
#[export] Hint Extern 0 (PreOrder _) => apply _ : steps.
#[export] Hint Extern 0 (Observing _) => apply _ : steps.

(** Follows the structure of an operation; [leaf] does the calls. *)
Ltac step_once leaf :=
  lazymatch goal with
  | |- steps _ (mbind _ _) => apply steps_bind; [apply _| |intros ?]
  | |- steps _ (if decide ?P then _ else _) => destruct (decide P)
  | |- steps _ (or_else _ _) => apply steps_or_else
  | |- steps _ (io_call _ _ _) => apply steps_io_call
  | |- steps _ (attempt _) => apply steps_attempt; [try apply _..|]
  | |- steps _ (map_io_err _ _) => apply steps_map_io_err
  | |- steps _ (ignore _) => apply steps_ignore; [apply _|]
  | |- steps _ (for_each _ _) => apply steps_for_each; [apply _|intros ? ?]
  | |- steps _ (fold_io _ _ _) => apply steps_fold_io; [apply _|intros ? ? ?]
  | |- steps _ (match ?x with _ => _ end) => destruct x
  | |- steps _ ((λ _, _) _) => cbv beta
  | |- steps _ (let _ := _ in _) => cbv zeta
  | |- _ => leaf
  end.
Ltac steps_by leaf := repeat (step_once leaf).
Ltac steps_auto := steps_by ltac:(solve [eauto with steps]).

Section reading.
Context (R : relation world) `{!Observing R}.

Lemma steps_fsync : steps R fsync.
Proof. apply steps_observe, _. Qed.
Lemma steps_dup : steps R dup.
Proof. apply steps_observe, _. Qed.
Lemma steps_fstat p : steps R (fstat p).
Proof. apply steps_observe, _. Qed.
Lemma steps_open_directory p name : steps R (open_directory p name).
Proof. apply steps_observe, _. Qed.
Lemma steps_open_read p name : steps R (open_read p name).
Proof. apply steps_observe, _. Qed.
Lemma steps_read_to_end f n : steps R (read_to_end f n).
Proof. apply steps_observe, _. Qed.
Lemma steps_read_at f n o : steps R (read_at f n o).
Proof. apply steps_observe, _. Qed.
Lemma steps_getdents p : steps R (getdents p).
Proof. apply steps_observe, _. Qed.
Hint Resolve steps_fsync steps_dup steps_fstat steps_open_directory steps_open_read steps_read_to_end steps_read_at
  steps_getdents : steps.

Lemma steps_walk path walked current rest : steps R (walk path walked current rest).
Proof. revert walked current. induction rest; intros; simpl; steps_auto. Qed.
Hint Resolve steps_walk : steps.
Lemma steps_open_absolute path : steps R (open_absolute_dir_no_symlinks path).
Proof. unfold open_absolute_dir_no_symlinks. steps_auto. Qed.
Lemma steps_open_dir_at p name path : steps R (open_dir_at p name path).
Proof. unfold open_dir_at. steps_auto. Qed.
Lemma steps_open_regular_at p name path : steps R (open_regular_at p name path).
Proof. unfold open_regular_at. steps_auto. Qed.
Hint Resolve steps_open_absolute steps_open_dir_at steps_open_regular_at : steps.
Lemma steps_open_absolute_regular path : steps R (open_absolute_regular_no_symlinks path).
Proof. unfold open_absolute_regular_no_symlinks. steps_auto. Qed.
Lemma steps_validate_private_root f path : steps R (validate_private_root f path).
Proof. unfold validate_private_root. steps_auto. Qed.
Lemma steps_validate_directory f path device m : steps R (validate_directory f path device m).
Proof. unfold validate_directory, validate_common_metadata. steps_auto. Qed.
Lemma steps_validate_regular f path device m : steps R (validate_regular f path device m).
Proof. unfold validate_regular, validate_common_metadata. steps_auto. Qed.
Lemma steps_read_bounded f path k : steps R (read_bounded f path k).
Proof. unfold read_bounded. steps_auto. Qed.
Lemma steps_list_names p path : steps R (list_names p path).
Proof. unfold list_names. steps_auto. Qed.
Lemma steps_hash_loop `{Sha2} fuel f path h n : steps R (hash_loop fuel f path h n).
Proof. revert h n. induction fuel; intros; simpl; steps_auto. Qed.
Lemma steps_hash_file `{Sha2} f path : steps R (hash_file f path).
Proof. intros w. unfold hash_file. apply steps_hash_loop. Qed.
End reading.
#[export] Hint Resolve steps_fsync steps_dup steps_fstat steps_open_directory steps_open_read steps_read_to_end
  steps_read_at steps_getdents steps_open_absolute steps_open_dir_at steps_open_regular_at
  steps_open_absolute_regular steps_validate_private_root steps_validate_directory steps_validate_regular
  steps_read_bounded steps_list_names steps_hash_file : steps.

(** *** The places and the shared locks that an operation keeps *)
Section frame.
Context (places : location → Prop) (holders : N → Prop).

Definition frame (w w' : world) : Prop :=
  (∀ r, places r → node_at r w' = node_at r w) ∧
  (∀ i, holders i → (i, Shared) ∈ locks w → (i, Shared) ∈ locks w') ∧
  geteuid w' = geteuid w.

#[export] Instance frame_observing : Observing frame.
Proof.
  split; [split|].
  - by intros w.
  - intros w1 w2 w3 (Hr&Hl&He) (Hr'&Hl'&He'). split_and!; [|auto|congruence].
    intros r Hin. by rewrite Hr', Hr.
  - intros w w' (Ht&Hl&He&_). unfold frame, node_at. rewrite Ht, Hl. by split_and!.
Qed.

Lemma frame_update f p w :
  (∀ r, places r → find r (change f p (tree w)) = find r (tree w)) → frame w (update f p w).
Proof. intros H. by split_and!. Qed.
Lemma frame_update_entry f p name w :
  (∀ m other, other ≠ name → entries (f m) !! other = entries m !! other) →
  (∀ r, places r → outside r p name) → frame w (update f p w).
Proof. intros Hf Hp. apply frame_update. intros r Hr. apply (find_change_entry _ _ name); auto. Qed.
Lemma frame_update_status f p w :
  (∀ m, entries (f m) = entries m) → (∀ r, places r → ¬ r `prefix_of` p) → frame w (update f p w).
Proof. intros Hf Hp. apply frame_update. intros r Hr. apply find_change_status; auto. Qed.

Lemma frame_detach p name w : (∀ r, places r → outside r p name) → frame w (detach p name w).
Proof. apply frame_update_entry. intros m other ?. simpl. by rewrite lookup_delete_ne. Qed.
Lemma frame_attach p name n w : (∀ r, places r → outside r p name) → frame w (attach p name n w).
Proof. apply frame_update_entry. intros m other ?. simpl. by rewrite lookup_insert_ne. Qed.

Lemma steps_create p name m k : (∀ r, places r → outside r p name) → steps frame (create p name m k).
Proof.
  intros Hp. apply steps_syscall; [apply _|]. intros w. destruct (node_at p w) as [d|]; [|reflexivity].
  case_decide; [reflexivity|]. destruct (entries d !! name); [reflexivity|]. simpl.
  etrans; [by apply frame_attach|]. by split_and!.
Qed.
Lemma steps_mkdirat p name m : (∀ r, places r → outside r p name) → steps frame (mkdirat p name m).
Proof.
  intros Hp w. unfold mkdirat. pose proof (steps_create p name m DirectoryFile Hp w). by destruct (create _ _ _ _ w).
Qed.
Lemma steps_open_new p name m : (∀ r, places r → outside r p name) → steps frame (open_new p name m).
Proof.
  intros Hp w. unfold open_new. pose proof (steps_create p name m (RegularFile []) Hp w).
  by destruct (create _ _ _ _ w).
Qed.
Lemma steps_fchmod p m : (∀ r, places r → ¬ r `prefix_of` p) → steps frame (fchmod p m).
Proof.
  intros Hp. apply steps_syscall; [apply _|]. intros w. simpl. by apply frame_update_status.
Qed.
Lemma steps_write_file p b : (∀ r, places r → ¬ r `prefix_of` p) → steps frame (write_file p b).
Proof.
  intros Hp w. unfold write_file.
  assert (∀ b, frame w (update (append b) p (tick w))) as H.
  { intros b'. etrans; [apply observing_same, same_tick|]. by apply frame_update_status. }
  destruct (faults w) as [|[|n e|n] fs]; apply H.
Qed.
Lemma steps_rename replace p name q name' :
  (∀ r, places r → outside r p name) → (∀ r, places r → outside r q name') →
  steps frame (rename replace p name q name').
Proof.
  intros Hp Hq. apply steps_syscall; [apply _|]. intros w.
  destruct (node_at (p ++ [name]) w) as [n|]; [|reflexivity]. destruct (node_at q w) as [d|]; [|reflexivity].
  assert (frame w (attach q name' n (detach p name w))) as Hmove.
  { etrans; [by apply (frame_detach p name w Hp)|by apply frame_attach]. }
  destruct (decide _); [reflexivity|]. destruct (decide _); [reflexivity|]. destruct (entries d !! name') as [x|]; [|done].
  repeat (destruct (decide _); [first [reflexivity|done|idtac]|first [reflexivity|done|idtac]]).
Qed.
Lemma steps_unlinkat p name d : (∀ r, places r → outside r p name) → steps frame (unlinkat p name d).
Proof.
  intros Hp. apply steps_syscall; [apply _|]. intros w. pose proof (frame_detach p name w Hp).
  repeat first [case_decide | case_match]; first [done|reflexivity].
Qed.
Lemma steps_flock f m wait : steps frame (flock f m wait).
Proof.
  apply steps_syscall; [apply _|]. intros w. case_decide; [reflexivity|]. simpl.
  split_and!; [done| |done]. intros i _ ?. by right.
Qed.

Lemma elem_of_remove_first l l' ls : l ≠ l' → l ∈ ls → l ∈ remove_first l' ls.
Proof.
  intros Hne. induction ls as [|x ls IH]; [done|]. intros [->|?]%elem_of_cons; simpl; case_decide; subst; try done.
  - by left.
  - right. by apply IH.
Qed.
Lemma frame_funlock f m w : m = Exclusive ∨ ¬ holders (file_ino f) → frame w (funlock f m w).
Proof.
  intros Hm. split_and!; [done| |done]. intros i Hi ?. apply elem_of_remove_first; [|done].
  intros ?. simplify_eq. by destruct Hm.
Qed.
End frame.

(** An entry of another directory, and a file of it. *)
Lemma outside_not_prefix r p name : outside r p name → ¬ r `prefix_of` p ++ [name].
Proof. intros [Hr Hn] [?| ->]%prefix_snoc_inv; [done|]. by destruct Hn. Qed.

Section frame_ops.
Context (places : location → Prop) (holders : N → Prop).
Abbreviation kept p name := (∀ r, places r → outside r p name).
Hint Resolve steps_create steps_mkdirat steps_open_new steps_fchmod steps_write_file steps_rename steps_unlinkat
  steps_flock outside_not_prefix outside_below : steps.

Lemma steps_set_mode p name m path : kept p name → steps (frame places holders) (set_mode (p ++ [name]) m path).
Proof. intros. unfold set_mode. steps_auto. Qed.
Hint Resolve steps_set_mode : steps.

Lemma open_new_at p name m w w' f : open_new p name m w = (w', Ok f) → at_ f = p ++ [name].
Proof. unfold open_new. destruct (create _ _ _ _ w) as [? [i|e|]]; by intros [= <- <-]. Qed.

Lemma steps_bind_ok {A B} R `{!PreOrder R} (m : io A) (f : A → io B) :
  steps R m → (∀ w w' a, m w = (w', Ok a) → R w' (f a w').1) → steps R (m ≫= f).
Proof.
  intros Hm Hf w. unfold mbind, io_bind. specialize (Hm w). specialize (Hf w).
  destruct (m w) as [w1 [a|e|]]; simpl in *; [|done..]. etrans; [done|]. by apply Hf.
Qed.

Lemma step_bind_at {A B} R `{!PreOrder R} (m : io A) (f : A → io B) w :
  R w (m w).1 → (∀ w' a, m w = (w', Ok a) → R w' (f a w').1) → R w ((m ≫= f) w).1.
Proof.
  intros Hm Hf. unfold mbind, io_bind. destruct (m w) as [w1 [a|e|]]; simpl in *; [|done..].
  etrans; [done|]. by apply Hf.
Qed.

Lemma io_call_inv {A} o path (s : sys A) w w' a : io_call o path s w = (w', Ok a) → s w = (w', Ok a).
Proof. unfold io_call, or_else. destruct (s w) as [? [?|?|]]; intros [= <- ?]; by simplify_eq/=. Qed.

Lemma steps_create_regular_at p name path :
  kept p name → steps (frame places holders) (create_regular_at p name path).
Proof.
  intros Hk. unfold create_regular_at. apply steps_bind_ok; [apply _|steps_auto|].
  intros w w' f Hf%io_call_inv%open_new_at. rewrite Hf.
  revert w'. change (steps (frame places holders) (set_mode (p ++ [name]) PRIVATE_FILE_MODE path;; mret f)). steps_auto.
Qed.

Lemma create_regular_at_at p name path w w' f : create_regular_at p name path w = (w', Ok f) → at_ f = p ++ [name].
Proof.
  unfold create_regular_at, mbind, io_bind. destruct (io_call _ _ _ w) as [w1 [g|e|]] eqn:Hg; [|done..].
  apply io_call_inv, open_new_at in Hg. destruct (set_mode _ _ _ w1) as [? [?|?|]]; intros [= <- ?]; by simplify_eq.
Qed.

Lemma steps_write_new_synced p name path b m :
  kept p name → steps (frame places holders) (write_new_synced p name path b m).
Proof.
  intros Hk. unfold write_new_synced. case_decide; [steps_auto|].
  apply steps_bind_ok; [apply _|by apply steps_create_regular_at|].
  intros w w' f Hf%create_regular_at_at. rewrite Hf. revert w'.
  match goal with |- ∀ w', frame places holders w' (?k w').1 => change (steps (frame places holders) k) end.
  steps_auto.
Qed.

Lemma steps_rename_noreplace p name q name' path :
  kept p name → kept q name' → steps (frame places holders) (rename_noreplace_at p name q name' path).
Proof. intros. unfold rename_noreplace_at, rename_checked_noreplace_at, fstatat. steps_auto. Qed.
Lemma steps_rename_replace p name q name' path :
  kept p name → kept q name' → steps (frame places holders) (rename_replace_at p name q name' path).
Proof. intros. unfold rename_replace_at. steps_auto. Qed.
Lemma steps_unlink_file_at p name path : kept p name → steps (frame places holders) (unlink_file_at p name path).
Proof. intros. unfold unlink_file_at. steps_auto. Qed.
Hint Resolve steps_unlink_file_at : steps.

Lemma attempt_inv {E A} (s : world → world * result E A) w w' a :
  attempt s w = (w', Ok (inr a)) → s w = (w', Ok a).
Proof. unfold attempt. destruct (s w) as [? [?|?|]]; intros [= <- ?]; by simplify_eq. Qed.

Lemma open_dir_at_at p name path w w' d : open_dir_at p name path w = (w', Ok d) → d = p ++ [name].
Proof.
  unfold open_dir_at, or_else, open_directory, observe, syscall.
  destruct (faults w) as [|[|n e|n] fs]; cbn; [| |done..];
    (destruct (entry p name _) as [x|?|]; cbn; [|done..]; case_decide; by intros [= _ <-]).
Qed.

Lemma steps_remove_tree fuel p name path device :
  kept p name → steps (frame places holders) (remove_tree fuel p name path device).
Proof.
  revert p name path. induction fuel as [|fuel IH]; intros p name path Hk; simpl; [steps_auto|].
  apply steps_bind_ok; [apply _|steps_auto|]. intros w w' [e|directory] Ho.
  - clear Ho. revert w'. match goal with |- ∀ w', frame _ _ w' (?k w').1 => change (steps (frame places holders) k) end.
    steps_auto.
  - apply attempt_inv, open_dir_at_at in Ho as ->. clear w. revert w'.
    match goal with |- ∀ w', frame _ _ w' (?k w').1 => change (steps (frame places holders) k) end.
    steps_by ltac:(first [solve [eauto with steps] | apply IH; eauto with steps]).
Qed.

Lemma steps_remove_tree_at p name path device :
  kept p name → steps (frame places holders) (remove_tree_at p name path device).
Proof. intros Hk w. by apply steps_remove_tree. Qed.

Lemma steps_create_private_dir p name path device :
  kept p name → steps (frame places holders) (create_private_dir p name path device).
Proof.
  intros Hk. unfold create_private_dir. apply steps_bind; [apply _|steps_auto|intros _].
  apply steps_bind_ok; [apply _|steps_auto|]. intros w1 w2 d ->%open_dir_at_at. revert w2.
  match goal with |- ∀ w', frame _ _ w' (?k w').1 => change (steps (frame places holders) k) end. steps_auto.
Qed.
End frame_ops.
#[export] Hint Resolve steps_flock steps_create_regular_at steps_write_new_synced steps_rename_noreplace steps_rename_replace
  steps_unlink_file_at steps_remove_tree_at steps_create_private_dir : steps.

(** ** Results of operations that succeed *)
Section inversion.
Implicit Types w : world.

Lemma io_bind_ok {A B} (m : io A) (f : A → io B) w w' b :
  (m ≫= f) w = (w', Ok b) ↔ ∃ a w1, m w = (w1, Ok a) ∧ f a w1 = (w', Ok b).
Proof. unfold mbind, io_bind. destruct (m w) as [w1 [a|e|]]; naive_solver. Qed.
Lemma io_ret_ok {A} (a b : A) w w' : mret (M:=io) a w = (w', Ok b) ↔ w' = w ∧ a = b.
Proof. unfold mret, io_ret. naive_solver. Qed.
Lemma io_pure_ok {A} (r : sresult A) w w' b : pure r w = (w', Ok b) ↔ w' = w ∧ r = Ok b.
Proof. unfold pure. naive_solver. Qed.
Lemma io_guard_ok {A} (P : Prop) `{Decision P} e (k : io A) w w' b :
  (if decide P then fail e else k) w = (w', Ok b) ↔ ¬ P ∧ k w = (w', Ok b).
Proof. case_decide; unfold fail; [rewrite io_pure_ok|]; naive_solver. Qed.
Lemma or_else_ok {A} f (s : sys A) w w' a : or_else f s w = (w', Ok a) ↔ s w = (w', Ok a).
Proof. unfold or_else. destruct (s w) as [w1 [x|x|]]; simpl; naive_solver. Qed.
Lemma io_call_ok {A} o path (s : sys A) w w' a : io_call o path s w = (w', Ok a) ↔ s w = (w', Ok a).
Proof. apply or_else_ok. Qed.
Lemma attempt_ok {E A} (s : world → world * result E A) w w' a :
  attempt s w = (w', Ok (inr a)) ↔ s w = (w', Ok a).
Proof. unfold attempt. destruct (s w) as [w1 [x|x|]]; simpl; naive_solver. Qed.
Lemma attempt_err {E A} (s : world → world * result E A) w w' e :
  attempt s w = (w', Ok (inl e)) ↔ s w = (w', Err e).
Proof. unfold attempt. destruct (s w) as [w1 [x|x|]]; simpl; naive_solver. Qed.
Lemma map_io_err_ok {A} f (m : io A) w w' a : map_io_err f m w = (w', Ok a) ↔ m w = (w', Ok a).
Proof. unfold map_io_err. destruct (m w) as [w1 [x|x|]]; simpl; naive_solver. Qed.
Lemma euid_ok w w' n : euid w = (w', Ok n) ↔ w' = w ∧ n = geteuid w.
Proof. unfold euid. naive_solver. Qed.
Lemma observe_ok {A} (look : world → result io_error A) w w' a :
  observe look w = (w', Ok a) → w' = tick w ∧ look (tick w) = Ok a.
Proof. unfold observe, syscall. destruct (faults w) as [|[|n e|n] fs]; naive_solver. Qed.
Lemma observe_err {A} (look : world → result io_error A) w w' e :
  observe look w = (w', Err e) → w' = tick w ∧ (look (tick w) = Err e ∨ ∃ x, e = failed x).
Proof. unfold observe, syscall. destruct (faults w) as [|[|n x|n] fs]; naive_solver. Qed.

Lemma fold_io_inv {S A} (I : world → S → Prop) (f : S → A → io S) l :
  (∀ s a w w' s', I w s → f s a w = (w', Ok s') → I w' s') →
  ∀ s w w' s', I w s → fold_io f s l w = (w', Ok s') → I w' s'.
Proof.
  intros Hf. induction l as [|a l IH]; intros s w w' s' HI; simpl; [by intros [-> <-]%io_ret_ok|].
  intros (s1 & w1 & H1 & H2)%io_bind_ok. eapply IH; [|exact H2]. by eapply Hf.
Qed.
Lemma fold_io_ok {S A} (f : S → A → io S) s l w w' s' (R : relation world) (T : relation S) `{!PreOrder R} `{!PreOrder T} :
  (∀ s a w w' s', f s a w = (w', Ok s') → R w w' ∧ T s s') →
  fold_io f s l w = (w', Ok s') →
  R w w' ∧ T s s' ∧ ∀ a, a ∈ l → ∃ s1 w1 w2 s2, R w w1 ∧ f s1 a w1 = (w2, Ok s2) ∧ T s2 s'.
Proof.
  intros Hf. revert s w. induction l as [|a l IH]; intros s w; simpl.
  - intros [-> ->]%io_ret_ok. split_and!; [reflexivity..|]. intros a Ha. by apply elem_of_nil in Ha.
  - intros (s1 & w1 & H1 & H2)%io_bind_ok. destruct (IH _ _ H2) as (HR & HT & Hall).
    destruct (Hf _ _ _ _ _ H1) as [HR1 HT1]. split_and!; [by etrans..|].
    intros b [->|Hb]%elem_of_cons; [exists s, w, w1, s1; by split_and!|].
    destruct (Hall b Hb) as (s2 & w2 & w3 & s3 & ? & ? & ?). exists s2, w2, w3, s3. split_and!; [by etrans|done..].
Qed.

Lemma for_each_ok {A} (f : A → io ()) l w w' u (R : relation world) `{!PreOrder R} :
  (∀ a, a ∈ l → steps R (f a)) → for_each f l w = (w', Ok u) →
  ∀ a, a ∈ l → ∃ w1 w2, R w w1 ∧ f a w1 = (w2, Ok ()).
Proof.
  intros Hf. revert w. induction l as [|b l IH]; intros w; cbn [for_each]; [by intros _ a Ha%elem_of_nil|].
  intros ([] & w1 & H1 & H2)%io_bind_ok a [->|Ha]%elem_of_cons; [by exists w, w1|].
  assert (R w w1) as HR by (pose proof (Hf b (list_elem_of_here _ _) w) as HR; by rewrite H1 in HR).
  destruct (IH (λ c Hc, Hf c (list_elem_of_further _ _ _ Hc)) w1 H2 a Ha) as (w2 & w3 & ? & ?).
  exists w2, w3. split; [by etrans|done].
Qed.
End inversion.

(** The result of a call that only looks, when it gives one. *)
Lemma observed {A} (m : world → world * A) : steps same m → ∀ w w' a, m w = (w', a) → same w w'.
Proof. intros Hm w w' a Ha. specialize (Hm w). by rewrite Ha in Hm. Qed.

Lemma same_node p w w' : same w w' → node_at p w' = node_at p w.
Proof. intros (Ht & _). unfold node_at. by rewrite Ht. Qed.
Lemma same_euid w w' : same w w' → geteuid w' = geteuid w.
Proof. by intros (_ & _ & ? & _). Qed.

Lemma open_regular_at_ok p name path w w' f :
  open_regular_at p name path w = (w', Ok f) →
  same w w' ∧ ∃ n, node_at (p ++ [name]) w = Some n ∧ f = file (p ++ [name]) (ino (status n)).
Proof.
  intros H. split; [by eapply observed; [apply steps_open_regular_at, _|]|].
  apply or_else_ok, observe_ok in H as [-> (n & Hn & Hk)%bind_ok].
  apply ok_or_ok in Hn. exists n. split; [done|]. by destruct (kind (status n)); simplify_eq/=.
Qed.

(** A file that is there is not reported missing. *)
Lemma open_regular_at_err p name path w w' e n :
  node_at (p ++ [name]) w = Some n → open_regular_at p name path w = (w', Err e) →
  match e with StoreError.Io _ _ source => io_kind source ≠ NotFound | _ => True end.
Proof.
  intros Hn. unfold open_regular_at, or_else. destruct (open_read p name w) as [w1 [f|x|]] eqn:Hr; [done| |done].
  intros [= _ <-]. case_decide as Hx; [done|]. apply observe_err in Hr as [_ [Hr|[y ->]]]; [|by destruct y].
  unfold entry in Hr. change (node_at (p ++ [name]) (tick w)) with (node_at (p ++ [name]) w) in Hr.
  rewrite Hn in Hr. simpl in Hr. destruct (kind (status n)); by simplify_eq/=.
Qed.

Lemma open_dir_at_ok p name path w w' d :
  open_dir_at p name path w = (w', Ok d) →
  same w w' ∧ d = p ++ [name] ∧ ∃ n, node_at (p ++ [name]) w = Some n ∧ is_dir (status n).
Proof.
  intros H. split; [by eapply observed; [apply steps_open_dir_at, _|]|].
  apply or_else_ok, observe_ok in H as [-> (n & Hn & Hk)%bind_ok].
  apply ok_or_ok in Hn. case_decide; simplify_eq/=. split; [done|]. by exists n.
Qed.

(** A regular file of this user, with one link, on this device. *)
Definition owned_file (p : location) (device m : N) (b : bytes) (w : world) : Prop :=
  ∃ n, node_at p w = Some n ∧ kind (status n) = RegularFile b ∧ nlink (status n) = 1%N ∧
       dev (status n) = device ∧ uid (status n) = geteuid w ∧ mode (status n) = m.

Lemma owned_file_same p device m b w w' : same w w' → owned_file p device m b w' ↔ owned_file p device m b w.
Proof. intros Hs. unfold owned_file. by rewrite (same_node p w w' Hs), (same_euid w w' Hs). Qed.

Lemma validate_regular_ok f path device m w w' i :
  validate_regular f path device m w = (w', Ok i) →
  same w w' ∧ owned_file (at_ f) device m (content i) w ∧ (∃ n, node_at (at_ f) w = Some n ∧ status n = i).
Proof.
  intros H. pose proof (observed _ (steps_validate_regular same f path device m) _ _ _ H) as Hs. split; [done|].
  unfold validate_regular, validate_common_metadata in H.
  apply io_bind_ok in H as (j & w1 & Hj & [Hk H]%io_guard_ok).
  apply io_call_ok, observe_ok in Hj as [-> (n & Hn & ->)%ok_or_ok%fmap_Some].
  apply io_bind_ok in H as ([] & w2 & H & [-> <-]%io_ret_ok).
  apply io_guard_ok in H as [Hd%dec_stable H]. apply io_bind_ok in H as (me & w3 & [-> ->]%euid_ok & H).
  apply io_guard_ok in H as [Hu%dec_stable H]. apply io_guard_ok in H as [Hm%dec_stable H].
  apply not_or_and in Hk as [Hf%dec_stable Hl%dec_stable]. split; [|by exists n].
  exists n. unfold is_file, content in *. destruct (kind (status n)); by split_and!.
Qed.

Lemma validate_directory_ok p path device m w w' i :
  validate_directory p path device m w = (w', Ok i) →
  same w w' ∧ ∃ n, node_at p w = Some n ∧ status n = i ∧ is_dir i ∧ dev i = device ∧ uid i = geteuid w ∧ mode i = m.
Proof.
  intros H. pose proof (observed _ (steps_validate_directory same p path device m) _ _ _ H) as Hs. split; [done|].
  unfold validate_directory, validate_common_metadata in H.
  apply io_bind_ok in H as (j & w1 & Hj & [Hk%dec_stable H]%io_guard_ok).
  apply io_call_ok, observe_ok in Hj as [-> (n & Hn & ->)%ok_or_ok%fmap_Some].
  apply io_bind_ok in H as ([] & w2 & H & [-> <-]%io_ret_ok).
  apply io_guard_ok in H as [Hd%dec_stable H]. apply io_bind_ok in H as (me & w3 & [-> ->]%euid_ok & H).
  apply io_guard_ok in H as [Hu%dec_stable H]. apply io_guard_ok in H as [Hm%dec_stable H].
  exists n. by split_and!.
Qed.

Lemma read_bounded_ok f path k w w' b :
  read_bounded f path k w = (w', Ok b) →
  same w w' ∧ (len b ≤ MAX_METADATA_BYTES)%N ∧ ∃ n, node_at (at_ f) w = Some n ∧ b = content (status n).
Proof.
  intros H. split; [by eapply observed; [apply steps_read_bounded, _|]|].
  apply io_bind_ok in H as (b' & w1 & Hb & [Hl [-> <-]%io_ret_ok]%io_guard_ok).
  apply io_call_ok, observe_ok in Hb as [-> (n & Hn%ok_or_ok & Hb)%bind_ok].
  case_decide; [done|]. apply ok_inj in Hb as <-. split; [lia|]. exists n. split; [done|].
  apply take_ge. revert Hl. unfold len. rewrite length_take. unfold MAX_METADATA_BYTES. lia.
Qed.

Lemma list_names_ok p path w w' names :
  list_names p path w = (w', Ok names) →
  same w w' ∧ ∃ d, node_at p w = Some d ∧ is_dir (status d) ∧
    names = sort (filter (λ name, name ≠ bs "." ∧ name ≠ bs "..") (entry_names d)).
Proof.
  intros H. split; [by eapply observed; [apply steps_list_names, _|]|].
  apply io_bind_ok in H as ([] & w1 & H1 & H). apply io_call_ok, observe_ok in H1 as [-> _].
  apply io_bind_ok in H as ([] & w2 & H1 & H). apply io_call_ok, observe_ok in H1 as [-> _].
  apply io_bind_ok in H as (l & w3 & H1 & [-> <-]%io_ret_ok).
  apply io_call_ok, observe_ok in H1 as [-> (d & Hd%ok_or_ok & H1)%bind_ok].
  case_decide as Hk; [done|]. simplify_eq/=. by exists d.
Qed.

Lemma node_at_entry p name d w : node_at p w = Some d → node_at (p ++ [name]) w = entries d !! name.
Proof. unfold node_at. intros Hd. rewrite find_app, Hd. simpl. by destruct (entries d !! name). Qed.

Lemma list_names_elem p path w w' names name :
  list_names p path w = (w', Ok names) →
  name ∈ names ↔ is_Some (node_at (p ++ [name]) w) ∧ name ≠ bs "." ∧ name ≠ bs "..".
Proof.
  intros [_ (d & Hd & _ & ->)]%list_names_ok. rewrite (node_at_entry _ _ d) by done.
  unfold sort. unfold entry_names. rewrite sort_by_perm, list_elem_of_filter, elem_of_elements, elem_of_dom. tauto.
Qed.

(** ** Removal *)
Lemma detached p name w : node_at (p ++ [name]) (detach p name w) = None.
Proof.
  unfold node_at, detach, update. simpl. rewrite find_change_below. destruct (find p (tree w)); simpl; [|done].
  by rewrite lookup_delete_eq.
Qed.

Lemma unlinkat_ok p name d w w' : unlinkat p name d w = (w', Ok ()) → node_at (p ++ [name]) w' = None.
Proof.
  unfold unlinkat, syscall. pose proof (detached p name (tick w)) as Hd.
  destruct (faults w) as [|[|n e|n] fs]; try done;
    (destruct (entry p name (tick w)) as [x|x|]; [|done..]; destruct d; repeat (case_decide; [done|]); by intros [= <-]).
Qed.

(** Whatever was below, nothing is left when it succeeds. *)
Lemma remove_tree_ok fuel p name path device w w' u :
  remove_tree fuel p name path device w = (w', Ok u) → node_at (p ++ [name]) w' = None.
Proof.
  destruct fuel as [|fuel]; [done|]. cbn [remove_tree].
  intros (opened & w1 & _ & ([] & w2 & H & Hs)%io_bind_ok)%io_bind_ok.
  apply (observed _ (steps_io_call _ _ _ _ (steps_fsync same))) in Hs. rewrite (same_node _ _ _ Hs). clear Hs w'.
  destruct opened as [e|directory].
  - destruct e; try done. apply io_call_ok, unlinkat_ok in H. done.
  - apply io_bind_ok in H as (i & w3 & _ & H). apply io_bind_ok in H as (me & w4 & _ & [_ H]%io_guard_ok).
    apply io_bind_ok in H as (? & w5 & _ & H). apply io_bind_ok in H as (names & w6 & _ & H).
    apply io_bind_ok in H as (? & w7 & _ & H). apply io_bind_ok in H as (? & w8 & _ & H).
    by apply io_call_ok, unlinkat_ok in H.
Qed.

(** ** Hashing *)
Section hashing.
Context {sha : Sha2} {laws : Sha2Laws}.

(** [pieces] were hashed, and they are the file up to [n]. *)
Definition hashed (c : bytes) (h : hasher) (n : N) : Prop :=
  ∃ pieces, h = foldl hasher_update hasher_new pieces ∧ concat pieces = take (N.to_nat n) c ∧ (n ≤ len c)%N.

Lemma hashed_new c : hashed c hasher_new 0.
Proof. exists []. split_and!; [done|done|lia]. Qed.

Lemma hashed_all c h n : hashed c h n → take (N.to_nat BUFFER) (drop (N.to_nat n) c) = [] →
  hasher_finalize h = sha256_digest c ∧ n = len c.
Proof.
  intros (pieces & -> & Hc & Hn) Ht. assert (n = len c) as ->.
  { apply (f_equal length) in Ht. rewrite length_take, length_drop in Ht. change (length []) with 0 in Ht.
    assert (0 < BUFFER)%N as Hb by done. revert Ht Hn Hb. generalize BUFFER. unfold len. intros. lia. }
  split; [|done]. rewrite sha256_pieces, Hc. unfold len. rewrite Nat2N.id, firstn_all. done.
Qed.

Lemma hashed_more c h n :
  hashed c h n →
  hashed c (hasher_update h (take (N.to_nat BUFFER) (drop (N.to_nat n) c)))
    (n + len (take (N.to_nat BUFFER) (drop (N.to_nat n) c))).
Proof.
  generalize BUFFER. intros B (pieces & -> & Hc & Hn). set (b := take _ _). exists (pieces ++ [b]). rewrite foldl_app, concat_app.
  assert (len b = N.min B (len c - n)) as Hb.
  { unfold b, len. rewrite length_take, length_drop. lia. }
  split_and!; [done| |lia]. rewrite Hc. simpl. rewrite app_nil_r. unfold b at 1.
  assert (N.to_nat (n + len b) = N.to_nat n + N.to_nat (len b)) as -> by lia.
  rewrite <- take_take_drop. f_equal. rewrite Hb. destruct (N.min_spec B (len c - n)) as [[? ->]|[? ->]]; [done|].
  rewrite !take_ge; [done|rewrite length_drop; unfold len in *; lia..].
Qed.

Lemma hash_loop_ok fuel f path h n w w' d size node_ :
  node_at (at_ f) w = Some node_ → hashed (content (status node_)) h n → (n < u64_bound)%N →
  hash_loop fuel f path h n w = (w', Ok (d, size)) →
  d = sha256_digest (content (status node_)) ∧ size = len (content (status node_)) ∧ (size < u64_bound)%N.
Proof.
  revert h n w. induction fuel as [|fuel IH]; intros h n w Hn Hh Hlt; [done|]. cbn [hash_loop].
  intros (b & w1 & Hb & H)%io_bind_ok. apply io_call_ok, observe_ok in Hb as [-> (m & Hm%ok_or_ok & Hb)%bind_ok].
  change (node_at (at_ f) w = Some m) in Hm. rewrite Hn in Hm. injection Hm as <-.
  destruct (decide (is_dir _)) in Hb; [done|]. apply ok_inj in Hb as <-. case_decide as Hl.
  - apply io_ret_ok in H as [-> H]. injection H as <- <-. destruct (hashed_all _ _ _ Hh); [by apply len_zero|]. subst. done.
  - apply io_bind_ok in H as (n' & w2 & [-> Hc%ok_or_ok]%io_pure_ok & H).
    apply checked_add_Some in Hc as [-> Hc]. eapply IH; [|by apply hashed_more|exact Hc|exact H]. done.
Qed.

Lemma hash_file_ok f path w w' d size :
  hash_file f path w = (w', Ok (d, size)) →
  same w w' ∧ ∀ n, node_at (at_ f) w = Some n →
    d = sha256_digest (content (status n)) ∧ size = len (content (status n)) ∧ (size < u64_bound)%N.
Proof.
  intros H. split; [by eapply observed; [apply steps_hash_file, _|]|].
  intros n Hn. eapply hash_loop_ok; [done|apply hashed_new|done|exact H].
Qed.
End hashing.

(** ** Operations when no call fails *)
Definition quiet (w : world) : Prop := faults w = [].

Lemma tick_quiet w : quiet w → tick w = w.
Proof. destruct w; unfold quiet; simpl. by intros ->. Qed.

Lemma observe_quiet {A} (look : world → result io_error A) w : quiet w → observe look w = (w, look w).
Proof. intros Hq. unfold observe, syscall. rewrite Hq. by rewrite tick_quiet. Qed.

Lemma io_call_quiet {A} o path (look : world → result io_error A) w a :
  quiet w → look w = Ok a → io_call o path (observe look) w = (w, Ok a).
Proof. intros Hq Ha. unfold io_call, or_else. by rewrite observe_quiet, Ha. Qed.

Lemma run_bind {A B} (m : io A) (f : A → io B) w w' a : m w = (w', Ok a) → (m ≫= f) w = f a w'.
Proof. unfold mbind, io_bind. by intros ->. Qed.
Lemma run_attempt {E A} (s : world → world * result E A) w w' a : s w = (w', Ok a) → attempt s w = (w', Ok (inr a)).
Proof. unfold attempt. by intros ->. Qed.
(** Runs the first operation of a sequence. *)
Tactic Notation "run" tactic3(t) := erewrite run_bind by t; cbv beta zeta iota.
Lemma run_guard {A} (P : Prop) `{Decision P} (x k : io A) w : ¬ P → (if decide P then x else k) w = k w.
Proof. intros. by rewrite decide_False. Qed.

Lemma open_regular_at_quiet p name path w n b :
  quiet w → node_at (p ++ [name]) w = Some n → kind (status n) = RegularFile b →
  open_regular_at p name path w = (w, Ok (file (p ++ [name]) (ino (status n)))).
Proof.
  intros Hq Hn Hk. unfold open_regular_at, or_else, open_read. rewrite observe_quiet by done.
  unfold entry. rewrite Hn. simpl. by rewrite Hk.
Qed.

Lemma open_dir_at_quiet p name path w n :
  quiet w → node_at (p ++ [name]) w = Some n → is_dir (status n) → open_dir_at p name path w = (w, Ok (p ++ [name])).
Proof.
  intros Hq Hn Hk. unfold open_dir_at, or_else, open_directory. rewrite observe_quiet by done.
  unfold entry. rewrite Hn. simpl. by rewrite decide_True.
Qed.

Lemma validate_regular_quiet f path device m b w n :
  quiet w → node_at (at_ f) w = Some n → kind (status n) = RegularFile b → nlink (status n) = 1%N →
  dev (status n) = device → uid (status n) = geteuid w → mode (status n) = m →
  validate_regular f path device m w = (w, Ok (status n)).
Proof.
  intros Hq Hn Hk Hl Hd Hu Hm. unfold validate_regular, validate_common_metadata.
  erewrite run_bind by (apply io_call_quiet; [done|]; by rewrite Hn). cbv beta.
  rewrite run_guard. 2:{ unfold is_file. rewrite Hk. tauto. }
  erewrite run_bind; [done|]. rewrite run_guard by tauto. erewrite run_bind; [|done].
  rewrite run_guard by tauto. by rewrite run_guard by tauto.
Qed.

Lemma validate_directory_quiet p path device m w n :
  quiet w → node_at p w = Some n → is_dir (status n) →
  dev (status n) = device → uid (status n) = geteuid w → mode (status n) = m →
  validate_directory p path device m w = (w, Ok (status n)).
Proof.
  intros Hq Hn Hk Hd Hu Hm. unfold validate_directory, validate_common_metadata.
  erewrite run_bind by (apply io_call_quiet; [done|]; by rewrite Hn). cbv beta.
  rewrite run_guard by tauto. erewrite run_bind; [done|]. rewrite run_guard by tauto. erewrite run_bind; [|done].
  rewrite run_guard by tauto. by rewrite run_guard by tauto.
Qed.

Lemma read_bounded_quiet f path k w n b :
  quiet w → node_at (at_ f) w = Some n → kind (status n) = RegularFile b → (len b ≤ MAX_METADATA_BYTES)%N →
  read_bounded f path k w = (w, Ok b).
Proof.
  intros Hq Hn Hk Hl. unfold read_bounded.
  erewrite run_bind. 2:{ apply io_call_quiet; [done|]. rewrite Hn. simpl. rewrite decide_False.
    - unfold content. rewrite Hk. rewrite take_ge; [done|]. unfold len in Hl. lia.
    - unfold is_dir. by rewrite Hk. }
  rewrite run_guard by lia. done.
Qed.

Lemma list_names_quiet p path w d :
  quiet w → node_at p w = Some d → is_dir (status d) →
  list_names p path w = (w, Ok (sort (filter (λ name, name ≠ bs "." ∧ name ≠ bs "..") (entry_names d)))).
Proof.
  intros Hq Hd Hk. unfold list_names. erewrite run_bind by (by apply io_call_quiet).
  erewrite run_bind by (by apply io_call_quiet). erewrite run_bind; [done|].
  apply io_call_quiet; [done|]. rewrite Hd. simpl. by rewrite decide_False by tauto.
Qed.

Lemma for_each_quiet {A} (f : A → io ()) l w : (∀ a, a ∈ l → f a w = (w, Ok ())) → for_each f l w = (w, Ok ()).
Proof.
  induction l as [|a l IH]; intros Hf; cbn [for_each]; [done|].
  rewrite (run_bind _ _ _ w ()) by (apply Hf; left). apply IH. intros b Hb. apply Hf. by right.
Qed.

Section hashing_quiet.
Context {sha : Sha2} {laws : Sha2Laws}.

(** Each round reads at least one byte until the end. *)
Lemma hash_loop_quiet fuel f path h n w node_ b :
  quiet w → node_at (at_ f) w = Some node_ → kind (status node_) = RegularFile b → (len b < u64_bound)%N →
  hashed b h n → (len b < N.of_nat fuel + n)%N →
  hash_loop fuel f path h n w = (w, Ok (sha256_digest b, len b)).
Proof.
  intros Hq Hn Hk Hb. revert h n. induction fuel as [|fuel IH]; intros h n Hh Hf.
  { destruct Hh as (? & _ & _ & ?). lia. }
  cbn [hash_loop]. erewrite run_bind. 2:{ apply io_call_quiet; [done|]. rewrite Hn. simpl.
    rewrite decide_False; [done|]. unfold is_dir. by rewrite Hk. }
  assert (content (status node_) = b) as -> by (unfold content; by rewrite Hk).
  pose proof (hashed_more _ _ _ Hh) as Hh'. set (piece := take _ _) in *. cbv beta. case_decide as Hl.
  - apply len_zero in Hl. destruct (hashed_all _ _ _ Hh Hl) as [-> ->]. done.
  - pose proof Hh' as (? & _ & _ & Hle).
    rewrite checked_add_fits by lia. cbn [ok_or]. erewrite run_bind; [|done]. apply IH; [done|lia].
Qed.

Lemma hash_file_quiet f path w n b :
  quiet w → node_at (at_ f) w = Some n → kind (status n) = RegularFile b → (len b < u64_bound)%N →
  hash_file f path w = (w, Ok (sha256_digest b, len b)).
Proof.
  intros Hq Hn Hk Hb. unfold hash_file. eapply hash_loop_quiet; [done..|apply hashed_new|].
  rewrite Hn. simpl. unfold content. rewrite Hk. unfold len. lia.
Qed.
End hashing_quiet.

(** ** Calls that change the tree, when they succeed *)
Lemma syscall_ok {A} (run : world → world * result io_error A) w w' a :
  syscall run w = (w', Ok a) → run (tick w) = (w', Ok a).
Proof. unfold syscall. by destruct (faults w) as [|[|n e|n] fs]. Qed.

Lemma attached p name n d w : node_at p w = Some d → node_at (p ++ [name]) (attach p name n w) = Some n.
Proof.
  unfold node_at, attach, update. simpl. intros Hd. rewrite find_change_below, Hd. simpl. by rewrite lookup_insert_eq.
Qed.

(** A directory is still there after one of its siblings, or an entry of it, went. *)
Lemma detach_keeps_some p name q w :
  is_Some (node_at q w) → ¬ (p ++ [name]) `prefix_of` q → is_Some (node_at q (detach p name w)).
Proof.
  unfold node_at, detach, update. simpl. generalize (tree w). intros t. revert q t.
  induction p as [|x p IH]; intros q t Hs Hn; simpl.
  - destruct q as [|y q]; [done|]. simpl in *. destruct (decide (name = y)) as [->|Hy].
    + destruct Hn. apply prefix_cons, prefix_nil.
    + by rewrite lookup_delete_ne.
  - destruct q as [|y q]; [done|]. simpl in *. destruct (decide (x = y)) as [->|Hy].
    + rewrite lookup_alter_eq. destruct (entries t !! y) as [c|]; simpl in *; [|done].
      apply IH; [done|]. intros Hp. apply Hn. by apply prefix_cons.
    + by rewrite lookup_alter_ne.
Qed.

Lemma create_ok p name m k w w' i :
  create p name m k w = (w', Ok i) →
  ∃ d, node_at p w = Some d ∧ is_dir (status d) ∧ entries d !! name = None ∧ geteuid w' = geteuid w ∧
    node_at (p ++ [name]) w' =
      Some (Node (inode_of i (dev (status d)) (geteuid w) (N.ldiff m (umask w)) 1 k) ∅).
Proof.
  intros H%syscall_ok. change (node_at p (tick w)) with (node_at p w) in H.
  destruct (node_at p w) as [d|] eqn:Hd; [|done]. case_decide as Hk; [done|].
  destruct (entries d !! name) eqn:He; [done|]. injection H as <- <-. exists d. split_and!; [done..|].
  by apply (attached p name _ d (tick w)).
Qed.

Definition with_mode (m : N) (i : inode) : inode := inode_of (ino i) (dev i) (uid i) m (nlink i) (kind i).

Lemma set_mode_ok p m path w w' u :
  set_mode p m path w = (w', Ok u) →
  geteuid w' = geteuid w ∧ node_at p w' = (λ n, set_status (with_mode m (status n)) n) <$> node_at p w.
Proof.
  intros H%io_call_ok%syscall_ok. injection H as <-. split; [done|]. unfold node_at, update. simpl.
  by rewrite find_change.
Qed.

Lemma fsync_ok o path w w' u : io_call o path fsync w = (w', Ok u) → same w w'.
Proof. intros H. eapply observed; [|exact H]. apply steps_io_call, steps_fsync, _. Qed.

Lemma write_file_ok p b w w' u :
  write_file p b w = (w', Ok u) → geteuid w' = geteuid w ∧ node_at p w' = append b <$> node_at p w.
Proof.
  unfold write_file, node_at. destruct (faults w) as [|[|n e|n] fs]; [| |done..];
    intros [= <-]; (split; [done|]); unfold update; simpl; by rewrite find_change.
Qed.

(** A change strictly below a directory, or of its entries, keeps its own inode. *)
Lemma find_change_above f p q n : find p (change f (p ++ q) n) = change f q <$> find p n.
Proof.
  revert n. induction p as [|name p IH]; intros n; simpl; [done|].
  rewrite lookup_alter_eq. destruct (entries n !! name) as [c|]; simpl; [apply IH|done].
Qed.
Definition status_at (p : location) (w : world) : option inode := status <$> node_at p w.
Lemma status_at_same p w w' : same w w' → status_at p w' = status_at p w.
Proof. intros Hs. unfold status_at. by rewrite (same_node _ _ _ Hs). Qed.
Lemma status_at_update f p name w : status_at p (update f (p ++ [name]) w) = status_at p w.
Proof. unfold status_at, node_at, update. simpl. rewrite find_change_above. by destruct (find p (tree w)). Qed.

Lemma create_status p name m k w w' i : create p name m k w = (w', Ok i) → status_at p w' = status_at p w.
Proof.
  intros H%syscall_ok. change (node_at p (tick w)) with (node_at p w) in H.
  destruct (node_at p w) as [d|] eqn:Hd; [|done]. case_decide; [done|]. destruct (entries d !! name); [done|].
  injection H as <- <-. unfold status_at. rewrite Hd. unfold node_at, update in *. simpl. by rewrite find_change, Hd.
Qed.
Lemma set_mode_status p name m path w w' u :
  set_mode (p ++ [name]) m path w = (w', Ok u) → status_at p w' = status_at p w.
Proof. intros H%io_call_ok%syscall_ok. injection H as <-. etrans; [apply status_at_update|done]. Qed.
Lemma write_file_status p name b w w' u : write_file (p ++ [name]) b w = (w', Ok u) → status_at p w' = status_at p w.
Proof.
  unfold write_file. destruct (faults w) as [|[|n e|n] fs]; [| |done..]; intros [= <-];
    (etrans; [apply status_at_update|done]).
Qed.

(** The file is there with its contents and its final mode. *)
Lemma write_new_synced_ok p name path b m w w' f :
  write_new_synced p name path b m w = (w', Ok f) →
  (len b ≤ MAX_METADATA_BYTES)%N ∧
  ∃ d, node_at p w = Some d ∧ entries d !! name = None ∧ owned_file (p ++ [name]) (dev (status d)) m b w' ∧
       status_at p w' = Some (status d).
Proof.
  intros [Hl H]%io_guard_ok. split; [lia|]. apply io_bind_ok in H as (g & w1 & Hg & H).
  pose proof (create_regular_at_at _ _ _ _ _ _ Hg) as Hat.
  apply io_bind_ok in Hg as (g' & w2 & Hg & H2). apply io_bind_ok in H2 as (? & w3 & Hm & [-> ->]%io_ret_ok).
  apply io_call_ok in Hg. unfold open_new in Hg.
  destruct (create _ _ _ _ w) as [? [i|?|]] eqn:Hc; simplify_eq/=. pose proof (create_status _ _ _ _ _ _ _ Hc) as Hst2.
  apply create_ok in Hc as (d & Hd & _ & He & Hu & Hn).
  exists d. split; [done|]. split; [done|]. pose proof (set_mode_status _ _ _ _ _ _ _ Hm) as Hst3.
  apply set_mode_ok in Hm as [Hu3 Hm]. rewrite Hn in Hm.
  apply io_bind_ok in H as (? & w4 & Hw%io_call_ok & H). pose proof (write_file_status _ _ _ _ _ _ Hw) as Hst4.
  apply write_file_ok in Hw as [Hu4 Hw]. simpl in *. rewrite Hm in Hw.
  apply io_bind_ok in H as (? & w5 & Hs5%fsync_ok & H). apply io_bind_ok in H as (? & w6 & Hm6 & H).
  pose proof (set_mode_status _ _ _ _ _ _ _ Hm6) as Hst6. apply set_mode_ok in Hm6 as [Hu6 Hm6].
  apply io_bind_ok in H as (? & w7 & Hs7%fsync_ok & [-> _]%io_ret_ok). simpl in *.
  rewrite (same_node _ _ _ Hs5), Hw in Hm6. simpl in Hm6. split.
  2:{ rewrite (status_at_same _ _ _ Hs7), Hst6, (status_at_same _ _ _ Hs5), Hst4, Hst3, Hst2.
      unfold status_at. by rewrite Hd. }
  eexists. rewrite (same_node _ _ _ Hs7), Hm6. split; [done|].
  rewrite (same_euid _ _ Hs7), Hu6, (same_euid _ _ Hs5), Hu4, Hu3, Hu. by split_and!.
Qed.

(** The directory or file is under its new name, which was free. *)
Lemma rename_noreplace_ok p name q name' path w w' u :
  rename_noreplace_at p name q name' path w = (w', Ok u) →
  ∃ n, node_at (p ++ [name]) w = Some n ∧ node_at (q ++ [name']) w = None ∧ node_at (q ++ [name']) w' = Some n.
Proof.
  assert (∀ replace w w' u, rename replace p name q name' w = (w', Ok u) →
    node_at (q ++ [name']) w = None ∨ replace = false →
    ∃ n, node_at (p ++ [name]) w = Some n ∧ node_at (q ++ [name']) w = None ∧ node_at (q ++ [name']) w' = Some n) as Hren.
  { clear w w' u. intros replace w w' u H%syscall_ok Hfree.
    change (node_at ?r (tick w)) with (node_at r w) in H.
    destruct (node_at (p ++ [name]) w) as [n|] eqn:Hn; [|done]. destruct (node_at q w) as [d|] eqn:Hd; [|done].
    destruct (decide _); [done|]. destruct (decide (_ `prefix_of` _)) as [|Hpre]; [done|].
    rewrite (node_at_entry _ _ d) in * by done. destruct (entries d !! name') as [x|] eqn:Hx.
    - destruct Hfree as [?| ->]; done.
    - injection H as <-. exists n. split_and!; [done..|].
      destruct (detach_keeps_some p name q (tick w)) as [d' Hd']; [by exists d|done|].
      by eapply attached. }
  unfold rename_noreplace_at. intros (renamed & w1 & Ha & H)%io_bind_ok. destruct renamed as [e|[]].
  - case_decide; [|done]. rewrite attempt_err in Ha.
    assert (tree w1 = tree w) as Ht.
    { clear -Ha. unfold rename, syscall in Ha. destruct (faults w) as [|[|? ?|?] ?]; repeat case_match; simplify_eq/=; done. }
    apply io_bind_ok in H as (found & w2 & Hf & H). destruct found as [e'|]; [|done]. case_decide as He; [|done].
    rewrite attempt_err in Hf. apply observe_err in Hf as [-> [Hf|[x ->]]]; [|by destruct x; apply list_elem_of_singleton in He].
    apply or_else_ok in H. change (node_at ?r (tick w1)) with (node_at r w1) in Hf.
    assert (node_at (q ++ [name']) w1 = None) as Hnone by (by destruct (node_at (q ++ [name']) w1)).
    apply Hren in H as (n & Hn & Hq & Hw); [|by left].
    exists n. unfold node_at in *. simpl in *. rewrite Ht in *. done.
  - rewrite attempt_ok in Ha. apply io_ret_ok in H as [-> _]. eapply Hren; [exact Ha|by right].
Qed.

(** A rename that does not succeed changes nothing. *)
Lemma rename_failed replace p name q name' w w' r :
  rename replace p name q name' w = (w', r) → (∀ u, r ≠ Ok u) → same w w'.
Proof.
  intros H Hr. unfold rename, syscall in H.
  destruct (faults w) as [|[|? ?|?] ?]; repeat case_match; simplify_eq/=; first [done|by destruct (Hr ())].
Qed.

Lemma rename_noreplace_failed p name q name' path w w' r :
  rename_noreplace_at p name q name' path w = (w', r) → (∀ u, r ≠ Ok u) → same w w'.
Proof.
  unfold rename_noreplace_at, mbind, io_bind, attempt. destruct (rename false p name q name' w) as [w1 [[]|e|]] eqn:H1.
  - intros [= <- <-] Hr. by destruct (Hr ()).
  - apply rename_failed in H1; [|done]. case_decide; [|by intros [= <- <-]].
    unfold rename_checked_noreplace_at, mbind, io_bind, attempt.
    pose proof (steps_fstat same (q ++ [name']) w1) as Hs.
    unfold fstatat. destruct (fstat (q ++ [name']) w1) as [w2 [i|e'|]]; simpl in Hs.
    + intros [= <- <-] _. same_by.
    + case_decide; [|intros [= <- <-] _; same_by]. unfold or_else. destruct (rename true p name q name' w2) as [w3 r3] eqn:H3.
      intros [= <- <-] Hr. apply rename_failed in H3; [same_by|]. intros u ->. by destruct (Hr u).
    + intros [= <- <-] _. same_by.
  - apply rename_failed in H1; [|done]. intros [= <- <-] _. done.
Qed.
