(* ===== verification/Store.v ===== *)
(** * The image store: crates/pocket-store/src/store.rs

    The operations of [Store], [Lease] and [GenerationTransaction] over the file
    system of [StoreFs].  [guarded] holds a lock for the length of a block, whatever
    its outcome; [holding] keeps it when the block succeeds, for the operations that
    return a lock to their caller.

    The texts that the standard library makes for messages ([Display] of an I/O error
    and of a path, [Debug] of a string) are the class [StdText]. *)

From S2P Require Import Prelude RustStr Utf8 ByteOrder ManagedPath ProtocolError Sha256 StoreCodec HexText StoreIdentity StoreRecords StoreFs.

#[local] Arguments bs : simpl never.
#[local] Arguments len : simpl never.

Class StdText := {
  io_text : io_error → bytes;
  path_text : bytes → bytes;
  debug_text : bytes → bytes;
}.

(** ** Locks *)
Definition close_lock (f : File) (m : lock_mode) : io () := λ w, (funlock f m w, Ok ()).
Definition guarded {A} (f : File) (m : lock_mode) (body : io A) : io A := λ w,
  let '(w, r) := body w in (funlock f m w, r).
Definition holding {A} (f : File) (m : lock_mode) (body : io A) : io A := λ w,
  let '(w, r) := body w in (match r with Ok _ => w | _ => funlock f m w end, r).

(** ** Errors *)
Definition metadata_kind_text (k : MetadataKind.t) : bytes :=
  match k with
  | MetadataKind.Store => bs "store"
  | MetadataKind.Generation => bs "generation"
  | MetadataKind.Staging => bs "staging"
  | MetadataKind.Alias => bs "alias"
  | MetadataKind.Lease => bs "lease"
  | MetadataKind.RetainedCow => bs "retained COW"
  | MetadataKind.Instance => bs "instance"
  | MetadataKind.Derivation => bs "derivation lookup"
  | MetadataKind.Lock => bs "lock"
  end.

Definition error_text `{Hex} `{StdText} (e : StoreError.t) : bytes :=
  match e with
  | StoreError.Io operation path source =>
      bs operation ++ bs " failed for " ++ path_text path ++ bs ": " ++ io_text source
  | StoreError.InvalidRoot path reason => bs "invalid store root " ++ path_text path ++ bs ": " ++ reason
  | StoreError.InvalidInput field reason => bs "invalid " ++ bs field ++ bs ": " ++ reason
  | StoreError.InvalidMetadata kind path reason =>
      bs "invalid " ++ metadata_kind_text kind ++ bs " metadata at " ++ path_text path ++ bs ": " ++ reason
  | StoreError.MetadataTooLarge kind path maximum =>
      metadata_kind_text kind ++ bs " metadata at " ++ path_text path ++ bs " exceeds the "
        ++ to_decimal maximum ++ bs "-byte limit"
  | StoreError.Symlink path => bs "symbolic links are forbidden at " ++ path_text path
  | StoreError.CrossDevice path expected actual =>
      path_text path ++ bs " is on device " ++ to_decimal actual ++ bs ", expected store device "
        ++ to_decimal expected
  | StoreError.GenerationNotFound id => bs "generation " ++ generation_name id ++ bs " does not exist"
  | StoreError.DerivationBusy key =>
      bs "derivation " ++ id_to_string DERIVATION_PREFIX key ++ bs " is already being prepared"
  | StoreError.GenerationAlreadyExists id =>
      bs "generation " ++ generation_name id ++ bs " has already been published"
  | StoreError.AliasNotFound => bs "alias does not exist"
  | StoreError.DerivationNotFound => bs "derivation lookup does not exist"
  | StoreError.RetainedCowNotFound => bs "retained COW record does not exist"
  | StoreError.InstanceNotFound => bs "instance does not exist"
  | StoreError.DigestMismatch path expected actual =>
      bs "digest mismatch for " ++ path_text path ++ bs ": expected " ++ digest_to_string expected
        ++ bs ", observed " ++ digest_to_string actual
  | StoreError.SizeMismatch path expected actual =>
      bs "size mismatch for " ++ path_text path ++ bs ": expected " ++ to_decimal expected
        ++ bs ", observed " ++ to_decimal actual
  | StoreError.SidecarNotFound generation name =>
      bs "generation " ++ generation_name generation ++ bs " has no immutable sidecar named " ++ debug_text name
  | StoreError.SidecarTooLarge path actual maximum =>
      bs "immutable sidecar " ++ path_text path ++ bs " is " ++ to_decimal actual
        ++ bs " bytes, exceeding the " ++ to_decimal maximum ++ bs "-byte read limit"
  | StoreError.UnsafeGarbageCollection reason =>
      bs "garbage collection refused because a GC-root record is invalid: " ++ reason
  | StoreError.UnexpectedEntry path =>
      bs "store entry " ++ path_text path ++ bs " has an unsupported type or name"
  end.

Definition io_error_is (e : StoreError.t) (k : ErrorKind) : Prop :=
  match e with StoreError.Io _ _ source => io_kind source = k | _ => False end.
#[export] Instance io_error_is_dec e k : Decision (io_error_is e k).
Proof. destruct e; unfold io_error_is; apply _. Defined.

(** ** The store and what it returns *)
Definition STORE_METADATA : bytes := bs "store.meta".
Definition INIT_LOCK : bytes := bs "init.lock".
Definition ROOTS_LOCK : bytes := bs "roots.lock".
Definition GENERATION_METADATA : bytes := bs "generation.meta".
Definition STAGING_METADATA : bytes := bs "staging.meta".
Definition BASE_IMAGE : bytes := bs "base.ext4".

(** The descriptors of the eight directories stay where [open_from_file] opened them:
    directly under the root. *)
Record Store : Set := store_of {
  root_path : bytes;
  root : location;
  root_device : N;
  root_inode : N;
}.

Definition GENERATIONS : bytes := bs "generations".
Definition DERIVATIONS : bytes := bs "derivations".
Definition STAGING : bytes := bs "staging".
Definition ALIASES : bytes := bs "aliases".
Definition LEASES : bytes := bs "leases".
Definition RETAINED : bytes := bs "retained".
Definition INSTANCES : bytes := bs "instances".
Definition LOCKS : bytes := bs "locks".

Definition dir (self : Store) (name : bytes) : location := root self ++ [name].
(** [self.root_path.join(directory).join(name)] *)
Definition path_in (self : Store) (directory name : bytes) : bytes :=
  path_join (path_join (root_path self) directory) name.

Record Generation : Set := generation_of {
  manifest : GenerationManifest.t;
  directory_path : bytes;
  directory : location;
  base_path : bytes;
  base : File;
  generation_device : N;
}.

Record Lease : Set := lease_of { generation : Generation; lease_lock : File }.
Definition lease_id (self : Lease) : Digest := GenerationManifest.id (manifest (generation self)).

Record GenerationTransaction : Set := transaction_of {
  spec : GenerationSpec.t;
  derivation_key : Digest;
  build_lock : File;
  stage_name : bytes;
  stage : location;
  generation_temp_name : option bytes;
  clean_on_drop : bool;
}.

Inductive BeginGeneration : Set :=
| Existing (lease : Lease)
| Vacant (transaction : GenerationTransaction).

Record AliasRoot : Set := alias_root {
  alias_root_id : Digest;
  alias_root_profile_id : bytes;
  alias_root_reference : bytes;
  alias_root_platform : bytes;
  alias_root_selector_policy_id : bytes;
  alias_root_generation_id : Digest;
}.

Record RetainedRoot : Set := retained_root {
  retained_root_id : Digest;
  retained_root_generation_id : Digest;
  retained_root_instance_name : option bytes;
  retained_root_cow_size : N;
}.

Inductive RetainedRelease : Set :=
| Released (retained : RetainedCow.t)
| Absent
| HeldBy (name : bytes).

Record RetainedCowLease : Set := retained_lease {
  leased_retained : RetainedCow.t;
  generation_lease : Lease;
  cow : File;
}.

Record RecoveryReport : Set := recovery_report {
  removed_staging : list bytes;
  busy_staging : list bytes;
  completed_publications : list Digest;
  busy_publications : list Digest;
  removed_temporary_records : list bytes;
  blocked_entries : list bytes;
}.
Definition recovery_default : RecoveryReport := recovery_report [] [] [] [] [] [].

Record GarbageCollectionReport : Set := collection_report {
  collected : list Digest;
  rooted : list Digest;
  leased_or_busy : list Digest;
  corrupt_unrooted : list Digest;
  publication_in_flight : list bytes;
  discarded_derivation_index : list Digest;
}.
Definition collection_default : GarbageCollectionReport := collection_report [] [] [] [] [] [].

Section store.
Context {sha : Sha2} {hex : Hex} {text : StdText}.

(** ** Names and fixed records *)
Definition unique_suffix : io bytes := λ w,
  let counter := unique_counter w in
  let h := foldl hasher_update hasher_new
             [bs "pocket-store-unique-suffix" ++ [x00] ++ bs "v1" ++ [x00]; to_be 4 (process_id w);
              to_be 8 counter; to_be 16 (nanos w counter)] in
  (burn_counter w, Ok (hex_encode (take 16 (hasher_finalize h)))).

Definition open_and_validate_layout_dir (root : location) (root_path name : bytes) (device : N) : io location :=
  let path := path_join root_path name in
  directory ← open_dir_at root name path;
  validate_directory directory path device PRIVATE_DIR_MODE;;
  mret directory.

(** The record at [name] is [b]. *)
Definition check_contents (f : File) (path b : bytes) (device : N) (kind : MetadataKind.t) (m : N) : io () :=
  validate_regular f path device m;;
  actual ← read_bounded f path kind;
  if decide (actual ≠ b) then fail (StoreError.InvalidMetadata kind path (bs "record contents differ")) else
  mret ().

(** [attempts] left, the present one included *)
Fixpoint publish_record (attempts : nat) (parent : location) (parent_path : bytes) (name path b : bytes) (m : N)
    : io () :=
  match attempts with
  | O => mret ()
  | S attempts =>
    suffix ← unique_suffix;
    let temp_name := FIXED_TEMP_PREFIX ++ suffix in
    let temp_path := path_join parent_path temp_name in
    write_new_synced parent temp_name temp_path b m;;
    renamed ← attempt (rename_noreplace_at parent temp_name parent name path);
    match renamed with
    | inr _ => io_call "sync fixed record publication" path fsync
    | inl e =>
      if decide (io_error_is e AlreadyExists) then ignore (unlink_file_at parent temp_name temp_path) else
      if decide (io_error_is e NotFound ∧ attempts ≠ 0)
      then publish_record attempts parent parent_path name path b m else
      ignore (unlink_file_at parent temp_name temp_path);; fail e
    end
  end.

Definition PUBLICATION_ATTEMPTS : nat := 4.

Definition ensure_record_at (parent : location) (parent_path : bytes) (device : N) (name b : bytes)
    (kind : MetadataKind.t) (m : N) : io () :=
  let path := path_join parent_path name in
  opened ← attempt (open_regular_at parent name path);
  match opened with
  | inr f => check_contents f path b device kind m
  | inl e =>
    if decide (¬ io_error_is e NotFound) then fail e else
    publish_record PUBLICATION_ATTEMPTS parent parent_path name path b m;;
    f ← open_regular_at parent name path;
    check_contents f path b device kind m
  end.

(** [metadata().ok().map(|metadata| metadata.ino())] *)
Definition inode_number (p : location) : io (option N) :=
  found ← attempt (fstat p);
  mret (match found with inr i => Some (ino i) | inl _ => None end).

Fixpoint layout_path (self : Store) (inode : option N) (name : bytes) (directories : list bytes) : io bytes :=
  match directories with
  | [] => mret (path_in self (bs "<unknown>") name)
  | d :: directories =>
    found ← inode_number (dir self d);
    if decide (inode = found) then mret (path_in self d name) else layout_path self inode name directories
  end.

Definition path_for_layout_file (self : Store) (parent : location) (name : bytes) : io bytes :=
  inode ← inode_number parent;
  if decide (inode = Some (root_inode self)) then mret (path_join (root_path self) name) else
  layout_path self inode name [GENERATIONS; DERIVATIONS; STAGING; ALIASES; LEASES; RETAINED; LOCKS].

Definition ensure_fixed_record (self : Store) (parent_fd : location) (name b : bytes) (kind : MetadataKind.t)
    (m : N) : io () :=
  path ← path_for_layout_file self parent_fd name;
  parent_path ← pure (ok_or (parent path) (StoreError.InvalidRoot path (bs "layout file has no parent")));
  ensure_record_at parent_fd parent_path (root_device self) name b kind m.

Definition open_fixed_lock (self : Store) (parent : location) (name : bytes) (key : option Digest)
    (parent_path : bytes) : io File :=
  let path := path_join parent_path name in
  f ← open_regular_at parent name path;
  validate_regular f path (root_device self) PRIVATE_FILE_MODE;;
  io_call "clone lock file" path dup;;
  b ← read_bounded f path MetadataKind.Lock;
  pure (validate_lock_record b key path);;
  mret f.

Definition lock_path (self : Store) (key : Digest) : bytes := path_in self LOCKS (derivation_lock_filename key).
Definition lease_path (self : Store) (id : Digest) : bytes := path_in self LEASES (lease_filename id).
Definition generation_path (self : Store) (id : Digest) : bytes := path_in self GENERATIONS (generation_name id).
Definition derivation_path (self : Store) (key : Digest) : bytes :=
  path_in self DERIVATIONS (derivation_filename key).
Definition alias_path (self : Store) (id : Digest) : bytes := path_in self ALIASES (alias_filename id).
Definition retained_path (self : Store) (id : Digest) : bytes := path_in self RETAINED (retained_filename id).
Definition instance_path (self : Store) (id : Digest) : bytes := path_in self INSTANCES (instance_filename id).

Definition open_derivation_lock (self : Store) (key : Digest) : io File :=
  let name := derivation_lock_filename key in
  b ← pure (lock_record (Some key));
  ensure_fixed_record self (dir self LOCKS) name b MetadataKind.Lock PRIVATE_FILE_MODE;;
  open_fixed_lock self (dir self LOCKS) name (Some key) (path_join (root_path self) LOCKS).

Definition open_lease_lock (self : Store) (id : Digest) : io File :=
  let name := lease_filename id in
  b ← pure (lease_record id);
  ensure_fixed_record self (dir self LEASES) name b MetadataKind.Lease PRIVATE_FILE_MODE;;
  let path := lease_path self id in
  f ← open_regular_at (dir self LEASES) name path;
  validate_regular f path (root_device self) PRIVATE_FILE_MODE;;
  io_call "clone lease file" path dup;;
  actual ← read_bounded f path MetadataKind.Lease;
  pure (validate_lease_record actual id path);;
  mret f.

Definition lock_roots_exclusive (self : Store) : io File :=
  lock ← open_fixed_lock self (root self) ROOTS_LOCK None (root_path self);
  io_call "acquire exclusive GC-root lock" (path_join (root_path self) ROOTS_LOCK) (flock lock Exclusive true);;
  mret lock.

Definition lock_roots_shared (self : Store) : io File :=
  lock ← open_fixed_lock self (root self) ROOTS_LOCK None (root_path self);
  io_call "acquire shared GC-root lock" (path_join (root_path self) ROOTS_LOCK) (flock lock Shared true);;
  mret lock.

(** Between taking the lock and dropping it. *)
Definition with_roots_exclusive {A} (self : Store) (body : io A) : io A :=
  lock ← lock_roots_exclusive self; guarded lock Exclusive body.
Definition with_roots_shared {A} (self : Store) (body : io A) : io A :=
  lock ← lock_roots_shared self; guarded lock Shared body.

Definition validate_root_identity (self : Store) : io () :=
  reopened ← open_absolute_dir_no_symlinks (root_path self);
  identity ← validate_private_root reopened (root_path self);
  if decide (identity ≠ (root_device self, root_inode self))
  then fail (StoreError.InvalidRoot (root_path self) (bs "root path no longer names the opened store inode"))
  else mret ().

Definition validate_store_header (self : Store) : io () :=
  let path := path_join (root_path self) STORE_METADATA in
  f ← open_regular_at (root self) STORE_METADATA path;
  validate_regular f path (root_device self) IMMUTABLE_FILE_MODE;;
  b ← read_bounded f path MetadataKind.Store;
  reader ← pure (in_file MetadataKind.Store path (verify_record b STORE_MAGIC MetadataKind.Store));
  pure (in_file MetadataKind.Store path (Reader.finish reader));;
  pure (canonical store_header b MetadataKind.Store path "record is not in canonical encoding").

(** ** Generations *)

(** Open an immutable file of a generation and compare its size and its contents. *)
Definition verify_file (directory : location) (name path : bytes) (device expected_size : N)
    (expected_digest : Digest) : io File :=
  f ← open_regular_at directory name path;
  metadata ← validate_regular f path device IMMUTABLE_FILE_MODE;
  if decide (size metadata ≠ expected_size)
  then fail (StoreError.SizeMismatch path expected_size (size metadata)) else
  '(observed_digest, observed_size) ← hash_file f path;
  if decide (observed_size ≠ expected_size)
  then fail (StoreError.SizeMismatch path expected_size observed_size) else
  if decide (observed_digest ≠ expected_digest)
  then fail (StoreError.DigestMismatch path expected_digest observed_digest) else
  mret f.

Definition sidecar_names (sidecars : list ImmutableSidecar.t) : list bytes := ImmutableSidecar.name <$> sidecars.

Definition read_staging_record (directory : location) (path : bytes) (device : N) : io StagingRecord.t :=
  f ← open_regular_at directory STAGING_METADATA path;
  validate_regular f path device IMMUTABLE_FILE_MODE;;
  b ← read_bounded f path MetadataKind.Staging;
  pure (StagingRecord.decode b path).

Definition verify_generation_with_directory_mode (self : Store) (id : Digest) (expected_directory_mode : N)
    : io Generation :=
  validate_root_identity self;;
  let directory_path := generation_path self id in
  opened ← attempt (open_dir_at (dir self GENERATIONS) (generation_name id) directory_path);
  directory ← match opened with
              | inr directory => mret directory
              | inl e => if decide (io_error_is e NotFound) then fail (StoreError.GenerationNotFound id) else fail e
              end;
  validate_directory directory directory_path (root_device self) expected_directory_mode;;
  names ← list_names directory directory_path;
  let entries := sort names in
  let metadata_path := path_join directory_path GENERATION_METADATA in
  metadata_file ← open_regular_at directory GENERATION_METADATA metadata_path;
  validate_regular metadata_file metadata_path (root_device self) IMMUTABLE_FILE_MODE;;
  b ← read_bounded metadata_file metadata_path MetadataKind.Generation;
  manifest ← pure (GenerationManifest.decode b metadata_path);
  if decide (GenerationManifest.id manifest ≠ id)
  then fail (StoreError.InvalidMetadata MetadataKind.Generation metadata_path
               (bs "manifest ID does not match generation directory")) else
  let expected := sort ([BASE_IMAGE; GENERATION_METADATA; STAGING_METADATA]
                        ++ sidecar_names (GenerationManifest.sidecars manifest)) in
  if decide (entries ≠ expected) then fail (StoreError.UnexpectedEntry directory_path) else
  let stage_metadata_path := path_join directory_path STAGING_METADATA in
  stage_record ← read_staging_record directory stage_metadata_path (root_device self);
  if decide (StagingRecord.derivation_key stage_record ≠ GenerationManifest.derivation_key manifest)
  then fail (StoreError.InvalidMetadata MetadataKind.Staging stage_metadata_path
               (bs "staging derivation key does not match generation manifest")) else
  let base_path := path_join directory_path BASE_IMAGE in
  base ← verify_file directory BASE_IMAGE base_path (root_device self) (GenerationManifest.base_size manifest)
           (GenerationManifest.base_digest manifest);
  for_each (λ sidecar,
      verify_file directory (ImmutableSidecar.name sidecar) (path_join directory_path (ImmutableSidecar.name sidecar))
        (root_device self) (ImmutableSidecar.size sidecar) (ImmutableSidecar.digest sidecar);;
      mret ()) (GenerationManifest.sidecars manifest);;
  mret (generation_of manifest directory_path directory base_path base (root_device self)).

Definition verify_generation (self : Store) (id : Digest) : io Generation :=
  verify_generation_with_directory_mode self id IMMUTABLE_DIR_MODE.

Definition acquire_lease_inner (self : Store) (id : Digest) : io Lease :=
  lock ← open_lease_lock self id;
  io_call "acquire shared generation lease" (lease_path self id) (flock lock Shared true);;
  holding lock Shared (
    generation ← verify_generation self id;
    mret (lease_of generation lock)).

Definition acquire_lease (self : Store) (id : Digest) : io Lease :=
  validate_root_identity self;;
  acquire_lease_inner self id.

Definition read_sidecar (self : Lease) (name : bytes) (maximum_bytes : N) : io bytes :=
  if decide (maximum_bytes = 0%N)
  then fail (StoreError.InvalidInput "sidecar.maximum_bytes" (bs "must be greater than zero")) else
  match List.find (λ s, bool_decide (ImmutableSidecar.name s = name))
          (GenerationManifest.sidecars (manifest (generation self))) with
  | None => fail (StoreError.SidecarNotFound (lease_id self) name)
  | Some sidecar =>
    let path := path_join (directory_path (generation self)) (ImmutableSidecar.name sidecar) in
    let expected := ImmutableSidecar.size sidecar in
    let device := generation_device (generation self) in
    if decide (maximum_bytes < expected)%N
    then fail (StoreError.SidecarTooLarge path expected maximum_bytes) else
    f ← open_regular_at (directory (generation self)) (ImmutableSidecar.name sidecar) path;
    metadata ← validate_regular f path device IMMUTABLE_FILE_MODE;
    if decide (size metadata ≠ expected) then fail (StoreError.SizeMismatch path expected (size metadata)) else
    b ← io_call "read immutable sidecar" path (read_to_end f (saturating_add expected 1));
    if decide (len b ≠ expected) then fail (StoreError.SizeMismatch path expected (len b)) else
    if decide (sha256_digest b ≠ ImmutableSidecar.digest sidecar)
    then fail (StoreError.DigestMismatch path (ImmutableSidecar.digest sidecar) (sha256_digest b)) else
    final ← validate_regular f path device IMMUTABLE_FILE_MODE;
    if decide (dev final ≠ dev metadata ∨ ino final ≠ ino metadata ∨ size final ≠ size metadata)
    then fail (StoreError.UnexpectedEntry path) else
    mret b
  end.

(** ** Reading records *)

(** The bytes of an immutable record; a missing file is [absent]. *)
Definition read_record_file (self : Store) (directory name path : bytes) (kind : MetadataKind.t)
    (absent : StoreError.t) : io bytes :=
  opened ← attempt (open_regular_at (dir self directory) name path);
  f ← match opened with
      | inr f => mret f
      | inl e => if decide (io_error_is e NotFound) then fail absent else fail e
      end;
  validate_regular f path (root_device self) IMMUTABLE_FILE_MODE;;
  read_bounded f path kind.

Definition read_derivation (self : Store) (key : Digest) : io DerivationRecord.t :=
  let path := derivation_path self key in
  b ← read_record_file self DERIVATIONS (derivation_filename key) path MetadataKind.Derivation
        StoreError.DerivationNotFound;
  record ← pure (DerivationRecord.decode b path);
  if decide (DerivationRecord.derivation_key record ≠ key)
  then fail (StoreError.InvalidMetadata MetadataKind.Derivation path (bs "derivation key does not match filename"))
  else mret record.

Definition read_alias (self : Store) (id : Digest) : io AliasRecord.t :=
  let path := alias_path self id in
  b ← read_record_file self ALIASES (alias_filename id) path MetadataKind.Alias StoreError.AliasNotFound;
  record ← pure (AliasRecord.decode b path);
  if decide (AliasRecord.id record ≠ id)
  then fail (StoreError.InvalidMetadata MetadataKind.Alias path (bs "alias ID does not match filename"))
  else mret record.

Definition read_retained (self : Store) (id : Digest) : io RetainedCow.t :=
  let path := retained_path self id in
  b ← read_record_file self RETAINED (retained_filename id) path MetadataKind.RetainedCow
        StoreError.RetainedCowNotFound;
  record ← pure (RetainedCow.decode b path);
  if decide (RetainedCow.id record ≠ id)
  then fail (StoreError.InvalidMetadata MetadataKind.RetainedCow path (bs "retained-COW ID does not match filename"))
  else mret record.

Definition read_instance (self : Store) (id : Digest) : io Instance_.t :=
  let path := instance_path self id in
  b ← read_record_file self INSTANCES (instance_filename id) path MetadataKind.Instance
        StoreError.InstanceNotFound;
  pure (Instance_.decode b path).

(** ** The lookup from derivations to generations *)
Definition write_derivation_record (self : Store) (record : DerivationRecord.t) : io () :=
  pure (DerivationRecord.validate record);;
  let final_name := derivation_filename (DerivationRecord.derivation_key record) in
  let final_path := derivation_path self (DerivationRecord.derivation_key record) in
  suffix ← unique_suffix;
  let temp_name := bs ".tmp-derivation-" ++ suffix in
  let temp_path := path_in self DERIVATIONS temp_name in
  b ← pure (DerivationRecord.encode record);
  write_new_synced (dir self DERIVATIONS) temp_name temp_path b IMMUTABLE_FILE_MODE;;
  renamed ← attempt (rename_replace_at (dir self DERIVATIONS) temp_name (dir self DERIVATIONS) final_name final_path);
  match renamed with
  | inl e => ignore (unlink_file_at (dir self DERIVATIONS) temp_name temp_path);; fail e
  | inr _ => io_call "sync derivation lookup replacement" final_path fsync
  end.

Definition update_derivation_index (self : Store) (key generation_id : Digest) : io () :=
  found ← attempt (read_derivation self key);
  record ← match found with
           | inr record => mret record
           | inl StoreError.DerivationNotFound => mret (DerivationRecord.new key generation_id)
           | inl e => fail e
           end;
  write_derivation_record self (DerivationRecord.insert record generation_id).

Definition discard_derivation_index (self : Store) (key : Digest) : io () :=
  let path := derivation_path self key in
  unlinked ← attempt (unlink_file_at (dir self DERIVATIONS) (derivation_filename key) path);
  match unlinked with
  | inr _ => mret ()
  | inl e => if decide (io_error_is e NotFound) then mret () else fail e
  end;;
  io_call "sync discarded derivation lookup" path fsync.

Definition remove_from_derivation_index (self : Store) (key generation_id : Digest) : io bool :=
  found ← attempt (read_derivation self key);
  match found with
  | inl StoreError.DerivationNotFound => mret false
  | inl (StoreError.InvalidMetadata _ _ _ | StoreError.MetadataTooLarge _ _ _) =>
      discard_derivation_index self key;; mret true
  | inl e => fail e
  | inr record =>
    if decide (generation_id ∉ DerivationRecord.ids record) then mret false else
    let '(record, remains) := DerivationRecord.remove record generation_id in
    if remains then write_derivation_record self record;; mret false else
    let path := derivation_path self key in
    unlink_file_at (dir self DERIVATIONS) (derivation_filename key) path;;
    io_call "sync derivation lookup removal" path fsync;;
    mret false
  end.

Definition generations_for_derivation_locked (self : Store) (key : Digest) : io (list Generation) :=
  found ← attempt (read_derivation self key);
  match found with
  | inl StoreError.DerivationNotFound => mret []
  | inl e => fail e
  | inr record =>
    fold_io (λ generations id,
      generation ← verify_generation self id;
      if decide (GenerationManifest.derivation_key (manifest generation) ≠ key)
      then fail (StoreError.InvalidMetadata MetadataKind.Derivation (derivation_path self key)
                   (bs "indexed generation belongs to a different derivation"))
      else mret (generations ++ [generation])) [] (DerivationRecord.ids record)
  end.

Definition generations_for_derivation (self : Store) (key : Digest) : io (list Generation) :=
  validate_root_identity self;;
  lock ← open_derivation_lock self key;
  io_call "lock derivation lookup" (lock_path self key) (flock lock Shared true);;
  guarded lock Shared (generations_for_derivation_locked self key).

(** ** Aliases *)
Definition set_alias (self : Store) (key : AliasKey.t) (generation_id : Digest) : io () :=
  validate_root_identity self;;
  with_roots_exclusive self (
    generation ← verify_generation self generation_id;
    pure (validate_alias_target key (manifest generation));;
    id ← pure (AliasKey.id key);
    found ← attempt (read_alias self id);
    match found with
    | inr record =>
      if decide (AliasRecord.key record ≠ key)
      then fail (StoreError.InvalidMetadata MetadataKind.Alias (alias_path self id)
                   (bs "alias filename collides with a different canonical key"))
      else mret ()
    | inl StoreError.AliasNotFound => mret ()
    | inl e => fail e
    end;;
    record ← pure (AliasRecord.new key generation_id);
    let final_name := alias_filename id in
    let final_path := alias_path self id in
    suffix ← unique_suffix;
    let temp_name := bs ".tmp-alias-" ++ suffix in
    let temp_path := path_in self ALIASES temp_name in
    b ← pure (AliasRecord.encode record);
    write_new_synced (dir self ALIASES) temp_name temp_path b IMMUTABLE_FILE_MODE;;
    renamed ← attempt (rename_replace_at (dir self ALIASES) temp_name (dir self ALIASES) final_name final_path);
    match renamed with
    | inl e => ignore (unlink_file_at (dir self ALIASES) temp_name temp_path);; fail e
    | inr _ => io_call "sync alias replacement" final_path fsync
    end).

(** The record of an alias under exactly this key. *)
Definition read_alias_key (self : Store) (key : AliasKey.t) : io AliasRecord.t :=
  id ← pure (AliasKey.id key);
  record ← read_alias self id;
  if decide (AliasRecord.key record ≠ key)
  then fail (StoreError.InvalidMetadata MetadataKind.Alias (alias_path self id)
               (bs "alias key does not match requested key"))
  else mret record.

Definition lease_alias (self : Store) (key : AliasKey.t) : io Lease :=
  validate_root_identity self;;
  with_roots_shared self (
    record ← read_alias_key self key;
    lease ← acquire_lease_inner self (AliasRecord.generation_id record);
    holding (lease_lock lease) Shared (
      pure (validate_alias_target key (manifest (generation lease)));;
      mret lease)).

Definition alias_target (self : Store) (key : AliasKey.t) : io Digest :=
  validate_root_identity self;;
  with_roots_shared self (
    record ← read_alias_key self key;
    generation ← verify_generation self (AliasRecord.generation_id record);
    pure (validate_alias_target key (manifest generation));;
    mret (AliasRecord.generation_id record)).

Definition alias_root_of (record : AliasRecord.t) : AliasRoot :=
  let key := AliasRecord.key record in
  alias_root (AliasRecord.id record) (AliasKey.profile_id key) (AliasKey.reference key)
    (Platform.canonical_text (AliasKey.requested_platform key)) (AliasKey.selector_policy_id key)
    (AliasRecord.generation_id record).

Definition alias_roots (self : Store) : io (list AliasRoot) :=
  validate_root_identity self;;
  roots ← with_roots_shared self (
    names ← list_names (dir self ALIASES) (path_join (root_path self) ALIASES);
    fold_io (λ roots name,
      let path := path_in self ALIASES name in
      if decide (¬ valid_utf8 name)
      then fail (StoreError.InvalidMetadata MetadataKind.Alias path (bs "non-UTF-8 alias entry")) else
      if decide (bs ".tmp-alias-" `prefix_of` name) then mret roots else
      match parse_alias_filename name with
      | None => fail (StoreError.InvalidMetadata MetadataKind.Alias path (bs "unknown alias entry"))
      | Some id => record ← read_alias self id; mret (roots ++ [alias_root_of record])
      end) [] names);
  mret (sort_by alias_root_id roots).

Definition remove_alias_by_id (self : Store) (id : Digest) : io bool :=
  validate_root_identity self;;
  with_roots_exclusive self (
    found ← attempt (read_alias self id);
    match found with
    | inr _ =>
      unlink_file_at (dir self ALIASES) (alias_filename id) (alias_path self id);;
      io_call "sync alias removal" (alias_path self id) fsync;;
      mret true
    | inl StoreError.AliasNotFound => mret false
    | inl e => fail e
    end).

Definition remove_alias (self : Store) (key : AliasKey.t) : io () :=
  validate_root_identity self;;
  with_roots_exclusive self (
    id ← pure (AliasKey.id key);
    read_alias_key self key;;
    unlink_file_at (dir self ALIASES) (alias_filename id) (alias_path self id);;
    io_call "sync alias removal" (alias_path self id) fsync).

(** ** Retained overlays *)

(** [!is_file() || nlink() != 1 || uid() != geteuid() || mode() & 0o7777 != PRIVATE_FILE_MODE] *)
Definition open_cow (cow_path : bytes) : io File :=
  f ← open_absolute_regular_no_symlinks cow_path;
  metadata ← io_call "stat retained COW" cow_path (fstat (at_ f));
  me ← euid;
  if decide (¬ is_file metadata ∨ nlink metadata ≠ 1%N ∨ uid metadata ≠ me ∨ mode metadata ≠ PRIVATE_FILE_MODE)
  then fail (StoreError.UnexpectedEntry cow_path) else
  mret f.

Definition register_retained_cow (self : Store) (lease : Lease) (cow_path : bytes) (expected_digest : Digest)
    (state : RetainedCowState.t) : io RetainedCow.t :=
  validate_root_identity self;;
  cow_file ← open_cow cow_path;
  '(observed_digest, cow_size) ← hash_file cow_file cow_path;
  if decide (observed_digest ≠ expected_digest)
  then fail (StoreError.DigestMismatch cow_path expected_digest observed_digest) else
  let generation_id := lease_id lease in
  id ← pure (RetainedCow.derive_id generation_id cow_path observed_digest cow_size state);
  let retained := RetainedCow.retained_cow id generation_id cow_path observed_digest cow_size state in
  with_roots_exclusive self (
    verify_generation self generation_id;;
    let final_name := retained_filename id in
    let final_path := retained_path self id in
    found ← attempt (read_retained self id);
    match found with
    | inr existing =>
      if decide (existing = retained) then mret existing else
      fail (StoreError.InvalidMetadata MetadataKind.RetainedCow final_path
              (bs "retained-COW ID collides with a different record"))
    | inl StoreError.RetainedCowNotFound =>
      suffix ← unique_suffix;
      let temp_name := bs ".tmp-retained-" ++ suffix in
      let temp_path := path_in self RETAINED temp_name in
      b ← pure (RetainedCow.encode retained);
      write_new_synced (dir self RETAINED) temp_name temp_path b IMMUTABLE_FILE_MODE;;
      renamed ← attempt (rename_noreplace_at (dir self RETAINED) temp_name (dir self RETAINED) final_name final_path);
      match renamed with
      | inr _ => io_call "sync retained-COW publication" final_path fsync;; mret retained
      | inl e =>
        ignore (unlink_file_at (dir self RETAINED) temp_name temp_path);;
        if decide (io_error_is e AlreadyExists) then
          existing ← read_retained self id;
          if decide (existing ≠ retained)
          then fail (StoreError.InvalidMetadata MetadataKind.RetainedCow final_path
                       (bs "concurrent retained-COW record differs"))
          else mret existing
        else fail e
      end
    | inl e => fail e
    end).

Definition retained_cow (self : Store) (id : Digest) : io RetainedCow.t :=
  validate_root_identity self;;
  with_roots_shared self (read_retained self id).

Definition lease_retained_cow (self : Store) (id : Digest) : io RetainedCowLease :=
  validate_root_identity self;;
  with_roots_shared self (
    retained ← read_retained self id;
    let cow_path := RetainedCow.cow_path retained in
    cow ← open_cow cow_path;
    '(observed_digest, observed_size) ← hash_file cow cow_path;
    if decide (observed_size ≠ RetainedCow.cow_size retained)
    then fail (StoreError.SizeMismatch cow_path (RetainedCow.cow_size retained) observed_size) else
    if decide (observed_digest ≠ RetainedCow.cow_digest retained)
    then fail (StoreError.DigestMismatch cow_path (RetainedCow.cow_digest retained) observed_digest) else
    lease ← acquire_lease_inner self (RetainedCow.generation_id retained);
    mret (retained_lease retained lease cow)).

Definition remove_retained_cow (self : Store) (id : Digest) : io RetainedCow.t :=
  validate_root_identity self;;
  with_roots_exclusive self (
    retained ← read_retained self id;
    unlink_file_at (dir self RETAINED) (retained_filename id) (retained_path self id);;
    io_call "sync retained-COW removal" (retained_path self id) fsync;;
    mret retained).

(** ** Named instances *)
Definition read_instances_locked (self : Store) : io (list Instance_.t) :=
  names ← list_names (dir self INSTANCES) (path_join (root_path self) INSTANCES);
  fold_io (λ found name,
    if decide (¬ valid_utf8 name) then mret found else
    match parse_instance_filename name with
    | None => mret found
    | Some id => instance ← read_instance self id; mret (found ++ [instance])
    end) [] names.

(** [names.insert(instance.retained_id(), instance.name())] in order, the last one wins *)
Definition instance_names (instances : list Instance_.t) (id : Digest) : option bytes :=
  Instance_.name <$> last (filter (λ i, Instance_.retained_id i = id) instances).

Definition retained_roots (self : Store) : io (list RetainedRoot) :=
  validate_root_identity self;;
  roots ← with_roots_shared self (
    instances ← read_instances_locked self;
    names ← list_names (dir self RETAINED) (path_join (root_path self) RETAINED);
    fold_io (λ roots name,
      let path := path_in self RETAINED name in
      if decide (¬ valid_utf8 name)
      then fail (StoreError.InvalidMetadata MetadataKind.RetainedCow path (bs "non-UTF-8 retained-COW entry")) else
      if decide (bs ".tmp-retained-" `prefix_of` name) then mret roots else
      match parse_retained_filename name with
      | None => fail (StoreError.InvalidMetadata MetadataKind.RetainedCow path (bs "unknown retained-COW entry"))
      | Some id =>
        record ← read_retained self id;
        mret (roots ++ [retained_root (RetainedCow.id record) (RetainedCow.generation_id record)
                          (instance_names instances id) (RetainedCow.cow_size record)])
      end) [] names);
  mret (sort_by retained_root_id roots).

Definition already_exists {A} (path name : bytes) : io A :=
  fail (StoreError.InvalidMetadata MetadataKind.Instance path
          (bs "an instance named " ++ name ++ bs " already exists")).

Definition create_instance_directory (self : Store) (name : bytes) : io bytes :=
  pure (validate_instance_name name);;
  validate_root_identity self;;
  id ← pure (Instance_.derive_id name);
  let directory := instance_directory_name id in
  let path := path_in self INSTANCES directory in
  made ← attempt (create_private_dir (dir self INSTANCES) directory path (root_device self));
  match made with
  | inr _ => mret path
  | inl e => if decide (io_error_is e AlreadyExists) then already_exists path name else fail e
  end.

(** [Path::is_dir] follows a symbolic link and is false on any error. *)
Definition path_is_dir (p : location) : io bool :=
  found ← attempt (fstat p);
  mret (match found with
        | inr i => match kind i with DirectoryFile => true | SymlinkFile to_directory => to_directory | _ => false end
        | inl _ => false
        end).

Definition instance_directory (self : Store) (name : bytes) : io bytes :=
  pure (validate_instance_name name);;
  validate_root_identity self;;
  id ← pure (Instance_.derive_id name);
  found ← path_is_dir (dir self INSTANCES ++ [instance_directory_name id]);
  if (found : bool) then mret (path_in self INSTANCES (instance_directory_name id))
  else fail StoreError.InstanceNotFound.

Definition discard_instance_directory (self : Store) (name : bytes) : io () :=
  pure (validate_instance_name name);;
  id ← pure (Instance_.derive_id name);
  found ← attempt (read_instance self id);
  match found with
  | inl StoreError.InstanceNotFound =>
    let directory := instance_directory_name id in
    remove_tree_at (dir self INSTANCES) directory (path_in self INSTANCES directory) (root_device self)
  | inl e => fail e
  | inr _ =>
    fail (StoreError.InvalidMetadata MetadataKind.Instance (instance_path self id)
            (name ++ bs " is a published instance; remove it instead of discarding it"))
  end.

Definition create_instance (self : Store) (name : bytes) (generation_id retained_id : Digest)
    (image_reference : bytes) (argv : list bytes) (command : bytes) (created_unix finished_unix : N)
    (outcome : InstanceOutcome.t) : io Instance_.t :=
  pure (validate_instance_name name);;
  if decide (MAX_INSTANCE_ARGV < len argv)%N
  then fail (StoreError.InvalidMetadata MetadataKind.Instance MEMORY
               (bs "recorded argv exceeds " ++ to_decimal MAX_INSTANCE_ARGV ++ bs " arguments")) else
  if decide (MAX_INSTANCE_COMMAND_BYTES < len image_reference ∨ MAX_INSTANCE_COMMAND_BYTES < len command)%N
  then fail (StoreError.InvalidMetadata MetadataKind.Instance MEMORY
               (bs "recorded reference or command is too long")) else
  validate_root_identity self;;
  id ← pure (Instance_.derive_id name);
  let instance := Instance_.instance id name generation_id retained_id image_reference argv command created_unix
                    finished_unix outcome in
  with_roots_exclusive self (
    let final_name := instance_filename id in
    let final_path := instance_path self id in
    suffix ← unique_suffix;
    let temp_name := bs ".tmp-instance-" ++ suffix in
    let temp_path := path_in self INSTANCES temp_name in
    b ← pure (Instance_.encode instance);
    write_new_synced (dir self INSTANCES) temp_name temp_path b IMMUTABLE_FILE_MODE;;
    renamed ← attempt (rename_noreplace_at (dir self INSTANCES) temp_name (dir self INSTANCES) final_name final_path);
    match renamed with
    | inr _ => io_call "sync instance publication" final_path fsync;; mret instance
    | inl e =>
      ignore (unlink_file_at (dir self INSTANCES) temp_name temp_path);;
      if decide (io_error_is e AlreadyExists) then already_exists final_path name else fail e
    end).

Definition update_instance (self : Store) (name : bytes) (retained_id : Digest) (finished_unix : N)
    (outcome : InstanceOutcome.t) : io Instance_.t :=
  pure (validate_instance_name name);;
  validate_root_identity self;;
  id ← pure (Instance_.derive_id name);
  with_roots_exclusive self (
    previous ← read_instance self id;
    let updated := Instance_.instance (Instance_.id previous) (Instance_.name previous)
                     (Instance_.generation_id previous) retained_id (Instance_.image_reference previous)
                     (Instance_.argv previous) (Instance_.command previous) (Instance_.created_unix previous)
                     finished_unix outcome in
    let final_path := instance_path self id in
    suffix ← unique_suffix;
    let temp_name := bs ".tmp-instance-" ++ suffix in
    b ← pure (Instance_.encode updated);
    write_new_synced (dir self INSTANCES) temp_name (path_in self INSTANCES temp_name) b IMMUTABLE_FILE_MODE;;
    rename_replace_at (dir self INSTANCES) temp_name (dir self INSTANCES) (instance_filename id) final_path;;
    io_call "sync instance update" final_path fsync;;
    mret updated).

Definition instance (self : Store) (name : bytes) : io Instance_.t :=
  pure (validate_instance_name name);;
  validate_root_identity self;;
  with_roots_shared self (id ← pure (Instance_.derive_id name); read_instance self id).

Definition instances (self : Store) : io (list Instance_.t) :=
  validate_root_identity self;;
  found ← with_roots_shared self (read_instances_locked self);
  mret (sort_by Instance_.name found).

Definition remove_instance (self : Store) (name : bytes) : io Instance_.t :=
  pure (validate_instance_name name);;
  validate_root_identity self;;
  id ← pure (Instance_.derive_id name);
  instance ← with_roots_shared self (read_instance self id);
  removed ← attempt (remove_retained_cow self (Instance_.retained_id instance));
  match removed with
  | inr _ | inl StoreError.RetainedCowNotFound => mret ()
  | inl e => fail e
  end;;
  with_roots_exclusive self (
    let file_path := instance_path self id in
    unlink_file_at (dir self INSTANCES) (instance_filename id) file_path;;
    let directory := instance_directory_name id in
    ignore (remove_tree_at (dir self INSTANCES) directory (path_in self INSTANCES directory) (root_device self));;
    io_call "sync instance removal" file_path fsync;;
    mret instance).

(** [directory.parent() == Some(instances_root)] compares components. *)
Definition overlay_directory (self : Store) (cow_path : bytes) : option (bytes * bytes) :=
  directory ← parent cow_path;
  above ← parent directory;
  if decide (components above = components (path_join (root_path self) INSTANCES)) then
    entry ← file_name directory; Some (entry, directory)
  else None.

Definition release_orphaned_retained_cow (self : Store) (id : Digest) : io RetainedRelease :=
  validate_root_identity self;;
  with_roots_exclusive self (
    instances ← read_instances_locked self;
    match List.find (λ i, bool_decide (Instance_.retained_id i = id)) instances with
    | Some instance => mret (HeldBy (Instance_.name instance))
    | None =>
      found ← attempt (read_retained self id);
      match found with
      | inl StoreError.RetainedCowNotFound => mret Absent
      | inl e => fail e
      | inr retained =>
        unlink_file_at (dir self RETAINED) (retained_filename id) (retained_path self id);;
        io_call "sync retained-COW removal" (retained_path self id) fsync;;
        match overlay_directory self (RetainedCow.cow_path retained) with
        | Some (entry, directory) =>
          ignore (remove_tree_at (dir self INSTANCES) entry directory (root_device self))
        | None => mret ()
        end;;
        mret (Released retained)
      end
    end).

(** ** Building and publishing a generation *)
Fixpoint create_staging (attempts : nat) (self : Store) (key : Digest) : io (bytes * location) :=
  match attempts with
  | O => fail (StoreError.InvalidInput "staging name" (bs "could not allocate a unique staging name"))
  | S attempts =>
    suffix ← unique_suffix;
    let name := bs "stage-" ++ hex_encode key ++ bs "-" ++ suffix in
    made ← attempt (create_private_dir (dir self STAGING) name (path_in self STAGING name) (root_device self));
    match made with
    | inr directory => mret (name, directory)
    | inl e => if decide (io_error_is e AlreadyExists) then create_staging attempts self key else fail e
    end
  end.
Definition create_staging_directory (self : Store) (key : Digest) : io (bytes * location) :=
  create_staging 128 self key.

(** A cache hit, leased before it is handed back. *)
Definition lease_cached (self : Store) (key : Digest) : io (option Lease) :=
  generations ← generations_for_derivation_locked self key;
  match generations with
  | [] => mret None
  | generation :: _ =>
    let id := GenerationManifest.id (manifest generation) in
    lock ← open_lease_lock self id;
    io_call "acquire shared generation lease" (lease_path self id) (flock lock Shared true);;
    holding lock Shared (
      verified ← attempt (verify_generation self id);
      match verified with
      | inr generation => mret (Some (lease_of generation lock))
      | inl (StoreError.GenerationNotFound _) => close_lock lock Shared;; mret None
      | inl e => fail e
      end)
  end.

Definition begin_staging (self : Store) (spec : GenerationSpec.t) (key : Digest) (build_lock : File)
    : io GenerationTransaction :=
  '(stage_name, stage) ← create_staging_directory self key;
  let stage_path := path_in self STAGING stage_name in
  let metadata_path := path_join stage_path STAGING_METADATA in
  b ← pure (StagingRecord.encode (StagingRecord.staging_record key));
  written ← attempt (write_new_synced stage STAGING_METADATA metadata_path b IMMUTABLE_FILE_MODE);
  match written with
  | inl e =>
    ignore (remove_tree_at (dir self STAGING) stage_name stage_path (root_device self));;
    fail e
  | inr _ =>
    io_call "sync staging directory" stage_path fsync;;
    mret (transaction_of spec key build_lock stage_name stage None true)
  end.

Definition try_begin_generation_inner (self : Store) (spec : GenerationSpec.t) (rebuild : bool)
    : io BeginGeneration :=
  validate_root_identity self;;
  key ← pure (GenerationSpec.derivation_key spec);
  build_lock ← open_derivation_lock self key;
  locked ← attempt (flock build_lock Exclusive false);
  match locked with
  | inl e =>
    if decide (io_kind e = WouldBlock) then fail (StoreError.DerivationBusy key)
    else fail (StoreError.Io "lock generation derivation" (lock_path self key) e)
  | inr _ =>
    hit ← holding build_lock Exclusive (if rebuild then mret None else lease_cached self key);
    match hit with
    | Some lease => close_lock build_lock Exclusive;; mret (Existing lease)
    | None => holding build_lock Exclusive (
        transaction ← begin_staging self spec key build_lock; mret (Vacant transaction))
    end
  end.

Definition try_begin_generation (self : Store) (spec : GenerationSpec.t) : io BeginGeneration :=
  try_begin_generation_inner self spec false.

(** [unreachable!] when a forced rebuild is a cache hit *)
Definition try_begin_rebuild (self : Store) (spec : GenerationSpec.t) : io GenerationTransaction :=
  begun ← try_begin_generation_inner self spec true;
  match begun with
  | Vacant transaction => mret transaction
  | Existing _ => pure Panic
  end.

Definition staging_path (store : Store) (self : GenerationTransaction) : bytes :=
  path_in store STAGING (stage_name self).
Definition transaction_base_path (store : Store) (self : GenerationTransaction) : bytes :=
  path_join (staging_path store self) BASE_IMAGE.

Definition create_base (store : Store) (self : GenerationTransaction) : io File :=
  validate_root_identity store;;
  create_regular_at (stage self) BASE_IMAGE (transaction_base_path store self).

Definition create_sidecar (store : Store) (self : GenerationTransaction) (name : bytes) : io File :=
  validate_root_identity store;;
  name ← pure (validate_sidecar_name name);
  create_regular_at (stage self) name (path_join (staging_path store self) name).

(** [Drop for GenerationTransaction], without the descriptor of the build lock *)
Definition drop_transaction (store : Store) (self : GenerationTransaction) : io () :=
  if (clean_on_drop self : bool) then
    match generation_temp_name self with
    | Some name =>
      ignore (remove_tree_at (dir store GENERATIONS) name (path_in store GENERATIONS name) (root_device store))
    | None =>
      ignore (remove_tree_at (dir store STAGING) (stage_name self) (staging_path store self) (root_device store))
    end
  else mret ().

(** Flush a staged file, compare its contents and make it immutable; its digest and
    size. *)
Definition seal_base (store : Store) (self : GenerationTransaction) (expected_digest : Digest) : io (Digest * N) :=
  let path := transaction_base_path store self in
  f ← open_regular_at (stage self) BASE_IMAGE path;
  validate_regular f path (root_device store) PRIVATE_FILE_MODE;;
  io_call "sync staged base" path fsync;;
  '(base_digest, base_size) ← hash_file f path;
  if decide (base_digest ≠ expected_digest)
  then fail (StoreError.DigestMismatch path expected_digest base_digest) else
  set_mode (at_ f) IMMUTABLE_FILE_MODE path;;
  io_call "sync immutable staged base metadata" path fsync;;
  mret (base_digest, base_size).

Definition seal_sidecar (store : Store) (self : GenerationTransaction) (expected : ImmutableSidecar.t) : io () :=
  let path := path_join (staging_path store self) (ImmutableSidecar.name expected) in
  f ← open_regular_at (stage self) (ImmutableSidecar.name expected) path;
  validate_regular f path (root_device store) PRIVATE_FILE_MODE;;
  io_call "sync staged sidecar" path fsync;;
  '(digest, size) ← hash_file f path;
  if decide (size ≠ ImmutableSidecar.size expected)
  then fail (StoreError.SizeMismatch path (ImmutableSidecar.size expected) size) else
  if decide (digest ≠ ImmutableSidecar.digest expected)
  then fail (StoreError.DigestMismatch path (ImmutableSidecar.digest expected) digest) else
  set_mode (at_ f) IMMUTABLE_FILE_MODE path;;
  io_call "sync immutable staged sidecar metadata" path fsync.

(** Before the lease: everything staged is checked and sealed. *)
Definition seal_staged (store : Store) (self : GenerationTransaction) (expected_base_digest : Digest)
    (expected_sidecars : list ImmutableSidecar.t) : io GenerationManifest.t :=
  validate_root_identity store;;
  pure (validate_canonical_sidecars expected_sidecars);;
  let stage_path := staging_path store self in
  let expected_staged := sort ([BASE_IMAGE; STAGING_METADATA] ++ sidecar_names expected_sidecars) in
  names ← list_names (stage self) stage_path;
  if decide (sort names ≠ expected_staged) then fail (StoreError.UnexpectedEntry stage_path) else
  '(base_digest, base_size) ← seal_base store self expected_base_digest;
  for_each (seal_sidecar store self) expected_sidecars;;
  id ← pure (GenerationId.derive (derivation_key self) base_digest base_size expected_sidecars);
  mret (GenerationManifest.generation_manifest id (derivation_key self) (spec self) base_digest base_size
          expected_sidecars).

(** The manifest is written and the staging directory is complete and flushed. *)
Definition complete_stage (store : Store) (self : GenerationTransaction) (manifest : GenerationManifest.t)
    : io () :=
  let stage_path := staging_path store self in
  b ← pure (GenerationManifest.encode manifest);
  write_new_synced (stage self) GENERATION_METADATA (path_join stage_path GENERATION_METADATA) b
    IMMUTABLE_FILE_MODE;;
  names ← list_names (stage self) stage_path;
  let expected := sort (sort ([BASE_IMAGE; STAGING_METADATA]
                              ++ sidecar_names (GenerationManifest.sidecars manifest)) ++ [GENERATION_METADATA]) in
  if decide (sort names ≠ expected) then fail (StoreError.UnexpectedEntry stage_path) else
  io_call "sync complete staging directory" stage_path fsync.

(** The directory under its temporary name in [generations]: flush, seal, validate.
    Its descriptor follows it. *)
Definition seal_directory (store : Store) (temp : location) (path : bytes) : io () :=
  io_call "sync publication temporary name" path fsync;;
  io_call "sync staging transfer" path fsync;;
  set_mode temp IMMUTABLE_DIR_MODE path;;
  io_call "sync sealed publication directory" path fsync;;
  validate_directory temp path (root_device store) IMMUTABLE_DIR_MODE;;
  mret ().

(** After the commit. *)
Definition finish_publication (store : Store) (key id : Digest) (lock : File) : io Lease :=
  io_call "sync generation publication" (generation_path store id) fsync;;
  generation ← verify_generation store id;
  update_derivation_index store key id;;
  mret (lease_of generation lock).

(** The transaction as it is when it is dropped, with the outcome. *)
Definition outcome (A : Type) : Type := (GenerationTransaction * (StoreError.t + A))%type.
(** [m?] while the transaction is [self] *)
Definition step {A B} (self : GenerationTransaction) (m : io A) (k : A → io (outcome B)) : io (outcome B) :=
  r ← attempt m;
  match r with
  | inl e => mret (self, inl e)
  | inr a => k a
  end.

(** The two renames. *)
Definition commit (store : Store) (self : GenerationTransaction) (manifest : GenerationManifest.t) (lock : File)
    : io (outcome Lease) :=
  let id := GenerationManifest.id manifest in
  step self (complete_stage store self manifest) (λ _,
  let temp_name := GENERATION_TEMP_PREFIX ++ stage_name self in
  let temp_path := path_in store GENERATIONS temp_name in
  step self (rename_noreplace_at (dir store STAGING) (stage_name self) (dir store GENERATIONS) temp_name temp_path) (λ _,
  let temp := dir store GENERATIONS ++ [temp_name] in
  let self := transaction_of (spec self) (derivation_key self) (build_lock self) (stage_name self) temp
                (Some temp_name) true in
  step self (seal_directory store temp temp_path) (λ _,
  step self (map_io_err (λ e, if decide (io_error_is e AlreadyExists) then StoreError.GenerationAlreadyExists id else e)
               (rename_noreplace_at (dir store GENERATIONS) temp_name (dir store GENERATIONS) (generation_name id)
                  (generation_path store id))) (λ _,
  let self := transaction_of (spec self) (derivation_key self) (build_lock self) (stage_name self)
                (dir store GENERATIONS ++ [generation_name id]) None false in
  step self (finish_publication store (derivation_key self) id lock) (λ lease,
  mret (self, inr lease)))))).

(** The lease lock goes with an error. *)
Definition holding_outcome {A} (f : File) (m : lock_mode) (body : io (outcome A)) : io (outcome A) := λ w,
  let '(w, r) := body w in (match r with Ok (_, inr _) => w | _ => funlock f m w end, r).

Definition publish_body (store : Store) (self : GenerationTransaction) (expected_base_digest : Digest)
    (expected_sidecars : list ImmutableSidecar.t) : io (outcome Lease) :=
  step self (seal_staged store self expected_base_digest expected_sidecars) (λ sealed,
  let id := GenerationManifest.id sealed in
  step self (open_lease_lock store id) (λ lock,
  step self (io_call "hold publication lease" (lease_path store id) (flock lock Shared true)) (λ _,
  holding_outcome lock Shared (
    verified ← attempt (verify_generation store id);
    match verified with
    | inr existing =>
      if decide (manifest existing = sealed) then
        step self (update_derivation_index store (derivation_key self) id) (λ _,
        mret (self, inr (lease_of existing lock)))
      else mret (self, inl (StoreError.GenerationAlreadyExists id))
    | inl (StoreError.GenerationNotFound _) => commit store self sealed lock
    | inl e => mret (self, inl e)
    end)))).

Definition publish_with_sidecars_inner (store : Store) (self : GenerationTransaction)
    (expected_base_digest : Digest) (expected_sidecars : list ImmutableSidecar.t) : io Lease :=
  guarded (build_lock self) Exclusive (
    '(self, result) ← publish_body store self expected_base_digest expected_sidecars;
    drop_transaction store self;;
    match result with inl e => fail e | inr lease => mret lease end).

Definition publish_leased (store : Store) (self : GenerationTransaction) (expected_base_digest : Digest)
    (expected_sidecars : list ImmutableSidecar.t) : io Lease :=
  publish_with_sidecars_inner store self expected_base_digest expected_sidecars.

(** The lease is dropped before these return. *)
Definition publish_with_sidecars (store : Store) (self : GenerationTransaction) (expected_base_digest : Digest)
    (expected_sidecars : list ImmutableSidecar.t) : io Generation :=
  lease ← publish_leased store self expected_base_digest expected_sidecars;
  close_lock (lease_lock lease) Shared;;
  mret (generation lease).
Definition publish (store : Store) (self : GenerationTransaction) (expected_base_digest : Digest) : io Generation :=
  publish_with_sidecars store self expected_base_digest [].

(** Dropping a transaction that was not published, and a lease. *)
Definition abandon (store : Store) (self : GenerationTransaction) : io () :=
  guarded (build_lock self) Exclusive (drop_transaction store self).
Definition drop_lease (self : Lease) : io () := close_lock (lease_lock self) Shared.

(** ** Garbage collection *)
Definition unsafe {A} (reason : bytes) : io A := fail (StoreError.UnsafeGarbageCollection reason).

Definition alias_gc_root (self : Store) (roots : list Digest) (name : bytes) : io (list Digest) :=
  let path := path_in self ALIASES name in
  if decide (¬ valid_utf8 name) then unsafe (bs "non-UTF-8 alias entry at " ++ path_text path) else
  if decide (bs ".tmp-alias-" `prefix_of` name) then mret roots else
  match parse_alias_filename name with
  | None => unsafe (bs "unknown alias entry " ++ debug_text name)
  | Some id =>
    record ← map_io_err (λ e, StoreError.UnsafeGarbageCollection (path_text path ++ bs ": " ++ error_text e))
               (read_alias self id);
    let alias := bs "alias " ++ id_to_string ALIAS_PREFIX (AliasRecord.id record) in
    generation ← map_io_err (λ e, StoreError.UnsafeGarbageCollection
                                    (alias ++ bs " has an invalid target: " ++ error_text e))
                   (verify_generation self (AliasRecord.generation_id record));
    map_io_err (λ e, StoreError.UnsafeGarbageCollection
                       (alias ++ bs " has an incompatible target: " ++ error_text e))
      (pure (validate_alias_target (AliasRecord.key record) (manifest generation)));;
    mret (AliasRecord.generation_id record :: roots)
  end.

Definition retained_gc_root (self : Store) (roots : list Digest) (name : bytes) : io (list Digest) :=
  let path := path_in self RETAINED name in
  if decide (¬ valid_utf8 name) then unsafe (bs "non-UTF-8 retained-COW entry at " ++ path_text path) else
  if decide (bs ".tmp-retained-" `prefix_of` name) then mret roots else
  match parse_retained_filename name with
  | None => unsafe (bs "unknown retained-COW entry " ++ debug_text name)
  | Some id =>
    retained ← map_io_err (λ e, StoreError.UnsafeGarbageCollection (path_text path ++ bs ": " ++ error_text e))
                 (read_retained self id);
    map_io_err (λ e, StoreError.UnsafeGarbageCollection
                       (bs "retained COW " ++ id_to_string RETAINED_PREFIX (RetainedCow.id retained)
                        ++ bs " has an invalid target: " ++ error_text e))
      (verify_generation self (RetainedCow.generation_id retained));;
    mret (RetainedCow.generation_id retained :: roots)
  end.

(** A [BTreeSet] of which only membership is used. *)
Definition collect_gc_roots (self : Store) : io (list Digest) :=
  aliases ← list_names (dir self ALIASES) (path_join (root_path self) ALIASES);
  roots ← fold_io (alias_gc_root self) [] aliases;
  retained ← list_names (dir self RETAINED) (path_join (root_path self) RETAINED);
  fold_io (retained_gc_root self) roots retained.

(** The generations and the publications in flight among the names. *)
Definition classify_generation (self : Store) (found : list Digest * list bytes) (name : bytes)
    : io (list Digest * list bytes) :=
  let '(candidates, in_flight) := found in
  if decide (¬ valid_utf8 name)
  then unsafe (bs "non-UTF-8 generation entry at " ++ path_text (path_in self GENERATIONS name)) else
  match parse_filename GENERATION_PREFIX name with
  | Some id => mret (candidates ++ [id], in_flight)
  | None =>
    match parse_generation_temp_name name with
    | Some _ => mret (candidates, in_flight ++ [name])
    | None => unsafe (bs "unknown generation entry " ++ debug_text name)
    end
  end.

(** What became of a candidate whose lease could be locked.  The lock of the
    derivation of a removed one is still held. *)
Inductive collection : Set :=
| Corrupt
| Building
| Removed (derivation_lock : File) (derivation_key : Digest) (discarded : bool).

Definition collect_unleased (self : Store) (id : Digest) : io collection :=
  verified ← attempt (verify_generation self id);
  match verified with
  | inl _ => mret Corrupt
  | inr generation =>
    let key := GenerationManifest.derivation_key (manifest generation) in
    derivation_lock ← open_derivation_lock self key;
    locked ← attempt (flock derivation_lock Exclusive false);
    match locked with
    | inl e =>
      if decide (io_kind e = WouldBlock) then mret Building
      else fail (StoreError.Io "test derivation build lock for GC" (lock_path self key) e)
    | inr _ =>
      holding derivation_lock Exclusive (
        verify_generation self id;;
        discarded ← remove_from_derivation_index self key id;
        remove_tree_at (dir self GENERATIONS) (generation_name id) (generation_path self id) (root_device self);;
        mret (Removed derivation_lock key discarded))
    end
  end.

Definition report_collected (r : GarbageCollectionReport) (id : Digest) : GarbageCollectionReport :=
  collection_report (collected r ++ [id]) (rooted r) (leased_or_busy r) (corrupt_unrooted r)
    (publication_in_flight r) (discarded_derivation_index r).
Definition report_rooted (r : GarbageCollectionReport) (id : Digest) : GarbageCollectionReport :=
  collection_report (collected r) (rooted r ++ [id]) (leased_or_busy r) (corrupt_unrooted r)
    (publication_in_flight r) (discarded_derivation_index r).
Definition report_busy (r : GarbageCollectionReport) (id : Digest) : GarbageCollectionReport :=
  collection_report (collected r) (rooted r) (leased_or_busy r ++ [id]) (corrupt_unrooted r)
    (publication_in_flight r) (discarded_derivation_index r).
Definition report_corrupt (r : GarbageCollectionReport) (id : Digest) : GarbageCollectionReport :=
  collection_report (collected r) (rooted r) (leased_or_busy r) (corrupt_unrooted r ++ [id])
    (publication_in_flight r) (discarded_derivation_index r).
Definition report_discarded (r : GarbageCollectionReport) (key : Digest) : GarbageCollectionReport :=
  collection_report (collected r) (rooted r) (leased_or_busy r) (corrupt_unrooted r)
    (publication_in_flight r) (discarded_derivation_index r ++ [key]).

Definition collect_candidate (self : Store) (roots : list Digest) (report : GarbageCollectionReport) (id : Digest)
    : io GarbageCollectionReport :=
  if decide (id ∈ roots) then mret (report_rooted report id) else
  lease_lock ← open_lease_lock self id;
  locked ← attempt (flock lease_lock Exclusive false);
  match locked with
  | inl e =>
    if decide (io_kind e = WouldBlock) then mret (report_busy report id)
    else fail (StoreError.Io "test generation lease for GC" (lease_path self id) e)
  | inr _ =>
    outcome ← guarded lease_lock Exclusive (collect_unleased self id);
    match outcome with
    | Corrupt => mret (report_corrupt report id)
    | Building => mret (report_busy report id)
    | Removed derivation_lock key discarded =>
      guarded derivation_lock Exclusive (
        let report := if (discarded : bool) then report_discarded report key else report in
        unlinked ← attempt (unlink_file_at (dir self LEASES) (lease_filename id) (lease_path self id));
        match unlinked with
        | inr _ => mret (report_collected report id)
        | inl e => if decide (io_error_is e NotFound) then mret (report_collected report id) else fail e
        end)
    end
  end.

Definition garbage_collect (self : Store) : io GarbageCollectionReport :=
  validate_root_identity self;;
  with_roots_exclusive self (
    roots ← collect_gc_roots self;
    names ← list_names (dir self GENERATIONS) (path_join (root_path self) GENERATIONS);
    '(candidates, in_flight) ← fold_io (classify_generation self) ([], []) names;
    let report := collection_report [] [] [] [] (sort in_flight) [] in
    report ← fold_io (collect_candidate self roots) report (sort candidates);
    io_call "sync generation directory after GC" (path_join (root_path self) GENERATIONS) fsync;;
    mret report).

(** ** Crash recovery *)
Definition block (r : RecoveryReport) (path : bytes) : RecoveryReport :=
  recovery_report (removed_staging r) (busy_staging r) (completed_publications r) (busy_publications r)
    (removed_temporary_records r) (blocked_entries r ++ [path]).
Definition removed (r : RecoveryReport) (path : bytes) : RecoveryReport :=
  recovery_report (removed_staging r ++ [path]) (busy_staging r) (completed_publications r) (busy_publications r)
    (removed_temporary_records r) (blocked_entries r).
Definition busy (r : RecoveryReport) (path : bytes) : RecoveryReport :=
  recovery_report (removed_staging r) (busy_staging r ++ [path]) (completed_publications r) (busy_publications r)
    (removed_temporary_records r) (blocked_entries r).
Definition completed (r : RecoveryReport) (id : Digest) : RecoveryReport :=
  recovery_report (removed_staging r) (busy_staging r) (completed_publications r ++ [id]) (busy_publications r)
    (removed_temporary_records r) (blocked_entries r).
Definition publishing (r : RecoveryReport) (id : Digest) : RecoveryReport :=
  recovery_report (removed_staging r) (busy_staging r) (completed_publications r) (busy_publications r ++ [id])
    (removed_temporary_records r) (blocked_entries r).
Definition removed_temporary (r : RecoveryReport) (path : bytes) : RecoveryReport :=
  recovery_report (removed_staging r) (busy_staging r) (completed_publications r) (busy_publications r)
    (removed_temporary_records r ++ [path]) (blocked_entries r).

(** An owned directory with one of the two modes of a transaction directory. *)
Definition transaction_directory (self : Store) (me : N) (metadata : inode) : Prop :=
  dev metadata = root_device self ∧ uid metadata = me ∧
  (mode metadata = PRIVATE_DIR_MODE ∨ mode metadata = IMMUTABLE_DIR_MODE).
#[export] Instance transaction_directory_dec self me metadata : Decision (transaction_directory self me metadata).
Proof. unfold transaction_directory. apply _. Defined.

(** [recover] checks its staging record by hand, where the others call
    [validate_regular]. *)
Definition read_abandoned_record (directory : location) (path : bytes) (device : N) : io StagingRecord.t :=
  f ← open_regular_at directory STAGING_METADATA path;
  metadata ← io_call "stat staging metadata" path (fstat (at_ f));
  me ← euid;
  if decide (dev metadata ≠ device ∨ uid metadata ≠ me ∨ mode metadata ≠ IMMUTABLE_FILE_MODE ∨
             ¬ is_file metadata ∨ nlink metadata ≠ 1%N)
  then fail (StoreError.UnexpectedEntry path) else
  b ← read_bounded f path MetadataKind.Staging;
  pure (StagingRecord.decode b path).

(** Remove one transaction directory [name] of [parent], named after the derivation
    [filename_key], unless its build lock is held. *)
Definition recover_transaction (self : Store) (area : bytes) (name : bytes) (filename_key : Digest)
    (stat_error : string) (lock_error : string)
    (read_record : location → bytes → N → io StagingRecord.t) (report : RecoveryReport) : io RecoveryReport :=
  let path := path_in self area name in
  opened ← attempt (open_dir_at (dir self area) name path);
  match opened with
  | inl _ => mret (block report path)
  | inr directory =>
    metadata ← io_call stat_error path (fstat directory);
    me ← euid;
    if decide (¬ transaction_directory self me metadata) then mret (block report path) else
    found ← attempt (read_record directory (path_join path STAGING_METADATA) (root_device self));
    match found with
    | inl _ => mret (block report path)
    | inr record =>
      let key := StagingRecord.derivation_key record in
      if decide (key ≠ filename_key) then mret (block report path) else
      lock ← open_derivation_lock self key;
      locked ← attempt (flock lock Exclusive false);
      match locked with
      | inl e => if decide (io_kind e = WouldBlock) then mret (busy report path)
                 else fail (StoreError.Io lock_error (lock_path self key) e)
      | inr _ =>
        guarded lock Exclusive (
          remove_tree_at (dir self area) name path (root_device self);;
          mret (removed report path))
      end
    end
  end.

(** An entry under a final name: finish the seal of a verified one, index it. *)
Definition recover_generation (self : Store) (name : bytes) (id : Digest) (report : RecoveryReport)
    : io RecoveryReport :=
  let path := path_in self GENERATIONS name in
  opened ← attempt (open_dir_at (dir self GENERATIONS) name path);
  match opened with
  | inl _ => mret (block report path)
  | inr directory =>
    metadata ← io_call "stat interrupted publication" path (fstat directory);
    me ← euid;
    if decide (¬ transaction_directory self me metadata) then mret (block report path) else
    found ← attempt (read_staging_record directory (path_join path STAGING_METADATA) (root_device self));
    match found with
    | inl _ => mret (block report path)
    | inr record =>
      let key := StagingRecord.derivation_key record in
      lock ← open_derivation_lock self key;
      locked ← attempt (flock lock Exclusive false);
      match locked with
      | inl e => if decide (io_kind e = WouldBlock) then mret (publishing report id)
                 else fail (StoreError.Io "lock interrupted publication" (lock_path self key) e)
      | inr _ =>
        guarded lock Exclusive (
          verified ← attempt (verify_generation_with_directory_mode self id (mode metadata));
          match verified with
          | inl _ => mret (block report path)
          | inr generation =>
            if decide (GenerationManifest.derivation_key (manifest generation) ≠ key)
            then mret (block report path) else
            report ← (if decide (mode metadata = PRIVATE_DIR_MODE) then
                        set_mode directory IMMUTABLE_DIR_MODE path;;
                        io_call "sync recovered generation permissions" path fsync;;
                        io_call "sync recovered generation publication" path fsync;;
                        mret (completed report id)
                      else mret report);
            verify_generation self id;;
            update_derivation_index self key id;;
            mret report
          end)
      end
    end
  end.

Definition recover_publication (self : Store) (report : RecoveryReport) (name : bytes) : io RecoveryReport :=
  let path := path_in self GENERATIONS name in
  if decide (¬ valid_utf8 name) then mret (block report path) else
  match parse_generation_temp_name name with
  | Some key =>
    recover_transaction self GENERATIONS name key "stat publication temporary directory"
      "lock publication temporary directory during recovery" read_staging_record report
  | None =>
    match parse_filename GENERATION_PREFIX name with
    | None => mret (block report path)
    | Some id => recover_generation self name id report
    end
  end.

Definition recover_interrupted_publications (self : Store) (report : RecoveryReport) : io RecoveryReport :=
  names ← list_names (dir self GENERATIONS) (path_join (root_path self) GENERATIONS);
  fold_io (recover_publication self) report names.

Definition recover_stage (self : Store) (report : RecoveryReport) (name : bytes) : io RecoveryReport :=
  let path := path_in self STAGING name in
  if decide (¬ valid_utf8 name) then mret (block report path) else
  match parse_staging_name name with
  | None => mret (block report path)
  | Some key =>
    recover_transaction self STAGING name key "stat recovery staging" "lock generation during recovery"
      read_abandoned_record report
  end.

Definition recover_atomic_temp (self : Store) (directory : location) (directory_path prefix : bytes)
    (report : RecoveryReport) (name : bytes) : io RecoveryReport :=
  if decide (¬ valid_utf8 name) then mret report else
  if decide (¬ prefix `prefix_of` name) then mret report else
  let path := path_join directory_path name in
  opened ← attempt (open_regular_at directory name path);
  match opened with
  | inl _ => mret (block report path)
  | inr f =>
    metadata ← io_call "stat temporary record" path (fstat (at_ f));
    me ← euid;
    if decide (dev metadata ≠ root_device self ∨ uid metadata ≠ me ∨ ¬ is_file metadata ∨ nlink metadata ≠ 1%N ∨
               ¬ (mode metadata = PRIVATE_FILE_MODE ∨ mode metadata = IMMUTABLE_FILE_MODE) ∨
               (MAX_METADATA_BYTES < size metadata)%N)
    then mret (block report path) else
    unlink_file_at directory name path;;
    io_call "sync temporary-record recovery" directory_path fsync;;
    mret (removed_temporary report path)
  end.

Definition recover_atomic_temps (self : Store) (directory : location) (relative prefix : bytes)
    (report : RecoveryReport) : io RecoveryReport :=
  let directory_path := if decide (relative = []) then root_path self else path_join (root_path self) relative in
  names ← list_names directory directory_path;
  fold_io (recover_atomic_temp self directory directory_path prefix) report names.

Definition recover (self : Store) : io RecoveryReport :=
  validate_root_identity self;;
  with_roots_exclusive self (
    report ← recover_interrupted_publications self recovery_default;
    names ← list_names (dir self STAGING) (path_join (root_path self) STAGING);
    report ← fold_io (recover_stage self) report names;
    report ← recover_atomic_temps self (dir self ALIASES) ALIASES (bs ".tmp-alias-") report;
    report ← recover_atomic_temps self (dir self DERIVATIONS) DERIVATIONS (bs ".tmp-derivation-") report;
    report ← recover_atomic_temps self (dir self RETAINED) RETAINED (bs ".tmp-retained-") report;
    report ← recover_atomic_temps self (root self) [] FIXED_TEMP_PREFIX report;
    report ← recover_atomic_temps self (dir self LOCKS) LOCKS FIXED_TEMP_PREFIX report;
    recover_atomic_temps self (dir self LEASES) LEASES FIXED_TEMP_PREFIX report).

(** ** Opening *)
Definition ROOT_LAYOUT : list bytes :=
  [ALIASES; DERIVATIONS; GENERATIONS; INIT_LOCK; INSTANCES; LEASES; LOCKS; RETAINED; ROOTS_LOCK; STAGING;
   STORE_METADATA].

(** [found] is what [std::fs::read_dir] gives. *)
Definition is_resumable_root (path : bytes) (found : result io_error (list bytes)) : sresult bool :=
  match found with
  | Err e => if decide (io_kind e = NotFound) then Ok false else Err (StoreError.Io "inspect store root" path e)
  | Panic => Panic
  | Ok names =>
    Ok (forallb (λ name, bool_decide (valid_utf8 name ∧ (name ∈ ROOT_LAYOUT ∨ FIXED_TEMP_PREFIX `prefix_of` name))) names)
  end.

Definition LAYOUT_DIRECTORIES : list bytes :=
  [GENERATIONS; DERIVATIONS; STAGING; ALIASES; LEASES; RETAINED; INSTANCES; LOCKS].

Definition initialization_lock (root : location) (root_path : bytes) (device : N) : io File :=
  b ← pure (lock_record None);
  ensure_record_at root root_path device INIT_LOCK b MetadataKind.Lock PRIVATE_FILE_MODE;;
  let path := path_join root_path INIT_LOCK in
  lock ← open_regular_at root INIT_LOCK path;
  validate_regular lock path device PRIVATE_FILE_MODE;;
  io_call "clone initialization lock" path dup;;
  actual ← read_bounded lock path MetadataKind.Lock;
  pure (validate_lock_record actual None path);;
  io_call "lock store initialization" path (flock lock Exclusive true);;
  mret lock.

Definition validate_roots_lock (self : Store) : io () :=
  open_fixed_lock self (root self) ROOTS_LOCK None (root_path self);; mret ().
Definition validate_init_lock (self : Store) : io () :=
  open_fixed_lock self (root self) INIT_LOCK None (root_path self);; mret ().

Definition validate_opened (self : Store) : io Store :=
  validate_store_header self;;
  validate_init_lock self;;
  validate_roots_lock self;;
  validate_root_identity self;;
  mret self.

Definition open_from_file (root_path : bytes) (root : location) (allow_initialize : bool) : io Store :=
  '(root_device, root_inode) ← validate_private_root root root_path;
  let self := store_of root_path root root_device root_inode in
  if allow_initialize then
    lock ← initialization_lock root root_path root_device;
    guarded lock Exclusive (
      for_each (λ name, ensure_private_dir root name (path_join root_path name) root_device;; mret ())
        LAYOUT_DIRECTORIES;;
      header ← pure store_header;
      ensure_fixed_record self root STORE_METADATA header MetadataKind.Store IMMUTABLE_FILE_MODE;;
      b ← pure (lock_record None);
      ensure_fixed_record self root ROOTS_LOCK b MetadataKind.Lock PRIVATE_FILE_MODE;;
      io_call "sync initialized store root" root_path fsync;;
      validate_opened self)
  else
    for_each (λ name, open_and_validate_layout_dir root root_path name root_device;; mret ()) LAYOUT_DIRECTORIES;;
    validate_opened self.

Definition initialize (root_path : ManagedUmlPath.t) : io Store :=
  let path := ManagedUmlPath.path_buf root_path in
  root ← initialize_absolute_dir path; open_from_file path root true.
Definition initialize_absent (root_path : ManagedUmlPath.t) : io Store :=
  let path := ManagedUmlPath.path_buf root_path in
  root ← initialize_absent_absolute_dir path; open_from_file path root true.
Definition open_store (root_path : ManagedUmlPath.t) : io Store :=
  let path := ManagedUmlPath.path_buf root_path in
  root ← open_absolute_dir_no_symlinks path; open_from_file path root false.
End store.
