(* ===== verification/ImageRun.v ===== *)
(** * The process of a stored image: crates/pocket-runtime/src/image.rs

    [resolve_image_process]: the configuration and the accounts that a generation
    carries, read under a lease, and the process they give.  Together with the
    verifier of layouts: the process that a run resolves is the one of the image that was
    imported, unless the configuration it read is a different file with the same SHA-256
    digest. *)

From S2P Require Import Prelude RustStr ProtocolError Payload Message NoPanic AccountDatabase BuilderMessage.
From S2P Require Import Sha256 StoreCodec HexText OciError OciJson OciConfig OciLayout OciVerified HostError UserResolve ImageProcess.
From S2P Require Import StoreIdentity StoreRecords StoreFs FsFacts Store.

#[local] Arguments bs : simpl never.
#[local] Arguments len : simpl never.

Definition IMAGE_CONFIG_SIDECAR : bytes := bs "image-config.json".
Definition ACCOUNT_DATABASE_SIDECAR : bytes := bs "accounts.cbor".

(** Operations of the runtime on the files of the store. *)
Definition rio (A : Type) : Type := world → world * rresult A.
#[export] Instance rio_ret : MRet rio := λ A a w, (w, Ok a).
#[export] Instance rio_bind : MBind rio := λ A B f m w,
  let '(w, r) := m w in
  match r with Ok a => f a w | Err e => (w, Err e) | Panic => (w, Panic) end.
Definition from_result {A} (r : rresult A) : rio A := λ w, (w, r).
(** [?] on a result of the store *)
Definition from_store {A} (m : io A) : rio A := λ w, let '(w, r) := m w in (w, map_err RuntimeError.Store r).

Section run.
Context {sha : Sha2} {hex : Hex} {serde : SerdeJson} {docs : Documents} {cbor : Cbor AccountDatabase.t} {text : StdText}.
Context (debug : bytes → bytes).

Definition resolve_image_process (lease : Lease) (overrides : ImageProcessOverrides.t) : rio ResolvedImageProcess.t :=
  let limits := VerifyLimits.default in
  config_bytes ← from_store (read_sidecar lease IMAGE_CONFIG_SIDECAR (VerifyLimits.max_config_bytes limits));
  let observed := sha256_digest config_bytes in
  let expected := GenerationSpec.config_digest (GenerationManifest.spec (manifest (generation lease))) in
  if decide (observed ≠ expected)
  then from_result (Err (RuntimeError.GenerationMismatch "image_config.digest" (digest_to_string expected)
                           (digest_to_string observed))) else
  config ← from_result (map_err RuntimeError.ImageConfig
                          (parse_image_process_config_with_limits debug limits config_bytes));
  account_bytes ← from_store (read_sidecar lease ACCOUNT_DATABASE_SIDECAR MAX_ACCOUNT_DB_BYTES);
  account_db ← from_result (map_err RuntimeError.Protocol (AccountDb.from_canonical_bytes account_bytes));
  accounts ← from_result (map_err RuntimeError.Protocol (AccountDb.decode_database account_db));
  from_result (resolve_verified_process debug config accounts overrides).
End run.

Lemma rio_bind_Ok {A B} (m : rio A) (k : A → rio B) w w'' b :
  (m ≫= k) w = (w'', Ok b) ↔ ∃ a w', m w = (w', Ok a) ∧ k a w' = (w'', Ok b).
Proof. unfold mbind, rio_bind. destruct (m w) as [w' [a|e|]]; naive_solver. Qed.
Lemma from_result_Ok {A} (r : rresult A) w w' a : from_result r w = (w', Ok a) ↔ w' = w ∧ r = Ok a.
Proof. unfold from_result. naive_solver. Qed.
Lemma from_store_Ok {A} (m : io A) w w' a : from_store m w = (w', Ok a) ↔ m w = (w', Ok a).
Proof. unfold from_store. destruct (m w) as [? [?|?|]]; naive_solver. Qed.

(** What is read as a sidecar has the digest that the manifest of the generation gives. *)
Lemma read_sidecar_ok `{Sha2} `{StdText} lease name maximum w w' b :
  read_sidecar lease name maximum w = (w', Ok b) →
  ∃ s, s ∈ GenerationManifest.sidecars (manifest (generation lease)) ∧ ImmutableSidecar.name s = name ∧
    sha256_digest b = ImmutableSidecar.digest s ∧ len b = ImmutableSidecar.size s ∧ (len b ≤ maximum)%N.
Proof.
  unfold read_sidecar. rewrite io_guard_ok. intros [_ Hs].
  destruct (List.find _ _) as [s|] eqn:Hf; [|by apply io_pure_ok in Hs as [_ ?]].
  apply List.find_some in Hf as [Hin Hn%bool_decide_eq_true]. cbv zeta in Hs. apply io_guard_ok in Hs as [Hmax%N.nlt_ge Hs].
  apply io_bind_ok in Hs as (f & w1 & _ & Hs). apply io_bind_ok in Hs as (m & w2 & _ & Hs). apply io_guard_ok in Hs as [_ Hs].
  apply io_bind_ok in Hs as (c & w3 & _ & Hs). apply io_guard_ok in Hs as [Hl%dec_stable Hs].
  apply io_guard_ok in Hs as [Hd%dec_stable Hs]. apply io_bind_ok in Hs as (final & w4 & _ & Hs).
  apply io_guard_ok in Hs as [_ Hs]. apply io_ret_ok in Hs as [_ <-].
  exists s. split_and!; [by apply list_elem_of_In|done|done|done|by rewrite Hl].
Qed.

(** [p] is the process of the accounts that are read under the lease. *)
Definition account_process `{Sha2} `{Cbor AccountDatabase.t} `{StdText} (lease : Lease) (config : DockerProcessConfig.t)
    (overrides : ImageProcessOverrides.t) (w : world) (p : ResolvedImageProcess.t) : Prop :=
  ∃ accounts b s w', read_sidecar lease ACCOUNT_DATABASE_SIDECAR MAX_ACCOUNT_DB_BYTES w = (w', Ok b) ∧
    encode_payload accounts = Ok b ∧ validate accounts = Ok () ∧
    s ∈ GenerationManifest.sidecars (manifest (generation lease)) ∧
    ImmutableSidecar.name s = ACCOUNT_DATABASE_SIDECAR ∧ sha256_digest b = ImmutableSidecar.digest s ∧
    process_of config accounts overrides p.

(** C24: a run starts the process of the image that was imported.  Let [cb] be the
    configuration that the layout verifier retained, with the process defaults
    [config], and let a lease hold a generation that was built for the digest of
    [cb].  When a process is resolved under the lease, its configuration sidecar was read;
    these bytes are [cb], or different from [cb] with the same SHA-256 digest.  If they are
    [cb], the process is the one of these defaults, of the run's overrides and of accounts
    whose canonical encoding was read as the account sidecar and has the digest that the
    generation gives for it. *)
Theorem run_of_image `{Sha2Laws} `{Hex} `{SerdeJson} `{Documents} `{CborLaws AccountDatabase.t} `{StdText}
    debug lease overrides cb config w w' p :
  sha256_digest cb = GenerationSpec.config_digest (GenerationManifest.spec (manifest (generation lease))) →
  parse_image_process_config_with_limits debug VerifyLimits.default cb = Ok config →
  (len (docker_argv config overrides) < u64_bound)%N →
  resolve_image_process debug lease overrides w = (w', Ok p) →
  ∃ cb' w1, read_sidecar lease IMAGE_CONFIG_SIDECAR (VerifyLimits.max_config_bytes VerifyLimits.default) w = (w1, Ok cb') ∧
    (collides cb' cb ∨ cb' = cb ∧ account_process lease config overrides w1 p).
Proof.
  intros Hcb Hconfig Hargv Hrun. unfold resolve_image_process in Hrun. cbv zeta in Hrun.
  apply rio_bind_Ok in Hrun as (cb' & w1 & Hread%from_store_Ok & Hrun). exists cb', w1. split; [exact Hread|]. revert Hrun.
  case_decide as Hd; [by intros [_ ?]%from_result_Ok|]. intros Hrun. rewrite <- Hcb in Hd.
  destruct (decide (cb' = cb)) as [->|Hne]; [right; split; [done|]|by left; split]. clear Hd Hread.
  apply rio_bind_Ok in Hrun as (config' & w2 & [-> Hc%map_err_ok]%from_result_Ok & Hrun).
  rewrite Hconfig in Hc. injection Hc as <-.
  apply rio_bind_Ok in Hrun as (b & w3 & Hread%from_store_Ok & Hrun).
  destruct (read_sidecar_ok _ _ _ _ _ _ Hread) as (s & Hin & Hname & Hdig & _).
  apply rio_bind_Ok in Hrun as (db & w4 & [-> Hdb%map_err_ok]%from_result_Ok & Hrun).
  apply rio_bind_Ok in Hrun as (accounts & w5 & [-> Ha%map_err_ok]%from_result_Ok & Hrun).
  apply from_result_Ok in Hrun as [_ [Hv Hp]%resolve_verified_process_Ok]; [|done].
  exists accounts, b, s, w3. split_and!; try done.
  unfold AccountDb.from_canonical_bytes in Hdb. rewrite bind_unit_ok in Hdb. destruct Hdb as [_ Hdb].
  apply bind_ok in Hdb as (d & _ & Hdb). apply bind_ok in Hdb as (db' & _ & [Hb%dec_stable Hdb]%guard_ok). injection Hdb as <-.
  apply bind_unit_ok in Ha as [_ Ha]. apply payload_codec in Ha. by rewrite Hb in Ha.
Qed.

(** ** A generation with a configuration and accounts *)
Module SampleRun.
Import SampleHash SampleHex SampleLayout SampleAccountCodec.
#[export] Instance sample_text : StdText := {| io_text _ := []; path_text p := p; debug_text p := p |}.

Definition sample_lease : Lease :=
  let spec := SampleGeneration.sample_spec in
  lease_of (generation_of
    (GenerationManifest.generation_manifest [] []
       (GenerationSpec.generation_spec (GenerationSpec.selected_manifest_digest spec) (sha256_digest (bs "config"))
          (GenerationSpec.layer_digests spec) (GenerationSpec.diff_ids spec) None SampleGeneration.sample_platform
          SampleGeneration.sample_platform [] [] [] [] [] []) [] 0
       [ImmutableSidecar.immutable_sidecar ACCOUNT_DATABASE_SIDECAR (sha256_digest sample_bytes) (len sample_bytes);
        ImmutableSidecar.immutable_sidecar IMAGE_CONFIG_SIDECAR (sha256_digest (bs "config")) (len (bs "config"))])
    (bs "/g") [bs "g"] [] (file [] 0) 1) (file [] 0).

Definition immutable (i : N) (b : bytes) : node := Node (inode_of i 1 1000 IMMUTABLE_FILE_MODE 1 (RegularFile b)) ∅.
Definition sample_world : world :=
  world_of (Node (inode_of 1 1 1000 493 2 DirectoryFile)
      {[ bs "g" := Node (inode_of 2 1 1000 365 2 DirectoryFile)
           {[ IMAGE_CONFIG_SIDECAR := immutable 3 (bs "config"); ACCOUNT_DATABASE_SIDECAR := immutable 4 sample_bytes ]} ]})
    10 [] [] 1000 18 42 0 (λ n, n).

Definition shell : ImageProcessOverrides.t := ImageProcessOverrides.image_process_overrides
  (ImageArgv.Exact [bs "/bin/sh"]) None [bs "TERM=linux"] (bs "box") None None None.
Definition shell_process : ResolvedImageProcess.t := ResolvedImageProcess.resolved_image_process
  [bs "/bin/sh"] [bs "PATH=" ++ DEFAULT_PATH; bs "HOSTNAME=box"; bs "TERM=linux"] (bs "/")
  (UserResolution.user_resolution 1 0 0 [10%N]) 15.
Definition shell_defaults : DockerProcessConfig.t :=
  DockerProcessConfig.docker_process_config [] [] [] [] (bs "/") (bs "0") [] None.

Lemma run_of_image_witness :
  resolve_image_process id sample_lease shell sample_world = (sample_world, Ok shell_process) ∧
  account_process sample_lease shell_defaults shell sample_world shell_process.
Proof.
  assert (resolve_image_process id sample_lease shell sample_world = (sample_world, Ok shell_process)) as H
    by (vm_compute; reflexivity).
  split; [exact H|].
  destruct (run_of_image id sample_lease shell (bs "config") shell_defaults sample_world sample_world shell_process)
    as (cb' & w1 & Hread & Hend); [vm_compute; reflexivity..|exact H|].
  assert ((w1, Ok (E:=StoreError.t) cb') = (sample_world, Ok (bs "config"))) as [= -> ->]
    by (rewrite <- Hread; vm_compute; reflexivity).
  destruct Hend as [[Hne _]|[_ Hend]]; [by destruct Hne|exact Hend].
Defined.
End SampleRun.
