(* ===== verification/StoreFrame.v ===== *)
(** * What the operations of the store leave alone

    Every operation of [Store] with the places of the file system that it does not
    touch, whatever fails on the way, and the records that a successful read saw. *)

From S2P Require Import Prelude RustStr Utf8 ByteOrder ManagedPath ProtocolError Sha256 StoreCodec HexText StoreIdentity StoreRecords StoreFs FsFacts Store.

#[local] Arguments bs : simpl never.
#[local] Arguments len : simpl never.

(** ** Places of the store *)

(** [r] is the entry [name'] of the directory [area']. *)
Lemma outside_entry self area name area' name' :
  (area, name) ≠ (area', name') → outside (dir self area' ++ [name']) (dir self area) name.
Proof.
  unfold dir. intros Hne. rewrite <- !app_assoc. simpl. split.
  - intros Hp%prefix_length. rewrite !length_app in Hp. simpl in Hp. lia.
  - intros [k Hk]. rewrite <- !app_assoc in Hk. apply app_inv_head in Hk. simpl in Hk. congruence.
Qed.

(** Names of identifiers begin with "p", temporary ones with ".". *)
Lemma name_not_temporary `{Hex} prefix id rest temp s :
  head prefix = Some x70 → head temp = Some x2e → id_to_string prefix id ++ rest ≠ temp ++ s.
Proof. intros Hp Ht He. destruct prefix, temp; by simplify_eq/=. Qed.

Lemma area_ne : NoDup [GENERATIONS; DERIVATIONS; STAGING; ALIASES; LEASES; RETAINED; INSTANCES; LOCKS].
Proof. apply (bool_decide_unpack _). vm_compute. exact I. Qed.

Section store_ops.
Context {sha : Sha2} {hex : Hex} {text : StdText}.
Implicit Types self : Store.

(** ** Reading *)
Section reading.
Context (R : relation world) `{!Observing R}.

Lemma steps_validate_root_identity self : steps R (validate_root_identity self).
Proof. unfold validate_root_identity. steps_auto. Qed.
Lemma steps_unique_suffix : steps R unique_suffix.
Proof. intros w. by apply observing_same. Qed.
Lemma steps_inode_number p : steps R (inode_number p).
Proof. unfold inode_number. steps_auto. Qed.
Hint Resolve steps_validate_root_identity steps_unique_suffix steps_inode_number : steps.
Lemma steps_layout_path self i name ds : steps R (layout_path self i name ds).
Proof. induction ds; simpl; steps_auto. Qed.
Hint Resolve steps_layout_path : steps.
Lemma steps_path_for_layout_file self p name : steps R (path_for_layout_file self p name).
Proof. unfold path_for_layout_file. steps_auto. Qed.
Lemma steps_open_fixed_lock self p name key path : steps R (open_fixed_lock self p name key path).
Proof. unfold open_fixed_lock. steps_auto. Qed.
Lemma steps_check_contents f path b device k m : steps R (check_contents f path b device k m).
Proof. unfold check_contents. steps_auto. Qed.
Lemma steps_verify_file d name path device n digest : steps R (verify_file d name path device n digest).
Proof. unfold verify_file. steps_auto. Qed.
Lemma steps_read_staging_record d path device : steps R (read_staging_record d path device).
Proof. unfold read_staging_record. steps_auto. Qed.
Hint Resolve steps_path_for_layout_file steps_open_fixed_lock steps_check_contents steps_verify_file
  steps_read_staging_record : steps.
Lemma steps_verify_mode self id m : steps R (verify_generation_with_directory_mode self id m).
Proof. unfold verify_generation_with_directory_mode. steps_auto. Qed.
Lemma steps_verify_generation self id : steps R (verify_generation self id).
Proof. apply steps_verify_mode. Qed.
Lemma steps_read_record_file self d name path k e : steps R (read_record_file self d name path k e).
Proof. unfold read_record_file. steps_auto. Qed.
Hint Resolve steps_verify_generation steps_read_record_file : steps.
Lemma steps_read_derivation self key : steps R (read_derivation self key).
Proof. unfold read_derivation. steps_auto. Qed.
Lemma steps_read_alias self id : steps R (read_alias self id).
Proof. unfold read_alias. steps_auto. Qed.
Lemma steps_read_retained self id : steps R (read_retained self id).
Proof. unfold read_retained. steps_auto. Qed.
Lemma steps_read_instance self id : steps R (read_instance self id).
Proof. unfold read_instance. steps_auto. Qed.
Hint Resolve steps_read_derivation steps_read_alias steps_read_retained steps_read_instance : steps.
Lemma steps_alias_gc_root self roots name : steps R (alias_gc_root self roots name).
Proof. unfold alias_gc_root, unsafe. steps_auto. Qed.
Lemma steps_retained_gc_root self roots name : steps R (retained_gc_root self roots name).
Proof. unfold retained_gc_root, unsafe. steps_auto. Qed.
Hint Resolve steps_alias_gc_root steps_retained_gc_root : steps.
Lemma steps_collect_gc_roots self : steps R (collect_gc_roots self).
Proof. unfold collect_gc_roots. steps_auto. Qed.
Lemma steps_classify_generation self found name : steps R (classify_generation self found name).
Proof. unfold classify_generation, unsafe. steps_auto. Qed.
End reading.
Hint Resolve steps_validate_root_identity steps_unique_suffix steps_path_for_layout_file steps_open_fixed_lock
  steps_check_contents steps_verify_file steps_read_staging_record steps_verify_mode steps_verify_generation
  steps_read_derivation steps_read_alias steps_read_retained steps_read_instance steps_collect_gc_roots
  steps_classify_generation : steps.

(** ** Writing *)
Section writing.
Context (places : location → Prop) (holders : N → Prop).
Abbreviation kept p name := (∀ r, places r → outside r p name).
Abbreviation R := (frame places holders).

Lemma steps_publish_record n p parent_path name path b m :
  (∀ s, kept p (FIXED_TEMP_PREFIX ++ s)) → kept p name →
  steps R (publish_record n p parent_path name path b m).
Proof. intros Ht Hn. induction n; cbn [publish_record]; steps_auto. Qed.
Hint Resolve steps_publish_record : steps.

Lemma steps_ensure_fixed_record self p name b k m :
  (∀ s, kept p (FIXED_TEMP_PREFIX ++ s)) → kept p name → steps R (ensure_fixed_record self p name b k m).
Proof. intros Ht Hn. unfold ensure_fixed_record, ensure_record_at. steps_auto. Qed.
Hint Resolve steps_ensure_fixed_record : steps.

Lemma steps_open_derivation_lock self key :
  (∀ name, kept (dir self LOCKS) name) → steps R (open_derivation_lock self key).
Proof. intros. unfold open_derivation_lock. steps_auto. Qed.
Lemma steps_open_lease_lock self id :
  (∀ s, kept (dir self LEASES) (FIXED_TEMP_PREFIX ++ s)) → kept (dir self LEASES) (lease_filename id) →
  steps R (open_lease_lock self id).
Proof. intros. unfold open_lease_lock. steps_auto. Qed.
Lemma steps_write_derivation_record self record :
  (∀ name, kept (dir self DERIVATIONS) name) → steps R (write_derivation_record self record).
Proof. intros. unfold write_derivation_record. steps_auto. Qed.
Hint Resolve steps_open_derivation_lock steps_open_lease_lock steps_write_derivation_record : steps.
Lemma steps_update_derivation_index self key id :
  (∀ name, kept (dir self DERIVATIONS) name) → steps R (update_derivation_index self key id).
Proof. intros. unfold update_derivation_index. steps_auto. Qed.
Lemma steps_remove_from_derivation_index self key id :
  (∀ name, kept (dir self DERIVATIONS) name) → steps R (remove_from_derivation_index self key id).
Proof. intros. unfold remove_from_derivation_index, discard_derivation_index. steps_auto. Qed.
Hint Resolve steps_update_derivation_index steps_remove_from_derivation_index : steps.

Lemma steps_guarded {A} f m (body : io A) :
  m = Exclusive ∨ ¬ holders (file_ino f) → steps R body → steps R (guarded f m body).
Proof.
  intros Hm Hb w. unfold guarded. specialize (Hb w). destruct (body w) as [w1 r]. simpl in *.
  etrans; [done|]. by apply frame_funlock.
Qed.
Lemma steps_holding {A} f m (body : io A) :
  m = Exclusive ∨ ¬ holders (file_ino f) → steps R body → steps R (holding f m body).
Proof.
  intros Hm Hb w. unfold holding. specialize (Hb w). destruct (body w) as [w1 [a|e|]]; simpl in *; [done|..];
    (etrans; [done|by apply frame_funlock]).
Qed.
End writing.

(** ** Records that were read *)
Lemma read_record_file_ok self d name path k e w w' b :
  read_record_file self d name path k e w = (w', Ok b) →
  same w w' ∧ owned_file (dir self d ++ [name]) (root_device self) IMMUTABLE_FILE_MODE b w ∧
  (len b ≤ MAX_METADATA_BYTES)%N.
Proof.
  intros H. split; [by eapply observed; [apply steps_read_record_file, _|]|].
  apply io_bind_ok in H as ([x|f] & w1 & Ho & (f' & w2 & Hf & H)%io_bind_ok); [by case_decide|].
  apply io_ret_ok in Hf as [-> <-]. apply attempt_ok, open_regular_at_ok in Ho as (Hs & n & Hn & ->).
  apply io_bind_ok in H as (i & w2 & (Hs2 & Hf & (n' & Hn' & <-))%validate_regular_ok &
                            (Hs3 & Hl & n'' & Hn'' & ->)%read_bounded_ok).
  simpl in *. rewrite (same_node _ _ _ Hs2), Hn' in Hn''. simplify_eq.
  split; [|done]. by apply (owned_file_same _ _ _ _ _ _ Hs).
Qed.

Lemma owned_content p device m b w : owned_file p device m b w → ∃ n, node_at p w = Some n ∧ content (status n) = b.
Proof. intros (n & Hn & Hk & _). exists n. split; [done|]. unfold content. by rewrite Hk. Qed.

Definition alias_place (self : Store) (id : Digest) : location := dir self ALIASES ++ [alias_filename id].
Definition retained_place (self : Store) (id : Digest) : location := dir self RETAINED ++ [retained_filename id].

Lemma read_alias_ok self id w w' r :
  read_alias self id w = (w', Ok r) →
  same w w' ∧ AliasRecord.id r = id ∧ ∃ n, node_at (alias_place self id) w = Some n ∧
    AliasRecord.decode (content (status n)) (alias_path self id) = Ok r.
Proof.
  intros H. split; [by eapply observed; [apply steps_read_alias, _|]|].
  apply io_bind_ok in H as (b & w1 & (_ & Ho & _)%read_record_file_ok & H).
  apply io_bind_ok in H as (r' & w2 & [-> Hd]%io_pure_ok & [He%dec_stable [-> <-]%io_ret_ok]%io_guard_ok).
  split; [done|]. apply owned_content in Ho as (n & Hn & <-). by exists n.
Qed.

Lemma read_retained_ok self id w w' r :
  read_retained self id w = (w', Ok r) →
  same w w' ∧ RetainedCow.id r = id ∧ ∃ n, node_at (retained_place self id) w = Some n ∧
    RetainedCow.decode (content (status n)) (retained_path self id) = Ok r.
Proof.
  intros H. split; [by eapply observed; [apply steps_read_retained, _|]|].
  apply io_bind_ok in H as (b & w1 & (_ & Ho & _)%read_record_file_ok & H).
  apply io_bind_ok in H as (r' & w2 & [-> Hd]%io_pure_ok & [He%dec_stable [-> <-]%io_ret_ok]%io_guard_ok).
  split; [done|]. apply owned_content in Ho as (n & Hn & <-). by exists n.
Qed.
End store_ops.
#[export] Hint Resolve steps_validate_root_identity steps_unique_suffix steps_path_for_layout_file
  steps_open_fixed_lock steps_check_contents steps_verify_file steps_read_staging_record steps_verify_mode
  steps_verify_generation steps_read_record_file steps_read_derivation steps_read_alias steps_read_retained
  steps_read_instance steps_collect_gc_roots steps_classify_generation steps_ensure_fixed_record
  steps_open_derivation_lock steps_open_lease_lock steps_write_derivation_record steps_remove_from_derivation_index
  steps_update_derivation_index : steps.
