(* ===== verification/StoreVerify.v ===== *)
(** * What a verified generation is

    [verify_generation] against a specification on the directory alone: exactly the
    files the manifest names, with the sizes and digests it records, owned, immutable,
    on the device of the store, under the identity their contents give. *)

From S2P Require Import Prelude RustStr Utf8 ByteOrder ManagedPath ProtocolError Sha256 StoreCodec HexText StoreIdentity StoreRecords StoreFs FsFacts Store StoreFrame.

#[local] Arguments bs : simpl never.
#[local] Arguments len : simpl never.
#[local] Arguments sort : simpl never.

(** The entry [name] of a directory: a regular file of this user with one link. *)
Definition entry_file (device me m : N) (n : node) (name b : bytes) : Prop :=
  ∃ c, entries n !! name = Some c ∧ kind (status c) = RegularFile b ∧ nlink (status c) = 1%N ∧
       dev (status c) = device ∧ uid (status c) = me ∧ mode (status c) = m.

Lemma owned_entry p name d device m b w :
  node_at p w = Some d → owned_file (p ++ [name]) device m b w ↔ entry_file device (geteuid w) m d name b.
Proof. intros Hd. unfold owned_file, entry_file. by rewrite (node_at_entry _ _ d). Qed.

Lemma entry_file_inj device me m m' n name b b' :
  entry_file device me m n name b → entry_file device me m' n name b' → b = b'.
Proof. intros (c & Hc & Hk & _) (c' & Hc' & Hk' & _). rewrite Hc in Hc'. simplify_eq. by rewrite Hk in Hk'; simplify_eq. Qed.

Definition names_of (n : node) : list bytes :=
  filter (λ name, name ≠ bs "." ∧ name ≠ bs "..") (entry_names n).

Section spec.
Context {sha : Sha2}.

(** The file [name] holds bytes with this size and this digest. *)
Definition holds (device me : N) (n : node) (name : bytes) (size : N) (digest : Digest) : Prop :=
  ∃ b, entry_file device me IMMUTABLE_FILE_MODE n name b ∧ len b = size ∧ sha256_digest b = digest.

Record valid_generation (device me m : N) (id : Digest) (n : node) (manifest : GenerationManifest.t) : Prop := {
  valid_directory : is_dir (status n) ∧ dev (status n) = device ∧ uid (status n) = me ∧ mode (status n) = m;
  valid_names : names_of n ≡ₚ [BASE_IMAGE; GENERATION_METADATA; STAGING_METADATA]
                              ++ sidecar_names (GenerationManifest.sidecars manifest);
  valid_manifest : manifest_ok manifest ∧ GenerationManifest.id manifest = id ∧
    ∃ b, entry_file device me IMMUTABLE_FILE_MODE n GENERATION_METADATA b ∧
         GenerationManifest.encode manifest = Ok b ∧ (len b ≤ MAX_METADATA_BYTES)%N;
  valid_stage : ∃ b, entry_file device me IMMUTABLE_FILE_MODE n STAGING_METADATA b ∧
    StagingRecord.encode (StagingRecord.staging_record (GenerationManifest.derivation_key manifest)) = Ok b;
  valid_base : holds device me n BASE_IMAGE (GenerationManifest.base_size manifest)
                 (GenerationManifest.base_digest manifest);
  valid_sidecars : Forall (λ s, holds device me n (ImmutableSidecar.name s) (ImmutableSidecar.size s)
                                  (ImmutableSidecar.digest s)) (GenerationManifest.sidecars manifest);
}.
End spec.

Lemma sort_perm_iff l k : sort l = sort k ↔ l ≡ₚ k.
Proof.
  unfold sort. split.
  - intros H. rewrite <- (sort_by_perm id l), H. apply sort_by_perm.
  - intros H. pose proof (sort_by_sorted id l) as Hl. pose proof (sort_by_sorted id k) as Hk.
    unfold sorted_by in *. rewrite list_fmap_id in Hl, Hk.
    apply (StronglySorted_unique bytes_le); [done..|]. by rewrite !sort_by_perm.
Qed.

Section verify.
Context {sha : Sha2} {hex : Hex} {text : StdText} {sha_laws : Sha2Laws}.
Implicit Types self : Store.

Lemma verify_file_ok p name path device n digest w w' f d :
  node_at p w = Some d → verify_file p name path device n digest w = (w', Ok f) →
  same w w' ∧ holds device (geteuid w) d name n digest ∧
  ∃ c, entries d !! name = Some c ∧ f = file (p ++ [name]) (ino (status c)).
Proof.
  intros Hd H. split; [by eapply observed; [apply steps_verify_file, _|]|].
  apply io_bind_ok in H as (g & w1 & (Hs & c & Hc & ->)%open_regular_at_ok & H).
  apply io_bind_ok in H as (i & w2 & (Hs2 & Ho & _)%validate_regular_ok & [Hn%dec_stable H]%io_guard_ok).
  apply io_bind_ok in H as ([d' n'] & w3 & Hh & [Hn'%dec_stable H]%io_guard_ok).
  apply io_guard_ok in H as [Hd'%dec_stable [_ <-]%io_ret_ok].
  apply hash_file_ok in Hh as [_ Hh]. simpl in *.
  assert (same w w2) as Hw by same_by.
  rewrite (same_node _ _ _ Hw) in Hh. destruct (Hh c Hc) as (-> & -> & _). clear Hh.
  apply (owned_file_same _ _ _ _ _ _ Hs) in Ho. rewrite (owned_entry _ _ d) in Ho by done.
  rewrite (node_at_entry _ _ d) in Hc by done. split; [|by exists c].
  exists (content i). split_and!; [done|done|]. destruct Ho as (c' & Hc' & Hk & _). rewrite Hc in Hc'. simplify_eq.
  f_equal. unfold content at 2. by rewrite Hk.
Qed.

Lemma read_staging_record_ok p path device w w' r d :
  node_at p w = Some d → read_staging_record p path device w = (w', Ok r) →
  same w w' ∧ ∃ b, entry_file device (geteuid w) IMMUTABLE_FILE_MODE d STAGING_METADATA b ∧
    StagingRecord.encode r = Ok b.
Proof.
  intros Hd H. split; [by eapply observed; [apply steps_read_staging_record, _|]|].
  apply io_bind_ok in H as (g & w1 & (Hs & c & Hc & ->)%open_regular_at_ok & H).
  apply io_bind_ok in H as (i & w2 & (Hs2 & Ho & (c1 & Hc1 & <-))%validate_regular_ok & H).
  apply io_bind_ok in H as (b & w3 & (Hs3 & _ & c2 & Hc2 & ->)%read_bounded_ok & [_ Hr]%io_pure_ok).
  simpl in *. rewrite (same_node _ _ _ Hs2), Hc1 in Hc2. simplify_eq.
  apply (owned_file_same _ _ _ _ _ _ Hs) in Ho. rewrite (owned_entry _ _ d) in Ho by done.
  exists (content (status c2)). split; [done|]. by apply staging_exact in Hr as (_ & ? & _).
Qed.

Definition generation_place (self : Store) (id : Digest) : location := dir self GENERATIONS ++ [generation_name id].

(** What the result says about a directory that passed. *)
Definition describes (self : Store) (id : Digest) (n : node) (g : Generation) : Prop :=
  directory g = generation_place self id ∧ directory_path g = generation_path self id ∧
  base_path g = path_join (generation_path self id) BASE_IMAGE ∧ generation_device g = root_device self ∧
  ∃ c, entries n !! BASE_IMAGE = Some c ∧ base g = file (generation_place self id ++ [BASE_IMAGE]) (ino (status c)).

(** Whatever the calls do, a generation that passes is what the specification says. *)
Lemma verify_mode_ok self id m w w' g :
  verify_generation_with_directory_mode self id m w = (w', Ok g) →
  same w w' ∧ ∃ n, node_at (generation_place self id) w = Some n ∧
    valid_generation (root_device self) (geteuid w) m id n (manifest g) ∧ describes self id n g.
Proof.
  intros H. split; [by eapply observed; [apply steps_verify_mode, _|]|].
  apply io_bind_ok in H as ([] & w0 & Hs0%(observed _ (steps_validate_root_identity same self)) & H).
  rewrite <- (same_euid _ _ Hs0), <- (same_node (generation_place self id) _ _ Hs0). clear Hs0 w.
  apply io_bind_ok in H as ([x|d] & w1 & Ho & (d' & w2 & Hd & H)%io_bind_ok); [by case_decide|].
  apply io_ret_ok in Hd as [-> <-]. rewrite attempt_ok in Ho. apply open_dir_at_ok in Ho as (Hs & -> & n & Hn & Hk).
  fold (generation_place self id) in *.
  apply io_bind_ok in H as (i & w2 & (Hs2 & n' & Hn' & <- & Hdir)%validate_directory_ok & H).
  rewrite (same_node _ _ _ Hs), Hn in Hn'. simplify_eq.
  apply io_bind_ok in H as (names & w3 & (Hs3 & n'' & Hn'' & _ & ->)%list_names_ok & H).
  assert (same w0 w3) as Hw3 by same_by.
  assert (same w0 w2) as Hw2 by same_by. rewrite (same_node _ _ _ Hw2), Hn in Hn''. simplify_eq.
  apply io_bind_ok in H as (mf & w4 & (Hs4 & c & Hc & ->)%open_regular_at_ok & H).
  apply io_bind_ok in H as (i & w5 & (Hs5 & Ho & (c1 & Hc1 & <-))%validate_regular_ok & H).
  apply io_bind_ok in H as (b & w6 & (Hs6 & Hl & c2 & Hc2 & ->)%read_bounded_ok & H).
  simpl in *. rewrite (same_node _ _ _ Hs5), Hc1 in Hc2. simplify_eq.
  assert (same w0 w4) as Hw4 by same_by. assert (same w0 w6) as Hw6 by same_by.
  apply (owned_file_same _ _ _ _ _ _ Hw4) in Ho. rewrite (owned_entry _ _ n'') in Ho by done.
  apply io_bind_ok in H as (mani & w7 & [-> Hm]%io_pure_ok & [Hid%dec_stable [Hnames%dec_stable H]%io_guard_ok]%io_guard_ok).
  apply io_bind_ok in H as (sr & w8 & Hsr & [Hkey%dec_stable H]%io_guard_ok).
  assert (node_at (generation_place self id) w6 = Some n'') as Hn6 by (by rewrite (same_node _ _ _ Hw6)).
  apply (read_staging_record_ok _ _ _ _ _ _ _ Hn6) in Hsr as [Hs8 (bs_ & Hbs & Hse)].
  assert (node_at (generation_place self id) w8 = Some n'') as Hn8 by (by rewrite (same_node _ _ _ Hs8)).
  apply io_bind_ok in H as (bf & w9 & Hbf & H). apply (verify_file_ok _ _ _ _ _ _ _ _ _ _ Hn8) in Hbf as (Hs9 & Hb & Hbi).
  apply io_bind_ok in H as ([] & w10 & Hsc & [-> <-]%io_ret_ok).
  assert (same w0 w8) as Hw8 by same_by. assert (same w0 w9) as Hw9 by same_by.
  rewrite (same_euid _ _ Hw6) in Hbs. rewrite (same_euid _ _ Hw8) in Hb.
  exists n''. split; [done|]. split; [|by split_and!]. apply manifest_exact in Hm as (Hok & He & _). split; cbn [manifest].
  - destruct Hdir as (? & ? & ? & ?). by rewrite (same_euid _ _ Hs) in *.
  - apply sort_perm_iff in Hnames. rewrite <- Hnames. unfold sort. by rewrite sort_by_perm.
  - split_and!; [done..|]. by exists (content (status c2)).
  - exists bs_. split; [done|]. rewrite <- Hkey. by destruct sr.
  - done.
  - apply Forall_forall. intros s Hin.
    eapply (for_each_ok _ _ _ _ _ same) in Hsc as (w11 & w12 & Hs11 & Hv); [|intros; steps_auto|exact Hin].
    apply io_bind_ok in Hv as (sf & w13 & Hv & _).
    assert (same w0 w11) as Hw11 by same_by.
    eapply verify_file_ok in Hv as (_ & Hv & _); [|by rewrite (same_node _ _ _ Hw11)].
    by rewrite (same_euid _ _ Hw11) in Hv.
Qed.

(** *** Completeness *)
Lemma verify_file_quiet p name path device n digest w d :
  quiet w → node_at p w = Some d → (n < u64_bound)%N → holds device (geteuid w) d name n digest →
  ∃ f, verify_file p name path device n digest w = (w, Ok f).
Proof.
  intros Hq Hd Hn (b & (c & Hc & Hk & Hl & Hdev & Hu & Hm) & <- & <-).
  assert (node_at (p ++ [name]) w = Some c) as Hp by (by rewrite (node_at_entry _ _ d)).
  eexists. unfold verify_file. run (by eapply open_regular_at_quiet).
  run (by eapply validate_regular_quiet).
  assert (size (status c) = len b) as -> by (unfold size, content; by rewrite Hk).
  rewrite run_guard by tauto. run (by eapply hash_file_quiet).
  rewrite run_guard by tauto. by rewrite run_guard by tauto.
Qed.

Lemma staging_record_len key b :
  is_digest key → StagingRecord.encode (StagingRecord.staging_record key) = Ok b → (len b ≤ MAX_METADATA_BYTES)%N.
Proof.
  intros Hk. unfold StagingRecord.encode. rewrite record_parts. intros (e & He & ->)%fmap_ok.
  simpl in He. apply ok_inj in He as <-. rewrite len_envelope, app_nil_r. apply digest_len in Hk. rewrite Hk.
  unfold MAX_METADATA_BYTES. change (len STAGING_MAGIC) with 8%N. lia.
Qed.

Lemma read_staging_record_quiet p path device w d key b :
  quiet w → node_at p w = Some d → is_digest key →
  entry_file device (geteuid w) IMMUTABLE_FILE_MODE d STAGING_METADATA b →
  StagingRecord.encode (StagingRecord.staging_record key) = Ok b →
  read_staging_record p path device w = (w, Ok (StagingRecord.staging_record key)).
Proof.
  intros Hq Hd Hkey (c & Hc & Hk & Hl & Hdev & Hu & Hm) He.
  assert (node_at (p ++ [STAGING_METADATA]) w = Some c) as Hp by (by rewrite (node_at_entry _ _ d)).
  pose proof (staging_record_len _ _ Hkey He) as Hlen.
  unfold read_staging_record. run (by eapply open_regular_at_quiet).
  run (by eapply validate_regular_quiet). run (by eapply read_bounded_quiet).
  unfold pure. f_equal. by apply staging_exact.
Qed.

Lemma verify_mode_quiet self id m w n mani :
  quiet w → validate_root_identity self w = (w, Ok ()) → node_at (generation_place self id) w = Some n →
  valid_generation (root_device self) (geteuid w) m id n mani →
  ∃ g, verify_generation_with_directory_mode self id m w = (w, Ok g) ∧ manifest g = mani.
Proof.
  intros Hq Hr Hn [(Hdir & Hdev & Hu & Hmode) Hnames (Hok & Hid & b & Hb & He & Hlen) (sb & Hsb & Hse) Hbase Hside].
  pose proof Hb as (c & Hc & Hk & Hl & Hcd & Hcu & Hcm).
  assert (node_at (generation_place self id ++ [GENERATION_METADATA]) w = Some c) as Hp
    by (by rewrite (node_at_entry _ _ n)).
  pose proof Hok as (_ & (Hkey & _ & Hsize & Hsc & _) & _). simpl in *.
  edestruct (verify_file_quiet (generation_place self id)) as [f Hf]; [done..|exact Hbase|].
  eexists. split; [|shelve]. unfold verify_generation_with_directory_mode.
  run done. run (by eapply run_attempt, open_dir_at_quiet).
  run done. run (by eapply validate_directory_quiet).
  run (by eapply list_names_quiet). run (by eapply open_regular_at_quiet).
  run (by eapply validate_regular_quiet). run (by eapply read_bounded_quiet).
  run (unfold pure; f_equal; by apply manifest_exact).
  rewrite run_guard by tauto. rewrite run_guard.
  2:{ intros []. apply sort_perm_iff. unfold sort. by rewrite sort_by_perm. }
  run (by eapply read_staging_record_quiet). rewrite run_guard by (simpl; tauto).
  run (exact Hf). erewrite run_bind; [done|]. apply for_each_quiet. intros s Hin.
  rewrite Forall_forall in Hside, Hsc. destruct (Hsc s Hin) as (_ & _ & Hss).
  edestruct (verify_file_quiet (generation_place self id)) as [g Hg]; [done..|exact Hss|by apply Hside|].
  by run (exact Hg).
  Unshelve. done.
Qed.

(** C5: [verify_generation] accepts exactly the generations of the specification.
    Whatever system calls fail, a generation it returns is a directory whose entries
    are exactly the base image, the two metadata files and the sidecars of the
    manifest, every file immutable, owned and unlinked elsewhere, with the recorded
    size and digest, under the identity of its contents; and nothing was changed.
    When no call fails and the root is the opened one, every such directory is
    accepted with its manifest. *)
Theorem verify_generation_exact self id w :
  (∀ w' g, verify_generation self id w = (w', Ok g) →
     tree w' = tree w ∧
     ∃ n, node_at (generation_place self id) w = Some n ∧ describes self id n g ∧
          valid_generation (root_device self) (geteuid w) IMMUTABLE_DIR_MODE id n (manifest g)) ∧
  (quiet w → validate_root_identity self w = (w, Ok ()) →
     ∀ n m, node_at (generation_place self id) w = Some n →
            valid_generation (root_device self) (geteuid w) IMMUTABLE_DIR_MODE id n m →
            ∃ g, verify_generation self id w = (w, Ok g) ∧ manifest g = m).
Proof.
  split.
  - intros w' g ((Ht & _) & n & Hn & Hv & Hd)%verify_mode_ok. split; [done|]. by exists n.
  - intros Hq Hr n m Hn Hv. by eapply verify_mode_quiet.
Qed.
End verify.
