(* ===== verification/StoreGc.v ===== *)
(** * Garbage collection keeps what is reachable

    The safety of [garbage_collect] for every failure and every crash. *)

From S2P Require Import Prelude RustStr Utf8 ByteOrder ManagedPath ProtocolError Sha256 StoreCodec HexText StoreIdentity StoreRecords StoreFs FsFacts Store StoreFrame StoreVerify.

#[local] Arguments bs : simpl never.
#[local] Arguments len : simpl never.

Section collection.
Context {sha : Sha2} {hex : Hex} {text : StdText}.
Implicit Types self : Store.

Definition lease_place (self : Store) (id : Digest) : location := dir self LEASES ++ [lease_filename id].

(** What collection leaves alone while [id] is reachable: its directory, the file that
    its leases lock, and every entry of these directories. *)
Definition KEPT_AREAS : list bytes := [STAGING; ALIASES; RETAINED; INSTANCES].
Definition spared (self : Store) (id : Digest) (r : location) : Prop :=
  r = generation_place self id ∨ r = lease_place self id ∨
  ∃ area name, area ∈ KEPT_AREAS ∧ r = dir self area ++ [name].

(** Somebody holds a shared lock on the lease file of the generation. *)
Definition leased (self : Store) (id : Digest) (w : world) : Prop :=
  ∃ n, node_at (lease_place self id) w = Some n ∧ (ino (status n), Shared) ∈ locks w.

Lemma spared_outside self id area name :
  area ∉ KEPT_AREAS → (area, name) ≠ (GENERATIONS, generation_name id) →
  (area, name) ≠ (LEASES, lease_filename id) →
  ∀ r, spared self id r → outside r (dir self area) name.
Proof.
  intros Ha Hg Hl r [->|[->|(area' & name' & Ha' & ->)]]; [by apply outside_entry..|].
  apply outside_entry. intros [= -> ->]. done.
Qed.
Lemma not_kept area : area ∈ [GENERATIONS; LEASES; LOCKS; DERIVATIONS] → area ∉ KEPT_AREAS.
Proof.
  intros H Hk. revert area H Hk. rewrite <- Forall_forall. apply (bool_decide_unpack _). vm_compute. exact I.
Qed.

Abbreviation keeps self id := (frame (spared self id) (λ _, True)).

Lemma leased_kept self id w w' : keeps self id w w' → leased self id w → leased self id w'.
Proof. intros (Hn & Hl & _) (n & Hp & Hh). exists n. rewrite Hn by (by right; left). split; [done|]. by apply Hl. Qed.

Context {hex_laws : HexLaws}.

Lemma lease_filename_inj id id' : lease_filename id = lease_filename id' → id = id'.
Proof. intros H%app_inv_tail. by eapply id_to_string_inj. Qed.

(** The collection of another generation. *)
Lemma steps_collect_other self id id' roots report :
  id' ≠ id → steps (keeps self id) (collect_candidate self roots report id').
Proof.
  intros Hne.
  assert (∀ area, area ∈ [GENERATIONS; LEASES; LOCKS; DERIVATIONS] → area ∉ KEPT_AREAS) as Hk by apply not_kept.
  assert (∀ s r, spared self id r → outside r (dir self LEASES) (FIXED_TEMP_PREFIX ++ s)) as Htemp.
  { intros s. apply spared_outside; [apply Hk; set_solver|done..]. }
  assert (∀ r, spared self id r → outside r (dir self LEASES) (lease_filename id')) as Hlease.
  { apply spared_outside; [apply Hk; set_solver|done|]. intros [_ ?%lease_filename_inj]%pair_equal_spec. done. }
  assert (∀ r, spared self id r → outside r (dir self GENERATIONS) (generation_name id')) as Hgen.
  { apply spared_outside; [apply Hk; set_solver| |done]. intros [_ ?%id_to_string_inj]%pair_equal_spec. done. }
  assert (∀ name r, spared self id r → outside r (dir self LOCKS) name)
    by (intros name; apply spared_outside; [apply Hk; set_solver|done..]).
  assert (∀ name r, spared self id r → outside r (dir self DERIVATIONS) name)
    by (intros name; apply spared_outside; [apply Hk; set_solver|done..]).
  unfold collect_candidate, collect_unleased.
  steps_by ltac:(first [solve [eauto with steps]
                       | apply steps_guarded; [by left|] | apply steps_holding; [by left|]]).
Qed.

(** *** A leased generation *)
Lemma ensure_record_existing p parent_path device name b k m w n :
  node_at (p ++ [name]) w = Some n → same w (ensure_record_at p parent_path device name b k m w).1.
Proof.
  intros Hn. unfold ensure_record_at. apply step_bind_at; [apply _|by apply steps_attempt, steps_open_regular_at, _|].
  intros w1 [e|f] Ho; [|apply steps_check_contents, _].
  apply attempt_err in Ho. pose proof (open_regular_at_err _ _ _ _ _ _ _ Hn Ho) as He.
  rewrite decide_True; [reflexivity|]. destruct e; cbn in *; try tauto.
Qed.

Lemma open_lease_existing self id w n :
  node_at (lease_place self id) w = Some n → same w (open_lease_lock self id w).1.
Proof.
  intros Hn. unfold open_lease_lock. apply step_bind_at; [apply _|done|]. intros w1 b [-> _]%io_pure_ok.
  apply step_bind_at; [apply _| |].
  - unfold ensure_fixed_record. apply step_bind_at; [apply _|by apply steps_path_for_layout_file, _|].
    intros w1 path Hp. apply observed in Hp; [|by apply steps_path_for_layout_file, _].
    apply step_bind_at; [apply _|done|]. intros w2 parent_path [-> _]%io_pure_ok.
    eapply ensure_record_existing. by rewrite (same_node _ _ _ Hp).
  - intros w1 [] _. cbv zeta. revert w1.
    match goal with |- ∀ w1, same w1 (?k w1).1 => change (steps same k) end. steps_auto.
Qed.

Lemma open_lease_lock_ok self id w w' f :
  open_lease_lock self id w = (w', Ok f) →
  ∃ n, node_at (lease_place self id) w' = Some n ∧ file_ino f = ino (status n).
Proof.
  unfold open_lease_lock. intros (b & w1 & _ & (u & w2 & _ & H)%io_bind_ok)%io_bind_ok.
  apply io_bind_ok in H as (g & w3 & (Hs & n & Hn & ->)%open_regular_at_ok & H).
  exists n. assert (same w2 w') as Hw.
  { etrans; [done|]. eapply observed; [|exact H]. steps_auto. }
  rewrite (same_node _ _ _ Hw). split; [done|].
  apply io_bind_ok in H as (? & ? & _ & (? & ? & _ & (? & ? & _ & (? & ? & _ & [_ <-]%io_ret_ok)%io_bind_ok)%io_bind_ok)%io_bind_ok).
  done.
Qed.

Lemma flock_refused f w w' :
  (file_ino f, Shared) ∈ locks w → attempt (flock f Exclusive false) w = (w', Ok (inr ())) → False.
Proof.
  intros Hl Hf. rewrite attempt_ok in Hf. unfold flock, syscall in Hf.
  assert (conflicts f Exclusive (tick w)) as Hc.
  { apply Exists_exists. exists (file_ino f, Shared). split; [done|]. simpl. tauto. }
  destruct (faults w) as [|[|n e|n] fs]; try done; by rewrite decide_True in Hf by done.
Qed.

Lemma collect_leased self id roots report w :
  leased self id w → keeps self id w (collect_candidate self roots report id w).1.
Proof.
  intros (n & Hn & Hl). unfold collect_candidate. destruct (decide _); [reflexivity|].
  pose proof (open_lease_existing self id w n Hn) as Hs.
  apply step_bind_at; [apply _|by apply observing_same|]. intros w1 f Hf.
  pose proof (open_lease_lock_ok _ _ _ _ _ Hf) as (n' & Hn' & Hi). rewrite Hf in Hs. simpl in Hs.
  rewrite (same_node _ _ _ Hs), Hn in Hn'. simplify_eq.
  apply step_bind_at; [apply _|by apply steps_attempt, steps_flock|].
  intros w2 [e|[]] Hlk; [case_decide; reflexivity|]. exfalso. revert Hlk. apply flock_refused.
  rewrite Hi. destruct Hs as (_ & -> & _). done.
Qed.

(** Every candidate, in turn. *)
Lemma collect_candidates_keep self id roots report candidates w :
  id ∈ roots ∨ leased self id w →
  keeps self id w (fold_io (collect_candidate self roots) report candidates w).1.
Proof.
  revert report w. induction candidates as [|id' l IH]; intros report w Hp; [reflexivity|]. cbn [fold_io].
  assert (keeps self id w (collect_candidate self roots report id' w).1) as Hk.
  { destruct (decide (id' = id)) as [->|Hne]; [|by apply steps_collect_other].
    destruct Hp as [Hr|Hl]; [|by apply collect_leased]. unfold collect_candidate. rewrite decide_True by done.
    reflexivity. }
  apply step_bind_at; [apply _|done|]. intros w1 r Hr. apply IH. rewrite Hr in Hk. simpl in Hk.
  destruct Hp as [?|Hl]; [by left|right]. by eapply leased_kept.
Qed.

(** An alias or a retained overlay of this store names the generation. *)
Definition aliased (self : Store) (id : Digest) (w : world) : Prop :=
  ∃ alias_id n r, is_digest alias_id ∧ node_at (alias_place self alias_id) w = Some n ∧
    AliasRecord.decode (content (status n)) (alias_path self alias_id) = Ok r ∧ AliasRecord.generation_id r = id.
Definition retained_by (self : Store) (id : Digest) (w : world) : Prop :=
  ∃ cow_id n r, is_digest cow_id ∧ node_at (retained_place self cow_id) w = Some n ∧
    RetainedCow.decode (content (status n)) (retained_path self cow_id) = Ok r ∧ RetainedCow.generation_id r = id.
Definition rooted_in (self : Store) (id : Digest) (w : world) : Prop := aliased self id w ∨ retained_by self id w.

Lemma alias_gc_root_ok self roots name w w' roots' :
  alias_gc_root self roots name w = (w', Ok roots') →
  same w w' ∧ roots ⊆ roots' ∧ ∀ id, is_digest id → name = alias_filename id →
    ∃ n r, node_at (alias_place self id) w = Some n ∧
      AliasRecord.decode (content (status n)) (alias_path self id) = Ok r ∧ AliasRecord.generation_id r ∈ roots'.
Proof.
  intros H. split; [by eapply observed; [apply steps_alias_gc_root, _|]|].
  unfold alias_gc_root in H. apply io_guard_ok in H as [_ H]. case_decide as Ht.
  { apply io_ret_ok in H as [-> <-]. split; [done|]. intros id _ ->. destruct Ht as [k Hk].
    by apply name_not_temporary in Hk. }
  destruct (parse_alias_filename name) as [id|] eqn:Hp; [|done]. apply parse_alias_filename_Some in Hp as [Hd ->].
  apply io_bind_ok in H as (r & w1 & Hr & H). rewrite map_io_err_ok in Hr.
  apply read_alias_ok in Hr as (Hs & _ & n & Hn & Hr).
  apply io_bind_ok in H as (g & w2 & _ & (u & w3 & _ & [_ <-]%io_ret_ok)%io_bind_ok). split; [set_solver|].
  intros id' _ H. apply app_inv_tail, id_to_string_inj in H as <-. exists n, r. split_and!; [done..|left].
Qed.

Lemma retained_gc_root_ok self roots name w w' roots' :
  retained_gc_root self roots name w = (w', Ok roots') →
  same w w' ∧ roots ⊆ roots' ∧ ∀ id, is_digest id → name = retained_filename id →
    ∃ n r, node_at (retained_place self id) w = Some n ∧
      RetainedCow.decode (content (status n)) (retained_path self id) = Ok r ∧ RetainedCow.generation_id r ∈ roots'.
Proof.
  intros H. split; [by eapply observed; [apply steps_retained_gc_root, _|]|].
  unfold retained_gc_root in H. apply io_guard_ok in H as [_ H]. case_decide as Ht.
  { apply io_ret_ok in H as [-> <-]. split; [done|]. intros id _ ->. destruct Ht as [k Hk].
    by apply name_not_temporary in Hk. }
  destruct (parse_retained_filename name) as [id|] eqn:Hp; [|done].
  apply parse_retained_filename_Some in Hp as [Hd ->].
  apply io_bind_ok in H as (r & w1 & Hr & H). rewrite map_io_err_ok in Hr.
  apply read_retained_ok in Hr as (Hs & _ & n & Hn & Hr).
  apply io_bind_ok in H as (g & w2 & _ & [_ <-]%io_ret_ok). split; [set_solver|].
  intros id' _ H. apply app_inv_tail, id_to_string_inj in H as <-. exists n, r. split_and!; [done..|left].
Qed.

Lemma collect_gc_roots_complete self id w w' roots :
  collect_gc_roots self w = (w', Ok roots) → rooted_in self id w → id ∈ roots.
Proof.
  unfold collect_gc_roots. intros (names & w1 & Hn1 & H)%io_bind_ok.
  apply io_bind_ok in H as (roots1 & w2 & H1 & H). apply io_bind_ok in H as (names2 & w3 & Hn2 & H2).
  pose proof (list_names_ok _ _ _ _ _ Hn1) as [Hs1 _]. pose proof (list_names_ok _ _ _ _ _ Hn2) as [Hs3 _].
  apply (fold_io_ok _ _ _ _ _ _ same (⊆)) in H1 as (Hs2 & _ & Ha);
    [|intros ? ? ? ? ? H; by apply alias_gc_root_ok in H as (? & ? & _)].
  apply (fold_io_ok _ _ _ _ _ _ same (⊆)) in H2 as (Hs4 & Hsub & Hr);
    [|intros ? ? ? ? ? H; by apply retained_gc_root_ok in H as (? & ? & _)].
  assert (∀ name, head name = Some x70 → name ≠ bs "." ∧ name ≠ bs "..") as Hdot by (by intros ? Hh; split; intros ->).
  intros [(aid & n & r & Hd & Hn & Hdec & <-)|(cid & n & r & Hd & Hn & Hdec & <-)].
  - assert (alias_filename aid ∈ names) as Hin
      by (apply (list_names_elem _ _ _ _ _ _ Hn1); split; [by exists n|by apply Hdot]).
    destruct (Ha _ Hin) as (s1 & w5 & w6 & s2 & Hs5 & Hg & Hsub2).
    apply alias_gc_root_ok in Hg as (_ & _ & Hg). destruct (Hg aid Hd eq_refl) as (n' & r' & Hn' & Hdec' & Hr').
    rewrite (same_node _ _ _ Hs5), (same_node _ _ _ Hs1), Hn in Hn'. simplify_eq. assert (r' = r) as -> by congruence. by apply Hsub, Hsub2.
  - assert (same w w3) as Hs by same_by.
    assert (retained_filename cid ∈ names2) as Hin.
    { apply (list_names_elem _ _ _ _ _ _ Hn2). split; [|by apply Hdot]. exists n.
      assert (same w w2) as Hw by same_by. by rewrite (same_node _ _ _ Hw). }
    destruct (Hr _ Hin) as (s1 & w5 & w6 & s2 & Hs5 & Hg & Hsub2).
    apply retained_gc_root_ok in Hg as (_ & _ & Hg). destruct (Hg cid Hd eq_refl) as (n' & r' & Hn' & Hdec' & Hr').
    rewrite (same_node _ _ _ Hs5), (same_node _ _ _ Hs), Hn in Hn'. simplify_eq. assert (r' = r) as -> by congruence. by apply Hsub2.
Qed.

(** *** Safety *)

(** Reachable from an alias, from a retained overlay or by a lease. *)
Definition protected (self : Store) (id : Digest) (w : world) : Prop := rooted_in self id w ∨ leased self id w.

Lemma rooted_kept self id w w' : keeps self id w w' → rooted_in self id w → rooted_in self id w'.
Proof.
  intros (Hn & _) [(a & n & r & Ha & Hp & Hr)|(a & n & r & Ha & Hp & Hr)]; [left|right]; exists a, n, r;
    (split; [done|]; split; [|done]); rewrite Hn; [done| |done|]; right; right; eexists _, _; (split; [|done]); set_solver.
Qed.
Lemma protected_kept self id w w' : keeps self id w w' → protected self id w → protected self id w'.
Proof. intros Hk [?|?]; [left; by eapply rooted_kept|right; by eapply leased_kept]. Qed.

Lemma steps_lock_roots_exclusive self places holders : steps (frame places holders) (lock_roots_exclusive self).
Proof. unfold lock_roots_exclusive. steps_auto. Qed.

Lemma garbage_collect_keeps self id w : protected self id w → keeps self id w (garbage_collect self w).1.
Proof.
  intros Hp. unfold garbage_collect. apply step_bind_at; [apply _|apply steps_validate_root_identity, _|].
  intros w1 [] H1. apply observed in H1; [|apply steps_validate_root_identity, _].
  apply (protected_kept _ _ _ w1) in Hp; [|by apply observing_same].
  unfold with_roots_exclusive. apply step_bind_at; [apply _|apply steps_lock_roots_exclusive|].
  intros w2 lock H2. pose proof (steps_lock_roots_exclusive self (spared self id) (λ _, True) w1) as Hk.
  rewrite H2 in Hk. apply (protected_kept _ _ _ _ Hk) in Hp. clear H1 H2 Hk.
  unfold guarded. match goal with |- context [let '(_, _) := ?m w2 in _] => set (body := m) end.
  assert (keeps self id w2 (body w2).1) as Hb; [|destruct (body w2); etrans; [exact Hb|by apply frame_funlock; left]].
  unfold body. apply step_bind_at; [apply _|apply steps_collect_gc_roots, _|]. intros w3 roots Hr.
  pose proof (observed _ (steps_collect_gc_roots same self) _ _ _ Hr) as Hs3.
  apply step_bind_at; [apply _|apply steps_list_names, _|]. intros w4 names Hn.
  pose proof (observed _ (steps_list_names same _ _) _ _ _ Hn) as Hs4.
  apply step_bind_at; [apply _|apply steps_fold_io; [apply _|intros; apply steps_classify_generation, _]|].
  intros w5 [candidates flight] Hc. apply observed in Hc; [|apply steps_fold_io; [apply _|intros; apply steps_classify_generation, _]].
  assert (same w2 w5) as Hs by same_by.
  apply step_bind_at; [apply _| |intros w6 report _].
  - apply collect_candidates_keep. destruct Hp as [Hp|Hp]; [left; by eapply collect_gc_roots_complete|right].
    eapply leased_kept; [|exact Hp]. by apply observing_same.
  - revert w6. match goal with |- ∀ w6, frame _ _ w6 (?k w6).1 => change (steps (keeps self id) k) end. steps_auto.
Qed.

(** C2: garbage collection is safe.  Whatever system calls fail and wherever the
    process is killed, the directory of a generation that an alias or a retained
    overlay names, or that somebody holds a lease on, is left exactly as it was; and it
    is reachable afterwards for the same reason, so any number of collections keep
    it. *)
Theorem garbage_collect_safe self id w :
  protected self id w →
  let w' := (garbage_collect self w).1 in
  node_at (generation_place self id) w' = node_at (generation_place self id) w ∧ protected self id w'.
Proof.
  intros Hp. pose proof (garbage_collect_keeps self id w Hp) as Hk. split; [|by eapply protected_kept].
  destruct Hk as (Hn & _). apply Hn. by left.
Qed.

(** *** The report *)
Context {sha_laws : Sha2Laws}.

(** The directory of the generation and the leases on it. *)
Abbreviation at_generation self id := (frame (λ r, r = generation_place self id) (λ _, True)).

Lemma generation_outside self id area name :
  area ≠ GENERATIONS → ∀ r, r = generation_place self id → outside r (dir self area) name.
Proof. intros Ha r ->. apply outside_entry. congruence. Qed.

Lemma steps_open_lease_generation self id id' : steps (at_generation self id) (open_lease_lock self id').
Proof. apply steps_open_lease_lock; intros; by eapply generation_outside. Qed.

Lemma steps_open_derivation_generation self id key : steps (at_generation self id) (open_derivation_lock self key).
Proof. apply steps_open_derivation_lock; intros; by eapply generation_outside. Qed.
Lemma steps_try_lock self id f : steps (at_generation self id) (attempt (flock f Exclusive false)).
Proof. apply steps_attempt, steps_flock. Qed.

(** A locked lease was not held by anybody. *)
Lemma locked_not_leased self id w w1 w2 f :
  open_lease_lock self id w = (w1, Ok f) → attempt (flock f Exclusive false) w1 = (w2, Ok (inr ())) →
  ¬ leased self id w.
Proof.
  intros Ho Hl (n & Hn & Hh). pose proof (open_lease_existing self id w n Hn) as Hs.
  pose proof (open_lease_lock_ok _ _ _ _ _ Ho) as (n' & Hn' & Hi). rewrite Ho in Hs. simpl in Hs.
  rewrite (same_node _ _ _ Hs), Hn in Hn'. simplify_eq. eapply flock_refused; [|exact Hl].
  rewrite Hi. by destruct Hs as (_ & -> & _).
Qed.

Lemma collect_unleased_ok self id w w' c :
  collect_unleased self id w = (w', Ok c) →
  match c with
  | Removed _ _ _ => node_at (generation_place self id) w' = None ∧
      ∃ n m, node_at (generation_place self id) w = Some n ∧
        valid_generation (root_device self) (geteuid w) IMMUTABLE_DIR_MODE id n m
  | _ => at_generation self id w w'
  end.
Proof.
  unfold collect_unleased. intros ([e|g] & w1 & Hv & H)%io_bind_ok.
  { apply io_ret_ok in H as [-> <-]. apply observing_same. eapply observed; [|exact Hv].
    apply steps_attempt, steps_verify_generation, _. }
  rewrite attempt_ok in Hv. apply verify_mode_ok in Hv as (Hs & n & Hn & Hval & _).
  apply io_bind_ok in H as (dl & w2 & Hdl & H). apply io_bind_ok in H as ([e|[]] & w3 & Hfl & H).
  - case_decide; [|done]. apply io_ret_ok in H as [-> <-].
    assert (at_generation self id w1 w2) as H1.
    { pose proof (steps_open_derivation_generation self id (GenerationManifest.derivation_key (manifest g)) w1) as H1.
      by rewrite Hdl in H1. }
    assert (at_generation self id w2 w3) as H2.
    { pose proof (steps_try_lock self id dl w2) as H2. by rewrite Hfl in H2. }
    etrans; [by apply observing_same|]. by etrans.
  - unfold holding in H. match type of H with context [let '(_, _) := ?m w3 in _] => set (body := m) in H end.
    destruct (body w3) as [w4 [c'|e|]] eqn:Hb; simplify_eq.
    apply io_bind_ok in Hb as (? & w5 & _ & Hb). apply io_bind_ok in Hb as (d & w6 & _ & Hb).
    apply io_bind_ok in Hb as ([] & w7 & Hr%remove_tree_ok & [-> <-]%io_ret_ok). split; [exact Hr|].
    by exists n, (manifest g).
Qed.

(** One candidate: removed and reported as collected, or left alone. *)
Lemma collect_candidate_ok self roots report id w w' report' :
  collect_candidate self roots report id w = (w', Ok report') →
  (collected report' = collected report ++ [id] ∧ (id ∉ roots) ∧ ¬ leased self id w ∧
   node_at (generation_place self id) w' = None ∧
   ∃ n m, node_at (generation_place self id) w = Some n ∧
     valid_generation (root_device self) (geteuid w) IMMUTABLE_DIR_MODE id n m) ∨
  (collected report' = collected report ∧ at_generation self id w w').
Proof.
  unfold collect_candidate. destruct (decide (id ∈ roots)) as [Hr|Hr].
  { intros [-> <-]%io_ret_ok. right. split; [done|reflexivity]. }
  intros (lock & w1 & Ho & H)%io_bind_ok.
  pose proof (steps_open_lease_generation self id id w) as H1. rewrite Ho in H1. simpl in H1.
  apply io_bind_ok in H as ([e|[]] & w2 & Hl & H).
  { pose proof (steps_try_lock self id lock w1) as H2.
    rewrite Hl in H2. case_decide; [|done]. apply io_ret_ok in H as [-> <-]. right. split; [done|by etrans]. }
  pose proof (locked_not_leased _ _ _ _ _ _ Ho Hl) as Hnl.
  pose proof (steps_try_lock self id lock w1) as H2.
  rewrite Hl in H2. simpl in H2. assert (at_generation self id w w2) as Hw by (by etrans). clear H1 H2.
  apply io_bind_ok in H as (c & w3 & Hc & H). unfold guarded in Hc.
  destruct (collect_unleased self id w2) as [w4 r] eqn:Hu. injection Hc as <- ->. apply collect_unleased_ok in Hu.
  assert (at_generation self id w4 (funlock lock Exclusive w4)) as Hf by (by apply frame_funlock; left).
  destruct c as [| |dl key discarded].
  - apply io_ret_ok in H as [-> <-]. right. split; [done|]. etrans; [exact Hw|]. by etrans.
  - apply io_ret_ok in H as [-> <-]. right. split; [done|]. etrans; [exact Hw|]. by etrans.
  - left. destruct Hu as [Hgone (n & m & Hn & Hval)]. destruct Hw as (Hn2 & _ & He2).
    rewrite Hn2 in Hn by done. rewrite He2 in Hval.
    unfold guarded in H. match type of H with context [let '(_, _) := ?m ?x in _] => set (body := m) in H; set (w5 := x) in H end.
    destruct (body w5) as [w6 r6] eqn:Hb. injection H as <- ->. change (node_at ?p (funlock dl Exclusive w6)) with (node_at p w6).
    assert (at_generation self id w5 w6) as H5.
    { assert (steps (at_generation self id) body) as H5; [|specialize (H5 w5); by rewrite Hb in H5].
      unfold body. steps_by ltac:(first [solve [eauto with steps] | apply steps_unlink_file_at; intros; by eapply generation_outside]). }
    assert (collected report' = collected report ++ [id]) as ->.
    { unfold body in Hb. apply io_bind_ok in Hb as (x & w7 & _ & Hb).
      destruct x as [e|?]; [case_decide; [|done]|]; apply io_ret_ok in Hb as [_ <-]; by destruct discarded. }
    split_and!; [done..| |by exists n, m]. destruct H5 as (H5 & _). rewrite H5 by done. exact Hgone.
Qed.

(** What became of the generation [id] between [w] and [w']. *)
Definition collected_from (self : Store) (roots : list Digest) (id : Digest) (w w' : world) : Prop :=
  (id ∉ roots) ∧ ¬ leased self id w ∧ node_at (generation_place self id) w' = None ∧
  ∃ n m, node_at (generation_place self id) w = Some n ∧
    valid_generation (root_device self) (geteuid w) IMMUTABLE_DIR_MODE id n m.

Lemma collected_from_later self roots id w w1 w' :
  keeps self id w w1 → collected_from self roots id w1 w' → collected_from self roots id w w'.
Proof.
  intros Hk (Hr & Hl & Hg & n & m & Hn & Hv). split_and!; [done| |done|].
  - intros H. apply Hl. by eapply leased_kept.
  - destruct Hk as (Hp & _ & He). rewrite Hp in Hn by (by left). rewrite He in Hv. by exists n, m.
Qed.
Lemma collected_from_then self roots id w w1 w' :
  keeps self id w1 w' → collected_from self roots id w w1 → collected_from self roots id w w'.
Proof.
  intros (Hp & _) (Hr & Hl & Hg & Hv). split_and!; [done..| |done]. by rewrite Hp by (by left).
Qed.

Lemma collected_range self roots report l w w' report' :
  fold_io (collect_candidate self roots) report l w = (w', Ok report') →
  (∀ b, b ∈ collected report → b ∈ collected report') ∧
  (∀ b, b ∈ collected report' → b ∈ collected report ∨ b ∈ l).
Proof.
  revert report w. induction l as [|a l IH]; intros r w; cbn [fold_io]; [intros [-> <-]%io_ret_ok; auto|].
  intros (r2 & w2 & Hc & [Hsub Hsup]%IH)%io_bind_ok.
  apply collect_candidate_ok in Hc as [(Hc & _)|[Hc _]]; rewrite Hc in *; set_solver.
Qed.

Lemma collect_candidates_ok self roots id report l w w' report' :
  NoDup l → fold_io (collect_candidate self roots) report l w = (w', Ok report') →
  (id ∈ collected report' ∧ collected_from self roots id w w') ∨
  ((id ∈ collected report' ↔ id ∈ collected report) ∧
   node_at (generation_place self id) w' = node_at (generation_place self id) w).
Proof.
  intros Hd. revert report w. induction Hd as [|a l Ha Hd IH]; intros report w; cbn [fold_io].
  { intros [-> <-]%io_ret_ok. by right. }
  intros (r1 & w1 & H1 & H2)%io_bind_ok. destruct (decide (a = id)) as [->|Hne].
  - assert (keeps self id w1 w') as Hk.
    { assert (steps (keeps self id) (fold_io (collect_candidate self roots) r1 l)) as Hst.
      { apply steps_fold_io; [apply _|]. intros r b Hb. apply steps_collect_other. by intros ->. }
      specialize (Hst w1). by rewrite H2 in Hst. }
    destruct (collected_range _ _ _ _ _ _ _ H2) as [Hsub Hsup].
    apply collect_candidate_ok in H1 as [(Hc & Hfrom)|[Hc (Hn & _)]].
    + left. split; [apply Hsub; rewrite Hc; set_solver|]. eapply collected_from_then; [exact Hk|]. done.
    + right. rewrite <- Hc. split; [split; [intros Hin; by destruct (Hsup _ Hin)|apply Hsub]|].
      destruct Hk as (Hk & _). rewrite Hk by (by left). by apply Hn.
  - assert (keeps self id w w1) as Hk.
    { pose proof (steps_collect_other self id a roots report Hne w) as Hk. by rewrite H1 in Hk. }
    assert (id ∈ collected r1 ↔ id ∈ collected report) as Hiff.
    { apply collect_candidate_ok in H1 as [(-> & _)|[-> _]]; [|done]. set_solver. }
    destruct (IH _ _ H2) as [[Hin Hfrom]|[Hin Hn]]; [left|right].
    + split; [done|]. by eapply collected_from_later.
    + rewrite Hin, Hiff. split; [done|]. rewrite Hn. destruct Hk as (Hk & _). apply Hk. by left.
Qed.

Lemma classify_ok self found l w w' found' :
  fold_io (classify_generation self) found l w = (w', Ok found') →
  found'.1 = found.1 ++ omap (parse_filename GENERATION_PREFIX) l.
Proof.
  revert found w. induction l as [|name l IH]; intros [c f] w; cbn [fold_io omap list_omap].
  { intros [_ <-]%io_ret_ok. by rewrite app_nil_r. }
  intros (x & w1 & H & ->%IH)%io_bind_ok. unfold classify_generation in H. apply io_guard_ok in H as [_ H].
  destruct (parse_filename GENERATION_PREFIX name) as [id|].
  - apply io_ret_ok in H as [_ <-]. simpl. by rewrite <- app_assoc.
  - destruct (parse_generation_temp_name name); [|done]. by apply io_ret_ok in H as [_ <-].
Qed.

Lemma candidates_NoDup l : NoDup l → NoDup (omap (parse_filename GENERATION_PREFIX) l).
Proof.
  induction 1 as [|name l Hn Hd IH]; cbn [omap list_omap]; [constructor|].
  destruct (parse_filename GENERATION_PREFIX name) as [id|] eqn:Hp; [|done]. constructor; [|done].
  intros (name' & Hin & Hp')%list_elem_of_omap. apply parse_filename_Some in Hp as [-> _], Hp' as [-> _]. done.
Qed.

(** C8: the report of a collection is true.  When [garbage_collect] returns a
    report, a generation is listed as collected exactly when its directory was removed;
    it was then a valid, immutable generation that neither an alias nor a retained
    overlay named and that nobody held a lease on.  Every other generation, damaged
    ones included, is left exactly as it was. *)
Theorem garbage_collect_report self w w' report :
  garbage_collect self w = (w', Ok report) →
  ∀ id,
    (id ∈ collected report →
       node_at (generation_place self id) w' = None ∧ ¬ protected self id w ∧
       ∃ n m, node_at (generation_place self id) w = Some n ∧
         valid_generation (root_device self) (geteuid w) IMMUTABLE_DIR_MODE id n m) ∧
    (id ∉ collected report → node_at (generation_place self id) w' = node_at (generation_place self id) w).
Proof.
  unfold garbage_collect. intros ([] & w1 & H1 & H)%io_bind_ok id.
  apply observed in H1; [|apply steps_validate_root_identity, _].
  apply io_bind_ok in H as (lock & w2 & Hl & H).
  pose proof (steps_lock_roots_exclusive self (spared self id) (λ _, True) w1) as Hk. rewrite Hl in Hk. clear Hl.
  assert (keeps self id w w2) as Hw2 by (etrans; [by apply observing_same|done]). clear H1 Hk.
  unfold guarded in H. match type of H with context [let '(_, _) := ?m w2 in _] => set (body := m) in H end.
  destruct (body w2) as [w3 r3] eqn:Hb. injection H as <- ->.
  change (node_at ?p (funlock lock Exclusive w3)) with (node_at p w3).
  apply io_bind_ok in Hb as (roots & w4 & Hr & Hb). apply io_bind_ok in Hb as (names & w5 & Hn & Hb).
  apply io_bind_ok in Hb as ([candidates flight] & w6 & Hc & Hb). apply io_bind_ok in Hb as (rep & w7 & Hcc & Hb).
  apply io_bind_ok in Hb as ([] & w8 & Hs8 & [-> <-]%io_ret_ok).
  apply (observed _ (steps_io_call _ _ _ _ (steps_fsync same))) in Hs8. rewrite (same_node _ _ _ Hs8).
  pose proof (observed _ (steps_collect_gc_roots same self) _ _ _ Hr) as Hs4.
  pose proof (list_names_ok _ _ _ _ _ Hn) as [Hs5 (d & _ & _ & Hnames)].
  pose proof (classify_ok _ _ _ _ _ _ Hc) as Hcand. simpl in Hcand.
  apply observed in Hc; [|apply steps_fold_io; [apply _|intros; apply steps_classify_generation, _]].
  assert (same w2 w6) as Hs by same_by.
  assert (keeps self id w w6) as Hw6 by (etrans; [exact Hw2|by apply observing_same]).
  apply (collect_candidates_ok _ _ id) in Hcc as [[Hin Hfrom]|[Hin Hkeep]].
  - split; [intros _|done]. apply (collected_from_later _ _ _ w) in Hfrom as (Hroots & Hnl & Hg & Hval); [|done].
    split_and!; [done| |done]. intros [Hroot|?]; [|done]. apply Hroots.
    eapply collect_gc_roots_complete; [exact Hr|]. by eapply rooted_kept.
  - split; [intros []%Hin%elem_of_nil|intros _]. rewrite Hkeep. destruct Hw6 as (Hw6 & _). apply Hw6. by left.
  - rewrite Hcand. unfold sort. rewrite sort_by_perm. apply candidates_NoDup. rewrite Hnames. unfold sort.
    rewrite sort_by_perm. apply NoDup_filter. unfold entry_names. apply NoDup_elements.
Qed.
End collection.
