(* ===== verification/StorePublish.v ===== *)
(** * Publication is atomic

    A final name in [generations] appears in one step, with a complete and valid
    generation behind it, wherever the publication fails or is killed. *)

From S2P Require Import Prelude RustStr Utf8 ByteOrder ManagedPath ProtocolError Sha256 StoreCodec HexText StoreIdentity StoreRecords StoreFs FsFacts Store StoreFrame StoreVerify StoreGc.

#[local] Arguments bs : simpl never.
#[local] Arguments len : simpl never.
#[local] Arguments sort : simpl never.

(** Every place of another directory of the store. *)
Lemma outside_area self area name area' q : area ≠ area' → outside (dir self area' ++ q) (dir self area) name.
Proof.
  unfold dir. intros Hne. rewrite <- !app_assoc. simpl. split; intros [k Hk];
    rewrite <- !app_assoc in Hk; apply app_inv_head in Hk; simpl in Hk; congruence.
Qed.

(** Another entry of the same directory. *)
Lemma outside_sibling p name name' : name ≠ name' → outside (p ++ [name']) p name.
Proof.
  intros Hne. split.
  - intros Hp%prefix_length. rewrite length_app in Hp. simpl in Hp. lia.
  - intros [k Hk]. rewrite <- app_assoc in Hk. apply app_inv_head in Hk. simpl in Hk. congruence.
Qed.

Lemma owned_file_frame places holders w w' p device m b :
  frame places holders w w' → places p → owned_file p device m b w' ↔ owned_file p device m b w.
Proof. intros (Hn & _ & He) Hp. unfold owned_file. by rewrite (Hn p Hp), He. Qed.

Lemma stepped {A} R (m : world → world * A) w w' a : steps R m → m w = (w', a) → R w w'.
Proof. intros Hs Hm. specialize (Hs w). by rewrite Hm in Hs. Qed.

Section publish.
Context {sha : Sha2} {hex : Hex} {text : StdText} {sha_laws : Sha2Laws} {hex_laws : HexLaws}.
Implicit Types (store : Store) (self : GenerationTransaction).

(** ** Sealing the staged files *)
Section seal.
Context (store : Store) (self : GenerationTransaction).

(** The file [name] of the staging directory is immutable, with this size and digest. *)
Definition staged_file (w : world) (name : bytes) (size : N) (digest : Digest) : Prop :=
  ∃ b, owned_file (stage self ++ [name]) (root_device store) IMMUTABLE_FILE_MODE b w ∧ len b = size ∧
       sha256_digest b = digest.

Lemma staged_file_frame places holders w w' name size digest :
  frame places holders w w' → places (stage self ++ [name]) → staged_file w name size digest →
  staged_file w' name size digest.
Proof. intros Hf Hp (b & Hb & H). exists b. by rewrite (owned_file_frame _ _ _ _ _ _ _ _ Hf Hp). Qed.

Lemma steps_bind_open {B} R `{!Observing R} p name path (k : File → io B) :
  (∀ i, steps R (k (file (p ++ [name]) i))) → steps R (open_regular_at p name path ≫= k).
Proof.
  intros Hk. apply steps_bind_ok; [apply _|apply steps_open_regular_at, _|].
  intros w w' f (_ & n & _ & ->)%open_regular_at_ok. apply Hk.
Qed.

Section frame.
Context (places : location → Prop) (holders : N → Prop).
Abbreviation kept p name := (∀ r, places r → outside r p name).

Lemma steps_seal_base digest : kept (stage self) BASE_IMAGE → steps (frame places holders) (seal_base store self digest).
Proof.
  intros Hk. unfold seal_base. cbv zeta. apply steps_bind_open; [apply _|]. intros i. cbn [at_].
  steps_by ltac:(first [solve [eauto with steps]|by apply steps_set_mode]).
Qed.
Lemma steps_seal_sidecar s :
  kept (stage self) (ImmutableSidecar.name s) → steps (frame places holders) (seal_sidecar store self s).
Proof.
  intros Hk. unfold seal_sidecar. cbv zeta. apply steps_bind_open; [apply _|]. intros i. cbn [at_].
  steps_by ltac:(first [solve [eauto with steps]|by apply steps_set_mode]).
Qed.
End frame.

(** A file that was validated, hashed and made immutable. *)
Lemma sealed_file name path device m w w1 w2 w3 i d size o1 o2 u1 u2 w4 w5 w6 j :
  open_regular_at (stage self) name path w = (w1, Ok (file (stage self ++ [name]) j)) →
  validate_regular (file (stage self ++ [name]) j) path device m w1 = (w2, Ok i) →
  io_call o1 path fsync w2 = (w3, Ok u1) →
  hash_file (file (stage self ++ [name]) j) path w3 = (w4, Ok (d, size)) →
  set_mode (stage self ++ [name]) IMMUTABLE_FILE_MODE path w4 = (w5, Ok u1) →
  io_call o2 path fsync w5 = (w6, Ok u2) →
  (size < u64_bound)%N ∧
  ∃ b, owned_file (stage self ++ [name]) device IMMUTABLE_FILE_MODE b w6 ∧ len b = size ∧ sha256_digest b = d.
Proof.
  intros (Hs1 & n & Hn & _)%open_regular_at_ok (Hs2 & Ho & _)%validate_regular_ok Hs3%fsync_ok [Hs4 Hh]%hash_file_ok
    [Hu Hm]%set_mode_ok Hs6%fsync_ok. simpl in *.
  assert (same w1 w3) as Hw3 by same_by. assert (same w1 w4) as Hw4 by same_by.
  destruct Ho as (n' & Hn' & Hk & Hl & Hd & Hu' & Hm'). rewrite (same_node _ _ _ Hw3) in Hh.
  destruct (Hh n' Hn') as (-> & -> & Hlt). split; [done|]. exists (content i).
  assert (content (status n') = content i) as -> by (unfold content; by rewrite Hk).
  split; [|done]. rewrite (same_node _ _ _ Hw4), Hn' in Hm. simpl in Hm.
  eexists. rewrite (same_node _ _ _ Hs6), Hm. split; [done|]. simpl.
  rewrite (same_euid _ _ Hs6), Hu, (same_euid _ _ Hw4). by split_and!.
Qed.

Lemma seal_base_ok digest w w' d size :
  seal_base store self digest w = (w', Ok (d, size)) →
  d = digest ∧ (size < u64_bound)%N ∧ staged_file w' BASE_IMAGE size d.
Proof.
  unfold seal_base. cbv zeta. intros (f & w1 & H1 & H)%io_bind_ok.
  pose proof (open_regular_at_ok _ _ _ _ _ _ H1) as (_ & n & _ & ->).
  apply io_bind_ok in H as (i & w2 & H2 & H). apply io_bind_ok in H as ([] & w3 & H3 & H).
  apply io_bind_ok in H as ([d' size'] & w4 & H4 & [Hd%dec_stable H]%io_guard_ok).
  apply io_bind_ok in H as ([] & w5 & H5 & H). apply io_bind_ok in H as ([] & w6 & H6 & [-> [= <- <-]]%io_ret_ok).
  split; [done|]. by eapply sealed_file.
Qed.

Lemma seal_sidecar_ok s w w' u :
  seal_sidecar store self s w = (w', Ok u) →
  staged_file w' (ImmutableSidecar.name s) (ImmutableSidecar.size s) (ImmutableSidecar.digest s).
Proof.
  unfold seal_sidecar. cbv zeta. intros (f & w1 & H1 & H)%io_bind_ok.
  pose proof (open_regular_at_ok _ _ _ _ _ _ H1) as (_ & n & _ & ->).
  apply io_bind_ok in H as (i & w2 & H2 & H). apply io_bind_ok in H as ([] & w3 & H3 & H).
  apply io_bind_ok in H as ([d' size'] & w4 & H4 & [Hs%dec_stable [Hd%dec_stable H]%io_guard_ok]%io_guard_ok).
  apply io_bind_ok in H as ([] & w5 & H5 & H6). subst. by eapply sealed_file.
Qed.

Lemma seal_sidecars_ok l w w' u :
  NoDup (sidecar_names l) → for_each (seal_sidecar store self) l w = (w', Ok u) →
  Forall (λ s, staged_file w' (ImmutableSidecar.name s) (ImmutableSidecar.size s) (ImmutableSidecar.digest s)) l.
Proof.
  revert w. induction l as [|s l IH]; intros w Hd; cbn [for_each]; [constructor|].
  intros ([] & w1 & H1 & H2)%io_bind_ok. apply NoDup_cons in Hd as [Hn Hd]. constructor; [|by eapply IH].
  apply seal_sidecar_ok in H1.
  eapply (staged_file_frame (λ r, r = stage self ++ [ImmutableSidecar.name s]) (λ _, True)); [|done|exact H1].
  eapply stepped; [|exact H2]. apply steps_for_each; [apply _|]. intros s' Hs'. apply steps_seal_sidecar.
  intros r ->. apply outside_sibling. intros He. apply Hn. rewrite <- He. by apply list_elem_of_fmap_2.
Qed.
End seal.

(** ** The staging directory *)

(** What [try_begin_generation] returns, and the writes of the caller to the base image
    and the sidecars keep. *)
Record transaction_ok (store : Store) (self : GenerationTransaction) (w : world) : Prop := {
  transaction_spec : spec_ok (spec self) ∧ GenerationSpec.derivation_key (spec self) = Ok (derivation_key self);
  transaction_stage : stage self = dir store STAGING ++ [stage_name self];
  transaction_fresh : generation_temp_name self = None ∧ clean_on_drop self = true;
  transaction_mark : ∃ b,
    owned_file (stage self ++ [STAGING_METADATA]) (root_device store) IMMUTABLE_FILE_MODE b w ∧
    StagingRecord.encode (StagingRecord.staging_record (derivation_key self)) = Ok b;
}.

(** Everything but the manifest file is in place for the generation [m]. *)
Record staged (store : Store) (self : GenerationTransaction) (m : GenerationManifest.t) (w : world) : Prop := {
  staged_manifest : manifest_ok m;
  staged_mark : ∃ b,
    owned_file (stage self ++ [STAGING_METADATA]) (root_device store) IMMUTABLE_FILE_MODE b w ∧
    StagingRecord.encode (StagingRecord.staging_record (GenerationManifest.derivation_key m)) = Ok b;
  staged_base : staged_file store self w BASE_IMAGE (GenerationManifest.base_size m) (GenerationManifest.base_digest m);
  staged_sidecars : Forall (λ s, staged_file store self w (ImmutableSidecar.name s) (ImmutableSidecar.size s)
                                   (ImmutableSidecar.digest s)) (GenerationManifest.sidecars m);
}.

(** The files of a staging directory that a generation keeps. *)
Definition generation_file (m : GenerationManifest.t) (name : bytes) : Prop :=
  name = BASE_IMAGE ∨ name = STAGING_METADATA ∨ name ∈ sidecar_names (GenerationManifest.sidecars m).

Lemma staged_frame places holders store self m w w' :
  frame places holders w w' → (∀ name, generation_file m name → places (stage self ++ [name])) →
  staged store self m w → staged store self m w'.
Proof.
  intros Hf Hp [Hm (b & Hb & He) Hbase Hside]. split; [done|..].
  - exists b. split; [|done]. apply (owned_file_frame _ _ _ _ _ _ _ _ Hf); [|done]. apply Hp. right. by left.
  - eapply staged_file_frame; [done| |done]. apply Hp. by left.
  - rewrite Forall_forall in *. intros s Hs. eapply staged_file_frame; [done| |by apply Hside].
    apply Hp. right. right. by apply list_elem_of_fmap_2.
Qed.

Lemma sidecar_not_reserved s name : sidecar_ok s → name ∈ RESERVED_NAMES → ImmutableSidecar.name s ≠ name.
Proof. by intros ((_ & _ & Hr & _) & _) Hn <-. Qed.

(** A publication leaves the names of committed generations alone until it commits. *)
Definition finals (store : Store) (r : location) : Prop := ∃ id, r = generation_place store id.

Lemma stage_outside store self area q name :
  stage self = dir store STAGING ++ [stage_name self] → area ≠ STAGING →
  outside (dir store area ++ q) (stage self) name.
Proof. intros -> Ha. by apply outside_below, outside_area. Qed.

Lemma steps_seal_staged places holders store self digest sidecars :
  (∀ name, name = BASE_IMAGE ∨ name ∈ sidecar_names sidecars → ∀ r, places r → outside r (stage self) name) →
  steps (frame places holders) (seal_staged store self digest sidecars).
Proof.
  intros Hk. unfold seal_staged. cbv zeta.
  steps_by ltac:(first [solve [eauto with steps] | apply steps_seal_base; apply Hk; by left
                       | apply steps_seal_sidecar; apply Hk; right; by apply list_elem_of_fmap_2]).
Qed.

Lemma seal_staged_ok store self digest sidecars w w' m :
  transaction_ok store self w → Forall sidecar_ok sidecars →
  seal_staged store self digest sidecars w = (w', Ok m) →
  staged store self m w' ∧ GenerationManifest.spec m = spec self ∧ GenerationManifest.base_digest m = digest ∧
  GenerationManifest.sidecars m = sidecars ∧ GenerationManifest.derivation_key m = derivation_key self.
Proof.
  intros [[Hspec Hkey] Hstage _ Hmark] Hsc H. pose proof H as Hsteps. unfold seal_staged in H.
  apply io_bind_ok in H as ([] & w1 & _ & H).
  apply io_bind_ok in H as ([] & w2 & [-> [Hcount Hsorted]%validate_canonical_sidecars_Ok]%io_pure_ok & H).
  apply io_bind_ok in H as (names & w2 & _ & [_ H]%io_guard_ok).
  apply io_bind_ok in H as ([d size] & w3 & (-> & Hsize & Hbase)%seal_base_ok & H).
  apply io_bind_ok in H as ([] & w4 & Hside & H). apply io_bind_ok in H as (id & w5 & [-> Hid]%io_pure_ok & [-> <-]%io_ret_ok).
  split; [|done].
  assert (is_digest (derivation_key self)) as Hdk.
  { rewrite derivation_key_preimage in Hkey by done. apply ok_inj in Hkey as <-. apply sha256_length. }
  assert (is_digest digest) as Hdd by (destruct Hbase as (b & _ & _ & <-); apply sha256_length).
  assert (outputs_ok (generation_outputs (derivation_key self) digest size sidecars)) as Hout by (by split_and!).
  split; simpl.
  - split_and!; [done..| |done|done]. simpl. rewrite (derive_preimage (generation_outputs (derivation_key self) digest size sidecars)) in Hid by done.
    apply ok_inj in Hid as <-. apply sha256_length.
  - destruct Hmark as (b & Hb & He). exists b. split; [|done].
    eapply (owned_file_frame (λ r, r = stage self ++ [STAGING_METADATA]) (λ _, True)); [|done|exact Hb].
    eapply stepped; [|exact Hsteps]. apply steps_seal_staged. intros name Hname r ->. apply outside_sibling.
    destruct Hname as [->|(s & -> & Hs)%list_elem_of_fmap]; [done|].
    rewrite Forall_forall in Hsc. apply sidecar_not_reserved; [by apply Hsc|]. unfold RESERVED_NAMES, STAGING_METADATA. set_solver.
  - eapply (staged_file_frame store self (λ r, r = stage self ++ [BASE_IMAGE]) (λ _, True)); [|done|exact Hbase].
    eapply stepped; [|exact Hside]. apply steps_for_each; [apply _|]. intros s Hs. apply steps_seal_sidecar.
    intros r ->. apply outside_sibling. rewrite Forall_forall in Hsc. apply sidecar_not_reserved; [by apply Hsc|].
    unfold RESERVED_NAMES, BASE_IMAGE. set_solver.
  - eapply seal_sidecars_ok; [|exact Hside]. by apply strictly_sorted_NoDup.
Qed.

(** ** The complete directory *)
Lemma generation_file_not_manifest m name : manifest_ok m → generation_file m name → GENERATION_METADATA ≠ name.
Proof.
  intros (_ & (_ & _ & _ & Hsc & _) & _) [->|[->|(s & -> & Hs)%list_elem_of_fmap]]; [done..|].
  simpl in Hsc. rewrite Forall_forall in Hsc. intros He. eapply sidecar_not_reserved; [by apply Hsc| |by symmetry].
  unfold RESERVED_NAMES, GENERATION_METADATA. set_solver.
Qed.

(** With the status of a sealed directory of the store, the directory [d] is a valid
    generation. *)
Definition complete (store : Store) (m : GenerationManifest.t) (me : N) (d : node) : Prop :=
  dev (status d) = root_device store →
  ∀ i, is_dir i → dev i = root_device store → uid i = me → mode i = IMMUTABLE_DIR_MODE →
       valid_generation (root_device store) me IMMUTABLE_DIR_MODE (GenerationManifest.id m) (set_status i d) m.

Lemma staged_file_holds store self w d name size digest :
  node_at (stage self) w = Some d → staged_file store self w name size digest →
  holds (root_device store) (geteuid w) d name size digest.
Proof. intros Hd (b & Hb & H). exists b. split; [|done]. by rewrite (owned_entry _ _ d) in Hb. Qed.

Lemma complete_stage_ok store self m w w' u :
  staged store self m w → complete_stage store self m w = (w', Ok u) →
  ∃ d, node_at (stage self) w' = Some d ∧ complete store m (geteuid w') d.
Proof.
  intros Hst H. unfold complete_stage in H. apply io_bind_ok in H as (b & w1 & [-> He]%io_pure_ok & H).
  apply io_bind_ok in H as (f & w2 & Hw & H).
  apply (staged_frame (λ r, ∃ name, generation_file m name ∧ r = stage self ++ [name]) (λ _, True) _ _ _ _ w2) in Hst.
  2:{ eapply stepped; [|exact Hw]. apply steps_write_new_synced. intros r (name & Hname & ->). apply outside_sibling.
      by eapply generation_file_not_manifest; [apply Hst|]. }
  2:{ intros name Hname. by exists name. }
  apply write_new_synced_ok in Hw as (Hlen & d0 & Hd0 & _ & Hman & Hstat).
  apply io_bind_ok in H as (names & w3 & (Hs3 & d & Hd & Hdir & ->)%list_names_ok & [Hnames%dec_stable Hs4%fsync_ok]%io_guard_ok).
  assert (same w2 w') as Hs by same_by. exists d. split; [by rewrite (same_node _ _ _ Hs)|].
  rewrite (same_euid _ _ Hs). unfold status_at in Hstat. rewrite Hd in Hstat. injection Hstat as Hstat.
  destruct Hst as [Hm (mb & Hmb & Hme) Hbase Hside]. intros Hdev i Hi1 Hi2 Hi3 Hi4.
  rewrite Hstat in Hdev. rewrite Hdev, (owned_entry _ _ d) in Hman by done. split; simpl.
  - by split_and!.
  - apply sort_perm_iff in Hnames. etrans; [|etrans; [exact Hnames|]].
    + unfold names_of, sort. by rewrite sort_by_perm.
    + unfold sort. rewrite sort_by_perm. solve_Permutation.
  - split_and!; [done..|]. by exists b.
  - exists mb. split; [|done]. by rewrite (owned_entry _ _ d) in Hmb.
  - by apply (staged_file_holds store self w2 d).
  - eapply Forall_impl; [exact Hside|]. intros sc Hsc. by apply (staged_file_holds store self w2 d).
Qed.

(** ** The commit *)

(** Committed generations, and the file that the leases of [id] lock. *)
Definition settled (store : Store) (id : Digest) (r : location) : Prop := finals store r ∨ r = lease_place store id.
Abbreviation settles store id := (frame (settled store id) (λ _, True)).

Lemma settled_outside store id area name :
  area ≠ LEASES → (∀ id, (area, name) ≠ (GENERATIONS, generation_name id)) →
  ∀ r, settled store id r → outside r (dir store area) name.
Proof. intros Hl Hg r [[id' ->]| ->]; apply outside_entry; [done|congruence]. Qed.

Lemma temp_not_final s id : (GENERATIONS, GENERATION_TEMP_PREFIX ++ s) ≠ (GENERATIONS, generation_name id).
Proof. done. Qed.

Lemma settled_stage_outside store self id name :
  stage self = dir store STAGING ++ [stage_name self] → ∀ r, settled store id r → outside r (stage self) name.
Proof.
  intros Hs r [[id' ->]| ->]; [by apply (stage_outside store self GENERATIONS)|by apply (stage_outside store self LEASES)].
Qed.

Lemma steps_complete_stage store self id m :
  stage self = dir store STAGING ++ [stage_name self] → steps (settles store id) (complete_stage store self m).
Proof.
  intros Hs. unfold complete_stage. cbv zeta.
  steps_by ltac:(first [solve [eauto with steps] | apply steps_write_new_synced; by apply settled_stage_outside]).
Qed.

Lemma steps_to_temp store id stage_name path s :
  steps (settles store id)
    (rename_noreplace_at (dir store STAGING) stage_name (dir store GENERATIONS) (GENERATION_TEMP_PREFIX ++ s) path).
Proof. apply steps_rename_noreplace; by apply settled_outside. Qed.

Lemma steps_seal_directory store id s path :
  steps (settles store id) (seal_directory store (dir store GENERATIONS ++ [GENERATION_TEMP_PREFIX ++ s]) path).
Proof.
  unfold seal_directory.
  steps_by ltac:(first [solve [eauto with steps] | apply steps_set_mode; by apply settled_outside]).
Qed.

Lemma steps_update_index_settled store id key id' : steps (settles store id) (update_derivation_index store key id').
Proof. apply steps_update_derivation_index. intros name. by apply settled_outside. Qed.

Lemma steps_finish_publication store id key id' lock :
  steps (settles store id) (finish_publication store key id' lock).
Proof.
  unfold finish_publication. steps_by ltac:(first [solve [eauto with steps] | apply steps_update_index_settled]).
Qed.

(** A transaction that is dropped removes its own directory only. *)
Definition droppable (self : GenerationTransaction) : Prop :=
  ∀ name, generation_temp_name self = Some name → ∃ s, name = GENERATION_TEMP_PREFIX ++ s.

Lemma steps_drop_transaction store self id : droppable self → steps (settles store id) (drop_transaction store self).
Proof.
  intros Hd. unfold drop_transaction. destruct (clean_on_drop self); [|steps_auto].
  destruct (generation_temp_name self) as [name|] eqn:Hn.
  - destruct (Hd _ Hn) as [s ->]. apply steps_ignore; [apply _|]. apply steps_remove_tree_at. by apply settled_outside.
  - apply steps_ignore; [apply _|]. apply steps_remove_tree_at. by apply settled_outside.
Qed.

(** One committed generation more. *)
Definition commits (store : Store) (m : GenerationManifest.t) (w w' : world) : Prop :=
  node_at (generation_place store (GenerationManifest.id m)) w = None ∧
  (∃ n, node_at (generation_place store (GenerationManifest.id m)) w' = Some n ∧
     valid_generation (root_device store) (geteuid w) IMMUTABLE_DIR_MODE (GenerationManifest.id m) n m) ∧
  frame (λ r, settled store (GenerationManifest.id m) r ∧ r ≠ generation_place store (GenerationManifest.id m))
    (λ _, True) w w'.

Lemma commits_then store m w w1 w' :
  settles store (GenerationManifest.id m) w1 w' → commits store m w w1 → commits store m w w'.
Proof.
  intros (Hn & Hl & He) (Hnone & (n & Hsome & Hv) & Hf). split_and!; [done| |].
  - exists n. split; [|done]. rewrite Hn; [done|]. left. by eexists.
  - etrans; [exact Hf|]. split_and!; [|done..]. intros r [Hr _]. by apply Hn.
Qed.
Lemma commits_after store m w w1 w' :
  settles store (GenerationManifest.id m) w w1 → commits store m w1 w' → commits store m w w'.
Proof.
  intros (Hn & Hl & He) (Hnone & (n & Hsome & Hv) & Hf). split_and!.
  - rewrite <- (Hn (generation_place store (GenerationManifest.id m))); [done|]. left. by eexists.
  - exists n. by rewrite <- He.
  - etrans; [|exact Hf]. split_and!; [|done..]. intros r [Hr _]. by apply Hn.
Qed.

Lemma seal_directory_ok store temp path w w' u d :
  node_at temp w = Some d → seal_directory store temp path w = (w', Ok u) →
  geteuid w' = geteuid w ∧ is_dir (status d) ∧ dev (status d) = root_device store ∧ uid (status d) = geteuid w ∧
  node_at temp w' = Some (set_status (with_mode IMMUTABLE_DIR_MODE (status d)) d).
Proof.
  intros Hd H. unfold seal_directory in H.
  apply io_bind_ok in H as (? & w1 & Hs1%fsync_ok & H). apply io_bind_ok in H as (? & w2 & Hs2%fsync_ok & H).
  apply io_bind_ok in H as (? & w3 & [Hu Hm]%set_mode_ok & H). apply io_bind_ok in H as (? & w4 & Hs4%fsync_ok & H).
  apply io_bind_ok in H as (i & w5 & (Hs5 & n & Hn & <- & Hk & Hdev & Huid & _)%validate_directory_ok & [-> _]%io_ret_ok).
  assert (same w w2) as Hs by same_by. assert (same w3 w5) as Hs' by same_by.
  rewrite (same_node _ _ _ Hs), Hd in Hm. simpl in Hm. rewrite (same_node _ _ _ Hs4), Hm in Hn. injection Hn as <-.
  simpl in *. rewrite (same_euid _ _ Hs'), (same_node _ _ _ Hs'), Hu, (same_euid _ _ Hs).
  rewrite (same_euid _ _ Hs4), Hu, (same_euid _ _ Hs) in Huid. by split_and!.
Qed.

Lemma rename_to_final store m s path w w' u n :
  node_at (dir store GENERATIONS ++ [GENERATION_TEMP_PREFIX ++ s]) w = Some n →
  valid_generation (root_device store) (geteuid w) IMMUTABLE_DIR_MODE (GenerationManifest.id m) n m →
  rename_noreplace_at (dir store GENERATIONS) (GENERATION_TEMP_PREFIX ++ s) (dir store GENERATIONS)
    (generation_name (GenerationManifest.id m)) path w = (w', Ok u) →
  commits store m w w'.
Proof.
  intros Hn Hv H. pose proof (rename_noreplace_ok _ _ _ _ _ _ _ _ H) as (n' & Hn' & Hnone & Hsome).
  rewrite Hn in Hn'. injection Hn' as <-. split_and!; [done|by exists n|].
  eapply stepped; [|exact H]. apply steps_rename_noreplace; intros r [Hr Hne].
  - by eapply settled_outside.
  - destruct Hr as [[id ->]| ->]; apply outside_entry; [|done].
    intros [_ He]%pair_equal_spec. destruct Hne. unfold generation_place. by rewrite He.
Qed.

(** What a publication may end as, in the world [w'] and with the outcome [r]. *)
Definition unpublished (store : Store) (id : Digest) (w w' : world) (r : sresult (outcome Lease)) : Prop :=
  settles store id w w' ∧ ∀ self' res, r = Ok (self', res) → droppable self' ∧ ∀ lease, res ≠ inr lease.
Definition published (store : Store) (m : GenerationManifest.t) (lock : File) (w w' : world)
    (r : sresult (outcome Lease)) : Prop :=
  commits store m w w' ∧ ∀ self' res, r = Ok (self', res) →
    droppable self' ∧ clean_on_drop self' = false ∧
    ∀ lease, res = inr lease → lease_lock lease = lock ∧ lease_id lease = GenerationManifest.id m.

Lemma unpublished_err store id w w' self e :
  settles store id w w' → droppable self → unpublished store id w w' (Ok (self, inl e)).
Proof. intros. split; [done|]. by intros ? ? [= <- <-]. Qed.
Lemma unpublished_panic store id w w' : settles store id w w' → unpublished store id w w' Panic.
Proof. by split. Qed.

Lemma step_spec {A B} self (a : io A) (k : A → io (outcome B)) w :
  step self a k w = match a w with
                    | (w1, Ok x) => k x w1
                    | (w1, Err e) => (w1, Ok (self, inl e))
                    | (w1, Panic) => (w1, Panic)
                    end.
Proof. unfold step, attempt, mbind, io_bind. by destruct (a w) as [w1 [x|e|]]. Qed.

Lemma finish_publication_ok store key id lock w w' lease :
  finish_publication store key id lock w = (w', Ok lease) → lease_lock lease = lock ∧ lease_id lease = id.
Proof.
  unfold finish_publication. intros (? & w1 & _ & H)%io_bind_ok.
  apply io_bind_ok in H as (g & w2 & (_ & n & _ & Hv & _)%verify_mode_ok & H).
  apply io_bind_ok in H as (? & w3 & _ & [_ <-]%io_ret_ok). split; [done|]. by destruct Hv as [_ _ (_ & ? & _)].
Qed.

Lemma commit_ok store self m lock w w' r :
  staged store self m w → stage self = dir store STAGING ++ [stage_name self] → droppable self →
  commit store self m lock w = (w', r) →
  unpublished store (GenerationManifest.id m) w w' r ∨ published store m lock w w' r.
Proof.
  intros Hst Hs Hdrop. set (id := GenerationManifest.id m). unfold commit. cbv zeta. fold id.
  rewrite step_spec. destruct (complete_stage store self m w) as [w1 r1] eqn:H1.
  pose proof (stepped _ _ _ _ _ (steps_complete_stage store self id m Hs) H1) as R1.
  destruct r1 as [[]|e|]; [|intros [= <- <-]; left; by apply unpublished_err|intros [= <- <-]; left; by apply unpublished_panic].
  apply (complete_stage_ok _ _ _ _ _ _ Hst) in H1 as (d & Hd & Hcomplete).
  rewrite step_spec. destruct (rename_noreplace_at _ _ _ _ _ w1) as [w2 r2] eqn:H2.
  pose proof (stepped _ _ _ _ _ (steps_to_temp store id _ _ _) H2) as R2. assert (settles store id w w2) as Hw2 by (by etrans).
  destruct r2 as [[]|e|]; [|intros [= <- <-]; left; by apply unpublished_err|intros [= <- <-]; left; by apply unpublished_panic].
  apply rename_noreplace_ok in H2 as (d' & Hd' & _ & Htemp). rewrite <- Hs, Hd in Hd'. injection Hd' as <-.
  set (self2 := transaction_of _ _ _ _ _ _ _). assert (droppable self2) as Hdrop2 by (intros name [= <-]; by eexists).
  rewrite step_spec. destruct (seal_directory _ _ _ w2) as [w3 r3] eqn:H3.
  pose proof (stepped _ _ _ _ _ (steps_seal_directory store id _ _) H3) as R3. assert (settles store id w w3) as Hw3 by (by etrans).
  destruct r3 as [[]|e|]; [|intros [= <- <-]; left; by apply unpublished_err|intros [= <- <-]; left; by apply unpublished_panic].
  apply (seal_directory_ok _ _ _ _ _ _ _ Htemp) in H3 as (He3 & Hk & Hdev & Huid & Hsealed).
  destruct R2 as (_ & _ & He2). rewrite step_spec. unfold map_io_err.
  destruct (rename_noreplace_at _ _ _ _ _ w3) as [w4 r4] eqn:H4.
  destruct r4 as [[]|e|].
  2-3: apply rename_noreplace_failed in H4; [|done]; assert (settles store id w w4) as Hw4
         by (etrans; [exact Hw3|by apply observing_same]);
       intros [= <- <-]; left; first [by apply unpublished_err|by apply unpublished_panic].
  eapply (rename_to_final store m) in H4; [|exact Hsealed|].
  2:{ rewrite He3, He2. apply Hcomplete; simpl; [done..|by rewrite Huid, He2|done]. }
  apply (commits_after _ _ _ _ _ Hw3) in H4.
  cbv beta iota delta [map_err]. rewrite step_spec. destruct (finish_publication _ _ _ _ w4) as [w5 r5] eqn:H5.
  pose proof (stepped _ _ _ _ _ (steps_finish_publication store id _ _ _) H5) as R5.
  apply (commits_then _ _ _ _ _ R5) in H4.
  destruct r5 as [lease|e|]; intros [= <- <-]; right; (split; [done|]); intros self' res Hres; [|by simplify_eq|done];
    simplify_eq; (split_and!; [done..|]).
  intros lease' [= <-]. by eapply finish_publication_ok.
Qed.

(** ** Publication *)

(** Every committed generation is as it was, or it was absent and is now a valid
    generation whose manifest satisfies [P]. *)
Definition grows (store : Store) (P : GenerationManifest.t → Prop) (w w' : world) : Prop :=
  geteuid w' = geteuid w ∧
  ∀ id, node_at (generation_place store id) w' = node_at (generation_place store id) w ∨
    (node_at (generation_place store id) w = None ∧
     ∃ n m, node_at (generation_place store id) w' = Some n ∧
       valid_generation (root_device store) (geteuid w) IMMUTABLE_DIR_MODE id n m ∧ P m).

(** The generation is there, valid, and leased. *)
Definition held (store : Store) (P : GenerationManifest.t → Prop) (id : Digest) (w : world) : Prop :=
  leased store id w ∧
  ∃ n m, node_at (generation_place store id) w = Some n ∧
    valid_generation (root_device store) (geteuid w) IMMUTABLE_DIR_MODE id n m ∧ P m.

Lemma grows_settled store P holders w w' :
  frame (finals store) holders w w' → grows store P w w'.
Proof. intros (Hn & _ & He). split; [done|]. intros id. left. apply Hn. by eexists. Qed.
Lemma settles_finals store id w w' : settles store id w w' → frame (finals store) (λ _, True) w w'.
Proof. intros (Hn & Hl & He). split_and!; [|done..]. intros r Hr. apply Hn. by left. Qed.
Lemma grows_then store P holders w w1 w' : frame (finals store) holders w1 w' → grows store P w w1 → grows store P w w'.
Proof.
  intros (Hn & _ & He) [He1 Hg]. split; [congruence|]. intros id. rewrite (Hn (generation_place store id)) by (by eexists). apply Hg.
Qed.
Lemma grows_after store P holders w w1 w' : frame (finals store) holders w w1 → grows store P w1 w' → grows store P w w'.
Proof.
  intros (Hn & _ & He) [He1 Hg]. split; [congruence|]. intros id. specialize (Hg id).
  by rewrite <- (Hn (generation_place store id)), <- He by (by eexists).
Qed.
Lemma commits_grows store (P : GenerationManifest.t → Prop) m w w' : P m → commits store m w w' → grows store P w w'.
Proof.
  intros HP (Hnone & (n & Hsome & Hv) & Hf & _ & He). split; [done|]. intros id.
  destruct (decide (id = GenerationManifest.id m)) as [->|Hne]; [right; split; [done|]; by exists n, m|left].
  apply Hf. split; [left; by eexists|]. intros H. apply Hne. apply app_inj_tail in H as [_ H]. by eapply id_to_string_inj.
Qed.

Lemma leased_settled store id w w' : settles store id w w' → leased store id w → leased store id w'.
Proof. intros (Hn & Hl & _) (n & Hp & Hh). exists n. rewrite Hn by (by right). split; [done|]. by apply Hl. Qed.
Lemma held_settled store P id w w' : settles store id w w' → held store P id w → held store P id w'.
Proof.
  intros Hs [Hl (n & m & Hn & Hv & HP)]. split; [by eapply leased_settled|]. destruct Hs as (Hs & _ & He).
  exists n, m. rewrite Hs by (left; by eexists). by rewrite He.
Qed.
Lemma leased_commits store m w w' :
  commits store m w w' → leased store (GenerationManifest.id m) w → leased store (GenerationManifest.id m) w'.
Proof.
  intros (_ & _ & Hn & Hl & _) (n & Hp & Hh). exists n. rewrite Hn; [split; [done|by apply Hl]|].
  split; [by right|]. unfold lease_place, generation_place, dir. rewrite <- !app_assoc. intros H%app_inv_head. by simplify_eq.
Qed.

(** The lock is on the lease file. *)
Lemma lease_taken store id w w1 w2 f o path u :
  open_lease_lock store id w = (w1, Ok f) → io_call o path (flock f Shared true) w1 = (w2, Ok u) → leased store id w2.
Proof.
  intros (n & Hn & Hi)%open_lease_lock_ok Hl%io_call_ok%syscall_ok. exists n.
  destruct (decide (conflicts f Shared (tick w1))); [done|]. injection Hl as <-. split; [done|].
  rewrite <- Hi. by left.
Qed.

Lemma steps_open_lease_finals store id holders : steps (frame (finals store) holders) (open_lease_lock store id).
Proof.
  apply steps_open_lease_lock; [intros s|]; intros r [id' ->]; by apply outside_entry.
Qed.

(** The generation of the transaction with these outputs. *)
Definition outputs_of (self : GenerationTransaction) (digest : Digest) (sidecars : list ImmutableSidecar.t)
    (m : GenerationManifest.t) : Prop :=
  GenerationManifest.spec m = spec self ∧ GenerationManifest.base_digest m = digest ∧
  GenerationManifest.sidecars m = sidecars.

Definition body_ok (store : Store) (P : GenerationManifest.t → Prop) (w w' : world) (r : sresult (outcome Lease)) : Prop :=
  grows store P w w' ∧ ∀ self' res, r = Ok (self', res) →
    droppable self' ∧ ∀ lease, res = inr lease → held store P (lease_id lease) w'.

Lemma body_ok_err store P holders w w' self e :
  frame (finals store) holders w w' → droppable self → body_ok store P w w' (Ok (self, inl e)).
Proof. intros H ?. split; [by eapply grows_settled|]. by intros ? ? [= <- <-]. Qed.
Lemma body_ok_panic store P holders w w' : frame (finals store) holders w w' → body_ok store P w w' Panic.
Proof. intros H. split; [by eapply grows_settled|done]. Qed.

(** Dropping the lease lock of a failed publication. *)
Lemma holding_outcome_ok store P f w w1 r :
  body_ok store P w w1 r →
  body_ok store P w (match r with Ok (_, inr _) => w1 | _ => funlock f Shared w1 end) r.
Proof.
  intros [Hg Hr]. assert (grows store P w (funlock f Shared w1)) as Hu.
  { eapply (grows_then store P (λ _, False)); [|exact Hg]. apply frame_funlock. right. by intros []. }
  destruct r as [[self' [e|lease]]|e|]; (split; [done|]); [|done..].
  intros self'' res [= <- <-]. destruct (Hr _ _ eq_refl). by split.
Qed.

(** Once the lease is held. *)
Lemma publish_leased_ok store self m lock w w' r (P : GenerationManifest.t → Prop) :
  P m → staged store self m w → stage self = dir store STAGING ++ [stage_name self] → droppable self →
  leased store (GenerationManifest.id m) w →
  (verified ← attempt (verify_generation store (GenerationManifest.id m));
   match verified with
   | inr existing =>
     if decide (manifest existing = m) then
       step self (update_derivation_index store (derivation_key self) (GenerationManifest.id m)) (λ _,
       mret (self, inr (lease_of existing lock)))
     else mret (self, inl (StoreError.GenerationAlreadyExists (GenerationManifest.id m)))
   | inl (StoreError.GenerationNotFound _) => commit store self m lock
   | inl e => mret (self, inl e)
   end) w = (w', r) →
  body_ok store P w w' r.
Proof.
  intros HP Hst Hs Hdrop Hl. unfold mbind, io_bind.
  destruct (attempt (verify_generation store (GenerationManifest.id m)) w) as [w1 rv] eqn:Hv.
  assert (same w w1) as Hsame by (eapply observed; [|exact Hv]; apply steps_attempt, steps_verify_generation, _).
  assert (settles store (GenerationManifest.id m) w w1) as H1 by (by apply observing_same).
  pose proof (settles_finals _ _ _ _ H1) as F1.
  destruct rv as [[e|g]|e|]; [| |intros [= <- <-]; split; [by eapply grows_settled|done]
                             |intros [= <- <-]; by eapply body_ok_panic].
  - destruct e; try (intros [= <- <-]; by eapply body_ok_err).
    intros Hc. apply commit_ok in Hc as [[Hu Hr]|[Hc Hr]]; [..|done|done].
    + split; [eapply grows_settled, (settles_finals _ (GenerationManifest.id m)); by etrans|].
      intros self' res He. destruct (Hr _ _ He) as [? Hno]. split; [done|]. intros lease ->. by destruct (Hno lease).
    + apply (commits_after _ _ _ _ _ H1) in Hc. split; [by eapply commits_grows|].
      intros self' res He. destruct (Hr _ _ He) as (? & _ & Hle). split; [done|]. intros lease ->.
      destruct (Hle _ eq_refl) as [_ ->]. split; [by eapply leased_commits|].
      destruct Hc as (_ & (n & Hn & Hval) & _ & _ & He'). exists n, m. by rewrite He'.
    + eapply (staged_frame (λ _, True) (λ _, True)); [|done|exact Hst]. by apply observing_same.
  - rewrite attempt_ok in Hv. apply verify_mode_ok in Hv as (_ & n & Hn & Hval & _).
    case_decide as Hm; [|intros [= <- <-]; by eapply body_ok_err].
    rewrite step_spec. destruct (update_derivation_index _ _ _ w1) as [w2 r2] eqn:Hi.
    pose proof (stepped _ _ _ _ _ (steps_update_index_settled store (GenerationManifest.id m) _ _) Hi) as H2.
    assert (settles store (GenerationManifest.id m) w w2) as H12 by (by etrans).
    pose proof (settles_finals _ _ _ _ H12) as F2.
    destruct r2 as [[]|e|]; intros [= <- <-]; [|by eapply body_ok_err|by eapply body_ok_panic].
    split; [by eapply grows_settled|]. intros self' res [= <- <-]. split; [done|]. intros lease [= <-].
    unfold lease_id. simpl. rewrite Hm. eapply held_settled; [exact H12|]. split; [done|].
    exists n, m. rewrite Hm in Hval. done.
Qed.

Lemma publish_body_ok store self digest sidecars w w' r :
  transaction_ok store self w → Forall sidecar_ok sidecars →
  publish_body store self digest sidecars w = (w', r) →
  body_ok store (outputs_of self digest sidecars) w w' r.
Proof.
  intros Hok Hsc. pose proof Hok as [_ Hs [Ht _] _].
  assert (droppable self) as Hdrop by (intros name; by rewrite Ht).
  unfold publish_body. rewrite step_spec. destruct (seal_staged store self digest sidecars w) as [w1 r1] eqn:H1.
  assert (∀ id, settles store id w w1) as R1.
  { intros id. eapply stepped; [|exact H1]. apply steps_seal_staged. intros name _. by apply settled_stage_outside. }
  pose proof (settles_finals _ [] _ _ (R1 [])) as F1.
  destruct r1 as [m|e|]; [|intros [= <- <-]; by eapply body_ok_err|intros [= <- <-]; by eapply body_ok_panic].
  apply seal_staged_ok in H1 as (Hst & Hm1 & Hm2 & Hm3 & Hm4); [|done..].
  cbv zeta. rewrite step_spec. destruct (open_lease_lock store (GenerationManifest.id m) w1) as [w2 r2] eqn:H2.
  pose proof (stepped _ _ _ _ _ (steps_open_lease_finals store _ (λ _, True)) H2) as F2.
  assert (frame (finals store) (λ _, True) w w2) as F12 by (by etrans).
  destruct r2 as [lock|e|]; [|intros [= <- <-]; by eapply body_ok_err|intros [= <- <-]; by eapply body_ok_panic].
  rewrite step_spec. destruct (io_call _ _ (flock lock Shared true) w2) as [w3 r3] eqn:H3.
  pose proof (stepped _ _ _ _ _ (steps_io_call _ _ _ _ (steps_flock (finals store) (λ _, True) lock Shared true)) H3) as F3.
  assert (frame (finals store) (λ _, True) w w3) as F13 by (by etrans).
  destruct r3 as [[]|e|]; [|intros [= <- <-]; by eapply body_ok_err|intros [= <- <-]; by eapply body_ok_panic].
  pose proof (lease_taken _ _ _ _ _ _ _ _ _ H2 H3) as Hl.
  assert (staged store self m w3) as Hst3.
  { eapply (staged_frame (λ r, ∃ name, r = stage self ++ [name]) (λ _, True)); [|intros; by eexists|exact Hst].
    etrans; [|eapply stepped; [apply steps_io_call, steps_flock|exact H3]].
    eapply stepped; [|exact H2]. apply steps_open_lease_lock; [intros s|]; intros q [name ->]; rewrite Hs, <- app_assoc;
      by apply outside_area. }
  unfold holding_outcome. match goal with |- context [let '(_, _) := ?b w3 in _] => destruct (b w3) as [w4 r4] eqn:Hb end.
  intros [= <- <-]. apply holding_outcome_ok.
  apply (publish_leased_ok _ _ _ _ _ _ _ (outputs_of self digest sidecars)) in Hb; [|done..].
  destruct Hb as [Hg Hr]. split; [by eapply grows_after|done].
Qed.

(** Dropping the transaction and the build lock changes no committed generation. *)
Lemma publish_inner_ok store self digest sidecars w w' r :
  transaction_ok store self w → Forall sidecar_ok sidecars →
  publish_leased store self digest sidecars w = (w', r) →
  grows store (outputs_of self digest sidecars) w w' ∧
  ∀ lease, r = Ok lease → held store (outputs_of self digest sidecars) (lease_id lease) w'.
Proof.
  intros Hok Hsc. unfold publish_leased, publish_with_sidecars_inner, guarded, mbind at 1, io_bind at 1.
  destruct (publish_body store self digest sidecars w) as [w1 r1] eqn:H1.
  apply publish_body_ok in H1 as [Hg Hr]; [|done..].
  assert (∀ id w2, settles store id w2 (funlock (build_lock self) Exclusive w2)) as Hu
    by (intros; apply frame_funlock; by left).
  destruct r1 as [[self' res]|e|]; [|intros [= <- <-]; by split; [eapply grows_then; [eapply settles_finals, (Hu [])|]|]..].
  destruct (Hr _ _ eq_refl) as [Hdrop Hres]. unfold mbind, io_bind.
  destruct (drop_transaction store self' w1) as [w2 r2] eqn:H2.
  assert (∀ id, settles store id w1 (funlock (build_lock self) Exclusive w2)) as Hw2.
  { intros id. etrans; [|apply Hu]. eapply stepped; [by apply steps_drop_transaction|exact H2]. }
  assert (grows store (outputs_of self digest sidecars) w (funlock (build_lock self) Exclusive w2)) as Hg2
    by (by eapply grows_then; [eapply settles_finals, (Hw2 [])|]).
  destruct r2 as [[]|e|]; [|by intros [= <- <-]..].
  destruct res as [e|lease]; intros [= <- <-]; (split; [done|]); [done|].
  intros lease' [= <-]. eapply held_settled; [apply Hw2|by apply Hres].
Qed.

(** C1: publication is atomic.  Whatever system calls fail and wherever the process is
    killed, every committed generation is left as it was, except that one that was not
    there may now be: a complete and immutable generation with the transaction's
    specification, the expected base digest and the expected sidecars.  When a lease is
    returned, its generation is there, valid, has these outputs, and is leased. *)
Theorem publish_atomic store self digest sidecars w w' r :
  transaction_ok store self w → Forall sidecar_ok sidecars →
  publish_leased store self digest sidecars w = (w', r) →
  grows store (outputs_of self digest sidecars) w w' ∧
  ∀ lease, r = Ok lease → held store (outputs_of self digest sidecars) (lease_id lease) w'.
Proof. apply publish_inner_ok. Qed.

(** *** Leases against collections *)
Lemma held_kept store P id w w' : frame (spared store id) (λ _, True) w w' → held store P id w → held store P id w'.
Proof.
  intros Hk [Hl (n & m & Hn & Hv & HP)]. split; [by eapply leased_kept|]. destruct Hk as (Hk & _ & He).
  exists n, m. rewrite Hk by (by left). by rewrite He.
Qed.

Lemma held_collections store P id w k :
  held store P id w → held store P id (Nat.iter k (λ w, (garbage_collect store w).1) w).
Proof.
  intros Hh. induction k as [|k IH]; simpl; [done|]. eapply held_kept; [|exact IH].
  apply garbage_collect_keeps. right. by destruct IH.
Qed.

(** C4: a published generation cannot be lost before its publisher roots it.  After
    [publish_leased] has returned, any number of garbage collections, with any faults,
    leaves the generation in place, valid, with the published outputs, and leased. *)
Theorem published_survives_collections store self digest sidecars w w' lease k :
  transaction_ok store self w → Forall sidecar_ok sidecars →
  publish_leased store self digest sidecars w = (w', Ok lease) →
  held store (outputs_of self digest sidecars) (lease_id lease)
    (Nat.iter k (λ w, (garbage_collect store w).1) w').
Proof.
  intros Hok Hsc H. apply held_collections. apply publish_inner_ok in H as [_ H]; [|done..]. by apply H.
Qed.
End publish.
