(* ===== verification/StoreBegin.v ===== *)
(** * Beginning a generation

    [try_begin_generation] answers with a leased generation of the derivation or with a
    transaction that has everything publication relies on; no committed generation
    changes. *)

From S2P Require Import Prelude RustStr Utf8 ByteOrder ManagedPath ProtocolError Sha256 StoreCodec HexText StoreIdentity StoreRecords StoreFs FsFacts Store StoreFrame StoreVerify StoreGc StorePublish.

#[local] Arguments bs : simpl never.
#[local] Arguments len : simpl never.

Section begin_generation.
Context {sha : Sha2} {hex : Hex} {text : StdText} {sha_laws : Sha2Laws} {hex_laws : HexLaws}.
Implicit Types (store : Store) (self : GenerationTransaction).

(** ** The staging directory *)
Lemma create_private_dir_ok p name path device w w' d :
  create_private_dir p name path device w = (w', Ok d) →
  d = p ++ [name] ∧ ∃ n, node_at d w' = Some n ∧ is_dir (status n) ∧ dev (status n) = device ∧
    uid (status n) = geteuid w' ∧ mode (status n) = PRIVATE_DIR_MODE.
Proof.
  unfold create_private_dir. intros (? & w1 & _ & H)%io_bind_ok.
  apply io_bind_ok in H as (d' & w2 & (_ & -> & _)%open_dir_at_ok & H). apply io_bind_ok in H as (? & w3 & _ & H).
  apply io_bind_ok in H as (i & w4 & (Hs & n & Hn & <- & Hk & Hd & Hu & Hm)%validate_directory_ok & H).
  apply io_bind_ok in H as (? & w5 & Hs5%fsync_ok & [-> <-]%io_ret_ok).
  assert (same w3 w5) as Hs' by same_by. split; [done|]. exists n.
  rewrite (same_node _ _ _ Hs'), (same_euid _ _ Hs'). by split_and!.
Qed.

Lemma create_staging_ok k store key w w' name d :
  create_staging k store key w = (w', Ok (name, d)) →
  d = dir store STAGING ++ [name] ∧ ∃ n, node_at d w' = Some n ∧ dev (status n) = root_device store.
Proof.
  revert w. induction k as [|k IH]; intros w; [done|]. simpl.
  intros (s & w1 & _ & (made & w2 & Hm & H)%io_bind_ok)%io_bind_ok. destruct made as [e|directory].
  - case_decide; [by eapply IH|done].
  - rewrite attempt_ok in Hm. apply create_private_dir_ok in Hm as [-> (n & Hn & _ & Hd & _)].
    apply io_ret_ok in H as [-> [= <- <-]]. split; [done|]. by exists n.
Qed.

Lemma begin_staging_ok store sp key lock w w' self :
  spec_ok sp → GenerationSpec.derivation_key sp = Ok key →
  begin_staging store sp key lock w = (w', Ok self) →
  transaction_ok store self w' ∧ spec self = sp ∧ build_lock self = lock.
Proof.
  intros Hsp Hkey. unfold begin_staging, create_staging_directory.
  intros ([name d] & w1 & (-> & n & Hn & Hd)%create_staging_ok & H)%io_bind_ok.
  apply io_bind_ok in H as (b & w2 & [-> Hb]%io_pure_ok & H). apply io_bind_ok in H as (written & w3 & Hw & H).
  destruct written as [e|f]; [by apply io_bind_ok in H as (? & ? & _ & H)|].
  rewrite attempt_ok in Hw. apply write_new_synced_ok in Hw as (_ & n' & Hn' & _ & Ho & _).
  rewrite Hn in Hn'. injection Hn' as <-. rewrite Hd in Ho.
  apply io_bind_ok in H as (? & w4 & Hs%fsync_ok & [-> <-]%io_ret_ok).
  split; [|done]. split; simpl; [done..|]. exists b. split; [|done]. by apply (owned_file_same _ _ _ _ _ _ Hs).
Qed.

(** ** What changes meanwhile *)
Section settles.
Context (store : Store) (id : Digest).
Let R := frame (settled store id) (λ _, True).

Lemma steps_create_staging k key : steps R (create_staging k store key).
Proof.
  induction k as [|k IH]; simpl; [steps_auto|].
  steps_by ltac:(first [solve [eauto with steps] | exact IH
                       |apply steps_create_private_dir; by apply settled_outside]).
Qed.

Lemma steps_begin_staging sp key lock : steps R (begin_staging store sp key lock).
Proof.
  unfold begin_staging. apply steps_bind_ok; [apply _|apply steps_create_staging|].
  intros w1 w2 [name d] [-> _]%create_staging_ok. revert w2.
  match goal with |- ∀ w', R w' (?k w').1 => change (steps R k) end.
  steps_by ltac:(first [solve [eauto with steps]
    |apply steps_write_new_synced; intros r [[? ->]| ->]; by apply outside_below, outside_area
    |apply steps_remove_tree_at; by apply settled_outside]).
Qed.
End settles.

(** ** The cached generation *)

(** The files of a generation determine its manifest. *)
Lemma valid_manifest_unique device me m id n m1 m2 :
  valid_generation device me m id n m1 → valid_generation device me m id n m2 → m1 = m2.
Proof.
  intros [_ _ (Hok1 & _ & b1 & (c1 & Hc1 & Hk1 & _) & He1 & Hl1)] [_ _ (Hok2 & _ & b2 & (c2 & Hc2 & Hk2 & _) & He2 & Hl2)].
  rewrite Hc1 in Hc2. injection Hc2 as <-. rewrite Hk1 in Hk2. injection Hk2 as <-.
  assert (GenerationManifest.decode b1 [] = Ok m1) as H1 by (by apply manifest_exact).
  assert (GenerationManifest.decode b1 [] = Ok m2) as H2 by (by apply manifest_exact). congruence.
Qed.

(** What the index of a derivation lists was verified and belongs to it. *)
Definition of_derivation (key : Digest) (m : GenerationManifest.t) : Prop := GenerationManifest.derivation_key m = key.

Lemma indexed_generations_ok store key w w' gs :
  generations_for_derivation_locked store key w = (w', Ok gs) →
  same w w' ∧ ∀ g, g ∈ gs → of_derivation key (manifest g) ∧ ∃ n,
    node_at (generation_place store (GenerationManifest.id (manifest g))) w = Some n ∧
    valid_generation (root_device store) (geteuid w) IMMUTABLE_DIR_MODE (GenerationManifest.id (manifest g)) n (manifest g).
Proof.
  unfold generations_for_derivation_locked. intros (found & w1 & H1 & H)%io_bind_ok.
  apply observed in H1; [|apply steps_attempt, steps_read_derivation, _].
  destruct found as [e|record]; [destruct e; try done; by apply io_ret_ok in H as [-> <-]; split; [|intros g []%not_elem_of_nil]|].
  eapply (fold_io_inv (λ w1 gs, same w w1 ∧ ∀ g, g ∈ gs → of_derivation key (manifest g) ∧ ∃ n,
    node_at (generation_place store (GenerationManifest.id (manifest g))) w = Some n ∧ valid_generation
      (root_device store) (geteuid w) IMMUTABLE_DIR_MODE (GenerationManifest.id (manifest g)) n (manifest g)));
    [|split; [exact H1|by intros g ?%not_elem_of_nil]|exact H].
  clear H H1. intros acc id w2 w3 acc' [Hs Hacc]
    (g & w4 & (Hs4 & n & Hn & Hv & _)%verify_mode_ok & [Hd%dec_stable [-> <-]%io_ret_ok]%io_guard_ok)%io_bind_ok.
  split; [by etrans|]. intros g' [?| ->%list_elem_of_singleton]%elem_of_app; [by apply Hacc|].
  split; [done|]. exists n. pose proof Hv as [_ _ (_ & -> & _)].
  by rewrite <- (same_node _ _ _ Hs), <- (same_euid _ _ Hs).
Qed.

Lemma lease_cached_ok store key w w' lease :
  lease_cached store key w = (w', Ok (Some lease)) → held store (of_derivation key) (lease_id lease) w'.
Proof.
  unfold lease_cached. intros (gs & w1 & [Hs Hgs]%indexed_generations_ok & H)%io_bind_ok.
  destruct gs as [|g gs]; [by apply io_ret_ok in H as [_ ?]|]. destruct (Hgs g) as [Hof (n & Hn & Hv)]; [left|].
  rewrite <- (same_node _ _ _ Hs) in Hn. rewrite <- (same_euid _ _ Hs) in Hv. clear Hgs Hs.
  set (id := GenerationManifest.id (manifest g)) in *.
  apply io_bind_ok in H as (lock & w2 & H2 & H). apply io_bind_ok in H as ([] & w3 & H3 & H).
  pose proof (lease_taken _ _ _ _ _ _ _ _ _ H2 H3) as Hl.
  pose proof (stepped _ _ _ _ _ (steps_open_lease_finals store id (λ _, True)) H2) as F2.
  pose proof (stepped _ _ _ _ _ (steps_io_call _ _ _ _ (steps_flock (finals store) (λ _, True) lock Shared true)) H3) as F3.
  assert (frame (finals store) (λ _, True) w1 w3) as (Hf & _ & He) by (by etrans).
  unfold holding in H. match type of H with context [let '(_, _) := ?b w3 in _] => destruct (b w3) as [w4 r4] eqn:Hb end.
  destruct r4 as [x|e|]; [|done..]. injection H as <- ->.
  apply io_bind_ok in Hb as (verified & w5 & Hver & Hb). destruct verified as [e|g']; [by destruct e|].
  rewrite attempt_ok in Hver. apply verify_mode_ok in Hver as (Hs5 & n' & Hn' & Hv' & _).
  apply io_ret_ok in Hb as [-> [= <-]]. unfold lease_id. simpl.
  assert (settles : frame (settled store id) (λ _, True) w3 w5) by (by apply observing_same).
  pose proof Hv' as [_ _ (_ & -> & _)]. eapply held_settled; [exact settles|]. split; [done|].
  rewrite Hf in Hn' by (by eexists). rewrite Hn in Hn'. injection Hn' as <-. rewrite He in Hv'.
  exists n, (manifest g'). rewrite (Hf (generation_place store id)), He by (by eexists). split_and!; [done..|].
  by rewrite <- (valid_manifest_unique _ _ _ _ _ _ _ Hv Hv').
Qed.
(** ** The two answers *)
Definition began (store : Store) (sp : GenerationSpec.t) (key : Digest) (w : world) (b : BeginGeneration) : Prop :=
  match b with
  | Existing lease => held store (of_derivation key) (lease_id lease) w
  | Vacant self => transaction_ok store self w ∧ spec self = sp ∧ derivation_key self = key
  end.

Lemma holding_ok {A} f m (body : io A) w w' a : holding f m body w = (w', Ok a) → body w = (w', Ok a).
Proof. unfold holding. destruct (body w) as [w1 [b|e|]]; by intros [= <- <-]. Qed.

Lemma begin_inner_ok store sp key rebuild w w' b :
  spec_ok sp → GenerationSpec.derivation_key sp = Ok key →
  try_begin_generation_inner store sp rebuild w = (w', Ok b) → began store sp key w' b.
Proof.
  intros Hsp Hkey. unfold try_begin_generation_inner. intros ([] & w1 & _ & H)%io_bind_ok.
  apply io_bind_ok in H as (key' & w2 & [-> Hk]%io_pure_ok & H). rewrite Hkey in Hk. injection Hk as <-.
  apply io_bind_ok in H as (lock & w3 & _ & H). apply io_bind_ok in H as (locked & w4 & _ & H).
  destruct locked as [e|[]]; [by case_decide|]. apply io_bind_ok in H as (hit & w5 & Hh%holding_ok & H).
  destruct hit as [lease|].
  - apply io_bind_ok in H as ([] & w6 & Hc & [-> <-]%io_ret_ok). injection Hc as <-. simpl.
    destruct rebuild; [by apply io_ret_ok in Hh as [_ ?]|]. apply lease_cached_ok in Hh.
    eapply held_settled; [|exact Hh]. apply frame_funlock. by left.
  - apply holding_ok, io_bind_ok in H as (self & w6 & Hb & [-> <-]%io_ret_ok).
    pose proof Hb as Hb'. apply begin_staging_ok in Hb as (Hok & Hs & _); [|done..]. simpl. split_and!; [done..|].
    destruct Hok as [[_ Hk] _ _ _]. rewrite Hs, Hkey in Hk. congruence.
Qed.

(** ** Committed generations meanwhile *)
Section unchanged.
Context (store : Store).
Let R := frame (finals store) (λ _, False).

Lemma finals_outside area name r : area ≠ GENERATIONS → finals store r → outside r (dir store area) name.
Proof. intros Ha [id ->]. apply outside_entry. congruence. Qed.

Lemma steps_indexed key : steps R (generations_for_derivation_locked store key).
Proof. unfold generations_for_derivation_locked. steps_auto. Qed.
Lemma steps_close f m : steps R (close_lock f m).
Proof. intros w. apply frame_funlock. right. by intros []. Qed.
Lemma steps_lease_cached key : steps R (lease_cached store key).
Proof.
  unfold lease_cached. apply steps_bind; [apply _|apply steps_indexed|]. intros [|g gs]; [steps_auto|].
  apply steps_bind; [apply _|apply steps_open_lease_finals|]. intros lock.
  apply steps_bind; [apply _|steps_auto|]. intros _. apply steps_holding; [right; by intros []|].
  steps_by ltac:(first [solve [eauto with steps] | apply steps_close]).
Qed.

Lemma steps_finals {A} (m : io A) : steps (frame (settled store []) (λ _, True)) m → steps R m.
Proof. intros Hm w. destruct (settles_finals _ _ _ _ (Hm w)) as (Hn & Hl & He). by split_and!. Qed.

Lemma steps_begin_inner sp rebuild : steps R (try_begin_generation_inner store sp rebuild).
Proof.
  unfold try_begin_generation_inner.
  steps_by ltac:(first [solve [eauto with steps] | apply steps_close | apply steps_lease_cached
    |apply steps_open_derivation_lock; intros ? ?; by apply finals_outside
    |apply steps_finals, steps_begin_staging | apply steps_holding; [by left|]]).
Qed.
End unchanged.

(** C10: beginning a generation.  For a valid specification, [try_begin_generation] (and
    a forced rebuild, up to the cache) answers with the lease of a generation of exactly
    that derivation, which is there, valid and leased; or with a transaction of that
    specification that satisfies what publication relies on.  Every committed
    generation is left as it was, for every fault and kill. *)
Theorem try_begin_generation_exact store sp key rebuild w w' r :
  spec_ok sp → GenerationSpec.derivation_key sp = Ok key →
  try_begin_generation_inner store sp rebuild w = (w', r) →
  (∀ id, node_at (generation_place store id) w' = node_at (generation_place store id) w) ∧
  ∀ b, r = Ok b → began store sp key w' b.
Proof.
  intros Hsp Hkey H. split.
  - intros id. apply (stepped _ _ _ _ _ (steps_begin_inner store sp rebuild)) in H as (Hn & _). apply Hn. by eexists.
  - intros b ->. by eapply begin_inner_ok.
Qed.
End begin_generation.
