(* ===== verification/StoreRecover.v ===== *)
(** * Recovery

    [Store::recover] removes what interrupted operations left and finishes the seal of
    a published generation; it loses no committed generation and no root. *)

From S2P Require Import Prelude RustStr Utf8 ByteOrder ManagedPath ProtocolError Sha256 StoreCodec HexText StoreIdentity StoreRecords StoreFs FsFacts Store StoreFrame StoreVerify StoreGc StorePublish.

#[local] Arguments bs : simpl never.
#[local] Arguments len : simpl never.

Section recovery.
Context {sha : Sha2} {hex : Hex} {text : StdText} {sha_laws : Sha2Laws} {hex_laws : HexLaws}.
Implicit Types (self store : Store).

(** The committed generations and what protects them. *)
Definition anchor (store : Store) (r : location) : Prop :=
  ∃ id, r = generation_place store id ∨ r = alias_place store id ∨ r = retained_place store id ∨ r = lease_place store id.
Abbreviation anchored store := (frame (anchor store) (λ _, True)).

(** A generation as publication and recovery seal it. *)
Definition seal (n : node) : node := set_status (with_mode IMMUTABLE_DIR_MODE (status n)) n.

(** Every committed generation is as it was, or was complete but unsealed and is now
    sealed; aliases, retained roots and leases are as they were. *)
Definition seals (store : Store) (w w' : world) : Prop :=
  frame (λ r, anchor store r ∧ ∀ id, r ≠ generation_place store id) (λ _, True) w w' ∧
  ∀ id, node_at (generation_place store id) w' = node_at (generation_place store id) w ∨
    ∃ n m, node_at (generation_place store id) w = Some n ∧
      valid_generation (root_device store) (geteuid w) PRIVATE_DIR_MODE id n m ∧
      node_at (generation_place store id) w' = Some (seal n).

Lemma sealed_valid device me id n m :
  valid_generation device me PRIVATE_DIR_MODE id n m → valid_generation device me IMMUTABLE_DIR_MODE id (seal n) m.
Proof. intros [(Hk & Hd & Hu & _) Hn Hm Hs Hb Hsc]. by split. Qed.
Lemma sealed_not_private device me id n m : ¬ valid_generation device me PRIVATE_DIR_MODE id (seal n) m.
Proof. by intros [(_ & _ & _ & ?)]. Qed.

#[export] Instance seals_observing store : Observing (seals store).
Proof.
  split; [split|].
  - intros w. split; [reflexivity|by left].
  - intros w1 w2 w3 [H1 G1] [H2 G2]. split; [by etrans|]. intros id. pose proof H1 as (_ & _ & He).
    destruct (G2 id) as [->|(n & m & Hn & Hv & Hn')]; [apply G1|]. rewrite Hn'. rewrite He in Hv.
    destruct (G1 id) as [E|(n1 & m1 & _ & _ & E)]; rewrite Hn in E.
    + right. exists n, m. by rewrite <- E.
    + injection E as ->. by apply sealed_not_private in Hv.
  - intros w w' Hs. split; [by apply observing_same|]. left. by apply same_node.
Qed.

Lemma anchored_seals store w w' : anchored store w w' → seals store w w'.
Proof.
  intros (Hn & Hl & He). split; [split_and!; [|done..]; intros r [Hr _]; by apply Hn|].
  intros id. left. apply Hn. exists id. by left.
Qed.
Lemma steps_anchored {A} store (m : world → world * A) : steps (anchored store) m → steps (seals store) m.
Proof. intros Hm w. apply anchored_seals, Hm. Qed.

(** Entries of the store's directories that are no anchors. *)
Definition anchor_entries (id : Digest) : list (bytes * bytes) :=
  [(GENERATIONS, generation_name id); (ALIASES, alias_filename id); (RETAINED, retained_filename id);
   (LEASES, lease_filename id)].

Lemma anchor_outside store area name :
  (∀ id, (area, name) ∉ anchor_entries id) → ∀ r, anchor store r → outside r (dir store area) name.
Proof.
  intros Hne r (id & [->|[->|[->| ->]]]); apply outside_entry; intros E; apply (Hne id); rewrite E; set_solver.
Qed.

Lemma free_area area name : area ∈ [STAGING; LOCKS; DERIVATIONS] → ∀ id, (area, name) ∉ anchor_entries id.
Proof.
  intros Ha id. unfold anchor_entries. rewrite !not_elem_of_cons.
  repeat (apply elem_of_cons in Ha as [->|Ha]; [by split_and!; [..|apply not_elem_of_nil]|]). by apply elem_of_nil in Ha.
Qed.
Lemma temporary_entry area temp s : head temp = Some x2e → ∀ id, (area, temp ++ s) ∉ anchor_entries id.
Proof.
  intros Ht id. unfold anchor_entries. rewrite !not_elem_of_cons. destruct temp as [|c temp]; [done|].
  injection Ht as ->. by split_and!; [..|apply not_elem_of_nil].
Qed.

(** ** What recovery touches *)
Lemma steps_read_abandoned R `{!Observing R} d path device : steps R (read_abandoned_record d path device).
Proof. unfold read_abandoned_record. steps_auto. Qed.

Lemma steps_recovery_lock store key : steps (anchored store) (open_derivation_lock store key).
Proof. apply steps_open_derivation_lock. intros name. apply anchor_outside, free_area. set_solver. Qed.

Lemma steps_recover_transaction store area name key e1 e2 read report :
  (∀ id, (area, name) ∉ anchor_entries id) → (∀ d path device, steps (anchored store) (read d path device)) →
  steps (anchored store) (recover_transaction store area name key e1 e2 read report).
Proof.
  intros Hne Hread. unfold recover_transaction.
  steps_by ltac:(first [solve [eauto with steps] | apply steps_recovery_lock | apply Hread
    |apply steps_guarded; [by left|] | apply steps_remove_tree_at, anchor_outside, Hne]).
Qed.

Lemma steps_recover_temp store directory path prefix report name :
  (∀ s r, anchor store r → outside r directory (prefix ++ s)) →
  steps (anchored store) (recover_atomic_temp store directory path prefix report name).
Proof.
  intros Hk. unfold recover_atomic_temp. case_decide; [steps_auto|]. case_decide as Hp; [steps_auto|].
  destruct Hp as [s ->]. steps_by ltac:(first [solve [eauto with steps] | by apply steps_unlink_file_at]).
Qed.
Lemma steps_recover_temps store directory relative prefix report :
  (∀ s r, anchor store r → outside r directory (prefix ++ s)) →
  steps (anchored store) (recover_atomic_temps store directory relative prefix report).
Proof.
  intros Hk. unfold recover_atomic_temps. steps_by ltac:(first [solve [eauto with steps] | by apply steps_recover_temp]).
Qed.

(** ** The seal *)
Lemma set_mode_at p m path w :
  same w (set_mode p m path w).1 ∨
  node_at p (set_mode p m path w).1 = (λ n, set_status (with_mode m (status n)) n) <$> node_at p w.
Proof.
  unfold set_mode, io_call, or_else, fchmod, syscall. destruct (faults w) as [|[|n e|n] fs]; simpl;
    [right..|left; apply same_tick|left; apply same_tick]; unfold node_at, update; simpl; by rewrite find_change.
Qed.

Lemma seal_seals store id path w n m :
  node_at (generation_place store id) w = Some n →
  valid_generation (root_device store) (geteuid w) PRIVATE_DIR_MODE id n m →
  seals store w (set_mode (generation_place store id) IMMUTABLE_DIR_MODE path w).1.
Proof.
  intros Hn Hv.
  assert (frame (λ r, anchor store r ∧ r ≠ generation_place store id) (λ _, True) w
            (set_mode (generation_place store id) IMMUTABLE_DIR_MODE path w).1) as (Hf & Hl & He).
  { apply steps_set_mode. intros r [(id' & [->|[->|[->| ->]]]) Hr]; apply outside_entry; [|done..].
    intros [_ E]%pair_equal_spec. destruct Hr. unfold generation_place. by rewrite E. }
  split; [split_and!; [|done..]; intros r [Hr Hne]; by apply Hf|]. intros id'.
  destruct (decide (id' = id)) as [->|Hne].
  - destruct (set_mode_at (generation_place store id) IMMUTABLE_DIR_MODE path w) as [Hs|E].
    + left. by apply same_node.
    + right. exists n, m. by rewrite E, Hn.
  - left. apply Hf. split; [exists id'; by left|]. intros E%app_inj_tail. destruct E as [_ E].
    by apply Hne; eapply id_to_string_inj.
Qed.

Lemma steps_guarded_seals {A} store f (body : io A) :
  steps (seals store) body → steps (seals store) (guarded f Exclusive body).
Proof.
  intros Hb w. unfold guarded. specialize (Hb w). destruct (body w) as [w1 r]. simpl in *.
  etrans; [done|]. apply anchored_seals, frame_funlock. by left.
Qed.

Lemma steps_recovery_index store key id : steps (seals store) (update_derivation_index store key id).
Proof.
  apply steps_anchored, steps_update_derivation_index. intros name. apply anchor_outside, free_area. set_solver.
Qed.

(** An entry under a final name. *)
Lemma steps_recover_generation store id report :
  steps (seals store) (recover_generation store (generation_name id) id report).
Proof.
  unfold recover_generation. apply steps_bind_ok; [apply _|steps_auto|]. intros w0 w1 opened Ho.
  destruct opened as [e|d]; [reflexivity|]. rewrite attempt_ok in Ho. apply open_dir_at_ok in Ho as (_ & -> & _).
  fold (generation_place store id). revert w1.
  match goal with |- ∀ w', _ w' (?k w').1 => change (steps (seals store) k) end.
  steps_by ltac:(first [solve [eauto with steps] | apply steps_anchored, steps_recovery_lock
    |apply steps_anchored, steps_flock]).
  apply steps_guarded_seals. apply steps_bind_ok; [apply _|steps_auto|]. intros w2 w3 verified Hv.
  destruct verified as [e|g]; [reflexivity|]. rewrite attempt_ok in Hv.
  apply verify_mode_ok in Hv as (Hs & d & Hd & Hvalid & _).
  case_decide; [reflexivity|]. apply step_bind_at; [apply _| |].
  - case_decide as Hm; [|reflexivity]. rewrite Hm in Hvalid. apply step_bind_at; [apply _| |].
    + eapply seal_seals; [by rewrite (same_node _ _ _ Hs)|by rewrite (same_euid _ _ Hs)].
    + intros w4 [] _. revert w4. match goal with |- ∀ w', _ w' (?k w').1 => change (steps (seals store) k) end. steps_auto.
  - intros w4 r _. revert w4. match goal with |- ∀ w', _ w' (?k w').1 => change (steps (seals store) k) end.
    steps_by ltac:(first [solve [eauto with steps] | apply steps_recovery_index]).
Qed.

Lemma steps_recover_publication store report name : steps (seals store) (recover_publication store report name).
Proof.
  unfold recover_publication. case_decide; [steps_auto|].
  destruct (parse_generation_temp_name name) as [key|] eqn:Ht.
  - unfold parse_generation_temp_name in Ht. apply bind_Some in Ht as (rest & ->%strip_prefix_Some & _).
    apply steps_anchored, steps_recover_transaction; [by apply temporary_entry|intros; steps_auto].
  - destruct (parse_filename GENERATION_PREFIX name) as [id|] eqn:Hp; [|steps_auto].
    apply parse_filename_Some in Hp as [-> _]. apply steps_recover_generation.
Qed.

Lemma steps_recover_stage store report name : steps (seals store) (recover_stage store report name).
Proof.
  unfold recover_stage. case_decide; [steps_auto|]. destruct (parse_staging_name name); [|steps_auto].
  apply steps_anchored, steps_recover_transaction; [apply free_area; set_solver|].
  intros. apply steps_read_abandoned, _.
Qed.

Lemma anchor_outside_root store s r : anchor store r → outside r (root store) (FIXED_TEMP_PREFIX ++ s).
Proof.
  intros (id & Hr). unfold generation_place, alias_place, retained_place, lease_place, dir in Hr.
  destruct Hr as [->|[->|[->| ->]]]; rewrite <- !app_assoc; simpl; split;
    first [by intros ?%prefix_length; rewrite length_app in *; simpl in *; lia
          |by intros [k Hk]; rewrite <- !app_assoc in Hk; apply app_inv_head in Hk; simplify_eq].
Qed.

Lemma recover_seals store : steps (seals store) (recover store).
Proof.
  assert (∀ area prefix relative report, head prefix = Some x2e →
    steps (seals store) (recover_atomic_temps store (dir store area) relative prefix report)) as Htemps.
  { intros area prefix relative report Hp. apply steps_anchored, steps_recover_temps.
    intros s. by apply anchor_outside, temporary_entry. }
  unfold recover, with_roots_exclusive, recover_interrupted_publications.
  steps_by ltac:(first [solve [eauto with steps] | apply steps_anchored, steps_lock_roots_exclusive
    |apply steps_guarded_seals | apply steps_recover_publication | apply steps_recover_stage | by apply Htemps
    |apply steps_anchored, steps_recover_temps, anchor_outside_root]).
Qed.

(** C9: recovery is safe.  Whatever fails on the way and wherever it is killed,
    [recover] leaves every committed generation as it was, except that a complete one
    whose directory an interrupted publication had not sealed becomes immutable, and is
    then valid; what was protected from collection stays protected. *)
Theorem recover_safe store id w :
  let w' := (recover store w).1 in
  (node_at (generation_place store id) w' = node_at (generation_place store id) w ∨
   ∃ n m, node_at (generation_place store id) w = Some n ∧
     valid_generation (root_device store) (geteuid w) PRIVATE_DIR_MODE id n m ∧
     node_at (generation_place store id) w' = Some (seal n) ∧
     valid_generation (root_device store) (geteuid w') IMMUTABLE_DIR_MODE id (seal n) m) ∧
  (protected store id w → protected store id w').
Proof.
  destruct (recover_seals store w) as [(Hn & Hl & He) Hg]. simpl. split.
  - destruct (Hg id) as [?|(n & m & ? & ? & ?)]; [by left|right]. exists n, m. split_and!; [done..|].
    rewrite He. by apply sealed_valid.
  - intros [[(a & n & r & Ha & Hp & Hr)|(a & n & r & Ha & Hp & Hr)]|(n & Hp & Hh)]; [left; left|left; right|right].
    3: exists n; split; [|by apply Hl]. 1-2: exists a, n, r; split; [done|]; split; [|done].
    all: rewrite Hn; [done|]; (split; [eexists; eauto|]); intros id' E; unfold dir in E;
      apply app_inj_tail in E as [E _]; apply app_inj_tail in E as [_ E]; done.
Qed.
End recovery.
