(* ===== verification/StoreRoots.v ===== *)
(** * Roots protect generations

    An alias is replaced in one step, a retained overlay is registered in one step, and
    from then on the generation they name is protected from collection. *)

From S2P Require Import Prelude RustStr Utf8 ByteOrder ManagedPath ProtocolError Sha256 StoreCodec HexText StoreIdentity StoreRecords StoreFs FsFacts Store StoreFrame StoreVerify StoreGc StorePublish.

#[local] Arguments bs : simpl never.
#[local] Arguments len : simpl never.

(** ** Replacing a record *)

(** The kernel numbers a new inode with a number that no file has. *)
Definition fresh (w : world) : Prop := ∀ p n, node_at p w = Some n → (ino (status n) < next_ino w)%N.

Lemma write_new_synced_ino p name path b m w w' f :
  write_new_synced p name path b m w = (w', Ok f) →
  ∃ n, node_at (p ++ [name]) w' = Some n ∧ ino (status n) = next_ino w.
Proof.
  intros [Hl H]%io_guard_ok. apply io_bind_ok in H as (g & w1 & Hg & H).
  pose proof (create_regular_at_at _ _ _ _ _ _ Hg) as Hat.
  apply io_bind_ok in Hg as (g' & w2 & Hg & H2). apply io_bind_ok in H2 as (? & w3 & [_ Hm]%set_mode_ok & [-> ->]%io_ret_ok).
  apply io_call_ok in Hg. unfold open_new in Hg.
  destruct (create _ _ _ _ w) as [? [i|?|]] eqn:Hc; simplify_eq/=.
  assert (i = next_ino w) as ->.
  { apply syscall_ok in Hc. repeat case_match; by simplify_eq/=. }
  apply create_ok in Hc as (d & _ & _ & _ & _ & Hn). rewrite Hn in Hm.
  apply io_bind_ok in H as (? & w4 & [_ Hw]%io_call_ok%write_file_ok & H). simpl in *. rewrite Hm in Hw.
  apply io_bind_ok in H as (? & w5 & Hs5%fsync_ok & H). apply io_bind_ok in H as (? & w6 & [_ Hm6]%set_mode_ok & H).
  apply io_bind_ok in H as (? & w7 & Hs7%fsync_ok & [-> _]%io_ret_ok). simpl in *.
  rewrite (same_node _ _ _ Hs5), Hw in Hm6. rewrite (same_node _ _ _ Hs7), Hm6. by eexists.
Qed.

(** The file is under its new name, unless both names were the same file. *)
Lemma rename_replace_ok p name q name' path w w' u :
  rename_replace_at p name q name' path w = (w', Ok u) →
  geteuid w' = geteuid w ∧ ∃ n, node_at (p ++ [name]) w = Some n ∧
    (node_at (q ++ [name']) w' = Some n ∨
     ∃ x, node_at (q ++ [name']) w = Some x ∧ ino (status x) = ino (status n)).
Proof.
  intros H%io_call_ok%syscall_ok. change (node_at ?r (tick w)) with (node_at r w) in H.
  destruct (node_at (p ++ [name]) w) as [n|] eqn:Hn; [|done]. destruct (node_at q w) as [d|] eqn:Hd; [|done].
  destruct (decide _); [done|]. destruct (decide (_ `prefix_of` _)) as [|Hpre]; [done|].
  assert (node_at (q ++ [name']) (attach q name' n (detach p name (tick w))) = Some n) as Hmoved.
  { destruct (detach_keeps_some p name q (tick w)) as [d' Hd']; [by exists d|done|]. by eapply attached. }
  rewrite (node_at_entry _ _ d w) by done. destruct (entries d !! name') as [x|] eqn:Hx.
  - repeat case_decide; try done; injection H as <-; (split; [done|]); exists n; (split; [done|]); first [by left|by right; exists x].
  - injection H as <-. split; [done|]. exists n. split; [done|]. by left.
Qed.

Lemma rename_replace_failed p name q name' path w w' r :
  rename_replace_at p name q name' path w = (w', r) → (∀ u, r ≠ Ok u) → same w w'.
Proof.
  unfold rename_replace_at, io_call, or_else. destruct (rename true p name q name' w) as [w1 r1] eqn:H1.
  intros [= <- <-] Hr. eapply rename_failed; [exact H1|]. intros u ->. by destruct (Hr u).
Qed.

(** The steps by which a record is replaced. *)
Definition replace_record (d : location) (temp temp_path final final_path b : bytes) (o : string) : io () :=
  write_new_synced d temp temp_path b IMMUTABLE_FILE_MODE;;
  renamed ← attempt (rename_replace_at d temp d final final_path);
  match renamed with
  | inl e => ignore (unlink_file_at d temp temp_path);; fail e
  | inr _ => io_call o final_path fsync
  end.

Lemma io_bind_eq {A B} (m : io A) (f : A → io B) w :
  (m ≫= f) w = match m w with
               | (w1, Ok a) => f a w1
               | (w1, Err e) => (w1, Err e)
               | (w1, Panic) => (w1, Panic)
               end.
Proof. unfold mbind, io_bind. by destruct (m w) as [w1 [a|e|]]. Qed.

(** A clean-up that ends in the error does not return. *)
Lemma cleanup_fails {A} (m : io A) (e : StoreError.t) w w' r : (m;; fail (A:=()) e) w = (w', r) → r ≠ Ok ().
Proof. rewrite io_bind_eq. destruct (m w) as [w1 [a|e'|]]; by intros [= <- <-]. Qed.

Lemma replace_record_atomic d temp temp_path final final_path b o w w' r :
  temp ≠ final → fresh w → replace_record d temp temp_path final final_path b o w = (w', r) →
  (node_at (d ++ [final]) w' = node_at (d ++ [final]) w ∧ r ≠ Ok ()) ∨
  ((len b ≤ MAX_METADATA_BYTES)%N ∧
   ∃ n, node_at (d ++ [final]) w' = Some n ∧ kind (status n) = RegularFile b ∧ mode (status n) = IMMUTABLE_FILE_MODE).
Proof.
  intros Hne Hfresh. set (F := frame (λ r, r = d ++ [final]) (λ _, True)).
  assert (∀ r, r = d ++ [final] → outside r d temp) as Hout by (intros ? ->; by apply outside_sibling).
  unfold replace_record. rewrite io_bind_eq.
  destruct (write_new_synced d temp temp_path b IMMUTABLE_FILE_MODE w) as [w1 r1] eqn:H1.
  assert (F w w1) as F1 by (by eapply stepped; [apply steps_write_new_synced|exact H1]).
  destruct r1 as [f|e|]; [|by intros [= <- <-]; left; split; [apply F1|]..].
  pose proof (write_new_synced_ino _ _ _ _ _ _ _ _ H1) as (n & Hn & Hi).
  apply write_new_synced_ok in H1 as (Hlen & _ & _ & _ & (n' & Hn' & Hk & _ & _ & _ & Hm) & _).
  rewrite Hn in Hn'. injection Hn' as <-. rewrite io_bind_eq.
  unfold attempt. destruct (rename_replace_at d temp d final final_path w1) as [w2 r2] eqn:H2. destruct r2 as [[]|e|].
  - intros H. right. split; [done|]. apply rename_replace_ok in H2 as (_ & n' & Hn' & Hcase).
    rewrite Hn in Hn'. injection Hn' as <-. exists n. split; [|done].
    assert (same w2 w') as Hs by (eapply stepped; [|exact H]; apply steps_io_call, steps_fsync, _).
    rewrite (same_node _ _ _ Hs). destruct Hcase as [?|(x & Hx & Hxi)]; [done|].
    rewrite (proj1 F1) in Hx by done. apply Hfresh in Hx. lia.
  - apply rename_replace_failed in H2 as Hs2; [|done]. intros H. left. split; [|by eapply cleanup_fails].
    assert (F w2 w') as F2.
    { eapply stepped; [|exact H]. apply steps_bind; [apply _| |intros _; apply steps_fail, _].
      apply steps_ignore; [apply _|]. by apply steps_unlink_file_at. }
    by rewrite (proj1 F2), (same_node _ _ _ Hs2), (proj1 F1).
  - apply rename_replace_failed in H2 as Hs2; [|done]. intros [= <- <-]. left. split; [|done].
    by rewrite (same_node _ _ _ Hs2), (proj1 F1).
Qed.

(** ** Operations up to their write *)

(** Only locks, the script, the clock and the counter moved. *)
Definition still (w w' : world) : Prop := tree w' = tree w ∧ geteuid w' = geteuid w ∧ next_ino w' = next_ino w.
#[export] Instance still_observing : Observing still.
Proof.
  split; [split|].
  - by intros w.
  - intros w1 w2 w3 (? & ? & ?) (? & ? & ?). split_and!; congruence.
  - intros w w' (? & ? & ? & ?). by split_and!.
Qed.

Lemma still_node p w w' : still w w' → node_at p w' = node_at p w.
Proof. intros (Ht & _). unfold node_at. by rewrite Ht. Qed.
Lemma still_fresh w w' : still w w' → fresh w → fresh w'.
Proof. intros Hs Hf p n Hn. rewrite (still_node _ _ _ Hs) in Hn. destruct Hs as (_ & _ & ->). by eapply Hf. Qed.
Lemma steps_flock_still f m wait : steps still (flock f m wait).
Proof.
  apply steps_syscall; [apply _|]. intros w. simpl. case_decide; [destruct wait; reflexivity|by split_and!].
Qed.

(** A step that writes nothing: the operation ends there, or goes on in an equal tree. *)
Lemma bind_still {A B} (m : io A) (f : A → io B) w w' r :
  steps still m → (m ≫= f) w = (w', r) →
  (still w w' ∧ ∀ b, r ≠ Ok b) ∨ ∃ a w1, m w = (w1, Ok a) ∧ still w w1 ∧ f a w1 = (w', r).
Proof.
  intros Hm. rewrite io_bind_eq. specialize (Hm w). destruct (m w) as [w1 [a|e|]]; simpl in Hm; intros H.
  - right. by exists a, w1.
  - left. by injection H as <- <-.
  - left. by injection H as <- <-.
Qed.

Section roots.
Context {sha : Sha2} {hex : Hex} {text : StdText} {sha_laws : Sha2Laws} {hex_laws : HexLaws}.
Implicit Types (self store : Store).

Lemma steps_lock_roots_still self : steps still (lock_roots_exclusive self).
Proof.
  unfold lock_roots_exclusive. steps_by ltac:(first [solve [eauto with steps] | apply steps_flock_still]).
Qed.

(** *** Aliases *)
Definition names_generation (self : Store) (key : AliasKey.t) (a id : Digest) (w : world) : Prop :=
  ∃ n, node_at (alias_place self a) w = Some n ∧
    AliasRecord.decode (content (status n)) (alias_path self a) = Ok (AliasRecord.alias_record a key id).
Definition may_name (self : Store) (key : AliasKey.t) (id : Digest) (w : world) : Prop :=
  ∃ n m, node_at (generation_place self id) w = Some n ∧ validate_alias_target key m = Ok () ∧
    valid_generation (root_device self) (geteuid w) IMMUTABLE_DIR_MODE id n m.

Definition alias_set (self : Store) (key : AliasKey.t) (a id : Digest) (w w' : world) (r : sresult ()) : Prop :=
  (node_at (alias_place self a) w' = node_at (alias_place self a) w ∧ r ≠ Ok ()) ∨
  (names_generation self key a id w' ∧ may_name self key id w).

Lemma alias_not_temporary a s : bs ".tmp-alias-" ++ s ≠ alias_filename a.
Proof. done. Qed.

Lemma alias_id_digest key a : AliasKey.id key = Ok a → is_digest a.
Proof. unfold AliasKey.id. intros (b & _ & <-%ok_inj)%bind_ok. apply sha256_length. Qed.

Lemma alias_written key a id record b i path :
  alias_key_ok key → is_digest id → AliasKey.id key = Ok a → AliasRecord.new key id = Ok record →
  AliasRecord.encode record = Ok b → (len b ≤ MAX_METADATA_BYTES)%N → kind i = RegularFile b →
  AliasRecord.decode (content i) path = Ok (AliasRecord.alias_record a key id).
Proof.
  intros Hk Hid Ha Hnew He Hl Hkind. unfold AliasRecord.new in Hnew. rewrite Ha in Hnew. injection Hnew as <-.
  apply alias_exact. unfold content. rewrite Hkind. split_and!; [|done..]. split_and!; [done| |done..].
  by eapply alias_id_digest.
Qed.

Lemma alias_stopped self key a id w w' r :
  still w w' → r ≠ Ok () → alias_set self key a id w w' r.
Proof. intros Hs Hr. left. split; [by apply still_node|done]. Qed.

(** Under the lock. *)
Definition set_alias_locked (self : Store) (key : AliasKey.t) (generation_id : Digest) : io () :=
  generation ← verify_generation self generation_id;
  pure (validate_alias_target key (manifest generation));;
  id ← pure (AliasKey.id key);
  found ← attempt (read_alias self id);
  match found with
  | inr record =>
    if decide (AliasRecord.key record ≠ key)
    then fail (StoreError.InvalidMetadata MetadataKind.Alias (alias_path self id)
                 (bs "alias filename collides with a different canonical key"))
    else mret ()
  | inl StoreError.AliasNotFound => mret ()
  | inl e => fail e
  end;;
  record ← pure (AliasRecord.new key generation_id);
  suffix ← unique_suffix;
  b ← pure (AliasRecord.encode record);
  replace_record (dir self ALIASES) (bs ".tmp-alias-" ++ suffix) (path_in self ALIASES (bs ".tmp-alias-" ++ suffix))
    (alias_filename id) (alias_path self id) b "sync alias replacement".

Lemma set_alias_eq self key id :
  set_alias self key id = (validate_root_identity self;; with_roots_exclusive self (set_alias_locked self key id)).
Proof. done. Qed.

Lemma alias_bind {A} self key a id w0 w w' r (m : io A) (f : A → io ()) :
  still w0 w → steps still m →
  (∀ x w1, m w = (w1, Ok x) → still w0 w1 → f x w1 = (w', r) → alias_set self key a id w0 w' r) →
  (m ≫= f) w = (w', r) → alias_set self key a id w0 w' r.
Proof.
  intros S Hm Hf [[? ?]|(x & w1 & H1 & S1 & H)]%bind_still; [| |done].
  - apply alias_stopped; [by etrans|done].
  - eapply Hf; [exact H1|by etrans|done].
Qed.

Lemma set_alias_locked_ok self key a id w0 w w' r :
  alias_key_ok key → is_digest id → AliasKey.id key = Ok a → fresh w0 → still w0 w →
  set_alias_locked self key id w = (w', r) → alias_set self key a id w0 w' r.
Proof.
  intros Hk Hid Ha Hf S. unfold set_alias_locked.
  apply alias_bind; [done|steps_auto|]. intros g w1 (_ & n & Hn & Hv & _)%verify_mode_ok S1.
  assert (validate_alias_target key (manifest g) = Ok () → may_name self key id w0) as Hmay.
  { intros Ht. exists n, (manifest g). rewrite <- (still_node _ _ _ S). destruct S as (_ & <- & _). done. }
  apply alias_bind; [done|steps_auto|]. intros [] w2 [-> Ht]%io_pure_ok _. specialize (Hmay Ht).
  apply alias_bind; [done|steps_auto|]. intros a' w3 [-> Ha']%io_pure_ok _. rewrite Ha in Ha'. injection Ha' as <-.
  apply alias_bind; [done|steps_auto|]. intros found w3 _ S3.
  apply alias_bind; [done|steps_auto|]. intros [] w4 _ S4.
  apply alias_bind; [done|steps_auto|]. intros record w5 [-> Hnew]%io_pure_ok _.
  apply alias_bind; [done|apply steps_unique_suffix, _|]. intros s w6 _ S6.
  apply alias_bind; [done|steps_auto|]. intros b w7 [-> He]%io_pure_ok _.
  intros [[Hsame Hr]|(Hl & n' & Hn' & Hkind & _)]%replace_record_atomic; [..|done|by eapply still_fresh].
  - left. split; [|done]. unfold alias_place. rewrite Hsame. by apply still_node.
  - right. split; [|done]. exists n'. split; [done|]. by eapply alias_written.
Qed.

(** *** What [set_alias] leaves alone *)
Definition beside_alias (self : Store) (a : Digest) (r : location) : Prop :=
  finals self r ∨ (∃ a', a' ≠ a ∧ r = alias_place self a') ∨ (∃ c, r = retained_place self c).

Lemma alias_filename_inj a a' : alias_filename a = alias_filename a' → a = a'.
Proof. intros H%app_inv_tail. by eapply id_to_string_inj. Qed.

Lemma steps_replace_record places holders d temp temp_path final final_path b o :
  (∀ r, places r → outside r d temp) → (∀ r, places r → outside r d final) →
  steps (frame places holders) (replace_record d temp temp_path final final_path b o).
Proof. intros. unfold replace_record. steps_auto. Qed.

Lemma steps_set_alias self key a id :
  AliasKey.id key = Ok a → steps (frame (beside_alias self a) (λ _, True)) (set_alias self key id).
Proof.
  intros Ha. rewrite set_alias_eq. unfold with_roots_exclusive, set_alias_locked. rewrite Ha.
  assert (∀ name, (∀ a', a' ≠ a → name ≠ alias_filename a') →
            ∀ r, beside_alias self a r → outside r (dir self ALIASES) name) as Hout.
  { intros name Hname r [[i ->]|[(a' & Hne & ->)|(c & ->)]]; apply outside_entry; [done| |done].
    intros [_ E]%pair_equal_spec. by apply (Hname a'). }
  apply steps_bind; [apply _|steps_auto|intros _]. apply steps_bind; [apply _|apply steps_lock_roots_exclusive|intros lock].
  apply steps_guarded; [by left|]. apply steps_bind; [apply _|steps_auto|intros g].
  apply steps_bind; [apply _|steps_auto|intros _]. match goal with |- steps ?R (_ ≫= ?f) => change (steps R (f a)) end.
  steps_by ltac:(first [solve [eauto with steps] | apply steps_replace_record; apply Hout;
    [intros ??; apply alias_not_temporary|by intros a' Hne ->%alias_filename_inj]]).
Qed.

(** C7: setting an alias is atomic and roots its target.  For a valid key, whatever
    fails and wherever [set_alias] is killed, the alias is as it was or names the given
    generation, which then was a valid generation that the key may name; every other
    alias, every retained root and every committed generation is as it was.  When
    [set_alias] returns [Ok], the generation is protected: every later collection
    keeps it. *)
Theorem set_alias_roots self key a id w w' r :
  alias_key_ok key → is_digest id → AliasKey.id key = Ok a → fresh w →
  set_alias self key id w = (w', r) →
  alias_set self key a id w w' r ∧
  (∀ q, beside_alias self a q → node_at q w' = node_at q w) ∧
  (r = Ok () → protected self id w' ∧ protected self id (garbage_collect self w').1 ∧
     ∃ n m, node_at (generation_place self id) (garbage_collect self w').1 = Some n ∧
       valid_generation (root_device self) (geteuid w) IMMUTABLE_DIR_MODE id n m).
Proof.
  intros Hk Hid Ha Hf H. assert (alias_set self key a id w w' r) as Hset.
  { rewrite set_alias_eq in H. revert H. apply alias_bind; [reflexivity|steps_auto|]. intros [] w1 _ S1.
    apply alias_bind; [done|apply steps_lock_roots_still|]. intros lock w2 _ S2. unfold guarded.
    destruct (set_alias_locked self key id w2) as [w3 r3] eqn:Hb. intros [= <- <-].
    by eapply set_alias_locked_ok in Hb. }
  pose proof (stepped _ _ _ _ _ (steps_set_alias self key a id Ha) H) as (Hn & _ & He). split_and!; [done..|].
  intros ->. destruct Hset as [[_ ?]|[(n & Hp & Hd) (g & m & Hg & _ & Hv)]]; [done|].
  assert (protected self id w') as Hprot.
  { left. left. exists a, n, (AliasRecord.alias_record a key id). split_and!; [by eapply alias_id_digest|done..]. }
  pose proof (garbage_collect_keeps self id w' Hprot) as Hkeep. split_and!; [done|by eapply protected_kept|].
  exists g, m. split; [|done]. destruct Hkeep as (Hkn & _). rewrite Hkn by (by left). rewrite Hn; [done|]. left. by eexists.
Qed.
End roots.
