(* ===== verification/StoreSample.v ===== *)
(** * A store in action

    Runs of the store on a small file system, with a hash that can be evaluated: the
    theorems of the store at concrete inputs, and runs that show what the sources do in
    corners their comments describe otherwise. *)

From S2P Require Import Prelude RustStr Utf8 ByteOrder ManagedPath ProtocolError Sha256 StoreCodec HexText StoreIdentity StoreRecords StoreFs FsFacts FsRemove Store StoreFrame StoreVerify StoreGc StorePublish StoreBegin StoreRecover StoreRoots.

#[local] Arguments bs : simpl never.

(** ** A hash and texts *)
Module SampleStore.
Definition mix (h : N) (b : bytes) : N := foldl (λ h b, (h * 31 + code b + 1) mod 65521)%N h b.
#[export] Instance mix_sha2 : Sha2 := {|
  hasher := N; hasher_new := 7%N; hasher_update := mix; hasher_finalize := to_be 32;
  sha256_digest b := to_be 32 (mix 7 b);
|}.
#[export] Instance mix_laws : Sha2Laws.
Proof.
  split.
  - intros pieces. change (to_be 32 (foldl mix 7%N pieces) = to_be 32 (mix 7%N (concat pieces))).
    assert (∀ h, foldl mix h pieces = mix h (concat pieces)) as ->; [|reflexivity].
    induction pieces as [|p pieces IH]; intros h; [reflexivity|]. change (foldl mix (mix h p) pieces = mix h (p ++ concat pieces)).
    rewrite IH. unfold mix. by rewrite foldl_app.
  - intros b. change (length (to_be 32 (mix 7%N b)) = 32). by rewrite length_to_be.
Qed.
#[export] Instance sample_text : StdText := {| io_text _ := bs "error"; path_text p := p; debug_text p := p |}.
#[export] Existing Instance SampleHex.sample_hex.
#[export] Existing Instance SampleHex.sample_hex_laws.
Abbreviation sample_spec := SampleGeneration.sample_spec.

(** ** The file system: an empty private directory /srv/pocket *)
Definition directory_node (i m : N) (e : gmap bytes node) : node := Node (inode_of i 1 1000 m 2 DirectoryFile) e.
Definition world0 : world :=
  world_of (directory_node 1 493 {[ bs "srv" := directory_node 2 493 {[ bs "pocket" := directory_node 3 448 ∅ ]} ]})
    10 [] [] 1000 18 42 0 (λ n, (5 * n)%N).
Definition root_path : ManagedUmlPath.t := ManagedUmlPath.ManagedUmlPath (bs "/srv/pocket/store").

Definition value {A} (d : A) (r : sresult A) : A := match r with Ok a => a | _ => d end.
Definition store : Store := value (store_of [] [] 0 0) (initialize root_path world0).2.
Definition world1 : world := (initialize root_path world0).1.

(** A build: a transaction, a base image, its publication. *)
Definition no_transaction : GenerationTransaction := transaction_of sample_spec [] (file [] 0) [] [] None false.
Definition began2 : world * sresult GenerationTransaction := try_begin_rebuild store sample_spec world1.
Definition build : GenerationTransaction := value no_transaction began2.2.
Definition image : bytes := bs "a root file system".
Definition written : world :=
  update (append image) (stage build ++ [BASE_IMAGE]) (create_base store build began2.1).1.
Definition image_digest : Digest := sha256_digest image.
Definition published3 : world * sresult Lease := publish_leased store build image_digest [] written.
Definition world3 : world := published3.1.
Definition leased_id (r : sresult Lease) : Digest := match r with Ok lease => lease_id lease | _ => [] end.
Definition id3 : Digest := leased_id published3.2.

(** ** Looking at a world *)
Definition owned (p : location) (device m : N) (b : bytes) (w : world) : bool :=
  match node_at p w with
  | Some n => match kind (status n) with
              | RegularFile c => bool_decide (c = b ∧ nlink (status n) = 1%N ∧ dev (status n) = device ∧
                                              uid (status n) = geteuid w ∧ mode (status n) = m)
              | _ => false
              end
  | None => false
  end.
Lemma owned_true p device m b w : owned p device m b w = true → owned_file p device m b w.
Proof.
  unfold owned, owned_file. destruct (node_at p w) as [n|]; [|done]. destruct (kind (status n)) eqn:Hk; try done.
  intros (-> & ? & ? & ? & ?)%bool_decide_eq_true. by exists n.
Qed.

Definition shared_on (p : location) (w : world) : bool :=
  match node_at p w with Some n => bool_decide ((ino (status n), Shared) ∈ locks w) | None => false end.
Lemma shared_on_true st id w : shared_on (lease_place st id) w = true → leased st id w.
Proof.
  unfold shared_on, leased. destruct (node_at (lease_place st id) w) as [n|]; [|done].
  intros ?%bool_decide_eq_true. by exists n.
Qed.

Fixpoint max_ino (n : node) : N := let 'Node i e := n in map_fold (λ _ child m, N.max (max_ino child) m) (ino i) e.
Lemma max_ino_find q n d : find q n = Some d → (ino (status d) ≤ max_ino n)%N.
Proof.
  revert n. induction q as [|c q IH]; intros [i e]; simpl.
  - intros [= <-]. simpl. apply (map_fold_weak_ind (λ m (_ : gmap bytes node), (ino i ≤ m)%N)); [done|lia].
  - destruct (e !! c) as [child|] eqn:Hc; [|done]. simpl. intros Hd%IH. etrans; [exact Hd|]. clear IH Hd.
    revert c child Hc. apply (map_fold_weak_ind (λ m (e : gmap bytes node), ∀ c child, e !! c = Some child → max_ino child ≤ m)%N);
      [by intros|].
    intros k x m r Hk IH c child. destruct (decide (k = c)) as [->|Hne].
    + rewrite lookup_insert_eq. intros [= ->]. lia.
    + rewrite lookup_insert_ne by done. intros ?%IH. lia.
Qed.
Lemma max_ino_fresh w : (max_ino (tree w) <? next_ino w)%N = true → fresh w.
Proof. intros H%N.ltb_lt p n Hn%max_ino_find. unfold node_at in Hn. lia. Qed.

Definition is_ok {A} (r : sresult A) : bool := match r with Ok _ => true | _ => false end.
Lemma ran {A} (m : io A) (w : world) : is_ok (m w).2 = true → ∃ a, m w = ((m w).1, Ok a).
Proof. destruct (m w) as [w1 [a|e|]]; try done. by exists a. Qed.
Lemma ran_to {A} (m : io A) (w : world) a : (m w).2 = Ok a → m w = ((m w).1, Ok a).
Proof. destruct (m w) as [w1 r]. by intros [= ->]. Qed.

(** ** The build *)
Lemma build_ok : transaction_ok store build written.
Proof.
  assert (spec build = sample_spec) as Hs by (vm_compute; reflexivity).
  split.
  - rewrite Hs. split; [exact SampleGeneration.sample_spec_ok|vm_compute; reflexivity].
  - vm_compute. reflexivity.
  - split; vm_compute; reflexivity.
  - exists (value [] (StagingRecord.encode (StagingRecord.staging_record (derivation_key build)))).
    split; [apply owned_true; vm_compute; reflexivity|vm_compute; reflexivity].
Qed.
Lemma published_ok : ∃ lease, publish_leased store build image_digest [] written = (world3, Ok lease) ∧ lease_id lease = id3.
Proof.
  destruct (ran (publish_leased store build image_digest []) written) as [lease H]; [vm_compute; reflexivity|].
  exists lease. split; [exact H|]. change (lease_id lease = leased_id (publish_leased store build image_digest [] written).2).
  by rewrite H.
Qed.
Definition sample_key : Digest := value [] (GenerationSpec.derivation_key sample_spec).
Lemma sample_key_ok : GenerationSpec.derivation_key sample_spec = Ok sample_key.
Proof. vm_compute. reflexivity. Qed.

Lemma try_begin_generation_exact_witness :
  ∃ self, try_begin_generation_inner store sample_spec true world1 = ((try_begin_generation_inner store sample_spec true world1).1, Ok (Vacant self)) ∧
    began store sample_spec sample_key (try_begin_generation_inner store sample_spec true world1).1 (Vacant self).
Proof.
  destruct (ran (try_begin_generation_inner store sample_spec true) world1) as [b H]; [vm_compute; reflexivity|].
  pose proof (try_begin_generation_exact store sample_spec sample_key true _ _ _ SampleGeneration.sample_spec_ok
                sample_key_ok H) as [_ Hb].
  destruct b as [lease|self]; [exfalso|exists self; split; [exact H|exact (Hb _ eq_refl)]].
  assert (match (try_begin_generation_inner store sample_spec true world1).2 with
          | Ok (Existing _) => false | _ => true end = true) as Hno by (vm_compute; reflexivity).
  rewrite H in Hno. discriminate Hno.
Defined.

Lemma publish_atomic_witness :
  grows store (outputs_of build image_digest []) written world3 ∧ held store (outputs_of build image_digest []) id3 world3.
Proof.
  destruct published_ok as (lease & H & Hid).
  destruct (publish_atomic store build image_digest [] _ _ _ build_ok (Forall_nil_2 _) H) as [Hg Hh].
  split; [exact Hg|]. rewrite <- Hid. exact (Hh lease eq_refl).
Defined.

Lemma published_survives_collections_witness :
  held store (outputs_of build image_digest []) id3
    (Nat.iter 2 (λ w, (garbage_collect store w).1) world3).
Proof.
  destruct published_ok as (lease & H & Hid). rewrite <- Hid.
  exact (published_survives_collections store build image_digest [] _ _ _ 2 build_ok (Forall_nil_2 _) H).
Defined.

Lemma verify_generation_exact_witness :
  ∃ n m, node_at (generation_place store id3) world3 = Some n ∧
    valid_generation (root_device store) (geteuid world3) IMMUTABLE_DIR_MODE id3 n m.
Proof.
  destruct (ran (verify_generation store id3) world3) as [g H]; [vm_compute; reflexivity|].
  destruct (verify_generation_exact store id3 world3) as [Hok _].
  destruct (Hok _ _ H) as (_ & n & Hn & _ & Hv). exists n, (manifest g). exact (conj Hn Hv).
Defined.

(** A collection while the lease is held, and one after it was dropped. *)
Lemma garbage_collect_safe_witness :
  node_at (generation_place store id3) (garbage_collect store world3).1 = node_at (generation_place store id3) world3.
Proof.
  apply garbage_collect_safe. right. apply shared_on_true. vm_compute. reflexivity.
Defined.

Definition unlock (w : world) : world := with_locks [] w.
Lemma garbage_collect_report_witness :
  node_at (generation_place store id3) (garbage_collect store (unlock world3)).1 = None ∧
  ¬ protected store id3 (unlock world3).
Proof.
  destruct (ran (garbage_collect store) (unlock world3)) as [report H]; [vm_compute; reflexivity|].
  assert (id3 ∈ collected report) as Hin.
  { assert (match (garbage_collect store (unlock world3)).2 with
            | Ok r => bool_decide (id3 ∈ collected r) | _ => false end = true) as Hb by (vm_compute; reflexivity).
    rewrite H in Hb. apply bool_decide_eq_true in Hb. exact Hb. }
  destruct (garbage_collect_report store _ _ _ H id3) as [Hc _]. destruct (Hc Hin) as (Hnone & Hfree & _). exact (conj Hnone Hfree).
Defined.

(** A publication that was not sealed, as a crash can leave it. *)
Definition unsealed : world :=
  update (λ n, set_status (with_mode PRIVATE_DIR_MODE (status n)) n) (generation_place store id3) (unlock world3).
Definition mode_at (p : location) (w : world) : option N := mode ∘ status <$> node_at p w.

Lemma recover_safe_witness :
  ∃ n m, node_at (generation_place store id3) (recover store unsealed).1 = Some n ∧
    valid_generation (root_device store) (geteuid (recover store unsealed).1) IMMUTABLE_DIR_MODE id3 n m.
Proof.
  destruct (recover_safe store id3 unsealed) as [[Hsame|(n & m & _ & _ & Hn & Hv)] _].
  - assert (mode_at (generation_place store id3) (recover store unsealed).1 = Some IMMUTABLE_DIR_MODE) as H1
      by (vm_compute; reflexivity).
    assert (mode_at (generation_place store id3) unsealed = Some PRIVATE_DIR_MODE) as H2 by (vm_compute; reflexivity).
    unfold mode_at in H1. rewrite Hsame in H1. unfold mode_at in H2. rewrite H2 in H1. discriminate H1.
  - exists (seal n), m. exact (conj Hn Hv).
Defined.

(** An alias for it. *)
Definition alias_key : AliasKey.t :=
  AliasKey.alias_key (bs "x86_64-smp-p4k") (SampleGeneration.digest x05) (bs "alpine:3.20") SampleGeneration.sample_platform
    (bs "oci-selector-v1").
Definition alias_id : Digest := value [] (AliasKey.id alias_key).
Lemma alias_key_valid : alias_key_ok alias_key.
Proof. split_and!; [reflexivity|apply (bool_decide_unpack _); vm_compute; exact I|apply SampleGeneration.sample_platform_ok|vm_compute; reflexivity]. Qed.

Lemma set_alias_roots_witness :
  protected store id3 (set_alias store alias_key id3 (unlock world3)).1.
Proof.
  assert ((set_alias store alias_key id3 (unlock world3)).2 = Ok ()) as H by (vm_compute; reflexivity).
  apply ran_to in H.
  apply (set_alias_roots store alias_key alias_id id3) in H as (_ & _ & Hok).
  - exact (proj1 (Hok eq_refl)).
  - exact alias_key_valid.
  - vm_compute. reflexivity.
  - vm_compute. reflexivity.
  - apply max_ino_fresh. vm_compute. reflexivity.
Defined.


End SampleStore.
