(* ===== verification/StoreRuns.v ===== *)
(** * Runs of the store in the corners

    Sequences of operations, some of them killed on the way, whose results the comments
    in store.rs describe otherwise or leave open. *)

From S2P Require Import Prelude RustStr Utf8 ByteOrder ManagedPath ProtocolError Sha256 StoreCodec HexText StoreIdentity StoreRecords StoreFs FsFacts FsRemove Store StoreFrame StoreVerify StoreGc StorePublish StoreBegin StoreRecover StoreRoots StoreSample.
Import SampleStore.

#[local] Arguments bs : simpl never.

Module StoreRuns.
(** The process is killed at its call number [k]. *)
Definition killed_at (k : nat) (w : world) : world :=
  world_of (tree w) (next_ino w) (locks w) (replicate k Works ++ [Killed 0]) (geteuid w) (umask w) (process_id w)
    (unique_counter w) (nanos w).
Definition on_ok {A B} (r : sresult A) (f : A → io B) : io B :=
  match r with Ok a => f a | Err e => fail e | Panic => pure Panic end.
Definition seen {A} (P : A → bool) (r : sresult A) : bool := match r with Ok a => P a | _ => false end.
Definition has {A} `{EqDecision A} (a : A) (l : list A) : bool := bool_decide (a ∈ l).
Definition present (p : location) (w : world) : bool := match node_at p w with Some _ => true | None => false end.

(** ** A removal that is killed between its two records *)
Definition overlay : bytes := bs "overlay".
Definition cow : world :=
  update (link (bs "cow") (Node (inode_of 9 1 1000 PRIVATE_FILE_MODE 1 (RegularFile overlay)) ∅))
    [bs "srv"; bs "pocket"] (unlock world3).
Definition retained4 : world * sresult RetainedCow.t :=
  on_ok published3.2 (λ lease, register_retained_cow store lease (bs "/srv/pocket/cow") (sha256_digest overlay)
                                 RetainedCowState.Clean) cow.
Definition named4 : world * sresult Instance_.t :=
  on_ok retained4.2 (λ r, create_instance store (bs "box") id3 (RetainedCow.id r) (bs "alpine") [] (bs "sh") 1 2
                            (InstanceOutcome.Exited 0)) retained4.1.
Definition half_removed : world := (remove_instance store (bs "box") (killed_at 27 named4.1)).1.

(** Before, a collection keeps the generation that the instance needs.  After
    [remove_instance] was killed between the retained root and the record, the instance is
    still there, and a collection removes its generation. *)
Theorem killed_removal_loses_base :
  seen (λ r, negb (has id3 (collected r))) (garbage_collect store named4.1).2 = true ∧
  is_ok (instance store (bs "box") half_removed).2 = true ∧
  seen (λ r, has id3 (collected r)) (garbage_collect store half_removed).2 = true ∧
  is_ok (instance store (bs "box") (garbage_collect store half_removed).1).2 = true.
Proof. vm_compute. split_and!; reflexivity. Qed.

(** ** A collection that is killed in the removal of a tree *)
Definition half_collected : world := (garbage_collect store (killed_at 102 (unlock world3))).1.
Definition rebuild5 : world * sresult GenerationTransaction := try_begin_rebuild store sample_spec half_collected.
Definition staged5 : world :=
  (on_ok rebuild5.2 (λ t w, let '(w, r) := create_base store t w in
                            (update (append image) (stage t ++ [BASE_IMAGE]) w, r)) rebuild5.1).1.

(** The rest of the generation is then never collected, recovery leaves it, and the
    same generation cannot be published again. *)
Theorem killed_collection_blocks_generation :
  seen (λ r, has id3 (corrupt_unrooted r)) (garbage_collect store half_collected).2 = true ∧
  seen (λ r, has (generation_path store id3) (blocked_entries r)) (recover store half_collected).2 = true ∧
  match (on_ok rebuild5.2 (λ t, publish_leased store t image_digest []) staged5).2 with Err _ => true | _ => false end
    = true.
Proof. vm_compute. split_and!; reflexivity. Qed.

(** ** A lease on a lock file that a collection unlinks *)

(** [acquire_lease_inner] after it has opened the lock file. *)
Definition finish_acquire (id : Digest) (lock : File) : io Lease :=
  io_call "acquire shared generation lease" (lease_path store id) (flock lock Shared true);;
  holding lock Shared (generation ← verify_generation store id; mret (lease_of generation lock)).
Lemma acquire_in_two id : acquire_lease_inner store id = (open_lease_lock store id ≫= finish_acquire id).
Proof. reflexivity. Qed.

Definition opened6 : world * sresult File := open_lease_lock store id3 (unlock world3).
Definition collected6 : world := (garbage_collect store opened6.1).1.
Definition rebuild6 : world * sresult GenerationTransaction := try_begin_rebuild store sample_spec collected6.
Definition rebuilt6 : world * sresult Lease :=
  on_ok rebuild6.2 (λ t w, let '(w, r) := create_base store t w in
                           publish_leased store t image_digest [] (update (append image) (stage t ++ [BASE_IMAGE]) w))
    rebuild6.1.
Definition dropped6 : world := (on_ok rebuilt6.2 drop_lease rebuilt6.1).1.
Definition acquired6 : world * sresult Lease := on_ok opened6.2 (finish_acquire id3) dropped6.

(** One process opens the lock file of a generation; a collection removes the generation
    and unlinks that file; another process builds the same generation again; the first
    one locks its file and verifies the generation, and so has a lease.  The next
    collection removes the generation under it. *)
Theorem lease_on_unlinked_file :
  is_ok opened6.2 = true ∧ is_ok rebuilt6.2 = true ∧
  seen (λ lease, bool_decide (lease_id lease = id3)) acquired6.2 = true ∧
  seen (λ r, has id3 (collected r)) (garbage_collect store acquired6.1).2 = true.
Proof. vm_compute. split_and!; reflexivity. Qed.

(** ** The temporary record of an instance *)
Definition remnant : bytes := bs ".tmp-instance-0123456789abcdef".
Definition interrupted7 : world :=
  update (link remnant (Node (inode_of 9 1 1000 PRIVATE_FILE_MODE 1 (RegularFile [])) ∅)) (dir store INSTANCES) world1.

(** Recovery removes the remnants of the other records, but not this one. *)
Theorem instance_remnant_not_recovered :
  seen (λ r, bool_decide (removed_temporary_records r = [] ∧ blocked_entries r = [])) (recover store interrupted7).2 = true ∧
  present (dir store INSTANCES ++ [remnant]) (recover store interrupted7).1 = true.
Proof. vm_compute. split; reflexivity. Qed.

(** ** A long argument *)
Definition long_argument : bytes := replicate 4097 x61.
Definition named8 : world * sresult Instance_.t :=
  create_instance store (bs "box") (SampleGeneration.digest x01) (SampleGeneration.digest x02) (bs "alpine") [long_argument] (bs "sh") 1 2
    InstanceOutcome.Unknown world1.

(** The instance is created, and then neither it nor the list of instances can be read. *)
Theorem long_argument_unreadable :
  is_ok named8.2 = true ∧ is_ok (instance store (bs "box") named8.1).2 = false ∧
  is_ok (instances store named8.1).2 = false ∧ is_ok (retained_roots store named8.1).2 = false.
Proof. vm_compute. split_and!; reflexivity. Qed.
End StoreRuns.
